(* ===== verification/_CoqProject ===== *)
-Q . S2P
Prelude.v
GoFloat.v
GoSort.v
GoHeap.v
GoChan.v
GoStrings.v
GoPath.v
GoTime.v
Errors.v
Retry.v
TokenScale.v
PubSub.v
Approvals.v
Adoc.v
Workspace.v
Sandbox.v
TaskStore.v
Tools.v
ToolGates.v
Hooks.v
Attachments.v
Types.v
Genai.v
Tracker.v
Sql.v
Schema.v
Storage.v
Embeddings.v
Threads.v
Integrity.v
GoHash.v
AnnIndex.v
ChunkKey.v
Llm.v
Httpc.v
Scorers.v
Chatwire.v
Anthropic.v
OpenAI.v
Ollama.v
Counting.v
Predicate.v
Chunk.v
Detect.v
Dag.v
Protocol.v
Pairing.v
PbText.v
LocalContext.v
Inserter.v
Runner.v
Registry.v
Autonomous.v
Control.v
ToolAgent.v
EngineConfig.v
Settings.v
GenaiKit.v
Factory.v
Selection.v
Provenance.v
Engine.v
Subagent.v
Oracle.v
Prerequisites.v
Assembly.v
Bridge.v
Delivery.v
StoreLink.v
ThreadApi.v
Search.v
EmbedQueue.v
Substrate.v
