(* ===== verification/Prelude.v ===== *)
(** * Grudge: a verification development

    Grudge is a lossless-memory agent runtime written in Go.  Its engine (RRC,
    [src/rrc]) keeps the whole conversation outside the model, and for every
    outbound call retrieves the earlier messages the current turn depends on,
    closes them under tool-call/result pairs, and sheds what does not fit the
    token budget.  Around it are the bridge to the agent framework, the
    provider adapters, and a service: a relational store, an agent runner with
    its tools, background search, settings, and a GraphQL API.  This library
    models the engine and that service as shallow embeddings translated from
    the Go sources.

    ** How the parts interact

    The bridge ([Bridge]) receives one model call.  It reads a bounded window of
    the thread, derives the anchor (the last semantic message of the turn)
    and asks the engine to assemble a payload ([Assembly]).  Assembly closes the
    window under protocol pairs ([Protocol]), serializes it as a query
    ([LocalContext], [Chunk], [GoHash]), selects prerequisites
    ([Prerequisites]: chunk retrieval through an oracle filtered by a
    [Predicate], cross-encoder scores through the cache of [Dag], acceptance by
    the law of [Detect], ancestry mass from [Provenance]), walks the dependency
    graph ([Selection]), reranks for diversity ([Engine]) and sheds to the
    budget, which is counted by the projections of [Counting].  The bridge sends
    the wire to a provider (through [Retry]), retries on context overflow
    ([Errors]), delivers the stream, feeds reported usage to the token-scale
    learner ([TokenScale]) and records provenance ([Engine]).  The oracle of the
    service ([Oracle]) retrieves from an in-memory nearest-neighbour index
    ([AnnIndex]) under the keys of [ChunkKey].  A provider is one of the adapters
    [Anthropic], [OpenAI], [Ollama] over the transport [Httpc] (the last two
    through the canonical chat of [Chatwire]) or [GenaiKit] over the Google SDK;
    [Delivery] puts adapter, retry decorator and bridge together; rerankers and
    the TEI embedder are in [Scorers].

    In the service, [Substrate] turns [Settings] into a live engine, oracle,
    searcher and embed queue and swaps them on a change.  [Factory] makes a
    thread's runner, [Registry] keeps one per thread.  The runner ([Runner])
    drives the framework for one turn and writes what it yields through the
    [Inserter] into the store ([Sql], [Schema], [Storage], [Embeddings],
    [Threads]); [Autonomous] repeats turns, [Subagent] forks, [Control] starts,
    pauses, resumes and reconciles runs.  The tools the model calls are [Tools]
    over [Workspace], [Sandbox], [TaskStore] and [Hooks]; their approvals and
    questions go through [ToolAgent] and [Approvals].  [ThreadApi] holds the
    mutations on threads and messages, [Search] and [EmbedQueue] semantic search
    and background embedding, [Attachments] uploads.  [StoreLink] instantiates
    the engine's store interfaces at the database.  Selections are tallied by
    [Tracker]; events fan out through [PubSub]; [Genai] is the codec of the SDK
    types; [Adoc] compiles prompt documents.

    ** Files

    - [Prelude]: Go errors, call outcomes, the state-and-outcome monad [GoM],
      machine integers, map iteration order as a class, shared lemmas.
    - The language and its library.  [GoFloat]: float64/float32 on [SpecFloat],
      [math.Frexp], [Log], [Log2], [Exp2]; order and rounding lemmas.  [GoSort]:
      [sort.Slice] as a class of permutations, [sort.SliceStable].  [GoHeap]:
      [container/heap].  [GoChan]: buffered channels in a heap of objects.
      [GoStrings]: [strings].  [GoPath]: [path/filepath].  [GoTime]: durations.
      [GoHash]: SHA-256, FNV-1a, hex.
    - [Errors]: [core/errors.go], [core/httpc/status.go].  [Retry]:
      [core/httpc/retry].  [TokenScale]: [rrc/tokenscale].  [PubSub]:
      [service/pubsub].  [Approvals]: [service/approvals].  [Adoc]: [adoc].
      [Types]: the proto messages.  [Genai]: [core/genaicodec].  [Tracker]:
      [service/selections].
    - [Predicate]: [rrc/predicate.go].  [Chunk]: [rrc/chunk].  [Detect]:
      [rrc/detect.go], [rrc/acceptance.go].  [Dag]: [rrc/dag.go],
      [rrc/score_cache.go].  [Protocol]: [rrc/protocol.go].  [PbText]:
      [proto/pbtext].  [LocalContext]: [rrc/local_context.go].
      [EngineConfig]: [rrc/config.go].  [Selection]: [rrc/selection.go].
      [Provenance]: the mass walk of [rrc/provenance.go].  [Engine]:
      [rrc/engine.go], [RecordProvenance], the diversity rerank.
      [Prerequisites]: [rrc/prerequisite_selection.go].  [Assembly]:
      [rrc/assembly.go].  [Bridge]: [adkbridge/rrcllm.go].
    - [AnnIndex]: [service/annindex].  [ChunkKey]: [service/chunkkey].
      [Oracle]: [service/oracle].
    - [Llm]: the completion messages and the stream contract of
      [core/completer.go].  [Httpc]: [core/httpc/client.go], the status errors
      and [bufio.Scanner].  [Chatwire], [Anthropic], [OpenAI], [Ollama]: the
      packages of these names under [core/adapter].  [GenaiKit]: [genaikit],
      [vertex] and [googleai] there.  [Scorers]: [tei], [zerank], [gcpranking].
      [Counting]: [core/counting.go] and the projections.  [Delivery]: the stack
      from an adapter to the consumer.
    - [Sql]: statements and transactions.  [Schema]: [service/storage/db.go],
      [schema.go].  [Storage]: messages and chunks of [service/storage];
      [Embeddings]: [embeddings.go]; [Threads]: threads, edges, scores, agent
      states, plans, selections, traces.  [Integrity]: the referential
      invariant.  [Pairing]: closed corpora.  [StoreLink]: the store behind the
      engine's interfaces.
    - [Inserter]: [service/messages].  [Runner], [Autonomous], [Subagent]:
      [service/agent].  [Registry]: [service/runtime/registry.go].  [Control]:
      the agent resolvers of [service/graph], [service/runtime/reconcile.go],
      [service/plans].  [ToolAgent]: [service/runtime/toolagent.go].  [Factory]:
      [service/runtime/factory.go], [service/skills], [service/prompt],
      [service/mcp], [service/graph/errors.go].
    - [Workspace]: [sandbox/workspace.go], [service/datadir].  [Sandbox]:
      [sandbox/docker.go].  [TaskStore], [Tools]: [service/agent/tools];
      [ToolGates]: the proofs about them.  [Hooks]: [service/hooks].
      [Attachments]: [service/attachments].
    - [Settings]: [service/config].  [Substrate]: [service/substrate],
      [core/registry.go], the settings resolvers.  [ThreadApi]: the thread and
      message resolvers.  [Search], [EmbedQueue]: [service/search].

    A Go method is the definition of the same name taking its receiver first;
    a loop body or a branch that is long has a definition of its own.
    [Record_] is [Tracker.Record]; [b_Subscribe] and its siblings are
    the methods of [Broadcast]; a name that GraphQL and a package share has the
    suffix [_query] or [_mutation].

    ** What the theorems show

    - Assembly: the wire is the system message, the delivered groups and the
      Local Context, each message once, tool calls with their results
      ([Assemble_wire]); it fits the budget and reports its own recount
      ([Assemble_within_budget]); pinned messages survive any budget
      ([pinned_delivered]); an overflow retry reuses the earlier selection
      ([Assemble_reuses_prior]); the shed drops a group of least density
      ([lowestDensityGroup_least]); both loops end ([assembly_terminates]); a
      fork and a request without a store never complete ([Assemble_needs]).
    - Selection of prerequisites: acceptance is exactly the gate of the law
      ([acceptance_exact]); an event only adds scores and the returned edges,
      whatever its outcome ([SelectPrerequisites_effect]); delivered messages
      are never proposed and scopes hold ([SelectPrerequisites_isolated]).
    - Graph algorithms: traversal, transitive reduction, protocol closure, the
      mass walk: exactness, equations and termination on every graph, cyclic
      ones included ([Selection], [Protocol], [Provenance], [Dag]).
    - Bridge: an outbound call ends, politely ([GenerateContent_terminates]);
      the usage contract of a stream ([tryStream_contract]); what counts as a
      completed turn ([stream_attempt_records]).
    - Providers: the adapters over HTTP never break off a stream
      ([Stream_contract]), every adapter keeps the contract of the interface
      (the instances of [StreamContract]), the retry decorator preserves it, and
      against the contract alone a consumer is given the whole stream and one
      completing response ([streamed_turn]); streamed tool calls are put
      together from their own fragments ([tool_call_assembled],
      [accumulate_indexed]); the canonical chat answers its calls and loses no
      text ([Canonicalize_wire]); an answer of the Google SDK is the same
      streamed or whole ([streamed_as_whole]); what a codec sends its projection
      counts ([wire_counted]); reranking in batches is reranking one by one
      ([tei_Score_pointwise]).
    - Retry: [Do] refines an abstract retry machine ([Do_refines]) and a stream
      is never replayed ([Stream_never_replays]).
    - Store: whatever statement fails, keys stay unique and references resolved
      ([store_integrity]); an old file survives interrupted migrations and is
      migrated by the first undisturbed opening ([migration_resumes]); deleting
      a thread is complete ([DeleteThread_complete]); the engine's view of the
      store closes under protocol pairs ([window_scope_closes],
      [branch_corpus_closed]).
    - Agent: a turn keeps calls and results paired whatever happens
      ([SendMessage_closed]) and answers every call it announced
      ([announced_calls_answered]); so does a run of turns, which ends only for
      the reasons it may ([RunAutonomous_closed]); one builder per thread, no
      lost wake-up ([single_flight], [GetOrBuild_terminates]); after a restart
      rows and loops agree ([ReconcileOnBoot_spec], [RemainingBudget_spec]);
      pausing never loses a waiter ([pause_gate]).
    - Tools: no write before plan mode, hook and policy let it through
      ([write_tools_gated]); hooks fail closed ([FireHook_fail_closed]); only a
      received verdict approves ([RequireApproval_decides],
      [first_verdict_delivered]); paths stay in the workspace
      ([ResolveWorkspacePath_confined]) and the workspaces of two threads apart
      ([sandboxes_disjoint]); the container of a command sees nothing else
      ([Exec_runs]).
    - API: an edit loses nothing and its branch is paired
      ([EditMessage_branch]); downloads are confined and give back what was
      uploaded ([HandleDownload_confined], [upload_download_roundtrip]).
    - Substrate: settings are validated before they are applied and a failing
      update keeps the live engine ([UpdateSettings_spec],
      [UpdateEngineConfig_atomic]); at most one live embed queue, whatever
      interleaves ([one_live_queue]); what is saved loads
      ([Load_after_Save], [Load_valid]); accepted embedding jobs run exactly once
      and a closed queue drains ([EmbedQueue_exactly_once],
      [EmbedQueue_drains]); search returns the best chunk per message
      ([Search_spec]).
    - Services: a topic refines a table of bounded mailboxes
      ([Topic_refines]), the token-scale learner refines a windowed maximum
      and its artifact round-trips ([Scale_windowed_max], [Observe_persists]),
      the codec round trip ([genai_roundtrip]), prompt documents compile or fail
      but end ([Compile_terminates]).
    - Retrieval: adding to the index never panics and keeps its graphs well
      formed ([Add_ok]); the widening search ends and returns the best accepted
      chunk of at most [k] distinct messages ([NearestChunks_spec]); the service's
      oracle keeps the contract the engine's theorems assume
      ([engine_oracle_contract]); chunk keys round-trip ([Split_Make]).
    - The rest: chunk windows, local-context serialization, the predicate
      compiler, the bounds of the detection statistics, edge admission, fork
      and merge, greedy diversity.

    ** Interfaces

    A scorer, a chunk oracle, a corpus store, the chunk tables, an embedder, a
    provider and a consumer are records of functions.  What a client relies on
    is a class: [Engine.OracleContract] (retrieval honours its predicate and its
    limit; [Oracle] implements it), [Llm.StreamContract] (deltas, then at most
    one terminal chunk or an error; the adapters and the retry decorator
    implement it, the bridge relies on it), [Oracle.ChunkDBLaws] (a query
    returns rows of the messages asked for) and [Assembly.StoreContract]
    (messages come back under their ids), both implemented by [StoreLink],
    [Genai.JsonLaws] ([encoding/json] on decoded maps), [Prelude.MapRange]
    (any iteration order of a Go map) and [GoSort.SliceSort] (any result
    [sort.Slice] may give).

    What is outside the repository answers through classes and parameters, by
    tick where it may answer differently each time: [Sql.Env] (refused
    statements, the clock, contexts), [Storage.ProtoCodec] and
    [Threads.ResultCodec] ([proto.Marshal]), [Tools.World] (runtime, operating
    system, shell, network behind the tools), [Attachments.Disk] and [Sniffing],
    [Settings.Os], [SettingsJson] with [SettingsJsonLaws], [Substrate.InputJson],
    [Factory.Dirs].  The contracts and laws have concrete instances, used by
    the witnesses.

    ** Integers, floats, fuel

    [int] and [int64] are [Z] with their wrap-around written out where the code
    computes ([wrap64], [wrapi32]); floats are IEEE values, so verdicts evaluate
    to the bits Go computes.  Loops that are not structural run on fuel: the
    graph walks on a number of steps bounded by the stored edges, the shed
    loops on the number of messages, [Retry.attempts] on [MaxAttempts],
    [Bridge.GenerateContent] on any number above one plus the size of the first
    selection, the graph search of [AnnIndex] on the nodes and the distance of its
    start, the widening of [Oracle] on the number of vectors, [Adoc.compile] on
    one more than the files there are, the batches of [Scorers] on the number
    of candidates; the termination theorems and the lemmas beside the loops
    show each is enough.

    ** Concurrency

    Methods that run under one mutex are atomic steps.  Where the code leaves
    the mutex between two effects ([Approvals.SendApproval], the callers of
    [Registry], the workers of [EmbedQueue], the closers of [Substrate]) the
    steps are separate and interleaved by a step relation or an arbitrary list
    of operations.  Other goroutines that write while a turn runs are part of
    the run [Runner] is given.  Context cancellation is an input per attempt in
    [Retry] and per statement in [Sql]; elsewhere a cancelled context shows as
    an error of the interface it is passed to.

    ** Not modelled

    Wall-clock fields, logging, telemetry timings, texts of elapsed times, and
    database write-through failures that are only logged; [%q] is on names
    without escapes.  The agent framework is the sequence of events it yields,
    the registration of tools and callbacks with it ([NewRunner], [BuildTools],
    [StripADKIdentity]) is wiring.  Raw SQL: the vector search
    ([NearestChunkVectors], [ScanChunkVectors]) takes a clause of its caller and
    runs inside the vector extension; no code uses the input history table.
    Path confinement is lexical: symbolic links are the file system's.  The
    network is what an exchange gives: an error, or a status and a body read up
    to an error; JSON texts are decoded by a function.  Parameters, because
    their code is not in the repository: the Google SDK, the tokenizer behind
    [rrc/tiktoken], the docker client, [text/template], the keyring, the MCP
    client, [encoding/json], [proto.Marshal].  Generated code
    ([service/graph/generated.go], [models_gen.go], the proto packages), the
    resolvers that only forward a channel or a JSON view state, the command
    lines, the tray icon, the benchmark harness and the web client are left
    out.  [ChunkOracle.EnsureVector] is part of the interface but the engine
    never calls it. *)

From Stdlib Require Import ZArith Lia.
From stdpp Require Export base tactics numbers strings sets gmap fin_maps list.


(** ** Go errors *)

(** An [error] value.  Sentinels are the package-level [errors.New] values of
    [core/errors.go], [rrc/errors.go], [service/agent/runner.go] and of the
    standard library's [context] package; [ENew] is an anonymous error text,
    [EStatus] is [httpc.StatusError], and [EWrap pre e post] is
    [fmt.Errorf(pre + "%w" + post, e)]. *)
Inductive goerr : Type :=
  | EUnsupported
  | EAuth
  | EProviderUnavailable
  | ERateLimited
  | EContextTooLong
  | EModelNotFound
  | EScorerFailed
  | EScorerUnavailable
  | EMessageNotFound
  | EThreadNotFound
  | ENoResponse
  | EStopped
  | ERatioOutOfBand
  | ECanceled
  | EDeadlineExceeded
  | ENew (text : string)
  | EStatus (provider : string) (code : Z) (body : string)
  | EWrap (pre : string) (inner : goerr) (post : string).

#[export] Instance goerr_eq_dec : EqDecision goerr.
Proof. solve_decision. Defined.

(** ** Results of Go calls *)

(** A call returns normally, returns a non-nil error, or panics. *)
Inductive outcome (A : Type) : Type :=
  | Ok (a : A)
  | Err (e : goerr)
  | Panic (text : string).
Arguments Ok {A} a.
Arguments Err {A} e.
Arguments Panic {A} text.

#[export] Instance outcome_ret : MRet outcome := fun A a => Ok a.
#[export] Instance outcome_bind : MBind outcome := fun A B f m =>
  match m with Ok a => f a | Err e => Err e | Panic s => Panic s end.
#[export] Instance outcome_fmap : FMap outcome := fun A B f m =>
  match m with Ok a => Ok (f a) | Err e => Err e | Panic s => Panic s end.

Definition is_ok {A} (m : outcome A) : bool :=
  match m with Ok _ => true | _ => false end.

(** Stateful calls: the state survives an error or a panic, as it does in Go. *)
Definition GoM (S A : Type) : Type := S -> S * outcome A.

#[export] Instance gom_ret {S} : MRet (GoM S) := fun A a s => (s, Ok a).
#[export] Instance gom_bind {S} : MBind (GoM S) := fun A B f m s =>
  match m s with
  | (s', Ok a) => f a s'
  | (s', Err e) => (s', Err e)
  | (s', Panic t) => (s', Panic t)
  end.

Definition gom_get {S} : GoM S S := fun s => (s, Ok s).
Definition gom_put {S} (s : S) : GoM S unit := fun _ => (s, Ok tt).
Definition gom_lift {S A} (o : outcome A) : GoM S A := fun s => (s, o).
Definition gom_err {S A} (e : goerr) : GoM S A := fun s => (s, Err e).

Lemma bind_ok {S A B} (m : GoM S A) (f : A -> GoM S B) s s' a : m s = (s', Ok a) -> (m ≫= f) s = f a s'.
Proof. unfold mbind, gom_bind. by intros ->. Qed.

Lemma bind_ok_inv {S A B} (m : GoM S A) (f : A -> GoM S B) s s' b : (m ≫= f) s = (s', Ok b) ->
  exists s1 a, m s = (s1, Ok a) /\ f a s1 = (s', Ok b).
Proof. unfold mbind, gom_bind. destruct (m s) as [s1 [a| |]]; [|done..]. intros E. by exists s1, a. Qed.

(** [err := m()]: the error as a value. *)
Definition gom_catch {S} (m : GoM S unit) : GoM S (option goerr) := fun s =>
  match m s with
  | (s', Ok _) => (s', Ok None)
  | (s', Err e) => (s', Ok (Some e))
  | (s', Panic t) => (s', Panic t)
  end.

(** [for _, x := range l { ... }] with an accumulator, stopping at the first
    error or panic. *)
Fixpoint foldM {M : Type -> Type} `{MRet M, MBind M} {A B}
    (f : B -> A -> M B) (b : B) (l : list A) : M B :=
  match l with
  | [] => mret b
  | x :: l' => f b x ≫= fun b' => foldM f b' l'
  end.

(** [out = append(out, f(x))] over a list, stopping at the first failure. *)
Fixpoint mapO {A B} (f : A -> outcome B) (l : list A) : outcome (list B) :=
  match l with
  | [] => Ok []
  | x :: l' =>
      match f x with
      | Ok y =>
          match mapO f l' with
          | Ok ys => Ok (y :: ys)
          | Err e => Err e
          | Panic s => Panic s
          end
      | Err e => Err e
      | Panic s => Panic s
      end
  end.

(** ** Machine integers *)

(** Two's-complement [int]/[int64] arithmetic. *)
Definition wrap64 (z : Z) : Z := (z + 2 ^ 63) `mod` 2 ^ 64 - 2 ^ 63.
Definition in_int64 (z : Z) : Prop := (- 2 ^ 63 <= z < 2 ^ 63)%Z.
Definition wrapu64 (z : Z) : Z := z `mod` 2 ^ 64.
Definition wrapu32 (z : Z) : Z := z `mod` 2 ^ 32.
Definition wrapi32 (z : Z) : Z := (z + 2 ^ 31) `mod` 2 ^ 32 - 2 ^ 31.

Lemma wrap64_id z : in_int64 z -> wrap64 z = z.
Proof. unfold in_int64, wrap64. intros. rewrite Z.mod_small by lia. lia. Qed.

Lemma wrap64_range z : in_int64 (wrap64 z).
Proof.
  unfold in_int64, wrap64.
  pose proof (Z.mod_pos_bound (z + 2 ^ 63) (2 ^ 64)). lia.
Qed.

(** ** Map iteration

    [for k, v := range m] visits the entries in an order the language leaves
    unspecified; a development result that holds for every instance of this
    class holds for every iteration order. *)
Class MapRange (K : Type) `{Countable K} := {
  map_range : forall {A : Type}, gmap K A -> list (K * A);
  map_range_perm : forall A (m : gmap K A), map_range m ≡ₚ map_to_list m
}.

#[program] Definition canonical_range `{Countable K} : MapRange K :=
  {| map_range := fun A m => map_to_list m |}.
Next Obligation. reflexivity. Qed.

Lemma elem_of_map_range `{Countable K, !MapRange K} {A} (m : gmap K A) k v :
  (k, v) ∈ map_range m <-> m !! k = Some v.
Proof. rewrite map_range_perm. apply elem_of_map_to_list. Qed.

Lemma map_range_keys_NoDup `{Countable K, !MapRange K} {A} (m : gmap K A) :
  NoDup (map_range m).*1.
Proof. rewrite map_range_perm. apply NoDup_fst_map_to_list. Qed.

(** A Go map used as a set of flags: [m\[k\]] is false for an absent key. *)
Definition flag `{Countable K} (m : gmap K bool) (k : K) : bool := default false (m !! k).

(** ** Lists *)

Lemma foldM_ok_inv {A B} (P : B -> Prop) (f : B -> A -> outcome B) l b b' :
  P b ->
  (forall x c c', x ∈ l -> P c -> f c x = Ok c' -> P c') ->
  foldM f b l = Ok b' -> P b'.
Proof.
  revert b. induction l as [|x l IH]; intros b Hb Hf Hl; simpl in Hl.
  - injection Hl as <-. exact Hb.
  - unfold mbind, outcome_bind in Hl. destruct (f b x) as [c| |] eqn:E; [|discriminate..].
    apply (IH c); [|intros y d d' Hy; apply Hf; set_solver|exact Hl].
    eapply Hf; [|exact Hb|exact E]. set_solver.
Qed.

(** A relation every iteration respects holds between the first and the last
    state, whatever the outcome of the loop. *)
Lemma foldM_gom_rel {S A B} (R : relation S) `{!PreOrder R} (f : B -> A -> GoM S B) l b s :
  (forall x b s, x ∈ l -> R s (f b x s).1) -> R s (foldM (M := GoM S) f b l s).1.
Proof.
  revert b s. induction l as [|x l IH]; intros b s Hf; [reflexivity|].
  assert (R s (f b x s).1) as Hx by (apply Hf; by left).
  cbn [foldM]. unfold mbind, gom_bind. destruct (f b x s) as [s' [b'| |]]; simpl in *; [|done..].
  transitivity s'; [done|]. apply IH. intros y c t Hy. apply Hf. by right.
Qed.

Lemma mapO_ok_Forall2 {A B} (f : A -> outcome B) l l' :
  mapO f l = Ok l' <-> Forall2 (fun x y => f x = Ok y) l l'.
Proof.
  revert l'. induction l as [|x l IH]; intros l'; simpl.
  - split; [intros [= <-]; constructor | inversion 1; reflexivity].
  - destruct (f x) as [y| |] eqn:E.
    + destruct (mapO f l) as [ys| |] eqn:E2.
      * split.
        -- intros [= <-]. constructor; [exact E|]. by apply IH.
        -- inversion 1; subst. repeat f_equal; [congruence|].
           match goal with H : Forall2 _ l _ |- _ => apply IH in H end. congruence.
      * split; [discriminate|]. inversion 1; subst.
        match goal with H : Forall2 _ l _ |- _ => apply IH in H end. discriminate.
      * split; [discriminate|]. inversion 1; subst.
        match goal with H : Forall2 _ l _ |- _ => apply IH in H end. discriminate.
    + split; [discriminate|]. inversion 1; congruence.
    + split; [discriminate|]. inversion 1; congruence.
Qed.

Lemma mapO_length {A B} (f : A -> outcome B) l l' :
  mapO f l = Ok l' -> length l' = length l.
Proof. intros H. apply mapO_ok_Forall2 in H. by apply Forall2_length in H. Qed.

(** ** Calls that return

    [returns m Q]: the call neither fails nor panics, and its value satisfies
    [Q]. *)
Definition returns {A} (m : outcome A) (Q : A -> Prop) : Prop := exists a, m = Ok a /\ Q a.

Lemma returns_ok {A} (a : A) (Q : A -> Prop) : Q a -> returns (Ok a) Q.
Proof. intros H. by exists a. Qed.

Lemma returns_bind {A B} (m : outcome A) (f : A -> outcome B) (R : A -> Prop) (Q : B -> Prop) :
  returns m R -> (forall a, R a -> returns (f a) Q) -> returns (m ≫= f) Q.
Proof. intros (a & -> & Ha) Hf. exact (Hf a Ha). Qed.

Lemma returns_mono {A} (m : outcome A) (R Q : A -> Prop) :
  returns m R -> (forall a, R a -> Q a) -> returns m Q.
Proof. intros (a & E & Ha) H. exists a. auto. Qed.

Lemma returns_foldM {A B} (P : B -> Prop) (f : B -> A -> outcome B) l b :
  P b -> (forall x b, x ∈ l -> P b -> returns (f b x) P) -> returns (foldM f b l) P.
Proof.
  revert b. induction l as [|x l IH]; intros b Hb Hf; [by apply returns_ok|].
  eapply returns_bind; [apply Hf; [by left|done]|]. intros b' Hb'. apply IH; [done|].
  intros y c Hy. apply Hf. by right.
Qed.

Lemma returns_mapO {A B} (R : A -> B -> Prop) (f : A -> outcome B) l :
  (forall x, x ∈ l -> returns (f x) (R x)) -> returns (mapO f l) (Forall2 R l).
Proof.
  induction l as [|x l IH]; intros Hf; [by apply returns_ok|]. cbn [mapO].
  destruct (Hf x ltac:(by left)) as (y & -> & Hy).
  destruct IH as (ys & -> & Hys); [intros z Hz; apply Hf; by right|]. apply returns_ok. by constructor.
Qed.

(** [settles m]: the call returns a value or an error. *)
Definition settles {A} (m : outcome A) : Prop := forall s, m <> Panic s.

Lemma settles_ok {A} (a : A) : settles (Ok a).
Proof. done. Qed.

Lemma settles_err {A} e : settles (Err (A := A) e).
Proof. done. Qed.

Lemma settles_bind {A B} (m : outcome A) (f : A -> outcome B) :
  settles m -> (forall a, settles (f a)) -> settles (m ≫= f).
Proof. intros Hm Hf s. destruct m as [a|e|t]; [apply Hf|done|]. by destruct (Hm t). Qed.

Lemma settles_if {A} (b : bool) (m m' : outcome A) : settles m -> settles m' -> settles (if b then m else m').
Proof. by destruct b. Qed.

(** ** Triples

    [triple P m Q E]: from a state with [P] the call does not panic, returns a
    value with [Q] or fails in a state with [E]. *)
Definition triple {S A} (P : S -> Prop) (m : GoM S A) (Q : A -> S -> Prop) (E : S -> Prop) : Prop := forall s, P s ->
  match m s with
  | (s', Ok a) => Q a s'
  | (s', Err _) => E s'
  | (s', Panic _) => False
  end.

Lemma triple_ret {S A} (P : S -> Prop) (a : A) (Q : A -> S -> Prop) E :
  (forall s, P s -> Q a s) -> triple P (mret a) Q E.
Proof. intros H s Hs. by apply H. Qed.

Lemma triple_err {S A} (P : S -> Prop) e (Q : A -> S -> Prop) E :
  (forall s, P s -> E s) -> triple P (gom_err e) Q E.
Proof. intros H s Hs. by apply H. Qed.

Lemma triple_bind {S A B} (P : S -> Prop) (m : GoM S A) (f : A -> GoM S B) R Q E :
  triple P m R E -> (forall a, triple (R a) (f a) Q E) -> triple P (m ≫= f) Q E.
Proof.
  intros Hm Hf s Hs. unfold mbind, gom_bind. specialize (Hm s Hs).
  destruct (m s) as [s' [a| |]]; [by apply Hf|done..].
Qed.

Lemma triple_conseq {S A} (P P' : S -> Prop) (m : GoM S A) (Q Q' : A -> S -> Prop) (E E' : S -> Prop) :
  triple P' m Q' E' -> (forall s, P s -> P' s) -> (forall a s, Q' a s -> Q a s) -> (forall s, E' s -> E s) ->
  triple P m Q E.
Proof.
  intros Hm HP HQ HE s Hs. specialize (Hm s (HP s Hs)). destruct (m s) as [s' [a| |]]; auto.
Qed.

Lemma triple_foldM {S A B} (I : B -> S -> Prop) (f : B -> A -> GoM S B) l b E :
  (forall x b, x ∈ l -> triple (I b) (f b x) I E) -> triple (I b) (foldM (M := GoM S) f b l) I E.
Proof.
  revert b. induction l as [|x l IH]; intros b Hf; cbn [foldM]; [by apply triple_ret|].
  eapply triple_bind; [apply Hf; by left|]. intros b'. apply IH. intros y c Hy. apply Hf. by right.
Qed.

Create HintDb go.
#[export] Hint Resolve settles_ok settles_err settles_bind settles_if : go.

(** ** Tactics *)

(** Settle a call branch by branch. *)
Ltac go_settles :=
  repeat match goal with
  | |- settles (_ ≫= _) => apply settles_bind; [|intros ?]
  | |- settles (if _ then _ else _) => apply settles_if
  | |- settles (match ?x with _ => _ end) => destruct x
  end; auto with go.

(** Split every [match] on an outcome, option or boolean in a hypothesis. *)
Ltac go_case H :=
  repeat match type of H with
  | context [match ?x with _ => _ end] =>
      let E := fresh "E" in destruct x eqn:E; try discriminate H
  end.

Ltac invc H := inversion H; subst; clear H.
