(* ===== verification/GoFloat.v ===== *)
(** * Go floating point

    [float64] and [float32] as the IEEE-754 binary formats of the standard
    library's [SpecFloat] (round to nearest, ties to even; one NaN), with the
    conversions and the [math] functions the program calls.  A [float32] value
    is a [spec_float] of the 24-bit format; [f64_of_f32] renormalises it.
    [math.Frexp], [Log], [Log2], [Exp2] are the portable Go routines; they are
    executable, so acceptance verdicts evaluate to the bits Go computes. *)

From Stdlib Require Import ZArith Lia SpecFloat.
From S2P Require Import Prelude.
#[local] Open Scope Z_scope.

Abbreviation float := spec_float (only parsing).

#[export] Instance spec_float_eq_dec : EqDecision spec_float.
Proof. solve_decision. Defined.

Declare Scope gofloat_scope.
Delimit Scope gofloat_scope with gf.

(** ** Arithmetic on float64 *)

Definition fadd : float -> float -> float := SFadd 53 1024.
Definition fsub : float -> float -> float := SFsub 53 1024.
Definition fmul : float -> float -> float := SFmul 53 1024.
Definition fdiv : float -> float -> float := SFdiv 53 1024.
Definition fsqrt : float -> float := SFsqrt 53 1024.
Definition fopp : float -> float := SFopp.
Definition fabs : float -> float := SFabs.
Definition flt (a b : float) : bool := SFltb a b.
Definition fle (a b : float) : bool := SFleb a b.
Definition feq (a b : float) : bool := SFeqb a b.
Definition fis_nan (a : float) : bool := match a with S754_nan => true | _ => false end.

Infix "+" := fadd : gofloat_scope.
Infix "-" := fsub : gofloat_scope.
Infix "*" := fmul : gofloat_scope.
Infix "/" := fdiv : gofloat_scope.
Infix "<?" := flt : gofloat_scope.
Infix "<=?" := fle : gofloat_scope.

(** [float64(z)] *)
Definition f64_of_Z (z : Z) : float := binary_normalize 53 1024 z 0 false.
(** The value [m * 2^e], rounded. *)
Definition f64_lit (m e : Z) : float := binary_normalize 53 1024 m e false.

Definition f0 : float := S754_zero false.
Definition f1 : float := f64_of_Z 1.
Definition f2 : float := f64_of_Z 2.
Definition finf : float := S754_infinity false.
Definition fninf : float := S754_infinity true.
Definition fhalf : float := f64_lit 1 (-1).

(** [float32(x)] and [float64(y)] *)
Definition f32_of_f64 (x : float) : float :=
  match x with S754_finite s m e => binary_round 24 128 s m e | _ => x end.
Definition f64_of_f32 (x : float) : float :=
  match x with S754_finite s m e => binary_round 53 1024 s m e | _ => x end.
Definition f32_add : float -> float -> float := SFadd 24 128.
Definition f32_div : float -> float -> float := SFdiv 24 128.

(** [int(x)]: truncation toward zero; a value outside the int64 range (or a
    NaN) becomes the minimum integer, as on amd64. *)
Definition f64_trunc (x : float) : Z :=
  match x with
  | S754_finite s m e =>
      let a := if 0 <=? e then Z.pos m * 2 ^ e else Z.pos m / 2 ^ (- e) in
      if s then - a else a
  | S754_zero _ => 0
  | _ => - 2 ^ 63
  end.
Definition int_of_f64 (x : float) : Z :=
  let z := f64_trunc x in
  if (- 2 ^ 63 <=? z) && (z <? 2 ^ 63) then z else - 2 ^ 63.

(** ** math *)

(** [math.Frexp]: a fraction in [1/2, 1) and an exponent. *)
Definition ffrexp (x : float) : float * Z :=
  match x with
  | S754_finite s m e =>
      let d := Z.pos (digits2_pos m) in
      (binary_round 53 1024 s m (- d), e + d)
  | _ => (x, 0)
  end.
Definition fldexp (x : float) (k : Z) : float := SFldexp 53 1024 x k.

(** The float64 with the given bit pattern (normal numbers). *)
Definition f64_bits (b : Z) : float :=
  let m := Z.land b (2 ^ 52 - 1) + 2 ^ 52 in
  let e := Z.land (Z.shiftr b 52) 2047 - 1075 in
  binary_normalize 53 1024 (if Z.testbit b 63 then - m else m) e false.

(** [math.Log] (portable version), [math.Log2] and [math.Exp2]. *)
Module GoMath.
#[local] Open Scope gofloat_scope.

Definition Ln2Hi : float := Eval vm_compute in f64_bits 0x3fe62e42fee00000.
Definition Ln2Lo : float := Eval vm_compute in f64_bits 0x3dea39ef35793c76.
Definition L1 : float := Eval vm_compute in f64_bits 0x3fe5555555555593.
Definition L2 : float := Eval vm_compute in f64_bits 0x3fd999999997fa04.
Definition L3 : float := Eval vm_compute in f64_bits 0x3fd2492494229359.
Definition L4 : float := Eval vm_compute in f64_bits 0x3fcc71c51d8e78af.
Definition L5 : float := Eval vm_compute in f64_bits 0x3fc7466496cb03de.
Definition L6 : float := Eval vm_compute in f64_bits 0x3fc39a09d078c69f.
Definition L7 : float := Eval vm_compute in f64_bits 0x3fc2f112df3e5244.
Definition InvLn2 : float := Eval vm_compute in f64_bits 0x3ff71547652b82fe.
Definition HalfSqrt2 : float := Eval vm_compute in f64_bits 0x3fe6a09e667f3bcd.
Definition P1 : float := Eval vm_compute in f64_bits 0x3fc5555555555555.
Definition P2 : float := Eval vm_compute in f64_bits 0xbf66c16c16bebd93.
Definition P3 : float := Eval vm_compute in f64_bits 0x3f11566aaf25de2c.
Definition P4 : float := Eval vm_compute in f64_bits 0xbebbbd41c5d26bf1.
Definition P5 : float := Eval vm_compute in f64_bits 0x3e66376972bea4d0.
Definition Overflow : float := Eval vm_compute in f64_bits 0x408fffffffffffff.
Definition Underflow : float := Eval vm_compute in f64_of_Z (-1074).

Definition Log (x : float) : float :=
  if fis_nan x then x
  else if flt x f0 then S754_nan
  else if feq x f0 then fninf
  else if feq x finf then x
  else
    let '(f1', ki') := ffrexp x in
    let '(f1', ki) := if f1' <? HalfSqrt2 then (f1' * f2, (ki' - 1)%Z) else (f1', ki') in
    let f := f1' - f1 in
    let k := f64_of_Z ki in
    let s := f / (f2 + f) in
    let s2 := s * s in
    let s4 := s2 * s2 in
    let t1 := s2 * (L1 + s4 * (L3 + s4 * (L5 + s4 * L7))) in
    let t2 := s4 * (L2 + s4 * (L4 + s4 * L6)) in
    let R := t1 + t2 in
    let hfsq := fhalf * f * f in
    k * Ln2Hi - ((hfsq - (s * (hfsq + R) + k * Ln2Lo)) - f).

Definition Log2 (x : float) : float :=
  let '(frac, ex) := ffrexp x in
  if feq frac fhalf then f64_of_Z (ex - 1)
  else Log frac * InvLn2 + f64_of_Z ex.

Definition expmulti (hi lo : float) (k : Z) : float :=
  let r := hi - lo in
  let t := r * r in
  let c := r - t * (P1 + t * (P2 + t * (P3 + t * (P4 + t * P5)))) in
  let y := f1 - ((lo - (r * c) / (f2 - c)) - hi) in
  fldexp y k.

Definition Exp2 (x : float) : float :=
  if fis_nan x || feq x finf then x
  else if feq x fninf then f0
  else if flt Overflow x then finf
  else if flt x Underflow then f0
  else
    let k := if flt f0 x then int_of_f64 (x + fhalf)
             else if flt x f0 then int_of_f64 (x - fhalf) else 0 in
    let t := x - f64_of_Z k in
    expmulti (t * Ln2Hi) (fopp t * Ln2Lo) k.
End GoMath.

(** ** The order

    On values that are not NaN, [flt] and [fle] are the strict and the weak
    part of a total preorder (the two zeros compare equal).  [fkey] embeds it
    in the lexicographic order on triples, where [lia] decides. *)

Definition fkey (x : float) : Z * Z * Z :=
  match x with
  | S754_infinity true => (-2, 0, 0)
  | S754_finite true m e => (-1, - e, Z.neg m)
  | S754_zero _ | S754_nan => (0, 0, 0)
  | S754_finite false m e => (1, e, Z.pos m)
  | S754_infinity false => (2, 0, 0)
  end.

Definition lex_lt (a b : Z * Z * Z) : Prop :=
  let '(a1, a2, a3) := a in
  let '(b1, b2, b3) := b in
  a1 < b1 \/ (a1 = b1 /\ (a2 < b2 \/ (a2 = b2 /\ a3 < b3))).

Lemma SFcompare_key x y :
  fis_nan x = false -> fis_nan y = false ->
  match SFcompare x y with
  | Some Lt => lex_lt (fkey x) (fkey y)
  | Some Gt => lex_lt (fkey y) (fkey x)
  | Some Eq => fkey x = fkey y
  | None => False
  end.
Proof.
  destruct x as [sx|sx| |sx mx ex], y as [sy|sy| |sy my ey]; simpl; try discriminate;
    intros _ _; destruct sx, sy; simpl; try lia; try reflexivity; unfold lex_lt;
    try lia.
  - change (Pos.compare_cont Eq mx my) with (mx ?= my)%positive.
    destruct (Z.compare_spec ex ey), (Pos.compare_spec mx my); subst; simpl; try lia;
      repeat f_equal; lia.
  - change (Pos.compare_cont Eq mx my) with (mx ?= my)%positive.
    destruct (Z.compare_spec ex ey), (Pos.compare_spec mx my); subst; simpl; try lia;
      repeat f_equal; lia.
Qed.

Lemma lex_lt_irrefl a : ~ lex_lt a a.
Proof. destruct a as [[??]?]; simpl; lia. Qed.

Lemma lex_lt_trans a b c : lex_lt a b -> lex_lt b c -> lex_lt a c.
Proof. destruct a as [[??]?], b as [[??]?], c as [[??]?]; simpl; lia. Qed.

Lemma flt_key x y :
  fis_nan x = false -> fis_nan y = false ->
  (flt x y = true <-> lex_lt (fkey x) (fkey y)).
Proof.
  intros Hx Hy. pose proof (SFcompare_key x y Hx Hy) as H.
  unfold flt, SFltb. destruct (SFcompare x y) as [[]|]; split; intros; try done.
  - rewrite H in *. by apply lex_lt_irrefl in H0.
  - destruct (lex_lt_irrefl (fkey x)); eauto using lex_lt_trans.
Qed.

Lemma flt_fle x y :
  fis_nan x = false -> fis_nan y = false -> flt x y = negb (fle y x).
Proof.
  intros Hx Hy. pose proof (SFcompare_key x y Hx Hy) as H.
  pose proof (SFcompare_key y x Hy Hx) as H'.
  unfold flt, fle, SFltb, SFleb.
  destruct (SFcompare x y) as [[]|], (SFcompare y x) as [[]|]; try done.
  all: exfalso; try rewrite H in *; try rewrite H' in *;
    try match goal with L : lex_lt ?a ?a |- _ => by apply lex_lt_irrefl in L end;
    destruct (lex_lt_irrefl (fkey x)); eauto using lex_lt_trans.
Qed.

(** Comparing with a NaN is false. *)
Lemma flt_nan x y : flt x y = true -> fis_nan x = false /\ fis_nan y = false.
Proof. destruct x, y; simpl; try done; unfold flt, SFltb; simpl; destruct s; done. Qed.

Lemma fle_nan x y : fle x y = true -> fis_nan x = false /\ fis_nan y = false.
Proof. destruct x, y; simpl; try done; unfold fle, SFleb; simpl; destruct s; done. Qed.

Lemma flt_irrefl x : flt x x = false.
Proof.
  destruct (flt x x) eqn:E; [|done]. destruct (flt_nan _ _ E) as [Hx _].
  apply flt_key in E; [|done..]. by apply lex_lt_irrefl in E.
Qed.

Lemma flt_trans x y z : flt x y = true -> flt y z = true -> flt x z = true.
Proof.
  intros H1 H2. destruct (flt_nan _ _ H1), (flt_nan _ _ H2).
  apply flt_key in H1; [|done..]. apply flt_key in H2; [|done..].
  apply flt_key; [done..|]. by eapply lex_lt_trans.
Qed.

Lemma flt_asym x y : flt x y = true -> flt y x = false.
Proof.
  intros H. destruct (flt y x) eqn:E; [|done].
  pose proof (flt_trans _ _ _ H E). by rewrite flt_irrefl in *.
Qed.

(** Incomparability is transitive: [flt] is a strict weak order off NaN. *)
Lemma flt_cotrans x y z :
  fis_nan x = false -> fis_nan y = false -> fis_nan z = false ->
  flt x z = true -> flt x y = true \/ flt y z = true.
Proof.
  intros Hx Hy Hz H. rewrite !flt_key by done. apply flt_key in H; [|done..].
  destruct (fkey x) as [[??]?], (fkey y) as [[??]?], (fkey z) as [[??]?].
  simpl in *. lia.
Qed.

Lemma fle_refl x : fis_nan x = false -> fle x x = true.
Proof. intros H. pose proof (flt_fle x x H H). rewrite flt_irrefl in *. by destruct (fle x x). Qed.

Lemma flt_le x y : flt x y = true -> fle x y = true.
Proof. unfold flt, fle, SFltb, SFleb. by destruct (SFcompare x y) as [[]|]. Qed.

Lemma fle_total x y :
  fis_nan x = false -> fis_nan y = false -> fle x y = true \/ flt y x = true.
Proof. intros Hx Hy. rewrite (flt_fle y x) by done. destruct (fle x y); auto. Qed.

Lemma fle_trans x y z : fle x y = true -> fle y z = true -> fle x z = true.
Proof.
  intros H1 H2. destruct (fle_nan _ _ H1) as [Hx Hy], (fle_nan _ _ H2) as [_ Hz].
  destruct (fle_total x z Hx Hz) as [|H]; [done|].
  destruct (flt_cotrans z y x) as [E|E]; try done.
  - rewrite flt_fle, H2 in E by done. done.
  - rewrite flt_fle, H1 in E by done. done.
Qed.

Lemma fle_flt_trans x y z : fle x y = true -> flt y z = true -> flt x z = true.
Proof.
  intros H1 H2. destruct (fle_nan _ _ H1) as [Hx Hy], (flt_nan _ _ H2) as [_ Hz].
  destruct (flt_cotrans y x z) as [E|E]; try done.
  rewrite flt_fle, H1 in E by done. done.
Qed.

Lemma flt_fle_trans x y z : flt x y = true -> fle y z = true -> flt x z = true.
Proof.
  intros H1 H2. destruct (flt_nan _ _ H1) as [Hx Hy], (fle_nan _ _ H2) as [_ Hz].
  destruct (flt_cotrans x z y) as [E|E]; try done.
  rewrite flt_fle, H2 in E by done. done.
Qed.

(** ** Rounding *)

Lemma shr_1_div mrs : 0 <= shr_m mrs -> shr_m (shr_1 mrs) = shr_m mrs / 2.
Proof.
  rewrite <- Z.div2_div. destruct mrs as [[|[p|p|]|p] r s]; simpl; try done; lia.
Qed.

Lemma iter_shr_div p mrs : 0 <= shr_m mrs -> shr_m (SpecFloat.iter_pos shr_1 p mrs) = shr_m mrs / 2 ^ Z.pos p.
Proof.
  revert mrs. induction p as [p IH|p IH|]; intros mrs H; cbn [SpecFloat.iter_pos].
  - assert (0 <= shr_m (shr_1 mrs)) by (rewrite shr_1_div by done; apply Z.div_pos; lia).
    rewrite !IH, shr_1_div, !Z.div_div by (try rewrite IH; try apply Z.div_pos; lia).
    f_equal. rewrite <- Z.pow_add_r, <- Z.pow_succ_r by lia. f_equal. lia.
  - rewrite !IH, !Z.div_div by (try rewrite IH; try apply Z.div_pos; lia).
    f_equal. rewrite <- Z.pow_add_r by lia. f_equal. lia.
  - by rewrite shr_1_div by done.
Qed.

Lemma shr_spec m l e n :
  0 <= m ->
  shr_m (shr (shr_record_of_loc m l) e n).1 = m / 2 ^ Z.max 0 n /\
  (shr (shr_record_of_loc m l) e n).2 = e + Z.max 0 n.
Proof.
  intros H. assert (shr_m (shr_record_of_loc m l) = m) as Hm by (destruct l as [|[]]; done).
  destruct n as [|p|p]; cbn [shr fst snd].
  - rewrite Hm. change (Z.max 0 0) with 0. rewrite Z.pow_0_r, Z.div_1_r. lia.
  - rewrite iter_shr_div, Hm by lia. change (Z.max 0 (Z.pos p)) with (Z.pos p). lia.
  - rewrite Hm. change (Z.max 0 (Z.neg p)) with 0. rewrite Z.pow_0_r, Z.div_1_r. lia.
Qed.

Lemma digits2_bound m : 2 ^ (Z.pos (digits2_pos m) - 1) <= Z.pos m < 2 ^ Z.pos (digits2_pos m).
Proof.
  induction m as [m IH|m IH|]; cbn [digits2_pos]; [| |done].
  all: rewrite Pos2Z.inj_succ; replace (Z.succ (Z.pos (digits2_pos m)) - 1) with (Z.succ (Z.pos (digits2_pos m) - 1)) by lia.
  all: rewrite !Z.pow_succ_r by lia; lia.
Qed.

Lemma digits2_least m k : 0 <= k -> Z.pos m < 2 ^ k -> Z.pos (digits2_pos m) <= k.
Proof.
  intros Hk H. pose proof (digits2_bound m). destruct (Z.le_gt_cases (Z.pos (digits2_pos m)) k); [done|].
  pose proof (Z.pow_le_mono_r 2 k (Z.pos (digits2_pos m) - 1)). lia.
Qed.

Lemma round_nearest_range m l : round_nearest_even m l = m \/ round_nearest_even m l = m + 1.
Proof. destruct l as [|[]]; simpl; auto. destruct (Z.even m); auto. Qed.

(** Rounding a non-negative significand never makes a NaN. *)
Lemma binary_round_aux_nan s m e l : 0 <= m -> fis_nan (binary_round_aux 53 1024 s m e l) = false.
Proof.
  intros Hm. unfold binary_round_aux, shr_fexp.
  pose proof (shr_spec m l e (fexp 53 1024 (Zdigits2 m + e) - e) Hm) as [H1 _].
  destruct (shr _ _ _) as [r1 e1]; simpl in H1.
  set (m2 := round_nearest_even _ _).
  assert (0 <= m2) as Hm2.
  { assert (0 <= shr_m r1) by (rewrite H1; apply Z.div_pos; lia).
    destruct (round_nearest_range (shr_m r1) (loc_of_shr_record r1)); subst m2; lia. }
  pose proof (shr_spec m2 loc_Exact e1 (fexp 53 1024 (Zdigits2 m2 + e1) - e1) Hm2) as [H2 _].
  destruct (shr (shr_record_of_loc m2 _) _ _) as [r2 e2]; simpl in H2.
  assert (0 <= shr_m r2) as H3 by (rewrite H2; apply Z.div_pos; lia).
  destruct (shr_m r2); [done| |lia]. by destruct (_ <=? _).
Qed.

Lemma fdiv_not_nan s1 m1 e1 s2 m2 e2 :
  fis_nan (fdiv (S754_finite s1 m1 e1) (S754_finite s2 m2 e2)) = false.
Proof.
  unfold fdiv, SFdiv. destruct (SFdiv_core_binary _ _ _ _ _ _) as [[q e] l] eqn:E.
  apply binary_round_aux_nan. revert E. unfold SFdiv_core_binary.
  set (m' := match _ with Z.pos _ => _ | _ => _ end).
  assert (0 <= m') as Hm'.
  { subst m'. case_match; [lia|by apply Z.shiftl_nonneg|lia]. }
  pose proof (Z_div_mod m' (Z.pos m2)) as Hd. destruct (Z.div_eucl m' (Z.pos m2)) as [q0 r0].
  intros [= <- _ _]. nia.
Qed.

(** In the middle of the exponent range a positive significand rounds to a
    finite number. *)
Lemma binary_round_aux_finite s m e l :
  let d := Z.pos (digits2_pos m) in
  -1000 <= d + e -> d + e <= 900 -> e <= 900 ->
  exists m' e', binary_round_aux 53 1024 s (Z.pos m) e l = S754_finite s m' e'.
Proof.
  intros d Hlo Hhi He. unfold binary_round_aux, shr_fexp. cbn [Zdigits2]. fold d.
  pose proof (digits2_bound m) as Hb. fold d in Hb. assert (0 < d) by (subst d; lia).
  set (n1 := fexp 53 1024 (d + e) - e).
  pose proof (shr_spec (Z.pos m) l e n1 ltac:(lia)) as [H1 He1].
  destruct (shr _ _ _) as [r1 e1]; simpl in H1, He1.
  assert (n1 = d - 53) as Hn1 by (subst n1; unfold fexp; change (SpecFloat.emin 53 1024) with (-1074); lia).
  assert (0 < shr_m r1 < 2 ^ 53) as Hr1.
  { rewrite H1. split.
    - apply Z.div_str_pos. split; [lia|]. etransitivity; [|apply Hb]. apply Z.pow_le_mono_r; lia.
    - apply Z.div_lt_upper_bound; [lia|]. rewrite <- Z.pow_add_r by lia.
      eapply Z.lt_le_trans; [apply Hb|]. apply Z.pow_le_mono_r; lia. }
  set (m2 := round_nearest_even _ _).
  assert (0 < m2 <= 2 ^ 53) as Hm2
    by (destruct (round_nearest_range (shr_m r1) (loc_of_shr_record r1)); subst m2; lia).
  destruct m2 as [|p|p]; [lia| |lia]. cbn [Zdigits2].
  pose proof (digits2_bound p) as Hb2. pose proof (digits2_least p 54 ltac:(lia) ltac:(lia)) as Hd2.
  set (d2 := Z.pos (digits2_pos p)) in *. assert (0 < d2) by (subst d2; lia).
  set (n2 := fexp 53 1024 (d2 + e1) - e1).
  pose proof (shr_spec (Z.pos p) loc_Exact e1 n2 ltac:(lia)) as [H2 He2].
  destruct (shr (shr_record_of_loc (Z.pos p) _) _ _) as [r2 e2]; simpl in H2, He2.
  assert (n2 <= Z.max 0 (d2 - 53)) as Hn2
    by (subst n2; unfold fexp; change (SpecFloat.emin 53 1024) with (-1074); lia).
  assert (0 < shr_m r2) as Hr2.
  { rewrite H2. apply Z.div_str_pos. split; [lia|]. etransitivity; [|apply Hb2]. apply Z.pow_le_mono_r; lia. }
  destruct (shr_m r2) as [|q|q]; [lia| |lia].
  destruct (Z.leb_spec e2 (1024 - 53)); [eauto|]. lia.
Qed.

Lemma digits2_shift m d : Z.pos (digits2_pos (Pos.iter xO m d)) = Z.pos (digits2_pos m) + Z.pos d.
Proof.
  induction d as [|d IH] using Pos.peano_ind; [simpl; lia|].
  rewrite Pos.iter_succ. cbn [digits2_pos]. lia.
Qed.

Lemma f64_of_Z_finite z : 0 < z < 2 ^ 63 -> exists m e, f64_of_Z z = S754_finite false m e.
Proof.
  intros H. destruct z as [|p|p]; [lia| |lia]. unfold f64_of_Z, binary_normalize, binary_round.
  pose proof (digits2_least p 63 ltac:(lia) ltac:(lia)) as Hd.
  set (d := Z.pos (digits2_pos p)) in *. assert (0 < d) by (subst d; lia).
  replace (fexp 53 1024 (d + 0)) with (d - 53)
    by (unfold fexp; change (SpecFloat.emin 53 1024) with (-1074); lia).
  unfold shl_align. destruct (d - 53 - 0) as [|k|k] eqn:E.
  all: apply binary_round_aux_finite; rewrite ?digits2_shift; fold d; lia.
Qed.

Create HintDb gofloat.
#[export] Hint Resolve flt_trans fle_trans fle_flt_trans flt_fle_trans flt_le fle_refl : gofloat.
