(* ===== verification/GoSort.v ===== *)
(** * Sorting and heaps of the Go standard library

    [sort.SliceStable] and [sort.Strings] as insertion sort (the stable sorted
    permutation is unique, so the algorithm is immaterial), [sort.Slice] as a
    class of functions that return some sorted permutation (its order on ties
    is unspecified), and [container/heap] as its actual array algorithm. *)

From Stdlib Require Import ZArith Lia String Ascii.
From stdpp Require Import sorting.
From S2P Require Import Prelude.
#[local] Open Scope nat_scope.

(** ** sort.SliceStable *)

Section StableSort.
Context {A : Type} (less : A -> A -> bool).

Fixpoint sort_insert (x : A) (l : list A) : list A :=
  match l with
  | [] => [x]
  | y :: l' => if less x y then x :: l else y :: sort_insert x l'
  end.

Definition sort_stable (l : list A) : list A :=
  fold_left (fun acc x => sort_insert x acc) l [].

(** [y] never has to come before an earlier [x]. *)
Definition not_after (x y : A) : Prop := less y x = false.

Lemma sort_insert_perm x l : sort_insert x l ≡ₚ x :: l.
Proof.
  induction l as [|y l IH]; simpl; [done|]. destruct (less x y); [done|].
  rewrite IH. constructor.
Qed.

Lemma sort_stable_perm l : sort_stable l ≡ₚ l.
Proof.
  unfold sort_stable. rewrite <- (app_nil_r l) at 2. generalize (@nil A).
  induction l as [|x l IH]; intros acc; simpl; [done|].
  rewrite IH, sort_insert_perm. apply Permutation_sym, Permutation_middle.
Qed.

Lemma sort_stable_length l : length (sort_stable l) = length l.
Proof. apply Permutation_length, sort_stable_perm. Qed.

Lemma elem_of_sort_stable x l : x ∈ sort_stable l <-> x ∈ l.
Proof. by rewrite sort_stable_perm. Qed.

Variable P : A -> Prop.
Hypothesis less_asym : forall a b, P a -> P b -> less a b = true -> less b a = false.
Hypothesis less_ntrans : forall a b c, P a -> P b -> P c ->
  less a b = false -> less b c = false -> less a c = false.

Lemma sort_insert_Sorted x l :
  P x -> Forall P l ->
  StronglySorted not_after l -> StronglySorted not_after (sort_insert x l).
Proof.
  intros Hx Hl Hs. induction Hs as [|y l Hs IH Hy]; simpl.
  - repeat constructor.
  - apply Forall_cons in Hl as [Py Pl]. unfold not_after in *.
    destruct (less x y) eqn:E.
    + constructor; [by constructor|]. constructor; [by apply less_asym|].
      apply Forall_forall. intros z Hz. rewrite Forall_forall in Pl.
      rewrite Forall_forall in Hy. eapply (less_ntrans z y x); eauto.
    + constructor; [by apply IH|]. rewrite sort_insert_perm.
      constructor; [done|]. exact Hy.
Qed.

Lemma sort_stable_Sorted l :
  Forall P l -> StronglySorted not_after (sort_stable l).
Proof.
  unfold sort_stable. intros Hl.
  cut (forall acc, Forall P acc -> StronglySorted not_after acc ->
    StronglySorted not_after (fold_left (fun acc x => sort_insert x acc) l acc)).
  { intros H. apply H; constructor. }
  induction Hl as [|x l Hx Hl IH]; intros acc Ha Hs; simpl; [done|].
  apply IH; [|by apply sort_insert_Sorted].
  rewrite sort_insert_perm. by constructor.
Qed.

(** When incomparable elements are equal there is only one sorted
    permutation: sorting forgets the input order. *)
Lemma sorted_perm_unique l1 l2 :
  (forall a b, a ∈ l1 -> b ∈ l1 -> less a b = false -> less b a = false -> a = b) ->
  StronglySorted not_after l1 -> StronglySorted not_after l2 ->
  l1 ≡ₚ l2 -> l1 = l2.
Proof.
  intros Heq Hs1. revert l2. induction Hs1 as [|x l1 Hs1 IH Hx]; intros l2 Hs2 Hp.
  - symmetry in Hp. by apply Permutation_nil_r in Hp.
  - destruct Hs2 as [|y l2 Hs2 Hy]; [by apply Permutation_nil_r in Hp|].
    assert (x = y) as ->.
    { assert (y ∈ x :: l1) as Hyx by (rewrite Hp; set_solver).
      assert (x ∈ y :: l2) as Hxy by (rewrite <- Hp; set_solver).
      rewrite elem_of_cons in Hyx. rewrite elem_of_cons in Hxy.
      destruct Hyx as [<-|Hyx']; [done|]. destruct Hxy as [<-|Hxy']; [done|].
      rewrite Forall_forall in Hx, Hy. apply Heq; [set_solver..| |].
      - apply (Hy x Hxy').
      - apply (Hx y Hyx'). }
    f_equal. apply IH; [set_solver|done|]. by apply Permutation_cons_inv in Hp.
Qed.

Lemma sort_stable_unique l1 l2 :
  (forall a b, a ∈ l1 -> b ∈ l1 -> less a b = false -> less b a = false -> a = b) ->
  Forall P l1 -> l1 ≡ₚ l2 -> sort_stable l1 = sort_stable l2.
Proof.
  intros Heq Hl Hp. apply sorted_perm_unique.
  - intros a b. rewrite !elem_of_sort_stable. apply Heq.
  - by apply sort_stable_Sorted.
  - apply sort_stable_Sorted. by rewrite <- Hp.
  - by rewrite !sort_stable_perm.
Qed.
End StableSort.

(** A sorted list is left alone. *)
Lemma sort_insert_last {A} (less : A -> A -> bool) x l :
  Forall (fun y => less x y = false) l -> sort_insert less x l = l ++ [x].
Proof.
  induction 1 as [|y l Hy _ IH]; simpl; [done|]. by rewrite Hy, IH.
Qed.

Lemma sort_stable_sorted_id {A} (less : A -> A -> bool) l :
  StronglySorted (not_after less) l -> sort_stable less l = l.
Proof.
  unfold sort_stable. intros Hs.
  cut (forall acc, Forall (fun y => Forall (fun x => less x y = false) l) acc ->
    fold_left (fun acc x => sort_insert less x acc) l acc = acc ++ l).
  { intros H. rewrite H; [done|constructor]. }
  induction Hs as [|x l Hs IH Hx]; intros acc Ha; simpl; [by rewrite app_nil_r|].
  rewrite sort_insert_last.
  - rewrite IH; [by rewrite <- app_assoc|].
    apply Forall_app. split.
    + eapply Forall_impl; [exact Ha|]. intros y Hy. by apply Forall_cons in Hy as [? ?].
    + constructor; [|constructor]. exact Hx.
  - eapply Forall_impl; [exact Ha|]. intros y Hy. by apply Forall_cons in Hy as [? _].
Qed.

(** ** sort.Slice: some sorted permutation *)

Class SliceSort := {
  sort_slice : forall {A : Type}, (A -> A -> bool) -> list A -> list A;
  sort_slice_perm : forall A (less : A -> A -> bool) l, sort_slice less l ≡ₚ l;
  sort_slice_sorted : forall A (less : A -> A -> bool) l,
    (forall a b, a ∈ l -> b ∈ l -> less a b = true -> less b a = false) ->
    (forall a b c, a ∈ l -> b ∈ l -> c ∈ l ->
      less a b = false -> less b c = false -> less a c = false) ->
    StronglySorted (not_after less) (sort_slice less l)
}.

#[export] Instance stable_slice_sort : SliceSort | 100.
Proof.
  refine {| sort_slice := fun A less l => sort_stable less l |}.
  - intros. apply sort_stable_perm.
  - intros A less l Ha Hn. apply (sort_stable_Sorted less (fun x => x ∈ l)); auto.
    by apply Forall_forall.
Defined.

(** ** Strings compare bytewise *)

Definition str_lt (a b : string) : bool := String.ltb a b.

Lemma ascii_compare_spec a b :
  CompareSpec (a = b) (N.lt (N_of_ascii a) (N_of_ascii b)) (N.lt (N_of_ascii b) (N_of_ascii a))
    (Ascii.compare a b).
Proof.
  unfold Ascii.compare. destruct (N.compare_spec (N_of_ascii a) (N_of_ascii b)); constructor; try done.
  rewrite <- (ascii_N_embedding a), <- (ascii_N_embedding b). by f_equal.
Qed.

Lemma str_compare_lt_trans a b c :
  String.compare a b = Lt -> String.compare b c = Lt -> String.compare a c = Lt.
Proof.
  revert b c. induction a as [|x a IH]; intros [|y b] [|z c]; simpl; try done.
  destruct (ascii_compare_spec x y), (ascii_compare_spec y z), (ascii_compare_spec x z);
    subst; try done; try lia; eauto.
Qed.

Lemma str_lt_trans a b c : str_lt a b = true -> str_lt b c = true -> str_lt a c = true.
Proof.
  unfold str_lt, String.ltb. destruct (String.compare a b) eqn:E1; try done.
  destruct (String.compare b c) eqn:E2; try done.
  by rewrite (str_compare_lt_trans _ _ _ E1 E2).
Qed.

Lemma str_compare_antisym a b : String.compare a b = CompOpp (String.compare b a).
Proof. apply String.compare_antisym. Qed.

Lemma str_lt_asym a b : str_lt a b = true -> str_lt b a = false.
Proof.
  unfold str_lt, String.ltb. rewrite (str_compare_antisym b a).
  by destruct (String.compare a b).
Qed.

Lemma str_lt_total a b : str_lt a b = false -> str_lt b a = false -> a = b.
Proof.
  unfold str_lt, String.ltb. rewrite (str_compare_antisym b a).
  destruct (String.compare a b) eqn:E; try done. intros _ _. by apply String.compare_eq_iff.
Qed.

Lemma str_lt_irrefl a : str_lt a a = false.
Proof. destruct (str_lt a a) eqn:E; [|done]. rewrite (str_lt_asym _ _ E) in E. done. Qed.

Lemma str_lt_ntrans a b c : str_lt a b = false -> str_lt b c = false -> str_lt a c = false.
Proof.
  intros H1 H2. destruct (str_lt a c) eqn:E; [|done].
  destruct (str_lt b a) eqn:E1.
  - rewrite (str_lt_trans _ _ _ E1 E) in H2. done.
  - rewrite (str_lt_total a b) in E by done. congruence.
Qed.

Definition sort_strings (l : list string) : list string := sort_stable str_lt l.

Lemma sort_strings_perm l : sort_strings l ≡ₚ l.
Proof. apply sort_stable_perm. Qed.

Lemma sort_strings_unique l1 l2 : l1 ≡ₚ l2 -> sort_strings l1 = sort_strings l2.
Proof.
  intros H. apply (sort_stable_unique str_lt (fun _ => True)); eauto using str_lt_asym, str_lt_ntrans.
  - intros a b _ _. apply str_lt_total.
  - by apply Forall_true.
Qed.

Lemma elem_of_sort_strings x l : x ∈ sort_strings l <-> x ∈ l.
Proof. apply elem_of_sort_stable. Qed.
