(* ===== verification/GoHeap.v ===== *)
(** * container/heap

    The array algorithms of Go's [container/heap] over a list: [up], [down],
    [Init], [Push], [Pop], with the array contents preserved as a multiset and
    the heap order restored.  [less] only has to be a strict weak order on the
    elements actually stored (the predicate [P]), which is what floating-point
    priorities give when none of them is a NaN. *)

From Stdlib Require Import ZArith Lia.
From S2P Require Import Prelude.
#[local] Open Scope nat_scope.

Section Swap.
Context {A : Type}.
Implicit Types l : list A.

(** [h\[i\], h\[j\] = h\[j\], h\[i\]] *)
Definition swap (i j : nat) (l : list A) : list A :=
  match l !! i, l !! j with
  | Some a, Some b => <[i := b]> (<[j := a]> l)
  | _, _ => l
  end.

Definition swap_ix (i j k : nat) : nat :=
  if decide (k = i) then j else if decide (k = j) then i else k.

Lemma swap_length i j l : length (swap i j l) = length l.
Proof. unfold swap. repeat case_match; by rewrite ?length_insert. Qed.

Lemma swap_lookup i j l k :
  i < length l -> j < length l -> swap i j l !! k = l !! swap_ix i j k.
Proof.
  intros Hi Hj. unfold swap, swap_ix.
  destruct (lookup_lt_is_Some_2 l i Hi) as [a Ha].
  destruct (lookup_lt_is_Some_2 l j Hj) as [b Hb]. rewrite Ha, Hb.
  repeat case_decide; subst.
  - rewrite list_lookup_insert_eq; rewrite ?length_insert; done.
  - rewrite list_lookup_insert_ne by done. by rewrite list_lookup_insert_eq.
  - by rewrite !list_lookup_insert_ne.
Qed.

Lemma swap_perm i j l : swap i j l ≡ₚ l.
Proof.
  destruct (decide (i < length l)) as [Hi|]; [destruct (decide (j < length l)) as [Hj|]|].
  - symmetry. apply Permutation_inj. split; [by rewrite swap_length|].
    exists (swap_ix i j). split.
    + intros x y. unfold swap_ix. repeat case_decide; congruence.
    + intros k. rewrite swap_lookup by done. f_equal.
      unfold swap_ix. repeat case_decide; congruence.
  - unfold swap. by rewrite (lookup_ge_None_2 l j) by lia; destruct (l !! i).
  - unfold swap. by rewrite (lookup_ge_None_2 l i) by lia.
Qed.
End Swap.

Section Heap.
Context {A : Type} (less : A -> A -> bool).
Implicit Types l : list A.

(** [h.Less(i, j)] *)
Definition less_at (l : list A) (i j : nat) : bool :=
  match l !! i, l !! j with Some a, Some b => less a b | _, _ => false end.

Definition parent (j : nat) : nat := (j - 1) / 2.

Fixpoint up (fuel : nat) (j : nat) (l : list A) : list A :=
  match fuel with
  | O => l
  | S fuel' =>
      let i := parent j in
      if (i =? j) || negb (less_at l j i) then l else up fuel' i (swap i j l)
  end.

Fixpoint down (fuel : nat) (i n : nat) (l : list A) : list A :=
  match fuel with
  | O => l
  | S fuel' =>
      let j1 := 2 * i + 1 in
      if n <=? j1 then l
      else
        let j := if (j1 + 1 <? n) && less_at l (j1 + 1) j1 then j1 + 1 else j1 in
        if negb (less_at l j i) then l else down fuel' j n (swap i j l)
  end.

(** [for i := n/2 - 1; i >= 0; i-- { down(h, i, n) }] *)
Fixpoint init_from (k : nat) (l : list A) : list A :=
  match k with
  | O => l
  | S i => init_from i (down (length l) i (length l) l)
  end.
Definition heap_init (l : list A) : list A := init_from (length l / 2) l.

Definition heap_push (x : A) (l : list A) : list A :=
  up (length l) (length l) (l ++ [x]).

(** [None]: popping an empty heap panics. *)
Definition heap_pop (l : list A) : option (A * list A) :=
  match length l with
  | O => None
  | S n =>
      let l' := down n 0 n (swap 0 n l) in
      match l' !! n with
      | Some x => Some (x, take n l')
      | None => None
      end
  end.

Lemma up_perm fuel j l : up fuel j l ≡ₚ l.
Proof.
  revert j l. induction fuel as [|f IH]; intros j l; simpl; [done|].
  case_match; [done|]. by rewrite IH, swap_perm.
Qed.

Lemma down_perm fuel i n l : down fuel i n l ≡ₚ l.
Proof.
  revert i l. induction fuel as [|f IH]; intros i l; [done|]. cbn [down].
  repeat (case_match; [done|]). by rewrite IH, swap_perm.
Qed.

Lemma down_length fuel i n l : length (down fuel i n l) = length l.
Proof. apply Permutation_length, down_perm. Qed.

Lemma heap_push_perm x l : heap_push x l ≡ₚ x :: l.
Proof.
  unfold heap_push. rewrite up_perm. symmetry. apply Permutation_cons_append.
Qed.

Lemma heap_push_length x l : length (heap_push x l) = S (length l).
Proof. by rewrite heap_push_perm. Qed.

(** [down] never touches an index at or past [n]. *)
Lemma down_out fuel i n l k :
  i < n -> n <= length l -> n <= k -> down fuel i n l !! k = l !! k.
Proof.
  revert i l. induction fuel as [|f IH]; intros i l Hi Hn Hk; [done|]. cbn [down].
  destruct (n <=? 2 * i + 1) eqn:E1; [done|]. apply Nat.leb_gt in E1.
  set (j := if _ && _ then _ else _).
  assert (j < n) as Hj.
  { unfold j. destruct ((2 * i + 1 + 1 <? n) && _) eqn:E; [|lia].
    apply andb_prop in E as [E _]. apply Nat.ltb_lt in E. lia. }
  destruct (negb (less_at l j i)); [done|].
  rewrite IH by (rewrite ?swap_length; lia). rewrite swap_lookup by lia.
  unfold swap_ix. repeat case_decide; try lia. done.
Qed.

Lemma heap_pop_perm x l l' : heap_pop l = Some (x, l') -> l ≡ₚ x :: l'.
Proof.
  unfold heap_pop. destruct (length l) as [|n] eqn:En; [done|].
  set (d := down n 0 n (swap 0 n l)). intros H.
  destruct (d !! n) as [y|] eqn:Ey; [|done]. injection H as <- <-.
  assert (d ≡ₚ l) as Hd by (unfold d; by rewrite down_perm, swap_perm).
  assert (length d = S n) as Hl by (rewrite Hd; done).
  rewrite <- Hd. rewrite <- (take_drop n d) at 1.
  rewrite (drop_S d y n Ey). rewrite (drop_ge d (S n)) by lia.
  symmetry. apply Permutation_cons_append.
Qed.

Lemma heap_pop_Some l : l <> [] -> exists x l', heap_pop l = Some (x, l').
Proof.
  intros Hl. unfold heap_pop. destruct (length l) as [|n] eqn:En.
  { by apply length_zero_iff_nil in En. }
  destruct (down n 0 n (swap 0 n l) !! n) as [x|] eqn:Ex; [eauto|].
  apply lookup_ge_None in Ex. rewrite down_length, swap_length in Ex. lia.
Qed.

Lemma heap_pop_length x l l' : heap_pop l = Some (x, l') -> length l = S (length l').
Proof. intros H. apply heap_pop_perm in H. by rewrite H. Qed.

Lemma heap_init_perm l : heap_init l ≡ₚ l.
Proof.
  unfold heap_init. generalize (length l / 2) as k. intros k. revert l.
  induction k as [|i IH]; intros l; simpl; [done|]. by rewrite IH, down_perm.
Qed.
End Heap.

(** ** Heap order *)

Section HeapOrder.
Context {A : Type} (less : A -> A -> bool) (P : A -> Prop).
Hypothesis less_asym : forall a b, P a -> P b -> less a b = true -> less b a = false.
Hypothesis less_ntrans : forall a b c, P a -> P b -> P c ->
  less a b = false -> less b c = false -> less a c = false.
Implicit Types l : list A.

(** [a] may sit above [b]. *)
Definition above (a b : A) : Prop := less b a = false.

Lemma above_refl a : P a -> above a a.
Proof.
  intros Ha. unfold above. destruct (less a a) eqn:E; [|done].
  by rewrite (less_asym a a) in E.
Qed.
Lemma above_trans a b c : P a -> P b -> P c -> above a b -> above b c -> above a c.
Proof. unfold above. eauto using less_ntrans. Qed.

(** [le_at l i j]: the element at [i] may sit above the one at [j]. *)
Definition le_at l (i j : nat) : Prop :=
  forall a b, l !! i = Some a -> l !! j = Some b -> above a b.

(** The array prefix of length [n] is ordered below every parent [>= k]. *)
Definition heap_from (k n : nat) l : Prop :=
  forall j, 0 < j < n -> k <= parent j -> le_at l (parent j) j.
Definition heap_ok l : Prop := heap_from 0 (length l) l.

Lemma parent_lt j : 0 < j -> parent j < j.
Proof. unfold parent. intros. pose proof (Nat.div_mod_eq (j - 1) 2). lia. Qed.
Lemma parent_child i j : parent j = i /\ 0 < j <-> j = 2 * i + 1 \/ j = 2 * i + 2.
Proof.
  unfold parent. split.
  - intros [<- Hj]. pose proof (Nat.div_mod_eq (j - 1) 2).
    pose proof (Nat.mod_upper_bound (j - 1) 2). lia.
  - intros [-> | ->]; (split; [|lia]).
    + replace (2 * i + 1 - 1) with (i * 2) by lia. by apply Nat.div_mul.
    + replace (2 * i + 2 - 1) with (1 + i * 2) by lia. rewrite Nat.div_add by lia. done.
Qed.

Lemma le_at_trans l i j k :
  Forall P l -> j < length l -> le_at l i j -> le_at l j k -> le_at l i k.
Proof.
  intros Hl Hj Hij Hjk a c Ha Hc.
  destruct (lookup_lt_is_Some_2 l j Hj) as [b Hb].
  rewrite Forall_lookup in Hl. apply (above_trans a b c); eauto.
Qed.

Lemma le_at_refl l i : Forall P l -> le_at l i i.
Proof.
  intros Hl a b Ha Hb. rewrite Ha in Hb. injection Hb as <-.
  apply above_refl. rewrite Forall_lookup in Hl. eauto.
Qed.

Lemma less_at_true l i j :
  Forall P l -> less_at less l i j = true -> le_at l i j.
Proof.
  unfold less_at, le_at, above. rewrite Forall_lookup. intros Hl H a b Ha Hb.
  rewrite Ha, Hb in H. apply less_asym; eauto.
Qed.

Lemma less_at_false l i j : less_at less l i j = false -> le_at l j i.
Proof.
  unfold less_at, le_at, above. intros H a b Ha Hb. by rewrite Ha, Hb in H.
Qed.

(** A comparison after a swap is a comparison before it. *)
Lemma le_at_swap l i j a b :
  i < length l -> j < length l ->
  le_at (swap i j l) a b <-> le_at l (swap_ix i j a) (swap_ix i j b).
Proof. intros Hi Hj. unfold le_at. by rewrite !swap_lookup by done. Qed.

Lemma swap_Forall l i j : Forall P l -> Forall P (swap i j l).
Proof. by rewrite swap_perm. Qed.

(** The state of the sift-up loop: only [j] may be above its parent. *)
Definition up_inv (j : nat) l : Prop :=
  (forall k, 0 < k < length l -> k <> j -> le_at l (parent k) k) /\
  (forall k, 0 < k < length l -> parent k = j -> 0 < j -> le_at l (parent j) k).

Lemma up_inv_step j l :
  Forall P l -> 0 < j < length l -> up_inv j l -> less_at less l j (parent j) = true ->
  up_inv (parent j) (swap (parent j) j l).
Proof.
  intros Hl Hj [H1 H2] Hlt.
  assert (parent j < j) as Hij by (apply parent_lt; lia).
  assert (le_at l j (parent j)) as Hji by (by apply less_at_true).
  remember (parent j) as i eqn:Ei.
  split; intros k; rewrite swap_length; intros Hk; [intros Hki | intros Hpk Hi];
    rewrite le_at_swap by lia; unfold swap_ix.
  - assert (parent k < k) by (apply parent_lt; lia).
    rewrite (decide_False (P := k = i)) by done.
    destruct (decide (k = j)) as [->|Hkj].
    + by rewrite decide_True by done.
    + destruct (decide (parent k = i)) as [Hp|Hp].
      * apply (le_at_trans l _ i); [done|lia|done|]. rewrite <- Hp. apply H1; lia.
      * destruct (decide (parent k = j)) as [Hp'|Hp']; [apply H2; lia | apply H1; lia].
  - assert (parent i < i) by (apply parent_lt; lia).
    assert (le_at l (parent i) i) by (apply H1; lia).
    assert (parent k < k) by (apply parent_lt; lia).
    rewrite (decide_False (P := parent i = i)), (decide_False (P := parent i = j)) by lia.
    rewrite (decide_False (P := k = i)) by lia.
    destruct (decide (k = j)) as [->|Hkj]; [done|].
    apply (le_at_trans l _ i); [done|lia|done|]. rewrite <- Hpk. apply H1; lia.
Qed.

Lemma up_ok fuel j l :
  Forall P l -> j < length l -> j <= fuel -> up_inv j l -> heap_ok (up less fuel j l).
Proof.
  revert j l. induction fuel as [|f IH]; intros j l Hl Hj Hf Hinv; cbn [up].
  - intros k Hk _. destruct Hinv as [H1 _]. apply H1; lia.
  - destruct (decide (j = 0)) as [->|Hj0].
    { simpl. intros k Hk _. destruct Hinv as [H1 _]. apply H1; lia. }
    assert (parent j < j) by (apply parent_lt; lia).
    destruct (less_at less l j (parent j)) eqn:E.
    + rewrite (proj2 (Nat.eqb_neq (parent j) j)) by lia. simpl.
      apply IH; [by apply swap_Forall|rewrite swap_length; lia|lia|].
      apply up_inv_step; auto with lia.
    + rewrite orb_true_r. intros k Hk _. destruct Hinv as [H1 _].
      destruct (decide (k = j)) as [->|]; [by apply less_at_false|apply H1; lia].
Qed.

Lemma heap_push_ok x l :
  P x -> Forall P l -> heap_ok l -> heap_ok (heap_push less x l).
Proof.
  intros Hx Hl Hok. unfold heap_push.
  apply up_ok; rewrite ?length_app; simpl; [|lia|lia|].
  - apply Forall_app; auto.
  - assert (forall k, 0 < k < length l -> le_at (l ++ [x]) (parent k) k) as Hpre.
    { intros k Hk a b. assert (parent k < k) by (apply parent_lt; lia).
      rewrite !lookup_app_l by lia. apply Hok; lia. }
    split; intros k; rewrite length_app; simpl; intros Hk Hne.
    + apply Hpre; lia.
    + intros _. assert (parent k < k) by (apply parent_lt; lia). lia.
Qed.

(** The state of the sift-down loop: only the children of [i] may be out of
    order, and they are in order with [i]'s parent. *)
Definition down_inv (k0 i n : nat) l : Prop :=
  (forall k, 0 < k < n -> k0 <= parent k -> parent k <> i -> le_at l (parent k) k) /\
  (forall k, 0 < k < n -> parent k = i -> 0 < i -> k0 <= parent i -> le_at l (parent i) k).

(** [j] is the preferred child of [i]: in range, and not above its sibling. *)
Lemma down_child i n l :
  Forall P l -> 2 * i + 1 < n -> n <= length l ->
  exists j, (if (2 * i + 1 + 1 <? n) && less_at less l (2 * i + 1 + 1) (2 * i + 1)
             then 2 * i + 1 + 1 else 2 * i + 1) = j /\
    parent j = i /\ 0 < j < n /\
    forall k, 0 < k < n -> parent k = i -> le_at l j k.
Proof.
  intros Hl Hi Hn. eexists; split; [done|].
  assert (forall k, 0 < k < n -> parent k = i -> k = 2 * i + 1 \/ k = 2 * i + 2) as Hch.
  { intros k Hk Hp. apply parent_child. split; [done|lia]. }
  destruct (_ && _) eqn:E.
  - apply andb_prop in E as [E1 E2]. apply Nat.ltb_lt in E1.
    split; [apply (parent_child i); lia|]. split; [lia|].
    intros k Hk Hp. destruct (Hch k Hk Hp) as [-> | ->].
    + by apply less_at_true.
    + replace (2 * i + 2) with (2 * i + 1 + 1) by lia. by apply le_at_refl.
  - split; [apply (parent_child i); lia|]. split; [lia|].
    intros k Hk Hp. destruct (Hch k Hk Hp) as [-> | ->]; [by apply le_at_refl|].
    apply andb_false_iff in E as [E|E]; [apply Nat.ltb_ge in E; lia|].
    replace (2 * i + 2) with (2 * i + 1 + 1) by lia. by apply less_at_false.
Qed.

Lemma down_inv_step k0 i j n l :
  Forall P l -> n <= length l -> 0 < j < n -> parent j = i -> k0 <= i ->
  (forall k, 0 < k < n -> parent k = i -> le_at l j k) ->
  down_inv k0 i n l -> less_at less l j i = true -> down_inv k0 j n (swap i j l).
Proof.
  intros Hl Hn Hj Hp Hk0 Hsib [H1 H2] Hlt.
  assert (i < j) by (rewrite <- Hp; apply parent_lt; lia).
  assert (le_at l j i) as Hji by (by apply less_at_true).
  split; intros k Hk; [intros Hkk Hpj | intros Hpk _ _];
    assert (parent k < k) by (apply parent_lt; lia);
    rewrite le_at_swap by lia; unfold swap_ix.
  - destruct (decide (parent k = i)) as [Hpi|Hpi].
    + rewrite (decide_False (P := k = i)) by lia.
      destruct (decide (k = j)) as [->|]; [done|]. by apply Hsib.
    + rewrite (decide_False (P := parent k = j)) by done.
      destruct (decide (k = i)) as [->|].
      * apply H2; lia.
      * rewrite decide_False; [apply H1; lia|]. intros ->. congruence.
  - rewrite (decide_False (P := k = i)), (decide_False (P := k = j)) by lia.
    rewrite Hp, decide_True by done. rewrite <- Hpk. apply H1; lia.
Qed.

Lemma down_ok fuel k0 i n l :
  Forall P l -> n <= length l -> k0 <= i -> i < n -> n <= i + fuel ->
  down_inv k0 i n l -> heap_from k0 n (down less fuel i n l).
Proof.
  revert i l. induction fuel as [|f IH]; intros i l Hl Hn Hk0 Hi Hf Hinv; [lia|].
  cbn [down]. destruct (n <=? 2 * i + 1) eqn:E1.
  { apply Nat.leb_le in E1. intros k Hk Hpk. apply Hinv; [lia|done|].
    intros Hpi. assert (k = 2 * i + 1 \/ k = 2 * i + 2) by (apply parent_child; lia). lia. }
  apply Nat.leb_gt in E1.
  destruct (down_child i n l) as (j & -> & Hp & Hj & Hsib); [done..|].
  assert (i < j) by (rewrite <- Hp; apply parent_lt; lia).
  destruct (less_at less l j i) eqn:E; simpl.
  - apply IH; rewrite ?swap_length; [by apply swap_Forall|lia..|].
    by apply down_inv_step.
  - intros k Hk Hpk. destruct (decide (parent k = i)) as [Hpi|].
    + rewrite Hpi. apply (le_at_trans l _ j); [done|lia| |by apply Hsib].
      by apply less_at_false.
    + apply Hinv; [lia|done|done].
Qed.

Lemma heap_from_take k n l : heap_from k n l -> heap_from k (length (take n l)) (take n l).
Proof.
  intros H j Hj Hk a b. assert (parent j < j) by (apply parent_lt; lia).
  rewrite length_take in Hj. rewrite !lookup_take_lt by lia. apply H; [lia|done].
Qed.

(** The root of a heap is above every element. *)
Lemma heap_root_min l a j b :
  Forall P l -> heap_ok l -> l !! 0 = Some a -> l !! j = Some b -> above a b.
Proof.
  intros Hl Hok Ha. revert b. induction j as [j IH] using lt_wf_ind. intros b Hb.
  destruct (decide (j = 0)) as [->|Hj].
  - rewrite Ha in Hb. injection Hb as <-. apply above_refl.
    rewrite Forall_lookup in Hl. eauto.
  - assert (parent j < j) as Hp by (apply parent_lt; lia).
    assert (j < length l) by (by apply lookup_lt_Some in Hb).
    destruct (lookup_lt_is_Some_2 l (parent j)) as [c Hc]; [lia|].
    assert (above c b) as Hcb by (eapply (Hok j); eauto with lia).
    specialize (IH _ Hp c Hc). rewrite Forall_lookup in Hl.
    apply (above_trans a c b); eauto.
Qed.

Lemma heap_pop_ok x l l' :
  Forall P l -> heap_ok l -> heap_pop less l = Some (x, l') ->
  heap_ok l' /\ Forall (above x) l.
Proof.
  unfold heap_pop. intros Hl Hok H. destruct (length l) as [|n] eqn:En; [done|].
  set (d := down less n 0 n (swap 0 n l)) in H.
  destruct (d !! n) as [y|] eqn:Ey; [|done]. injection H as <- <-.
  destruct (lookup_lt_is_Some_2 l 0) as [a Ha]; [lia|].
  assert (y = a) as ->.
  { destruct (decide (n = 0)) as [->|].
    - unfold d in Ey. simpl in Ey. rewrite swap_lookup in Ey by lia.
      unfold swap_ix in Ey. rewrite decide_True in Ey by done. congruence.
    - unfold d in Ey. rewrite down_out in Ey; rewrite ?swap_length; [|lia..].
      rewrite swap_lookup in Ey by lia. unfold swap_ix in Ey.
      rewrite decide_False, decide_True in Ey by done. congruence. }
  split.
  - apply heap_from_take. destruct (decide (n = 0)) as [->|]; [intros k Hk; lia|].
    apply down_ok; rewrite ?swap_length; [by apply swap_Forall|lia..|].
    split; intros k Hk; [intros _ Hpk | lia].
    assert (parent k < k) by (apply parent_lt; lia).
    rewrite le_at_swap by lia. unfold swap_ix. repeat case_decide; try lia.
    apply Hok; lia.
  - apply Forall_lookup. intros j b Hb. by eapply heap_root_min.
Qed.

Lemma heap_ok_nil : heap_ok [].
Proof. intros j Hj. simpl in Hj. lia. Qed.
Lemma heap_ok_singleton x : heap_ok [x].
Proof. intros j Hj. simpl in Hj. lia. Qed.
End HeapOrder.

#[export] Hint Resolve heap_ok_nil heap_ok_singleton : core.
