(* ===== verification/GoChan.v ===== *)
(** * Go channels

    A buffered channel is an object of a heap, so two holders of the same
    channel see one buffer.  Sends and receives that would block are
    outcomes. *)

From Stdlib Require Import ZArith Lia.
From S2P Require Import Prelude.

Record chan (T : Type) := { ch_buf : list T; ch_cap : nat; ch_closed : bool }.
Arguments ch_buf {T} c.
Arguments ch_cap {T} c.
Arguments ch_closed {T} c.

(** [make(chan T, n)] at a fresh address. *)
Definition make_chan {T} (n : nat) (a : nat) (h : gmap nat (chan T)) : gmap nat (chan T) :=
  <[a := {| ch_buf := []; ch_cap := n; ch_closed := false |}]> h.

Definition push {T} (c : chan T) (v : T) : chan T :=
  {| ch_buf := ch_buf c ++ [v]; ch_cap := ch_cap c; ch_closed := ch_closed c |}.

Definition has_room {T} (c : chan T) : bool := Nat.ltb (length (ch_buf c)) (ch_cap c).

(** [select { case ch <- v: ... default: ... }]: whether the value went in.  A
    send on a nil channel (no object) is never ready. *)
Definition try_send {T} (a : nat) (v : T) (h : gmap nat (chan T)) : outcome (bool * gmap nat (chan T)) :=
  match h !! a with
  | None => Ok (false, h)
  | Some c =>
      if ch_closed c then Panic "send on closed channel"
      else if has_room c then Ok (true, <[a := push c v]> h)
      else Ok (false, h)
  end.

(** [ch <- v]: [None] is a sender that blocks. *)
Definition send {T} (a : nat) (v : T) (h : gmap nat (chan T)) : outcome (option (gmap nat (chan T))) :=
  match h !! a with
  | None => Ok None
  | Some c =>
      if ch_closed c then Panic "send on closed channel"
      else if has_room c then Ok (Some (<[a := push c v]> h))
      else Ok None
  end.

Definition close_chan {T} (a : nat) (h : gmap nat (chan T)) : outcome (gmap nat (chan T)) :=
  match h !! a with
  | None => Panic "close of nil channel"
  | Some c =>
      if ch_closed c then Panic "close of closed channel"
      else Ok (<[a := {| ch_buf := ch_buf c; ch_cap := ch_cap c; ch_closed := true |}]> h)
  end.

(** [v, ok := <-ch]: a value, the end of a closed channel, or a receiver that
    blocks. *)
Inductive received (T : Type) := Got (v : T) | Ended | Blocked.
Arguments Got {T} v.
Arguments Ended {T}.
Arguments Blocked {T}.

Definition recv {T} (a : nat) (h : gmap nat (chan T)) : received T * gmap nat (chan T) :=
  match h !! a with
  | None => (Blocked, h)
  | Some c =>
      match ch_buf c with
      | v :: rest => (Got v, <[a := {| ch_buf := rest; ch_cap := ch_cap c; ch_closed := ch_closed c |}]> h)
      | [] => (if ch_closed c then Ended else Blocked, h)
      end
  end.
