(* ===== verification/GoStrings.v ===== *)
(** * Go strings

    A Go string is a byte sequence: [String.string] with 8-bit [ascii].  The
    functions of package [strings] and [strconv] the program calls. *)

From Stdlib Require Import ZArith Lia String Ascii.
From stdpp Require Import pretty.
From S2P Require Import Prelude.
#[local] Open Scope nat_scope.

Definition slen (s : string) : nat := String.length s.
(** [s\[i:j\]] for [i <= j <= len(s)] *)
Definition slice (s : string) (i j : nat) : string := String.substring i (j - i) s.
Definition sdrop (n : nat) (s : string) : string := slice s n (slen s).
Definition stake (n : nat) (s : string) : string := slice s 0 n.

(** A one-byte string. *)
Definition byte (n : nat) : string := String (ascii_of_nat n) EmptyString.
Definition nul : string := byte 0.
Definition nl : string := byte 10.
Definition tab : string := byte 9.

Definition has_prefix (s pre : string) : bool := String.prefix pre s.

(** [strings.Contains], [strings.Index], [strings.LastIndex] *)
Definition at_index (s sub : string) (i : nat) : bool := has_prefix (sdrop i s) sub.
Definition contains (s sub : string) : bool :=
  existsb (at_index s sub) (seq 0 (S (slen s))).
Fixpoint last_index_from (s sub : string) (i : nat) : option nat :=
  if at_index s sub i then Some i
  else match i with O => None | S i' => last_index_from s sub i' end.
Definition last_index (s sub : string) : option nat :=
  if slen s <? slen sub then None else last_index_from s sub (slen s - slen sub).
Fixpoint index_from (s sub : string) (i fuel : nat) : option nat :=
  match fuel with
  | O => None
  | S f => if at_index s sub i then Some i else index_from s sub (S i) f
  end.
Definition index (s sub : string) : option nat :=
  if slen s <? slen sub then None else index_from s sub 0 (S (slen s - slen sub)).

(** [strings.LastIndexAny] for a set of ASCII bytes *)
Fixpoint last_index_any (s : string) (p : ascii -> bool) : option nat :=
  match s with
  | EmptyString => None
  | String c r =>
      match last_index_any r p with
      | Some i => Some (S i)
      | None => if p c then Some 0 else None
      end
  end.

(** [strings.TrimSpace]: white space is Unicode's, in UTF-8. *)
Definition ascii_space (c : ascii) : bool :=
  let n := nat_of_ascii c in (n =? 32) || ((9 <=? n) && (n <=? 13)).

Definition bytes3 (a b c : nat) : string := String.append (byte a) (String.append (byte b) (byte c)).
Definition wide_spaces : list string :=
  [String.append (byte 0xC2) (byte 0x85); String.append (byte 0xC2) (byte 0xA0);
   bytes3 0xE1 0x9A 0x80; bytes3 0xE2 0x80 0x80; bytes3 0xE2 0x80 0x81;
   bytes3 0xE2 0x80 0x82; bytes3 0xE2 0x80 0x83; bytes3 0xE2 0x80 0x84;
   bytes3 0xE2 0x80 0x85; bytes3 0xE2 0x80 0x86; bytes3 0xE2 0x80 0x87;
   bytes3 0xE2 0x80 0x88; bytes3 0xE2 0x80 0x89; bytes3 0xE2 0x80 0x8A;
   bytes3 0xE2 0x80 0xA8; bytes3 0xE2 0x80 0xA9; bytes3 0xE2 0x80 0xAF;
   bytes3 0xE2 0x81 0x9F; bytes3 0xE3 0x80 0x80].

Definition lead_space (s : string) : nat :=
  match s with
  | EmptyString => 0
  | String c _ =>
      if ascii_space c then 1
      else match List.find (fun w => has_prefix s w) wide_spaces with
           | Some w => slen w
           | None => 0
           end
  end.

Definition has_suffix (s suf : string) : bool :=
  (slen suf <=? slen s) && String.eqb (sdrop (slen s - slen suf) s) suf.

Definition trail_space (s : string) : nat :=
  match s with
  | EmptyString => 0
  | _ =>
      match String.get (slen s - 1) s with
      | Some c =>
          if ascii_space c then 1
          else match List.find (fun w => has_suffix s w) wide_spaces with
               | Some w => slen w
               | None => 0
               end
      | None => 0
      end
  end.

Fixpoint trim_left (fuel : nat) (s : string) : string :=
  match fuel with
  | O => s
  | S f => match lead_space s with O => s | k => trim_left f (sdrop k s) end
  end.
Fixpoint trim_right (fuel : nat) (s : string) : string :=
  match fuel with
  | O => s
  | S f => match trail_space s with O => s | k => trim_right f (stake (slen s - k) s) end
  end.
Definition trim_space (s : string) : string :=
  let l := trim_left (slen s) s in trim_right (slen l) l.

(** [strings.ToLower] on ASCII letters; other bytes are left alone. *)
Definition lower_byte (c : ascii) : ascii :=
  let n := nat_of_ascii c in
  if (65 <=? n) && (n <=? 90) then ascii_of_nat (n + 32) else c.
Fixpoint to_lower (s : string) : string :=
  match s with EmptyString => EmptyString | String c r => String (lower_byte c) (to_lower r) end.

(** [strings.Repeat], [strings.Join] *)
Fixpoint join (sep : string) (l : list string) : string :=
  match l with
  | [] => EmptyString
  | [x] => x
  | x :: l' => String.append x (String.append sep (join sep l'))
  end.

(** [strconv.Itoa] / the ["%d"] verb *)
Definition itoa (z : Z) : string := pretty z.
(** the ["%t"] verb *)
Definition fmt_bool (b : bool) : string := if b then "true"%string else "false"%string.

Infix "^^" := String.append (at level 60, right associativity) : stdpp_scope.

(** The JSON string literal of a text that needs no escape. *)
Definition quoted (s : string) : string := byte 34 ^^ s ^^ byte 34.

(** ** Lemmas *)

Lemma substring_length n m s : String.length (String.substring n m s) = Nat.min m (String.length s - n).
Proof.
  revert n m. induction s as [|c s IH]; intros [|n] [|m]; simpl; try done;
    rewrite ?IH; simpl; lia.
Qed.

Lemma slice_length s i j : i <= j -> j <= slen s -> slen (slice s i j) = j - i.
Proof. unfold slice, slen. intros. rewrite substring_length. lia. Qed.

Lemma has_prefix_length s pre : has_prefix s pre = true -> slen pre <= slen s.
Proof.
  unfold has_prefix, slen. revert s. induction pre as [|c pre IH]; intros [|d s]; simpl; try done; try lia.
  destruct (ascii_dec c d); [|done]. intros H. specialize (IH s H). lia.
Qed.

Lemma last_index_from_bound s sub i k : last_index_from s sub i = Some k -> k <= i.
Proof.
  induction i as [|i IH]; simpl; case_match; try done; try (intros [= <-]; lia).
  intros H'. specialize (IH H'). lia.
Qed.

Lemma last_index_bound s sub k : last_index s sub = Some k -> k + slen sub <= slen s.
Proof.
  unfold last_index. case_match eqn:E; [done|]. apply Nat.ltb_ge in E.
  intros H. apply last_index_from_bound in H. lia.
Qed.

Lemma last_index_any_bound s p k : last_index_any s p = Some k -> k < slen s.
Proof.
  revert k. induction s as [|c s IH]; simpl; [done|]. intros k.
  destruct (last_index_any s p) as [i|] eqn:E.
  - intros [= <-]. specialize (IH i eq_refl). unfold slen in *. lia.
  - destruct (p c); [|done]. intros [= <-]. lia.
Qed.

Lemma append_length a b : slen (a ^^ b) = slen a + slen b.
Proof. unfold slen. induction a; simpl; [done|]. by rewrite IHa. Qed.

Lemma slice_full s : slice s 0 (slen s) = s.
Proof.
  unfold slice, slen. rewrite Nat.sub_0_r.
  induction s as [|c s IH]; simpl; [done|]. by rewrite IH.
Qed.

Lemma slice_length_le s i j : slen (slice s i j) <= j - i.
Proof. unfold slice, slen. rewrite substring_length. lia. Qed.

Lemma has_prefix_stake s w k : has_prefix (stake k s) w = true -> has_prefix s w = true.
Proof.
  unfold stake, slice, has_prefix. rewrite Nat.sub_0_r. revert s k.
  induction w as [|c w IH]; intros [|d s] [|k]; simpl; try done.
  destruct (ascii_dec c d); [|done]. apply IH.
Qed.

Lemma lead_space_zero_find s w :
  lead_space s = 0 -> List.find (fun w => has_prefix s w) wide_spaces = Some w -> False.
Proof.
  unfold lead_space. destruct s as [|c s].
  - intros _ Hf. apply find_some in Hf as [Hin Hp].
    repeat (destruct Hin as [<-|Hin]; [discriminate Hp|]). destruct Hin.
  - destruct (ascii_space c); [done|]. intros H Hf. rewrite Hf in H.
    apply find_some in Hf as [Hin _].
    repeat (destruct Hin as [<-|Hin]; [discriminate H|]). destruct Hin.
Qed.

Lemma lead_space_stake s k : lead_space s = 0 -> lead_space (stake k s) = 0.
Proof.
  intros H. destruct (stake k s) as [|c r] eqn:E; [done|].
  assert (exists s', s = String c s') as [s' ->].
  { unfold stake, slice in E. rewrite Nat.sub_0_r in E.
    destruct s as [|d s], k; simpl in E; try done. injection E as -> _. eauto. }
  pose proof (fun w => lead_space_zero_find (String c s') w H) as Hnone.
  unfold lead_space in *. destruct (ascii_space c) eqn:Ec; [done|].
  match goal with |- match ?f with _ => _ end = _ => destruct f as [w|] eqn:Ef end; [|done].
  exfalso. apply find_some in Ef as [Hin Hp]. rewrite <- E in Hp. apply has_prefix_stake in Hp.
  match type of H with match ?f with _ => _ end = _ => destruct f as [w'|] eqn:Ef' end.
  - by eapply Hnone.
  - eapply find_none in Ef'; [|exact Hin]. cbn beta in Ef'. congruence.
Qed.

Lemma sdrop_length k s : slen (sdrop k s) = slen s - k.
Proof. unfold sdrop, slice, slen. rewrite substring_length. lia. Qed.
Lemma stake_length k s : slen (stake k s) = Nat.min k (slen s).
Proof. unfold stake, slice, slen. rewrite substring_length. lia. Qed.

Lemma trim_left_fix fuel s : slen s <= fuel -> lead_space (trim_left fuel s) = 0.
Proof.
  revert s. induction fuel as [|f IH]; intros s Hs; simpl.
  - destruct s; [done|simpl in Hs; lia].
  - destruct (lead_space s) as [|k] eqn:E; [done|]. apply IH. rewrite sdrop_length. lia.
Qed.

Lemma trail_space_pos s : trail_space s <= slen s.
Proof.
  unfold trail_space. destruct s as [|c s]; [lia|]. case_match; [|lia].
  case_match; [simpl; lia|]. case_match eqn:Ef; [|lia].
  apply find_some in Ef as [_ Hs]. unfold has_suffix in Hs.
  apply andb_prop in Hs as [Hs _]. by apply Nat.leb_le in Hs.
Qed.

Lemma trim_right_fix fuel s : slen s <= fuel -> trail_space (trim_right fuel s) = 0.
Proof.
  revert s. induction fuel as [|f IH]; intros s Hs; simpl.
  - destruct s; [done|simpl in Hs; lia].
  - destruct (trail_space s) as [|k] eqn:E; [done|].
    pose proof (trail_space_pos s). apply IH. rewrite stake_length. lia.
Qed.

Lemma trim_right_lead fuel s : lead_space s = 0 -> lead_space (trim_right fuel s) = 0.
Proof.
  revert s. induction fuel as [|f IH]; intros s Hs; simpl; [done|].
  destruct (trail_space s) as [|k]; [done|]. apply IH. by apply lead_space_stake.
Qed.

Lemma trim_left_length fuel s : slen (trim_left fuel s) <= slen s.
Proof.
  revert s. induction fuel as [|f IH]; intros s; simpl; [lia|].
  destruct (lead_space s) as [|k]; [lia|]. etrans; [apply IH|]. rewrite sdrop_length. lia.
Qed.

Lemma trim_right_length fuel s : slen (trim_right fuel s) <= slen s.
Proof.
  revert s. induction fuel as [|f IH]; intros s; simpl; [lia|].
  destruct (trail_space s) as [|k]; [lia|]. etrans; [apply IH|]. rewrite stake_length. lia.
Qed.

Lemma trim_space_length s : slen (trim_space s) <= slen s.
Proof. unfold trim_space. etrans; [apply trim_right_length|apply trim_left_length]. Qed.

(** Trimming is idempotent. *)
Lemma trim_space_idemp s : trim_space (trim_space s) = trim_space s.
Proof.
  set (t := trim_space s).
  assert (lead_space t = 0) as Hl.
  { unfold t, trim_space. apply trim_right_lead. by apply trim_left_fix. }
  assert (trail_space t = 0) as Ht.
  { unfold t, trim_space. by apply trim_right_fix. }
  unfold trim_space at 1. clearbody t.
  assert (forall f, trim_left f t = t) as -> by (intros [|f]; simpl; by rewrite ?Hl).
  destruct (slen t); simpl; by rewrite ?Ht.
Qed.

(** *** Substrings *)

Lemma append_assoc a b c : (a ^^ b) ^^ c = a ^^ (b ^^ c).
Proof. induction a as [|x a IH]; [done|]. exact (f_equal (String x) IH). Qed.

Lemma append_nil_r a : a ^^ "" = a.
Proof. induction a as [|x a IH]; [done|]. exact (f_equal (String x) IH). Qed.

Lemma append_cons x a b : String x a ^^ b = String x (a ^^ b).
Proof. done. Qed.

Lemma has_prefix_spec s pre : has_prefix s pre = true <-> exists r, s = pre ^^ r.
Proof.
  unfold has_prefix. revert s. induction pre as [|c pre IH]; intros s; simpl.
  - split; [intros _; by exists s|by destruct s].
  - destruct s as [|d s]; [split; [done|by intros [r Hr]]|]. cbn [String.prefix].
    destruct (ascii_dec c d) as [<-|Hne].
    + rewrite IH. split; intros [r Hr]; exists r; rewrite append_cons in *; congruence.
    + split; [done|]. intros [r Hr]. rewrite append_cons in Hr. congruence.
Qed.

Lemma substring_all n s : String.length s <= n -> String.substring 0 n s = s.
Proof.
  revert n. induction s as [|c s IH]; intros [|n] Hn; simpl in *; try done; [lia|].
  by rewrite IH by lia.
Qed.

Lemma sdrop_append a b : sdrop (slen a) (a ^^ b) = b.
Proof.
  unfold sdrop, slice. rewrite (append_length a b). unfold slen.
  replace (String.length a + String.length b - String.length a) with (String.length b) by lia.
  induction a as [|c a IH]; [by apply substring_all|exact IH].
Qed.

Lemma stake_sdrop i s : i <= slen s -> stake i s ^^ sdrop i s = s.
Proof.
  unfold stake, sdrop, slice, slen. rewrite Nat.sub_0_r.
  revert i. induction s as [|c s IH]; intros [|i] Hi; simpl in *; try lia; try done.
  - by rewrite substring_all.
  - rewrite append_cons. f_equal. apply IH. lia.
Qed.

(** [strings.Contains] *)
Lemma contains_spec s sub : contains s sub = true <-> exists a b, s = a ^^ sub ^^ b.
Proof.
  unfold contains. rewrite existsb_exists. split.
  - intros (i & Hi & Hp). apply in_seq in Hi. apply has_prefix_spec in Hp as [r Hr].
    exists (stake i s), r. rewrite <- Hr, stake_sdrop; [done|lia].
  - intros (a & b & ->). exists (slen a). split.
    + apply in_seq. rewrite !append_length. lia.
    + unfold at_index. rewrite sdrop_append. apply has_prefix_spec. by exists b.
Qed.
