(* ===== verification/GoPath.v ===== *)
(** * Slash-separated paths ([path/filepath] on Unix)

    The lexical operations the tools and the data directory use.  [Clean] reads
    a path as its components; what the clients rely on is that a cleaned
    absolute path is a list of proper names, and that a prefix test with the
    separator is then a prefix test on names. *)

From Stdlib Require Import ZArith Lia String Ascii.
From S2P Require Import Prelude GoStrings.
#[local] Open Scope nat_scope.

Definition slash : ascii := "/"%char.

(** [strings.Split(s, string(c))] *)
Fixpoint split_byte (c : ascii) (s : string) : list string :=
  match s with
  | EmptyString => [EmptyString]
  | String a s' =>
      if Ascii.eqb a c then EmptyString :: split_byte c s'
      else match split_byte c s' with
           | w :: ws => String a w :: ws
           | [] => []
           end
  end.

Definition IsAbs (path : string) : bool := has_prefix path "/".

(** One component, over the reversed components kept so far. *)
Definition clean_step (rooted : bool) (stack : list string) (e : string) : list string :=
  if String.eqb e "" || String.eqb e "." then stack
  else if String.eqb e ".." then
    match stack with
    | [] => if rooted then [] else [".."]
    | top :: rest => if String.eqb top ".." then ".." :: stack else rest
    end
  else e :: stack.

Definition Clean (path : string) : string :=
  let rooted := IsAbs path in
  let body := join "/" (rev (fold_left (clean_step rooted) (split_byte slash path) [])) in
  if rooted then "/" ^^ body else if String.eqb body "" then "." else body.

Fixpoint Join (elem : list string) : string :=
  match elem with
  | [] => ""
  | e :: rest => if String.eqb e "" then Join rest else Clean (join "/" elem)
  end.

(** [cwd] is what [os.Getwd] gives. *)
Definition Abs (cwd : string + goerr) (path : string) : outcome string :=
  if IsAbs path then Ok (Clean path)
  else match cwd with inl wd => Ok (Join [wd; path]) | inr e => Err e end.

Definition Base (path : string) : string :=
  if String.eqb path "" then "."
  else default "/" (last (List.filter (fun e => negb (String.eqb e "")) (split_byte slash path))).

Definition Dir (path : string) : string :=
  match last_index path "/" with Some i => Clean (stake (S i) path) | None => "." end.

Definition Ext (path : string) : string :=
  match last_index_any path (fun c => Ascii.eqb c "." || Ascii.eqb c slash) with
  | Some i => if at_index path "." i then sdrop i path else ""
  | None => ""
  end.

(** ** Components *)

Fixpoint no_byte (c : ascii) (s : string) : bool :=
  match s with EmptyString => true | String a s' => negb (Ascii.eqb a c) && no_byte c s' end.

(** A component that stands for a directory entry. *)
Definition name (e : string) : Prop := e <> "" /\ e <> "." /\ e <> ".." /\ no_byte slash e = true.

(** The absolute path with the components [l]. *)
Definition abs_path (l : list string) : string := "/" ^^ join "/" l.

Lemma abs_rooted l : IsAbs (abs_path l) = true.
Proof. apply has_prefix_spec. by exists (join "/" l). Qed.

Lemma split_byte_cons c s : exists w ws, split_byte c s = w :: ws.
Proof.
  induction s as [|a s (w & ws & IH)]; simpl; [by eexists _, _|]. rewrite IH. destruct (Ascii.eqb a c); by eexists _, _.
Qed.

Lemma split_byte_no c s : Forall (fun e => no_byte c e = true) (split_byte c s).
Proof.
  induction s as [|a s IH]; simpl; [by repeat constructor|]. destruct (Ascii.eqb a c) eqn:E; [by constructor|].
  destruct (split_byte c s) as [|w ws]; [done|]. apply Forall_cons in IH as [Hw Hws]. constructor; [simpl; by rewrite E|done].
Qed.

Lemma split_byte_none c s : no_byte c s = true -> split_byte c s = [s].
Proof.
  induction s as [|a s IH]; simpl; [done|]. intros [Ha Hs]%andb_true_iff. apply negb_true_iff in Ha. by rewrite Ha, IH.
Qed.

Lemma split_byte_sep c a b : split_byte c (a ^^ String c b) = split_byte c a ++ split_byte c b.
Proof.
  induction a as [|x a IH]; simpl; [by rewrite Ascii.eqb_refl|]. rewrite IH.
  destruct (Ascii.eqb x c); [done|]. by destruct (split_byte_cons c a) as (w & ws & ->).
Qed.

Lemma split_join l : l <> [] -> Forall (fun e => no_byte slash e = true) l -> split_byte slash (join "/" l) = l.
Proof.
  intros Hne Hl. induction Hl as [|e l He Hl IH]; [done|]. destruct l as [|e' l]; [by apply split_byte_none|].
  change (join "/" (e :: e' :: l)) with (e ^^ String slash (join "/" (e' :: l))). rewrite split_byte_sep, IH by done.
  by rewrite (split_byte_none _ _ He).
Qed.

Lemma name_no l : Forall name l -> Forall (fun e => no_byte slash e = true) l.
Proof. intros Hl. eapply Forall_impl; [exact Hl|]. by intros e (_ & _ & _ & ?). Qed.

Lemma split_abs l : Forall name l -> split_byte slash (abs_path l) = "" :: match l with [] => [""] | _ => l end.
Proof.
  intros Hl. unfold abs_path. change ("/" ^^ ?x) with (String slash x). cbn [split_byte]. rewrite Ascii.eqb_refl.
  destruct l as [|e l]; [done|]. rewrite split_join; [done|done|by apply name_no].
Qed.

(** ** Cleaned absolute paths *)

Lemma clean_step_names stack e : no_byte slash e = true -> Forall name stack -> Forall name (clean_step true stack e).
Proof.
  intros He Hs. unfold clean_step. destruct (String.eqb_spec e ""); [done|]. destruct (String.eqb_spec e "."); [done|].
  destruct (String.eqb_spec e ".."); simpl; [|by constructor]. destruct Hs as [|top rest Ht Hr]; [done|].
  destruct (String.eqb_spec top ".."); [|done]. by destruct Ht as (_ & _ & ? & _).
Qed.

Lemma clean_names stack l : Forall (fun e => no_byte slash e = true) l -> Forall name stack ->
  Forall name (fold_left (clean_step true) l stack).
Proof. intros Hl. revert stack. induction Hl as [|e l He Hl IH]; intros stack Hs; [done|]. apply IH. by apply clean_step_names. Qed.

Lemma Clean_abs path : IsAbs path = true -> exists l, Forall name l /\ Clean path = abs_path l.
Proof.
  intros Ha. unfold Clean. rewrite Ha. eexists. split; [|reflexivity]. apply Forall_rev, clean_names; [apply split_byte_no|done].
Qed.

Lemma clean_step_push stack e : name e -> clean_step true stack e = e :: stack.
Proof.
  intros (H1 & H2 & H3 & _). unfold clean_step. apply String.eqb_neq in H1, H2, H3. by rewrite H1, H2, H3.
Qed.

Lemma clean_push stack l : Forall name l -> fold_left (clean_step true) l stack = rev l ++ stack.
Proof.
  intros Hl. revert stack. induction Hl as [|e l He Hl IH]; intros stack; [done|]. cbn [fold_left].
  rewrite clean_step_push, IH by done. simpl. by rewrite <- app_assoc.
Qed.

(** Cleaning below an absolute path starts from its components. *)
Lemma Clean_below l rel : Forall name l ->
  Clean (abs_path l ^^ String slash rel) = abs_path (rev (fold_left (clean_step true) (split_byte slash rel) (rev l))).
Proof.
  intros Hl. unfold Clean. assert (IsAbs (abs_path l ^^ String slash rel) = true) as ->.
  { apply has_prefix_spec. exists (join "/" l ^^ String slash rel). unfold abs_path. by rewrite append_assoc. }
  rewrite split_byte_sep, fold_left_app, (split_abs l Hl). unfold abs_path at 1. do 3 f_equal.
  destruct l as [|e l]; [reflexivity|]. change (fold_left ?f ("" :: ?x) []) with (fold_left f x []).
  rewrite (clean_push [] (e :: l)) by done. by rewrite app_nil_r.
Qed.

Lemma Clean_fixed l : Forall name l -> Clean (abs_path l) = abs_path l.
Proof.
  intros Hl. unfold Clean. rewrite abs_rooted. unfold abs_path at 2. f_equal. rewrite split_abs by done.
  destruct l as [|e l]; [done|]. change (fold_left ?f ("" :: ?x) []) with (fold_left f x []).
  rewrite clean_push, app_nil_r, rev_involutive by done. done.
Qed.

Lemma abs_path_inj l l' : Forall name l -> Forall name l' -> abs_path l = abs_path l' -> l = l'.
Proof.
  intros Hl Hl' E. apply (f_equal (split_byte slash)) in E. rewrite !split_abs in E by done. injection E as E.
  destruct l as [|e l], l' as [|e' l']; try done.
  - injection E as <- _. apply Forall_cons in Hl' as [(? & _) _]. done.
  - injection E as -> _. apply Forall_cons in Hl as [(? & _) _]. done.
Qed.

(** A cleaned path that extends another and its separator lies strictly below it. *)
Lemma abs_prefix l l' : Forall name l -> Forall name l' -> has_prefix (abs_path l') (abs_path l ^^ "/") = true ->
  exists rest, rest <> [] /\ l' = l ++ rest.
Proof.
  intros Hl Hl' [r E]%has_prefix_spec. apply (f_equal (split_byte slash)) in E.
  change (abs_path l ^^ "/") with (abs_path l ^^ String slash "") in E. rewrite append_assoc in E.
  change (String slash "" ^^ r) with (String slash r) in E. rewrite split_byte_sep, !split_abs in E by done.
  destruct (split_byte_cons slash r) as (w & ws & Hr). rewrite Hr in E. simpl in E. injection E as E.
  destruct l as [|e l].
  - simpl in E. destruct l' as [|e' l']; [done|]. injection E as -> _. by apply Forall_cons in Hl' as [(? & _) _].
  - destruct l' as [|e' l']; [|exists (w :: ws); by rewrite E].
    injection E as <- E. by apply Forall_cons in Hl as [(? & _) _].
Qed.

Lemma abs_below l rest : l <> [] -> rest <> [] -> has_prefix (abs_path (l ++ rest)) (abs_path l ^^ "/") = true.
Proof.
  intros Hl Hr. apply has_prefix_spec. exists (join "/" rest). unfold abs_path. rewrite !append_assoc. f_equal.
  induction l as [|e l IH]; [done|]. destruct l as [|e' l].
  - destruct rest; [done|]. reflexivity.
  - change (join "/" (e :: e' :: l)) with (e ^^ "/" ^^ join "/" (e' :: l)).
    change (join "/" ((e :: e' :: l) ++ rest)) with (e ^^ "/" ^^ join "/" ((e' :: l) ++ rest)).
    rewrite IH by done. by rewrite !append_assoc.
Qed.

Lemma Abs_abs cwd path p : (forall wd, cwd = inl wd -> IsAbs wd = true) -> Abs cwd path = Ok p ->
  exists l, Forall name l /\ p = abs_path l.
Proof.
  intros Hwd. unfold Abs. destruct (IsAbs path) eqn:Ha.
  - intros [= <-]. by apply Clean_abs.
  - destruct cwd as [wd|e]; [|done]. intros [= <-]. specialize (Hwd wd eq_refl). cbn [Join].
    destruct (String.eqb_spec wd ""); [by subst|]. apply Clean_abs.
    apply has_prefix_spec in Hwd as [r ->]. apply has_prefix_spec. exists (r ^^ "/" ^^ path). reflexivity.
Qed.

Module SamplePaths.
Example cleaned : Clean "/a//b/./../c/" = "/a/c" /\ Clean "../x/.." = ".." /\ Clean "" = "." /\ Clean "/.." = "/".
Proof. by vm_compute. Qed.
Example joined : Join [""; "a"; ""; "../b"] = "b" /\ Join ["/w"; "../../etc"] = "/etc" /\ Join [""; ""] = "".
Proof. by vm_compute. Qed.
Example parts : Base "a/b.tar.gz/" = "b.tar.gz" /\ Base "/" = "/" /\ Dir "/a/b" = "/a" /\ Dir "f" = "." /\ Ext "a.d/b" = "" /\ Ext "x.tar.gz" = ".gz".
Proof. by vm_compute. Qed.
End SamplePaths.
