(* ===== verification/GoTime.v ===== *)
(** * Durations (package [time])

    [time.ParseDuration] as the standard library writes it, with its overflow
    tests and the float arithmetic of its fractions, and the saturating
    subtraction of [time.Since]. *)

From Stdlib Require Import ZArith Lia String Ascii.
From S2P Require Import Prelude GoFloat GoStrings.
#[local] Open Scope Z_scope.

Definition Minute : Z := 60 * 10 ^ 9.
Definition Hour : Z := 60 * Minute.

Definition maxDuration : Z := 2 ^ 63 - 1.
Definition minDuration : Z := - 2 ^ 63.

(** [t.Sub(u)] saturates. *)
Definition time_sub (t u : Z) : Z := Z.max minDuration (Z.min (t - u) maxDuration).

Definition digit (c : ascii) : option Z :=
  let n := Z.of_nat (nat_of_ascii c) in if (48 <=? n) && (n <=? 57) then Some (n - 48) else None.

(** [leadingInt]; [None] is its overflow error. *)
Fixpoint leadingInt (x : Z) (s : string) : option (Z * string) :=
  match s with
  | String c s' =>
      match digit c with
      | Some d =>
          if 2 ^ 63 / 10 <? x then None
          else let x := x * 10 + d in if 2 ^ 63 <? x then None else leadingInt x s'
      | None => Some (x, s)
      end
  | EmptyString => Some (x, s)
  end.

(** [leadingFraction]: digits that no longer fit are skipped. *)
Fixpoint leadingFraction (x : Z) (scale : float) (overflow : bool) (s : string) : Z * float * string :=
  match s with
  | String c s' =>
      match digit c with
      | Some d =>
          if overflow then leadingFraction x scale true s'
          else if (2 ^ 63 - 1) / 10 <? x then leadingFraction x scale true s'
          else let y := x * 10 + d in
               if 2 ^ 63 <? y then leadingFraction x scale true s'
               else leadingFraction y (fmul scale (f64_of_Z 10)) false s'
      | None => (x, scale, s)
      end
  | EmptyString => (x, scale, s)
  end.

(** The bytes up to the next digit or period. *)
Fixpoint unit_prefix (s : string) : string * string :=
  match s with
  | String c s' =>
      if Ascii.eqb c "." || bool_decide (is_Some (digit c)) then (EmptyString, s)
      else let r := unit_prefix s' in (String c r.1, r.2)
  | EmptyString => (EmptyString, EmptyString)
  end.

Definition unitMap (u : string) : option Z :=
  if String.eqb u "ns" then Some 1
  else if String.eqb u "us" then Some 1000
  else if String.eqb u (byte 194 ^^ byte 181 ^^ "s") then Some 1000
  else if String.eqb u (byte 206 ^^ byte 188 ^^ "s") then Some 1000
  else if String.eqb u "ms" then Some (10 ^ 6)
  else if String.eqb u "s" then Some (10 ^ 9)
  else if String.eqb u "m" then Some Minute
  else if String.eqb u "h" then Some Hour
  else None.

(** [uint64(x)] *)
Definition uint64_of_f64 (x : float) : Z := f64_trunc x `mod` 2 ^ 64.

(** One number with its unit. *)
Definition duration_item (s : string) : option (Z * string) :=
  match leadingInt 0 s with
  | None => None
  | Some (v, s1) =>
      let pre := negb (Nat.eqb (slen s) (slen s1)) in
      let '(f, scale, s2, post) :=
        match s1 with
        | String "." s' =>
            let '(f, scale, s2) := leadingFraction 0 f1 false s' in (f, scale, s2, negb (Nat.eqb (slen s') (slen s2)))
        | _ => (0, f1, s1, false)
        end in
      if negb pre && negb post then None
      else
        let (u, s3) := unit_prefix s2 in
        if String.eqb u "" then None
        else match unitMap u with
             | None => None
             | Some unit =>
                 if 2 ^ 63 / unit <? v then None
                 else
                   let v := v * unit + (if 0 <? f then uint64_of_f64 (fmul (f64_of_Z f) (fdiv (f64_of_Z unit) scale)) else 0) in
                   if 2 ^ 63 <? v then None else Some (v, s3)
             end
  end.

(** Each item takes at least one byte, so the length of [s] is fuel enough. *)
Fixpoint duration_items (fuel : nat) (d : Z) (s : string) : option Z :=
  match s with
  | EmptyString => Some d
  | String c _ =>
      if negb (Ascii.eqb c "." || bool_decide (is_Some (digit c))) then None
      else
        match fuel with
        | O => None
        | S fuel' =>
            match duration_item s with
            | None => None
            | Some (v, s') => if 2 ^ 63 <? d + v then None else duration_items fuel' (d + v) s'
            end
        end
  end.

(** [None] is an error; its text is not kept. *)
Definition ParseDuration (s : string) : option Z :=
  let '(neg, s) :=
    match s with
    | String "-" s' => (true, s')
    | String "+" s' => (false, s')
    | _ => (false, s)
    end in
  if String.eqb s "0" then Some 0
  else if String.eqb s "" then None
  else
    match duration_items (slen s) 0 s with
    | None => None
    | Some d => if neg : bool then Some (- d) else if 2 ^ 63 - 1 <? d then None else Some d
    end.

Lemma digit_range c d : digit c = Some d -> 0 <= d <= 9.
Proof. unfold digit. destruct (_ && _) eqn:E; [|done]. intros [= <-]. lia. Qed.

Lemma leadingInt_nonneg s x v s' : 0 <= x -> leadingInt x s = Some (v, s') -> 0 <= v.
Proof.
  revert x. induction s as [|c s IH]; intros x Hx E; cbn [leadingInt] in E; [by simplify_eq|].
  destruct (digit c) as [d|] eqn:Ed; [|by simplify_eq]. apply digit_range in Ed.
  destruct (_ <? x); [done|]. destruct (_ <? x * 10 + d); [done|]. apply (IH _) in E; lia.
Qed.

Lemma duration_item_nonneg s v s' : duration_item s = Some (v, s') -> 0 <= v.
Proof.
  unfold duration_item. destruct (leadingInt 0 s) as [[n s1]|] eqn:En; [|done].
  apply leadingInt_nonneg in En; [|done].
  destruct (match s1 with | String "." s' => _ | _ => _ end) as [[[f scale] s2] post]. destruct (_ && _); [done|].
  destruct (unit_prefix s2) as [u s3]. destruct (String.eqb u ""); [done|]. destruct (unitMap u) as [unit|] eqn:Eu; [|done].
  destruct (_ <? n); [done|]. destruct (_ <? _); [done|]. intros [= <- _].
  assert (0 <= unit) as Hu.
  { unfold unitMap in Eu. repeat (destruct (String.eqb _ _); [injection Eu as <-; done|]). done. }
  assert (0 <= (if 0 <? f then uint64_of_f64 (fmul (f64_of_Z f) (fdiv (f64_of_Z unit) scale)) else 0)) as Hf.
  { destruct (0 <? f); [|done]. unfold uint64_of_f64. by apply Z.mod_pos_bound. }
  nia.
Qed.

(** A duration is an int64. *)
Lemma ParseDuration_range s d : ParseDuration s = Some d -> minDuration <= d <= maxDuration.
Proof.
  assert (forall fuel d0 s0 d1, 0 <= d0 <= 2 ^ 63 -> duration_items fuel d0 s0 = Some d1 -> 0 <= d1 <= 2 ^ 63) as Hit.
  { induction fuel as [|fuel IH]; intros d0 [|c s0] d1 Hd0 E; cbn [duration_items] in E; try (by simplify_eq);
      (destruct (negb _); [done|]); [done|]. destruct (duration_item _) as [[v s']|] eqn:Ev; [|done].
    apply duration_item_nonneg in Ev. destruct (Z.ltb_spec (2 ^ 63) (d0 + v)) as [|Hle]; [done|]. apply (IH _ _ _) in E; lia. }
  unfold ParseDuration. destruct (match s with | String "-" s' => _ | _ => _ end) as [neg s1].
  destruct (String.eqb s1 "0"); [by intros [= <-]|]. destruct (String.eqb s1 ""); [done|].
  destruct (duration_items _ 0 s1) as [x|] eqn:E; [|done]. apply Hit in E; [|lia].
  unfold minDuration, maxDuration. destruct neg; [intros [= <-]; lia|].
  destruct (Z.ltb_spec (2 ^ 63 - 1) x); [done|]. intros [= <-]. lia.
Qed.

Example parse_hours : ParseDuration "1h30m" = Some (90 * Minute).
Proof. vm_compute. reflexivity. Qed.
Example parse_fraction : ParseDuration "-1.5h" = Some (- 90 * Minute).
Proof. vm_compute. reflexivity. Qed.
Example parse_bad : ParseDuration "5" = None /\ ParseDuration ".s" = None /\ ParseDuration "1d" = None.
Proof. vm_compute. by split. Qed.
