(* ===== verification/Errors.v ===== *)
(** * Errors ([core/errors.go], [core/httpc/status.go])

    Error texts, unwrapping, [errors.Is], and the context-overflow
    classifier. *)

From Stdlib Require Import ZArith Lia String Ascii.
From S2P Require Import Prelude GoStrings.
#[local] Open Scope nat_scope.

(** [Error()]: the sentinels' texts, [StatusError.Error], and wrapping. *)
Fixpoint err_text (e : goerr) : string :=
  match e with
  | EUnsupported => "capability not supported by provider"
  | EAuth => "authentication failed"
  | EProviderUnavailable => "provider endpoint unreachable"
  | ERateLimited => "provider rate limit exceeded"
  | EContextTooLong => "request exceeds model context window"
  | EModelNotFound => "model not found"
  | EScorerFailed => "scorer returned error during scoring"
  | EScorerUnavailable => "no scorer configured — RRC cannot score edges"
  | EMessageNotFound => "message ID not found in data structures"
  | EThreadNotFound => "thread ID not found in data structures"
  | ENoResponse => "no response from agent"
  | EStopped => "agent turn stopped by user"
  | ERatioOutOfBand => "tokenscale: ratio outside plausible band"
  | ECanceled => "context canceled"
  | EDeadlineExceeded => "context deadline exceeded"
  | ENew text => text
  | EStatus provider code body =>
      if String.eqb body "" then provider ^^ " returned " ^^ itoa code
      else provider ^^ " returned " ^^ itoa code ^^ ": " ^^ body
  | EWrap pre inner post => pre ^^ err_text inner ^^ post
  end.

(** [StatusError.Unwrap] *)
Definition status_sentinel (code : Z) : goerr :=
  if (code =? 401)%Z || (code =? 403)%Z then EAuth
  else if (code =? 429)%Z then ERateLimited
  else EProviderUnavailable.

(** [errors.Is(err, target)] for a sentinel target *)
Fixpoint err_is (e target : goerr) : bool :=
  bool_decide (e = target) ||
  match e with
  | EStatus _ code _ => bool_decide (status_sentinel code = target)
  | EWrap _ inner _ => err_is inner target
  | _ => false
  end.

(** [fmt.Errorf("%w: %v", sentinel, err)]: only the sentinel stays in the chain. *)
Definition wrap_sentinel (sentinel : goerr) (text : string) : goerr := EWrap "" sentinel (": " ^^ text).

Definition contextOverflowPatterns : list string :=
  ["context window exceeds limit"; "context length exceeded"; "maximum context length";
   "context_length_exceeded"; "prompt is too long"; "input is too long"; "requested tokens";
   "exceeds the maximum"; "too many tokens"; "context window"].

Definition IsContextOverflow (err : option goerr) : bool :=
  match err with
  | None => false
  | Some e =>
      err_is e EContextTooLong ||
      existsb (fun p => contains (to_lower (err_text e)) p) contextOverflowPatterns
  end.

Lemma err_is_wrap pre e post target : err_is e target = true -> err_is (EWrap pre e post) target = true.
Proof. intros H. simpl. by rewrite H, orb_true_r. Qed.

Lemma to_lower_append a b : to_lower (a ^^ b) = to_lower a ^^ to_lower b.
Proof. induction a as [|c a IH]; [done|]. exact (f_equal (String (lower_byte c)) IH). Qed.

(** Overflow classification survives wrapping.  An error that is
    recognised as a context overflow is still recognised after any number of
    [fmt.Errorf("...%w...")] wrappings, by its chain or by its text; and every
    error whose chain reaches the sentinel is recognised. *)
Theorem IsContextOverflow_wrap (e : goerr) :
  (forall pre post, IsContextOverflow (Some e) = true -> IsContextOverflow (Some (EWrap pre e post)) = true) /\
  (err_is e EContextTooLong = true -> IsContextOverflow (Some e) = true) /\
  (forall p a b, p ∈ contextOverflowPatterns -> to_lower (err_text e) = a ^^ p ^^ b ->
     IsContextOverflow (Some e) = true).
Proof.
  unfold IsContextOverflow. split; [|split].
  - intros pre post [H|H]%orb_true_iff; apply orb_true_iff; [left; by apply err_is_wrap|right].
    apply existsb_exists in H as (p & Hp & (a & b & Hc)%contains_spec). apply existsb_exists.
    exists p. split; [done|]. apply contains_spec. simpl. rewrite !to_lower_append, Hc.
    exists (to_lower pre ^^ a), (b ^^ to_lower post). by rewrite !append_assoc.
  - intros ->. done.
  - intros p a b Hp Ht. apply orb_true_iff. right. apply existsb_exists. exists p.
    split; [by apply list_elem_of_In|]. apply contains_spec. eauto.
Qed.
