(* ===== verification/Retry.v ===== *)
(** * Bounded retry ([core/httpc/retry/retry.go], [completer.go])

    [Do] over an arbitrary state: the operation, the context and the clock are
    inputs, so every interleaving of failures, cancellations and jitter draws
    is a value of them.  [Completer.Stream] delivers to a consumer that may
    stop; what was delivered is never replayed. *)

From Stdlib Require Import ZArith Lia String Ascii.
From S2P Require Import Prelude GoFloat GoStrings Errors.
#[local] Open Scope Z_scope.

(** A [time.Duration] is a count of nanoseconds. *)
Definition Second : Z := 1000000000.
Definition Minute : Z := 60 * Second.

Record Policy := {
  MaxAttempts : Z;
  BaseDelay : Z;
  MaxDelay : Z;
  Multiplier : float;
  Jitter : float
}.

Definition DefaultPolicy : Policy :=
  {| MaxAttempts := 10; BaseDelay := 5 * Second; MaxDelay := 5 * Minute;
     Multiplier := f2; Jitter := fdiv (f64_of_Z 2) (f64_of_Z 10) |}.

Definition LocalServicePolicy : Policy :=
  {| MaxAttempts := 3; BaseDelay := 1 * Second; MaxDelay := 10 * Second;
     Multiplier := f64_of_Z 3; Jitter := f64_lit 1 (-2) |}.

Record Event := {
  ev_Attempt : Z;
  ev_MaxAttempts : Z;
  ev_Err : option goerr;
  ev_NextDelay : Z;
  ev_Final : bool
}.

(** ** Classification *)

Definition statusRetryable (code : Z) : bool :=
  if (code =? 408) || (code =? 429) then true
  else if (500 <=? code) && (code <? 600) then true
  else false.

Definition containsAny (s : string) (needles : list string) : bool :=
  existsb (contains s) needles.

(** [errors.As(err, &sc)] for an error with a [Status() int] method: the first
    status carrier of the chain. *)
Fixpoint status_of (e : goerr) : option Z :=
  match e with
  | EStatus _ code _ => Some code
  | EWrap _ inner _ => status_of inner
  | _ => None
  end.

Definition IsRetryable (err : option goerr) : bool :=
  match err with
  | None => false
  | Some e =>
      if err_is e ECanceled || err_is e EDeadlineExceeded then false
      else match status_of e with
      | Some code => statusRetryable code
      | None =>
          if err_is e EAuth then false
          else if err_is e ERateLimited then true
          else if err_is e EProviderUnavailable then
            let msg := err_text e in
            if containsAny msg ["500"; "502"; "503"; "504"; "Bad Gateway"; "Gateway Timeout";
                                "Service Unavailable"; "Service Temporarily Unavailable";
                                "Internal Server Error"] then true
            else if containsAny msg ["context deadline exceeded"; "Client.Timeout exceeded";
                                     "connection refused"; "connection reset"; "no such host";
                                     "unexpected EOF"; "broken pipe"; "i/o timeout";
                                     "TLS handshake timeout"] then true
            else if containsAny msg ["400"; "404"; "409"; "410"; "422"] then false
            else true
          else false
      end
  end.

(** ** Delays *)

(** [draw] is the value [rand.Float64()] returns. *)
Definition applyJitter (draw : float) (d : Z) (fraction : float) : Z :=
  if fle fraction f0 then d
  else
    let fraction := if flt f1 fraction then f1 else fraction in
    let delta := fmul (fsub (fmul draw f2) f1) fraction in
    int_of_f64 (fmul (f64_of_Z d) (fadd f1 delta)).

Definition next_delay (p : Policy) (delay : Z) : Z :=
  let next := int_of_f64 (fmul (f64_of_Z delay) (Multiplier p)) in
  if MaxDelay p <? next then MaxDelay p else next.

(** The zero-value guards at the head of [Do]. *)
Definition normalize (p : Policy) : Policy :=
  {| MaxAttempts := if MaxAttempts p <? 1 then 1 else MaxAttempts p;
     Multiplier := if fle (Multiplier p) f0 then f2 else Multiplier p;
     BaseDelay := if BaseDelay p <=? 0 then Second else BaseDelay p;
     MaxDelay := if MaxDelay p <=? 0 then 60 * Second else MaxDelay p;
     Jitter := Jitter p |}.

(** ** Do *)

Section Do.

(** What the call reads of its surroundings, per attempt: [ctx.Err()] before
    the attempt, the context's error when it ends before the timer does, and
    the jitter draw. *)
Context {S : Type}.
Context (ctx_err : Z -> option goerr).
Context (wait_err : Z -> option goerr).
Context (draw : Z -> float).
Context (onEvent : option (Event -> S -> S)).
Context (op : GoM S unit).

Definition emit (e : Event) (s : S) : S :=
  match onEvent with None => s | Some cb => cb e s end.

Fixpoint attempts (p : Policy) (n : nat) (attempt delay : Z) (lastErr : option goerr) : GoM S unit := fun s =>
  match n with
  | O => (s, match lastErr with None => Ok tt | Some e => Err e end)
  | Datatypes.S n' =>
      match ctx_err attempt with
      | Some e => (s, Err e)
      | None =>
          match op s with
          | (s', Panic t) => (s', Panic t)
          | (s', Ok _) =>
              (emit {| ev_Attempt := attempt; ev_MaxAttempts := MaxAttempts p; ev_Err := None;
                       ev_NextDelay := 0; ev_Final := true |} s', Ok tt)
          | (s', Err err) =>
              let final := {| ev_Attempt := attempt; ev_MaxAttempts := MaxAttempts p; ev_Err := Some err;
                              ev_NextDelay := 0; ev_Final := true |} in
              if negb (IsRetryable (Some err)) then (emit final s', Err err)
              else if attempt =? MaxAttempts p then (emit final s', Err err)
              else
                let wait := applyJitter (draw attempt) delay (Jitter p) in
                let s'' := emit {| ev_Attempt := attempt; ev_MaxAttempts := MaxAttempts p;
                                   ev_Err := Some err; ev_NextDelay := wait; ev_Final := false |} s' in
                match wait_err attempt with
                | Some e => (s'', Err e)
                | None => attempts p n' (attempt + 1) (next_delay p delay) (Some err) s''
                end
          end
      end
  end.

Definition Do (policy : Policy) : GoM S unit :=
  let p := normalize policy in
  attempts p (Z.to_nat (MaxAttempts p)) 1 (BaseDelay p) None.

(** *** The abstract retry machine

    [Retried p k d s s']: [k] attempts have failed with a retryable error, the
    context let every wait finish, and attempt [k + 1] is about to start in
    state [s'] with unjittered delay [d]. *)
Inductive Retried (p : Policy) (s : S) : Z -> Z -> S -> Prop :=
  | retried_start : Retried p s 0 (BaseDelay p) s
  | retried_again k d s1 s2 err :
      Retried p s k d s1 ->
      ctx_err (k + 1) = None -> op s1 = (s2, Err err) -> IsRetryable (Some err) = true ->
      k + 1 < MaxAttempts p -> wait_err (k + 1) = None ->
      Retried p s (k + 1) (next_delay p d)
        (emit {| ev_Attempt := k + 1; ev_MaxAttempts := MaxAttempts p; ev_Err := Some err;
                 ev_NextDelay := applyJitter (draw (k + 1)) d (Jitter p); ev_Final := false |} s2).

(** How the last attempt, number [k + 1], ends the call. *)
Inductive Ends (p : Policy) (k d : Z) (s1 : S) : S * outcome unit -> Prop :=
  | ends_canceled e : ctx_err (k + 1) = Some e -> Ends p k d s1 (s1, Err e)
  | ends_panic s2 t : ctx_err (k + 1) = None -> op s1 = (s2, Panic t) -> Ends p k d s1 (s2, Panic t)
  | ends_success s2 : ctx_err (k + 1) = None -> op s1 = (s2, Ok tt) ->
      Ends p k d s1 (emit {| ev_Attempt := k + 1; ev_MaxAttempts := MaxAttempts p; ev_Err := None;
                             ev_NextDelay := 0; ev_Final := true |} s2, Ok tt)
  | ends_failure s2 err : ctx_err (k + 1) = None -> op s1 = (s2, Err err) ->
      IsRetryable (Some err) = false \/ k + 1 = MaxAttempts p ->
      Ends p k d s1 (emit {| ev_Attempt := k + 1; ev_MaxAttempts := MaxAttempts p; ev_Err := Some err;
                             ev_NextDelay := 0; ev_Final := true |} s2, Err err)
  | ends_wait s2 err e : ctx_err (k + 1) = None -> op s1 = (s2, Err err) ->
      IsRetryable (Some err) = true -> k + 1 < MaxAttempts p -> wait_err (k + 1) = Some e ->
      Ends p k d s1 (emit {| ev_Attempt := k + 1; ev_MaxAttempts := MaxAttempts p; ev_Err := Some err;
                             ev_NextDelay := applyJitter (draw (k + 1)) d (Jitter p); ev_Final := false |} s2,
                     Err e).

Lemma attempts_refine p n k d last s0 s :
  Retried p s0 k d s -> k < MaxAttempts p -> Z.of_nat n = MaxAttempts p - k ->
  exists k' d' s', k <= k' < MaxAttempts p /\ Retried p s0 k' d' s' /\
    Ends p k' d' s' (attempts p n (k + 1) d last s).
Proof.
  revert k d last s. induction n as [|n IH]; intros k d last s Hr Hk Hn; [lia|].
  cbn [attempts].
  destruct (ctx_err (k + 1)) as [e|] eqn:Ec.
  { exists k, d, s. split; [lia|]. split; [done|]. by constructor. }
  destruct (op s) as [s2 [[]|err|t]] eqn:Eo.
  1, 3: exists k, d, s; (split; [lia|]); (split; [done|]); by constructor.
  destruct (IsRetryable (Some err)) eqn:Er; cbn [negb].
  2: { exists k, d, s. split; [lia|]. split; [done|]. apply ends_failure; auto. }
  destruct (Z.eqb_spec (k + 1) (MaxAttempts p)).
  { exists k, d, s. split; [lia|]. split; [done|]. apply ends_failure; auto. }
  destruct (wait_err (k + 1)) as [e|] eqn:Ew.
  { exists k, d, s. split; [lia|]. split; [done|]. apply ends_wait; auto. lia. }
  edestruct (IH (k + 1) (next_delay p d) (Some err)) as (k' & d' & s' & Hk' & Hr' & He);
    [eapply retried_again; eauto; lia|lia|lia|].
  exists k', d', s'. split; [lia|]. by split.
Qed.

Lemma normalize_attempts policy : MaxAttempts (normalize policy) = Z.max 1 (MaxAttempts policy).
Proof. simpl. destruct (Z.ltb_spec (MaxAttempts policy) 1); lia. Qed.

(** C21: [Do] runs the retry machine to an end.  For every policy, operation
    and context, the call is a run of the abstract machine: some number [k] of
    retryable failures, each reported with its wait, fewer than
    [max(1, MaxAttempts)] of them, followed by one attempt that ends the call
    - a cancelled context before it, a success, a permanent or exhausted
    failure, or a context that ends during the wait - with the event and the
    result that case prescribes. *)
Theorem Do_refines (policy : Policy) (s : S) :
  exists k d s', 0 <= k < Z.max 1 (MaxAttempts policy) /\
    Retried (normalize policy) s k d s' /\ Ends (normalize policy) k d s' (Do policy s).
Proof.
  rewrite <- normalize_attempts. unfold Do.
  pose proof (normalize_attempts policy) as Hm.
  apply (attempts_refine (normalize policy) _ 0); [constructor|lia|lia].
Qed.

(** Every delay after the first is capped. *)
Lemma retried_capped p s k d s' : Retried p s k d s' -> 0 < k -> d <= MaxDelay p.
Proof.
  induction 1; intros Hk; [lia|]. unfold next_delay.
  match goal with |- context [?a <? ?b] => destruct (Z.ltb_spec a b) end; lia.
Qed.

(** An invariant of the failing attempts and of the reports holds wherever the
    machine stands. *)
Lemma Retried_inv (P : S -> Prop) p s k d s' :
  (forall s1 s2 err, P s1 -> op s1 = (s2, Err err) -> P s2) -> (forall e s, P s -> P (emit e s)) ->
  P s -> Retried p s k d s' -> P s'.
Proof. intros Hop Hem Hs. induction 1; eauto. Qed.

End Do.

(** ** Completer *)

Definition policy_zero (p : Policy) : bool := MaxAttempts p =? 0.

(** [NewCompleter]: the policy the wrapper uses. *)
Definition NewCompleter (policy : Policy) : Policy :=
  if policy_zero policy then DefaultPolicy else policy.

Section Completer.

Context {S Resp Chunk : Type}.
Context (ctx_err : Z -> option goerr) (wait_err : Z -> option goerr) (draw : Z -> float).
Context (onEvent : option (Event -> S -> S)).

(** [resp] is a variable the closure captures: it keeps what the last call of
    the inner completer assigned. *)
Definition Complete (policy : Policy) (inner : S -> S * (option Resp * option goerr)) (s : S)
    : S * option Resp * outcome unit :=
  let op : GoM (S * option Resp) unit := fun sr =>
    let '(s', (resp, e)) := inner sr.1 in
    ((s', resp), match e with None => Ok tt | Some e => Err e end) in
  let cb := option_map (fun (f : Event -> S -> S) e (sr : S * option Resp) => (f e sr.1, sr.2)) onEvent in
  Do ctx_err wait_err draw cb op policy (s, None).

(** One value of an [iter.Seq2]: a chunk and an error.  The caller's [yield]
    acts on the state and says whether it wants more. *)
Definition SItem : Type := option Chunk * option goerr.

Fixpoint drain (yield : SItem -> S -> S * bool) (items : list SItem) (s : S) : S :=
  match items with
  | [] => s
  | it :: rest => match yield it s with (s', true) => drain yield rest s' | (s', false) => s' end
  end.

(** The closure [Stream] passes to [Do]: [inner] opens the provider's stream
    and gives the values it will produce. *)
Definition stream_op (yield : SItem -> S -> S * bool) (inner : S -> S * list SItem) : GoM S unit := fun s =>
  let '(s, items) := inner s in
  match items with
  | [] => (s, Ok tt)
  | (_, Some err) :: _ => (s, Err err)
  | (chunk, None) :: rest =>
      match yield (chunk, None) s with
      | (s', false) => (s', Ok tt)
      | (s', true) => (drain yield rest s', Ok tt)
      end
  end.

Definition Stream (policy : Policy) (yield : SItem -> S -> S * bool) (inner : S -> S * list SItem) (s : S)
    : S * outcome unit :=
  match Do ctx_err wait_err draw onEvent (stream_op yield inner) policy s with
  | (s', Err e) => ((yield (None, Some e) s').1, Ok tt)
  | r => r
  end.

End Completer.

(** *** What a streaming consumer sees *)

Section Delivery.

Context {Chunk : Type}.
Context (ctx_err : Z -> option goerr) (wait_err : Z -> option goerr) (draw : Z -> float).

(** The consumer logs what it is given and stops when [accept] of its log is
    false; the provider's [n]-th stream is [provider n]. *)
Record Wire := { opened : nat; delivered : list (@SItem Chunk) }.
Context (accept : list (@SItem Chunk) -> bool) (provider : nat -> list (@SItem Chunk)).

Definition consume (it : @SItem Chunk) (w : Wire) : Wire * bool :=
  let log := delivered w ++ [it] in ({| opened := opened w; delivered := log |}, accept log).

Definition connect (w : Wire) : Wire * list (@SItem Chunk) :=
  ({| opened := opened w + 1; delivered := delivered w |}, provider (opened w)).

(** [l] is what a consumer takes of [items] after [log]: it accepted every
    proper prefix, and it either took everything or refused the last one. *)
Inductive Takes (log : list (@SItem Chunk)) : list (@SItem Chunk) -> list (@SItem Chunk) -> Prop :=
  | takes_end : Takes log [] []
  | takes_stop it items : accept (log ++ [it]) = false -> Takes log (it :: items) [it]
  | takes_more it items l : accept (log ++ [it]) = true -> Takes (log ++ [it]) items l ->
      Takes log (it :: items) (it :: l).

Lemma drain_takes items w w' :
  drain consume items w = w' ->
  exists l, Takes (delivered w) items l /\ opened w' = opened w /\ delivered w' = delivered w ++ l.
Proof.
  revert w. induction items as [|it items IH]; intros w; cbn [drain].
  { intros <-. exists []. split; [constructor|]. by rewrite app_nil_r. }
  unfold consume at 1. destruct (accept (delivered w ++ [it])) eqn:E.
  - intros (l & Ht & Ho & Hd)%IH. exists (it :: l). simpl in *. rewrite Hd, <- app_assoc.
    split; [by constructor|]. done.
  - intros <-. exists [it]. split; [by constructor|]. done.
Qed.

(** A failed attempt has opened one stream and delivered nothing. *)
Lemma stream_op_failed w w' e :
  stream_op consume connect w = (w', Err e) ->
  delivered w' = delivered w /\ opened w' = (opened w + 1)%nat /\
  exists c rest, provider (opened w) = (c, Some e) :: rest.
Proof.
  unfold stream_op, connect. destruct (provider (opened w)) as [|[c [e'|]] rest] eqn:Ep; [done| |].
  - intros [= <- <-]. eauto.
  - destruct (consume _ _) as [? []]; done.
Qed.

Lemma stream_op_ok w w' :
  stream_op consume connect w = (w', Ok tt) ->
  opened w' = (opened w + 1)%nat /\
  exists l, Takes (delivered w) (provider (opened w)) l /\ delivered w' = delivered w ++ l.
Proof.
  unfold stream_op, connect. destruct (provider (opened w)) as [|[c [e'|]] rest] eqn:Ep; [|done|].
  - intros [= <-]. split; [done|]. exists []. rewrite app_nil_r. split; [constructor|done].
  - unfold consume at 1. cbn [opened delivered]. destruct (accept _) eqn:Ea.
    + intros [= (l & Ht & Ho & Hd)%drain_takes]. cbn [opened delivered] in *. split; [done|].
      exists ((c, None) :: l). rewrite Hd, <- app_assoc. split; [by constructor|done].
    + intros [= <-]. split; [done|]. exists [(c, None)]. split; [by constructor|done].
Qed.

Lemma stream_op_total w : forall w' t, stream_op consume connect w <> (w', Panic t).
Proof.
  intros w' t. unfold stream_op, connect. destruct (provider (opened w)) as [|[c [e'|]] rest]; [done..|].
  destruct (consume _ _) as [? []]; done.
Qed.

(** While the machine retries, attempt [k]'s stream has been opened and
    nothing has reached the consumer. *)
Lemma retried_silent p w k d w' :
  Retried ctx_err wait_err draw None (stream_op consume connect) p w k d w' ->
  delivered w' = delivered w /\ Z.of_nat (opened w') = Z.of_nat (opened w) + k.
Proof.
  induction 1 as [|k d s1 s2 err Hr [IHd IHo] Hc Hop]; [split; [done|lia]|].
  destruct (stream_op_failed _ _ _ Hop) as (Hd & Ho & _). simpl. rewrite Hd, Ho. split; [done|lia].
Qed.

(** What a whole run delivers: one error, or what the consumer takes of one
    stream. *)
Definition delivers (w0 w : Wire) : Prop :=
  (exists e, delivered w = [(None, Some e)]) \/
  (exists n, opened w = (opened w0 + n + 1)%nat /\ Takes [] (provider (opened w0 + n)) (delivered w)).

Lemma Stream_run (policy : Policy) (w0 : Wire) (H0 : delivered w0 = []) :
  let '(w, r) := Stream ctx_err wait_err draw None policy consume connect w0 in
  r = Ok tt /\ delivers w0 w /\ Z.of_nat (opened w) <= Z.of_nat (opened w0) + MaxAttempts (normalize policy).
Proof.
  unfold Stream.
  edestruct (attempts_refine ctx_err wait_err draw None (stream_op consume connect) (normalize policy)
               (Z.to_nat (MaxAttempts (normalize policy))) 0 (BaseDelay (normalize policy)) None w0 w0)
    as (k & d & w1 & Hk & Hr & He);
    [constructor|pose proof (normalize_attempts policy); lia|pose proof (normalize_attempts policy); lia|].
  change (attempts _ _ _ _ _ _ _ (0 + 1) _ _ w0)
    with (Do ctx_err wait_err draw None (stream_op consume connect) policy w0) in He.
  destruct (retried_silent _ _ _ _ _ Hr) as [Hd Ho]. rewrite H0 in Hd.
  inversion He as [e Hc Heq|s2 t Hc Hop Heq|s2 Hc Hop Heq|s2 err Hc Hop Hx Heq|s2 err e Hc Hop Hx1 Hx2 Hx3 Heq];
    cbn -[normalize].
  - rewrite Hd. split; [done|]. split; [left; by exists e|]. cbn -[normalize]. lia.
  - by apply stream_op_total in Hop.
  - destruct (stream_op_ok _ _ Hop) as (Hn & l & Ht & Hl). rewrite Hd in Ht, Hl. simpl in Hl.
    split; [done|]. split; [|lia]. right. exists (Z.to_nat k). split; [lia|].
    rewrite Hl. by replace (opened w0 + Z.to_nat k)%nat with (opened w1) by lia.
  - destruct (stream_op_failed _ _ _ Hop) as (Hn & Hn' & _). rewrite Hn, Hd. cbn -[normalize].
    split; [done|]. split; [left; by exists err|]. lia.
  - destruct (stream_op_failed _ _ _ Hop) as (Hn & Hn' & _). rewrite Hn, Hd. cbn -[normalize].
    split; [done|]. split; [left; by exists e|]. lia.
Qed.

(** A retried stream is never replayed.  Whatever the provider streams on
    each attempt, whenever the consumer stops and the context ends, the
    consumer receives either (a) a single error and nothing else, or (b) a
    prefix of exactly one of the provider's streams, the one opened last -
    the whole of it unless the consumer refused - and it is never called again
    after it refused; at most [max(1, MaxAttempts)] streams are opened. *)
Theorem Stream_never_replays (policy : Policy) (w0 : Wire) (H0 : delivered w0 = []) :
  let '(w, r) := Stream ctx_err wait_err draw None policy consume connect w0 in
  r = Ok tt /\
  ((exists e, delivered w = [(None, Some e)]) \/
   (exists n, opened w = (opened w0 + n + 1)%nat /\ Takes [] (provider (opened w0 + n)) (delivered w))) /\
  Z.of_nat (opened w) <= Z.of_nat (opened w0) + Z.max 1 (MaxAttempts policy).
Proof.
  pose proof (Stream_run policy w0 H0) as Hrun. rewrite <- normalize_attempts.
  by destruct (Stream _ _ _ _ _ _ _ _) as [w r].
Qed.

End Delivery.

(** ** Classification, stated *)

Lemma err_is_wrap_eq pre e post target :
  (forall p i q, target <> EWrap p i q) -> err_is (EWrap pre e post) target = err_is e target.
Proof.
  intros Ht. simpl. rewrite bool_decide_eq_false_2; [done|]. intros <-. by apply (Ht pre e post).
Qed.

Lemma status_not_canceled e code target :
  status_of e = Some code -> target = ECanceled \/ target = EDeadlineExceeded -> err_is e target = false.
Proof.
  intros He Ht. induction e; try discriminate He; simpl.
  - unfold status_sentinel. destruct Ht as [-> | ->]; repeat case_match; done.
  - rewrite IHe by done. rewrite bool_decide_eq_false_2; [done|]. by destruct Ht as [-> | ->].
Qed.

(** Classification follows the error, not its wrapping.  An error that
    carries an HTTP status is retried exactly when the status is 408, 429 or
    5xx, however deep the carrier sits; and wrapping an error changes the
    verdict for no error except an untyped provider-unavailable one, whose
    text is what is classified. *)
Theorem IsRetryable_status (e : goerr) :
  (forall code, status_of e = Some code ->
     (IsRetryable (Some e) = true <-> code = 408 \/ code = 429 \/ 500 <= code < 600)) /\
  (forall pre post, status_of e <> None \/ err_is e EProviderUnavailable = false ->
     IsRetryable (Some (EWrap pre e post)) = IsRetryable (Some e)).
Proof.
  split.
  - intros code Hc. unfold IsRetryable.
    rewrite !(status_not_canceled e code) by auto. rewrite Hc. unfold statusRetryable. simpl.
    repeat case_match; lia.
  - intros pre post Hor. unfold IsRetryable. rewrite !err_is_wrap_eq by done. cbn [status_of].
    destruct (_ || _); [done|]. destruct (status_of e); [done|].
    destruct (err_is e EAuth); [done|]. destruct (err_is e ERateLimited); [done|].
    destruct Hor as [? | ->]; done.
Qed.

(** ** The documented curves *)

Fixpoint delay_curve (p : Policy) (n : nat) (d : Z) : list Z :=
  match n with O => [] | S n' => d :: delay_curve p n' (next_delay p d) end.

(** 5s, 10s, 20s, 40s, 80s, 160s, then five minutes. *)
Example DefaultPolicy_curve :
  delay_curve (normalize DefaultPolicy) 9 (BaseDelay DefaultPolicy) =
  map (Z.mul Second) [5; 10; 20; 40; 80; 160; 300; 300; 300].
Proof. reflexivity. Qed.

Example LocalServicePolicy_curve :
  delay_curve (normalize LocalServicePolicy) 2 (BaseDelay LocalServicePolicy) = map (Z.mul Second) [1; 3].
Proof. reflexivity. Qed.

(** ** A concrete run: two failures before the stream opens, then two chunks. *)
Module SampleRetry.

Definition down : goerr := EStatus "vllm" 503 "".
Definition streams (n : nat) : list (@SItem nat) :=
  match n with
  | O => [(None, Some down)]
  | 1%nat => [(None, Some (EWrap "dial: " ERateLimited ""))]
  | _ => [(Some 7%nat, None); (Some 8%nat, None)]
  end.
Definition start : @Wire nat := {| opened := 0; delivered := [] |}.
Definition all (_ : list (@SItem nat)) : bool := true.

Example run :
  Stream (fun _ => None) (fun _ => None) (fun _ => fhalf) None LocalServicePolicy
    (consume all) (connect streams) start =
  ({| opened := 3; delivered := [(Some 7%nat, None); (Some 8%nat, None)] |}, Ok tt).
Proof. reflexivity. Qed.

End SampleRetry.

Lemma Stream_never_replays_witness :
  delivered SampleRetry.start = [] /\
  let '(w, r) := Stream (fun _ => None) (fun _ => None) (fun _ => fhalf) None LocalServicePolicy
                   (consume SampleRetry.all) (connect SampleRetry.streams) SampleRetry.start in
  r = Ok tt /\
  ((exists e, delivered w = [(None, Some e)]) \/
   (exists n, opened w = (opened SampleRetry.start + n + 1)%nat /\
      Takes SampleRetry.all [] (SampleRetry.streams (opened SampleRetry.start + n)) (delivered w))) /\
  Z.of_nat (opened w) <= Z.of_nat (opened SampleRetry.start) + Z.max 1 (MaxAttempts LocalServicePolicy).
Proof.
  split; [reflexivity|].
  exact (Stream_never_replays (fun _ => None) (fun _ => None) (fun _ => fhalf) SampleRetry.all
           SampleRetry.streams LocalServicePolicy SampleRetry.start eq_refl).
Defined.
