(* ===== verification/TokenScale.v ===== *)
(** * Token-scale grounding ([rrc/tokenscale/tokenscale.go])

    A ring of admitted observed/predicted ratios per model key, and its JSON
    artifact on disk.  Reading and writing the disk can fail at any step; the
    failures are inputs. *)

From Stdlib Require Import ZArith Lia String Ascii.
From S2P Require Import Prelude GoFloat GoStrings.
#[local] Open Scope Z_scope.

Definition window : nat := 32.
Definition sizeGateDivisor : Z := 4.
Definition ratioMin : float := fhalf.
Definition ratioMax : float := f64_of_Z 3.

Record modelState := { Ratios : list float; Samples : Z }.

(** The keys are model keys; a ring is owned by the store alone. *)
Record Store := { path : string; models : gmap string modelState }.

(** What the artifact's path holds: bytes that do not parse, or a JSON object
    whose ["models"] may be null and may map a key to null. *)
Inductive artifact :=
  | Torn (parse_error : goerr)
  | Parsed (models : option (gmap string (option modelState))).

(** [os.ReadFile]: absent, unreadable, or content. *)
Inductive read_result :=
  | NotExist
  | ReadError (e : goerr)
  | Content (a : artifact).

Definition fis_inf (x : float) : bool := match x with SpecFloat.S754_infinity _ => true | _ => false end.

Definition valid_ratio (r : float) : bool :=
  negb (fis_nan r || fis_inf r || flt r ratioMin || flt ratioMax r).

Definition validRatios (ratios : list float) : bool :=
  if Nat.ltb window (length ratios) then false else forallb valid_ratio ratios.

Definition degenerate (entry : string * option modelState) : bool :=
  bool_decide (entry.1 = "") ||
  match entry.2 with None => true | Some m => negb (validRatios (Ratios m)) end.

Definition Open (path : string) (read : read_result) : option Store * option goerr :=
  let empty := {| path := path; models := ∅ |} in
  match read with
  | NotExist => (Some empty, None)
  | ReadError e => (None, Some (EWrap "tokenscale.Open: read: " e ""))
  | Content (Torn e) =>
      (Some empty, Some (EWrap ("tokenscale.Open: corrupt artifact " ^^ path ^^
                                " (starting empty, will overwrite): ") e ""))
  | Content (Parsed None) => (Some empty, None)
  | Content (Parsed (Some ms)) =>
      if existsb degenerate (map_to_list ms) then
        (Some empty, Some (ENew ("tokenscale.Open: degenerate entries in " ^^ path ^^
                                 " (starting empty, will overwrite)")))
      else (Some {| path := path; models := omap id ms |}, None)
  end.

(** [Bound]: a store fixed to one key; nil for an empty key. *)
Definition Bound (key : string) : option string :=
  if bool_decide (key = "") then None else Some key.

Definition ring (s : Store) (key : string) : list float :=
  match models s !! key with None => [] | Some m => Ratios m end.

Definition Scale (key : string) (s : Store) : float :=
  match models s !! key with
  | None => f0
  | Some m => fold_left (fun max r => if flt max r then r else max) (Ratios m) f0
  end.

(** ["%.3f"] of a positive float: the exact value rounded half to even. *)
Definition fmt_f3 (x : float) : string :=
  match x with
  | SpecFloat.S754_finite _ m e =>
      let n := Z.pos m * 1000 * 2 ^ Z.max 0 e in
      let d := 2 ^ Z.max 0 (- e) in
      let '(q, r) := (n / d, n mod d) in
      let q := if (d <? 2 * r) || ((d =? 2 * r) && Z.odd q) then q + 1 else q in
      let frac := q mod 1000 in
      itoa (q / 1000) ^^ "." ^^ itoa (frac / 100) ^^ itoa (frac / 10 mod 10) ^^ itoa (frac mod 10)
  | SpecFloat.S754_zero _ => "0.000"
  | SpecFloat.S754_infinity _ => "+Inf"
  | SpecFloat.S754_nan => "NaN"
  end.

(** The outcome of each system call of one save; [WriteFile] and [Rename] act
    on the temporary sibling first, so the artifact changes only when all
    succeed. *)
Record io := { mkdir_err : option goerr; write_err : option goerr; rename_err : option goerr }.

(** [json.MarshalIndent] of the models: non-finite floats are not encodable. *)
Definition marshal (ms : gmap string modelState) : outcome artifact :=
  if existsb (fun kv : string * modelState => existsb (fun r => fis_nan r || fis_inf r) (Ratios kv.2)) (map_to_list ms)
  then Err (ENew "json: unsupported value")
  else Ok (Parsed (Some (Some <$> ms))).

Definition saveLocked (s : Store) (sys : io) (disk : read_result) : read_result * option goerr :=
  match mkdir_err sys with
  | Some e => (disk, Some (EWrap "tokenscale: mkdir: " e ""))
  | None =>
      match marshal (models s) with
      | Err e => (disk, Some (EWrap "tokenscale: marshal: " e ""))
      | Panic _ => (disk, None)
      | Ok b =>
          match write_err sys with
          | Some e => (disk, Some (EWrap "tokenscale: write: " e ""))
          | None =>
              match rename_err sys with
              | Some e => (disk, Some (EWrap "tokenscale: rename: " e ""))
              | None => (Content b, None)
              end
          end
      end
  end.

(** The last [n] entries of a ring. *)
Definition keep_last {A} (n : nat) (l : list A) : list A := drop (length l - n) l.

Definition admit_ratio (ratio : float) (m : modelState) : modelState :=
  let rs := Ratios m ++ [ratio] in
  {| Ratios := if Nat.ltb window (length rs) then drop (length rs - window) rs else rs;
     Samples := wrap64 (Samples m + 1) |}.

(** [Observe], with the disk it saves to. *)
Definition Observe (key : string) (predicted observed budget : Z) (sys : io) (s : Store) (disk : read_result)
    : Store * read_result * option goerr :=
  if (predicted <=? 0) || (observed <=? 0) || (budget <=? 0) then (s, disk, None)
  else if wrap64 (predicted * sizeGateDivisor) <? budget then (s, disk, None)
  else
    let ratio := fdiv (f64_of_Z observed) (f64_of_Z predicted) in
    if flt ratio ratioMin || flt ratioMax ratio then
      (s, disk, Some (EWrap "" ERatioOutOfBand
         (": " ^^ key ^^ " observed/predicted = " ^^ itoa observed ^^ "/" ^^ itoa predicted ^^ " = " ^^
          fmt_f3 ratio ^^ " (band [0.5, 3.0])")))
    else
      let m := default {| Ratios := []; Samples := 0 |} (models s !! key) in
      let s' := {| path := path s; models := <[key := admit_ratio ratio m]> (models s) |} in
      let '(disk', e) := saveLocked s' sys disk in
      (s', disk', e).

(** ** Validity *)

Definition store_ok (s : Store) : Prop :=
  map_Forall (fun key m => key <> "" /\ validRatios (Ratios m) = true) (models s).

Lemma validRatios_spec l : validRatios l = true <-> (length l <= window)%nat /\ Forall (fun r => valid_ratio r = true) l.
Proof.
  unfold validRatios. destruct (Nat.ltb_spec window (length l)).
  - split; [done|]. lia.
  - rewrite forallb_forall, List.Forall_forall. intuition.
Qed.

(** A ratio in the band is a number between the bounds. *)
Lemma valid_ratio_spec r :
  valid_ratio r = true <->
  fis_nan r = false /\ fle ratioMin r = true /\ fle r ratioMax = true.
Proof.
  unfold valid_ratio. rewrite negb_true_iff, !orb_false_iff.
  destruct (fis_nan r) eqn:En; [naive_solver|].
  rewrite !flt_fle, !negb_false_iff by done. split; [tauto|].
  intros (_ & H1 & H2). split; [|done]. split; [|done]. split; [done|]. by destruct r as [|[]| |].
Qed.

Lemma valid_ratio_pos r : valid_ratio r = true -> flt f0 r = true.
Proof. intros (_ & H & _)%valid_ratio_spec. by apply (flt_fle_trans _ ratioMin). Qed.

(** The quotient of two positive counts is a number. *)
Lemma ratio_not_nan o p : 0 < o < 2 ^ 63 -> 0 < p < 2 ^ 63 -> fis_nan (fdiv (f64_of_Z o) (f64_of_Z p)) = false.
Proof.
  intros (mo & eo & ->)%f64_of_Z_finite (mp & ep & ->)%f64_of_Z_finite. apply fdiv_not_nan.
Qed.

Lemma keep_last_length {A} n (l : list A) : (length (keep_last n l) <= n)%nat.
Proof. unfold keep_last. rewrite length_drop. lia. Qed.

Lemma keep_last_id {A} n (l : list A) : (length l <= n)%nat -> keep_last n l = l.
Proof. intros H. unfold keep_last. by replace (length l - n)%nat with 0%nat by lia. Qed.

(** Trimming at every admission is trimming once at the end. *)
Lemma keep_last_app {A} n (l l' : list A) : keep_last n (keep_last n l ++ l') = keep_last n (l ++ l').
Proof.
  unfold keep_last. rewrite !length_app, length_drop.
  destruct (Nat.le_gt_cases (length l) n).
  - replace (length l - n)%nat with 0%nat by lia. by rewrite Nat.sub_0_r.
  - rewrite (drop_app (drop _ _)), drop_drop, length_drop, (drop_app l).
    f_equal; f_equal; lia.
Qed.

Lemma Ratios_admit r m : Ratios (admit_ratio r m) = keep_last window (Ratios m ++ [r]).
Proof.
  unfold admit_ratio. cbn [Ratios]. destruct (Nat.ltb_spec window (length (Ratios m ++ [r]))); [done|].
  by rewrite keep_last_id by lia.
Qed.

Lemma keep_last_Forall {A} (P : A -> Prop) n l : Forall P l -> Forall P (keep_last n l).
Proof. apply Forall_drop. Qed.

(** ** The learner's specification: a windowed maximum *)

(** The ratio an observation is admitted with, if it is. *)
Definition admission (predicted observed budget : Z) : option float :=
  if (0 <? predicted) && (0 <? observed) && (0 <? budget) && (budget <=? wrap64 (predicted * sizeGateDivisor)) then
    let r := fdiv (f64_of_Z observed) (f64_of_Z predicted) in
    if valid_ratio r then Some r else None
  else None.

Lemma Observe_spec key predicted observed budget sys s disk :
  in_int64 predicted -> in_int64 observed ->
  let '(s', disk', e) := Observe key predicted observed budget sys s disk in
  match admission predicted observed budget with
  | None => s' = s /\ disk' = disk
  | Some r =>
      s' = {| path := path s;
              models := <[key := admit_ratio r (default {| Ratios := []; Samples := 0 |} (models s !! key))]> (models s) |} /\
      (disk', e) = saveLocked s' sys disk
  end.
Proof.
  unfold in_int64. intros Hp Ho. unfold Observe, admission.
  destruct (Z.leb_spec predicted 0), (Z.ltb_spec 0 predicted); try lia; [done|].
  destruct (Z.leb_spec observed 0), (Z.ltb_spec 0 observed); try lia; [done|].
  destruct (Z.leb_spec budget 0), (Z.ltb_spec 0 budget); try lia; [done|]. cbn [orb andb].
  destruct (Z.ltb_spec (wrap64 (predicted * sizeGateDivisor)) budget), (Z.leb_spec budget (wrap64 (predicted * sizeGateDivisor)));
    try lia; [done|].
  set (r := fdiv _ _). assert (fis_nan r = false) as Hn by (apply ratio_not_nan; lia).
  destruct (valid_ratio r) eqn:Ev.
  - apply valid_ratio_spec in Ev as (_ & H1' & H2').
    assert (flt r ratioMin = false) as -> by (rewrite flt_fle, H1' by done; done).
    assert (flt ratioMax r = false) as -> by (rewrite flt_fle, H2' by done; done). cbn [orb].
    set (s' := {| path := path s; models := _ |}). destruct (saveLocked s' sys disk) as [disk' e] eqn:Es. by rewrite <- Es.
  - assert (flt r ratioMin || flt ratioMax r = true) as ->; [|done].
    apply not_false_iff_true. intros [H1' H2']%orb_false_iff. rewrite flt_fle in H1', H2' by done.
    apply not_true_iff_false in Ev. apply Ev, valid_ratio_spec.
    rewrite negb_false_iff in H1', H2'. done.
Qed.

Record observation := {
  o_key : string; o_predicted : Z; o_observed : Z; o_budget : Z; o_sys : io
}.

Definition observation_ok (o : observation) : Prop :=
  Bound (o_key o) = Some (o_key o) /\ in_int64 (o_predicted o) /\ in_int64 (o_observed o).

Definition observe (st : Store * read_result) (o : observation) : Store * read_result :=
  (Observe (o_key o) (o_predicted o) (o_observed o) (o_budget o) (o_sys o) st.1 st.2).1.

Definition admitted (key : string) (os : list observation) : list float :=
  omap (fun o => if bool_decide (o_key o = key) then admission (o_predicted o) (o_observed o) (o_budget o) else None) os.

Lemma admission_valid p o b r : admission p o b = Some r -> valid_ratio r = true.
Proof. unfold admission. intros H. go_case H. congruence. Qed.

Lemma observe_step st o :
  observation_ok o -> store_ok st.1 ->
  store_ok (observe st o).1 /\
  forall key, ring (observe st o).1 key = keep_last window (ring st.1 key ++ admitted key [o]).
Proof.
  intros (Hk & Hp & Ho) Hs. unfold observe.
  pose proof (Observe_spec (o_key o) _ _ (o_budget o) (o_sys o) st.1 st.2 Hp Ho) as H.
  destruct (Observe _ _ _ _ _ _ _) as [[s' disk'] e]. unfold admitted. cbn [omap list_omap fst].
  assert (forall key, (length (ring st.1 key) <= window)%nat) as Hl.
  { intros key. unfold ring. destruct (models st.1 !! key) eqn:E; [|simpl; unfold window; lia].
    apply Hs in E as [_ E]. by apply validRatios_spec in E as [E _]. }
  destruct (admission _ _ _) as [r|] eqn:Ea.
  - destruct H as [-> _]. split.
    + apply map_Forall_insert_2; [|done]. split; [unfold Bound in Hk; by destruct (decide (o_key o = "")) eqn:?; case_bool_decide|].
      apply validRatios_spec. rewrite Ratios_admit. split; [apply keep_last_length|].
      apply keep_last_Forall, Forall_app. split; [|by constructor; [eapply admission_valid|]].
      destruct (models st.1 !! o_key o) eqn:E; [|constructor].
      apply Hs in E as [_ E]. by apply validRatios_spec in E as [_ E].
    + intros key. unfold ring. cbn [models]. case_bool_decide as Hd.
      * subst key. rewrite lookup_insert_eq, Ratios_admit. by destruct (models st.1 !! o_key o).
      * rewrite lookup_insert_ne by done. rewrite app_nil_r. symmetry. apply keep_last_id, Hl.
  - destruct H as [-> _]. split; [done|]. intros key.
    replace (if bool_decide _ then None else None) with (@None float) by by destruct (bool_decide _).
    rewrite app_nil_r. symmetry. apply keep_last_id, Hl.
Qed.

Lemma observe_all os st :
  Forall observation_ok os -> store_ok st.1 ->
  store_ok (foldl observe st os).1 /\
  forall key, ring (foldl observe st os).1 key = keep_last window (ring st.1 key ++ admitted key os).
Proof.
  intros Hos. revert st. induction Hos as [|o os Ho Hos IH]; intros st Hs.
  - split; [done|]. intros key. cbn [foldl]. rewrite app_nil_r. symmetry. apply keep_last_id.
    unfold ring. destruct (models st.1 !! key) eqn:E; [|simpl; unfold window; lia].
    apply Hs in E as [_ E]. by apply validRatios_spec in E as [E _].
  - destruct (observe_step st o Ho Hs) as [Hs' Hr]. destruct (IH (observe st o) Hs') as [H1 H2].
    split; [done|]. intros key. cbn [foldl]. rewrite H2, Hr, keep_last_app, <- app_assoc.
    do 2 f_equal. unfold admitted. cbn [omap list_omap]. by destruct (if bool_decide _ then _ else _).
Qed.

(** The maximum loop of [Scale], over a ring of numbers. *)
Lemma max_loop l m :
  fis_nan m = false -> Forall (fun r => fis_nan r = false) l ->
  let M := fold_left (fun max r => if flt max r then r else max) l m in
  M ∈ m :: l /\ Forall (fun r => fle r M = true) (m :: l).
Proof.
  intros Hm Hl. revert m Hm. induction Hl as [|r l Hr Hl IH]; intros m Hm; cbn [fold_left].
  - split; [by left|]. constructor; [by apply fle_refl|constructor].
  - destruct (flt m r) eqn:E.
    + destruct (IH r Hr) as [H1 H2]. split; [by right|]. constructor; [|done].
      inversion H2; subst. eapply fle_trans; [by apply flt_le|done].
    + destruct (IH m Hm) as [H1 H2]. split; [set_solver|]. inversion H2; subst.
      constructor; [done|]. constructor; [|done]. eapply fle_trans; [|done].
      rewrite flt_fle in E by done. by apply negb_false_iff.
Qed.

(** The learner is a windowed maximum.  Starting from a valid store, after
    any sequence of observations - admitted or not, saved or not - every
    model's ring holds exactly the last 32 ratios admitted for it, every stored
    ratio is a number in [0.5, 3], and [Scale] is the greatest of them, or 0
    exactly when nothing has been admitted. *)
Theorem Scale_windowed_max (os : list observation) (s0 : Store) (disk0 : read_result)
    (Hos : Forall observation_ok os) (Hs0 : store_ok s0) :
  let s := (foldl observe (s0, disk0) os).1 in
  store_ok s /\
  forall key,
    let window_of := keep_last window (ring s0 key ++ admitted key os) in
    ring s key = window_of /\
    (Scale key s = f0 <-> window_of = []) /\
    (window_of <> [] -> Scale key s ∈ window_of /\ Forall (fun r => fle r (Scale key s) = true) window_of /\
       fle ratioMin (Scale key s) = true /\ fle (Scale key s) ratioMax = true).
Proof.
  destruct (observe_all os (s0, disk0) Hos Hs0) as [Hs Hr]. split; [done|]. intros key window_of.
  specialize (Hr key). split; [done|]. subst window_of. cbn [fst] in Hr. rewrite <- Hr. clear Hr.
  set (s := (foldl observe (s0, disk0) os).1) in *. unfold ring, Scale.
  destruct (models s !! key) as [m|] eqn:E; [|done].
  apply Hs in E as [_ [_ Hv]%validRatios_spec].
  assert (Forall (fun r => fis_nan r = false) (Ratios m)) as Hn.
  { eapply Forall_impl; [exact Hv|]. by intros r (? & _)%valid_ratio_spec. }
  destruct (max_loop (Ratios m) f0 eq_refl Hn) as [H1 H2]. set (M := fold_left _ _ _) in *.
  apply Forall_cons in H2 as [_ H2].
  assert (Ratios m <> [] -> M ∈ Ratios m) as Hin.
  { intros Hne. apply elem_of_cons in H1 as [-> |]; [|done]. exfalso. destruct (Ratios m) as [|r l]; [done|].
    inversion Hv as [|? ? Hr _]; subst. inversion H2 as [|? ? H3 _]; subst. apply valid_ratio_pos in Hr.
    by rewrite flt_fle, H3 in Hr by (done || by apply (flt_nan f0)). }
  split.
  - split; [|by intros H; subst M; rewrite H]. intros H0. destruct (Ratios m) as [|r l] eqn:Er; [done|].
    specialize (Hin ltac:(done)). rewrite H0 in Hin. rewrite Forall_forall in Hv.
    by apply Hv in Hin.
  - intros Hne. specialize (Hin Hne). split; [done|]. split; [done|].
    rewrite Forall_forall in Hv. by apply Hv, valid_ratio_spec in Hin as (_ & ? & ?).
Qed.

(** ** Persistence *)

Lemma omap_id_some {A} (m : gmap string A) : omap id (Some <$> m) = m.
Proof. apply map_eq. intros k. rewrite lookup_omap, lookup_fmap. by destruct (m !! k). Qed.

Lemma store_ok_not_degenerate s : store_ok s -> existsb degenerate (map_to_list (Some <$> models s)) = false.
Proof.
  intros Hs. apply not_true_iff_false. intros ([k [m|]] & Hin & Hd)%existsb_exists.
  - apply list_elem_of_In, elem_of_map_to_list in Hin. rewrite lookup_fmap in Hin.
    apply fmap_Some in Hin as (m' & Hm & [= <-]). apply Hs in Hm as [Hk Hv].
    unfold degenerate in Hd. simpl in Hd. rewrite bool_decide_eq_false_2, Hv in Hd by done. done.
  - apply list_elem_of_In, elem_of_map_to_list in Hin. rewrite lookup_fmap in Hin.
    by apply fmap_Some in Hin as (m' & _ & ?).
Qed.

Lemma marshal_ok s : store_ok s -> marshal (models s) = Ok (Parsed (Some (Some <$> models s))).
Proof.
  intros Hs. unfold marshal. destruct (existsb _ _) eqn:E; [|done]. exfalso.
  apply existsb_exists in E as ([k m] & Hin & (r & Hr & Hbad)%existsb_exists).
  apply list_elem_of_In, elem_of_map_to_list in Hin. apply Hs in Hin as [_ [_ Hv]%validRatios_spec].
  rewrite Forall_forall in Hv. apply list_elem_of_In, Hv in Hr. unfold valid_ratio in Hr.
  simpl in Hbad. by rewrite Hbad in Hr.
Qed.

Lemma saveLocked_spec s sys disk :
  store_ok s ->
  match saveLocked s sys disk with
  | (disk', None) => disk' = Content (Parsed (Some (Some <$> models s)))
  | (disk', Some _) => disk' = disk
  end.
Proof.
  intros Hs. unfold saveLocked. rewrite marshal_ok by done.
  destruct (mkdir_err sys), (write_err sys), (rename_err sys); done.
Qed.

Lemma not_degenerate_ok p ms :
  existsb degenerate (map_to_list ms) = false -> store_ok {| path := p; models := omap id ms |}.
Proof.
  intros Hd k m Hk. cbn [models] in Hk. rewrite lookup_omap in Hk. destruct (ms !! k) as [o|] eqn:E; [|done].
  simpl in Hk. subst o. apply not_true_iff_false in Hd.
  assert (degenerate (k, Some m) = false) as Hd'.
  { apply not_true_iff_false. intros Ht. apply Hd, existsb_exists. exists (k, Some m). split; [|done].
    by apply list_elem_of_In, elem_of_map_to_list. }
  unfold degenerate in Hd'. simpl in Hd'. apply orb_false_iff in Hd' as [Hk' Hv].
  split; [by case_bool_decide|by apply negb_false_iff].
Qed.

(** What an admitted observation saves, the next process opens.  On a
    valid store, when [Observe] admits a ratio and reports no error, opening
    the artifact gives back the very same store; a reported error leaves the
    artifact untouched; and [Open] gives a valid store for every content of
    the file, torn or degenerate ones included - only an unreadable file
    yields none. *)
Theorem Observe_persists (key : string) (predicted observed budget : Z) (sys : io) (s : Store) (disk : read_result)
    (Hkey : Bound key = Some key) (Hp : in_int64 predicted) (Ho : in_int64 observed) (Hs : store_ok s) :
  let '(s', disk', e) := Observe key predicted observed budget sys s disk in
  store_ok s' /\
  (e <> None -> disk' = disk) /\
  (is_Some (admission predicted observed budget) -> e = None -> Open (path s') disk' = (Some s', None)) /\
  (forall p read, match Open p read with
                  | (Some s1, _) => store_ok s1 /\ path s1 = p
                  | (None, _) => exists err, read = ReadError err
                  end).
Proof.
  pose proof (Observe_spec key predicted observed budget sys s disk Hp Ho) as H.
  pose proof (observe_step (s, disk) {| o_key := key; o_predicted := predicted; o_observed := observed;
    o_budget := budget; o_sys := sys |} (conj Hkey (conj Hp Ho)) Hs) as [Hok _].
  unfold observe in Hok. cbn [o_key o_predicted o_observed o_budget o_sys fst snd] in Hok.
  destruct (Observe _ _ _ _ _ _ _) as [[s' disk'] e]. cbn [fst] in Hok. split; [done|].
  split; [|split].
  - intros He. destruct (admission _ _ _); [|by destruct H]. destruct H as [-> H].
    pose proof (saveLocked_spec _ sys disk Hok) as Hsv. rewrite <- H in Hsv. by destruct e.
  - intros [r Hr] ->. rewrite Hr in H. destruct H as [Hs' H].
    pose proof (saveLocked_spec _ sys disk Hok) as Hsv. rewrite <- H in Hsv. rewrite Hsv.
    unfold Open. rewrite store_ok_not_degenerate, omap_id_some by done. by destruct s'.
  - intros p [|err|[err|[ms|]]]; simpl; try (by split); [by exists err|].
    destruct (existsb degenerate (map_to_list ms)) eqn:E; [by split|]. split; [|done].
    by apply not_degenerate_ok.
Qed.

(** ** A concrete run *)
Module SampleScale.

Definition sound : io := {| mkdir_err := None; write_err := None; rename_err := None |}.
Definition full : io := {| mkdir_err := None; write_err := Some (ENew "no space left on device"); rename_err := None |}.
Definition cold : Store := {| path := "tokenscale.json"; models := ∅ |}.
Definition see (key : string) (observed : Z) (sys : io) : observation :=
  {| o_key := key; o_predicted := 1000; o_observed := observed; o_budget := 1000; o_sys := sys |}.
Definition history : list observation :=
  [see "a/m1" 1500 sound; see "a/m1" 800 full; see "b/m2" 4000 sound].

Example scale_a : Scale "a/m1" (foldl observe (cold, NotExist) history).1 = fdiv (f64_of_Z 3) f2.
Proof. vm_compute. reflexivity. Qed.

Definition saved : Store * read_result * option goerr :=
  Eval vm_compute in Observe "a/m1" 1000 1500 1000 sound cold NotExist.

Lemma saved_eq : Observe "a/m1" 1000 1500 1000 sound cold NotExist = saved.
Proof. vm_compute. reflexivity. Qed.

Example out_of_band :
  (Observe "b/m2" 1000 4000 1000 sound cold NotExist).2 =
  Some (EWrap "" ERatioOutOfBand ": b/m2 observed/predicted = 4000/1000 = 4.000 (band [0.5, 3.0])").
Proof. vm_compute. reflexivity. Qed.

End SampleScale.

Lemma Scale_windowed_max_witness :
  Forall observation_ok SampleScale.history /\ store_ok SampleScale.cold /\
  store_ok (foldl observe (SampleScale.cold, NotExist) SampleScale.history).1.
Proof.
  assert (Forall observation_ok SampleScale.history) as H1
    by (repeat constructor; vm_compute; reflexivity || discriminate).
  assert (store_ok SampleScale.cold) as H2 by apply map_Forall_empty.
  split; [exact H1|]. split; [exact H2|].
  exact (proj1 (Scale_windowed_max SampleScale.history SampleScale.cold NotExist H1 H2)).
Defined.

Lemma Observe_persists_witness :
  let '(s', disk', e) := Observe "a/m1" 1000 1500 1000 SampleScale.sound SampleScale.cold NotExist in
  e = None /\ Open (path s') disk' = (Some s', None).
Proof.
  pose proof (Observe_persists "a/m1" 1000 1500 1000 SampleScale.sound SampleScale.cold NotExist eq_refl
    ltac:(unfold in_int64; lia) ltac:(unfold in_int64; lia) (map_Forall_empty _)) as H.
  rewrite SampleScale.saved_eq in H |- *. destruct H as (_ & _ & H & _).
  split; [reflexivity|]. apply H; [|reflexivity].
  exists (fdiv (f64_of_Z 1500) (f64_of_Z 1000)). vm_compute. reflexivity.
Defined.
