(* ===== verification/PubSub.v ===== *)
(** * Publish/subscribe ([service/pubsub/pubsub.go])

    [Topic] and [Broadcast] over the channel heap, every operation atomic under
    the type's mutex, and an abstract specification: a table of mailboxes. *)

From Stdlib Require Import ZArith Lia String.
From S2P Require Import Prelude GoChan.

(** Shared by both types: the bodies of the two [Unsubscribe] loops and of the
    two [Publish] loops. *)

Fixpoint remove_first (ch : nat) (l : list nat) : option (list nat) :=
  match l with
  | [] => None
  | s :: l' => if Nat.eqb s ch then Some l' else cons s <$> remove_first ch l'
  end.

Definition publish_step {T} (event : T) (acc : nat * gmap nat (chan T)) (ch : nat) : outcome (nat * gmap nat (chan T)) :=
  let '(sent, h) := acc in
  match try_send ch event h with
  | Ok (true, h') => Ok (S sent, h')
  | Ok (false, h') => Ok (sent, h')
  | Err e => Err e
  | Panic t => Panic t
  end.

(** ** Topic *)

Record Topic (T : Type) := {
  subs : gmap string (list nat);
  chans : gmap nat (chan T);
  next_chan : nat
}.
Arguments subs {T} t.
Arguments chans {T} t.
Arguments next_chan {T} t.

Section Topic.

Context {T : Type}.
Implicit Types (t : Topic T) (key : string) (ch : nat) (event : T).

Definition NewTopic : Topic T := {| subs := ∅; chans := ∅; next_chan := 0 |}.

Definition subscribers t key : list nat := default [] (subs t !! key).

Definition Subscribe t key : Topic T * nat :=
  let ch := next_chan t in
  ({| subs := <[key := subscribers t key ++ [ch]]> (subs t);
      chans := make_chan 16 ch (chans t);
      next_chan := S ch |}, ch).

Definition Unsubscribe t key ch : outcome (Topic T) :=
  match remove_first ch (subscribers t key) with
  | None => Ok t
  | Some list' =>
      match close_chan ch (chans t) with
      | Ok h => Ok {| subs := <[key := list']> (subs t); chans := h; next_chan := next_chan t |}
      | Err e => Err e
      | Panic s => Panic s
      end
  end.

Definition Publish t key event : outcome (Topic T * nat) :=
  match foldM (publish_step event) (0, chans t) (subscribers t key) with
  | Ok (sent, h) => Ok ({| subs := subs t; chans := h; next_chan := next_chan t |}, sent)
  | Err e => Err e
  | Panic s => Panic s
  end.

(** A subscriber reads its channel. *)
Definition Receive t ch : Topic T * received T :=
  let '(r, h) := recv ch (chans t) in
  ({| subs := subs t; chans := h; next_chan := next_chan t |}, r).

(** One operation and what its caller sees. *)
Inductive op :=
  | OpSubscribe key
  | OpUnsubscribe key ch
  | OpPublish key event
  | OpReceive ch.

Inductive answer :=
  | AChan ch
  | ADone
  | ACount (n : nat)
  | AValue (r : received T).

Definition step t (o : op) : outcome (Topic T * answer) :=
  match o with
  | OpSubscribe key => let '(t', ch) := Subscribe t key in Ok (t', AChan ch)
  | OpUnsubscribe key ch => (fun t' => (t', ADone)) <$> Unsubscribe t key ch
  | OpPublish key event => (fun r => (r.1, ACount r.2)) <$> Publish t key event
  | OpReceive ch => let '(t', r) := Receive t ch in Ok (t', AValue r)
  end.

(** *** The specification: a table of mailboxes *)

Record mailbox := { mb_key : string; mb_open : bool; mb_queue : list T }.

Definition listens key (m : mailbox) : bool := mb_open m && String.eqb (mb_key m) key.
Definition accepts key (m : mailbox) : bool := listens key m && Nat.ltb (length (mb_queue m)) 16.

Definition deliver key event (m : mailbox) : mailbox :=
  if accepts key m then {| mb_key := mb_key m; mb_open := true; mb_queue := mb_queue m ++ [event] |} else m.

(** The table and the number of mailboxes ever made. *)
Definition table : Type := gmap nat mailbox * nat.

Definition spec_step (a : table) (o : op) : table * answer :=
  match o with
  | OpSubscribe key =>
      ((<[a.2 := {| mb_key := key; mb_open := true; mb_queue := [] |}]> a.1, S a.2), AChan a.2)
  | OpUnsubscribe key ch =>
      match a.1 !! ch with
      | Some m =>
          if listens key m
          then ((<[ch := {| mb_key := mb_key m; mb_open := false; mb_queue := mb_queue m |}]> a.1, a.2), ADone)
          else (a, ADone)
      | None => (a, ADone)
      end
  | OpPublish key event =>
      ((deliver key event <$> a.1, a.2), ACount (length (List.filter (fun kv => accepts key kv.2) (map_to_list a.1))))
  | OpReceive ch =>
      match a.1 !! ch with
      | None => (a, AValue Blocked)
      | Some m =>
          match mb_queue m with
          | v :: rest => ((<[ch := {| mb_key := mb_key m; mb_open := mb_open m; mb_queue := rest |}]> a.1, a.2), AValue (Got v))
          | [] => (a, AValue (if mb_open m then Blocked else Ended))
          end
      end
  end.

(** The topic implements the table. *)
Record implements t (a : table) : Prop := {
  im_next : next_chan t = a.2;
  im_chans : chans t = (fun m => {| ch_buf := mb_queue m; ch_cap := 16; ch_closed := negb (mb_open m) |}) <$> a.1;
  im_fresh : forall ch, a.2 <= ch -> a.1 !! ch = None;
  im_subs : forall key ch, ch ∈ subscribers t key <-> exists m, a.1 !! ch = Some m /\ listens key m = true;
  im_nodup : forall key, NoDup (subscribers t key)
}.

Lemma listens_spec key m : listens key m = true <-> mb_open m = true /\ mb_key m = key.
Proof. unfold listens. rewrite andb_true_iff. by destruct (String.eqb_spec (mb_key m) key); intuition. Qed.

Lemma remove_first_none ch l : remove_first ch l = None <-> ch ∉ l.
Proof.
  induction l as [|s l IH]; simpl; [set_solver|]. destruct (Nat.eqb_spec s ch).
  - subst. set_solver.
  - rewrite fmap_None, IH. set_solver.
Qed.

Lemma remove_first_some ch l l' :
  NoDup l -> remove_first ch l = Some l' -> NoDup l' /\ forall x, x ∈ l' <-> x ∈ l /\ x <> ch.
Proof.
  revert l'. induction l as [|s l IH]; intros l' Hl; simpl; [done|]. inversion Hl; subst.
  destruct (Nat.eqb_spec s ch) as [->|Hne].
  - intros [= <-]. split; [done|]. set_solver.
  - intros (l1 & E & ->)%fmap_Some. destruct (IH l1) as [H3 H4]; [done..|].
    split; [constructor; set_solver|]. set_solver.
Qed.

Lemma subscribers_insert t key key' l h n :
  subscribers {| subs := <[key := l]> (subs t); chans := h; next_chan := n |} key' =
  if decide (key' = key) then l else subscribers t key'.
Proof.
  unfold subscribers. simpl. destruct (decide (key' = key)) as [->|]; [by rewrite lookup_insert_eq|].
  by rewrite lookup_insert_ne.
Qed.

(** The publish loop over distinct open channels: each one with room gets the
    event, no other object changes, and the count is of those. *)
Lemma publish_loop event l n (h : gmap nat (chan T)) :
  NoDup l -> (forall ch, ch ∈ l -> exists c, h !! ch = Some c /\ ch_closed c = false) ->
  exists h', foldM (publish_step event) (n, h) l =
    Ok (n + length (List.filter (fun ch => match h !! ch with Some c => has_room c | None => false end) l), h') /\
    forall ch, h' !! ch = (fun c => if bool_decide (ch ∈ l) && has_room c then push c event else c) <$> h !! ch.
Proof.
  intros Hl. revert n h. induction Hl as [|x l Hx Hl IH]; intros n h Ho.
  - exists h. split; [simpl; f_equal; f_equal; lia|]. intros ch. by destruct (h !! ch).
  - destruct (Ho x ltac:(by left)) as (c & Hc & Hop). cbn [foldM publish_step].
    assert (forall y, y ∈ l -> forall c', <[x := c']> h !! y = h !! y) as Hne.
    { intros y Hy c'. apply lookup_insert_ne. by intros ->. }
    unfold try_send. rewrite Hc, Hop. cbn [List.filter]. rewrite Hc. destruct (has_room c) eqn:Er.
    + destruct (IH (S n) (<[x := push c event]> h)) as (h' & Hf & Hh).
      { intros y Hy. rewrite Hne by done. apply Ho. by right. }
      exists h'. split.
      * etransitivity; [exact Hf|]. do 2 f_equal. cbn [length].
        rewrite (List.filter_ext_in _ (fun ch => match h !! ch with Some c => has_room c | None => false end)).
        { lia. }
        intros y Hy%list_elem_of_In. by rewrite Hne.
      * intros ch. rewrite Hh. destruct (decide (ch = x)) as [->|Hd].
        { rewrite lookup_insert_eq, Hc. simpl. rewrite (bool_decide_eq_false_2 (x ∈ l)) by done.
          by rewrite (bool_decide_eq_true_2 (x ∈ x :: l)), Er by by left. }
        rewrite lookup_insert_ne by done. destruct (h !! ch); [|done]. simpl.
        by rewrite (bool_decide_ext (ch ∈ l) (ch ∈ x :: l)) by set_solver.
    + destruct (IH n h) as (h' & Hf & Hh); [intros y Hy; apply Ho; by right|].
      exists h'. split; [done|]. intros ch. rewrite Hh. destruct (h !! ch) as [c'|] eqn:Ec; [|done]. simpl. f_equal.
      destruct (decide (ch = x)) as [->|Hd].
      * rewrite Hc in Ec. injection Ec as <-. by rewrite Er, !andb_false_r.
      * by rewrite (bool_decide_ext (ch ∈ l) (ch ∈ x :: l)) by set_solver.
Qed.

(** Changing one subscriber list to [l] keeps the correspondence when [l] lists
    the mailboxes now listening and the others listen as before. *)
Lemma implements_subs t key l h n a' :
  (forall key, NoDup (subscribers t key)) -> NoDup l ->
  n = a'.2 ->
  h = (fun m => {| ch_buf := mb_queue m; ch_cap := 16; ch_closed := negb (mb_open m) |}) <$> a'.1 ->
  (forall ch, a'.2 <= ch -> a'.1 !! ch = None) ->
  (forall ch, ch ∈ l <-> exists m, a'.1 !! ch = Some m /\ listens key m = true) ->
  (forall key' ch, key' <> key -> (ch ∈ subscribers t key' <-> exists m, a'.1 !! ch = Some m /\ listens key' m = true)) ->
  implements {| subs := <[key := l]> (subs t); chans := h; next_chan := n |} a'.
Proof.
  intros Hnd Hl Hn Hh Hf Hkey Hother. split; [done|done|done| |].
  - intros key' ch. rewrite subscribers_insert. destruct (decide (key' = key)) as [->|]; auto.
  - intros key'. rewrite subscribers_insert. by destruct (decide (key' = key)).
Qed.

Lemma subscribe_refines t a key :
  implements t a -> exists t' r, step t (OpSubscribe key) = Ok (t', r) /\
    implements t' (spec_step a (OpSubscribe key)).1 /\ r = (spec_step a (OpSubscribe key)).2.
Proof.
  intros [Hn Hc Hf Hs Hd]. simpl. eexists _, _. split; [done|]. rewrite Hn. split; [|done].
  assert (forall k, a.2 ∉ subscribers t k) as Hnew.
  { intros k (m & Hm & _)%Hs. rewrite Hf in Hm by done. done. }
  apply (implements_subs t); cbn [fst snd]; [done| |done| | | |].
  - apply NoDup_app. split; [done|]. split; [|apply NoDup_singleton].
    intros x Hx ->%list_elem_of_singleton. by apply Hnew in Hx.
  - unfold make_chan. by rewrite fmap_insert, Hc.
  - intros ch Hch. rewrite lookup_insert_ne by lia. apply Hf. lia.
  - intros ch. rewrite elem_of_app, list_elem_of_singleton, Hs. destruct (decide (ch = a.2)) as [->|Hne].
    + rewrite lookup_insert_eq. split; [|by right]. intros _. eexists. split; [done|]. by apply listens_spec.
    + rewrite lookup_insert_ne by done. naive_solver.
  - intros k ch Hk. rewrite Hs. destruct (decide (ch = a.2)) as [->|Hne].
    + rewrite lookup_insert_eq, Hf by done. split; [by intros (? & ? & _)|].
      intros (m & [= <-] & [_ E]%listens_spec). by symmetry in E.
    + by rewrite lookup_insert_ne by done.
Qed.

Lemma unsubscribe_refines t a key ch :
  implements t a -> exists t' r, step t (OpUnsubscribe key ch) = Ok (t', r) /\
    implements t' (spec_step a (OpUnsubscribe key ch)).1 /\ r = (spec_step a (OpUnsubscribe key ch)).2.
Proof.
  intros Hi. pose proof Hi as [Hn Hc Hf Hs Hd]. cbn [step spec_step]. unfold Unsubscribe.
  destruct (remove_first ch (subscribers t key)) as [l|] eqn:E.
  - destruct (remove_first_some _ _ _ (Hd key) E) as [Hl Hin].
    assert (ch ∈ subscribers t key) as (m & Hm & Hlis)%Hs.
    { destruct (decide (ch ∈ subscribers t key)) as [|H]; [done|]. apply remove_first_none in H. congruence. }
    rewrite Hm, Hlis. apply listens_spec in Hlis as [Ho Hk]. unfold close_chan. rewrite Hc, lookup_fmap, Hm.
    simpl. rewrite Ho. simpl. eexists _, _. split; [done|]. split; [|done].
    apply (implements_subs t); cbn [fst snd]; [done|done|done| | | |].
    + by rewrite fmap_insert.
    + intros x Hx. rewrite lookup_insert_ne; [by apply Hf|]. intros <-. by rewrite Hf in Hm.
    + intros x. rewrite Hin, Hs. destruct (decide (x = ch)) as [->|Hne].
      * rewrite lookup_insert_eq. split; [tauto|]. by intros (? & [= <-] & [? _]%listens_spec).
      * rewrite lookup_insert_ne by done. naive_solver.
    + intros k x Hne. rewrite Hs. destruct (decide (x = ch)) as [->|Hnx].
      * rewrite lookup_insert_eq, Hm. split; intros (? & [= <-] & [? ?]%listens_spec); simpl in *; congruence.
      * by rewrite lookup_insert_ne.
  - assert (ch ∉ subscribers t key) as Hnot by by apply remove_first_none.
    exists t, ADone. split; [done|]. destruct (a.1 !! ch) as [m|] eqn:Em; [|done].
    destruct (listens key m) eqn:El; [|done]. exfalso. apply Hnot, Hs. eauto.
Qed.

Lemma has_room_open (m : mailbox) key :
  listens key m = true ->
  has_room {| ch_buf := mb_queue m; ch_cap := 16; ch_closed := negb (mb_open m) |} = accepts key m.
Proof. intros H. unfold accepts. by rewrite H. Qed.

Lemma publish_refines t a key event :
  implements t a -> exists t' r, step t (OpPublish key event) = Ok (t', r) /\
    implements t' (spec_step a (OpPublish key event)).1 /\ r = (spec_step a (OpPublish key event)).2.
Proof.
  intros [Hn Hc Hf Hs Hd]. cbn [step spec_step]. unfold Publish.
  destruct (publish_loop event (subscribers t key) 0 (chans t)) as (h' & Hloop & Hh); [done| |].
  { intros ch (m & Hm & [Ho _]%listens_spec)%Hs. rewrite Hc, lookup_fmap, Hm. simpl. eexists. split; [done|].
    simpl. by rewrite Ho. }
  rewrite Hloop. simpl. eexists _, _. split; [done|]. split.
  - assert (forall k m, listens k (deliver key event m) = listens k m) as Hlis.
    { intros k m. unfold deliver. destruct (accepts key m) eqn:E; [|done].
      unfold accepts in E. apply andb_true_iff in E as [[Ho _]%listens_spec _].
      unfold listens. simpl. by rewrite Ho. }
    split; [done| | | |done].
    + cbn [chans fst]. apply map_eq. intros ch. rewrite Hh, Hc, !lookup_fmap.
      destruct (a.1 !! ch) as [m|] eqn:Em; [|done]. simpl. f_equal. unfold deliver.
      case_bool_decide as Hin; cbn [andb].
      * apply Hs in Hin as (m' & Hm' & Hl). rewrite Em in Hm'. injection Hm' as <-.
        rewrite (has_room_open m key) by done. apply listens_spec in Hl as [Ho _].
        destruct (accepts key m); [|done]. unfold push. simpl. by rewrite Ho.
      * destruct (accepts key m) eqn:Ea; [|done]. exfalso. apply Hin, Hs. exists m. split; [done|].
        by apply andb_true_iff in Ea as [? _].
    + intros ch Hch. cbn [fst snd] in *. by rewrite lookup_fmap, Hf.
    + intros k ch. unfold subscribers. cbn [subs fst]. rewrite lookup_fmap. change (default [] (subs t !! k)) with (subscribers t k).
      rewrite Hs. split.
      * intros (m & -> & Hl). eexists. split; [done|]. by rewrite Hlis.
      * intros (m' & (m & -> & ->)%fmap_Some & Hl). rewrite Hlis in Hl. eauto.
  - f_equal. rewrite <- (length_fmap fst). apply Permutation_length, NoDup_Permutation.
    + apply NoDup_ListNoDup, List.NoDup_filter. by apply NoDup_ListNoDup.
    + apply (NoDup_fmap_fst); [|apply NoDup_ListNoDup, List.NoDup_filter; apply NoDup_ListNoDup, NoDup_map_to_list].
      intros ch m1 m2 H1 H2. apply list_elem_of_In, filter_In in H1 as [H1 _], H2 as [H2 _].
      apply list_elem_of_In, elem_of_map_to_list in H1, H2. congruence.
    + intros ch. rewrite list_elem_of_In, filter_In, <- list_elem_of_In, list_elem_of_fmap, Hc, lookup_fmap, Hs. split.
      * intros [(m & Hm & Hl) Hr]. rewrite Hm in Hr. exists (ch, m). split; [done|].
        apply list_elem_of_In, filter_In. split; [by apply list_elem_of_In, elem_of_map_to_list|].
        simpl in *. by rewrite <- (has_room_open m key).
      * intros ([ch' m] & -> & [Hm Ha]%list_elem_of_In%filter_In). apply list_elem_of_In, elem_of_map_to_list in Hm.
        cbn [fst snd] in *. rewrite Hm. assert (listens key m = true) as Hl by by apply andb_true_iff in Ha as [? _].
        split; [eauto|]. simpl. by rewrite (has_room_open m key).
Qed.

Lemma receive_refines t a ch :
  implements t a -> exists t' r, step t (OpReceive ch) = Ok (t', r) /\
    implements t' (spec_step a (OpReceive ch)).1 /\ r = (spec_step a (OpReceive ch)).2.
Proof.
  intros Hi. pose proof Hi as [Hn Hc Hf Hs Hd]. cbn [step spec_step]. unfold Receive, recv.
  rewrite Hc, lookup_fmap. destruct (a.1 !! ch) as [m|] eqn:Em; simpl.
  - destruct (mb_queue m) as [|v rest] eqn:Eq.
    + eexists _, _. split; [done|]. rewrite <- Hc. destruct t; cbn [subs chans next_chan].
      split; [done|]. by destruct (mb_open m).
    + eexists _, _. split; [done|]. split; [|done]. cbn [fst snd].
      split; [done|by cbn [chans fst]; rewrite fmap_insert| | |done].
      * intros x Hx. cbn [fst snd] in *. rewrite lookup_insert_ne; [by apply Hf|]. intros <-. by rewrite Hf in Em.
      * intros k x. change (subscribers {| subs := subs t; chans := _; next_chan := _ |} k) with (subscribers t k).
        rewrite Hs. cbn [fst]. destruct (decide (x = ch)) as [->|Hne]; [|by rewrite lookup_insert_ne].
        rewrite lookup_insert_eq, Em. naive_solver.
  - eexists _, _. split; [done|]. split; [|done]. rewrite <- Hc. by destruct t.
Qed.

Lemma step_refines t a o :
  implements t a -> exists t' r, step t o = Ok (t', r) /\
    implements t' (spec_step a o).1 /\ r = (spec_step a o).2.
Proof.
  intros H.
  destruct o; [by apply subscribe_refines|by apply unsubscribe_refines|by apply publish_refines|by apply receive_refines].
Qed.

(** A sequence of operations, with the answers in order. *)
Definition run_step (acc : Topic T * list answer) (o : op) : outcome (Topic T * list answer) :=
  (fun r => (r.1, acc.2 ++ [r.2])) <$> step acc.1 o.

Definition run (ops : list op) : outcome (Topic T * list answer) := foldM run_step (NewTopic, []) ops.

Definition spec_run_step (acc : table * list answer) (o : op) : table * list answer :=
  let '(a, r) := spec_step acc.1 o in (a, acc.2 ++ [r]).

Definition spec_run (ops : list op) : table * list answer := foldl spec_run_step ((∅, 0), []) ops.

Definition bounded (a : table) : Prop := map_Forall (fun _ m => length (mb_queue m) <= 16) a.1.

Lemma spec_step_bounded a o : bounded a -> bounded (spec_step a o).1.
Proof.
  unfold bounded. intros Hb. destruct o as [key|key ch|key event|ch]; simpl.
  - apply map_Forall_insert_2; [simpl; lia|done].
  - destruct (a.1 !! ch) as [m|] eqn:E; [|done]. destruct (listens key m); [|done].
    apply map_Forall_insert_2; [by apply Hb in E|done].
  - intros ch m (m' & <- & Hm)%lookup_fmap_Some. apply Hb in Hm. unfold deliver.
    destruct (accepts key m') eqn:Ea; [|done]. apply andb_true_iff in Ea as [_ Hl%Nat.ltb_lt].
    simpl. rewrite length_app. simpl. lia.
  - destruct (a.1 !! ch) as [m|] eqn:E; [|done]. apply Hb in E.
    destruct (mb_queue m) as [|v rest] eqn:Eq; [done|]. apply map_Forall_insert_2; [|done].
    simpl in *. lia.
Qed.

Lemma run_refines ops t rs a :
  implements t a -> bounded a ->
  exists t', foldM run_step (t, rs) ops = Ok (t', (foldl spec_run_step (a, rs) ops).2) /\
    implements t' (foldl spec_run_step (a, rs) ops).1 /\ bounded (foldl spec_run_step (a, rs) ops).1.
Proof.
  revert t rs a. induction ops as [|o ops IH]; intros t rs a Hi Hb; [by exists t|].
  destruct (step_refines t a o Hi) as (t1 & r1 & Hstep & Hi1 & Hr1).
  pose proof (spec_step_bounded a o Hb) as Hb1. cbn [foldl].
  assert (spec_run_step (a, rs) o = ((spec_step a o).1, rs ++ [r1])) as ->
    by (unfold spec_run_step; simpl; rewrite Hr1; by destruct (spec_step a o)).
  destruct (IH t1 (rs ++ [r1]) (spec_step a o).1 Hi1 Hb1) as (t' & Hrun & Hi' & Hb').
  exists t'. split; [|done]. cbn [foldM].
  assert (run_step (t, rs) o = Ok (t1, rs ++ [r1])) as -> by (unfold run_step; cbn [fst snd]; by rewrite Hstep).
  exact Hrun.
Qed.

(** A topic is a table of mailboxes.  For every sequence of operations
    clients can make on a fresh topic - subscribing, unsubscribing any channel
    from any key any number of times, publishing, receiving from any channel -
    no operation panics (no send on a closed channel, no double close), every
    answer is the one the mailbox table gives ([Publish] counts exactly the open
    mailboxes of the key that had room), and the two stay in correspondence:
    each subscriber holds the events of its key in order, at most 16 of them. *)
Theorem Topic_refines (ops : list op) :
  exists t, run ops = Ok (t, (spec_run ops).2) /\ implements t (spec_run ops).1 /\ bounded (spec_run ops).1.
Proof.
  apply run_refines; [|by apply map_Forall_empty]. split; [done| |done| |intros key; constructor].
  - simpl. by rewrite fmap_empty.
  - intros key ch. split; [set_solver|]. by intros (m & ? & _).
Qed.

End Topic.

(** ** Broadcast *)

Record Broadcast (T : Type) := {
  b_subs : list nat;
  b_chans : gmap nat (chan T);
  b_next : nat
}.
Arguments b_subs {T} b.
Arguments b_chans {T} b.
Arguments b_next {T} b.

Section Broadcast.

Context {T : Type}.
Implicit Types (b : Broadcast T) (ch : nat) (event : T).

Definition NewBroadcast : Broadcast T := {| b_subs := []; b_chans := ∅; b_next := 0 |}.

Definition b_Subscribe b : Broadcast T * nat :=
  let ch := b_next b in
  ({| b_subs := b_subs b ++ [ch]; b_chans := make_chan 16 ch (b_chans b); b_next := S ch |}, ch).

Definition b_Unsubscribe b ch : outcome (Broadcast T) :=
  match remove_first ch (b_subs b) with
  | None => Ok b
  | Some list' =>
      match close_chan ch (b_chans b) with
      | Ok h => Ok {| b_subs := list'; b_chans := h; b_next := b_next b |}
      | Err e => Err e
      | Panic s => Panic s
      end
  end.

Definition b_Publish b event : outcome (Broadcast T * nat) :=
  match foldM (publish_step event) (0, b_chans b) (b_subs b) with
  | Ok (sent, h) => Ok ({| b_subs := b_subs b; b_chans := h; b_next := b_next b |}, sent)
  | Err e => Err e
  | Panic s => Panic s
  end.

(** A broadcast is a topic all of whose clients use one key. *)
Definition as_topic key b : Topic T :=
  {| subs := {[key := b_subs b]}; chans := b_chans b; next_chan := b_next b |}.

Lemma Broadcast_as_topic key b ch event :
  Subscribe (as_topic key b) key = (as_topic key (b_Subscribe b).1, (b_Subscribe b).2) /\
  Unsubscribe (as_topic key b) key ch = as_topic key <$> b_Unsubscribe b ch /\
  Publish (as_topic key b) key event = (fun r => (as_topic key r.1, r.2)) <$> b_Publish b event.
Proof.
  assert (subscribers (as_topic key b) key = b_subs b) as Hs
    by (unfold subscribers; simpl; by rewrite lookup_singleton_eq).
  split; [|split].
  - unfold Subscribe. rewrite Hs. unfold as_topic. simpl. by rewrite insert_singleton_eq.
  - unfold Unsubscribe, b_Unsubscribe. rewrite Hs. destruct (remove_first ch (b_subs b)); [|done].
    cbn [chans as_topic]. destruct (close_chan ch (b_chans b)); try done. unfold as_topic. simpl.
    by rewrite insert_singleton_eq.
  - unfold Publish, b_Publish. rewrite Hs. cbn [chans as_topic].
    by destruct (foldM _ _ _) as [[]| |].
Qed.

End Broadcast.

(** ** A concrete run: a full mailbox drops, a closed one ends. *)
Module SamplePubSub.

Definition ops : list (@op nat) :=
  [OpSubscribe "t1"; OpSubscribe "t1"; OpSubscribe "t2"; OpPublish "t1" 5; OpReceive 0; OpUnsubscribe "t2" 0;
   OpUnsubscribe "t1" 1; OpUnsubscribe "t1" 1; OpPublish "t1" 6; OpReceive 1; OpReceive 1].

Example answers :
  (spec_run ops).2 =
  [AChan 0; AChan 1; AChan 2; ACount 2; AValue (Got 5); ADone; ADone; ADone; ACount 1; AValue (Got 5); AValue Ended].
Proof. reflexivity. Qed.

End SamplePubSub.
