(* ===== verification/Approvals.v ===== *)
(** * Approval and answer channels ([service/approvals/registry.go])

    The registry's three maps and the two operations on each kind of channel.
    A verdict is looked up under the mutex and sent after it is released, so
    sending is two steps; the step relation interleaves them with everything
    else the runner and other resolvers do. *)

From Stdlib Require Import ZArith Lia String.
From S2P Require Import Prelude GoChan.

(** One kind of channel: those pending by call id, and the channel objects. *)
Record desk (T : Type) := {
  pending : gmap string nat;
  objs : gmap nat (chan T);
  fresh_chan : nat
}.
Arguments pending {T} d.
Arguments objs {T} d.
Arguments fresh_chan {T} d.

Section Desk.

Context {T : Type}.
Implicit Types (d : desk T) (id : string) (ch : nat) (v : T).

Definition new_desk : desk T := {| pending := ∅; objs := ∅; fresh_chan := 0 |}.

Definition register d id : desk T * nat :=
  let ch := fresh_chan d in
  ({| pending := <[id := ch]> (pending d); objs := make_chan 1 ch (objs d); fresh_chan := S ch |}, ch).

Definition unregister d id : desk T :=
  {| pending := delete id (pending d); objs := objs d; fresh_chan := fresh_chan d |}.

Definition with_objs d h : desk T :=
  {| pending := pending d; objs := h; fresh_chan := fresh_chan d |}.

(** A whole send call, run alone: [Ok None] is a caller that blocks. *)
Definition send_verdict d id v : outcome (option (desk T * bool)) :=
  match pending d !! id with
  | None => Ok (Some (d, false))
  | Some ch =>
      match send ch v (objs d) with
      | Ok (Some h) => Ok (Some (with_objs d h, true))
      | Ok None => Ok None
      | Err e => Err e
      | Panic s => Panic s
      end
  end.

End Desk.

(** ** The registry *)

Record Registry := {
  approvals : desk bool;
  answers : desk string;
  threadIDs : gmap string string
}.

Definition New : Registry := {| approvals := new_desk; answers := new_desk; threadIDs := ∅ |}.

Definition RegisterApproval (r : Registry) (callID threadID : string) : Registry * nat :=
  let '(d, ch) := register (approvals r) callID in
  ({| approvals := d; answers := answers r; threadIDs := <[callID := threadID]> (threadIDs r) |}, ch).

(** The thunk [RegisterApproval] returns. *)
Definition UnregisterApproval (r : Registry) (callID : string) : Registry :=
  {| approvals := unregister (approvals r) callID; answers := answers r; threadIDs := delete callID (threadIDs r) |}.

Definition RegisterAnswer (r : Registry) (callID : string) : Registry * nat :=
  let '(d, ch) := register (answers r) callID in
  ({| approvals := approvals r; answers := d; threadIDs := threadIDs r |}, ch).

Definition UnregisterAnswer (r : Registry) (callID : string) : Registry :=
  {| approvals := approvals r; answers := unregister (answers r) callID; threadIDs := threadIDs r |}.

Definition SendApproval (r : Registry) (callID : string) (approved : bool) : outcome (option (Registry * bool)) :=
  match send_verdict (approvals r) callID approved with
  | Ok (Some (d, found)) => Ok (Some ({| approvals := d; answers := answers r; threadIDs := threadIDs r |}, found))
  | Ok None => Ok None
  | Err e => Err e
  | Panic s => Panic s
  end.

Definition SendAnswer (r : Registry) (callID answer : string) : outcome (option (Registry * bool)) :=
  match send_verdict (answers r) callID answer with
  | Ok (Some (d, found)) => Ok (Some ({| approvals := approvals r; answers := d; threadIDs := threadIDs r |}, found))
  | Ok None => Ok None
  | Err e => Err e
  | Panic s => Panic s
  end.

Definition ThreadIDForCall (r : Registry) (callID : string) : string := default "" (threadIDs r !! callID).

(** ** Interleavings *)

Section Machine.

Context {T : Type}.

(** The desk and the senders that have looked their channel up and not yet
    sent. *)
Definition config : Type := desk T * list (nat * T).

Inductive label :=
  | LRegister (id : string) (ch : nat)
  | LUnregister (id : string)
  | LOffer (id : string) (ch : nat) (v : T)
  | LMiss (id : string)
  | LSent (ch : nat) (v : T)
  | LRecv (ch : nat) (r : received T).

Inductive step : config -> label -> config -> Prop :=
  | step_register d ss id :
      step (d, ss) (LRegister id (register d id).2) ((register d id).1, ss)
  | step_unregister d ss id :
      step (d, ss) (LUnregister id) (unregister d id, ss)
  | step_offer d ss id ch v : pending d !! id = Some ch ->
      step (d, ss) (LOffer id ch v) (d, ss ++ [(ch, v)])
  | step_miss d ss id : pending d !! id = None ->
      step (d, ss) (LMiss id) (d, ss)
  | step_send d ss1 ss2 ch v h : send ch v (objs d) = Ok (Some h) ->
      step (d, ss1 ++ (ch, v) :: ss2) (LSent ch v) (with_objs d h, ss1 ++ ss2)
  | step_recv d ss ch :
      step (d, ss) (LRecv ch (recv ch (objs d)).1) (with_objs d (recv ch (objs d)).2, ss).

(** Runs from a fresh desk, latest label first. *)
Inductive runs : list label -> config -> Prop :=
  | runs_nil : runs [] (new_desk, [])
  | runs_step tr c l c' : runs tr c -> step c l c' -> runs (l :: tr) c'.

Definition offered_to (ch : nat) (l : label) : bool :=
  match l with LOffer _ ch' _ => Nat.eqb ch' ch | _ => false end.
Definition offers (ch : nat) (tr : list label) : nat := length (List.filter (offered_to ch) tr).

Definition waiting (ch : nat) (ss : list (nat * T)) : nat :=
  length (List.filter (fun s => Nat.eqb s.1 ch) ss).

Definition held (ch : nat) (h : gmap nat (chan T)) : nat :=
  match h !! ch with Some c => length (ch_buf c) | None => 0 end.

(** Every pending or awaited channel exists, is open and has one slot; and
    what is buffered or waiting was offered. *)
Definition known (d : desk T) (ch : nat) : Prop :=
  exists c, objs d !! ch = Some c /\ ch_closed c = false /\ ch_cap c = 1.

Record machine_ok (tr : list label) (c : config) : Prop := {
  mo_fresh : forall ch, fresh_chan c.1 <= ch -> objs c.1 !! ch = None;
  mo_objs : forall ch o, objs c.1 !! ch = Some o -> ch_closed o = false /\ ch_cap o = 1;
  mo_pending : forall id ch, pending c.1 !! id = Some ch -> is_Some (objs c.1 !! ch);
  mo_senders : forall ch v, (ch, v) ∈ c.2 -> is_Some (objs c.1 !! ch);
  mo_count : forall ch, waiting ch c.2 + held ch (objs c.1) <= offers ch tr
}.

Lemma waiting_app ch ss1 ss2 : waiting ch (ss1 ++ ss2) = waiting ch ss1 + waiting ch ss2.
Proof. unfold waiting. by rewrite List.filter_app, length_app. Qed.

Lemma waiting_cons ch s ss : waiting ch (s :: ss) = (if Nat.eqb s.1 ch then 1 else 0) + waiting ch ss.
Proof. unfold waiting. simpl. by destruct (Nat.eqb s.1 ch). Qed.

Lemma send_some ch v (h h' : gmap nat (chan T)) :
  send ch v h = Ok (Some h') <->
  exists c, h !! ch = Some c /\ ch_closed c = false /\ has_room c = true /\ h' = <[ch := push c v]> h.
Proof.
  unfold send. destruct (h !! ch) as [c|]; [|split; [done|by intros (c & ? & _)]].
  destruct (ch_closed c) eqn:E1; [|destruct (has_room c) eqn:E2]; split; try done.
  2: by intros [= <-]; exists c.
  all: intros (c' & [= <-] & ? & ? & ?); congruence.
Qed.

Lemma held_insert ch ch' (c : chan T) h :
  held ch (<[ch' := c]> h) = if Nat.eqb ch' ch then length (ch_buf c) else held ch h.
Proof.
  unfold held. destruct (Nat.eqb_spec ch' ch) as [->|Hne]; [by rewrite lookup_insert_eq|].
  by rewrite lookup_insert_ne.
Qed.

(** The objects a receive leaves: the same ones, with no more in them. *)
Lemma recv_objs ch (h : gmap nat (chan T)) :
  (recv ch h).2 = h \/
  exists c v rest, h !! ch = Some c /\ ch_buf c = v :: rest /\
    (recv ch h).2 = <[ch := {| ch_buf := rest; ch_cap := ch_cap c; ch_closed := ch_closed c |}]> h.
Proof.
  unfold recv. destruct (h !! ch) as [c|] eqn:E; [|by left].
  destruct (ch_buf c) as [|v rest] eqn:Eb; [by left|]. right. by exists c, v, rest.
Qed.

Lemma update_ok tr d ss ch c c' :
  machine_ok tr (d, ss) -> objs d !! ch = Some c -> ch_closed c' = ch_closed c -> ch_cap c' = ch_cap c ->
  (forall x, waiting x ss + held x (<[ch := c']> (objs d)) <= offers x tr) ->
  machine_ok tr (with_objs d (<[ch := c']> (objs d)), ss).
Proof.
  intros [Hf Ho Hp Hs Hc] E Hcl Hcap Hcnt. split; simpl in *; [..|done].
  - intros x Hx. rewrite lookup_insert_ne; [by apply Hf|]. intros <-. by rewrite Hf in E.
  - intros x o [[-> <-]|[_ H]]%lookup_insert_Some; [|by apply Ho in H].
    rewrite Hcl, Hcap. by apply Ho in E.
  - intros id x H. apply lookup_insert_is_Some'. right. by eapply Hp.
  - intros x v H. apply lookup_insert_is_Some'. right. by eapply Hs.
Qed.

Lemma step_ok tr c l c' : machine_ok tr c -> step c l c' -> machine_ok (l :: tr) c'.
Proof.
  intros Hm Hst. destruct Hst as [d ss id|d ss id|d ss id ch v Hid|d ss id Hid|d ss1 ss2 ch v h Hsd|d ss ch].
  - destruct Hm as [Hf Ho Hp Hs Hc]. unfold register, make_chan. split; simpl in *.
    + intros ch Hch. rewrite lookup_insert_ne by lia. apply Hf. lia.
    + intros ch o [[_ <-]|[_ H]]%lookup_insert_Some; [done|by apply Ho in H].
    + intros id' ch [[_ <-]|[_ H]]%lookup_insert_Some; apply lookup_insert_is_Some'; [by left|right; by eapply Hp].
    + intros ch v H. apply lookup_insert_is_Some'. right. by eapply Hs.
    + intros ch. rewrite held_insert. specialize (Hc ch). unfold offers in *. simpl.
      destruct (Nat.eqb (fresh_chan d) ch); simpl; lia.
  - destruct Hm as [Hf Ho Hp Hs Hc]. split; try done. simpl in *.
    intros id' ch [_ H]%lookup_delete_Some. by eapply Hp.
  - destruct Hm as [Hf Ho Hp Hs Hc]. split; simpl in *; try done.
    + intros x w [H|H%list_elem_of_singleton]%elem_of_app; [by eapply Hs|]. injection H as -> ->. by eapply Hp.
    + intros x. specialize (Hc x). rewrite waiting_app, waiting_cons. simpl.
      unfold offers in *. simpl. destruct (Nat.eqb ch x); simpl; unfold waiting at 2; simpl; lia.
  - destruct Hm as [Hf Ho Hp Hs Hc]. by split.
  - apply send_some in Hsd as (c & Ec & Hcl & Hr & ->).
    assert (machine_ok tr (with_objs d (<[ch := push c v]> (objs d)), ss1 ++ ss2)) as [? ? ? ? ?]; [|by split].
    apply (update_ok tr d (ss1 ++ ss2) ch c); [|done..|].
    + destruct Hm as [Hf Ho Hp Hs Hc]. split; simpl in *; try done.
      * intros x w H. apply (Hs x w). set_solver.
      * intros x. specialize (Hc x). rewrite waiting_app in *. rewrite waiting_cons in Hc. lia.
    + intros x. pose proof (mo_count _ _ Hm x) as Hc. simpl in Hc. rewrite held_insert.
      rewrite waiting_app in *. rewrite waiting_cons in Hc. simpl in *.
      destruct (Nat.eqb_spec ch x) as [->|]; [|lia]. unfold held in Hc. rewrite Ec in Hc. rewrite length_app. simpl. lia.
  - destruct (recv_objs ch (objs d)) as [-> | (c & v & rest & Ec & Eb & ->)].
    + replace (with_objs d (objs d)) with d by by destruct d. destruct Hm as [? ? ? ? ?]. by split.
    + assert (machine_ok tr (with_objs d (<[ch := {| ch_buf := rest; ch_cap := ch_cap c; ch_closed := ch_closed c |}]> (objs d)), ss))
        as [? ? ? ? ?]; [|by split].
      apply (update_ok tr d ss ch c); [done..|]. intros x. pose proof (mo_count _ _ Hm x) as Hc. simpl in Hc.
      rewrite held_insert. destruct (Nat.eqb_spec ch x) as [->|]; [|lia].
      unfold held in Hc. rewrite Ec, Eb in Hc. simpl in *. lia.
Qed.

Lemma runs_ok tr c : runs tr c -> machine_ok tr c.
Proof.
  induction 1 as [|tr c l c' _ IH Hst]; [|by eapply step_ok].
  split; simpl; try done. intros ch v H. by apply not_elem_of_nil in H.
Qed.

(** A first verdict never blocks.  In every interleaving of registrations,
    expiries, receives and verdicts, a sender that holds a channel can complete
    its send at once - whether or not the call has been unregistered meanwhile
    - if its verdict is the only one ever offered to that channel, and the
    waiter then receives exactly that verdict; no send ever panics. *)
Theorem first_verdict_delivered (tr : list label) (d : desk T) (ss : list (nat * T)) (ch : nat) (v : T)
    (Hrun : runs tr (d, ss)) (Hin : (ch, v) ∈ ss) :
  (forall s, send ch v (objs d) <> Panic s) /\
  (offers ch tr <= 1 ->
   exists h, send ch v (objs d) = Ok (Some h) /\ (recv ch h).1 = Got v).
Proof.
  destruct (runs_ok _ _ Hrun) as [Hf Ho Hp Hs Hc]. simpl in *.
  destruct (Hs _ _ Hin) as [c Ec]. destruct (Ho _ _ Ec) as [Hcl Hcap]. split.
  - intros s. unfold send. rewrite Ec, Hcl. by destruct (has_room c).
  - intros H1. specialize (Hc ch). unfold held in Hc. rewrite Ec in Hc.
    assert (1 <= waiting ch ss) as Hw.
    { apply list_elem_of_split in Hin as (l1 & l2 & ->). rewrite waiting_app, waiting_cons. simpl.
      rewrite Nat.eqb_refl. lia. }
    assert (ch_buf c = []) as Hb by (destruct (ch_buf c); [done|simpl in Hc; lia]).
    assert (has_room c = true) as Hr by (unfold has_room; by rewrite Hb, Hcap).
    exists (<[ch := push c v]> (objs d)). split; [apply send_some; by exists c|].
    unfold recv. rewrite lookup_insert_eq. unfold push. simpl. by rewrite Hb.
Qed.

End Machine.

(** ** Concrete runs *)
Module SampleApprovals.

Definition one : Registry := (RegisterApproval New "call1" "t1").1.

(** Approving twice before the runner reads: the second caller blocks. *)
Example second_verdict_blocks :
  match SendApproval one "call1" true with
  | Ok (Some (r, true)) => SendApproval r "call1" false = Ok None
  | _ => False
  end.
Proof. reflexivity. Qed.

(** A thunk deletes whatever its call id maps to, also a later registration. *)
Example stale_unregister :
  pending (approvals (UnregisterApproval (RegisterApproval one "call1" "t2").1 "call1")) !! "call1" = None.
Proof. reflexivity. Qed.

(** Looked up, unregistered, then sent: still delivered. *)
Definition trace : list (@label bool) := [LUnregister "call1"; LOffer "call1" 0 true; LRegister "call1" 0].

Lemma trace_runs : runs trace (unregister (register new_desk "call1").1 "call1", [(0, true)]).
Proof.
  apply (runs_step [LOffer "call1" 0 true; LRegister "call1" 0] ((register new_desk "call1").1, [(0, true)]));
    [|constructor].
  apply (runs_step [LRegister "call1" 0] ((register new_desk "call1").1, [])); [|by apply (step_offer _ [])].
  apply (runs_step [] (new_desk, [])); [constructor|]. apply (step_register new_desk []).
Qed.

End SampleApprovals.

Lemma first_verdict_delivered_witness :
  exists h, send 0 true (objs (unregister (register (@new_desk bool) "call1").1 "call1")) = Ok (Some h) /\
    (recv 0 h).1 = Got true.
Proof.
  refine (proj2 (first_verdict_delivered SampleApprovals.trace _ [(0, true)] 0 true SampleApprovals.trace_runs _) _).
  - by left.
  - vm_compute. lia.
Defined.
