(* ===== verification/Adoc.v ===== *)
(** * The document compiler ([adoc/compiler.go])

    Includes, attributes and comments of an AsciiDoc file.  The files that can
    be read are a finite map from paths; an include recurses through it, and
    the set of files being compiled is what stops a cycle. *)

From Stdlib Require Import ZArith Lia String Ascii.
From S2P Require Import Prelude GoStrings GoPath.
#[local] Open Scope nat_scope.

(** ** The line syntax *)

Definition is_digit_byte (n : nat) : bool := (48 <=? n) && (n <=? 57).
(** [\[a-zA-Z0-9_-\]] *)
Definition attr_char (c : ascii) : bool :=
  let n := nat_of_ascii c in
  ((97 <=? n) && (n <=? 122)) || ((65 <=? n) && (n <=? 90)) || is_digit_byte n || (n =? 95) || (n =? 45).
(** [\s] *)
Definition re_space (c : ascii) : bool :=
  let n := nat_of_ascii c in (n =? 32) || (n =? 9) || (n =? 10) || (n =? 12) || (n =? 13).

(** The longest prefix of bytes in a class, and the rest. *)
Fixpoint span (p : ascii -> bool) (s : string) : string * string :=
  match s with
  | EmptyString => (EmptyString, EmptyString)
  | String c r => if p c then let '(a, b) := span p r in (String c a, b) else (EmptyString, s)
  end.

Definition strip (pre s : string) : option string := if has_prefix s pre then Some (sdrop (slen pre) s) else None.

(** [includeRe] at one position, then at the leftmost that matches. *)
Definition include_at (s : string) : option string :=
  match strip "include::" s with
  | None => None
  | Some r => let '(path, rest) := span (fun c => negb (Ascii.eqb c "[")) r in
              if negb (String.eqb path "") && has_prefix rest "[]" then Some path else None
  end.
Fixpoint include_of (s : string) : option string :=
  match include_at s with
  | Some p => Some p
  | None => match s with EmptyString => None | String _ r => include_of r end
  end.

(** [attrDefRe] *)
Definition attr_def (line : string) : option (string * string) :=
  match strip ":" line with
  | None => None
  | Some r =>
      let '(key, rest) := span attr_char r in
      match strip ":" rest with
      | Some v => if String.eqb key "" then None else Some (key, (span re_space v).2)
      | None => None
      end
  end.

(** [commentRe] *)
Definition is_comment (line : string) : bool := has_prefix line "//".

(** [attributeRe.ReplaceAllStringFunc]: the scan goes on after a match. *)
Fixpoint resolve_attrs (fuel : nat) (attrs : gmap string string) (s : string) : string :=
  match fuel, s with
  | S fuel, String c r =>
      let '(key, rest) := span attr_char r in
      if Ascii.eqb c "{" && negb (String.eqb key "") && has_prefix rest "}"
      then default ("{" ^^ key ^^ "}") (attrs !! key) ^^ resolve_attrs fuel attrs (sdrop 1 rest)
      else String c (resolve_attrs fuel attrs r)
  | _, _ => ""
  end.

(** [strings.TrimSuffix(data, "\n")], split at newlines *)
Definition body_lines (data : string) : list string :=
  split_byte "010" (if has_suffix data nl then stake (slen data - 1) data else data).

(** ** Compilation *)

(** The attributes and the files being compiled, shared along the recursion. *)
Definition State : Type := gmap string string * gset string.

(** [None] is a walk that ran out of fuel. *)
Definition walk : Type := option (State * outcome string).

Fixpoint processLines (resolveInclude : string -> State -> walk) (lines : list string) (out : string) (st : State) : walk :=
  match lines with
  | [] => Some (st, Ok out)
  | line :: rest =>
      if is_comment line then processLines resolveInclude rest out st
      else
        match attr_def line with
        | Some (key, value) => processLines resolveInclude rest out (<[key := value]> st.1, st.2)
        | None =>
            match include_of line with
            | Some path =>
                match resolveInclude path st with
                | Some (st', Ok content) => processLines resolveInclude rest (out ^^ content) st'
                | r => r
                end
            | None => processLines resolveInclude rest (out ^^ resolve_attrs (slen line) st.1 line ^^ nl) st
            end
        end
  end.

Section Compile.

(** [norm] names a file: [filepath.Abs] for the operating system's files,
    [path.Clean] for embedded ones. *)
Context (norm : string -> outcome string) (files : gmap string string) (read_error : string -> goerr).

Fixpoint compile (fuel : nat) (p : string) (st : State) : walk :=
  match fuel with
  | O => None
  | S fuel =>
      match norm p with
      | Err e => Some (st, Err e)
      | Panic s => Some (st, Panic s)
      | Ok abs =>
          if bool_decide (abs ∈ st.2) then Some (st, Err (ENew ("circular include: " ^^ abs)))
          else
            let st1 := (st.1, {[abs]} ∪ st.2) in
            match files !! abs with
            | None => Some (st1, Err (EWrap ("reading " ^^ p ^^ ": ") (read_error abs) ""))
            | Some data =>
                match processLines (fun rel => compile fuel (Join [Dir abs; rel])) (body_lines data) "" st1 with
                | Some ((attrs, visited), Ok out) => Some ((attrs, visited ∖ {[abs]}), Ok out)
                | r => r
                end
            end
      end
  end.

(** ** Termination *)

(** The files an include may still open. *)
Definition left_open (visited : gset string) : nat := size (dom files ∖ visited : gset string).

(** What a resolver does once it has fuel enough: it answers, a larger one
    answers the same, and it gives back the set it was given. *)
Definition resolves (visited : gset string) (f g : string -> State -> walk) : Prop := forall rel attrs,
  exists st' r, f rel (attrs, visited) = Some (st', r) /\ g rel (attrs, visited) = Some (st', r) /\
    ((exists out, r = Ok out) -> st'.2 = visited).

Lemma processLines_resolves visited f g lines out attrs : resolves visited f g ->
  exists st' r, processLines f lines out (attrs, visited) = Some (st', r) /\ processLines g lines out (attrs, visited) = Some (st', r) /\
    ((exists o, r = Ok o) -> st'.2 = visited).
Proof.
  intros Hf. revert out attrs. induction lines as [|line lines IH]; intros out attrs; [by eexists _, _|]. cbn [processLines fst snd].
  destruct (is_comment line); [apply IH|]. destruct (attr_def line) as [[key value]|]; [apply IH|].
  destruct (include_of line) as [path|]; [|apply IH]. destruct (Hf path attrs) as (st' & r & -> & -> & Hv).
  destruct r as [content|e|s]; [|by eexists _, _..]. specialize (Hv ltac:(by eexists)). destruct st' as [attrs' visited'].
  simpl in Hv. subst visited'. apply IH.
Qed.

Lemma compile_resolves fuel fuel' p attrs visited : left_open visited < fuel -> left_open visited < fuel' ->
  exists st' r, compile fuel p (attrs, visited) = Some (st', r) /\ compile fuel' p (attrs, visited) = Some (st', r) /\
    ((exists out, r = Ok out) -> st'.2 = visited).
Proof.
  revert fuel' p attrs visited. induction fuel as [|fuel IH]; intros [|fuel'] p attrs visited H1 H2; [lia..|]. cbn [compile fst snd].
  destruct (norm p) as [abs|e|s]; [|by eexists _, _; repeat split; intros [? ?]..].
  case_bool_decide as Hv; [by eexists _, _; repeat split; intros [? ?]|].
  destruct (files !! abs) as [data|] eqn:Ef; [|by eexists _, _; repeat split; intros [? ?]].
  assert (left_open ({[abs]} ∪ visited) < left_open visited) as Hlt.
  { unfold left_open. apply subset_size. apply (elem_of_dom_2 (D := gset string)) in Ef. split; [set_solver|]. intros Hs.
    assert (abs ∈ (dom files : gset string) ∖ ({[abs]} ∪ visited)) by (apply Hs; set_solver). set_solver. }
  destruct (processLines_resolves ({[abs]} ∪ visited) (fun rel => compile fuel (Join [Dir abs; rel]))
    (fun rel => compile fuel' (Join [Dir abs; rel])) (body_lines data) "" attrs) as (st' & r & -> & -> & Hr).
  { intros rel attrs'. apply IH; lia. }
  destruct st' as [attrs' visited']. destruct r as [out|e|s]; [|by eexists _, _; repeat split; intros [? ?]..].
  eexists _, _. repeat split. intros _. simpl. specialize (Hr ltac:(by eexists)). simpl in Hr. subst visited'. set_solver.
Qed.

End Compile.

(** [Compile] and [CompileFS]; the fuel is one more than the files there are. *)
Definition start : State := (∅, ∅).
Definition Compile (cwd : string + goerr) (files : gmap string string) (read_error : string -> goerr) (entryPath : string) : walk :=
  compile (Abs cwd) files read_error (S (size (dom files : gset string))) entryPath start.
Definition CompileFS (fsys : gmap string string) (read_error : string -> goerr) (entryPath : string) : walk :=
  compile (fun p => Ok (Clean p)) fsys read_error (S (size (dom fsys : gset string))) entryPath start.

(** C36: Compilation ends, whatever the files include: it gives an output or an
    error, however much more fuel it had it would give the same, and on success
    the set of open files is back to empty. *)
Theorem Compile_terminates (norm : string -> outcome string) (files : gmap string string) (read_error : string -> goerr) (entryPath : string) :
  exists st r, (forall fuel, size (dom files : gset string) < fuel -> compile norm files read_error fuel entryPath start = Some (st, r)) /\
    ((exists out, r = Ok out) -> st.2 = ∅).
Proof.
  assert (left_open files ∅ < S (size (dom files : gset string))) as H0.
  { unfold left_open. apply Nat.lt_succ_r, subseteq_size. set_solver. }
  destruct (compile_resolves norm files read_error (S (size (dom files : gset string))) (S (size (dom files : gset string))) entryPath ∅ ∅ H0 H0)
    as (st & r & E & _ & Hv).
  exists st, r. split; [|done]. intros fuel Hf.
  destruct (compile_resolves norm files read_error (S (size (dom files : gset string))) fuel entryPath ∅ ∅ H0) as (st' & r' & E' & Ef & _);
    [unfold left_open in *; assert (size (dom files ∖ ∅ : gset string) <= size (dom files : gset string)) by (apply subseteq_size; set_solver); lia|].
  unfold start. congruence.
Qed.

(** ** A small tree *)
Module SampleDocs.
#[local] Open Scope string_scope.
Definition files : gmap string string :=
  <["/d/main.adoc" := ":who: world" ^^ nl ^^ "// note" ^^ nl ^^ "include::sub/part.adoc[]" ^^ nl ^^ "bye {who} {x}" ^^ nl]>
  (<["/d/sub/part.adoc" := "hello {who}"]> (<["/d/a" := "include::b[]"]> {["/d/b" := "see include::./a[]"]})).
Definition missing (p : string) : goerr := ENew (p ^^ " not found").
Definition text (w : walk) : option (outcome string) := snd <$> w.

Example included : text (Compile (inl "/d") files missing "main.adoc") = Some (Ok ("hello world" ^^ nl ^^ "bye world {x}" ^^ nl)).
Proof. vm_compute. reflexivity. Qed.
Example cyclic : text (Compile (inl "/d") files missing "a") = Some (Err (ENew "circular include: /d/a")).
Proof. vm_compute. reflexivity. Qed.
End SampleDocs.
