(* ===== verification/Workspace.v ===== *)
(** * Where a thread's files live ([sandbox/workspace.go], [service/datadir])

    The layout of the data directory and the guard that maps a path the model
    supplies into the workspace.  Both are lexical: what is proved is about the
    cleaned path, not about what symbolic links on disk make of it. *)

From Stdlib Require Import ZArith Lia String Ascii.
From S2P Require Import Prelude GoStrings GoPath.
#[local] Open Scope nat_scope.

Definition ContainerWorkspace : string := "/workspace".

Section Workspace.

(** [os.Getwd] *)
Context (cwd : string + goerr).

(** ** The sandbox guard *)

Definition escapes (path root : string) : goerr := ENew ("path " ^^ quoted path ^^ " escapes workspace " ^^ root).

Definition safeJoin (root rel : string) : outcome string :=
  let joined := Clean (Join [root; rel]) in
  if negb (String.eqb joined root) && negb (has_prefix joined (root ^^ "/")) then Err (escapes rel root) else Ok joined.

Definition ResolveWorkspacePath (workspace path : string) : outcome string :=
  if String.eqb workspace "" then Err (ENew "sandbox workspace not configured")
  else
    match Abs cwd workspace with
    | Err e => Err (EWrap "resolve workspace: " e "")
    | Panic p => Panic p
    | Ok absWs =>
        if String.eqb path "" then Ok absWs
        else if String.eqb path ContainerWorkspace then Ok absWs
        else if has_prefix path (ContainerWorkspace ^^ "/") then safeJoin absWs (sdrop (slen (ContainerWorkspace ^^ "/")) path)
        else if IsAbs path then
          let clean := Clean path in
          if String.eqb clean absWs || has_prefix clean (absWs ^^ "/") then Ok clean else Err (escapes path absWs)
        else safeJoin absWs path
    end.

(** ** The data directory *)

Definition is_digit (c : ascii) : bool := let n := nat_of_ascii c in (48 <=? n) && (n <=? 57).
Fixpoint digits (s : string) : bool :=
  match s with EmptyString => true | String c s' => is_digit c && digits s' end.

(** [ThreadIDPattern.MatchString]: [^thread-\d+$] *)
Definition ThreadIDPattern (id : string) : bool :=
  has_prefix id "thread-" && negb (String.eqb (sdrop 7 id) "") && digits (sdrop 7 id).

Definition ValidateThreadID (id : string) : option goerr :=
  if String.eqb id "" then Some (ENew "empty threadID")
  else if negb (ThreadIDPattern id) then Some (ENew ("invalid threadID format: " ^^ quoted id))
  else None.

Definition threadScopedDir (dataDir root prefix threadID : string) : outcome string :=
  match ValidateThreadID threadID with
  | Some e => Err e
  | None =>
      match Abs cwd (Join [dataDir; root]) with
      | Err e => Err (EWrap ("resolve " ^^ root ^^ " root: ") e "")
      | Panic p => Panic p
      | Ok absRoot =>
          let dir := Clean (Join [absRoot; prefix ^^ threadID]) in
          if negb (String.eqb dir absRoot) && negb (has_prefix dir (absRoot ^^ "/"))
          then Err (ENew ("invalid threadID: path escapes " ^^ root ^^ " directory")) else Ok dir
      end
  end.

(** The directory is made on the way; [mkdir_all] is [os.MkdirAll]'s answer. *)
Definition WorkspaceDir (mkdir_all : string -> option goerr) (dataDir threadID : string) : outcome string :=
  dir ← threadScopedDir dataDir "sandboxes" "sbx-" threadID;
  match mkdir_all dir with Some e => Err (EWrap "create workspace: " e "") | None => Ok dir end.
Definition PlanDirForThread (dataDir threadID : string) : outcome string := threadScopedDir dataDir "plans" "plan-" threadID.
Definition AttachmentsDir (dataDir threadID : string) : outcome string :=
  ws ← threadScopedDir dataDir "sandboxes" "sbx-" threadID;
  mret (Join [ws; "_attachments"]).
Definition TokenScalePath (dataDir : string) : string := Join [dataDir; "tokenscale.json"].
Definition SkillsDir (dataDir : string) : string := Join [dataDir; "skills"].

(** ** Confinement *)

(** The working directory is reported as an absolute path. *)
Hypothesis cwd_abs : forall wd, cwd = inl wd -> IsAbs wd = true.

(** [p] is the directory [l] or lies below it, by names alone. *)
Definition under (l : list string) (p : string) : Prop := exists rest, Forall name rest /\ p = abs_path (l ++ rest).

Lemma under_prefix l l' : Forall name l -> Forall name l' ->
  String.eqb (abs_path l') (abs_path l) || has_prefix (abs_path l') (abs_path l ^^ "/") = true -> under l (abs_path l').
Proof.
  intros Hl Hl' [->%String.eqb_eq|Hp]%orb_true_iff; [exists []; by rewrite app_nil_r|].
  destruct (abs_prefix l l' Hl Hl' Hp) as (rest & _ & ->). apply Forall_app in Hl' as [_ Hr]. by exists rest.
Qed.

Lemma Join_abs l rel : Forall name l -> exists l', Forall name l' /\ Join [abs_path l; rel] = abs_path l'.
Proof.
  intros Hl. change (Join [abs_path l; rel]) with (Clean (abs_path l ^^ String slash rel)). rewrite Clean_below by done.
  eexists. split; [|reflexivity]. apply Forall_rev, clean_names; [apply split_byte_no|by apply Forall_rev].
Qed.

Lemma safeJoin_under l rel p : Forall name l -> safeJoin (abs_path l) rel = Ok p -> under l p.
Proof.
  intros Hl. unfold safeJoin. destruct (Join_abs l rel Hl) as (l' & Hl' & ->). rewrite Clean_fixed by done.
  destruct (negb _ && negb _) eqn:E; [done|]. intros [= <-]. apply under_prefix; [done..|].
  apply negb_false_iff. by rewrite negb_orb.
Qed.

Lemma ResolveWorkspacePath_under workspace path p : ResolveWorkspacePath workspace path = Ok p ->
  exists l, Forall name l /\ Abs cwd workspace = Ok (abs_path l) /\ under l p.
Proof.
  unfold ResolveWorkspacePath. destruct (String.eqb workspace ""); [done|].
  destruct (Abs cwd workspace) as [ws|e|s] eqn:Ea; [|done..].
  destruct (Abs_abs cwd workspace ws cwd_abs Ea) as (l & Hl & ->).
  assert (under l (abs_path l)) as Hself by (exists []; by rewrite app_nil_r).
  intros Hr. exists l. split; [done|]. split; [done|].
  destruct (String.eqb path ""); [by injection Hr as <-|]. destruct (String.eqb path _); [by injection Hr as <-|].
  destruct (has_prefix path _); [by eapply safeJoin_under|]. destruct (IsAbs path) eqn:Hp; [|by eapply safeJoin_under].
  destruct (_ || _) eqn:E; [|done]. injection Hr as <-. destruct (Clean_abs path Hp) as (l' & Hl' & Ec).
  rewrite Ec in *. by apply under_prefix.
Qed.

(** ** One directory a thread *)

Lemma digits_no s : digits s = true -> no_byte slash s = true.
Proof.
  induction s as [|c s IH]; [done|]. simpl. intros [Hc Hs]%andb_true_iff. rewrite IH, andb_true_r by done.
  apply negb_true_iff, Ascii.eqb_neq. by intros ->.
Qed.

Lemma no_byte_app c a b : no_byte c (a ^^ b) = no_byte c a && no_byte c b.
Proof. induction a as [|x a IH]; [done|]. simpl. by rewrite IH, andb_assoc. Qed.

Lemma thread_entry prefix id : no_byte slash prefix = true -> ValidateThreadID id = None ->
  name (prefix ^^ id) .
Proof.
  unfold ValidateThreadID, ThreadIDPattern. destruct (String.eqb id ""); [done|]. destruct (negb _) eqn:E; [done|]. intros Hp _.
  apply negb_false_iff in E. rewrite !andb_true_iff in E. destruct E as ((Hpre & _) & Hd).
  apply has_prefix_spec in Hpre as [r ->]. replace (sdrop 7 ("thread-" ^^ r)) with r in Hd by (symmetry; apply (sdrop_append "thread-" r)).
  assert (forall e, slen e <= 2 -> prefix ^^ "thread-" ^^ r <> e) as Hlen.
  { intros e He Heq. apply (f_equal slen) in Heq. rewrite !append_length in Heq. simpl in Heq. lia. }
  split; [apply Hlen; simpl; lia|]. split; [apply Hlen; simpl; lia|]. split; [apply Hlen; simpl; lia|].
  rewrite !no_byte_app, Hp, (digits_no r Hd). done.
Qed.

Lemma threadScopedDir_entry dataDir root prefix id dir : no_byte slash prefix = true ->
  threadScopedDir dataDir root prefix id = Ok dir ->
  ValidateThreadID id = None /\
  exists l, Forall name l /\ Abs cwd (Join [dataDir; root]) = Ok (abs_path l) /\ name (prefix ^^ id) /\ dir = abs_path (l ++ [prefix ^^ id]).
Proof.
  intros Hp. unfold threadScopedDir. destruct (ValidateThreadID id) eqn:Ev; [done|].
  pose proof (thread_entry prefix id Hp Ev) as Hn.
  destruct (Abs cwd (Join [dataDir; root])) as [r|e|s] eqn:Ea; [|done..].
  destruct (Abs_abs _ _ _ cwd_abs Ea) as (l & Hl & ->).
  assert (Join [abs_path l; prefix ^^ id] = abs_path (l ++ [prefix ^^ id])) as Ej.
  { change (Join [abs_path l; ?x]) with (Clean (abs_path l ^^ String slash x)). rewrite Clean_below by done.
    rewrite split_byte_none by apply Hn. cbn [fold_left]. rewrite clean_step_push by done.
    simpl. by rewrite rev_involutive. }
  rewrite Ej, Clean_fixed by (apply Forall_app; split; [done|by apply Forall_singleton]).
  destruct (_ && _); [done|]. intros [= <-]. split; [done|]. by exists l.
Qed.

End Workspace.

(** A path the guard lets through is the workspace or lies below it: its
    components are those of the workspace followed by proper names, with no
    [.] or [..] left, whatever form the model gave the path in. *)
Theorem ResolveWorkspacePath_confined (cwd : string + goerr) (workspace path p : string)
    (Hcwd : forall wd, cwd = inl wd -> IsAbs wd = true) (Hok : ResolveWorkspacePath cwd workspace path = Ok p) :
  exists l rest, Forall name l /\ Forall name rest /\ Abs cwd workspace = Ok (abs_path l) /\ p = abs_path (l ++ rest).
Proof.
  destruct (ResolveWorkspacePath_under cwd Hcwd workspace path p Hok) as (l & Hl & Ha & rest & Hr & Hp). by exists l, rest.
Qed.

Lemma ResolveWorkspacePath_confined_witness :
  (exists l rest, Forall name l /\ Forall name rest /\ Abs (inl "/srv") "data/sbx" = Ok (abs_path l) /\ "/srv/data/sbx/a" = abs_path (l ++ rest)) /\
  ResolveWorkspacePath (inl "/srv") "data/sbx" "/workspace/../etc" = Err (escapes "../etc" "/srv/data/sbx").
Proof.
  split; [|by vm_compute].
  apply (ResolveWorkspacePath_confined (inl "/srv") "data/sbx" "/workspace/./b/../a" "/srv/data/sbx/a"); [by intros wd [= <-]|by vm_compute].
Defined.

(** Two threads never share a directory of one kind, and none lies inside
    another's: each is an entry of its own directly under the same root. *)
Theorem threadScopedDir_separate (cwd : string + goerr) (dataDir root prefix id1 id2 d1 d2 : string)
    (Hcwd : forall wd, cwd = inl wd -> IsAbs wd = true) (Hprefix : no_byte slash prefix = true)
    (H1 : threadScopedDir cwd dataDir root prefix id1 = Ok d1) (H2 : threadScopedDir cwd dataDir root prefix id2 = Ok d2)
    (Hne : id1 <> id2) :
  d1 <> d2 /\ has_prefix d2 (d1 ^^ "/") = false /\
  exists l, Forall name l /\ Abs cwd (Join [dataDir; root]) = Ok (abs_path l) /\
    d1 = abs_path (l ++ [prefix ^^ id1]) /\ d2 = abs_path (l ++ [prefix ^^ id2]).
Proof.
  destruct (threadScopedDir_entry cwd Hcwd _ _ _ _ _ Hprefix H1) as (_ & l & Hl & Ha & N1 & ->).
  destruct (threadScopedDir_entry cwd Hcwd _ _ _ _ _ Hprefix H2) as (_ & l' & Hl' & Ha' & N2 & ->).
  assert (l' = l) as -> by (apply abs_path_inj; congruence).
  assert (forall n, name n -> Forall name (l ++ [n])) as Hnames by (intros n Hn; apply Forall_app; split; [done|by apply Forall_singleton]).
  assert (prefix ^^ id1 <> prefix ^^ id2) as Hd by (by intros ?%(inj _)).
  split; [|split; [|by exists l]].
  - intros E%abs_path_inj; [|by apply Hnames..]. apply app_inv_head in E. congruence.
  - apply not_true_iff_false. intros Hp. apply abs_prefix in Hp as (rest & Hr & E); [|by apply Hnames..].
    rewrite <- app_assoc in E. apply app_inv_head in E. simpl in E. injection E as E _. congruence.
Qed.

Lemma threadScopedDir_separate_witness :
  let dir := threadScopedDir (inl "/srv") "data" "sandboxes" "sbx-" in
  dir "thread-12" = Ok "/srv/data/sandboxes/sbx-thread-12" /\ dir "thread-1/../.." = Err (ENew ("invalid threadID format: " ^^ quoted "thread-1/../..")) /\
  "/srv/data/sandboxes/sbx-thread-1" <> "/srv/data/sandboxes/sbx-thread-12".
Proof.
  intros dir. split; [by vm_compute|]. split; [by vm_compute|].
  refine (proj1 (threadScopedDir_separate (inl "/srv") "data" "sandboxes" "sbx-" "thread-1" "thread-12" _ _ _ _ _ _ _));
    [by intros wd [= <-]|by vm_compute|by vm_compute|by vm_compute|done].
Defined.
