(* ===== verification/Sandbox.v ===== *)
(** * The container of sandboxed commands ([sandbox/docker.go])

    How a command of a sandboxed thread reaches the docker client: the check
    that the daemon and the image are there, and the arguments of the run.  The
    client itself is a parameter that answers each invocation; the detector of
    destructive commands is in [Tools].  [ExecStream] has no caller. *)

From Stdlib Require Import ZArith Lia String.
From S2P Require Import Prelude GoStrings Errors Workspace.
#[local] Open Scope nat_scope.

Definition Image : string := "grudge-sandbox:latest".
Definition BuildCommand : string := "docker compose build sandbox".
Definition ErrDockerUnavailable : goerr := ENew "docker daemon unavailable — start Docker Desktop or the docker service".
Definition ErrImageMissing : goerr := ENew ("sandbox image " ^^ Image ^^ " not found locally — run `" ^^ BuildCommand ^^ "`").

Record Sandbox := { sb_image : string; sb_workspace : string }.
Definition New (workspace : string) : Sandbox := {| sb_image := Image; sb_workspace := workspace |}.

Definition runArgs (s : Sandbox) (command : string) : list string :=
  ["run"; "--rm"; "-i"] ++
  (if String.eqb (sb_workspace s) "" then []
   else ["-v"; sb_workspace s ^^ ":" ^^ ContainerWorkspace; "-w"; ContainerWorkspace]) ++
  [sb_image s; "sh"; "-c"; command].

Section Docker.
(** The combined output of the [n]-th invocation and how it ended. *)
Context (docker : nat -> list string -> string * option goerr).
(** The state is the invocations so far. *)
#[local] Abbreviation M := (GoM (list (list string))).

Definition invoke (args : list string) : M (string * option goerr) := fun calls => (calls ++ [args], Ok (docker (length calls) args)).

Definition dockerAvailable : M unit :=
  r ← invoke ["info"];
  match r.2 with Some e => gom_err (EWrap "" ErrDockerUnavailable (": " ^^ err_text e)) | None => mret tt end.

Definition imageExists (tag : string) : M unit :=
  r ← invoke ["image"; "inspect"; tag];
  match r.2 with Some _ => gom_err ErrImageMissing | None => mret tt end.

Definition CheckReady : M unit := _ ← dockerAvailable; imageExists Image.

(** The output is returned with the error as well. *)
Definition Exec (s : Sandbox) (command : string) : M (string * option goerr) := fun calls =>
  match CheckReady calls with
  | (calls, Ok _) =>
      (r ← invoke (runArgs s command);
       mret match r.2 with
            | Some e => (r.1, Some (EWrap "sandbox exec: " e (nl ^^ r.1)))
            | None => (r.1, None)
            end) calls
  | (calls, Err e) => (calls, Ok ("", Some e))
  | (calls, Panic p) => (calls, Panic p)
  end.

(** A command runs at most once, only after both checks passed, as one argument
    of a shell in a throw-away container of the image that sees no directory of
    the host but the workspace; otherwise the error says what is missing. *)
Theorem Exec_runs (workspace command : string) (calls : list (list string)) (Hws : workspace <> "") :
  let n := length calls in
  let info := docker n ["info"] in
  let inspect := docker (S n) ["image"; "inspect"; Image] in
  let args := ["run"; "--rm"; "-i"; "-v"; workspace ^^ ":" ^^ ContainerWorkspace; "-w"; ContainerWorkspace; Image; "sh"; "-c"; command] in
  let run := docker (S (S n)) args in
  Exec (New workspace) command calls =
    match info.2, inspect.2 with
    | Some e, _ => (calls ++ [["info"]], Ok ("", Some (EWrap "" ErrDockerUnavailable (": " ^^ err_text e))))
    | None, Some _ => (calls ++ [["info"]; ["image"; "inspect"; Image]], Ok ("", Some ErrImageMissing))
    | None, None => (calls ++ [["info"]; ["image"; "inspect"; Image]; args],
                     Ok (run.1, (fun e => EWrap "sandbox exec: " e (nl ^^ run.1)) <$> run.2))
    end.
Proof.
  intros n info inspect args run. unfold Exec, CheckReady, dockerAvailable, imageExists, invoke, mbind, gom_bind. cbn.
  fold n info. destruct info.2 as [e|]; cbn; [done|].
  rewrite !length_app, <- !(assoc_L (++)). cbn. rewrite Nat.add_1_r. fold n inspect. destruct inspect.2 as [e|]; cbn; [done|].
  unfold runArgs, New. cbn. destruct (String.eqb_spec workspace ""); [done|]. cbn. fold args.
  replace (length (calls ++ [["info"]; ["image"; "inspect"; Image]])) with (S (S n)) by (rewrite length_app; cbn; lia).
  fold run. rewrite <- (assoc_L (++)). by destruct run as [out [e|]].
Qed.
End Docker.

Module SampleSandbox.
Definition daemon (n : nat) (args : list string) : string * option goerr :=
  match args with "run" :: _ => ("hi", None) | _ => ("", None) end.

Example echoed : Exec daemon (New "/w") "echo hi; exit" [] =
  ([["info"]; ["image"; "inspect"; Image]; ["run"; "--rm"; "-i"; "-v"; "/w:/workspace"; "-w"; "/workspace"; Image; "sh"; "-c"; "echo hi; exit"]],
   Ok ("hi", None)).
Proof. reflexivity. Qed.

Example stopped : (Exec (fun _ _ => ("", Some (ENew "exit status 1"))) (New "/w") "true" []).1 = [["info"]].
Proof. reflexivity. Qed.
End SampleSandbox.
