(* ===== verification/TaskStore.v ===== *)
(** * The task store ([service/agent/tools/taskstore.go])

    The tasks of a thread by id.  The store hands out its own records, so a
    caller that holds one sees later updates: [Get] is read again at every use. *)

From Stdlib Require Import ZArith Lia String.
From stdpp Require Import pretty.
From S2P Require Import Prelude GoStrings.
#[local] Open Scope Z_scope.

(** [Blocks], [BlockedBy] and [Metadata] are never set. *)
Record Task := {
  tk_ID : string;
  tk_Subject : string;
  tk_Description : string;
  tk_ActiveForm : string;
  tk_Owner : string;
  tk_Status : string
}.

Record TaskStore := { ts_tasks : gmap string Task; ts_seq : Z }.

Definition NewTaskStore : TaskStore := {| ts_tasks := ∅; ts_seq := 0 |}.

Definition Create (subject description activeForm : string) (ts : TaskStore) : TaskStore * Task :=
  let seq := wrap64 (ts_seq ts + 1) in
  let t := {| tk_ID := itoa seq; tk_Subject := subject; tk_Description := description; tk_ActiveForm := activeForm;
              tk_Owner := ""; tk_Status := "pending" |} in
  ({| ts_tasks := <[itoa seq := t]> (ts_tasks ts); ts_seq := seq |}, t).

Definition Get (id : string) (ts : TaskStore) : option Task := ts_tasks ts !! id.

(** An empty argument keeps the field. *)
Definition or_keep (new old : string) : string := if String.eqb new "" then old else new.

Definition Update (id status owner subject description : string) (ts : TaskStore) : TaskStore * bool :=
  match ts_tasks ts !! id with
  | None => (ts, false)
  | Some t =>
      let t' := {| tk_ID := tk_ID t; tk_Subject := or_keep subject (tk_Subject t);
                   tk_Description := or_keep description (tk_Description t); tk_ActiveForm := tk_ActiveForm t;
                   tk_Owner := or_keep owner (tk_Owner t); tk_Status := or_keep status (tk_Status t) |} in
      ({| ts_tasks := <[id := t']> (ts_tasks ts); ts_seq := ts_seq ts |}, true)
  end.

Definition Delete (id : string) (ts : TaskStore) : TaskStore :=
  {| ts_tasks := delete id (ts_tasks ts); ts_seq := ts_seq ts |}.

Definition List_ `{!MapRange string} (ts : TaskStore) : list Task := (map_range (ts_tasks ts)).*2.

(** ** Identifiers *)

Inductive op :=
  | OCreate (subject description activeForm : string)
  | OUpdate (id status owner subject description : string)
  | ODelete (id : string).

(** The ids created so far, oldest first. *)
Definition apply (st : TaskStore * list string) (o : op) : TaskStore * list string :=
  match o with
  | OCreate s d a => let r := Create s d a st.1 in (r.1, st.2 ++ [tk_ID r.2])
  | OUpdate i s o sb d => ((Update i s o sb d st.1).1, st.2)
  | ODelete i => (Delete i st.1, st.2)
  end.

(** Every task is under its own id, and the ids are the numbers handed out. *)
Record store_ok (n : nat) (ts : TaskStore) (ids : list string) : Prop := {
  so_seq : ts_seq ts = Z.of_nat n;
  so_ids : ids = (fun i => itoa (Z.of_nat i)) <$> seq 1 n;
  so_keys : forall id t, ts_tasks ts !! id = Some t -> tk_ID t = id /\ id ∈ ids
}.

Lemma itoa_inj i j : itoa i = itoa j -> i = j.
Proof. apply pretty_Z_inj. Qed.

Lemma NewTaskStore_ok : store_ok 0 NewTaskStore [].
Proof. split; [done..|]. intros id t. change (@lookup string Task (gmap string Task) _ id ∅ = Some t -> tk_ID t = id /\ id ∈ []). by rewrite lookup_empty. Qed.

Lemma apply_ok n ts ids o : Z.of_nat n < 2 ^ 63 - 1 -> store_ok n ts ids ->
  exists n', store_ok n' (apply (ts, ids) o).1 (apply (ts, ids) o).2 /\
    n' = (n + match o with OCreate _ _ _ => 1 | _ => 0 end)%nat.
Proof.
  intros Hn [Hs Hi Hk]. destruct o as [s d a|i st ow sb d|i]; cbn [apply fst snd].
  - exists (n + 1)%nat. split; [|done]. rewrite Nat.add_1_r. unfold Create. rewrite Hs, wrap64_id by (unfold in_int64; lia).
    replace (Z.of_nat n + 1) with (Z.of_nat (S n)) by lia. split; cbn [fst snd ts_seq ts_tasks tk_ID]; [done|..].
    + by rewrite Hi, seq_S, fmap_app.
    + intros id t. rewrite lookup_insert. case_decide as E; [intros [= <-]; subst; split; [done|set_solver]|].
      intros Ht. destruct (Hk id t Ht). split; [done|set_solver].
  - exists n. split; [|lia]. unfold Update. destruct (ts_tasks ts !! i) as [t|] eqn:E; [|by split].
    split; [done..|]. cbn. intros id t'. rewrite lookup_insert. case_decide as Ei; [|apply Hk]. intros [= <-]. subst.
    by destruct (Hk id t E).
  - exists n. split; [|lia]. split; [done..|]. cbn. intros id t [_ Ht]%lookup_delete_Some. by apply Hk.
Qed.

Lemma apply_all_ok ops n ts ids : Z.of_nat (n + length ops) < 2 ^ 63 -> store_ok n ts ids ->
  exists n', store_ok n' (fold_left apply ops (ts, ids)).1 (fold_left apply ops (ts, ids)).2.
Proof.
  revert n ts ids. induction ops as [|o ops IH]; intros n ts ids Hlen Hok; [by exists n|]. cbn [fold_left length] in *.
  destruct (apply_ok n ts ids o ltac:(lia) Hok) as (n' & Hok' & ->). destruct (apply (ts, ids) o) as [ts' ids'] eqn:E.
  eapply IH; [|exact Hok']. destruct o; lia.
Qed.

(** An id names one task for the life of the store: however creations,
    updates and deletions are interleaved no id is handed out twice, and every
    task the store still holds is under the id it was created with. *)
Theorem task_ids_unique (ops : list op) (Hlen : Z.of_nat (length ops) < 2 ^ 63) :
  let st := fold_left apply ops (NewTaskStore, []) in
  NoDup st.2 /\ forall id t, Get id st.1 = Some t -> tk_ID t = id /\ id ∈ st.2.
Proof.
  intros st. destruct (apply_all_ok ops 0 NewTaskStore [] ltac:(done) NewTaskStore_ok) as (n & [_ Hi Hk]).
  fold st in Hi, Hk. split; [|exact Hk]. rewrite Hi. apply NoDup_fmap_2; [|apply NoDup_seq].
  intros i j E%itoa_inj. lia.
Qed.

Lemma task_ids_unique_witness :
  let st := fold_left apply [OCreate "a" "" ""; ODelete "1"; OCreate "b" "" ""; OUpdate "2" "completed" "" "" ""] (NewTaskStore, []) in
  NoDup st.2 /\ st.2 = ["1"; "2"] /\ tk_Status <$> Get "2" st.1 = Some "completed".
Proof.
  intros st. split; [|by vm_compute]. refine (proj1 (task_ids_unique [OCreate "a" "" ""; ODelete "1"; OCreate "b" "" ""; OUpdate "2" "completed" "" "" ""] _)).
  vm_compute. reflexivity.
Defined.
