(* ===== verification/Tools.v ===== *)
(** * The agent's tools ([service/agent/tools])

    The handlers the model calls.  Each is a function of the tool state and of
    what the outside answers: the runtime behind the capability interfaces, the
    operating system, the shell and the network answer by tick, so a theorem
    for every [World] holds for every pattern of answers.  Every such
    interaction is recorded, in order, as an [effect]. *)

From Stdlib Require Import ZArith Lia String Ascii.
From S2P Require Import Prelude GoStrings Errors GoPath Adoc Workspace TaskStore.
#[local] Open Scope Z_scope.

(** ** Arguments *)

Record AskUserOption := { ao_Label : string; ao_Description : string }.
Record AskUserQuestion := { aq_Question : string; aq_Header : string; aq_Options : list AskUserOption; aq_MultiSelect : bool }.
Definition AskUserArgs : Type := list AskUserQuestion.

(** The call a model makes, with its decoded arguments. *)
Inductive ToolCall :=
  | Bash (command : string)
  | FileRead (path : string) (offset limit : Z)
  | Glob (pattern path : string)
  | Grep (pattern path : string)
  | WebSearch (query : string)
  | WebFetch (url : string)
  | AskUser (args : AskUserArgs)
  | FileEdit (path old_string new_string : string)
  | FileWrite (path content : string)
  | NotebookEdit (path : string) (cell_index : Z) (content : string)
  | Skill (sname args : string)
  | TodoWrite (tasks : list string)
  | EnterPlanMode
  | ExitPlanMode
  | Agent (task : string)
  | SendMessage (to message : string)
  | TaskCreate (subject description : string)
  | TaskGet (id : string)
  | TaskUpdate (id status : string)
  | TaskList
  | TaskStop (id : string)
  | TaskOutput (id : string).

Inductive ToolResult :=
  | BashResult (output : string) (exit_code : Z)
  | OutputResult (output : string)
  | ListResult (l : list string)
  | FetchResult (output : string) (status_code : Z)
  | AnswersResult (answers : gmap string string)
  | SuccessResult (success : bool)
  | WriteResult (success : bool) (path : string)
  | TaskResult (subject status : string).

(** The tool's registered name. *)
Definition tool_name (c : ToolCall) : string :=
  match c with
  | Bash _ => "Bash" | FileRead _ _ _ => "FileRead" | Glob _ _ => "Glob" | Grep _ _ => "Grep" | WebSearch _ => "WebSearch"
  | WebFetch _ => "WebFetch" | AskUser _ => "AskUserQuestion" | FileEdit _ _ _ => "FileEdit" | FileWrite _ _ => "FileWrite"
  | NotebookEdit _ _ _ => "NotebookEdit" | Skill _ _ => "Skill" | TodoWrite _ => "TodoWrite"
  | EnterPlanMode => "EnterPlanMode" | ExitPlanMode => "ExitPlanMode" | Agent _ => "Agent" | SendMessage _ _ => "SendMessage"
  | TaskCreate _ _ => "TaskCreate" | TaskGet _ => "TaskGet" | TaskUpdate _ _ => "TaskUpdate" | TaskList => "TaskList"
  | TaskStop _ => "TaskStop" | TaskOutput _ => "TaskOutput"
  end.

(** ** Configuration *)

Inductive Perm := PermAllow | PermAsk | PermDeny | PermOther (text : string).
#[export] Instance Perm_eq_dec : EqDecision Perm.
Proof. solve_decision. Defined.

Definition DefaultPermission (toolName : string) : Perm :=
  if bool_decide (toolName ∈ ["FileRead"; "Glob"; "Grep"; "WebSearch"; "WebFetch"; "AskUserQuestion"; "TaskGet"; "TaskList"; "TaskOutput"])
  then PermAllow else PermAsk.

Record SkillDef := { sk_Name : string; sk_Content : string }.

(** The data of [ToolDeps]; its capabilities are the [World]. *)
Record ToolDeps := {
  td_Sandboxed : bool;
  td_Workspace : string;
  td_WorkingDirs : list string;
  td_Skills : list SkillDef;
  td_SearchURL : string;
  td_ThreadID : string;
  td_PlanDir : string;
  td_Permissions : gmap string Perm
}.

(** A decoded JSON value; [AOther] is a number, a boolean or null. *)
Inductive any := AString (s : string) | AArray (l : list any) | AObject (fields : list (string * any)) | AOther (text : string).

(** How a host command ended. *)
Inductive exited := ExitZero | ExitCode (code : Z) | ExitFailed (e : goerr).

Class World := {
  IsPlanMode : nat -> bool;
  SetMode : nat -> string -> option goerr;
  RequireApproval : nat -> string -> string -> string -> bool + goerr;
  FireHook : nat -> string -> string -> option goerr;
  AskUserVia : nat -> AskUserArgs -> gmap string string + goerr;
  SpawnAgent : nat -> string -> string -> string + goerr;
  SendToAgent : nat -> string -> string -> string + goerr;
  Getwd : string + goerr;
  os_ReadFile : nat -> string -> string + goerr;
  os_WriteFile : nat -> string -> string -> option goerr;
  os_MkdirAll : nat -> string -> option goerr;
  os_Glob : nat -> string -> list string;
  os_Files : nat -> gmap string string;
  os_open_error : string -> goerr;
  sh : nat -> string -> string -> string * exited;
  docker : nat -> string -> string -> string * option goerr;
  http_NewRequest : string -> option goerr;
  http_Get : nat -> string -> (Z * string) + goerr;
  search_Decode : string -> list (string * string * string) + goerr;
  json_args : ToolCall -> string;
  json_Unmarshal : string -> list (string * any) + goerr;
  json_MarshalIndent : list (string * any) -> string + goerr
}.

(** ** State *)

Inductive effect :=
  | PlanRead (plan : bool)
  | Hooked (event tool : string) (err : option goerr)
  | Asked (callID tool args : string) (answer : bool + goerr)
  | ReadFile (path : string)
  | WroteFile (path data : string)
  | MadeDir (path : string)
  | Globbed (pattern : string)
  | Compiled (path : string)
  | Ran (sandboxed : bool) (command dir : string)
  | Fetched (url : string)
  | Questioned (args : AskUserArgs)
  | ModeSet (mode : string)
  | PlanShown (content : string)
  | Spawned (task forkID : string)
  | SentTo (agentID message : string).

Record Tools := {
  tl_log : list effect;
  tl_tick : nat;
  tl_callSeq : Z;
  tl_Tasks : option TaskStore
}.

Definition M := GoM Tools.

Definition with_callSeq (n : Z) (s : Tools) : Tools :=
  {| tl_log := tl_log s; tl_tick := tl_tick s; tl_callSeq := n; tl_Tasks := tl_Tasks s |}.
Definition with_Tasks (ts : option TaskStore) (s : Tools) : Tools :=
  {| tl_log := tl_log s; tl_tick := tl_tick s; tl_callSeq := tl_callSeq s; tl_Tasks := ts |}.

(** One interaction: the answer at this tick, and its record. *)
Definition interact {A} (answer : nat -> A) (record : A -> effect) : M A := fun s =>
  let a := answer (tl_tick s) in
  ({| tl_log := tl_log s ++ [record a]; tl_tick := S (tl_tick s); tl_callSeq := tl_callSeq s; tl_Tasks := tl_Tasks s |}, Ok a).

Definition or_err {A} (r : A + goerr) : M A := match r with inl a => mret a | inr e => gom_err e end.
Definition no_err (r : option goerr) : M unit := match r with None => mret tt | Some e => gom_err e end.

(** [strings.Replace(s, old, new, 1)] and [strings.ReplaceAll] of a non-empty
    [old]. *)
Definition replace_first (s old new : string) : string :=
  match index s old with Some i => stake i s ^^ new ^^ sdrop (i + slen old) s | None => s end.
Fixpoint replace_all (fuel : nat) (s old new : string) : string :=
  match fuel, index s old with
  | S fuel, Some i => stake i s ^^ new ^^ replace_all fuel (sdrop (i + slen old) s) old new
  | _, _ => s
  end.

(** The ["%q"] verb on ASCII text without control characters. *)
Fixpoint escape_q (s : string) : string :=
  match s with
  | EmptyString => EmptyString
  | String c r => (if Ascii.eqb c "034" || Ascii.eqb c "\" then String "\" (String c "") else String c "") ^^ escape_q r
  end.
Definition sprintf_q (s : string) : string := quoted (escape_q s).

(** *** The destructive-command detector ([sandbox.DetectDestructive]) *)

(** A letter under case folding: [s] and [k] also fold to one letter each
    outside ASCII. *)
Definition fold_char (c : ascii) (s : string) : option string :=
  match s with
  | String a r => if Ascii.eqb (lower_byte a) c then Some r
                  else if Ascii.eqb c "s" then strip (String "197" (String "191" "")) s
                  else if Ascii.eqb c "k" then strip (String "226" (String "132" (String "170" ""))) s
                  else None
  | EmptyString => None
  end.
Fixpoint fold_lit (lit s : string) : option string :=
  match lit with
  | EmptyString => Some s
  | String c l => match fold_char c s with Some r => fold_lit l r | None => None end
  end.
Definition spaces (s : string) : string := (span re_space s).2.
Definition spaces1 (s : string) : option string := match s with String c _ => if re_space c then Some (spaces s) else None | EmptyString => None end.
Definition word_char (c : ascii) : bool := attr_char c && negb (Ascii.eqb c "-").
Definition word_end (s : string) : bool := match s with String c _ => negb (word_char c) | EmptyString => true end.

Definition is_rm (s : string) : bool :=
  let plain s := match fold_lit "rm" s with Some r => word_end r | None => false end in
  plain s || match fold_lit "sudo" s with Some r => match spaces1 r with Some r => plain r | None => false end | None => false end.
Definition is_git (sub : string -> bool) (s : string) : bool :=
  match fold_lit "git" s with Some r => match spaces1 r with Some r => sub r | None => false end | None => false end.
Definition is_push (s : string) : bool := match fold_lit "push" s with Some r => word_end r | None => false end.
Definition after_word (word : string) (sub : string -> bool) (s : string) : bool :=
  match fold_lit word s with Some r => match spaces1 r with Some r => sub r | None => false end | None => false end.
Definition is_reset_hard : string -> bool :=
  after_word "reset" (fun s => match fold_lit "--hard" s with Some r => word_end r | None => false end).
Definition is_checkout : string -> bool := after_word "checkout" (fun s => has_prefix s "--").

(** What follows a line start or a separator. *)
Definition destructive_at (s : string) : bool :=
  let s := spaces s in is_rm s || is_git is_push s || is_git is_reset_hard s || is_git is_checkout s.
Fixpoint destructive_in (line_start : bool) (s : string) : bool :=
  (line_start && destructive_at s) ||
  match s with
  | EmptyString => false
  | String c r => ((Ascii.eqb c ";" || Ascii.eqb c "&" || Ascii.eqb c "|") && destructive_at r) || destructive_in (Ascii.eqb c "010") r
  end.
Definition DetectDestructive (command : string) : bool := destructive_in true command.

Section Handlers.
Context `{!World, !MapRange string} (deps : ToolDeps).

(** ** The shared gates ([newBuildCtx]) *)

Definition baseDir : string :=
  if td_Sandboxed deps then td_Workspace deps else match td_WorkingDirs deps with d :: _ => d | [] => "" end.

Definition resolvePath (p : string) : M string :=
  if td_Sandboxed deps then gom_lift (ResolveWorkspacePath Getwd (td_Workspace deps) p) else mret p.

Definition ErrPlanModeWriteDisabled : goerr :=
  ENew "write tools are disabled in plan mode — use read tools to explore, then exit plan mode to execute".

Definition plan_exempt (path : string) : bool :=
  negb (String.eqb (td_PlanDir deps) "") && negb (String.eqb path "") && has_prefix (Clean path) (Clean (td_PlanDir deps)).

Definition planGuard (path : string) : M unit :=
  plan ← interact IsPlanMode PlanRead;
  if negb plan then mret tt else if plan_exempt path then mret tt else gom_err ErrPlanModeWriteDisabled.

Definition permission (toolName : string) : Perm := default (DefaultPermission toolName) (td_Permissions deps !! toolName).

Definition next_call : M Z := fun s => let n := wrap64 (tl_callSeq s + 1) in (with_callSeq n s, Ok n).

Definition requireApproval (toolName argsJSON : string) : M unit :=
  match permission toolName with
  | PermDeny => gom_err (ENew ("tool " ^^ toolName ^^ " is denied by permission policy"))
  | PermAsk =>
      n ← next_call;
      let callID := "call-" ^^ toolName ^^ "-" ^^ itoa n in
      answer ← interact (fun t => RequireApproval t callID toolName argsJSON) (Asked callID toolName argsJSON);
      match answer with
      | inr e => gom_err (EWrap "approval: " e "")
      | inl false => gom_err (ENew ("tool " ^^ toolName ^^ " denied by user"))
      | inl true => mret tt
      end
  | _ => mret tt
  end.

Definition fireHook (event toolName : string) : M (option goerr) := interact (fun t => FireHook t event toolName) (Hooked event toolName).

Definition execCmd (command dir : string) : M (string * Z) :=
  if td_Sandboxed deps then
    r ← interact (fun t => docker t (td_Workspace deps) command) (fun _ => Ran true command dir);
    mret (r.1, match r.2 with Some _ => 1 | None => 0 end)
  else
    r ← interact (fun t => sh t command dir) (fun _ => Ran false command dir);
    mret (r.1, match r.2 with ExitZero => 0 | ExitCode c => c | ExitFailed _ => 1 end).

Definition read_file (path : string) : M string := r ← interact (fun t => os_ReadFile t path) (fun _ => ReadFile path); or_err r.
Definition write_file (path data : string) : M unit := r ← interact (fun t => os_WriteFile t path data) (fun _ => WroteFile path data); no_err r.
Definition mkdir_all (path : string) : M (option goerr) := interact (fun t => os_MkdirAll t path) (fun _ => MadeDir path).

(** ** Bash *)

Definition blocked : string :=
  "destructive command blocked by safety net (rm / git push / git reset --hard / git checkout --). This is not recoverable from approval — reshape the command (e.g. use a more surgical git operation, or remove files via a safer tool).".

(** A refusal is the tool's output, not an error of the call. *)
Definition as_output (m : M unit) (k : M ToolResult) : M ToolResult := fun s =>
  match m s with
  | (s', Ok _) => k s'
  | (s', Err e) => (s', Ok (BashResult (err_text e) 1))
  | (s', Panic p) => (s', Panic p)
  end.

Definition bash (c : ToolCall) (command : string) : M ToolResult :=
  as_output (planGuard "") (
  as_output (e ← fireHook "PreToolUse" "Bash"; no_err e) (
  as_output (requireApproval "Bash" (json_args c)) (
  if negb (td_Sandboxed deps) && DetectDestructive command then mret (BashResult blocked 1)
  else
    r ← execCmd command baseDir;
    _ ← fireHook "PostToolUse" "Bash";
    mret (BashResult r.1 r.2)))).

(** ** Files *)

(** [lines\[start:end\]] *)
Definition slice_lines (start end_ : Z) (lines : list string) : outcome (list string) :=
  if (0 <=? start) && (start <=? end_) && (end_ <=? Z.of_nat (length lines))
  then Ok (take (Z.to_nat (end_ - start)) (drop (Z.to_nat start) lines))
  else Panic "slice bounds out of range".

(** The requested lines of a file. *)
Definition window (content : string) (offset limit : Z) : outcome string :=
  if (0 <? offset) || (0 <? limit) then
    let lines := split_byte "010" content in
    let n := Z.of_nat (length lines) in
    if n <=? offset then Ok ""
    else
      let end_ := if (0 <? limit) && (wrap64 (offset + limit) <? n) then wrap64 (offset + limit) else n in
      l ← slice_lines offset end_ lines;
      mret (join nl l)
  else Ok content.

Definition fileRead (path : string) (offset limit : Z) : M ToolResult :=
  hostPath ← resolvePath path;
  data ← read_file hostPath;
  out ← gom_lift (window data offset limit);
  mret (OutputResult out).

(** The gates of a write tool, in order. *)
Definition write_gates (c : ToolCall) (hooked : bool) (hostPath : string) : M unit :=
  _ ← planGuard hostPath;
  _ ← (if hooked then e ← fireHook "PreToolUse" (tool_name c); no_err e else mret tt);
  requireApproval (tool_name c) (json_args c).

Definition fileEdit (c : ToolCall) (path old new : string) : M ToolResult :=
  hostPath ← resolvePath path;
  _ ← write_gates c true hostPath;
  content ← read_file hostPath;
  if negb (contains content old) then gom_err (ENew "old_string not found in file")
  else
    _ ← write_file hostPath (replace_first content old new);
    mret (SuccessResult true).

Definition fileWrite (c : ToolCall) (path content : string) : M ToolResult :=
  hostPath ← resolvePath path;
  _ ← write_gates c true hostPath;
  e ← mkdir_all (Dir hostPath);
  _ ← no_err e;
  _ ← write_file hostPath content;
  mret (WriteResult true hostPath).

Definition field (k : string) (fields : list (string * any)) : option any := snd <$> find (fun kv => String.eqb kv.1 k) fields.
Fixpoint set_field (k : string) (v : any) (fields : list (string * any)) : list (string * any) :=
  match fields with
  | [] => [(k, v)]
  | kv :: rest => if String.eqb kv.1 k then (k, v) :: rest else kv :: set_field k v rest
  end.

(** Each line but the last keeps its newline. *)
Fixpoint source_lines (lines : list string) : list any :=
  match lines with
  | [] => []
  | [l] => [AString l]
  | l :: rest => AString (l ^^ nl) :: source_lines rest
  end.

(** The notebook with the source of one cell replaced. *)
Definition edit_notebook (nb : list (string * any)) (idx : Z) (content : string) : (list (string * any)) + goerr :=
  match field "cells" nb with
  | Some (AArray cells) =>
      let n := Z.of_nat (length cells) in
      if (idx <? 0) || (n <=? idx) then inr (ENew ("cell index " ^^ itoa idx ^^ " out of range (0-" ^^ itoa (n - 1) ^^ ")"))
      else
        match cells !! Z.to_nat idx with
        | Some (AObject cell) =>
            let cell := set_field "source" (AArray (source_lines (split_byte "010" content))) cell in
            inl (set_field "cells" (AArray (<[Z.to_nat idx := AObject cell]> cells)) nb)
        | _ => inr (ENew ("cell " ^^ itoa idx ^^ " is not a valid object"))
        end
  | _ => inr (ENew "notebook has no cells array")
  end.

Definition notebookEdit (c : ToolCall) (path : string) (idx : Z) (content : string) : M ToolResult :=
  hostPath ← resolvePath path;
  _ ← write_gates c false hostPath;
  data ← read_file hostPath;
  nb ← match json_Unmarshal data with inl nb => mret nb | inr e => gom_err (EWrap "invalid notebook JSON: " e "") end;
  nb' ← or_err (edit_notebook nb idx content);
  out ← or_err (json_MarshalIndent nb');
  _ ← write_file hostPath out;
  mret (SuccessResult true).

(** ** Search *)

Definition glob (pattern path : string) : M ToolResult :=
  dir ← resolvePath path;
  let dir := if String.eqb dir "" then baseDir else dir in
  let full := Join [dir; pattern] in
  matches ← interact (fun t => os_Glob t full) (fun _ => Globbed full);
  mret (ListResult matches).

Definition trim_prefix (s pre : string) : string := default s (strip pre s).

(** The directory [grep] is given. *)
Definition grep_dir (path : string) : outcome string :=
  if td_Sandboxed deps then
    let rel := trim_prefix (trim_prefix path ContainerWorkspace) "/" in
    if IsAbs path && negb (has_prefix path ContainerWorkspace) then Err (ENew ("path " ^^ sprintf_q path ^^ " outside workspace"))
    else Ok (if String.eqb rel "" then ContainerWorkspace else ContainerWorkspace ^^ "/" ^^ rel)
  else Ok (if String.eqb path "" then baseDir else path).

Definition grep_command (pattern dir : string) : string := "grep -rn " ^^ sprintf_q pattern ^^ " " ^^ dir.

Definition grep (pattern path : string) : M ToolResult :=
  dir ← gom_lift (grep_dir path);
  r ← execCmd (grep_command pattern dir) "";
  let lines := split_byte "010" (trim_space r.1) in
  mret (ListResult (if bool_decide (lines = [""]) then [] else lines)).

(** ** The network *)

(** The query is not escaped. *)
Definition search_url (query : string) : string := td_SearchURL deps ^^ "/search?format=json&q=" ^^ query.

Definition search_entry (r : string * string * string) : string :=
  let '(title, url, content) := r in
  title ^^ " — " ^^ url ^^ (if String.eqb content "" then "" else nl ^^ content).

Definition webSearch (query : string) : M ToolResult :=
  if String.eqb (td_SearchURL deps) "" then gom_err (ENew "web search not configured — set a search provider (e.g. SearXNG) in Settings")
  else
    _ ← no_err (http_NewRequest (search_url query));
    r ← interact (fun t => http_Get t (search_url query)) (fun _ => Fetched (search_url query));
    match r with
    | inr e => gom_err (EWrap "search request: " e "")
    | inl (status, body) =>
        if negb (status =? 200) then gom_err (ENew ("search returned " ^^ itoa status))
        else
          match search_Decode body with
          | inr e => gom_err (EWrap "parse search results: " e "")
          | inl results =>
              let l := search_entry <$> take 8 results in
              mret (ListResult (match l with [] => ["No results found for: " ^^ query] | _ => l end))
          end
    end.

Definition webFetch (url : string) : M ToolResult :=
  _ ← no_err (http_NewRequest url);
  r ← interact (fun t => http_Get t url) (fun _ => Fetched url);
  match r with inr e => gom_err e | inl (status, body) => mret (FetchResult body status) end.

(** ** The user, skills and modes *)

(** Apostrophes as double quotes. *)
Fixpoint dq (s : string) : string :=
  match s with EmptyString => EmptyString | String c r => String (if Ascii.eqb c "'" then "034"%char else c) (dq r) end.

Definition askUserExample : string := Eval vm_compute in
  "Valid example:" ^^ nl ^^ dq "{'questions':[" ^^ nl ^^
  dq "  {'header':'Coffee','question':'How do you take your coffee?','multiSelect':false,'options':[" ^^ nl ^^
  dq "    {'label':'Black','description':'No milk, no sugar.'}," ^^ nl ^^
  dq "    {'label':'With milk','description':'Splash of milk, no sugar.'}," ^^ nl ^^
  dq "    {'label':'Sweetened','description':'Sugar or syrup added.'}" ^^ nl ^^
  "  ]}" ^^ nl ^^ "]}".

Definition ask_error (text : string) : goerr := ENew ("AskUserQuestion: " ^^ text ^^ nl ^^ nl ^^ askUserExample).
Definition at_q (i : nat) (text : string) : goerr := ask_error ("questions[" ^^ itoa (Z.of_nat i) ^^ text).

Fixpoint check_options (i j : nat) (seenLabel : gset string) (opts : list AskUserOption) : option goerr :=
  match opts with
  | [] => None
  | o :: rest =>
      if String.eqb (ao_Label o) "" then Some (at_q i ("].options[" ^^ itoa (Z.of_nat j) ^^ "].label is required."))
      else if bool_decide (ao_Label o ∈ seenLabel)
      then Some (at_q i ("].options[" ^^ itoa (Z.of_nat j) ^^ "] duplicates a previous label."))
      else check_options i (S j) ({[ao_Label o]} ∪ seenLabel) rest
  end.

Fixpoint check_questions (i : nat) (seenQ : gset string) (qs : AskUserArgs) : option goerr :=
  match qs with
  | [] => None
  | q :: rest =>
      let n := length (aq_Options q) in
      if String.eqb (aq_Question q) "" then Some (at_q i "].question is required.")
      else if bool_decide (aq_Question q ∈ seenQ) then Some (at_q i "] duplicates a previous question text.")
      else if String.eqb (aq_Header q) "" then Some (at_q i (dq "].header is required (short chip label ≤20 chars, like 'Coffee' or 'Library')."))
      else if Nat.ltb n 2 || Nat.ltb 4 n then Some (at_q i ("] must have 2–4 options (got " ^^ itoa (Z.of_nat n) ^^ "). Each option needs a `label` and a `description`."))
      else
        match check_options i 0 ∅ (aq_Options q) with
        | Some e => Some e
        | None => check_questions (S i) ({[aq_Question q]} ∪ seenQ) rest
        end
  end.

Definition validateAskUserArgs (args : AskUserArgs) : option goerr :=
  let n := length args in
  if Nat.eqb n 0 then Some (ask_error "`questions` is required and must contain 1–4 items. Do NOT pass `null` or omit the field — always include a fully-populated array.")
  else if Nat.ltb 4 n then Some (ask_error ("too many questions (" ^^ itoa (Z.of_nat n) ^^ ") — cap is 4."))
  else check_questions 0 ∅ args.

Definition askUser (args : AskUserArgs) : M ToolResult :=
  _ ← no_err (validateAskUserArgs args);
  r ← interact (fun t => AskUserVia t args) (fun _ => Questioned args);
  answers ← or_err r;
  mret (AnswersResult answers).

Definition skill (c : ToolCall) (sname args : string) : M ToolResult :=
  _ ← requireApproval "Skill" (json_args c);
  match find (fun s => String.eqb (sk_Name s) sname) (td_Skills deps) with
  | Some s => mret (OutputResult (if String.eqb args "" then sk_Content s
                                  else replace_all (S (slen (sk_Content s))) (sk_Content s) "$ARGUMENTS" args))
  | None => gom_err (ENew ("skill '" ^^ sname ^^ "' not found"))
  end.

Definition plan_slug : string := "plan-" ^^ td_ThreadID deps.

Definition enterPlanMode (c : ToolCall) : M ToolResult :=
  _ ← requireApproval "EnterPlanMode" (json_args c);
  e ← interact (fun t => SetMode t "plan") (fun _ => ModeSet "plan");
  _ ← no_err e;
  _ ← (if String.eqb (td_PlanDir deps) "" then mret None else mkdir_all (Join [td_PlanDir deps; plan_slug]));
  mret (SuccessResult true).

(** What the compiler makes of the plan at this tick; no text on failure. *)
Definition compiled_plan (t : nat) (path : string) : string :=
  match Compile Getwd (os_Files t) os_open_error path with Some (_, Ok text) => text | _ => "" end.

Definition exitPlanMode (c : ToolCall) : M ToolResult :=
  _ ← requireApproval "ExitPlanMode" (json_args c);
  let path := Join [td_PlanDir deps; plan_slug; "plan.adoc"] in
  content ← (if String.eqb (td_PlanDir deps) "" then mret "" else interact (fun t => compiled_plan t path) (fun _ => Compiled path));
  _ ← (if String.eqb content "" then mret tt else interact (fun _ => tt) (fun _ => PlanShown content));
  mret (SuccessResult true).

(** ** Subagents *)

(** The store's counter names the fork; a nil store is dereferenced. *)
Definition agent (c : ToolCall) (task : string) : M ToolResult :=
  _ ← requireApproval "Agent" (json_args c);
  s ← gom_get;
  match tl_Tasks s with
  | None => gom_lift (Panic "nil pointer dereference")
  | Some ts =>
      let forkID := "fork-" ^^ td_ThreadID deps ^^ "-" ^^ itoa (ts_seq ts) in
      r ← interact (fun t => SpawnAgent t task forkID) (fun _ => Spawned task forkID);
      result ← or_err r;
      mret (OutputResult result)
  end.

Definition sendMessage (c : ToolCall) (to message : string) : M ToolResult :=
  _ ← requireApproval "SendMessage" (json_args c);
  r ← interact (fun t => SendToAgent t to message) (fun _ => SentTo to message);
  resp ← or_err r;
  mret (OutputResult resp).

(** ** Tasks *)

(** Over the store, when there is one. *)
Definition on_store {A} (missing : M A) (f : TaskStore -> TaskStore * outcome A) : M A := fun s =>
  match tl_Tasks s with
  | None => missing s
  | Some ts => let r := f ts in (with_Tasks (Some r.1) s, r.2)
  end.
Definition no_store {A} : M A := gom_err (ENew "task store not initialized").
Definition task_missing (id : string) : goerr := ENew ("task " ^^ id ^^ " not found").

Definition todoWrite (tasks : list string) : M ToolResult :=
  on_store (gom_err (ENew "task store not available"))
    (fun ts => (fold_left (fun ts desc => (Create desc desc "todo" ts).1) tasks ts, Ok (SuccessResult true))).

Definition taskCreate (subject description : string) : M ToolResult :=
  on_store no_store (fun ts => let r := Create subject description "" ts in (r.1, Ok (OutputResult (tk_ID r.2)))).

Definition taskGet (id : string) : M ToolResult :=
  on_store no_store (fun ts => (ts, match Get id ts with Some t => Ok (TaskResult (tk_Subject t) (tk_Status t)) | None => Err (task_missing id) end)).

Definition taskUpdate (id status : string) : M ToolResult :=
  on_store no_store (fun ts =>
    if String.eqb status "deleted" then (Delete id ts, Ok (SuccessResult true))
    else let r := Update id status "" "" "" ts in (r.1, if r.2 then Ok (SuccessResult true) else Err (task_missing id))).

Definition taskList : M ToolResult :=
  on_store (mret (ListResult [])) (fun ts =>
    (ts, Ok (ListResult ((fun t => "#" ^^ tk_ID t ^^ " [" ^^ tk_Status t ^^ "] " ^^ tk_Subject t) <$> List_ ts)))).

Definition taskStop (id : string) : M ToolResult :=
  on_store no_store (fun ts => let r := Update id "completed" "" "" "" ts in (r.1, Ok (SuccessResult r.2))).

Definition taskOutput (id : string) : M ToolResult :=
  on_store no_store (fun ts =>
    (ts, match Get id ts with
         | Some t => Ok (OutputResult ("[" ^^ tk_Status t ^^ "] " ^^ tk_Subject t ^^ ": " ^^ tk_Description t))
         | None => Err (task_missing id)
         end)).

(** ** The catalog *)

Definition call (c : ToolCall) : M ToolResult :=
  match c with
  | Bash command => bash c command
  | FileRead path offset limit => fileRead path offset limit
  | Glob pattern path => glob pattern path
  | Grep pattern path => grep pattern path
  | WebSearch query => webSearch query
  | WebFetch url => webFetch url
  | AskUser args => askUser args
  | FileEdit path old new => fileEdit c path old new
  | FileWrite path content => fileWrite c path content
  | NotebookEdit path idx content => notebookEdit c path idx content
  | Skill sname args => skill c sname args
  | TodoWrite tasks => todoWrite tasks
  | EnterPlanMode => enterPlanMode c
  | ExitPlanMode => exitPlanMode c
  | Agent task => agent c task
  | SendMessage to message => sendMessage c to message
  | TaskCreate subject description => taskCreate subject description
  | TaskGet id => taskGet id
  | TaskUpdate id status => taskUpdate id status
  | TaskList => taskList
  | TaskStop id => taskStop id
  | TaskOutput id => taskOutput id
  end.

End Handlers.
