(* ===== verification/ToolGates.v ===== *)
(** * What the tools may do

    Proofs about [Tools.v]: what a call appends to the record of effects, and
    from it that nothing is written or run before the gates of its tool have
    passed. *)

From Stdlib Require Import ZArith Lia String Ascii.
From S2P Require Import Prelude GoStrings Errors GoPath Adoc Workspace TaskStore Tools.
#[local] Open Scope Z_scope.

(** ** Effects of a computation *)

(** Whatever the state, [m] appends effects [d] and ends in [r] with [Q d r]. *)
Definition emits {A} (m : M A) (Q : list effect -> outcome A -> Prop) : Prop := forall s,
  exists d, tl_log (m s).1 = tl_log s ++ d /\ Q d (m s).2.

Section Rules.
Context `{!World}.

Lemma emits_lift {A} (o : outcome A) (Q : list effect -> outcome A -> Prop) : Q [] o -> emits (gom_lift o) Q.
Proof. intros HQ s. exists []. by rewrite app_nil_r. Qed.

Lemma emits_ret {A} (a : A) (Q : list effect -> outcome A -> Prop) : Q [] (Ok a) -> emits (mret a) Q.
Proof. apply (emits_lift (Ok a)). Qed.

Lemma emits_err {A} e (Q : list effect -> outcome A -> Prop) : Q [] (Err e) -> emits (gom_err e) Q.
Proof. apply (emits_lift (Err e)). Qed.

Lemma emits_interact {A} (answer : nat -> A) record (Q : list effect -> outcome A -> Prop) :
  (forall a, Q [record a] (Ok a)) -> emits (interact answer record) Q.
Proof. intros HQ s. by eexists. Qed.

(** What a bind does with the effects of its first half. *)
Definition then_ {A B} (f : A -> M B) (Q : list effect -> outcome B -> Prop) (d : list effect) (r : outcome A) : Prop :=
  match r with
  | Ok a => emits (f a) (fun d' => Q (d ++ d'))
  | Err e => Q d (Err e)
  | Panic p => Q d (Panic p)
  end.

Lemma emits_bind {A B} (m : M A) (f : A -> M B) Q : emits m (then_ f Q) -> emits (m ≫= f) Q.
Proof.
  intros Hm s. destruct (Hm s) as (d & Hl & Ht). unfold mbind, gom_bind. destruct (m s) as [s' [a|e|p]]; simpl in *; [|by exists d..].
  destruct (Ht s') as (d' & Hl' & HQ). exists (d ++ d'). by rewrite Hl', Hl, app_assoc.
Qed.

Lemma emits_as_output (m : M unit) k Q :
  emits m (fun d r => match r with
    | Ok _ => emits k (fun d' => Q (d ++ d')) | Err e => Q d (Ok (BashResult (err_text e) 1)) | Panic p => Q d (Panic p) end) ->
  emits (as_output m k) Q.
Proof.
  intros Hm s. destruct (Hm s) as (d & Hl & Ht). unfold as_output. destruct (m s) as [s' [a|e|p]]; simpl in *; [|by exists d..].
  destruct (Ht s') as (d' & Hl' & HQ). exists (d ++ d'). by rewrite Hl', Hl, app_assoc.
Qed.

Lemma emits_mono {A} (m : M A) (P Q : list effect -> outcome A -> Prop) : emits m P -> (forall d r, P d r -> Q d r) -> emits m Q.
Proof. intros Hm HQ s. destruct (Hm s) as (d & Hl & HP). exists d. auto. Qed.

Lemma emits_no_err e (Q : list effect -> outcome unit -> Prop) :
  (e = None -> Q [] (Ok tt)) -> (forall x, e = Some x -> Q [] (Err x)) -> emits (no_err e) Q.
Proof. intros H1 H2. destruct e; [apply emits_err|apply emits_ret]; auto. Qed.

Lemma emits_or_err {A} (r : A + goerr) (Q : list effect -> outcome A -> Prop) :
  (forall a, r = inl a -> Q [] (Ok a)) -> (forall e, r = inr e -> Q [] (Err e)) -> emits (or_err r) Q.
Proof. intros H1 H2. destruct r; [apply emits_ret|apply emits_err]; auto. Qed.

(** ** The gates *)

(** Effects on files and processes. *)
Definition changes (e : effect) : bool := match e with WroteFile _ _ | MadeDir _ | Ran _ _ _ => true | _ => false end.
Definition harmless (d : list effect) : Prop := Forall (fun e => changes e = false) d.

Context (deps : ToolDeps).

Definition planned (path : string) (d : list effect) : Prop := PlanRead false ∈ d \/ plan_exempt deps path = true.
Definition approved (tool args : string) (d : list effect) : Prop :=
  permission deps tool <> PermDeny /\ (permission deps tool = PermAsk -> exists id, Asked id tool args (inl true) ∈ d).

Lemma harmless_app d d' : harmless d -> harmless d' -> harmless (d ++ d').
Proof. intros ? ?. by apply Forall_app. Qed.

Lemma planGuard_emits path : emits (planGuard deps path) (fun d r => harmless d /\ (forall u, r = Ok u -> planned path d)).
Proof.
  unfold planGuard. apply emits_bind, emits_interact. intros [|]; simpl.
  - destruct (plan_exempt deps path) eqn:E; [apply emits_ret|apply emits_err]; (split; [by repeat constructor|]); [by right|done].
  - apply emits_ret. split; [by repeat constructor|]. intros u _. left. by left.
Qed.

Lemma next_call_emits : emits next_call (fun d r => d = [] /\ exists n, r = Ok n).
Proof. intros s. exists []. simpl. rewrite app_nil_r. eauto. Qed.

Lemma requireApproval_emits tool args : emits (requireApproval deps tool args) (fun d r =>
  harmless d /\ (forall u, r = Ok u -> approved tool args d)).
Proof.
  unfold requireApproval, approved. destruct (permission deps tool) eqn:E.
  - apply emits_ret. split; [constructor|]. done.
  - apply emits_bind. eapply emits_mono; [apply next_call_emits|]. intros d r (-> & n & ->). cbn [then_].
    apply emits_bind, emits_interact. intros [[|]|e]; simpl; [apply emits_ret|apply emits_err..]; (split; [by repeat constructor|]); [|done..].
    intros u _. split; [done|]. intros _. eexists. by left.
  - apply emits_err. by split; [constructor|].
  - apply emits_ret. by split; [constructor|].
Qed.

Lemma fireHook_emits event tool : emits (fireHook event tool) (fun d r => exists a, d = [Hooked event tool a] /\ r = Ok a).
Proof. apply emits_interact. eauto. Qed.

Lemma hook_emits event tool : emits (e ← fireHook event tool; no_err e) (fun d r =>
  harmless d /\ (forall u, r = Ok u -> Hooked event tool None ∈ d)).
Proof.
  apply emits_bind. eapply emits_mono; [apply fireHook_emits|]. intros d r (a & -> & ->). cbn [then_].
  apply emits_no_err; [intros ->|intros x ->]; (split; [by repeat constructor|]); [|done]. intros u _. by left.
Qed.

(** All the gates of a tool have passed, and nothing has changed yet. *)
Record cleared (c : ToolCall) (hooked : bool) (path : string) (d : list effect) : Prop := {
  cl_harmless : harmless d;
  cl_planned : planned path d;
  cl_hooked : hooked = true -> Hooked "PreToolUse" (tool_name c) None ∈ d;
  cl_approved : approved (tool_name c) (json_args c) d
}.

Lemma cleared_app c hooked path d1 d2 d3 :
  harmless d1 -> harmless d2 -> harmless d3 -> planned path d1 -> (hooked = true -> Hooked "PreToolUse" (tool_name c) None ∈ d2) ->
  approved (tool_name c) (json_args c) d3 -> cleared c hooked path (d1 ++ d2 ++ d3).
Proof.
  intros H1 H2 H3 Hp Hh [Ha1 Ha2]. split.
  - by repeat apply harmless_app.
  - destruct Hp; [left; set_solver|by right].
  - intros E. specialize (Hh E). set_solver.
  - split; [done|]. intros E. destruct (Ha2 E) as [id Hin]. exists id. set_solver.
Qed.

Lemma write_gates_emits c hooked path : emits (write_gates deps c hooked path) (fun d r =>
  harmless d /\ (forall u, r = Ok u -> cleared c hooked path d)).
Proof.
  unfold write_gates. apply emits_bind. eapply emits_mono; [apply planGuard_emits|]. intros d1 [[]|e|p] [H1 Hp]; [|by split..].
  apply emits_bind. eapply (emits_mono _ (fun d r => harmless d /\ (forall u, r = Ok u -> hooked = true -> Hooked "PreToolUse" (tool_name c) None ∈ d))).
  { destruct hooked; [|apply emits_ret; by split; [constructor|]].
    eapply emits_mono; [apply hook_emits|]. intros d r [Hd Hr]. split; [done|]. intros u Hu _. by apply (Hr u). }
  intros d2 [[]|e|p] [H2 Hh]; [|by split; [apply harmless_app|]..]. cbn [then_].
  eapply emits_mono; [apply requireApproval_emits|]. intros d3 r [H3 Ha]. split; [by repeat apply harmless_app|].
  intros u Hu. apply cleared_app; eauto.
Qed.

(** ** What a write tool does once cleared *)

(** The changes are those of the call: its file and the directory that holds it,
    or its command where it belongs. *)
Definition own_change (c : ToolCall) (path : string) (e : effect) : Prop :=
  match e with
  | WroteFile p _ => p = path /\ forall cmd, c <> Bash cmd
  | MadeDir p => p = Dir path /\ exists f content, c = FileWrite f content
  | Ran sandboxed cmd dir => c = Bash cmd /\ sandboxed = td_Sandboxed deps /\ dir = baseDir deps /\
                             (sandboxed = false -> DetectDestructive cmd = false)
  | _ => True
  end.

(** Refused with nothing changed, or cleared first. *)
Definition guarded (c : ToolCall) (hooked : bool) (resolved : string -> Prop) (d : list effect) : Prop :=
  harmless d \/ exists path gates acts, d = gates ++ acts /\ resolved path /\ cleared c hooked path gates /\ Forall (own_change c path) acts.

Lemma own_harmless c path d : harmless d -> Forall (own_change c path) d.
Proof. intros Hd. eapply Forall_impl; [exact Hd|]. by intros []. Qed.

(** After the gates every effect must be the call's own. *)
Lemma guarded_after {A} c hooked (resolved : string -> Prop) path (m : M A) :
  resolved path -> emits m (fun d _ => Forall (own_change c path) d) ->
  emits (write_gates deps c hooked path ≫= fun _ => m) (fun d _ => guarded c hooked resolved d).
Proof.
  intros Hr Hm. apply emits_bind. eapply emits_mono; [apply write_gates_emits|]. intros d [u|e|p] [Hd Hc]; [|by left..].
  cbn [then_]. eapply emits_mono; [exact Hm|]. intros d' r Hd'. right. exists path, d, d'. eauto.
Qed.

Lemma own_read {A} c path p (k : string -> M A) : (forall s, emits (k s) (fun d _ => Forall (own_change c path) d)) ->
  emits (read_file p ≫= k) (fun d _ => Forall (own_change c path) d).
Proof.
  intros Hk. apply emits_bind. unfold read_file. apply emits_bind, emits_interact. intros a. cbn [then_].
  apply emits_or_err; [|by intros; repeat constructor]. intros s _. cbn [then_].
  eapply emits_mono; [apply Hk|]. intros d r Hd. by constructor.
Qed.

Lemma own_write c path data (k : M ToolResult) : (forall cmd, c <> Bash cmd) -> emits k (fun d _ => Forall (own_change c path) d) ->
  emits (write_file path data ≫= fun _ => k) (fun d _ => Forall (own_change c path) d).
Proof.
  intros Hc Hk. apply emits_bind. unfold write_file. apply emits_bind, emits_interact. intros a. cbn [then_].
  apply emits_no_err; [intros _|by intros; repeat constructor]. cbn [then_].
  eapply emits_mono; [apply Hk|]. intros d r Hd. by constructor.
Qed.

Lemma own_pure {A} c path (o : outcome A) : emits (gom_lift o) (fun d _ => Forall (own_change c path) d).
Proof. by apply emits_lift. Qed.

(** The path of a file tool, as the guard resolves it. *)
Definition resolves_to (path0 path : string) : Prop :=
  if td_Sandboxed deps then ResolveWorkspacePath Getwd (td_Workspace deps) path0 = Ok path else path = path0.

Lemma resolvePath_emits {A} path0 (k : string -> M A) (Q : list effect -> outcome A -> Prop) :
  (forall e, Q [] (Err e)) -> (forall p, Q [] (Panic p)) -> (forall path, resolves_to path0 path -> emits (k path) Q) ->
  emits (resolvePath deps path0 ≫= k) Q.
Proof.
  intros He Hp Hk. apply emits_bind. unfold resolvePath. destruct (td_Sandboxed deps) eqn:Es.
  - apply emits_lift. destruct (ResolveWorkspacePath _ _ _) eqn:E; cbn [then_ app]; [|done..].
    apply Hk. unfold resolves_to. by rewrite Es.
  - apply emits_ret. cbn [then_ app]. apply Hk. unfold resolves_to. by rewrite Es.
Qed.

Lemma fileEdit_guarded c path old new : (forall cmd, c <> Bash cmd) ->
  emits (fileEdit deps c path old new) (fun d _ => guarded c true (resolves_to path) d).
Proof.
  intros Hc. unfold fileEdit. apply resolvePath_emits; [by left; constructor..|]. intros p Hp. apply guarded_after; [done|].
  apply own_read. intros content. destruct (negb _); [by apply (own_pure c p (Err _))|].
  apply own_write; [done|]. by apply (own_pure c p (Ok _)).
Qed.

Lemma fileWrite_guarded path content :
  emits (fileWrite deps (FileWrite path content) path content) (fun d _ => guarded (FileWrite path content) true (resolves_to path) d).
Proof.
  unfold fileWrite. apply resolvePath_emits; [by left; constructor..|]. intros p Hp. apply guarded_after; [done|].
  apply emits_bind. unfold mkdir_all. apply emits_interact. intros a. cbn [then_]. apply emits_bind.
  assert (own_change (FileWrite path content) p (MadeDir (Dir p))) as Hm by (split; [done|by eexists _, _]).
  apply emits_no_err; [intros _|by intros; apply Forall_singleton]. cbn [then_].
  eapply emits_mono; [apply (own_write (FileWrite path content) p content); [done|by apply (own_pure _ p (Ok _))]|].
  intros d r Hd. by constructor.
Qed.

Lemma notebookEdit_guarded c path idx content : (forall cmd, c <> Bash cmd) ->
  emits (notebookEdit deps c path idx content) (fun d _ => guarded c false (resolves_to path) d).
Proof.
  intros Hc. unfold notebookEdit. apply resolvePath_emits; [by left; constructor..|]. intros p Hp. apply guarded_after; [done|].
  apply own_read. intros data. destruct (json_Unmarshal data) as [nb|e]; [|by apply (own_pure c p (Err _))].
  change (mret nb ≫= ?k) with (k nb). cbv beta.
  destruct (edit_notebook nb idx content) as [nb'|e]; [|by apply (own_pure c p (Err _))]. change (or_err (inl nb') ≫= ?k) with (k nb'). cbv beta.
  destruct (json_MarshalIndent nb') as [out|e]; [|by apply (own_pure c p (Err _))]. change (or_err (inl out) ≫= ?k) with (k out). cbv beta.
  apply own_write; [done|]. by apply (own_pure c p (Ok _)).
Qed.

Lemma bash_guarded command :
  emits (bash deps (Bash command) command) (fun d _ => guarded (Bash command) true (fun path => path = "") d).
Proof.
  unfold bash. apply emits_as_output. eapply emits_mono; [apply planGuard_emits|]. intros d1 [[]|e|p] [H1 Hp]; [|by left..].
  apply emits_as_output. eapply emits_mono; [apply hook_emits|]. intros d2 [[]|e|p] [H2 Hh]; [|by left; apply harmless_app..].
  apply emits_as_output. eapply emits_mono; [apply requireApproval_emits|]. intros d3 [[]|e|p] [H3 Ha]; [|by left; repeat apply harmless_app..].
  assert (cleared (Bash command) true "" (d1 ++ d2 ++ d3)) as Hc by (apply cleared_app; eauto).
  destruct (negb (td_Sandboxed deps) && DetectDestructive command) eqn:Ed.
  { apply emits_ret. left. rewrite app_nil_r. by repeat apply harmless_app. }
  assert (own_change (Bash command) "" (Ran (td_Sandboxed deps) command (baseDir deps))) as Hran.
  { repeat split. intros E. rewrite E in Ed. done. }
  apply emits_bind. unfold execCmd.
  eapply (emits_mono _ (fun d r => d = [Ran (td_Sandboxed deps) command (baseDir deps)] /\ exists a, r = Ok a)).
  { destruct (td_Sandboxed deps); apply emits_bind, emits_interact; intros a; cbn [then_]; apply emits_ret; eauto. }
  intros d r [-> [a ->]]. cbn [then_]. apply emits_bind. eapply emits_mono; [apply fireHook_emits|]. intros d r (h & -> & ->).
  cbn [then_]. apply emits_ret. right. exists "", (d1 ++ d2 ++ d3), ([Ran (td_Sandboxed deps) command (baseDir deps)] ++ [Hooked "PostToolUse" "Bash" h]).
  split; [by rewrite app_nil_r, !app_assoc|]. split; [done|]. split; [done|]. apply Forall_cons. split; [exact Hran|by repeat constructor].
Qed.

End Rules.

(** ** The properties *)

(** The tools that write or run, whether a hook precedes them, and the path
    they name. *)
Definition write_tool (c : ToolCall) : option (bool * option string) :=
  match c with
  | Bash _ => Some (true, None)
  | FileEdit path _ _ => Some (true, Some path)
  | FileWrite path _ => Some (true, Some path)
  | NotebookEdit path _ _ => Some (false, Some path)
  | _ => None
  end.


(** *** Reading lines *)

Lemma slice_window (start end_ : Z) (lines : list string) : 0 <= start <= end_ -> end_ <= Z.of_nat (length lines) ->
  slice_lines start end_ lines = Ok (take (Z.to_nat (end_ - start)) (drop (Z.to_nat start) lines)).
Proof.
  intros H1 H2. unfold slice_lines. rewrite (proj2 (Z.leb_le 0 start)), (proj2 (Z.leb_le start end_)), (proj2 (Z.leb_le end_ _)) by lia. done.
Qed.

(** [FileRead] gives the lines asked for: with no offset and no limit the
    whole file, byte for byte; otherwise the lines from the offset on, at most
    the limit when there is one, none when the offset is past the end; within
    these bounds it does not panic. *)
Theorem window_spec (content : string) (offset limit : Z) (Ho : 0 <= offset) (Hl : 0 <= limit) (Hsum : offset + limit < 2 ^ 63) :
  window content offset limit =
    if (offset =? 0) && (limit =? 0) then Ok content
    else
      let rest := drop (Z.to_nat offset) (split_byte "010" content) in
      Ok (join nl (if limit =? 0 then rest else take (Z.to_nat limit) rest)).
Proof.
  unfold window. destruct (Z.eqb_spec offset 0) as [->|Hne], (Z.eqb_spec limit 0) as [->|Hnl]; try done;
    rewrite ?(proj2 (Z.ltb_lt 0 offset)), ?(proj2 (Z.ltb_lt 0 limit)) by lia; rewrite ?Z.ltb_irrefl, ?orb_true_r; cbn [orb andb];
    set (lines := split_byte "010" content); (match goal with |- context [Z.of_nat (length lines) <=? ?o] => destruct (Z.leb_spec (Z.of_nat (length lines)) o) as [Hn|Hn] end;
      [rewrite drop_ge, ?take_nil by lia; done|]); rewrite ?wrap64_id by (unfold in_int64; lia).
  - destruct (Z.ltb_spec (0 + limit) (Z.of_nat (length lines))); rewrite slice_window by lia; cbn [mbind outcome_bind].
    + by rewrite Z.add_0_l, Z.sub_0_r.
    + rewrite !take_ge by (rewrite length_drop; lia). done.
  - rewrite slice_window by lia. cbn [mbind outcome_bind]. rewrite take_ge by (rewrite length_drop; lia). done.
  - destruct (Z.ltb_spec (offset + limit) (Z.of_nat (length lines))); rewrite slice_window by lia; cbn [mbind outcome_bind].
    + by replace (offset + limit - offset) with limit by lia.
    + rewrite !take_ge by (rewrite length_drop; lia). done.
Qed.

Lemma window_spec_witness : window ("a" ^^ nl ^^ "b" ^^ nl ^^ "c") 1 1 = Ok "b".
Proof. rewrite (window_spec ("a" ^^ nl ^^ "b" ^^ nl ^^ "c") 1 1) by (vm_compute; by intros). vm_compute. reflexivity. Defined.

(** Outside them it does. *)
Example window_negative : window ("a" ^^ nl ^^ "b") (-1) 1 = Panic "slice bounds out of range".
Proof. vm_compute. reflexivity. Qed.
Example window_overflow : window ("a" ^^ nl ^^ "b") 1 (2 ^ 63 - 1) = Panic "slice bounds out of range".
Proof. vm_compute. reflexivity. Qed.

(** *** Tools without gates *)

Definition gate (e : effect) : bool := match e with PlanRead _ | Hooked _ _ _ | Asked _ _ _ _ => true | _ => false end.
Definition read_tool (c : ToolCall) : bool :=
  match c with FileRead _ _ _ | Glob _ _ | Grep _ _ | WebSearch _ | WebFetch _ => true | _ => false end.

Section Ungated.
Context `{!World, !MapRange string} (deps : ToolDeps).

Definition no_gate (d : list effect) : Prop := Forall (fun e => gate e = false) d.

Lemma no_gate_interact {A B} (answer : nat -> A) record (k : A -> M B) :
  (forall a, gate (record a) = false) -> (forall a, emits (k a) (fun d _ => no_gate d)) ->
  emits (interact answer record ≫= k) (fun d _ => no_gate d).
Proof.
  intros Hr Hk. apply emits_bind, emits_interact. intros a. cbn [then_]. eapply emits_mono; [apply Hk|]. intros d r Hd. by constructor.
Qed.

Lemma no_gate_lift {A B} (o : outcome A) (k : A -> M B) : (forall a, emits (k a) (fun d _ => no_gate d)) ->
  emits (gom_lift o ≫= k) (fun d _ => no_gate d).
Proof. intros Hk. apply emits_bind, emits_lift. destruct o; [apply Hk|constructor..]. Qed.

Lemma no_gate_pure {A} (o : outcome A) : emits (gom_lift o) (fun d _ => no_gate d).
Proof. apply emits_lift. constructor. Qed.

Lemma execCmd_no_gate {A} cmd dir (k : string * Z -> M A) : (forall a, emits (k a) (fun d _ => no_gate d)) ->
  emits (execCmd deps cmd dir ≫= k) (fun d _ => no_gate d).
Proof.
  intros Hk. apply emits_bind. unfold execCmd. destruct (td_Sandboxed deps); apply emits_bind, emits_interact; intros a; cbn [then_];
    apply emits_ret; cbn [then_]; (eapply emits_mono; [apply Hk|]; intros d r Hd; by constructor).
Qed.

Lemma resolve_no_gate {A} path (k : string -> M A) : (forall p, emits (k p) (fun d _ => no_gate d)) ->
  emits (resolvePath deps path ≫= k) (fun d _ => no_gate d).
Proof. intros Hk. apply resolvePath_emits; [by constructor..|]. auto. Qed.

(** A read tool neither checks plan mode, nor fires a hook, nor consults the
    configured permission: one set to deny has no effect on it. *)
Lemma read_tools_ungated c : read_tool c = true -> emits (call deps c) (fun d _ => no_gate d).
Proof.
  destruct c; try done; intros _; cbn [call].
  - unfold fileRead. apply resolve_no_gate. intros p. apply emits_bind. unfold read_file. apply emits_bind, emits_interact. intros [data|e]; cbn [then_].
    + apply emits_ret. cbn [then_]. eapply (emits_mono _ (fun d _ => no_gate d)); [|intros d r Hd; by constructor].
      apply no_gate_lift. intros out. apply (no_gate_pure (Ok _)).
    + apply emits_err. by repeat constructor.
  - unfold glob. apply resolve_no_gate. intros p. apply no_gate_interact; [done|]. intros l. apply (no_gate_pure (Ok _)).
  - unfold grep. apply no_gate_lift. intros dir. apply execCmd_no_gate. intros r. apply (no_gate_pure (Ok _)).
  - unfold webSearch. destruct (String.eqb _ ""); [apply (no_gate_pure (Err _))|].
    destruct (http_NewRequest _); [apply (no_gate_pure (Err _))|]. change (no_err None ≫= ?k) with (k tt). cbv beta.
    apply no_gate_interact; [done|]. intros [[status body]|e]; [|apply (no_gate_pure (Err _))].
    destruct (negb _); [apply (no_gate_pure (Err _))|]. destruct (search_Decode body); [apply (no_gate_pure (Ok _))|apply (no_gate_pure (Err _))].
  - unfold webFetch. destruct (http_NewRequest _); [apply (no_gate_pure (Err _))|]. change (no_err None ≫= ?k) with (k tt). cbv beta.
    apply no_gate_interact; [done|]. intros [[status body]|e]; [apply (no_gate_pure (Ok _))|apply (no_gate_pure (Err _))].
Qed.
End Ungated.

(** ** A sample runtime *)
Module SampleTools.
#[local] Open Scope string_scope.
#[local] Existing Instance canonical_range.

#[export] Instance world : World := {|
  IsPlanMode := fun _ => false;
  SetMode := fun _ _ => None;
  RequireApproval := fun _ _ _ _ => inl true;
  FireHook := fun _ _ _ => None;
  AskUserVia := fun _ _ => inl ∅;
  SpawnAgent := fun _ _ id => inl id;
  SendToAgent := fun _ _ _ => inl "";
  Getwd := inl "/srv";
  os_ReadFile := fun _ _ => inl "old text";
  os_WriteFile := fun _ _ _ => None;
  os_MkdirAll := fun _ _ => None;
  os_Glob := fun _ p => [p];
  os_Files := fun _ => ∅;
  os_open_error := fun p => ENew p;
  sh := fun _ _ _ => ("out", ExitZero);
  docker := fun _ _ _ => ("out", None);
  http_NewRequest := fun _ => None;
  http_Get := fun _ _ => inl (200, "");
  search_Decode := fun _ => inl [];
  json_args := fun _ => "{}";
  json_Unmarshal := fun _ => inl [];
  json_MarshalIndent := fun _ => inl "{}"
|}.

Definition deps (sandboxed : bool) : ToolDeps :=
  {| td_Sandboxed := sandboxed; td_Workspace := "/d/sandboxes/sbx-thread-1"; td_WorkingDirs := ["/home/u/p"]; td_Skills := [];
     td_SearchURL := ""; td_ThreadID := "thread-1"; td_PlanDir := "/d/plans"; td_Permissions := {[ "Grep" := PermDeny ]} |}.
Definition tools : Tools := {| tl_log := []; tl_tick := 0; tl_callSeq := 0; tl_Tasks := Some NewTaskStore |}.
Definition log (sandboxed : bool) (cs : list ToolCall) : list effect :=
  tl_log (fold_left (fun s c => (call (deps sandboxed) c s).1) cs tools).

Definition write : ToolCall := FileWrite "/workspace/notes/a.txt" "hi".

(** The pattern reaches the host's shell, on a tool the policy denies. *)
Example grep_runs_the_pattern :
  log false [Grep "$(touch x)" "."] = [Ran false ("grep -rn " ^^ quoted "$(touch x)" ^^ " .") ""].
Proof. vm_compute. reflexivity. Qed.

(** The pattern climbs out of the workspace its directory was confined to. *)
Example glob_escapes : log true [Glob "../../../etc/*" ""] = [Globbed "/etc/*"].
Proof. vm_compute. reflexivity. Qed.

(** No task is created between two spawns, so they name one fork. *)
Example forks_collide :
  log true [Agent "one"; Agent "two"] =
    [Asked "call-Agent-1" "Agent" "{}" (inl true); Spawned "one" "fork-thread-1-0";
     Asked "call-Agent-2" "Agent" "{}" (inl true); Spawned "two" "fork-thread-1-0"].
Proof. vm_compute. reflexivity. Qed.

(** The exemption is a prefix of the text, not of the path, and no path of a
    sandboxed thread has it. *)
Example plan_prefix : plan_exempt (deps false) "/d/plans-of-others/x" = true.
Proof. vm_compute. reflexivity. Qed.
Example plan_unwritable :
  ResolveWorkspacePath Getwd (td_Workspace (deps true)) "/d/plans/plan-thread-1/plan.adoc" =
    Err (escapes "/d/plans/plan-thread-1/plan.adoc" "/d/sandboxes/sbx-thread-1") /\
  plan_exempt (deps true) "/d/sandboxes/sbx-thread-1/plan.adoc" = false.
Proof. split; vm_compute; reflexivity. Qed.

Example destructive :
  DetectDestructive "cd x && sudo RM -rf y" = true /\ DetectDestructive "arm x; confirm" = false /\
  DetectDestructive ("ls" ^^ nl ^^ " git  push origin") = true /\ DetectDestructive "git checkout main" = false.
Proof. by vm_compute. Qed.
End SampleTools.

#[local] Existing Instance SampleTools.world.
#[local] Existing Instance canonical_range.
