(* ===== verification/Hooks.v ===== *)
(** * Lifecycle hooks ([service/hooks])

    The dispatcher over the configured hooks.  What a hook's command prints and
    how it ends is the [Shell]'s answer, by the position of the run. *)

From Stdlib Require Import ZArith Lia String Ascii.
From S2P Require Import Prelude GoStrings GoTime GoPath.
#[local] Open Scope Z_scope.

Record HookConfig := { hk_Event : string; hk_Command : string; hk_Match : string; hk_Timeout : string }.
Record Result := { hr_Blocked : bool; hr_Output : string }.

(** ** Glob patterns ([filepath.Match]), on bytes *)

(** One character of a class, after its escape. *)
Definition class_char (p : string) : option (ascii * string) :=
  match p with
  | EmptyString => None
  | String c r =>
      if Ascii.eqb c "-" || Ascii.eqb c "]" then None
      else if Ascii.eqb c "\" then match r with String c' r' => Some (c', r') | EmptyString => None end
      else Some (c, r)
  end.

(** The ranges of a class up to its bracket: whether one holds [x], and what
    follows; [None] is a malformed pattern. *)
Fixpoint class_ranges (fuel : nat) (nonempty found : bool) (x : ascii) (p : string) : option (bool * string) :=
  match fuel with
  | O => None
  | S fuel =>
      match p with
      | String "]" r => if nonempty then Some (found, r) else None
      | _ =>
          match class_char p with
          | None => None
          | Some (lo, r) =>
              match (match r with
                     | String "-" r' => class_char r'
                     | _ => Some (lo, r)
                     end) with
              | None => None
              | Some (hi, r) =>
                  let n := nat_of_ascii x in
                  class_ranges fuel true (found || (Nat.leb (nat_of_ascii lo) n && Nat.leb n (nat_of_ascii hi))) x r
              end
          end
      end
  end.

(** A pattern against a whole name; a malformed pattern matches nothing. *)
Fixpoint matches (fuel : nat) (pattern name : string) : bool :=
  match fuel with
  | O => false
  | S fuel =>
      match pattern with
      | EmptyString => String.eqb name ""
      | String c p =>
          if Ascii.eqb c "*" then
            matches fuel p name ||
            match name with String x n => negb (Ascii.eqb x slash) && matches fuel pattern n | EmptyString => false end
          else
            match name with
            | EmptyString => false
            | String x n =>
                if Ascii.eqb c "?" then negb (Ascii.eqb x slash) && matches fuel p n
                else if Ascii.eqb c "[" then
                  let '(negated, q) := match p with String "^" q => (true, q) | _ => (false, p) end in
                  match class_ranges (S (slen q)) false false x q with
                  | Some (found, rest) => negb (eqb found negated) && matches fuel rest n
                  | None => false
                  end
                else if Ascii.eqb c "\" then
                  match p with String c' p' => Ascii.eqb c' x && matches fuel p' n | EmptyString => false end
                else Ascii.eqb c x && matches fuel p n
            end
      end
  end.
Definition matchGlob (pattern name : string) : bool := matches (S (slen pattern + slen name)) pattern name.

(** ** The dispatcher *)

Section Dispatcher.

(** The combined output of the command under its deadline, and its error. *)
Context (run : nat -> string -> Z -> string * option goerr).

(** The default is ten seconds. *)
Definition hook_timeout (h : HookConfig) : Z :=
  if String.eqb (hk_Timeout h) "" then 10 * 1000000000 else default (10 * 1000000000) (ParseDuration (hk_Timeout h)).

Definition selected (event toolName : string) (h : HookConfig) : bool :=
  String.eqb (hk_Event h) event && (String.eqb (hk_Match h) "" || matchGlob (hk_Match h) toolName).

Definition hook_error (event : string) (h : HookConfig) (e : goerr) (output : string) : goerr :=
  EWrap ("hook " ^^ event ^^ " (" ^^ hk_Command h ^^ ") failed: ") e (nl ^^ "Output: " ^^ output).

(** The result, the error, and how many commands were run; [n] of them
    before. *)
Fixpoint Fire (hooks : list HookConfig) (event toolName : string) (n : nat) : Result * option goerr * nat :=
  match hooks with
  | [] => ({| hr_Blocked := false; hr_Output := "" |}, None, n)
  | h :: rest =>
      if negb (selected event toolName h) then Fire rest event toolName n
      else
        let '(output, err) := run n (hk_Command h) (hook_timeout h) in
        match err with
        | Some e => ({| hr_Blocked := true; hr_Output := output |}, Some (hook_error event h e output), S n)
        | None =>
            let outStr := trim_space output in
            if has_prefix outStr "DENY" then ({| hr_Blocked := true; hr_Output := outStr |}, None, S n)
            else Fire rest event toolName (S n)
        end
  end.

(** [toolAgent.FireHook]: a block is an error. *)
Definition FireHook (hooks : option (list HookConfig)) (event toolName : string) : option goerr :=
  match hooks with
  | None => None
  | Some hooks =>
      match Fire hooks event toolName 0 with
      | (_, Some e, _) => Some e
      | (r, None, _) => if hr_Blocked r then Some (ENew ("hook blocked " ^^ event ^^ " on " ^^ toolName ^^ ": " ^^ hr_Output r)) else None
      end
  end.

(** The [i]-th selected hook, run in its turn, succeeds and does not deny. *)
Definition passes (n : nat) (h : HookConfig) : Prop :=
  let r := run n (hk_Command h) (hook_timeout h) in r.2 = None /\ has_prefix (trim_space r.1) "DENY" = false.

(** Either all selected hooks passed, or the scan stopped at the first that did not. *)
Definition scanned (n : nat) (sel : list HookConfig) (blocked : bool) (n' : nat) : Prop :=
  if blocked
  then exists i h, sel !! i = Some h /\ ~ passes (n + i) h /\ n' = (n + S i)%nat /\ forall j h', sel !! j = Some h' -> (j < i)%nat -> passes (n + j) h'
  else n' = (n + length sel)%nat /\ forall i h, sel !! i = Some h -> passes (n + i) h.

Lemma scanned_cons n h sel blocked n' : passes n h -> scanned (S n) sel blocked n' -> scanned n (h :: sel) blocked n'.
Proof.
  intros Hh. unfold scanned. destruct blocked.
  - intros (i & x & Hx & Hno & -> & Hall). exists (S i), x. split; [done|]. rewrite Nat.add_succ_r. split; [done|]. split; [lia|].
    intros [|j] y Hy Hlt; [injection Hy as <-; by rewrite Nat.add_0_r|]. rewrite Nat.add_succ_r. apply Hall; [done|lia].
  - intros [-> Hall]. split; [simpl; lia|]. intros [|i] x Hx; [injection Hx as <-; by rewrite Nat.add_0_r|].
    rewrite Nat.add_succ_r. by apply Hall.
Qed.

Lemma scanned_stop n h sel : ~ passes n h -> scanned n (h :: sel) true (S n).
Proof. intros Hno. exists 0%nat, h. rewrite Nat.add_0_r, Nat.add_1_r. split; [done|]. split; [done|]. split; [done|]. intros j x _ Hj. lia. Qed.

Lemma Fire_scanned hooks event toolName n :
  let '(r, err, n') := Fire hooks event toolName n in
  scanned n (List.filter (selected event toolName) hooks) (hr_Blocked r) n' /\ (hr_Blocked r = false -> err = None).
Proof.
  revert n. induction hooks as [|h rest IH]; intros n; cbn [Fire List.filter].
  { split; [|done]. split; [simpl; lia|done]. }
  destruct (selected event toolName h); cbn [negb]; [|apply IH].
  destruct (run n (hk_Command h) (hook_timeout h)) as [output [e|]] eqn:Er.
  { split; [|done]. apply scanned_stop. intros [Hn _]. by rewrite Er in Hn. }
  destruct (has_prefix (trim_space output) "DENY") eqn:Ed.
  { split; [|done]. apply scanned_stop. intros [_ Hd]. rewrite Er in Hd. simpl in Hd. congruence. }
  specialize (IH (S n)). destruct (Fire rest event toolName (S n)) as [[r err] n']. destruct IH as [Hs He]. split; [|done].
  apply scanned_cons; [|done]. unfold passes. by rewrite Er.
Qed.

End Dispatcher.

(** C31: Hooks fail closed: a tool call goes on exactly when every hook
    configured for the event and the tool, run in order, succeeds with an
    output that does not deny; the first that fails, times out or denies
    blocks the call, and none after it is run. *)
Theorem FireHook_fail_closed (run : nat -> string -> Z -> string * option goerr) (hooks : list HookConfig) (event toolName : string) :
  let sel := List.filter (selected event toolName) hooks in
  let ran := (Fire run hooks event toolName 0).2 in
  (FireHook run (Some hooks) event toolName = None <-> forall i h, sel !! i = Some h -> passes run i h) /\
  (forall i h, sel !! i = Some h -> ~ passes run i h -> (ran <= S i)%nat) /\
  (FireHook run (Some hooks) event toolName = None -> ran = length sel).
Proof.
  intros sel ran. pose proof (Fire_scanned run hooks event toolName 0) as Ho. fold sel in Ho.
  unfold ran, FireHook. destruct (Fire run hooks event toolName 0) as [[r err] n']. cbn [snd]. destruct Ho as [Hs He].
  unfold scanned in Hs. destruct (hr_Blocked r) eqn:Eb.
  - destruct Hs as (i & h & Hi & Hno & -> & Hall). cbn [Nat.add] in *. split; [|split].
    + split; [by destruct err|]. intros Hp. by destruct (Hno (Hp i h Hi)).
    + intros j x Hj Hx. destruct (decide (j < i)%nat); [|lia]. by destruct (Hx (Hall j x Hj ltac:(lia))).
    + by destruct err.
  - destruct Hs as [-> Hall]. rewrite (He eq_refl). split; [done|]. split; [|done]. intros i h Hi Hno. by destruct (Hno (Hall i h Hi)).
Qed.

(** ** Sample hooks *)
Module SampleHooks.
Definition hook (event command pattern : string) : HookConfig :=
  {| hk_Event := event; hk_Command := command; hk_Match := pattern; hk_Timeout := "" |}.
Definition run (n : nat) (command : string) (timeout : Z) : string * option goerr :=
  if String.eqb command "deny" then (" DENY no" ^^ nl, None) else if String.eqb command "fail" then ("", Some (ENew "exit status 1")) else ("ok", None).

Example globs :
  matchGlob "File*" "FileEdit" = true /\ matchGlob "[A-F]ash" "Bash" = true /\ matchGlob "[^A-F]ash" "Bash" = false /\
  matchGlob "B?sh" "Bash" = true /\ matchGlob "[" "Bash" = false /\ matchGlob "*" "a/b" = false.
Proof. by vm_compute. Qed.
Example denied : FireHook run (Some [hook "PostToolUse" "fail" ""; hook "PreToolUse" "ok" "Bash"; hook "PreToolUse" "deny" "*"]) "PreToolUse" "Bash" =
  Some (ENew "hook blocked PreToolUse on Bash: DENY no").
Proof. vm_compute. reflexivity. Qed.
Example unmatched : FireHook run (Some [hook "PreToolUse" "deny" "File*"]) "PreToolUse" "Bash" = None.
Proof. vm_compute. reflexivity. Qed.
End SampleHooks.
