(* ===== verification/Attachments.v ===== *)
(** * Attachments ([service/attachments])

    Upload and download of a thread's files: the sanitised name, the path it is
    stored under, and the checks a download passes before a file is opened.
    The files are a map from cleaned absolute paths; an operation on them may be
    refused, by tick.  Content sniffing and UTF-8 repair are the standard
    library's, as parameters. *)

From Stdlib Require Import ZArith Lia String Ascii.
From S2P Require Import Prelude GoStrings Errors GoPath Workspace.
#[local] Open Scope Z_scope.

Definition MaxAttachmentBytes : Z := 100 * 1024 * 1024.
Definition InlinedTextCap : Z := 64 * 1024.

Record Attachment := {
  at_ID : string;
  at_Filename : string;
  at_MimeType : string;
  at_SizeBytes : Z;
  at_Path : string;
  at_InlinedText : option string
}.

(** [fileIDRe] *)
Definition hex_char (c : ascii) : bool :=
  let n := nat_of_ascii c in (Nat.leb 48 n && Nat.leb n 57) || (Nat.leb 97 n && Nat.leb n 102).
Fixpoint hex (s : string) : bool := match s with EmptyString => true | String c r => hex_char c && hex r end.
Definition fileIDRe (id : string) : bool :=
  let l := split_byte "-" id in
  bool_decide ((slen <$> l) = [8; 4; 4; 4; 12]%nat) && forallb hex l.

(** ** Names *)

(** [strings.ReplaceAll(s, string(c), "")] *)
Fixpoint remove_byte (c : ascii) (s : string) : string :=
  match s with EmptyString => EmptyString | String a r => if Ascii.eqb a c then remove_byte c r else String a (remove_byte c r) end.
Fixpoint strip_dots (s : string) : string :=
  match s with String a r => if Ascii.eqb a "." then strip_dots r else s | EmptyString => EmptyString end.
Fixpoint before_dot (s : string) : string :=
  match s with String a r => if Ascii.eqb a "." then EmptyString else String a (before_dot r) | EmptyString => EmptyString end.

(** The reserved device names; compared in lower case here. *)
Definition reserved : list string :=
  ["con"; "prn"; "aux"; "nul"; "com1"; "com2"; "com3"; "com4"; "com5"; "com6"; "com7"; "com8"; "com9";
   "lpt1"; "lpt2"; "lpt3"; "lpt4"; "lpt5"; "lpt6"; "lpt7"; "lpt8"; "lpt9"].

Definition cap_length (name : string) : string :=
  if Nat.ltb 255 (slen name) then
    let ext := Ext name in
    let keep := if Z.of_nat 255 - Z.of_nat (slen ext) <? 1 then 1%nat else (255 - slen ext)%nat in
    stake keep name ^^ ext
  else name.

Definition sanitizeFilename (name : string) : string :=
  let name := remove_byte "000" (remove_byte slash (remove_byte "\" (Base name))) in
  let name := strip_dots (trim_space name) in
  if String.eqb name "" then ""
  else
    let name := if bool_decide (to_lower (before_dot name) ∈ reserved) then "_" ^^ name else name in
    cap_length name.

(** ** Content *)

(** At most [n] bytes: [io.LimitReader], and a read into a buffer of [n]. *)
Fixpoint limit_reader (n : Z) (s : string) : string :=
  match s with EmptyString => EmptyString | String c r => if n <=? 0 then EmptyString else String c (limit_reader (n - 1) r) end.

Lemma limit_reader_whole n s : Z.of_nat (slen (limit_reader n s)) < n -> limit_reader n s = s.
Proof.
  revert n. induction s as [|c s IH]; intros n; [done|]. cbn [limit_reader]. destruct (Z.leb_spec n 0); [cbn; lia|].
  intros Hl. f_equal. apply IH. unfold slen in *. cbn [String.length] in Hl. lia.
Qed.

Class Sniffing := {
  DetectContentType : string -> string;
  ParseMediaType : string -> string;
  ToValidUTF8 : string -> string
}.

(** The MIME type and the excerpt of a text; [None] is a file that cannot be
    opened. *)
Definition sniffAndExtract `{!Sniffing} (filePath : string) (content : option string) : string * string :=
  match content with
  | None => ("", "")
  | Some data =>
      let mimeType := DetectContentType (stake 512 data) in
      let mediaType := let m := ParseMediaType mimeType in if String.eqb m "" then mimeType else m in
      let isText := has_prefix mediaType "text/" ||
        bool_decide (mediaType ∈ ["application/json"; "application/xml"; "application/javascript"; "application/x-yaml"]) in
      let ext := to_lower (Ext filePath) in
      let '(mimeType, isText) :=
        if bool_decide (ext ∈ [".md"; ".markdown"]) then ("text/markdown; charset=utf-8", true)
        else if bool_decide (ext ∈ [".yaml"; ".yml"]) then ("application/x-yaml", true)
        else if String.eqb ext ".json" then ("application/json", true)
        else if String.eqb ext ".csv" then ("text/csv; charset=utf-8", true)
        else (mimeType, isText) in
      if negb isText then (mimeType, "") else (mimeType, ToValidUTF8 (limit_reader InlinedTextCap data))
  end.

(** ** State *)

Class Disk := {
  uuid_NewString : nat -> string;
  disk_fault : nat -> option goerr;
  getwd : string + goerr
}.

Record Store := { st_files : gmap string string; st_tick : nat }.
Definition M := GoM Store.

Definition tick : M nat := fun s => ({| st_files := st_files s; st_tick := S (st_tick s) |}, Ok (st_tick s)).
Definition modify_files (f : gmap string string -> gmap string string) : M unit := fun s =>
  ({| st_files := f (st_files s); st_tick := st_tick s |}, Ok tt).

Inductive Response (A : Type) := HttpError (code : Z) (text : string) | Reply (a : A).
Arguments HttpError {A} code text.
Arguments Reply {A} a.

Section Manager.
Context `{!Sniffing, !Disk} (dataDir : string).

(** One operation of the disk that may be refused. *)
Definition disk : M (option goerr) := n ← tick; mret (disk_fault n).
Definition disk_ok : M unit := e ← disk; match e with None => mret tt | Some e => gom_err e end.

(** ** Upload *)

Record FileHeader := { fh_Filename : string; fh_Size : Z; fh_Content : string }.

(** The copy into an open file, cut one byte past the ceiling. *)
Definition copy_file (dstPath content : string) : M Z :=
  let written := limit_reader (MaxAttachmentBytes + 1) content in
  _ ← modify_files <[dstPath := written]>;
  e ← disk;
  match e with
  | Some e => _ ← modify_files (delete dstPath); gom_err e
  | None =>
      if MaxAttachmentBytes <? Z.of_nat (slen written)
      then _ ← modify_files (delete dstPath); gom_err (ENew "file exceeded size ceiling")
      else mret (Z.of_nat (slen written))
  end.

Definition saveHeader (fh : FileHeader) (attachRoot : string) : M Attachment :=
  n ← tick;
  let id := uuid_NewString n in
  let clean := sanitizeFilename (fh_Filename fh) in
  let clean := if String.eqb clean "" then "untitled" else clean in
  let subdir := Join [attachRoot; id] in
  _ ← disk_ok;
  let dstPath := Join [subdir; clean] in
  _ ← disk_ok;
  _ ← disk_ok;
  written ← copy_file dstPath (fh_Content fh);
  s ← gom_get;
  let '(mimeType, inlined) := sniffAndExtract dstPath (st_files s !! dstPath) in
  mret {| at_ID := id; at_Filename := clean; at_MimeType := mimeType; at_SizeBytes := written;
          at_Path := Join [ContainerWorkspace; "_attachments"; id; clean];
          at_InlinedText := if String.eqb inlined "" then None else Some inlined |}.

Fixpoint save_all (files : list FileHeader) (attachRoot : string) (out : list Attachment) : GoM Store (Response (list Attachment)) := fun s =>
  match files with
  | [] => (s, Ok (Reply out))
  | fh :: rest =>
      if MaxAttachmentBytes <? fh_Size fh
      then (s, Ok (HttpError 413 ("file too large: " ^^ fh_Filename fh ^^ " (" ^^ itoa (fh_Size fh) ^^ " bytes, cap " ^^ itoa MaxAttachmentBytes ^^ ")")))
      else
        match saveHeader fh attachRoot s with
        | (s', Ok meta) => save_all rest attachRoot (out ++ [meta]) s'
        | (s', Err e) => (s', Ok (HttpError 500 ("save " ^^ fh_Filename fh ^^ ": " ^^ err_text e)))
        | (s', Panic p) => (s', Panic p)
        end
  end.

(** [strings.Trim(s, "/")] *)
Fixpoint trim_left_slash (s : string) : string :=
  match s with String a r => if Ascii.eqb a slash then trim_left_slash r else s | EmptyString => EmptyString end.
Fixpoint trim_right_slash (s : string) : string :=
  match s with
  | EmptyString => EmptyString
  | String a r => let r' := trim_right_slash r in if String.eqb r' "" && Ascii.eqb a slash then EmptyString else String a r'
  end.

Definition prefix : string := "/api/attachments/".
Definition trim_route (path : string) : string := if has_prefix path prefix then sdrop (slen prefix) path else path.

(** [form] is the parsed multipart form. *)
Definition HandleUpload (method path : string) (form : list FileHeader + goerr) : GoM Store (Response (list Attachment)) := fun s =>
  if negb (String.eqb method "POST") then (s, Ok (HttpError 405 "method not allowed"))
  else
    let threadID := trim_right_slash (trim_left_slash (trim_route path)) in
    match ValidateThreadID threadID with
    | Some _ => (s, Ok (HttpError 400 "invalid thread id"))
    | None =>
        match form with
        | inr e => (s, Ok (HttpError 400 ("parse multipart: " ^^ err_text e)))
        | inl [] => (s, Ok (HttpError 400 "no files provided"))
        | inl files =>
            match AttachmentsDir getwd dataDir threadID with
            | Ok attachRoot =>
                match disk_ok s with
                | (s', Ok _) => save_all files attachRoot [] s'
                | (s', Err e) => (s', Ok (HttpError 500 ("mkdir: " ^^ err_text e)))
                | (s', Panic p) => (s', Panic p)
                end
            | Err _ => (s, Ok (HttpError 400 "invalid thread id"))
            | Panic p => (s, Panic p)
            end
        end
    end.

(** ** Download *)

(** What is sent: the type, the name and the bytes, and where they came from. *)
Record Sent := { dl_Path : string; dl_MimeType : string; dl_Filename : string; dl_Content : string }.

(** [strings.SplitN(rest, "/", 3)] *)
Definition split3 (s : string) : list string :=
  match split_byte slash s with a :: b :: c :: rest => [a; b; join "/" (c :: rest)] | l => l end.

Definition serve (abs clean data : string) : Response Sent :=
  let mimeType := (sniffAndExtract abs (Some data)).1 in
  Reply {| dl_Path := abs; dl_MimeType := if String.eqb mimeType "" then "application/octet-stream" else mimeType;
           dl_Filename := clean; dl_Content := data |}.

(** Opened, then its size asked for. *)
Definition open_attachment (abs clean : string) : GoM Store (Response Sent) :=
  e ← disk;
  s ← gom_get;
  match e, st_files s !! abs with
  | Some _, _ => mret (HttpError 500 "read failed")
  | None, None => mret (HttpError 404 "not found")
  | None, Some data =>
      e ← disk;
      match e with
      | Some _ => mret (HttpError 500 "stat failed")
      | None => mret (serve abs clean data)
      end
  end.

Definition HandleDownload (method path : string) : GoM Store (Response Sent) := fun s =>
  if negb (String.eqb method "GET") then (s, Ok (HttpError 405 "method not allowed"))
  else
    match split3 (trim_route path) with
    | [threadID; fileID; filename] =>
        match ValidateThreadID threadID with
        | Some _ => (s, Ok (HttpError 400 "invalid thread id"))
        | None =>
            if negb (fileIDRe fileID) then (s, Ok (HttpError 400 "invalid file id"))
            else
              let clean := sanitizeFilename filename in
              if String.eqb clean "" || negb (String.eqb clean filename) then (s, Ok (HttpError 400 "invalid filename"))
              else
                match AttachmentsDir getwd dataDir threadID with
                | Ok attachRoot =>
                    match Abs getwd (Join [attachRoot; fileID; clean]), Abs getwd attachRoot with
                    | Ok abs, Ok root =>
                        if negb (has_prefix abs (root ^^ "/")) then (s, Ok (HttpError 400 "out of bounds"))
                        else open_attachment abs clean s
                    | Err _, _ => (s, Ok (HttpError 400 "bad path"))
                    | _, _ => (s, Ok (HttpError 400 "out of bounds"))
                    end
                | Err _ => (s, Ok (HttpError 400 "invalid thread id"))
                | Panic p => (s, Panic p)
                end
        end
    | _ => (s, Ok (HttpError 400 "bad path"))
    end.

(** ** Sanitised names *)

Lemma no_byte_substring c i n s : no_byte c s = true -> no_byte c (String.substring i n s) = true.
Proof.
  revert i n. induction s as [|a s IH]; intros [|i] [|n]; cbn [String.substring no_byte]; try done.
  - intros [Ha Hs]%andb_true_iff. rewrite Ha. cbn. by apply IH.
  - intros [_ Hs]%andb_true_iff. by apply IH.
  - intros [_ Hs]%andb_true_iff. by apply IH.
Qed.

Lemma no_byte_remove c s : no_byte c (remove_byte c s) = true.
Proof. induction s as [|a s IH]; [done|]. simpl. destruct (Ascii.eqb a c) eqn:E; [done|]. simpl. by rewrite E, IH. Qed.

Lemma no_byte_remove_other c c' s : no_byte c s = true -> no_byte c (remove_byte c' s) = true.
Proof.
  induction s as [|a s IH]; [done|]. simpl. intros [Ha Hs]%andb_true_iff. destruct (Ascii.eqb a c'); [by apply IH|].
  simpl. by rewrite Ha, IH.
Qed.

Lemma no_byte_trim_left c fuel s : no_byte c s = true -> no_byte c (trim_left fuel s) = true.
Proof.
  revert s. induction fuel as [|fuel IH]; intros s Hs; [done|]. simpl. destruct (lead_space s); [done|]. by apply IH, no_byte_substring.
Qed.

Lemma no_byte_trim_right c fuel s : no_byte c s = true -> no_byte c (trim_right fuel s) = true.
Proof.
  revert s. induction fuel as [|fuel IH]; intros s Hs; [done|]. simpl. destruct (trail_space s); [done|]. by apply IH, no_byte_substring.
Qed.

Lemma no_byte_strip_dots c s : no_byte c s = true -> no_byte c (strip_dots s) = true.
Proof.
  induction s as [|a s IH]; [done|]. cbn [no_byte strip_dots]. intros [Ha Hs]%andb_true_iff. destruct (Ascii.eqb a "."); [by apply IH|].
  simpl. by rewrite Ha, Hs.
Qed.

Lemma strip_dots_head s : strip_dots s = "" \/ exists a r, strip_dots s = String a r /\ a <> "."%char.
Proof.
  induction s as [|a s IH]; [by left|]. cbn [strip_dots]. destruct (Ascii.eqb_spec a "."); [done|]. right. by exists a, s.
Qed.

(** A name whose first byte is not a dot, free of [c]. *)
Definition undotted (s : string) : Prop := exists a r, s = String a r /\ a <> "."%char.

Lemma cap_length_ok c s : undotted s -> no_byte c s = true -> undotted (cap_length s) /\ no_byte c (cap_length s) = true.
Proof.
  intros (a & r & Es & Ha) Hc. unfold cap_length. destruct (Nat.ltb 255 (slen s)); [|split; [by exists a, r|done]].
  set (keep := if _ <? 1 then _ else _). split.
  - exists a. assert (exists k, keep = S k) as [k ->].
    { unfold keep. destruct (Z.ltb_spec (Z.of_nat 255 - Z.of_nat (slen (Ext s))) 1); [by exists 0%nat|].
      exists (254 - slen (Ext s))%nat. lia. }
    rewrite Es. eexists. split; [|done]. reflexivity.
  - rewrite no_byte_app. apply andb_true_iff. split; [by apply no_byte_substring|].
    unfold Ext. destruct (last_index_any _ _); [|done]. destruct (at_index _ _ _); [by apply no_byte_substring|done].
Qed.

Lemma sanitize_ok c raw : (c = slash \/ c = "\"%char \/ c = "000"%char) -> sanitizeFilename raw <> "" ->
  undotted (sanitizeFilename raw) /\ no_byte c (sanitizeFilename raw) = true.
Proof.
  intros Hc. unfold sanitizeFilename. set (base := remove_byte "000" _). set (n := strip_dots (trim_space base)).
  assert (no_byte c base = true) as Hb.
  { unfold base. destruct Hc as [->|[->| ->]].
    - apply no_byte_remove_other, no_byte_remove.
    - apply no_byte_remove_other, no_byte_remove_other, no_byte_remove.
    - apply no_byte_remove. }
  assert (no_byte c n = true) as Hn.
  { unfold n. apply no_byte_strip_dots. unfold trim_space. by apply no_byte_trim_right, no_byte_trim_left. }
  destruct (String.eqb_spec n ""); [done|]. intros _.
  assert (undotted n) as Hu by (destruct (strip_dots_head (trim_space base)); [done|assumption]).
  case_bool_decide; apply cap_length_ok; try done.
  - exists "_"%char, n. done.
  - change (negb (Ascii.eqb "_" c) && no_byte c n = true). rewrite Hn. by destruct Hc as [->|[->| ->]].
Qed.

Lemma sanitize_entry raw : sanitizeFilename raw <> "" -> name (sanitizeFilename raw).
Proof.
  intros Hne. destruct (sanitize_ok slash raw ltac:(by left) Hne) as ((a & r & E & Ha) & Hs). unfold name. rewrite E in *.
  repeat split; [done| | |done]; by intros [= -> _].
Qed.

(** ** Paths *)

Hypothesis getwd_abs : forall wd, getwd = inl wd -> IsAbs wd = true.

Lemma Join_below l e : Forall name l -> name e -> Join [abs_path l; e] = abs_path (l ++ [e]).
Proof.
  intros Hl He. change (Join [abs_path l; e]) with (Clean (abs_path l ^^ String slash e)). rewrite Clean_below by done.
  rewrite split_byte_none by apply He. cbn [fold_left]. rewrite clean_step_push by done. simpl. by rewrite rev_involutive.
Qed.

Lemma Join_below2 l e e' : Forall name l -> name e -> name e' -> Join [abs_path l; e; e'] = abs_path (l ++ [e; e']).
Proof.
  intros Hl He He'. change (Join [abs_path l; e; e']) with (Clean (abs_path l ^^ String slash (e ^^ String slash e'))). rewrite Clean_below by done.
  rewrite split_byte_sep, !split_byte_none by (apply He || apply He'). cbn [fold_left app]. rewrite !clean_step_push by done. simpl.
  by rewrite rev_involutive, <- app_assoc.
Qed.

Lemma Abs_fixed l : Forall name l -> Abs getwd (abs_path l) = Ok (abs_path l).
Proof. intros Hl. unfold Abs. by rewrite abs_rooted, Clean_fixed. Qed.

Lemma attachments_entry : name "_attachments".
Proof. by repeat split. Qed.

Lemma AttachmentsDir_entry id root : AttachmentsDir getwd dataDir id = Ok root ->
  exists l, Forall name l /\ Abs getwd (Join [dataDir; "sandboxes"]) = Ok (abs_path l) /\ Forall name (l ++ ["sbx-" ^^ id; "_attachments"]) /\
    root = abs_path (l ++ ["sbx-" ^^ id; "_attachments"]).
Proof.
  unfold AttachmentsDir. destruct (threadScopedDir _ _ _ _ _) as [ws|e|p] eqn:E; [|done..]. cbn. intros [= <-].
  destruct (threadScopedDir_entry getwd getwd_abs dataDir "sandboxes" "sbx-" id ws eq_refl E) as (_ & l & Hl & Ha & Hn & ->).
  assert (Forall name (l ++ ["sbx-" ^^ id])) as Hl' by (apply Forall_app; split; [done|by apply Forall_singleton]).
  exists l. split; [done|]. split; [done|]. rewrite (app_assoc l ["sbx-" ^^ id] ["_attachments"] : l ++ ["sbx-" ^^ id; "_attachments"] = _).
  split; [apply Forall_app; split; [done|apply Forall_singleton, attachments_entry]|].
  by apply Join_below; [|apply attachments_entry].
Qed.

Lemma hex_no c s : hex_char c = false -> hex s = true -> no_byte c s = true.
Proof.
  intros Hc. induction s as [|a s IH]; [done|]. simpl. intros [Ha Hs]%andb_true_iff. rewrite IH, andb_true_r by done.
  apply negb_true_iff, Ascii.eqb_neq. intros ->. congruence.
Qed.

Lemma split_byte_slash s : forallb hex (split_byte "-" s) = true -> no_byte slash s = true.
Proof.
  induction s as [|a s IH]; [done|]. cbn [split_byte no_byte]. destruct (Ascii.eqb_spec a "-") as [->|Hne].
  - cbn [forallb hex]. intros Hs. by rewrite IH.
  - destruct (split_byte_cons "-" s) as (w & ws & E). rewrite E in *. cbn [forallb hex]. intros [[Ha Hw]%andb_true_iff Hws]%andb_true_iff.
    rewrite IH, andb_true_r by (cbn [forallb]; by rewrite Hw, Hws). apply negb_true_iff, Ascii.eqb_neq. by intros ->.
Qed.

Lemma split_byte_length c s : (slen s + 1 = sum_list_with (fun w => slen w + 1) (split_byte c s))%nat.
Proof.
  induction s as [|a s IH]; [done|]. cbn [split_byte]. destruct (Ascii.eqb a c); cbn [sum_list_with slen String.length] in *.
  - unfold slen in *. simpl. lia.
  - destruct (split_byte_cons c s) as (w & ws & E). rewrite E in *. cbn [sum_list_with] in *. unfold slen in *. simpl in *. lia.
Qed.

Lemma fileID_entry id : fileIDRe id = true -> name id.
Proof.
  unfold fileIDRe. intros [Hl Hx]%andb_true_iff. apply bool_decide_eq_true in Hl.
  assert (slen id = 36)%nat as Hlen.
  { pose proof (split_byte_length "-" id) as Hs.
    assert (forall l : list string, sum_list_with (fun w => slen w + 1)%nat l = sum_list_with (fun n => n + 1)%nat (slen <$> l)) as Hm
      by (induction l as [|w l IH]; [done|simpl; by rewrite IH]).
    rewrite Hm, Hl in Hs. simpl in Hs. lia. }
  repeat split; [by intros ->..|by apply split_byte_slash].
Qed.

(** What a served download comes from. *)
Definition served (path : string) (m : Sent) : Prop := exists threadID fileID l,
  ValidateThreadID threadID = None /\ fileIDRe fileID = true /\ Forall name l /\ Abs getwd (Join [dataDir; "sandboxes"]) = Ok (abs_path l) /\
  dl_Path m = abs_path (l ++ ["sbx-" ^^ threadID; "_attachments"; fileID; dl_Filename m]) /\
  split3 (trim_route path) = [threadID; fileID; dl_Filename m] /\ sanitizeFilename (dl_Filename m) = dl_Filename m.

Lemma open_attachment_reply abs clean s m : (open_attachment abs clean s).2 = Ok (Reply m) ->
  dl_Path m = abs /\ dl_Filename m = clean /\ st_files s !! abs = Some (dl_Content m).
Proof.
  unfold open_attachment, disk, tick, gom_get, mbind, gom_bind. cbn. destruct (disk_fault _); [done|].
  destruct (st_files s !! abs) as [data|] eqn:E; [|done]. cbn. destruct (disk_fault _); [done|]. by intros [= <-].
Qed.

Lemma download_served method path s m : (HandleDownload method path s).2 = Ok (Reply m) ->
  method = "GET" /\ served path m /\ st_files s !! dl_Path m = Some (dl_Content m).
Proof.
  unfold HandleDownload. destruct (String.eqb_spec method "GET") as [->|]; [|done]. cbn [negb].
  destruct (split3 (trim_route path)) as [|threadID [|fileID [|filename [|? ?]]]] eqn:Ep; try done.
  destruct (ValidateThreadID threadID) eqn:Ev; [done|]. destruct (fileIDRe fileID) eqn:Ef; [|done]. cbn [negb].
  destruct (String.eqb_spec (sanitizeFilename filename) ""); [done|].
  destruct (String.eqb_spec (sanitizeFilename filename) filename) as [Es|]; [|done]. cbn [orb negb].
  destruct (AttachmentsDir getwd dataDir threadID) as [root|e|p] eqn:Ea; [|done..].
  destruct (AttachmentsDir_entry threadID root Ea) as (l & Hl & Hroot & Hnames & ->).
  pose proof (sanitize_entry filename ltac:(congruence)) as Hn. rewrite Es in *. pose proof (fileID_entry _ Ef) as Hf.
  rewrite Join_below2 by done.
  assert (Forall name ((l ++ ["sbx-" ^^ threadID; "_attachments"]) ++ [fileID; filename])) as Hall
    by (apply Forall_app; split; [done|]; apply Forall_cons; split; [done|by apply Forall_singleton]).
  rewrite !Abs_fixed by done.
  destruct (negb _); [done|]. intros (Hp & Hc & Hd)%open_attachment_reply. rewrite <- Hp in Hd. split; [done|]. split; [|done].
  exists threadID, fileID, l. rewrite Hp, Hc, <- app_assoc. done.
Qed.

(** *** From an upload to its download *)

Lemma disk_ok_files s s' u : disk_ok s = (s', Ok u) -> st_files s' = st_files s.
Proof. unfold disk_ok, disk, tick, mbind, gom_bind. cbn. destruct (disk_fault _); [done|]. by intros [= <-]. Qed.

Lemma copy_file_ok dst content s s' n : copy_file dst content s = (s', Ok n) ->
  st_files s' = <[dst := content]> (st_files s) /\ n = Z.of_nat (slen content).
Proof.
  unfold copy_file, disk, tick, modify_files, mbind, gom_bind. cbn [fst snd mret gom_ret st_files st_tick].
  destruct (disk_fault _); [done|]. destruct (Z.ltb_spec MaxAttachmentBytes (Z.of_nat (slen (limit_reader (MaxAttachmentBytes + 1) content)))); [done|].
  rewrite limit_reader_whole by lia. intros [= <- <-]. done.
Qed.

Lemma saveHeader_ok fh root s s' a : saveHeader fh root s = (s', Ok a) ->
  st_files s' = <[Join [Join [root; at_ID a]; at_Filename a] := fh_Content fh]> (st_files s) /\
  at_SizeBytes a = Z.of_nat (slen (fh_Content fh)) /\ at_Path a = Join [ContainerWorkspace; "_attachments"; at_ID a; at_Filename a].
Proof.
  unfold saveHeader. intros (s0 & n & E0 & Hs)%bind_ok_inv. injection E0 as <- <-. cbv zeta in Hs.
  apply bind_ok_inv in Hs as (s1 & u1 & E1%disk_ok_files & Hs). apply bind_ok_inv in Hs as (s2 & u2 & E2%disk_ok_files & Hs).
  apply bind_ok_inv in Hs as (s3 & u3 & E3%disk_ok_files & Hs). apply bind_ok_inv in Hs as (s4 & w & [E4 Ew]%copy_file_ok & Hs).
  apply bind_ok_inv in Hs as (s5 & st & E5 & Hs). injection E5 as <- <-.
  destruct (sniffAndExtract _ _) as [mt inl]. injection Hs as <- <-. cbn [at_ID at_Filename at_SizeBytes at_Path].
  split; [|by rewrite Ew]. by rewrite E4, E3, E2, E1.
Qed.

Lemma split3_three a b c : no_byte slash a = true -> no_byte slash b = true -> no_byte slash c = true ->
  split3 (trim_route (prefix ^^ a ^^ "/" ^^ b ^^ "/" ^^ c)) = [a; b; c].
Proof.
  intros Ha Hb Hc. unfold trim_route. rewrite (proj2 (has_prefix_spec _ prefix)) by (by eexists). rewrite sdrop_append.
  unfold split3. change (a ^^ "/" ^^ b ^^ "/" ^^ c) with (a ^^ String slash (b ^^ String slash c)).
  by rewrite !split_byte_sep, !split_byte_none.
Qed.

Lemma thread_no_slash id : ValidateThreadID id = None -> no_byte slash id = true.
Proof. intros Hv. destruct (thread_entry "" id eq_refl Hv) as (_ & _ & _ & ?). done. Qed.
End Manager.

(** C29: A download serves nothing outside the attachments of the thread it
    names: it is answered with a file only for a valid thread id, a file id of
    the generated form and a name that sanitising leaves alone, and the file is
    exactly the entry of that name in the directory of that id in the
    thread's attachment directory, with its content. *)
Theorem HandleDownload_confined `{!Sniffing, !Disk} (dataDir method path : string) (s : Store) (m : Sent)
    (Hwd : forall wd, getwd = inl wd -> IsAbs wd = true) (Hreply : (HandleDownload dataDir method path s).2 = Ok (Reply m)) :
  method = "GET" /\ st_files s !! dl_Path m = Some (dl_Content m) /\
  exists threadID fileID l, split3 (trim_route path) = [threadID; fileID; dl_Filename m] /\
    ValidateThreadID threadID = None /\ fileIDRe fileID = true /\ name (dl_Filename m) /\
    Forall name l /\ Abs getwd (Join [dataDir; "sandboxes"]) = Ok (abs_path l) /\
    dl_Path m = abs_path (l ++ ["sbx-" ^^ threadID; "_attachments"; fileID; dl_Filename m]).
Proof.
  destruct (download_served dataDir Hwd method path s m Hreply) as (Hg & (t & f & l & H1 & H2 & H3 & H4 & H5 & H6 & H7) & Hd).
  split; [done|]. split; [done|]. exists t, f, l. split; [done|]. split; [done|]. split; [done|]. split; [|done].
  rewrite <- H7. apply sanitize_entry. rewrite H7. intros E.
  unfold HandleDownload in Hreply. rewrite Hg, H6 in Hreply. cbn [negb String.eqb] in Hreply. rewrite H1, H2, E in Hreply. done.
Qed.

(** C30: What was uploaded is what is downloaded: after a file was saved for a
    thread, the address made of the thread, the id and the name the upload
    answered with serves the file's own bytes, as long as no operation of the
    disk fails, the generated id has its usual form and sanitising the name a
    second time leaves it alone. *)
Theorem upload_download_roundtrip `{!Sniffing, !Disk} (dataDir threadID root : string) (fh : FileHeader) (s s' : Store) (a : Attachment)
    (Hwd : forall wd, getwd = inl wd -> IsAbs wd = true) (Hcalm : forall n, disk_fault n = None)
    (Hthread : ValidateThreadID threadID = None) (Hroot : AttachmentsDir getwd dataDir threadID = Ok root)
    (Hid : forall n, fileIDRe (uuid_NewString n) = true) (Hstable : sanitizeFilename (at_Filename a) = at_Filename a)
    (Hsave : saveHeader fh root s = (s', Ok a)) :
  exists m, (HandleDownload dataDir "GET" (prefix ^^ threadID ^^ "/" ^^ at_ID a ^^ "/" ^^ at_Filename a) s').2 = Ok (Reply m) /\
    dl_Content m = fh_Content fh /\ dl_Filename m = at_Filename a /\ at_SizeBytes a = Z.of_nat (slen (fh_Content fh)).
Proof.
  destruct (saveHeader_ok fh root s s' a Hsave) as (Hfiles & Hsize & _).
  destruct (AttachmentsDir_entry dataDir Hwd threadID root Hroot) as (l & Hl & _ & Hnames & ->).
  assert (exists n, at_ID a = uuid_NewString n) as [n Hn].
  { unfold saveHeader in Hsave. apply bind_ok_inv in Hsave as (s0 & n & _ & Hs). exists n. cbv zeta in Hs.
    do 4 (apply bind_ok_inv in Hs as (? & ? & _ & Hs)). apply bind_ok_inv in Hs as (? & ? & _ & Hs).
    destruct (sniffAndExtract _ _). by injection Hs as _ <-. }
  assert (at_Filename a <> "") as Hne.
  { unfold saveHeader in Hsave. apply bind_ok_inv in Hsave as (s0 & k & _ & Hs). cbv zeta in Hs.
    do 4 (apply bind_ok_inv in Hs as (? & ? & _ & Hs)). apply bind_ok_inv in Hs as (? & ? & _ & Hs).
    destruct (sniffAndExtract _ _). injection Hs as _ <-. cbn. by destruct (String.eqb_spec (sanitizeFilename (fh_Filename fh)) ""). }
  pose proof (sanitize_entry (at_Filename a) ltac:(congruence)) as Hname. rewrite Hstable in Hname.
  assert (fileIDRe (at_ID a) = true) as Hf by (rewrite Hn; apply Hid). pose proof (fileID_entry _ Hf) as Hfe.
  set (path := abs_path ((l ++ ["sbx-" ^^ threadID; "_attachments"]) ++ [at_ID a; at_Filename a])).
  assert (Forall name ((l ++ ["sbx-" ^^ threadID; "_attachments"]) ++ [at_ID a; at_Filename a])) as Hall
    by (apply Forall_app; split; [done|]; apply Forall_cons; split; [done|by apply Forall_singleton]).
  assert (st_files s' !! path = Some (fh_Content fh)) as Hc.
  { rewrite Hfiles. rewrite Join_below, Join_below by (done || (apply Forall_app; split; [done|by apply Forall_singleton])).
    rewrite <- app_assoc. apply lookup_insert_eq. }
  unfold HandleDownload. cbn [negb String.eqb]. rewrite split3_three by (apply thread_no_slash, Hthread || apply Hfe || apply Hname).
  rewrite Hthread, Hf, Hstable, String.eqb_refl. apply String.eqb_neq in Hne. rewrite Hne. cbn [negb orb]. rewrite Hroot, Join_below2, !Abs_fixed by done.
  rewrite abs_below by (done || by destruct l). cbn [negb]. unfold open_attachment, disk, tick, gom_get, mbind, gom_bind. cbn.
  rewrite !Hcalm. fold path. rewrite Hc. cbn. rewrite Hcalm. by eexists.
Qed.

(** ** Samples *)
Module SampleAttachments.
#[export] Instance sniffing : Sniffing :=
  {| DetectContentType := fun _ => "text/plain; charset=utf-8"; ParseMediaType := fun _ => "text/plain"; ToValidUTF8 := fun s => s |}.
#[export] Instance disk : Disk :=
  {| uuid_NewString := fun _ => "01234567-89ab-cdef-0123-456789abcdef"; disk_fault := fun _ => None; getwd := inl "/srv" |}.
Definition file (n : string) : FileHeader := {| fh_Filename := n; fh_Size := 5; fh_Content := "hello" |}.
Definition root : string := "/d/sandboxes/sbx-thread-1/_attachments".
Definition empty : Store := {| st_files := ∅; st_tick := 0 |}.
Definition saved : Store * outcome Attachment := saveHeader (file "../notes.md") root empty.

Example names :
  sanitizeFilename "..\..\win.ini" = "win.ini" /\ sanitizeFilename "/a/../con.txt" = "_con.txt" /\ sanitizeFilename "..." = "".
Proof. by vm_compute. Qed.

(** The dots are stripped after the spaces, so a space can lead: the name an
    upload answers with is then refused by the download. *)
Example unstable_name : sanitizeFilename ". plan.txt" = " plan.txt" /\ sanitizeFilename " plan.txt" = "plan.txt".
Proof. by vm_compute. Qed.

(** A long extension is kept whole, so the name can stay over its cap. *)
Fixpoint repeat (n : nat) (s : string) : string := match n with O => "" | S n => s ^^ repeat n s end.
Example long_name : slen (sanitizeFilename ("a." ^^ repeat 300 "b")) = 302%nat.
Proof. vm_compute. reflexivity. Qed.
End SampleAttachments.

#[local] Existing Instance SampleAttachments.sniffing.
#[local] Existing Instance SampleAttachments.disk.

Lemma upload_download_roundtrip_witness :
  exists a, SampleAttachments.saved.2 = Ok a /\ at_Filename a = "notes.md" /\
    exists m, (HandleDownload "/d" "GET" (prefix ^^ "thread-1" ^^ "/" ^^ at_ID a ^^ "/" ^^ at_Filename a) SampleAttachments.saved.1).2 = Ok (Reply m) /\
      dl_Content m = "hello".
Proof.
  eexists. split; [vm_compute; reflexivity|]. split; [reflexivity|].
  destruct (upload_download_roundtrip "/d" "thread-1" SampleAttachments.root (SampleAttachments.file "../notes.md") SampleAttachments.empty
    SampleAttachments.saved.1
    {| at_ID := "01234567-89ab-cdef-0123-456789abcdef"; at_Filename := "notes.md"; at_MimeType := "text/markdown; charset=utf-8"; at_SizeBytes := 5;
       at_Path := "/workspace/_attachments/01234567-89ab-cdef-0123-456789abcdef/notes.md"; at_InlinedText := Some "hello" |})
    as (m & Hm & Hc & _); [by intros wd [= <-]|reflexivity|by vm_compute|by vm_compute|intros n; by vm_compute|by vm_compute|by vm_compute|].
  exists m. split; [exact Hm|exact Hc].
Defined.

Lemma HandleDownload_confined_witness :
  exists m, (HandleDownload "/d" "GET" "/api/attachments/thread-1/01234567-89ab-cdef-0123-456789abcdef/notes.md" SampleAttachments.saved.1).2 = Ok (Reply m) /\
    name (dl_Filename m) /\
    (HandleDownload "/d" "GET" "/api/attachments/thread-1/01234567-89ab-cdef-0123-456789abcdef/../../x" SampleAttachments.saved.1).2 =
      Ok (HttpError 400 "invalid filename").
Proof.
  eexists. split; [vm_compute; reflexivity|]. split; [|vm_compute; reflexivity].
  destruct (HandleDownload_confined "/d" "GET" "/api/attachments/thread-1/01234567-89ab-cdef-0123-456789abcdef/notes.md" SampleAttachments.saved.1
    {| dl_Path := "/d/sandboxes/sbx-thread-1/_attachments/01234567-89ab-cdef-0123-456789abcdef/notes.md"; dl_MimeType := "text/markdown; charset=utf-8";
       dl_Filename := "notes.md"; dl_Content := "hello" |})
    as (_ & _ & t & f & l & _ & _ & _ & Hn & _); [by intros wd [= <-]|by vm_compute|exact Hn].
Defined.
