(* ===== verification/Types.v ===== *)
(** * The data the components exchange

    The proto messages of [proto/grudge/thread/v1], [proto/grudge/rrc/v1] and
    [proto/grudge/llm/v1], with the fields the modelled code reads.  The wall
    clock is not modelled: [Edge.detected_at] is left out, and
    [Message.created_at] is kept as (seconds, nanoseconds). *)

From Stdlib Require Import ZArith Lia String.
From S2P Require Import Prelude GoFloat.

Inductive Role := ROLE_UNSPECIFIED | ROLE_USER | ROLE_ASSISTANT | ROLE_SYSTEM.
#[export] Instance Role_eq_dec : EqDecision Role.
Proof. solve_decision. Defined.

Record TextContent := { tx_Text : string }.
Record ThinkingContent := { th_Text : string; th_Signature : string }.
Record ToolCallContent :=
  { tc_Id : string; tc_Name : string; tc_Arguments : string; tc_Signature : string }.
Record ToolResultContent :=
  { tr_ToolCallId : string; tr_Content : string; tr_IsError : bool }.
Record ImageContent := { im_MediaType : string; im_Data : string }.
Record AttachmentContent :=
  { at_Id : string; at_Filename : string; at_MimeType : string; at_SizeBytes : Z;
    at_Path : string; at_InlinedText : string }.

(** The [oneof block]; [BNone] is a block whose oneof is unset. *)
Inductive ContentBlock :=
  | BText (t : TextContent)
  | BThinking (t : ThinkingContent)
  | BToolCall (t : ToolCallContent)
  | BToolResult (t : ToolResultContent)
  | BImage (i : ImageContent)
  | BAttachment (a : AttachmentContent)
  | BNone.

#[export] Instance ContentBlock_eq_dec : EqDecision ContentBlock.
Proof.
  intros x y. unfold Decision.
  decide equality;
    match goal with |- {?a = ?b} + {_} => destruct a, b end;
    repeat decide equality.
Defined.

Record Message := {
  m_Id : string;
  m_Role : Role;
  m_Content : list ContentBlock;
  m_Position : Z;
  m_ThreadId : string;
  m_CreatedAt : option (Z * Z);
  m_TurnId : string
}.

#[export] Instance Message_eq_dec : EqDecision Message.
Proof. solve_decision. Defined.

Record LLMMessage := { lm_Role : Role; lm_Content : list ContentBlock }.

Inductive SelectionScope :=
  | SELECTION_SCOPE_UNSPECIFIED
  | SELECTION_SCOPE_THREAD
  | SELECTION_SCOPE_ALL_THREADS.
#[export] Instance SelectionScope_eq_dec : EqDecision SelectionScope.
Proof. solve_decision. Defined.

Inductive EdgeSource :=
  | EDGE_SOURCE_UNSPECIFIED
  | EDGE_SOURCE_CROSS_ENCODER
  | EDGE_SOURCE_PROVENANCE.
#[export] Instance EdgeSource_eq_dec : EqDecision EdgeSource.
Proof. solve_decision. Defined.

(** [Score] and [CrossEncoderScore] are float32. *)
Record Edge := {
  e_FromMessageId : string;
  e_ToMessageId : string;
  e_Score : float;
  e_Source : EdgeSource;
  e_CrossEncoderScore : float;
  e_FromThreadId : string;
  e_ToThreadId : string;
  e_ScorerModel : string
}.
#[export] Instance Edge_eq_dec : EqDecision Edge.
Proof. solve_decision. Defined.

Record SelectedMessage := {
  sm_MessageId : string;
  sm_EffectiveScore : float;
  sm_HopDepth : Z;
  sm_ViaEdges : list Edge;
  sm_ThreadId : string;
  sm_CrossThread : bool;
  sm_ProvenanceWeight : float
}.

Inductive ExclusionReason :=
  | EXCLUSION_REASON_UNSPECIFIED
  | EXCLUSION_REASON_BELOW_THRESHOLD
  | EXCLUSION_REASON_TRANSITIVE_REDUCTION
  | EXCLUSION_REASON_DEPTH_LIMIT.

Record ExcludedMessage :=
  { xm_MessageId : string; xm_Reason : ExclusionReason; xm_Score : float }.

Record SelectionResult := {
  sr_EventId : string;
  sr_Scope : SelectionScope;
  sr_ThreadId : string;
  sr_Selected : list SelectedMessage;
  sr_Excluded : list ExcludedMessage;
  sr_LocalContextFingerprint : string;
  sr_LocalContextMessageIds : list string;
  sr_AnchorMessageId : string
}.

(** Generated getters: nil when the block holds another variant. *)
Definition GetText (b : ContentBlock) : option TextContent :=
  match b with BText t => Some t | _ => None end.
Definition GetThinking (b : ContentBlock) : option ThinkingContent :=
  match b with BThinking t => Some t | _ => None end.
Definition GetToolCall (b : ContentBlock) : option ToolCallContent :=
  match b with BToolCall t => Some t | _ => None end.
Definition GetToolResult (b : ContentBlock) : option ToolResultContent :=
  match b with BToolResult t => Some t | _ => None end.
