(* ===== verification/Genai.v ===== *)
(** * The genai codec ([core/genaicodec/genaicodec.go])

    Content of the genai SDK and back.  Tool arguments and responses travel as
    [map\[string\]any]; the map type and [encoding/json] on it are parameters
    with the laws of decoded values. *)

From Stdlib Require Import ZArith Lia String Ascii.
From S2P Require Import Prelude GoStrings Types.
#[local] Open Scope nat_scope.

(** [J] is [map\[string\]any].  [unmarshal] gives a map, nil (for [null]) or
    an error; [single k v] is the literal [{k: v}] with a string value and
    [string_field k j] is [j\[k\].(string)]. *)
Class Json (J : Type) := {
  marshal : J -> outcome string;
  unmarshal : string -> outcome (option J);
  single : string -> string -> J;
  string_field : string -> J -> option string
}.

(** A decoded map encodes, and its encoding decodes to it; a map literal of one
    string encodes to a text whose decoding encodes the same. *)
Class JsonLaws (J : Type) `{Json J} : Prop := {
  decoded_stable : forall s j, unmarshal s = Ok (Some j) ->
    exists t, marshal j = Ok t /\ t <> "" /\ unmarshal t = Ok (Some j);
  single_stable : forall k v,
    exists t j, marshal (single k v) = Ok t /\ t <> "" /\ unmarshal t = Ok (Some j) /\ marshal j = Ok t;
  empty_stable : exists j, unmarshal "{}" = Ok (Some j) /\ marshal j = Ok "{}"
}.

Section Genai.

Context {J : Type} `{Json J}.

Record FunctionCall := { fc_ID : string; fc_Name : string; fc_Args : option J }.
Record FunctionResponse := { fr_ID : string; fr_Name : string; fr_Response : option J }.

Record Part := {
  pt_Text : string;
  pt_Thought : bool;
  pt_ThoughtSignature : string;
  pt_FunctionCall : option FunctionCall;
  pt_FunctionResponse : option FunctionResponse
}.

Record Content := { ct_Role : string; ct_Parts : list Part }.

Definition RoleToProto (role : string) : Role :=
  if String.eqb role "user" then ROLE_USER
  else if String.eqb role "model" then ROLE_ASSISTANT
  else if String.eqb role "system" then ROLE_SYSTEM
  else ROLE_USER.

Definition RoleToGenai (role : Role) : string :=
  match role with
  | ROLE_USER => "user"
  | ROLE_ASSISTANT => "model"
  | ROLE_SYSTEM => "user"
  | ROLE_UNSPECIFIED => "user"
  end.

(** [if b, err := json.Marshal(x); err == nil { ... }] over a default. *)
Definition marshal_or (dflt : string) (x : option J) : string :=
  match x with
  | None => dflt
  | Some j => match marshal j with Ok s => s | _ => dflt end
  end.

(** The blocks one part contributes. *)
Definition part_blocks (p : Part) : list ContentBlock :=
  (if pt_Thought p && (negb (String.eqb (pt_Text p) "") || negb (String.eqb (pt_ThoughtSignature p) ""))
   then [BThinking {| th_Text := pt_Text p; th_Signature := pt_ThoughtSignature p |}]
   else if negb (String.eqb (pt_Text p) "") then [BText {| tx_Text := pt_Text p |}]
   else []) ++
  match pt_FunctionCall p with
  | None => []
  | Some c => [BToolCall {| tc_Id := fc_ID c; tc_Name := fc_Name c; tc_Arguments := marshal_or "{}" (fc_Args c);
                            tc_Signature := pt_ThoughtSignature p |}]
  end ++
  match pt_FunctionResponse p with
  | None => []
  | Some r => [BToolResult {| tr_ToolCallId := fr_ID r; tr_Content := marshal_or "" (fr_Response r);
                              tr_IsError := false |}]
  end.

Definition ContentToProto (c : Content) : LLMMessage :=
  {| lm_Role := RoleToProto (ct_Role c); lm_Content := flat_map part_blocks (ct_Parts c) |}.

Definition text_part (text : string) : Part :=
  {| pt_Text := text; pt_Thought := false; pt_ThoughtSignature := ""; pt_FunctionCall := None; pt_FunctionResponse := None |}.

Definition thinking_part (text signature : string) : Part :=
  {| pt_Text := text; pt_Thought := true; pt_ThoughtSignature := signature;
     pt_FunctionCall := None; pt_FunctionResponse := None |}.

(** Tool-call arguments: an unparsable text leaves the map nil. *)
Definition call_args (arguments : string) : option J :=
  if String.eqb arguments "" then None
  else match unmarshal arguments with Ok j => j | _ => None end.

Definition response_map (content : string) : J :=
  if String.eqb content "" then single "result" ""
  else match unmarshal content with Ok (Some j) => j | _ => single "result" content end.

Definition block_parts (b : ContentBlock) : list Part :=
  match b with
  | BText t => [text_part (tx_Text t)]
  | BThinking t => [thinking_part (th_Text t) (th_Signature t)]
  | BToolCall c =>
      [{| pt_Text := ""; pt_Thought := false; pt_ThoughtSignature := tc_Signature c;
          pt_FunctionCall := Some {| fc_ID := tc_Id c; fc_Name := tc_Name c; fc_Args := call_args (tc_Arguments c) |};
          pt_FunctionResponse := None |}]
  | BToolResult r =>
      [{| pt_Text := ""; pt_Thought := false; pt_ThoughtSignature := ""; pt_FunctionCall := None;
          pt_FunctionResponse := Some {| fr_ID := tr_ToolCallId r; fr_Name := ""; fr_Response := Some (response_map (tr_Content r)) |} |}]
  | _ => []
  end.

Definition ProtoToContent (m : LLMMessage) : Content :=
  {| ct_Role := RoleToGenai (lm_Role m); ct_Parts := flat_map block_parts (lm_Content m) |}.

Definition ExtractThinking (c : option Content) : list ThinkingContent :=
  match c with
  | None => []
  | Some c =>
      (fun p => {| th_Text := pt_Text p; th_Signature := "" |})
      <$> List.filter (fun p => pt_Thought p && negb (String.eqb (pt_Text p) "")) (ct_Parts c)
  end.

(** ** Round trip *)

(** What a message is after travelling through the SDK's types. *)
Definition through (m : LLMMessage) : LLMMessage := ContentToProto (ProtoToContent m).

Definition block_through (b : ContentBlock) : list ContentBlock := flat_map part_blocks (block_parts b).

(** The blocks that survive unchanged: text that is not empty, thinking with a
    text or a signature, calls and results whose JSON is the encoder's own. *)
Definition canonical (s : string) : Prop := s <> "" /\ exists j, unmarshal s = Ok (Some j) /\ marshal j = Ok s.

Definition survives (b : ContentBlock) : Prop :=
  match b with
  | BText t => tx_Text t <> ""
  | BThinking t => th_Text t <> "" \/ th_Signature t <> ""
  | BToolCall c => canonical (tc_Arguments c)
  | BToolResult r => canonical (tr_Content r) /\ tr_IsError r = false
  | _ => False
  end.

Lemma through_content m : lm_Content (through m) = flat_map block_through (lm_Content m).
Proof. unfold through, ContentToProto, ProtoToContent, block_through. simpl. induction (lm_Content m) as [|b l IH]; [done|].
  simpl. by rewrite flat_map_app, IH.
Qed.

Lemma call_args_canonical s : canonical s -> marshal_or "{}" (call_args s) = s.
Proof.
  intros (Hs & j & Hu & Hm). unfold call_args. destruct (String.eqb_spec s ""); [done|].
  rewrite Hu. simpl. by rewrite Hm.
Qed.

Lemma survives_through b : survives b -> block_through b = [b].
Proof.
  destruct b as [[t]|[t sg]|[i n a sg]|[i c e]| | |]; simpl; try done; unfold block_through, part_blocks; simpl.
  - intros Ht. by destruct (String.eqb_spec t "").
  - intros [Hx|Hx]; destruct (String.eqb_spec t ""), (String.eqb_spec sg ""); done.
  - intros Hc. by rewrite call_args_canonical.
  - intros [(Hs & j & Hu & Hm) ->]. unfold response_map. destruct (String.eqb_spec c ""); [done|].
    rewrite Hu. simpl. by rewrite Hm.
Qed.

Context `{!JsonLaws J}.

Lemma response_map_stable c : exists t, marshal (response_map c) = Ok t /\ canonical t.
Proof.
  assert (forall k v, exists t, marshal (single k v) = Ok t /\ canonical t) as Hs.
  { intros k v. destruct (single_stable k v) as (t & j & H1 & H2 & H3 & H4). exists t. split; [done|]. split; [done|]. by exists j. }
  unfold response_map. destruct (String.eqb c ""); [apply Hs|].
  destruct (unmarshal c) as [[j|]|e|s] eqn:E; [|apply Hs..].
  destruct (decoded_stable _ _ E) as (t & H1 & H2 & H3). exists t. split; [done|]. split; [done|]. by exists j.
Qed.

Lemma call_args_stable a : canonical (marshal_or "{}" (call_args a)).
Proof.
  assert (canonical "{}") as He by (split; [done|]; by destruct empty_stable as (j & H1 & H2); exists j).
  unfold call_args. destruct (String.eqb a ""); [done|].
  destruct (unmarshal a) as [[j|]|e|t] eqn:E; simpl; try done.
  destruct (decoded_stable _ _ E) as (t & H1 & H2 & H3). rewrite H1. split; [done|]. by exists j.
Qed.

(** Whatever comes out of a trip survives the next one. *)
Lemma block_through_survives b : Forall survives (block_through b).
Proof.
  destruct b as [[t]|[t sg]|[i n a sg]|[i c e]| | |]; unfold block_through, part_blocks; simpl.
  - destruct (String.eqb_spec t ""); simpl; by repeat constructor.
  - destruct (String.eqb_spec t ""), (String.eqb_spec sg ""); simpl;
      (apply Forall_nil; done) || (apply Forall_singleton; simpl; auto).
  - constructor; [|constructor]. simpl. apply call_args_stable.
  - constructor; [|constructor]. simpl. destruct (response_map_stable c) as (s & -> & Hs). by split.
  - constructor.
  - constructor.
  - constructor.
Qed.

Lemma through_survives l : Forall survives l -> flat_map block_through l = l.
Proof. induction 1 as [|b l Hb _ IH]; [done|]. simpl. by rewrite survives_through, IH. Qed.


End Genai.

(** ** A concrete map type: the text of the object after its brace. *)
Module SampleJson.

#[global] Instance text_json : Json string := {
  marshal := fun j => Ok ("{" ^^ j);
  unmarshal := fun s => match s with
                        | String c j => if Ascii.eqb c "{"%char then Ok (Some j) else Err (ENew "invalid character")
                        | EmptyString => Err (ENew "unexpected end of JSON input")
                        end;
  single := fun k v => k ^^ ":" ^^ v ^^ "}";
  string_field := fun k j => if has_prefix j (k ^^ ":") then Some (slice j (S (slen k)) (slen j - 1)) else None
}.

#[global] Instance text_json_laws : JsonLaws string.
Proof.
  split.
  - intros [|c s] j; simpl; [done|]. destruct (Ascii.eqb c "{"); [|done]. intros [= ->].
    by exists ("{" ^^ j).
  - intros k v. by exists ("{" ^^ (k ^^ ":" ^^ v ^^ "}")), (k ^^ ":" ^^ v ^^ "}").
  - by exists "}".
Qed.

Definition message : LLMMessage := {|
  lm_Role := ROLE_ASSISTANT;
  lm_Content := [BThinking {| th_Text := ""; th_Signature := "sig" |}; BText {| tx_Text := "" |};
                 BToolCall {| tc_Id := "c1"; tc_Name := "read"; tc_Arguments := ""; tc_Signature := "s2" |};
                 BToolResult {| tr_ToolCallId := "c1"; tr_Content := "plain"; tr_IsError := true |}]
|}.

Example message_through :
  lm_Content (through (J := string) message) =
  [BThinking {| th_Text := ""; th_Signature := "sig" |};
   BToolCall {| tc_Id := "c1"; tc_Name := "read"; tc_Arguments := "{}"; tc_Signature := "s2" |};
   BToolResult {| tr_ToolCallId := "c1"; tr_Content := "{result:plain}"; tr_IsError := false |}].
Proof. reflexivity. Qed.

End SampleJson.

