(* ===== verification/Tracker.v ===== *)
(** * Selection tracker ([service/selections/tracker.go])

    The in-memory results by event id and the citation tally.  The write-through
    to the database only logs its failure. *)

From Stdlib Require Import ZArith Lia String.
From S2P Require Import Prelude Types.

Record Tracker := {
  results : gmap string SelectionResult;
  citations : gmap string Z
}.

Definition New : Tracker := {| results := ∅; citations := ∅ |}.

Definition CitationCount (t : Tracker) (messageID : string) : Z := default 0%Z (citations t !! messageID).

(** [t.citations\[sel.MessageId\]++] *)
Definition cite (c : gmap string Z) (sel : SelectedMessage) : gmap string Z :=
  <[sm_MessageId sel := wrap64 (default 0%Z (c !! sm_MessageId sel) + 1)]> c.

Definition Record_ (t : Tracker) (result : SelectionResult) : Tracker :=
  {| results := <[sr_EventId result := result]> (results t);
     citations := fold_left cite (sr_Selected result) (citations t) |}.

Definition Get (t : Tracker) (eventID : string) : option SelectionResult := results t !! eventID.

(** How often a message is selected in a list of results. *)
Definition selections_of (messageID : string) (rs : list SelectionResult) : nat :=
  length (filter (fun s => sm_MessageId s = messageID) (concat (sr_Selected <$> rs))).

Lemma wrap64_add x n : wrap64 (wrap64 x + n) = wrap64 (x + n).
Proof.
  unfold wrap64. replace ((x + 2 ^ 63) `mod` 2 ^ 64 - 2 ^ 63 + n + 2 ^ 63)%Z with ((x + 2 ^ 63) `mod` 2 ^ 64 + n)%Z by lia.
  rewrite Zplus_mod_idemp_l. do 2 f_equal. lia.
Qed.

Lemma cite_fold l c m :
  wrap64 (default 0%Z (fold_left cite l c !! m)) =
  wrap64 (default 0%Z (c !! m) + Z.of_nat (length (filter (fun s => sm_MessageId s = m) l))).
Proof.
  revert c. induction l as [|s l IH]; intros c; [simpl; by rewrite Z.add_0_r|].
  cbn [fold_left]. rewrite IH, filter_cons. unfold cite. destruct (decide (sm_MessageId s = m)) as [->|Hne].
  - rewrite lookup_insert_eq. cbn [default from_option length]. unfold id. rewrite wrap64_add. f_equal. lia.
  - by rewrite lookup_insert_ne.
Qed.

(** Every count the tracker holds is in range. *)
Lemma cite_range l c m :
  (forall x, in_int64 (default 0%Z (c !! x))) -> in_int64 (default 0%Z (fold_left cite l c !! m)).
Proof.
  revert c. induction l as [|s l IH]; intros c Hc; [done|]. cbn [fold_left]. apply IH. intros x.
  unfold cite. destruct (decide (sm_MessageId s = x)) as [->|Hne].
  - rewrite lookup_insert_eq. apply wrap64_range.
  - by rewrite lookup_insert_ne.
Qed.

Definition record_all (rs : list SelectionResult) : Tracker := foldl Record_ New rs.

Lemma record_all_citations rs : citations (record_all rs) = fold_left cite (concat (sr_Selected <$> rs)) ∅.
Proof.
  unfold record_all. change (∅ : gmap string Z) with (citations New). generalize New.
  induction rs as [|r rs IH]; intros t; [done|]. cbn [foldl]. rewrite IH. simpl. by rewrite fold_left_app.
Qed.

(** The tracker counts and remembers.  After any sequence of recorded
    selections the citation count of a message is the number of times it was
    selected (in the machine's [int]), and [Get] returns the latest result
    recorded under the event id. *)
Theorem Tracker_spec (rs : list SelectionResult) (messageID eventID : string) :
  CitationCount (record_all rs) messageID = wrap64 (Z.of_nat (selections_of messageID rs)) /\
  Get (record_all rs) eventID = last (filter (fun r => sr_EventId r = eventID) rs).
Proof.
  split.
  - unfold CitationCount, selections_of. rewrite record_all_citations.
    rewrite <- (wrap64_id (default 0%Z _)); [by rewrite cite_fold|]. apply cite_range. intros x. done.
  - unfold record_all, Get. induction rs as [|r rs IH] using rev_ind; [done|].
    rewrite foldl_app, filter_app. cbn [foldl]. simpl. rewrite filter_cons, filter_nil.
    destruct (decide (sr_EventId r = eventID)) as [->|Hne].
    + by rewrite lookup_insert_eq, last_snoc.
    + by rewrite lookup_insert_ne, app_nil_r.
Qed.
