(* ===== verification/Sql.v ===== *)
(** * Statements and transactions ([database/sql] over SQLite)

    What the storage layer asks of its database.  A statement is a function of
    the tables; the engine may refuse any statement, the opening of a
    transaction or its commit, and the clock and the caller's context are read
    between statements.  Every such interaction takes the next [w_tick] of the
    world, and the environment answers by tick: a theorem for every [Env]
    holds for every pattern of failures, readings and cancellations.

    A transaction is opened in immediate mode ([_txlock=immediate] in
    [storage.Open]), so writers do not interleave with it. *)

From Stdlib Require Import ZArith Lia String.
From S2P Require Import Prelude GoSort.

(** What answers the [n]-th interaction. *)
Class Env := {
  e_fault : nat -> option goerr;
  e_now : nat -> Z;
  e_ctx : nat -> option goerr;
  e_constraint : goerr
}.

Record World {T : Type} := { w_tables : T; w_tick : nat }.
Arguments World : clear implicits.
Arguments Build_World {T}.

Section Sql.
Context {T : Type} `{Env}.

Definition set_tables (t : T) (w : World T) : World T := {| w_tables := t; w_tick := w_tick w |}.
Definition next (w : World T) : World T := {| w_tables := w_tables w; w_tick := S (w_tick w) |}.

(** One statement: refused with the tables unchanged, or run. *)
Definition statement {A} (body : T -> T * outcome A) : GoM (World T) A := fun w =>
  match e_fault (w_tick w) with
  | Some e => (next w, Err e)
  | None => let r := body (w_tables w) in (set_tables r.1 (next w), r.2)
  end.

Definition query {A} (f : T -> A) : GoM (World T) A := statement (fun t => (t, Ok (f t))).
Definition exec (f : T -> outcome T) : GoM (World T) unit :=
  statement (fun t => match f t with Ok t' => (t', Ok tt) | Err e => (t, Err e) | Panic s => (t, Panic s) end).

(** A statement that reads [CURRENT_TIMESTAMP]. *)
Definition exec_at (f : Z -> T -> outcome T) : GoM (World T) unit := fun w => exec (f (e_now (w_tick w))) w.

(** [time.Now().UnixNano()] and [ctx.Err()] *)
Definition now : GoM (World T) Z := fun w => (next w, Ok (e_now (w_tick w))).
Definition ctx_err : GoM (World T) (option goerr) := fun w => (next w, Ok (e_ctx (w_tick w))).

(** [tx, err := d.Begin(); defer tx.Rollback(); ...; return tx.Commit()]:
    anything but a successful commit leaves the tables as they were. *)
Definition transaction {A} (body : GoM (World T) A) : GoM (World T) A := fun w =>
  match statement (fun t => (t, Ok tt)) w with
  | (w0, Ok _) =>
      match body w0 with
      | (w1, Ok a) =>
          match statement (fun t => (t, Ok a)) w1 with
          | (w2, Ok a) => (w2, Ok a)
          | (w2, r) => (set_tables (w_tables w) w2, r)
          end
      | (w1, r) => (set_tables (w_tables w) w1, r)
      end
  | (w0, Err e) => (w0, Err e)
  | (w0, Panic s) => (w0, Panic s)
  end.

(** A query that may read but not write. *)
Definition reads {A} (m : GoM (World T) A) : Prop := forall w, w_tables (m w).1 = w_tables w.

(** A call that only returns [Ok] when its effect on the tables is [R], and
    otherwise leaves them alone. *)
Definition atomic {A} (m : GoM (World T) A) (R : T -> A -> T -> Prop) : Prop := forall w,
  match m w with
  | (w', Ok a) => R (w_tables w) a (w_tables w')
  | (w', _) => w_tables w' = w_tables w
  end.

(** The same without the promise on failure: what happens inside a transaction. *)
Definition steps {A} (m : GoM (World T) A) (R : T -> A -> T -> Prop) : Prop := forall w w' a,
  m w = (w', Ok a) -> R (w_tables w) a (w_tables w').

Lemma statement_ok {A} (body : T -> T * outcome A) w :
  e_fault (w_tick w) = None ->
  statement body w = (set_tables (body (w_tables w)).1 (next w), (body (w_tables w)).2).
Proof. unfold statement. by intros ->. Qed.

Lemma query_reads {A} (f : T -> A) : reads (query f).
Proof. intros w. unfold query, statement. by destruct (e_fault _). Qed.

Lemma query_result {A} (f : T -> A) w :
  (query f w).2 = Ok (f (w_tables w)) \/ exists e, (query f w).2 = Err e.
Proof. unfold query, statement. destruct (e_fault _); simpl; eauto. Qed.

Lemma exec_atomic f :
  atomic (exec f) (fun t _ t' => f t = Ok t').
Proof.
  intros w. unfold exec, statement. destruct (e_fault _); [done|]. simpl.
  destruct (f (w_tables w)) eqn:E; simpl; done.
Qed.

Lemma atomic_steps {A} (m : GoM (World T) A) R : atomic m R -> steps m R.
Proof. intros Ha w w' a E. specialize (Ha w). by rewrite E in Ha. Qed.

Lemma steps_bind {A B} (m : GoM (World T) A) (f : A -> GoM (World T) B) R Q :
  steps m R -> (forall a, steps (f a) (Q a)) ->
  steps (m ≫= f) (fun t b t' => exists a t1, R t a t1 /\ Q a t1 b t').
Proof.
  intros Hm Hf w w' b. unfold mbind, gom_bind. destruct (m w) as [w1 [a| |]] eqn:E; try done.
  intros E'. exists a, (w_tables w1). split; [by eapply Hm|by eapply Hf].
Qed.

Lemma steps_ret {A} (a : A) : steps (mret a) (fun t b t' => b = a /\ t' = t).
Proof. by intros w w' b [= <- <-]. Qed.

Lemma steps_mono {A} (m : GoM (World T) A) (R Q : T -> A -> T -> Prop) :
  steps m R -> (forall t a t', R t a t' -> Q t a t') -> steps m Q.
Proof. intros Hm HQ w w' a E. by eapply HQ, Hm. Qed.

Lemma atomic_mono {A} (m : GoM (World T) A) (R Q : T -> A -> T -> Prop) :
  atomic m R -> (forall t a t', R t a t' -> Q t a t') -> atomic m Q.
Proof.
  intros Hm HQ w. specialize (Hm w). destruct (m w) as [w' [a| |]]; [by apply HQ|done..].
Qed.

(** A transaction is all or nothing, whatever fails inside. *)
Lemma transaction_atomic {A} (body : GoM (World T) A) R : steps body R -> atomic (transaction body) R.
Proof.
  intros Hb w. unfold transaction, statement.
  destruct (e_fault (w_tick w)); simpl; [done|].
  match goal with |- context [body ?x] => set (w0 := x) end.
  destruct (body w0) as [w1 [a| |]] eqn:E; [|done..].
  destruct (e_fault (w_tick w1)); simpl; [done|]. by apply (Hb w0 w1 a).
Qed.

(** Without faults a transaction does what its body does. *)
Lemma transaction_ok {A} (body : GoM (World T) A) w w1 a :
  (forall n, e_fault n = None) -> body (next w) = (w1, Ok a) -> transaction body w = (next w1, Ok a).
Proof.
  intros Hf Hb. unfold transaction, statement. rewrite !Hf. simpl.
  replace (set_tables (w_tables w) (next w)) with (next w) by done.
  rewrite Hb, Hf. by destruct w1.
Qed.

Lemma foldM_steps {A B} (f : B -> A -> GoM (World T) B) (R : relation T) `{!PreOrder R} l b :
  (forall x b, x ∈ l -> steps (f b x) (fun t _ t' => R t t')) ->
  steps (foldM (M := GoM (World T)) f b l) (fun t _ t' => R t t').
Proof.
  revert b. induction l as [|x l IH]; intros b Hf.
  - intros w w' a [= <- <-]. reflexivity.
  - intros w w' a. cbn [foldM]. unfold mbind, gom_bind. destruct (f b x w) as [w1 [b1| |]] eqn:E; try done.
    intros E'. transitivity (w_tables w1).
    + by eapply (Hf x b); [left|].
    + eapply (IH b1); [|exact E']. intros y c Hy. apply Hf. by right.
Qed.

(** A call that returns or fails in every world. *)
Definition gsettles {A} (m : GoM (World T) A) : Prop := forall w, settles (m w).2.

Lemma gsettles_ret {A} (a : A) : gsettles (mret a).
Proof. by intros w s. Qed.

Lemma gsettles_lift {A} (o : outcome A) : settles o -> gsettles (gom_lift o).
Proof. by intros Ho w. Qed.

Lemma gsettles_bind {A B} (m : GoM (World T) A) (f : A -> GoM (World T) B) :
  gsettles m -> (forall a, gsettles (f a)) -> gsettles (m ≫= f).
Proof.
  intros Hm Hf w s. unfold mbind, gom_bind. specialize (Hm w). destruct (m w) as [w' [a| |t]]; simpl in *.
  - apply Hf.
  - done.
  - by destruct (Hm t).
Qed.

Lemma gsettles_statement {A} (body : T -> T * outcome A) :
  (forall t, settles (body t).2) -> gsettles (statement body).
Proof. intros Hb w. unfold statement. destruct (e_fault _); [apply settles_err|apply Hb]. Qed.

Lemma gsettles_exec f : (forall t, settles (f t)) -> gsettles (exec f).
Proof.
  intros Hf. apply gsettles_statement. intros t. specialize (Hf t).
  destruct (f t) as [| |u]; [apply settles_ok|apply settles_err|by destruct (Hf u)].
Qed.

Lemma gsettles_foldM {A B} (f : B -> A -> GoM (World T) B) l b :
  (forall b x, gsettles (f b x)) -> gsettles (foldM (M := GoM (World T)) f b l).
Proof.
  intros Hf. revert b. induction l as [|x l IH]; intros b; [apply gsettles_ret|].
  cbn [foldM]. by apply gsettles_bind.
Qed.

Lemma gsettles_transaction {A} (body : GoM (World T) A) : gsettles body -> gsettles (transaction body).
Proof.
  intros Hb w s. unfold transaction, statement.
  destruct (e_fault (w_tick w)); simpl; [done|].
  match goal with |- context [body ?x] => set (w0 := x) end. specialize (Hb w0).
  destruct (body w0) as [w1 [a| |t]]; simpl in *; [|done|by destruct (Hb t)].
  by destruct (e_fault (w_tick w1)).
Qed.

Lemma atomic_lift_bind {A B} (o : outcome A) (f : A -> GoM (World T) B) (R : A -> T -> B -> T -> Prop) :
  (forall a, atomic (f a) (R a)) ->
  atomic (gom_lift o ≫= f) (fun t b t' => exists a, o = Ok a /\ R a t b t').
Proof.
  intros Hf w. unfold mbind, gom_bind, gom_lift. destruct o as [a| |]; [|done..].
  specialize (Hf a w). destruct (f a w) as [w' [b| |]]; [eauto|done..].
Qed.

(** The error of an atomic call decides what happened to the tables. *)
Lemma catch_atomic (m : GoM (World T) unit) R w :
  atomic m R -> gsettles m ->
  exists w' err, gom_catch m w = (w', Ok err) /\
    match err with None => R (w_tables w) tt (w_tables w') | Some _ => w_tables w' = w_tables w end.
Proof.
  intros Ha Hs. unfold gom_catch. specialize (Ha w). specialize (Hs w).
  destruct (m w) as [w' [[]| |t]]; simpl in *; [..|by destruct (Hs t)]; eexists _, _; by split.
Qed.

(** Rows in no promised order. *)
Definition any_order `{SliceSort} {A} (rows : list A) : list A := sort_slice (fun _ _ => false) rows.

Lemma elem_of_any_order `{SliceSort} {A} (rows : list A) x : x ∈ any_order rows <-> x ∈ rows.
Proof. unfold any_order. by rewrite sort_slice_perm. Qed.

End Sql.

#[export] Hint Resolve query_reads exec_atomic atomic_steps transaction_atomic steps_ret gsettles_ret gsettles_lift gsettles_bind
  gsettles_exec gsettles_foldM gsettles_transaction : go.

(** An environment in which nothing fails. *)
Definition calm_env : Env := {|
  e_fault := fun _ => None;
  e_now := fun n => Z.of_nat n;
  e_ctx := fun _ => None;
  e_constraint := ENew "constraint failed"
|}.
