(* ===== verification/Schema.v ===== *)
(** * Opening the database ([service/storage/db.go], [schema.go])

    What [Open] accepts: an empty file, which is given the schema; a file of the
    current identity; and one of the previous identity, which is migrated in
    place.  The state is the file between two openings: its tables with their
    columns, the identity row, and of the edges what the migration touches.
    Once a file is open its contents are [Storage.Tables]. *)

From Stdlib Require Import ZArith Lia String.
From S2P Require Import Prelude GoSort GoStrings Sql.
#[local] Open Scope Z_scope.

Definition schemaVersion : Z := 5.
Definition schemaIdentity : string := "rrc-instrumented-observations-v5".
Definition schemaIdentityV4 : string := "rrc-usage-grounded-accounting-v4".
Definition defaultEmbeddingDim : Z := 1024.

(** A row of [edges]: its [scorer_model], if the table has the column, and the
    text of its other columns. *)
Record EdgeRow := { ew_rest : string; ew_scorer_model : option string }.

Record File := {
  fl_tables : gmap string (list string);
  fl_identity : option (Z * string);
  fl_edges : list EdgeRow
}.

Definition no_file : File := {| fl_tables := ∅; fl_identity := None; fl_edges := [] |}.

(** ** The script *)

Inductive ddl :=
  | CREATE_TABLE (name : string) (columns : list string)
  | CREATE_INDEX (name table : string)
  | CREATE_TRIGGER (name table : string)
  | INSERT_IDENTITY (version : Z) (identity : string).

Definition no_such_table (name : string) : goerr := ENew ("no such table: " ^^ name).

Definition run_ddl (d : ddl) (f : File) : outcome File :=
  match d with
  | CREATE_TABLE name columns =>
      match fl_tables f !! name with
      | Some _ => Err (ENew ("table " ^^ name ^^ " already exists"))
      | None => Ok {| fl_tables := <[name := columns]> (fl_tables f); fl_identity := fl_identity f; fl_edges := fl_edges f |}
      end
  | CREATE_INDEX _ table | CREATE_TRIGGER _ table =>
      match fl_tables f !! table with Some _ => Ok f | None => Err (no_such_table table) end
  | INSERT_IDENTITY version identity =>
      match fl_tables f !! "schema_identity", fl_identity f with
      | None, _ => Err (no_such_table "schema_identity")
      | Some _, Some _ => Err (ENew "UNIQUE constraint failed: schema_identity.id")
      | Some _, None => Ok {| fl_tables := fl_tables f; fl_identity := Some (version, identity); fl_edges := fl_edges f |}
      end
  end.

(** Of the types of the columns only the one with the width is kept. *)
Definition chunkVectorsDDL (dim : Z) : list ddl := [
  CREATE_TABLE "chunk_vectors" ["chunk_rowid"; "embedding FLOAT[" ^^ itoa dim ^^ "]"; "model_id"; "message_id"; "chunk_index"; "thread_id"; "role"];
  CREATE_TABLE "chunk_vector_rowids" ["chunk_rowid"; "message_id"; "chunk_index"; "model_id"];
  CREATE_TRIGGER "trg_cv_cascade_chunks" "chunks"
].

Definition edge_columns : list string :=
  ["from_message_id"; "to_message_id"; "score"; "source"; "cross_encoder_score"; "detected_at"; "from_thread_id";
   "to_thread_id"; "scorer_model"].

Definition schema : list ddl := [
  CREATE_TABLE "schema_identity" ["id"; "version"; "identity"];
  INSERT_IDENTITY schemaVersion schemaIdentity;
  CREATE_TABLE "threads" ["id"; "name"; "sandboxed"; "created_at"; "parent_thread_id"; "branch_point_position"; "archived_at"];
  CREATE_TABLE "thread_working_dirs" ["thread_id"; "dir"];
  CREATE_TABLE "messages" ["id"; "thread_id"; "role"; "content"; "position"; "created_at"; "turn_id"];
  CREATE_INDEX "idx_messages_thread_pos" "messages";
  CREATE_INDEX "idx_messages_turn" "messages";
  CREATE_TABLE "edges" edge_columns;
  CREATE_INDEX "idx_edges_to" "edges";
  CREATE_INDEX "idx_edges_from_source" "edges";
  CREATE_TABLE "chunks" ["message_id"; "chunk_index"; "text"; "byte_start"; "byte_end"; "token_est"];
  CREATE_INDEX "idx_chunks_message" "chunks";
  CREATE_TABLE "plans" ["id"; "thread_id"; "slug"; "dir_path"; "updated_at"];
  CREATE_INDEX "idx_plans_thread" "plans";
  CREATE_TABLE "view_state" ["thread_id"; "state"; "updated_at"];
  CREATE_TABLE "agent_state" ["thread_id"; "status"; "mode"; "round_count"; "started_at"; "duration_limit"; "updated_at"];
  CREATE_TABLE "user_input_history" ["id"; "thread_id"; "input"; "created_at"];
  CREATE_INDEX "idx_input_history_thread" "user_input_history";
  CREATE_TABLE "embedding_meta" ["id"; "dim"; "model_id"; "updated_at"]] ++
  chunkVectorsDDL defaultEmbeddingDim ++ [
  CREATE_TABLE "scores" ["local_context_fingerprint"; "local_context_chunk_index"; "candidate_message_id"; "candidate_chunk_index"; "model_id"; "score"];
  CREATE_INDEX "idx_scores_local_context" "scores";
  CREATE_TABLE "selections" ["event_id"; "anchor_message_id"; "result"; "created_at"];
  CREATE_INDEX "idx_selections_anchor" "selections";
  CREATE_TABLE "tick_traces"
    ["id"; "thread_id"; "round"; "created_at"; "t_rrc_prerequisite_selection_ms"; "t_select_ms"; "t_assemble_ms"; "t_complete_ms";
     "t_stream_ms"; "t_persist_ms"; "t_total_ms"; "completer_model"; "corpus_size"; "selected_count"; "assembled_tokens_est";
     "usage_predicted_tokens"; "usage_prompt_tokens"; "usage_completion_tokens"; "errored"; "error_msg"];
  CREATE_INDEX "idx_tick_traces_thread_id" "tick_traces"
].

(** ** Initialisation *)

Section Open.
Context `{Env}.
#[local] Abbreviation M := (GoM (World File)).

(** [d.Exec] of a script runs its statements one by one, each on its own. *)
Definition exec_script (script : list ddl) : M unit := foldM (M := GoM (World File)) (fun _ d => exec (run_ddl d)) tt script.

Definition add_scorer_model (f : File) : outcome File :=
  match fl_tables f !! "edges" with
  | None => Err (no_such_table "edges")
  | Some columns =>
      if bool_decide ("scorer_model" ∈ columns) then Err (ENew "duplicate column name: scorer_model")
      else Ok {| fl_tables := <["edges" := columns ++ ["scorer_model"]]> (fl_tables f); fl_identity := fl_identity f;
                 fl_edges := (fun r => {| ew_rest := ew_rest r; ew_scorer_model := Some "" |}) <$> fl_edges f |}
  end.

(** [UPDATE schema_identity ... WHERE id = 1] *)
Definition set_identity (version : Z) (identity : string) (f : File) : outcome File :=
  match fl_tables f !! "schema_identity" with
  | None => Err (no_such_table "schema_identity")
  | Some _ => Ok {| fl_tables := fl_tables f; fl_identity := (fun _ => (version, identity)) <$> fl_identity f; fl_edges := fl_edges f |}
  end.

(** [PRAGMA table_info] of a table that does not exist has no rows. *)
Definition migrateV4ToV5 : M unit :=
  columns ← query (fun f => default [] (fl_tables f !! "edges"));
  _ ← (if bool_decide ("scorer_model" ∈ columns) then mret tt else exec add_scorer_model);
  exec (set_identity schemaVersion schemaIdentity).

Definition wrap_err {A} (pre : string) (m : M A) : M A := fun w =>
  match m w with (w', Err e) => (w', Err (EWrap pre e "")) | r => r end.

(** Any error of the row's query becomes one text. *)
Definition read_identity : M (Z * string) := fun w =>
  let unsupported := ENew "unsupported development database; delete grudge.db and restart" in
  match query (fun f => _ ← fl_tables f !! "schema_identity"; fl_identity f) w with
  | (w', Ok (Some row)) => (w', Ok row)
  | (w', Panic s) => (w', Panic s)
  | (w', _) => (w', Err unsupported)
  end.

Definition initialize : M unit :=
  tableCount ← query (fun f => Z.of_nat (size (fl_tables f)));
  if tableCount =? 0 then wrap_err "create schema: " (exec_script schema)
  else
    row ← read_identity;
    row ← (if bool_decide (row = (4, schemaIdentityV4))
           then _ ← wrap_err "migrate schema v4 -> v5: " migrateV4ToV5; mret (schemaVersion, schemaIdentity)
           else mret row);
    if bool_decide (row = (schemaVersion, schemaIdentity)) then mret tt
    else gom_err (ENew ("unsupported database schema " ^^ itoa row.1 ^^ " (" ^^ row.2 ^^ "); delete grudge.db and restart")).

(** [sql.Open], [Ping] and the journal mode the driver reports. *)
Definition Open (sql_Open : option goerr) (journal_mode : string) : M unit :=
  match sql_Open with
  | Some e => gom_err (EWrap "open db: " e "")
  | None =>
      _ ← wrap_err "ping db: " (query (fun _ => tt));
      mode ← wrap_err "read journal_mode: " (query (fun _ => journal_mode));
      if negb (String.eqb mode "wal") then gom_err (ENew ("journal_mode is " ^^ quoted mode ^^ ", expected wal"))
      else initialize
  end.
End Open.

(** ** What opening a file leaves behind *)

Definition current (f : File) : Prop := fl_identity f = Some (schemaVersion, schemaIdentity).

(** A file of the previous identity, its column added or not yet. *)
Definition v4 (f : File) : Prop :=
  fl_identity f = Some (4, schemaIdentityV4) /\ is_Some (fl_tables f !! "schema_identity") /\ is_Some (fl_tables f !! "edges").

(** The file with the column, and with the identity as well. *)
Definition with_column (f : File) : File := match add_scorer_model f with Ok f' => f' | _ => f end.
Definition migrated (f : File) : File :=
  {| fl_tables := fl_tables (with_column f); fl_identity := Some (schemaVersion, schemaIdentity); fl_edges := fl_edges (with_column f) |}.

(** On the way from [f0] to its migration. *)
Definition migrating (f0 f : File) : Prop := f = f0 \/ f = with_column f0 \/ f = migrated f0.

Lemma with_column_cases f : v4 f ->
  exists columns, fl_tables (with_column f) !! "edges" = Some columns /\ "scorer_model" ∈ columns /\
    is_Some (fl_tables (with_column f) !! "schema_identity") /\ fl_identity (with_column f) = Some (4, schemaIdentityV4) /\
    (f = with_column f \/
     exists old, fl_tables f !! "edges" = Some old /\ "scorer_model" ∉ old /\ add_scorer_model f = Ok (with_column f)).
Proof.
  intros (Hid & Hsi & [old Hed]). unfold with_column, add_scorer_model. rewrite Hed. case_bool_decide as Hin; cbn.
  - exists old. by repeat split; auto.
  - exists (old ++ ["scorer_model"]). rewrite lookup_insert_eq, lookup_insert_ne by done. split; [done|]. split; [set_solver|].
    split; [done|]. split; [done|]. right. by exists old.
Qed.

Section Opened.
Context `{Env}.

(** No interaction from here on is refused. *)
Definition calm (w : World File) : Prop := forall n, (w_tick w <= n)%nat -> e_fault n = None.

Lemma query_cases {A} (f : File -> A) (w : World File) : exists w', w_tables w' = w_tables w /\ (calm w -> calm w') /\
  (query f w = (w', Ok (f (w_tables w))) \/ exists e, query f w = (w', Err e) /\ ~ calm w).
Proof.
  unfold query, statement. destruct (e_fault (w_tick w)) as [e|] eqn:E.
  - exists (next w). split; [done|]. split; [intros Hc n Hn; apply Hc; cbn in Hn; lia|]. right. exists e. split; [done|].
    intros Hc. rewrite Hc in E by lia. done.
  - exists (set_tables (w_tables w) (next w)). split; [done|]. split; [intros Hc n Hn; apply Hc; cbn in Hn; lia|]. by left.
Qed.

Lemma exec_cases (f : File -> outcome File) f' (w : World File) : f (w_tables w) = Ok f' -> exists w', (calm w -> calm w') /\
  ((exec f w = (w', Ok tt) /\ w_tables w' = f') \/ (exists e, exec f w = (w', Err e) /\ w_tables w' = w_tables w /\ ~ calm w)).
Proof.
  intros Hf. unfold exec, statement. destruct (e_fault (w_tick w)) as [e|] eqn:E.
  - exists (next w). split; [intros Hc n Hn; apply Hc; cbn in Hn; lia|]. right. exists e. repeat split; try done.
    intros Hc. rewrite Hc in E by lia. done.
  - eexists. split; [|left; split; [by rewrite Hf|done]]. intros Hc n Hn. apply Hc. cbn in Hn. lia.
Qed.

(** [m] fails only where a statement was refused, and leaves [P] or [Q]. *)
Definition attempt {A} (m : GoM (World File) A) (w : World File) (P Q : File -> Prop) : Prop := exists w', (calm w -> calm w') /\
  ((exists a, m w = (w', Ok a) /\ P (w_tables w')) \/ (exists e, m w = (w', Err e) /\ Q (w_tables w') /\ ~ calm w)).

Lemma attempt_wrap {A} pre (m : GoM (World File) A) w P Q : attempt m w P Q -> attempt (wrap_err pre m) w P Q.
Proof.
  intros (w' & Hc & Hcase). exists w'. split; [done|]. unfold wrap_err. destruct Hcase as [(a & -> & Hp)|(e & -> & Hq)].
  - left. by exists a.
  - right. eexists. by split.
Qed.

Lemma migrate_attempt f0 w : v4 f0 -> w_tables w = f0 \/ w_tables w = with_column f0 ->
  attempt migrateV4ToV5 w (eq (migrated f0)) (migrating f0).
Proof.
  intros Hv4 Hw. pose proof (with_column_cases _ Hv4) as (columns & Hed & Hin & [si Hsi] & Hid & Hcol).
  assert (set_identity schemaVersion schemaIdentity (with_column f0) = Ok (migrated f0)) as Hset.
  { unfold set_identity. rewrite Hsi, Hid. done. }
  unfold migrateV4ToV5, attempt, mbind, gom_bind.
  destruct (query_cases (fun f => default [] (fl_tables f !! "edges")) w) as (w1 & E1 & Hc1 & [->|(e & -> & Hnc)]); cycle 1.
  { exists w1. split; [done|]. right. exists e. rewrite E1. split; [done|]. split; [|done]. unfold migrating. tauto. }
  assert (forall w2, w_tables w2 = with_column f0 -> (calm w -> calm w2) ->
    attempt (exec (set_identity schemaVersion schemaIdentity)) w2 (eq (migrated f0)) (migrating f0)) as Hlast.
  { intros w2 E2 _. destruct (exec_cases _ (migrated f0) w2 (eq_trans (f_equal _ E2) Hset)) as (w3 & Hc & [[E3 Hm]|(e & E3 & Hm & Hnc)]).
    - exists w3. split; [done|]. left. by exists tt.
    - exists w3. split; [done|]. right. exists e. rewrite Hm, E2. split; [done|]. split; [|done]. unfold migrating. tauto. }
  assert (forall w2, w_tables w2 = with_column f0 -> (calm w -> calm w2) -> exists w', (calm w -> calm w') /\
    ((exists a, exec (set_identity schemaVersion schemaIdentity) w2 = (w', Ok a) /\ migrated f0 = w_tables w') \/
     (exists e, exec (set_identity schemaVersion schemaIdentity) w2 = (w', Err e) /\ migrating f0 (w_tables w') /\ ~ calm w))) as Hend.
  { intros w2 E2 Hc2. destruct (Hlast w2 E2 Hc2) as (w' & Hc & Hcase). exists w'. split; [auto|].
    destruct Hcase as [?|(e & ? & ? & ?)]; [by left|right]. exists e. tauto. }
  cbn [fst snd]. case_bool_decide as Hhas; cbn [mret gom_ret].
  - apply Hend; [|done]. rewrite E1. destruct Hw as [Hw|Hw]; [|done]. rewrite Hw in *.
    destruct Hcol as [?|(old & Ho & Hno & _)]; [done|]. rewrite Ho in Hhas. done.
  - assert (add_scorer_model (w_tables w1) = Ok (with_column f0)) as Hadd.
    { rewrite E1. destruct Hw as [Hw|Hw]; rewrite Hw in *; [|by rewrite Hed in Hhas].
      destruct Hcol as [Heq|(old & Ho & Hno & ?)]; [|done]. rewrite Heq, Hed in Hhas. done. }
    destruct (exec_cases add_scorer_model _ w1 Hadd) as (w2 & Hc2 & [[-> E2]|(e & -> & E2 & Hnc)]); [apply Hend; auto|].
    exists w2. split; [auto|]. right. exists e. rewrite E2, E1. split; [done|]. split; [unfold migrating; tauto|tauto].
Qed.

Lemma migrating_shape f0 f : v4 f0 -> migrating f0 f ->
  (size (fl_tables f) <> 0)%nat /\ is_Some (fl_tables f !! "schema_identity") /\
  (fl_identity f = Some (4, schemaIdentityV4) /\ (f = f0 \/ f = with_column f0) \/
   fl_identity f = Some (schemaVersion, schemaIdentity) /\ f = migrated f0).
Proof.
  intros Hv4 Hf. pose proof (with_column_cases _ Hv4) as (_ & _ & _ & Hsi & Hid & _). destruct Hv4 as (Hid0 & Hsi0 & _).
  assert (is_Some (fl_tables f !! "schema_identity")) as Hs by (by destruct Hf as [->|[->| ->]]).
  split; [|split; [done|]].
  - intros Hz%map_size_empty_inv. rewrite Hz, lookup_empty in Hs. by destruct Hs.
  - destruct Hf as [->|[->| ->]]; auto.
Qed.

Lemma initialize_attempt f0 w : v4 f0 -> migrating f0 (w_tables w) -> attempt initialize w (eq (migrated f0)) (migrating f0).
Proof.
  intros Hv4 Hw. destruct (migrating_shape _ _ Hv4 Hw) as (Hsize & [si Hsi] & Hid).
  unfold initialize, attempt, mbind, gom_bind.
  destruct (query_cases (fun f => Z.of_nat (size (fl_tables f))) w) as (w1 & E1 & Hc1 & [->|(e & -> & Hnc)]); cycle 1.
  { exists w1. split; [done|]. right. exists e. by rewrite E1. }
  destruct (Z.eqb_spec (Z.of_nat (size (fl_tables (w_tables w)))) 0) as [?|_]; [lia|]. unfold read_identity.
  destruct (query_cases (fun f => _ ← fl_tables f !! "schema_identity"; fl_identity f) w1) as (w2 & E2 & Hc2 & [->|(e & -> & Hnc)]); cycle 1.
  { exists w2. split; [auto|]. right. eexists. rewrite E2, E1. split; [reflexivity|]. tauto. }
  rewrite E1, Hsi in *. cbn [mbind option_bind]. destruct Hid as [[-> Hf]|[-> Hf]].
  - rewrite bool_decide_true by done.
    destruct (attempt_wrap "migrate schema v4 -> v5: " _ w2 _ _ (migrate_attempt f0 w2 Hv4 ltac:(by rewrite E2)))
      as (w3 & Hc3 & [(a & -> & Hm)|(e & -> & Hm & Hnc)]).
    + exists w3. split; [auto|]. left. by exists tt.
    + exists w3. split; [auto|]. right. exists e. tauto.
  - rewrite bool_decide_false by done. cbn. exists w2. split; [auto|]. left. exists tt. rewrite E2, Hf. by split.
Qed.

(** The file after [n] openings. *)
Definition reopened (n : nat) (w : World File) : World File := Nat.iter n (fun w => (initialize w).1) w.

Lemma reopened_migrating f0 n w : v4 f0 -> w_tables w = f0 -> migrating f0 (w_tables (reopened n w)).
Proof.
  intros Hv4 Hw. induction n as [|n IH]; [by left|].
  change (reopened (S n) w) with (initialize (reopened n w)).1.
  destruct (initialize_attempt _ _ Hv4 IH) as (w' & _ & [(a & -> & Hm)|(e & -> & Hm & _)]); cbn; [|done].
  rewrite <- Hm. unfold migrating. tauto.
Qed.

(** What is kept: the rows of every table, and the columns of all but one. *)
Lemma migrated_keeps f : v4 f ->
  current (migrated f) /\ ew_rest <$> fl_edges (migrated f) = ew_rest <$> fl_edges f /\
  (forall name, name <> "edges" -> fl_tables (migrated f) !! name = fl_tables f !! name) /\
  (exists columns, fl_tables (migrated f) !! "edges" = Some columns /\ "scorer_model" ∈ columns).
Proof.
  intros Hv4. pose proof (with_column_cases _ Hv4) as (columns & Hed & Hin & _). split; [done|].
  split; [|split; [|by exists columns]]; unfold migrated, with_column, add_scorer_model; cbn;
    (destruct (fl_tables f !! "edges") as [cols|]; [|done]; case_bool_decide; [done|]); cbn.
  - by rewrite <- list_fmap_compose.
  - intros name Hn. by rewrite lookup_insert_ne.
Qed.


(** ** New files and foreign ones *)

Definition run_script (script : list ddl) (f : File) : outcome File := foldM (fun f d => run_ddl d f) f script.

Lemma exec_script_run script w w' : exec_script script w = (w', Ok tt) -> run_script script (w_tables w) = Ok (w_tables w').
Proof.
  unfold exec_script, run_script. revert w. induction script as [|d script IH]; intros w; cbn; [by intros [= <-]|].
  unfold mbind at 1, gom_bind at 1, exec, statement. destruct (e_fault (w_tick w)); [done|].
  destruct (run_ddl d (w_tables w)) as [f|e|s] eqn:E; cbn; try done. intros Hx.
  apply IH in Hx. cbn in Hx. by rewrite <- Hx.
Qed.
End Opened.

Definition bootstrap : File := match run_script schema no_file with Ok f => f | _ => no_file end.

Lemma schema_runs : run_script schema no_file = Ok bootstrap.
Proof. vm_compute. reflexivity. Qed.

(** An empty file an opening accepts has the whole schema. *)
Lemma initialize_new `{Env} w w' : w_tables w = no_file -> initialize w = (w', Ok tt) -> w_tables w' = bootstrap.
Proof.
  intros Hw. unfold initialize, mbind, gom_bind.
  destruct (query_cases (fun f => Z.of_nat (size (fl_tables f))) w) as (w1 & E1 & _ & [->|(e & -> & _)]); [|done].
  rewrite Hw in *. destruct (Z.eqb_spec (Z.of_nat (size (fl_tables no_file))) 0) as [_|Hn]; [|by destruct Hn]. unfold wrap_err. destruct (exec_script schema w1) as [w2 [[]|e|s]] eqn:E; try done.
  intros E'. injection E' as <-. apply exec_script_run in E. rewrite E1, schema_runs in E.
  revert E. generalize bootstrap. by intros b [= <-].
Qed.

(** Any other file is left as it is, and accepted only with the current identity. *)
Lemma initialize_gate `{Env} w w' r : (size (fl_tables (w_tables w)) <> 0)%nat -> fl_identity (w_tables w) <> Some (4, schemaIdentityV4) ->
  initialize w = (w', r) -> w_tables w' = w_tables w /\ (r = Ok tt -> current (w_tables w)).
Proof.
  intros Hsize Hid. unfold initialize, mbind, gom_bind.
  destruct (query_cases (fun f => Z.of_nat (size (fl_tables f))) w) as (w1 & E1 & _ & [->|(e & -> & _)]); [|by intros [= <- <-]].
  destruct (Z.eqb_spec (Z.of_nat (size (fl_tables (w_tables w)))) 0) as [?|_]; [lia|]. unfold read_identity.
  destruct (query_cases (fun f => _ ← fl_tables f !! "schema_identity"; fl_identity f) w1) as (w2 & E2 & _ & [->|(e & -> & _)]);
    [|intros [= <- <-]; by rewrite E2, E1].
  rewrite E1 in *. destruct (fl_tables (w_tables w) !! "schema_identity") as [si|]; cbn [mbind option_bind];
    [|by intros [= <- <-]].
  destruct (fl_identity (w_tables w)) as [row|] eqn:Er; [|by intros [= <- <-]].
  rewrite bool_decide_false by congruence. cbn. case_bool_decide as Hrow; intros [= <- <-]; [|done].
  split; [done|]. intros _. unfold current. by rewrite Er, Hrow.
Qed.

(** ** Runs *)
Module SampleSchema.
(** The [n]-th interaction is refused. *)
Definition failing (k : nat) : Env :=
  {| e_fault := fun n => if (n =? k)%nat then Some (ENew "disk I/O error") else None; e_now := fun _ => 0; e_ctx := fun _ => None;
     e_constraint := ENew "constraint failed" |}.

Definition at_tick (f : File) : World File := {| w_tables := f; w_tick := 0 |}.

(** An edge of a database of the previous identity. *)
Definition old : File :=
  {| fl_tables := <["edges" := take 8 edge_columns]> (fl_tables bootstrap); fl_identity := Some (4, schemaIdentityV4);
     fl_edges := [{| ew_rest := "m1-m2"; ew_scorer_model := None |}] |}.

(** The update of the identity fails, the next opening completes it. *)
Example migration_interrupted :
  let w1 := reopened (H := failing 4) 1 (at_tick old) in
  fl_identity (w_tables w1) = Some (4, schemaIdentityV4) /\ ew_scorer_model <$> fl_edges (w_tables w1) = [Some ""] /\
  w_tables (reopened (H := failing 4) 2 (at_tick old)) = migrated old.
Proof. repeat split; vm_compute; reflexivity. Qed.

(** The identity row is the second statement of the script: when the creation of
    a new database breaks off after it, the next opening accepts the file, and
    most of its tables are missing. *)
Example torn_schema :
  let w1 := reopened (H := failing 4) 1 (at_tick no_file) in
  (initialize (H := failing 4) (at_tick no_file)).2 = Err (EWrap "create schema: " (ENew "disk I/O error") "") /\
  (initialize (H := failing 4) w1).2 = Ok tt /\ fl_tables (w_tables w1) !! "threads" <> None /\
  fl_tables (w_tables w1) !! "messages" = None.
Proof. vm_compute. split; [reflexivity|]. split; [reflexivity|]. split; [discriminate|reflexivity]. Qed.

Example journal_refused :
  (Open (H := failing 9) None "delete" (at_tick no_file)).2 = Err (ENew ("journal_mode is " ^^ quoted "delete" ^^ ", expected wal")).
Proof. vm_compute. reflexivity. Qed.

End SampleSchema.
