(* ===== verification/Storage.v ===== *)
(** * The relational store ([service/storage])

    The tables of [schema.go] as lists of rows and the methods of [*DB] on
    threads, messages, chunks, edges and scores.  A row's constraints (keys,
    references, the actions on delete) are those the schema declares; a query
    without [ORDER BY] gives its rows in any order, and one with it breaks ties
    in any way ([SliceSort]).  The encoding of the content column is
    [proto.Marshal], a parameter.

    What the schema enforces, and that every write keeps it, is in [Integrity];
    that the pair write behind protocol closure is all or nothing, in
    [Pairing]. *)

From Stdlib Require Import ZArith Lia String Ascii.
From stdpp Require Import sorting.
From S2P Require Import Prelude GoFloat GoSort GoStrings Types Sql.
#[local] Open Scope Z_scope.

(** ** The schema *)

(** The proto message [grudge.thread.v1.Thread]. *)
Record Thread := {
  th_Id : string;
  th_Name : string;
  th_WorkingDirs : list string;
  th_Sandboxed : bool;
  th_CreatedAt : option (Z * Z);
  th_ParentThreadId : option string;
  th_BranchPointPosition : option Z;
  th_ArchivedAt : option (Z * Z)
}.

Record ThreadRow := {
  t_id : string;
  t_name : string;
  t_sandboxed : bool;
  t_created_at : Z * Z;
  t_parent : option string;
  t_branch : option Z;
  t_archived : option (Z * Z)
}.

(** The role column holds the enumeration's number, the content column the
    encoded blocks. *)
Record MessageRow := {
  r_id : string;
  r_thread_id : string;
  r_role : Role;
  r_content : string;
  r_position : Z;
  r_created_at : Z * Z;
  r_turn_id : string
}.

Record Chunk := {
  c_MessageID : string;
  c_ChunkIndex : Z;
  c_Text : string;
  c_ByteStart : Z;
  c_ByteEnd : Z;
  c_TokenEst : Z
}.

Record VectorRow := {
  v_rowid : Z;
  v_message_id : string;
  v_chunk_index : Z;
  v_thread_id : string;
  v_model_id : string;
  v_role : Role;
  v_embedding : string
}.

Record RowidRow := { i_rowid : Z; i_message_id : string; i_chunk_index : Z; i_model_id : string }.

Record LocalContextScoreKey := {
  lk_LocalContextFingerprint : string;
  lk_LocalContextChunkIndex : Z;
  lk_CandidateID : string;
  lk_CandidateChunkIdx : Z
}.
#[export] Instance LocalContextScoreKey_eq_dec : EqDecision LocalContextScoreKey.
Proof. solve_decision. Defined.
#[export] Instance LocalContextScoreKey_countable : Countable LocalContextScoreKey.
Proof.
  refine (inj_countable'
    (fun k => (lk_LocalContextFingerprint k, lk_LocalContextChunkIndex k, lk_CandidateID k, lk_CandidateChunkIdx k))
    (fun '(a, b, c, d) => Build_LocalContextScoreKey a b c d) _).
  by intros [].
Defined.

Record ScoreRow := { s_key : LocalContextScoreKey; s_model_id : string; s_score : float }.

(** The columns of [storage.TickTrace] without its creation time. *)
Record TickTrace := {
  tt_ID : Z;
  tt_ThreadID : string;
  tt_Round : Z;
  tt_RRCPrerequisiteSelectionMs : Z;
  tt_SelectMs : Z;
  tt_AssembleMs : Z;
  tt_CompleteMs : Z;
  tt_StreamMs : Z;
  tt_PersistMs : Z;
  tt_TotalMs : Z;
  tt_CompleterModel : string;
  tt_CorpusSize : Z;
  tt_SelectedCount : Z;
  tt_AssembledTokensEst : Z;
  tt_UsagePredictedTokens : Z;
  tt_UsagePromptTokens : Z;
  tt_UsageCompletionTokens : Z;
  tt_Errored : bool;
  tt_ErrorMsg : string
}.

Inductive AgentStatus := AgentStatusIdle | AgentStatusRunning | AgentStatusPaused.
Inductive AgentMode := AgentModeNormal | AgentModeAutonomous | AgentModePlan.
#[export] Instance AgentStatus_eq_dec : EqDecision AgentStatus.
Proof. solve_decision. Defined.
#[export] Instance AgentMode_eq_dec : EqDecision AgentMode.
Proof. solve_decision. Defined.

(** A row of [agent_state]; times in nanoseconds. *)
Record AgentState := {
  as_ThreadID : string;
  as_Status : AgentStatus;
  as_Mode : AgentMode;
  as_RoundCount : Z;
  as_StartedAt : option Z;
  as_DurationLimit : option string
}.

(** A row of [selections]: the encoded result under its event, with the anchor
    and the creation time in seconds. *)
Record SelectionRow := { sel_event : string; sel_anchor : string; sel_result : string; sel_created : Z }.

(** A row of [plans]; its update time is kept beside it. *)
Record Plan := { pl_ID : string; pl_ThreadID : string; pl_Slug : string; pl_DirPath : string }.

(** A chunk row carries its rowid; the counters are those of the
    AUTOINCREMENT keys of [chunk_vector_rowids] and [tick_traces], [tb_dim] is
    the declared width of [chunk_vectors], [tb_meta] the row of
    [embedding_meta]. *)
Record Tables := {
  tb_threads : list ThreadRow;
  tb_dirs : list (string * string);
  tb_messages : list MessageRow;
  tb_chunks : list (Z * Chunk);
  tb_edges : list Edge;
  tb_scores : list ScoreRow;
  tb_agents : list AgentState;
  tb_selections : list SelectionRow;
  tb_plans : list (Z * Plan);
  tb_views : list (string * string);
  tb_traces : list TickTrace;
  tb_next_trace : Z;
  tb_vectors : list VectorRow;
  tb_rowids : list RowidRow;
  tb_next_rowid : Z;
  tb_dim : Z;
  tb_meta : option (Z * string)
}.

(** The bootstrap schema. *)
Definition empty_tables : Tables :=
  {| tb_threads := []; tb_dirs := []; tb_messages := []; tb_chunks := []; tb_edges := []; tb_scores := [];
     tb_agents := []; tb_selections := []; tb_plans := []; tb_views := []; tb_traces := []; tb_next_trace := 1;
     tb_vectors := []; tb_rowids := []; tb_next_rowid := 1; tb_dim := 1024; tb_meta := None |}.

Definition set_threads (f : list ThreadRow -> list ThreadRow) (t : Tables) : Tables :=
  {| tb_threads := f (tb_threads t); tb_dirs := tb_dirs t; tb_messages := tb_messages t; tb_chunks := tb_chunks t;
     tb_edges := tb_edges t; tb_scores := tb_scores t; tb_agents := tb_agents t; tb_selections := tb_selections t;
     tb_plans := tb_plans t; tb_views := tb_views t; tb_traces := tb_traces t; tb_next_trace := tb_next_trace t;
     tb_vectors := tb_vectors t; tb_rowids := tb_rowids t; tb_next_rowid := tb_next_rowid t; tb_dim := tb_dim t;
     tb_meta := tb_meta t |}.
Definition set_dirs (f : list (string * string) -> list (string * string)) (t : Tables) : Tables :=
  {| tb_threads := tb_threads t; tb_dirs := f (tb_dirs t); tb_messages := tb_messages t; tb_chunks := tb_chunks t;
     tb_edges := tb_edges t; tb_scores := tb_scores t; tb_agents := tb_agents t; tb_selections := tb_selections t;
     tb_plans := tb_plans t; tb_views := tb_views t; tb_traces := tb_traces t; tb_next_trace := tb_next_trace t;
     tb_vectors := tb_vectors t; tb_rowids := tb_rowids t; tb_next_rowid := tb_next_rowid t; tb_dim := tb_dim t;
     tb_meta := tb_meta t |}.
Definition set_messages (f : list MessageRow -> list MessageRow) (t : Tables) : Tables :=
  {| tb_threads := tb_threads t; tb_dirs := tb_dirs t; tb_messages := f (tb_messages t); tb_chunks := tb_chunks t;
     tb_edges := tb_edges t; tb_scores := tb_scores t; tb_agents := tb_agents t; tb_selections := tb_selections t;
     tb_plans := tb_plans t; tb_views := tb_views t; tb_traces := tb_traces t; tb_next_trace := tb_next_trace t;
     tb_vectors := tb_vectors t; tb_rowids := tb_rowids t; tb_next_rowid := tb_next_rowid t; tb_dim := tb_dim t;
     tb_meta := tb_meta t |}.
Definition set_chunks (f : list (Z * Chunk) -> list (Z * Chunk)) (t : Tables) : Tables :=
  {| tb_threads := tb_threads t; tb_dirs := tb_dirs t; tb_messages := tb_messages t; tb_chunks := f (tb_chunks t);
     tb_edges := tb_edges t; tb_scores := tb_scores t; tb_agents := tb_agents t; tb_selections := tb_selections t;
     tb_plans := tb_plans t; tb_views := tb_views t; tb_traces := tb_traces t; tb_next_trace := tb_next_trace t;
     tb_vectors := tb_vectors t; tb_rowids := tb_rowids t; tb_next_rowid := tb_next_rowid t; tb_dim := tb_dim t;
     tb_meta := tb_meta t |}.
Definition set_edges (f : list Edge -> list Edge) (t : Tables) : Tables :=
  {| tb_threads := tb_threads t; tb_dirs := tb_dirs t; tb_messages := tb_messages t; tb_chunks := tb_chunks t;
     tb_edges := f (tb_edges t); tb_scores := tb_scores t; tb_agents := tb_agents t;
     tb_selections := tb_selections t; tb_plans := tb_plans t; tb_views := tb_views t; tb_traces := tb_traces t;
     tb_next_trace := tb_next_trace t; tb_vectors := tb_vectors t; tb_rowids := tb_rowids t;
     tb_next_rowid := tb_next_rowid t; tb_dim := tb_dim t; tb_meta := tb_meta t |}.
Definition set_scores (f : list ScoreRow -> list ScoreRow) (t : Tables) : Tables :=
  {| tb_threads := tb_threads t; tb_dirs := tb_dirs t; tb_messages := tb_messages t; tb_chunks := tb_chunks t;
     tb_edges := tb_edges t; tb_scores := f (tb_scores t); tb_agents := tb_agents t;
     tb_selections := tb_selections t; tb_plans := tb_plans t; tb_views := tb_views t; tb_traces := tb_traces t;
     tb_next_trace := tb_next_trace t; tb_vectors := tb_vectors t; tb_rowids := tb_rowids t;
     tb_next_rowid := tb_next_rowid t; tb_dim := tb_dim t; tb_meta := tb_meta t |}.
Definition set_agents (f : list AgentState -> list AgentState) (t : Tables) : Tables :=
  {| tb_threads := tb_threads t; tb_dirs := tb_dirs t; tb_messages := tb_messages t; tb_chunks := tb_chunks t;
     tb_edges := tb_edges t; tb_scores := tb_scores t; tb_agents := f (tb_agents t);
     tb_selections := tb_selections t; tb_plans := tb_plans t; tb_views := tb_views t; tb_traces := tb_traces t;
     tb_next_trace := tb_next_trace t; tb_vectors := tb_vectors t; tb_rowids := tb_rowids t;
     tb_next_rowid := tb_next_rowid t; tb_dim := tb_dim t; tb_meta := tb_meta t |}.
Definition set_selections (f : list SelectionRow -> list SelectionRow) (t : Tables) : Tables :=
  {| tb_threads := tb_threads t; tb_dirs := tb_dirs t; tb_messages := tb_messages t; tb_chunks := tb_chunks t;
     tb_edges := tb_edges t; tb_scores := tb_scores t; tb_agents := tb_agents t;
     tb_selections := f (tb_selections t); tb_plans := tb_plans t; tb_views := tb_views t;
     tb_traces := tb_traces t; tb_next_trace := tb_next_trace t; tb_vectors := tb_vectors t;
     tb_rowids := tb_rowids t; tb_next_rowid := tb_next_rowid t; tb_dim := tb_dim t; tb_meta := tb_meta t |}.
Definition set_plans (f : list (Z * Plan) -> list (Z * Plan)) (t : Tables) : Tables :=
  {| tb_threads := tb_threads t; tb_dirs := tb_dirs t; tb_messages := tb_messages t; tb_chunks := tb_chunks t;
     tb_edges := tb_edges t; tb_scores := tb_scores t; tb_agents := tb_agents t; tb_selections := tb_selections t;
     tb_plans := f (tb_plans t); tb_views := tb_views t; tb_traces := tb_traces t;
     tb_next_trace := tb_next_trace t; tb_vectors := tb_vectors t; tb_rowids := tb_rowids t;
     tb_next_rowid := tb_next_rowid t; tb_dim := tb_dim t; tb_meta := tb_meta t |}.
Definition set_views (f : list (string * string) -> list (string * string)) (t : Tables) : Tables :=
  {| tb_threads := tb_threads t; tb_dirs := tb_dirs t; tb_messages := tb_messages t; tb_chunks := tb_chunks t;
     tb_edges := tb_edges t; tb_scores := tb_scores t; tb_agents := tb_agents t; tb_selections := tb_selections t;
     tb_plans := tb_plans t; tb_views := f (tb_views t); tb_traces := tb_traces t;
     tb_next_trace := tb_next_trace t; tb_vectors := tb_vectors t; tb_rowids := tb_rowids t;
     tb_next_rowid := tb_next_rowid t; tb_dim := tb_dim t; tb_meta := tb_meta t |}.
Definition set_vectors (f : list VectorRow -> list VectorRow) (t : Tables) : Tables :=
  {| tb_threads := tb_threads t; tb_dirs := tb_dirs t; tb_messages := tb_messages t; tb_chunks := tb_chunks t;
     tb_edges := tb_edges t; tb_scores := tb_scores t; tb_agents := tb_agents t; tb_selections := tb_selections t;
     tb_plans := tb_plans t; tb_views := tb_views t; tb_traces := tb_traces t; tb_next_trace := tb_next_trace t;
     tb_vectors := f (tb_vectors t); tb_rowids := tb_rowids t; tb_next_rowid := tb_next_rowid t;
     tb_dim := tb_dim t; tb_meta := tb_meta t |}.
Definition set_traces (f : list TickTrace -> list TickTrace) (n : Z) (t : Tables) : Tables :=
  {| tb_threads := tb_threads t; tb_dirs := tb_dirs t; tb_messages := tb_messages t; tb_chunks := tb_chunks t;
     tb_edges := tb_edges t; tb_scores := tb_scores t; tb_agents := tb_agents t; tb_selections := tb_selections t;
     tb_plans := tb_plans t; tb_views := tb_views t; tb_traces := f (tb_traces t); tb_next_trace := n;
     tb_vectors := tb_vectors t; tb_rowids := tb_rowids t; tb_next_rowid := tb_next_rowid t; tb_dim := tb_dim t;
     tb_meta := tb_meta t |}.
Definition set_rowids (f : list RowidRow -> list RowidRow) (n : Z) (t : Tables) : Tables :=
  {| tb_threads := tb_threads t; tb_dirs := tb_dirs t; tb_messages := tb_messages t; tb_chunks := tb_chunks t;
     tb_edges := tb_edges t; tb_scores := tb_scores t; tb_agents := tb_agents t; tb_selections := tb_selections t;
     tb_plans := tb_plans t; tb_views := tb_views t; tb_traces := tb_traces t; tb_next_trace := tb_next_trace t;
     tb_vectors := tb_vectors t; tb_rowids := f (tb_rowids t); tb_next_rowid := n; tb_dim := tb_dim t;
     tb_meta := tb_meta t |}.
Definition set_meta (dim : Z) (meta : option (Z * string)) (t : Tables) : Tables :=
  {| tb_threads := tb_threads t; tb_dirs := tb_dirs t; tb_messages := tb_messages t; tb_chunks := tb_chunks t;
     tb_edges := tb_edges t; tb_scores := tb_scores t; tb_agents := tb_agents t; tb_selections := tb_selections t;
     tb_plans := tb_plans t; tb_views := tb_views t; tb_traces := tb_traces t; tb_next_trace := tb_next_trace t;
     tb_vectors := tb_vectors t; tb_rowids := tb_rowids t; tb_next_rowid := tb_next_rowid t; tb_dim := dim;
     tb_meta := meta |}.

(** [INSERT OR REPLACE]: the row under the same key goes first. *)
Definition replace_where {A} (same : A -> bool) (x : A) (l : list A) : list A :=
  List.filter (fun y => negb (same y)) l ++ [x].
Definition delete_where {A} (p : A -> bool) (l : list A) : list A := List.filter (fun y => negb (p y)) l.
Definition where_ {A} (p : A -> bool) (l : list A) : list A := List.filter p l.

(** The cascade of [DELETE FROM chunks]: the scores that reference the chunk,
    and, by the trigger [trg_cv_cascade_chunks], its vectors and rowids. *)
Definition chunk_is (m : string) (i : Z) (m' : string) (i' : Z) : bool := String.eqb m m' && (i =? i').

Definition delete_chunks (p : Chunk -> bool) (t : Tables) : Tables :=
  let gone := where_ p (snd <$> tb_chunks t) in
  let hit (m : string) (i : Z) := existsb (fun c => chunk_is (c_MessageID c) (c_ChunkIndex c) m i) gone in
  set_chunks (delete_where (fun rc => p rc.2))
    (set_scores (delete_where (fun s => hit (lk_CandidateID (s_key s)) (lk_CandidateChunkIdx (s_key s))))
       (set_vectors (delete_where (fun v => hit (v_message_id v) (v_chunk_index v)))
          (set_rowids (delete_where (fun i => hit (i_message_id i) (i_chunk_index i))) (tb_next_rowid t) t))).

(** [DELETE FROM threads]: the rows that reference it with [ON DELETE CASCADE],
    and those that reference its messages; a branch references its parent
    without one and blocks the delete. *)
Definition delete_thread (refuse : goerr) (id : string) (t : Tables) : outcome Tables :=
  if existsb (fun r => negb (String.eqb (t_id r) id) && bool_decide (t_parent r = Some id)) (tb_threads t)
  then Err refuse
  else
    let own := r_id <$> where_ (fun r => String.eqb (r_thread_id r) id) (tb_messages t) in
    let gone (m : string) := bool_decide (m ∈ own) in
    Ok (set_threads (delete_where (fun r => String.eqb (t_id r) id))
          (set_dirs (delete_where (fun d => String.eqb d.1 id))
            (set_agents (delete_where (fun a => String.eqb (as_ThreadID a) id))
              (set_plans (delete_where (fun p => String.eqb (pl_ThreadID p.2) id))
                (set_views (delete_where (fun v => String.eqb v.1 id))
                  (set_selections (delete_where (fun s => gone (sel_anchor s)))
                    (set_messages (delete_where (fun r => String.eqb (r_thread_id r) id))
                      (delete_chunks (fun c => gone (c_MessageID c)) t)))))))).

(** ** Content encoding *)

(** [proto.Marshal] and [proto.Unmarshal] at [LLMMessage]; an encoding decodes
    to its message. *)
Class ProtoCodec := {
  proto_Marshal : LLMMessage -> outcome string;
  proto_Unmarshal : string -> outcome LLMMessage;
  proto_roundtrip : forall m s, proto_Marshal m = Ok s -> proto_Unmarshal s = Ok m;
  proto_settles : forall m, settles (proto_Marshal m)
}.

Definition sql_ErrNoRows : goerr := ENew "sql: no rows in result set".

(** [t.AsTime()] is the epoch for nil. *)
Definition AsTime (t : option (Z * Z)) : Z * Z := default (0, 0) t.
(** [timestamppb.Now()] *)
Definition timestamp_of (nano : Z) : Z * Z := (nano / 10 ^ 9, nano `mod` 10 ^ 9).

(** [TruncateThreadName] walks back from byte 57 to a blank. *)
Fixpoint word_boundary (name : string) (i fuel : nat) : nat :=
  match fuel with
  | O => i
  | S fuel' =>
      if (30 <? Z.of_nat i) && negb (bool_decide (String.get i name = Some " "%char))
      then word_boundary name (i - 1) fuel' else i
  end.

Definition TruncateThreadName (name : string) : string :=
  if Z.of_nat (slen name) <=? 60 then name
  else
    let i := word_boundary name 57 57 in
    if bool_decide (String.get i name = Some " "%char) then stake i name ^^ "..." else stake 57 name ^^ "...".

Section Storage.
Context {env : Env} {srt : SliceSort} {codec : ProtoCodec}.
#[local] Abbreviation M := (GoM (World Tables)).

Definition marshalContentBlocks (blocks : list ContentBlock) : outcome string :=
  proto_Marshal {| lm_Role := ROLE_UNSPECIFIED; lm_Content := blocks |}.
Definition unmarshalContentBlocks (data : string) : outcome (list ContentBlock) :=
  w ← proto_Unmarshal data; mret (lm_Content w).

(** One scanned row. *)
Definition row_with (content : list ContentBlock) (r : MessageRow) : Message :=
  {| m_Id := r_id r; m_Role := r_role r; m_Content := content; m_Position := r_position r;
     m_ThreadId := r_thread_id r; m_CreatedAt := Some (r_created_at r); m_TurnId := r_turn_id r |}.

Definition row_message (r : MessageRow) : outcome Message :=
  content ← unmarshalContentBlocks (r_content r); mret (row_with content r).

(** [msg.Content, _ = unmarshalContentBlocks(content)] *)
Definition row_message_lax (r : MessageRow) : Message :=
  row_with (match unmarshalContentBlocks (r_content r) with Ok c => c | _ => [] end) r.

Definition scanMessages (rows : list MessageRow) : outcome (list Message) := mapO row_message rows.

Definition in_thread (threadID : string) (r : MessageRow) : bool := String.eqb (r_thread_id r) threadID.
Definition in_turn_row (threadID turnID : string) (r : MessageRow) : bool :=
  String.eqb (r_thread_id r) threadID && String.eqb (r_turn_id r) turnID.

Definition by_position (a b : MessageRow) : bool := r_position a <? r_position b.
Definition by_position_desc (a b : MessageRow) : bool := r_position b <? r_position a.
Definition by_thread_position (a b : MessageRow) : bool :=
  str_lt (r_thread_id a) (r_thread_id b) ||
  String.eqb (r_thread_id a) (r_thread_id b) && (r_position a <? r_position b).

(** ** Reading messages *)

Definition Messages (ids : list string) : M (gmap string Message) :=
  match ids with
  | [] => mret ∅
  | _ =>
      rows ← query (fun t => any_order (where_ (fun r => bool_decide (r_id r ∈ ids)) (tb_messages t)));
      msgs ← gom_lift (scanMessages rows);
      mret (fold_left (fun out m => <[m_Id m := m]> out) msgs ∅)
  end.

(** The pairs of the [WHERE] clause: each (thread, turn) once, by its key. *)
Definition peer_clause (st : gset string * list (string * string)) (m : Message) : gset string * list (string * string) :=
  if String.eqb (m_TurnId m) "" then st
  else
    let key := m_ThreadId m ^^ nul ^^ m_TurnId m in
    if decide (key ∈ st.1) then st else ({[key]} ∪ st.1, st.2 ++ [(m_ThreadId m, m_TurnId m)]).

Definition peer_clauses (msgs : list Message) : list (string * string) := (fold_left peer_clause msgs (∅, [])).2.

Definition TurnPeers (msgs : list Message) : M (list Message) :=
  match peer_clauses msgs with
  | [] => mret []
  | clauses =>
      rows ← query (fun t => any_order
        (where_ (fun r => existsb (fun c => in_turn_row c.1 c.2 r) clauses) (tb_messages t)));
      gom_lift (scanMessages rows)
  end.

Definition MessageThreads : M (gmap string string) :=
  rows ← query (fun t => any_order (tb_messages t));
  mret (fold_left (fun out r => <[r_id r := r_thread_id r]> out) rows ∅).

Definition GetMessage (id : string) : M Message :=
  rows ← query (fun t => any_order (where_ (fun r => String.eqb (r_id r) id) (tb_messages t)));
  match rows with
  | [] => gom_err sql_ErrNoRows
  | r :: _ => gom_lift (row_message r)
  end.

Definition RecentMessages (threadID : string) (n : Z) : M (list Message) :=
  if n <=? 0 then mret []
  else
    rows ← query (fun t => take (Z.to_nat n)
      (sort_slice by_position_desc (where_ (in_thread threadID) (tb_messages t))));
    msgs ← gom_lift (scanMessages rows);
    mret (rev msgs).

Definition TurnMessages (threadID turnID : string) : M (list Message) :=
  if String.eqb turnID "" then mret []
  else
    rows ← query (fun t => any_order (where_ (in_turn_row threadID turnID) (tb_messages t)));
    gom_lift (scanMessages rows).

Definition ListMessages (threadID : string) (limit offset : Z) : M (list Message) :=
  rows ← query (fun t =>
    let rows := sort_slice by_position (where_ (in_thread threadID) (tb_messages t)) in
    if 0 <? limit then take (Z.to_nat limit) (drop (Z.to_nat offset) rows) else rows);
  gom_lift (scanMessages rows).

(** A failing or empty lookup leaves both columns nil. *)
Definition branch_of (threadID : string) : M (option string * option Z) := fun w =>
  match query (fun t => head (where_ (fun r => String.eqb (t_id r) threadID) (tb_threads t))) w with
  | (w', Ok (Some r)) => (w', Ok (t_parent r, t_branch r))
  | (w', _) => (w', Ok (None, None))
  end.

Definition ThreadCorpus (threadID : string) : M (list Message) :=
  b ← branch_of threadID;
  prefix ← match b with
           | (Some parentID, Some branchPos) =>
               if String.eqb parentID "" then mret []
               else
                 parentMsgs ← ListMessages parentID 0 0;
                 mret (where_ (fun m => m_Position m <? branchPos) parentMsgs)
           | _ => mret []
           end;
  ownMsgs ← ListMessages threadID 0 0;
  mret (prefix ++ ownMsgs).

(** [MIN] of no row is NULL, which does not scan. *)
Definition min_position (rows : list MessageRow) : outcome Z :=
  match r_position <$> rows with
  | [] => Err (ENew "converting NULL to int64 is unsupported")
  | p :: ps => Ok (fold_left Z.min ps p)
  end.

Definition TurnStartPosition (threadID : string) (position : Z) : M Z :=
  row ← query (fun t => head (any_order
    (where_ (fun r => in_thread threadID r && (r_position r =? position)) (tb_messages t))));
  match row with
  | None => mret position
  | Some r =>
      if String.eqb (r_turn_id r) "" then mret position
      else
        rows ← query (fun t => where_ (in_turn_row threadID (r_turn_id r)) (tb_messages t));
        gom_lift (min_position rows)
  end.

Definition AllCorpus : M (list Message) :=
  rows ← query (fun t => sort_slice by_thread_position (tb_messages t));
  mret (row_message_lax <$> rows).

(** Every failure reads as an empty thread. *)
Definition LatestMessage (threadID : string) : M (option Message) := fun w =>
  match query (fun t => head (sort_slice by_position_desc (where_ (in_thread threadID) (tb_messages t)))) w with
  | (w', Ok r) => (w', Ok (row_message_lax <$> r))
  | (w', Err _) => (w', Ok None)
  | (w', Panic s) => (w', Panic s)
  end.

(** [d.QueryRow(...).Scan(&v)] with its error dropped: [v] keeps its default. *)
Definition scan_or {A} (dflt : A) (m : M A) : M A := fun w =>
  match m w with (w', Err _) => (w', Ok dflt) | r => r end.

Definition MessageCount (threadID : string) : M Z :=
  scan_or 0 (query (fun t => Z.of_nat (length (where_ (in_thread threadID) (tb_messages t))))).

Definition max_position (rows : list MessageRow) : Z :=
  match r_position <$> rows with [] => -1 | p :: ps => fold_left Z.max ps p end.

Definition MaxPosition (threadID : string) : M Z :=
  scan_or (-1) (query (fun t => max_position (where_ (in_thread threadID) (tb_messages t)))).

Definition PrecedingTurnID (threadID currentTurnID : string) : M string :=
  row ← query (fun t => head (sort_slice by_position_desc
    (where_ (fun r => in_thread threadID r && negb (String.eqb (r_turn_id r) "") &&
                      negb (String.eqb (r_turn_id r) currentTurnID)) (tb_messages t))));
  mret (match row with Some r => r_turn_id r | None => "" end).

(** ** Writing messages *)

(** The clock is read only for a missing or zero timestamp. *)
Definition unstamped (msg : Message) : bool :=
  match m_CreatedAt msg with None => true | Some (s, n) => (s =? 0) && (n =? 0) end.

Definition with_created (ts : Z * Z) (msg : Message) : Message :=
  {| m_Id := m_Id msg; m_Role := m_Role msg; m_Content := m_Content msg; m_Position := m_Position msg;
     m_ThreadId := m_ThreadId msg; m_CreatedAt := Some ts; m_TurnId := m_TurnId msg |}.

Definition fillCreatedAt (msg : Message) : M Message :=
  if unstamped msg then nano ← now; mret (with_created (timestamp_of nano) msg) else mret msg.

Definition message_row (msg : Message) (content : string) : MessageRow :=
  {| r_id := m_Id msg; r_thread_id := m_ThreadId msg; r_role := m_Role msg; r_content := content;
     r_position := m_Position msg; r_created_at := AsTime (m_CreatedAt msg); r_turn_id := m_TurnId msg |}.

Definition insert_message (r : MessageRow) (t : Tables) : outcome Tables :=
  if bool_decide (r_id r ∈ r_id <$> tb_messages t) then Err e_constraint
  else if bool_decide (r_thread_id r ∈ t_id <$> tb_threads t) then Ok (set_messages (fun l => l ++ [r]) t)
  else Err e_constraint.

Definition next_chunk_rowid (l : list (Z * Chunk)) : Z := fold_right Z.max 0 l.*1 + 1.

Definition chunk_of (messageID : string) (c : Chunk) : Chunk :=
  {| c_MessageID := messageID; c_ChunkIndex := c_ChunkIndex c; c_Text := c_Text c; c_ByteStart := c_ByteStart c;
     c_ByteEnd := c_ByteEnd c; c_TokenEst := c_TokenEst c |}.

Definition insert_chunk (c : Chunk) (t : Tables) : outcome Tables :=
  if existsb (fun c' => chunk_is (c_MessageID c) (c_ChunkIndex c) (c_MessageID c') (c_ChunkIndex c')) (snd <$> tb_chunks t)
  then Err e_constraint
  else if bool_decide (c_MessageID c ∈ r_id <$> tb_messages t)
  then Ok (set_chunks (fun l => l ++ [(next_chunk_rowid l, c)]) t)
  else Err e_constraint.

(** [tx.Prepare] *)
Definition prepare : M unit := statement (fun t => (t, Ok tt)).

Definition insertMessageTx (msg : Message) (content : string) (chunks : list Chunk) : M unit :=
  exec (insert_message (message_row msg content)) ≫= fun _ =>
  match chunks with
  | [] => mret tt
  | _ => prepare ≫= fun _ => foldM (fun _ c => exec (insert_chunk (chunk_of (m_Id msg) c))) tt chunks
  end.

(** The message comes back as the call left it, with the error returned. *)
Definition InsertMessage (msg : Message) (chunks : list Chunk) : M (Message * option goerr) :=
  msg ← fillCreatedAt msg;
  err ← gom_catch (
    content ← gom_lift (marshalContentBlocks (m_Content msg));
    transaction (insertMessageTx msg content chunks));
  mret (msg, err).

Definition InsertToolCallPair (call : Message) (callChunks : list Chunk) (result : Message) (resultChunks : list Chunk)
    : M (Message * Message * option goerr) :=
  call ← fillCreatedAt call;
  result ← fillCreatedAt result;
  err ← gom_catch (
    callContent ← gom_lift (marshalContentBlocks (m_Content call));
    resultContent ← gom_lift (marshalContentBlocks (m_Content result));
    transaction (
      insertMessageTx call callContent callChunks ≫= fun _ =>
      insertMessageTx result resultContent resultChunks));
  mret (call, result, err).

(** [LastInsertId] gives the row its id. *)
Definition InsertTickTrace (tr : TickTrace) : M unit :=
  exec (fun t => Ok (set_traces (fun l => l ++ [{|
    tt_ID := tb_next_trace t; tt_ThreadID := tt_ThreadID tr; tt_Round := tt_Round tr;
    tt_RRCPrerequisiteSelectionMs := tt_RRCPrerequisiteSelectionMs tr; tt_SelectMs := tt_SelectMs tr;
    tt_AssembleMs := tt_AssembleMs tr; tt_CompleteMs := tt_CompleteMs tr; tt_StreamMs := tt_StreamMs tr;
    tt_PersistMs := tt_PersistMs tr; tt_TotalMs := tt_TotalMs tr; tt_CompleterModel := tt_CompleterModel tr;
    tt_CorpusSize := tt_CorpusSize tr; tt_SelectedCount := tt_SelectedCount tr;
    tt_AssembledTokensEst := tt_AssembledTokensEst tr; tt_UsagePredictedTokens := tt_UsagePredictedTokens tr;
    tt_UsagePromptTokens := tt_UsagePromptTokens tr; tt_UsageCompletionTokens := tt_UsageCompletionTokens tr;
    tt_Errored := tt_Errored tr; tt_ErrorMsg := tt_ErrorMsg tr |}]) (tb_next_trace t + 1) t)).

Definition by_id_desc (a b : TickTrace) : bool := tt_ID b <? tt_ID a.

Definition ListTickTraces (threadID : string) (limit : Z) : M (list TickTrace) :=
  query (fun t =>
    let rows := sort_slice by_id_desc (where_ (fun r => String.eqb (tt_ThreadID r) threadID) (tb_traces t)) in
    if 0 <? limit then take (Z.to_nat limit) rows else rows).

(** ** Chunks *)

(** [fmt.Errorf(pre + ": %w", err)] around a failing call *)
Definition wrapping {A} (pre : string) (m : M A) : M A := fun w =>
  match m w with (w', Err e) => (w', Err (EWrap pre e "")) | r => r end.

Definition InsertChunks (messageID : string) (chunks : list Chunk) : M unit :=
  match chunks with
  | [] => mret tt
  | _ =>
      transaction (
        wrapping ("clear chunks for " ^^ messageID ^^ ": ")
          (exec (fun t => Ok (delete_chunks (fun c => String.eqb (c_MessageID c) messageID) t))) ≫= fun _ =>
        prepare ≫= fun _ =>
        foldM (fun _ c =>
          wrapping ("insert chunk " ^^ itoa (c_ChunkIndex c) ^^ " of " ^^ messageID ^^ ": ")
            (exec (insert_chunk (chunk_of messageID c)))) tt chunks)
  end.

Definition by_chunk_index (a b : Chunk) : bool := c_ChunkIndex a <? c_ChunkIndex b.
Definition by_message_chunk (a b : Chunk) : bool :=
  str_lt (c_MessageID a) (c_MessageID b) ||
  String.eqb (c_MessageID a) (c_MessageID b) && (c_ChunkIndex a <? c_ChunkIndex b).

Definition GetChunks (messageID : string) : M (list Chunk) :=
  query (fun t => sort_slice by_chunk_index
    (where_ (fun c => String.eqb (c_MessageID c) messageID) (snd <$> tb_chunks t))).

(** [out\[c.MessageID\] = append(out\[c.MessageID\], c)] *)
Definition append_chunk (out : gmap string (list Chunk)) (c : Chunk) : gmap string (list Chunk) :=
  <[c_MessageID c := default [] (out !! c_MessageID c) ++ [c]]> out.

Definition GetChunksForMessages (messageIDs : list string) : M (gmap string (list Chunk)) :=
  match messageIDs with
  | [] => mret ∅
  | _ =>
      rows ← query (fun t => sort_slice by_message_chunk
        (where_ (fun c => bool_decide (c_MessageID c ∈ messageIDs)) (snd <$> tb_chunks t)));
      mret (fold_left append_chunk rows ∅)
  end.

Definition ChunkExists (messageID : string) : M bool :=
  query (fun t => existsb (fun c => String.eqb (c_MessageID c) messageID) (snd <$> tb_chunks t)).

Record RandomChunkRef := { rc_MessageID : string; rc_ChunkIndex : Z; rc_Text : string; rc_ThreadID : string }.

(** [((c.rowid + ?) * 2654435761) % 4294967296]: a product outside int64 is a
    REAL in SQL, which [%] casts back to the nearest integer of the type. *)
Definition sql_saturate (z : Z) : Z := Z.max (- 2 ^ 63) (Z.min z (2 ^ 63 - 1)).
Definition knuth_key (seed rowid : Z) : Z := Z.rem (sql_saturate ((rowid + seed) * 2654435761)) 4294967296.

Definition by_knuth (seed : Z) (a b : Z * Chunk) : bool := knuth_key seed a.1 <? knuth_key seed b.1.

(** The join on the message's row. *)
Definition joined (t : Tables) (rc : Z * Chunk) : option RandomChunkRef :=
  (fun r => {| rc_MessageID := c_MessageID rc.2; rc_ChunkIndex := c_ChunkIndex rc.2; rc_Text := c_Text rc.2;
               rc_ThreadID := r_thread_id r |})
  <$> find (fun r => String.eqb (r_id r) (c_MessageID rc.2)) (tb_messages t).

Definition RandomChunkRefs (limit seed : Z) : M (list RandomChunkRef) :=
  if limit <=? 0 then mret []
  else query (fun t =>
    take (Z.to_nat limit) (omap (joined t) (sort_slice (by_knuth (seed `mod` 4294967296)) (tb_chunks t)))).

(** ** What the writes do *)

(** The messages of the database, as a reader decodes them. *)
Definition decoded (r : MessageRow) : option Message :=
  match row_message r with Ok m => Some m | _ => None end.
Definition corpus (t : Tables) : list Message := omap decoded (tb_messages t).
Definition thread_corpus (t : Tables) (threadID : string) : list Message :=
  filter (fun m => m_ThreadId m = threadID) (corpus t).

(** Rows and chunks were appended, and nothing else. *)
Definition stored (rows : list MessageRow) (cs : list Chunk) (t t' : Tables) : Prop :=
  tb_messages t' = tb_messages t ++ rows /\
  snd <$> tb_chunks t' = (snd <$> tb_chunks t) ++ cs /\
  set_messages (fun _ => []) (set_chunks (fun _ => []) t') = set_messages (fun _ => []) (set_chunks (fun _ => []) t) /\
  (NoDup (r_id <$> tb_messages t) -> NoDup (r_id <$> tb_messages t')).

Lemma stored_trans r1 c1 r2 c2 t t1 t2 :
  stored r1 c1 t t1 -> stored r2 c2 t1 t2 -> stored (r1 ++ r2) (c1 ++ c2) t t2.
Proof.
  intros (M1 & C1 & E1 & N1) (M2 & C2 & E2 & N2). split; [by rewrite M2, M1, app_assoc|].
  split; [by rewrite C2, C1, app_assoc|]. split; [congruence|auto].
Qed.

Lemma stored_nil t : stored [] [] t t.
Proof. split; [by rewrite app_nil_r|]. split; [by rewrite app_nil_r|by split]. Qed.

Lemma insert_message_stored r t t' : insert_message r t = Ok t' -> stored [r] [] t t'.
Proof.
  unfold insert_message. case_bool_decide as Hid; [done|]. case_bool_decide; [|done]. intros [= <-].
  split; [done|]. split; [by rewrite app_nil_r|]. split; [done|]. cbn. rewrite fmap_app. intros Hnd.
  apply NoDup_app. split; [done|]. split; [|apply NoDup_singleton]. intros x Hx ->%list_elem_of_singleton. done.
Qed.

Lemma insert_chunk_stored c t t' : insert_chunk c t = Ok t' -> stored [] [c] t t'.
Proof.
  unfold insert_chunk. destruct (existsb _ _); [done|]. case_bool_decide; [|done]. intros [= <-].
  split; [by rewrite app_nil_r|]. split; [by cbn; rewrite fmap_app|by split].
Qed.

Lemma insert_chunks_stored messageID chunks b :
  steps (foldM (M := M) (fun _ c => exec (insert_chunk (chunk_of messageID c))) b chunks)
    (fun t _ t' => stored [] (chunk_of messageID <$> chunks) t t').
Proof.
  revert b. induction chunks as [|c chunks IH]; intros b.
  - intros w w' a [= <- <-]. apply stored_nil.
  - cbn [foldM]. eapply steps_mono; [eapply steps_bind; [apply atomic_steps, exec_atomic|intros; apply IH]|].
    intros t u t' (? & t1 & H1 & H2). change [] with ([] ++ @nil MessageRow). cbn [fmap list_fmap].
    change (chunk_of messageID c :: ?l) with ([chunk_of messageID c] ++ l).
    eapply stored_trans; [by apply insert_chunk_stored|exact H2].
Qed.

Lemma prepare_steps : steps prepare (fun t _ t' => t' = t).
Proof. intros w w' a. unfold prepare, statement. destruct (e_fault _); [done|]. by intros [= <- <-]. Qed.

Lemma insertMessageTx_stored msg content chunks :
  steps (insertMessageTx msg content chunks)
    (fun t _ t' => stored [message_row msg content] (chunk_of (m_Id msg) <$> chunks) t t').
Proof.
  unfold insertMessageTx. eapply steps_mono.
  - eapply steps_bind; [apply atomic_steps, exec_atomic|]. intros ?.
    instantiate (1 := fun _ t _ t' => stored [] (chunk_of (m_Id msg) <$> chunks) t t').
    destruct chunks as [|c chunks]; [|generalize (c :: chunks); intros l].
    + eapply steps_mono; [apply steps_ret|]. intros ??? [_ ->]. apply stored_nil.
    + eapply steps_mono; [eapply steps_bind; [apply prepare_steps|intros; apply insert_chunks_stored]|].
      by intros t u t' (? & t1 & -> & Hs).
  - intros t u t' (? & t1 & H1 & H2). rewrite <- (app_nil_l (_ <$> _)).
    rewrite <- (app_nil_r [_]). eapply stored_trans; [by apply insert_message_stored|exact H2].
Qed.

(** A row holds the message that was written. *)
Lemma row_message_written msg content :
  marshalContentBlocks (m_Content msg) = Ok content -> is_Some (m_CreatedAt msg) ->
  row_message (message_row msg content) = Ok msg.
Proof.
  unfold marshalContentBlocks, row_message, unmarshalContentBlocks. intros Hm%proto_roundtrip [ts Hts].
  cbn [message_row r_content]. rewrite Hm. unfold mbind, outcome_bind, mret, outcome_ret, row_with, message_row.
  rewrite Hts. simpl. rewrite <- Hts. by destruct msg.
Qed.

Lemma corpus_stored rows cs t t' :
  stored rows cs t t' -> corpus t' = corpus t ++ omap decoded rows.
Proof. intros (HM & _). unfold corpus. by rewrite HM, omap_app. Qed.

Lemma row_message_id r m : row_message r = Ok m -> m_Id m = r_id r.
Proof. unfold row_message, mbind, outcome_bind. destruct (unmarshalContentBlocks _); [|done..]. by intros [= <-]. Qed.

Lemma elem_of_corpus t m : m ∈ corpus t <-> exists r, r ∈ tb_messages t /\ row_message r = Ok m.
Proof.
  unfold corpus, decoded. rewrite list_elem_of_omap. split; intros (r & Hr & E); exists r; (split; [done|]).
  - by destruct (row_message r); simplify_eq.
  - by rewrite E.
Qed.

(** The primary key makes ids identify messages. *)
Lemma corpus_ids t a b :
  NoDup (r_id <$> tb_messages t) -> a ∈ corpus t -> b ∈ corpus t -> m_Id a = m_Id b -> a = b.
Proof.
  intros Hnd (ra & Ha & Ea)%elem_of_corpus (rb & Hb & Eb)%elem_of_corpus He.
  rewrite (row_message_id _ _ Ea), (row_message_id _ _ Eb) in He.
  apply list_elem_of_lookup in Ha as [i Hi], Hb as [j Hj].
  assert (i = j) as ->; [|congruence].
  apply (NoDup_lookup (r_id <$> tb_messages t) i j (r_id ra)); [done|..]; rewrite list_lookup_fmap;
    [by rewrite Hi|by rewrite Hj, He].
Qed.

(** What [fillCreatedAt] leaves: the message with some timestamp. *)
Definition stamped (msg msg' : Message) : Prop :=
  exists ts, m_CreatedAt msg' = Some ts /\ (msg' = with_created ts msg) /\ (unstamped msg = false -> msg' = msg).

Lemma fillCreatedAt_stamped msg w :
  exists n msg', fillCreatedAt msg w = ({| w_tables := w_tables w; w_tick := n |}, Ok msg') /\ stamped msg msg'.
Proof.
  unfold fillCreatedAt, stamped. destruct (unstamped msg) eqn:E.
  - eexists _, _. split; [reflexivity|]. eexists. by split.
  - exists (w_tick w), msg. split; [by destruct w|]. unfold unstamped in E.
    destruct (m_CreatedAt msg) as [ts|] eqn:Et; [|done]. exists ts. split; [done|].
    split; [|done]. destruct msg; simpl in *. by subst.
Qed.

Lemma insert_message_settles r t : settles (insert_message r t).
Proof. unfold insert_message. go_settles. Qed.

Lemma insert_chunk_settles c t : settles (insert_chunk c t).
Proof. unfold insert_chunk. go_settles. Qed.

Lemma insertMessageTx_settles msg content chunks : gsettles (insertMessageTx msg content chunks).
Proof.
  unfold insertMessageTx. apply gsettles_bind; [apply gsettles_exec, insert_message_settles|]. intros _.
  destruct chunks as [|c l]; [apply gsettles_ret|]. apply gsettles_bind.
  - by apply gsettles_statement.
  - intros _. apply gsettles_foldM. intros _ x. apply gsettles_exec, insert_chunk_settles.
Qed.

(** The chunk rows of a message. *)
Definition chunk_rows (msg : Message) (chunks : list Chunk) : list Chunk := chunk_of (m_Id msg) <$> chunks.

(** One message written: its row and chunks appended, or nothing. *)
Definition wrote (msgs : list (Message * list Chunk)) (t t' : Tables) : Prop :=
  exists rows, Forall2 (fun mc r => exists content, marshalContentBlocks (m_Content mc.1) = Ok content /\
                                     r = message_row mc.1 content) msgs rows /\
    stored rows (concat ((fun mc => chunk_rows mc.1 mc.2) <$> msgs)) t t' /\
    corpus t' = corpus t ++ msgs.*1.

Definition wrote_or_not (msgs : list (Message * list Chunk)) (err : option goerr) (t t' : Tables) : Prop :=
  match err with None => wrote msgs t t' | Some _ => t' = t end.

Lemma omap_decoded_written (msgs : list (Message * list Chunk)) rows :
  Forall2 (fun mc r => exists content, marshalContentBlocks (m_Content mc.1) = Ok content /\
                         r = message_row mc.1 content) msgs rows ->
  Forall (fun mc => is_Some (m_CreatedAt mc.1)) msgs ->
  omap decoded rows = msgs.*1.
Proof.
  induction 1 as [|[m cs] r msgs rows (content & Hc & ->) Hf IH]; [done|]. intros [Hm Hms]%Forall_cons.
  cbn [fst] in Hc, Hm. cbn [omap list_omap fmap list_fmap]. unfold decoded at 1.
  cbn [fst]. rewrite (row_message_written m content Hc Hm). f_equal. by apply IH.
Qed.

Lemma stamped_created msg msg' : stamped msg msg' -> is_Some (m_CreatedAt msg').
Proof. intros (ts & -> & _). eauto. Qed.

Lemma InsertMessage_spec msg chunks w :
  exists w' msg' err, InsertMessage msg chunks w = (w', Ok (msg', err)) /\ stamped msg msg' /\
    wrote_or_not [(msg', chunks)] err (w_tables w) (w_tables w').
Proof.
  unfold InsertMessage. destruct (fillCreatedAt_stamped msg w) as (n & msg' & E & Hst).
  unfold mbind at 1, gom_bind. rewrite E. cbn [fst snd].
  set (w1 := {| w_tables := w_tables w; w_tick := n |}).
  edestruct (catch_atomic (gom_lift (marshalContentBlocks (m_Content msg')) ≫= fun content =>
                           transaction (insertMessageTx msg' content chunks)))
    as (w2 & err & E2 & Herr).
  - apply atomic_lift_bind. intros content. apply transaction_atomic, insertMessageTx_stored.
  - apply gsettles_bind; [apply gsettles_lift, proto_settles|]. intros content.
    apply gsettles_transaction, insertMessageTx_settles.
  - unfold mbind, gom_bind in E2 |- *. rewrite E2. eexists _, _, _. split; [reflexivity|]. split; [done|].
    unfold wrote_or_not. destruct err; [done|]. destruct Herr as (content & Hc & Hs).
    exists [message_row msg' content]. split; [constructor; [by eexists|constructor]|].
    split; [cbn; by rewrite app_nil_r|]. rewrite (corpus_stored _ _ _ _ Hs). f_equal.
    apply (omap_decoded_written [(msg', chunks)]); repeat constructor; [by eexists|by eapply stamped_created].
Qed.

Lemma InsertToolCallPair_spec call cc result rc w :
  exists w' call' result' err,
    InsertToolCallPair call cc result rc w = (w', Ok (call', result', err)) /\
    stamped call call' /\ stamped result result' /\
    wrote_or_not [(call', cc); (result', rc)] err (w_tables w) (w_tables w').
Proof.
  unfold InsertToolCallPair.
  destruct (fillCreatedAt_stamped call w) as (n & call' & E & Hst).
  unfold mbind at 1, gom_bind. rewrite E. cbn [fst snd].
  set (w1 := {| w_tables := w_tables w; w_tick := n |}).
  destruct (fillCreatedAt_stamped result w1) as (n' & result' & E' & Hst').
  unfold mbind at 1, gom_bind. rewrite E'. cbn [fst snd].
  set (w2 := {| w_tables := w_tables w1; w_tick := n' |}).
  edestruct (catch_atomic (gom_lift (marshalContentBlocks (m_Content call')) ≫= fun callContent =>
      gom_lift (marshalContentBlocks (m_Content result')) ≫= fun resultContent =>
      transaction (insertMessageTx call' callContent cc ≫= fun _ => insertMessageTx result' resultContent rc)))
    as (w3 & err & E2 & Herr).
  - apply atomic_lift_bind. intros c1. apply atomic_lift_bind. intros c2. apply transaction_atomic.
    eapply steps_bind; [apply insertMessageTx_stored|]. intros u. apply insertMessageTx_stored.
  - repeat (apply gsettles_bind; [apply gsettles_lift, proto_settles|]; intros ?).
    apply gsettles_transaction, gsettles_bind; [|intros _]; apply insertMessageTx_settles.
  - unfold mbind, gom_bind in E2 |- *. rewrite E2. eexists _, _, _, _. split; [reflexivity|]. do 2 (split; [done|]).
    unfold wrote_or_not. destruct err; [done|]. destruct Herr as (c1 & Hc1 & c2 & Hc2 & ? & t1 & Hs1 & Hs2).
    pose proof (stored_trans _ _ _ _ _ _ _ Hs1 Hs2) as Hs.
    exists [message_row call' c1; message_row result' c2]. split; [repeat constructor; by eexists|].
    split; [cbn; by rewrite app_nil_r|]. rewrite (corpus_stored _ _ _ _ Hs). f_equal.
    apply (omap_decoded_written [(call', cc); (result', rc)]);
      repeat constructor; try (by eexists); by eapply stamped_created.
Qed.

End Storage.

(** ** A concrete encoding: fields closed by NUL bytes. *)
Module SampleCodec.

Definition flag_text (b : bool) : string := if b then "t" else "f".
Definition fields (b : ContentBlock) : list string :=
  match b with
  | BText t => ["T"; tx_Text t]
  | BThinking t => ["K"; th_Text t; th_Signature t]
  | BToolCall c => ["C"; tc_Id c; tc_Name c; tc_Arguments c; tc_Signature c]
  | BToolResult r => ["R"; tr_ToolCallId r; tr_Content r; flag_text (tr_IsError r)]
  | _ => ["X"]
  end.
Definition encode (blocks : list ContentBlock) : string :=
  fold_right (fun f s => f ^^ nul ^^ s) "" (blocks ≫= fields).

Fixpoint split_fields (cur : string) (s : string) : list string :=
  match s with
  | EmptyString => []
  | String c s' => if Ascii.eqb c "000" then cur :: split_fields "" s' else split_fields (cur ^^ String c "") s'
  end.

Fixpoint parse (fuel : nat) (l : list string) : list ContentBlock :=
  match fuel, l with
  | S fuel, tag :: a :: l =>
      if String.eqb tag "T" then BText {| tx_Text := a |} :: parse fuel l
      else match l with
           | b :: l =>
               if String.eqb tag "K" then BThinking {| th_Text := a; th_Signature := b |} :: parse fuel l
               else match l with
                    | c :: l =>
                        if String.eqb tag "R"
                        then BToolResult {| tr_ToolCallId := a; tr_Content := b; tr_IsError := String.eqb c "t" |} :: parse fuel l
                        else match l with
                             | d :: l =>
                                 BToolCall {| tc_Id := a; tc_Name := b; tc_Arguments := c; tc_Signature := d |} :: parse fuel l
                             | [] => []
                             end
                    | [] => []
                    end
           | [] => []
           end
  | _, _ => []
  end.

Definition decode (s : string) : list ContentBlock := let l := split_fields "" s in parse (length l) l.

(** Contents the fields cannot carry are refused. *)
#[program] Definition codec : ProtoCodec := {|
  proto_Marshal := fun m =>
    if decide (lm_Role m = ROLE_UNSPECIFIED /\ decode (encode (lm_Content m)) = lm_Content m)
    then Ok (encode (lm_Content m)) else Err (ENew "proto: cannot encode");
  proto_Unmarshal := fun s => Ok {| lm_Role := ROLE_UNSPECIFIED; lm_Content := decode s |}
|}.
Next Obligation.
  intros m s H. simpl in H. case_decide as E; [|done]. injection H as <-. destruct m, E as [E1 E2]; simpl in *. by rewrite E1, E2.
Qed.
Next Obligation. intros m. simpl. by case_decide. Qed.

End SampleCodec.
