(* ===== verification/Embeddings.v ===== *)
(** * The embedding cache ([service/storage/embeddings.go])

    One vector per (chunk, model): the blob encoding of [encodeVector], the
    get-or-create of a rowid, the replacing insert and the reconciliation of
    the declared width.  The [MATCH] query of [NearestChunkVectors] is the
    vector extension's and is not modelled. *)

From Stdlib Require Import ZArith Lia String Ascii SpecFloat.
From S2P Require Import Prelude GoFloat GoSort GoStrings Types Sql Storage.
#[local] Open Scope Z_scope.

(** ** [math.Float32bits] and [math.Float32frombits] (one NaN) *)

Definition sign_bit (s : bool) : Z := if s then 2 ^ 31 else 0.

Definition Float32bits (x : float) : Z :=
  match x with
  | S754_zero s => sign_bit s
  | S754_infinity s => sign_bit s + 255 * 2 ^ 23
  | S754_nan => 255 * 2 ^ 23 + 2 ^ 22
  | S754_finite s m e =>
      sign_bit s + (if Z.pos m <? 2 ^ 23 then Z.pos m else (e + 150) * 2 ^ 23 + (Z.pos m - 2 ^ 23))
  end.

Definition finite_of (s : bool) (m e : Z) : float :=
  match m with Z.pos p => S754_finite s p e | _ => S754_zero s end.

Definition Float32frombits (b : Z) : float :=
  let s := 2 ^ 31 <=? b in
  let ex := (b `mod` 2 ^ 31) / 2 ^ 23 in
  let m := b `mod` 2 ^ 23 in
  if ex =? 255 then if m =? 0 then S754_infinity s else S754_nan
  else if ex =? 0 then finite_of s m (-149)
  else finite_of s (m + 2 ^ 23) (ex - 150).

(** A value of the 24-bit format. *)
Definition is_float32 (x : float) : Prop := valid_binary 24 128 x = true.

Lemma digits2_pos_bounds p : 2 ^ (Z.pos (digits2_pos p) - 1) <= Z.pos p < 2 ^ Z.pos (digits2_pos p).
Proof.
  induction p as [p IH|p IH|]; cbn [digits2_pos]; [..|done];
    rewrite Pos2Z.inj_succ; replace (Z.succ (Z.pos (digits2_pos p)) - 1) with (Z.succ (Z.pos (digits2_pos p) - 1)) by lia;
    rewrite !Z.pow_succ_r by lia; lia.
Qed.

(** The two kinds of finite values. *)
Lemma float32_finite s m e :
  is_float32 (S754_finite s m e) ->
  (Z.pos m < 2 ^ 23 /\ e = -149) \/ (2 ^ 23 <= Z.pos m < 2 ^ 24 /\ -149 <= e <= 104).
Proof.
  unfold is_float32, valid_binary, bounded, canonical_mantissa, fexp, emin. rewrite andb_true_iff, Z.eqb_eq, Z.leb_le.
  intros [Hc He]. pose proof (digits2_pos_bounds m) as Hd. set (d := Z.pos (digits2_pos m)) in *.
  assert (0 < d) by done. destruct (Z.max_spec (d + e - 24) (3 - 128 - 24)) as [[Hlt E]|[Hge E]]; rewrite E in Hc.
  - assert (e = -149) as -> by lia. destruct (Z.le_gt_cases 24 d) as [H24|H24].
    + right. assert (d = 24) by lia. replace d with 24 in Hd by lia. lia.
    + left. split; [|done]. assert (2 ^ d <= 2 ^ 23) by (apply Z.pow_le_mono_r; lia). lia.
  - right. assert (d = 24) as Hd24 by lia. rewrite Hd24 in Hd. lia.
Qed.

Lemma frombits_fields s ex m :
  0 <= ex < 256 -> 0 <= m < 2 ^ 23 ->
  Float32frombits (sign_bit s + (ex * 2 ^ 23 + m)) =
  if ex =? 255 then if m =? 0 then S754_infinity s else S754_nan
  else if ex =? 0 then finite_of s m (-149)
  else finite_of s (m + 2 ^ 23) (ex - 150).
Proof.
  intros He Hm. unfold Float32frombits.
  assert ((2 ^ 31 <=? sign_bit s + (ex * 2 ^ 23 + m)) = s) as -> by (destruct s; unfold sign_bit; lia).
  assert ((sign_bit s + (ex * 2 ^ 23 + m)) `mod` 2 ^ 31 = ex * 2 ^ 23 + m) as ->.
  { replace (sign_bit s) with ((if s then 1 else 0) * 2 ^ 31) by (by destruct s).
    rewrite Z.add_comm, Z_mod_plus_full. apply Z.mod_small. lia. }
  assert ((ex * 2 ^ 23 + m) / 2 ^ 23 = ex) as ->.
  { rewrite Z.add_comm, Z_div_plus_full by done. rewrite Z.div_small by lia. lia. }
  assert ((sign_bit s + (ex * 2 ^ 23 + m)) `mod` 2 ^ 23 = m) as ->; [|done].
  replace (sign_bit s + (ex * 2 ^ 23 + m)) with (m + ((if s then 2 ^ 8 else 0) + ex) * 2 ^ 23)
    by (destruct s; unfold sign_bit; lia).
  rewrite Z_mod_plus_full. apply Z.mod_small. lia.
Qed.

Lemma Float32_roundtrip x : is_float32 x -> Float32frombits (Float32bits x) = x.
Proof.
  destruct x as [s|s| |s m e]; intros Hv.
  - by destruct s.
  - by destruct s.
  - done.
  - unfold Float32bits. destruct (float32_finite s m e Hv) as [[Hm ->]|[Hm He]].
    + rewrite (proj2 (Z.ltb_lt _ _)) by done.
      replace (sign_bit s + Z.pos m) with (sign_bit s + (0 * 2 ^ 23 + Z.pos m)) by lia.
      by rewrite frombits_fields by lia.
    + rewrite (proj2 (Z.ltb_ge _ _)) by lia. rewrite frombits_fields by lia.
      rewrite (proj2 (Z.eqb_neq (e + 150) 255)), (proj2 (Z.eqb_neq (e + 150) 0)) by lia.
      replace (Z.pos m - 2 ^ 23 + 2 ^ 23) with (Z.pos m) by lia. simpl. f_equal. lia.
Qed.

Lemma Float32bits_range x : is_float32 x -> 0 <= Float32bits x < 2 ^ 32.
Proof.
  destruct x as [s|s| |s m e]; intros Hv; try (destruct s; done); [done|].
  unfold Float32bits. destruct (float32_finite s m e Hv) as [[Hm ->]|[Hm He]].
  - rewrite (proj2 (Z.ltb_lt _ _)) by done. destruct s; unfold sign_bit; lia.
  - rewrite (proj2 (Z.ltb_ge _ _)) by lia. destruct s; unfold sign_bit; lia.
Qed.

(** ** Blobs *)

Definition byte_at (b : Z) (k : Z) : ascii := ascii_of_N (Z.to_N ((b / 2 ^ (8 * k)) `mod` 256)).
Definition of_byte (c : ascii) : Z := Z.of_N (N_of_ascii c).

(** [binary.LittleEndian.PutUint32] and [Uint32] *)
Definition PutUint32 (b : Z) : string :=
  String (byte_at b 0) (String (byte_at b 1) (String (byte_at b 2) (String (byte_at b 3) ""))).
Definition Uint32 (c0 c1 c2 c3 : ascii) : Z :=
  of_byte c0 + of_byte c1 * 2 ^ 8 + of_byte c2 * 2 ^ 16 + of_byte c3 * 2 ^ 24.

Fixpoint encodeVector (vec : list float) : string :=
  match vec with [] => "" | v :: vec' => PutUint32 (Float32bits v) ^^ encodeVector vec' end.

(** A rest of fewer than four bytes is ignored. *)
Fixpoint decodeVector (buf : string) : list float :=
  match buf with
  | String c0 (String c1 (String c2 (String c3 buf'))) => Float32frombits (Uint32 c0 c1 c2 c3) :: decodeVector buf'
  | _ => []
  end.

Lemma of_byte_at b k : 0 <= k -> of_byte (byte_at b k) = (b / 2 ^ (8 * k)) `mod` 256.
Proof.
  intros Hk. unfold of_byte, byte_at. pose proof (Z.mod_pos_bound (b / 2 ^ (8 * k)) 256 eq_refl).
  rewrite N_ascii_embedding by lia. lia.
Qed.

Lemma Uint32_PutUint32 b : 0 <= b < 2 ^ 32 ->
  Uint32 (byte_at b 0) (byte_at b 1) (byte_at b 2) (byte_at b 3) = b.
Proof.
  intros Hb. unfold Uint32. rewrite !of_byte_at by lia.
  change (8 * 0) with 0. change (8 * 1) with 8. change (8 * 2) with 16. change (8 * 3) with 24.
  rewrite Z.pow_0_r, Z.div_1_r.
  change (2 ^ 8) with 256. change (2 ^ 16) with (256 * 256). change (2 ^ 24) with (256 * 256 * 256).
  rewrite <- !Z.div_div by lia.
  pose proof (Z.div_mod b 256 ltac:(lia)). pose proof (Z.div_mod (b / 256) 256 ltac:(lia)).
  pose proof (Z.div_mod (b / 256 / 256) 256 ltac:(lia)).
  assert ((b / 256 / 256 / 256) `mod` 256 = b / 256 / 256 / 256); [|lia].
  apply Z.mod_small. rewrite !Z.div_div by lia. split; [apply Z.div_pos; lia|apply Z.div_lt_upper_bound; lia].
Qed.

Lemma decode_one b s :
  0 <= b < 2 ^ 32 -> decodeVector (PutUint32 b ^^ s) = Float32frombits b :: decodeVector s.
Proof. intros Hb. rewrite <- (Uint32_PutUint32 b Hb) at 2. done. Qed.

Lemma vector_roundtrip vec : Forall is_float32 vec -> decodeVector (encodeVector vec) = vec.
Proof.
  induction 1 as [|v vec Hv _ IH]; [done|]. cbn [encodeVector].
  by rewrite decode_one, Float32_roundtrip, IH by (done || by apply Float32bits_range).
Qed.

Lemma slen_PutUint32 b s : slen (PutUint32 b ^^ s) = (4 + slen s)%nat.
Proof. done. Qed.

Lemma encodeVector_length vec : slen (encodeVector vec) = (4 * length vec)%nat.
Proof. induction vec as [|v vec IH]; [done|]. cbn [encodeVector length]. rewrite slen_PutUint32, IH. lia. Qed.

(** ** The cache *)

Section Embeddings.
Context {env : Env} {srt : SliceSort} {codec : ProtoCodec}.
#[local] Abbreviation M := (GoM (World Tables)).

(** (message, chunk, model) of a rowid or of a vector *)
Definition rowid_is (m : string) (i : Z) (model : string) (r : RowidRow) : bool :=
  chunk_is m i (i_message_id r) (i_chunk_index r) && String.eqb model (i_model_id r).
Definition vector_is (m : string) (i : Z) (model : string) (v : VectorRow) : bool :=
  chunk_is m i (v_message_id v) (v_chunk_index v) && String.eqb model (v_model_id v).

(** [INSERT OR IGNORE INTO chunk_vector_rowids] *)
Definition ensure_rowid (m : string) (i : Z) (model : string) (t : Tables) : Tables :=
  if existsb (rowid_is m i model) (tb_rowids t) then t
  else set_rowids (fun l => l ++ [{| i_rowid := tb_next_rowid t; i_message_id := m; i_chunk_index := i; i_model_id := model |}])
         (tb_next_rowid t + 1) t.

(** The extension refuses a vector of another width. *)
Definition insert_vector (v : VectorRow) (vec : list float) (t : Tables) : outcome Tables :=
  if negb (Z.of_nat (length vec) =? tb_dim t) then Err e_constraint
  else if existsb (fun v' => v_rowid v' =? v_rowid v) (tb_vectors t) then Err e_constraint
  else Ok (set_vectors (fun l => l ++ [v]) t).

(** [tx.QueryRow(...).Scan(...)] *)
Definition query_row {A} (f : Tables -> option A) : M A :=
  query f ≫= fun r => match r with Some a => mret a | None => gom_err sql_ErrNoRows end.

(** The value is the thread handed to the observer after the commit. *)
Definition InsertChunkEmbedding (messageID : string) (chunkIndex : Z) (modelID : string) (vec : list float) : M string :=
  r ← wrapping ("InsertChunkEmbedding: lookup message " ^^ messageID ^^ ": ")
        (query_row (fun t => find (fun r => String.eqb (r_id r) messageID) (tb_messages t)));
  transaction (
    wrapping "InsertChunkEmbedding: rowid mapping: "
      (exec (fun t => Ok (ensure_rowid messageID chunkIndex modelID t))) ≫= fun _ =>
    wrapping "InsertChunkEmbedding: lookup rowid: "
      (query_row (fun t => find (rowid_is messageID chunkIndex modelID) (tb_rowids t))) ≫= fun i =>
    wrapping "InsertChunkEmbedding: delete prior: "
      (exec (fun t => Ok (set_vectors (delete_where (fun v => v_rowid v =? i_rowid i)) t))) ≫= fun _ =>
    wrapping "InsertChunkEmbedding: insert: "
      (exec (insert_vector {| v_rowid := i_rowid i; v_message_id := messageID; v_chunk_index := chunkIndex;
                              v_thread_id := r_thread_id r; v_model_id := modelID; v_role := r_role r;
                              v_embedding := encodeVector vec |} vec))) ≫= fun _ =>
  mret (r_thread_id r).

(** Every failure reads as not cached. *)
Definition GetChunkEmbedding (messageID : string) (chunkIndex : Z) (modelID : string) : M (option (list float)) :=
  scan_or None (query (fun t =>
    (fun v => decodeVector (v_embedding v)) <$> head (any_order (where_ (vector_is messageID chunkIndex modelID) (tb_vectors t))))).

Record ChunkEmbedding := { ce_MessageID : string; ce_ChunkIndex : Z; ce_Vector : list float }.
Definition to_embedding (v : VectorRow) : ChunkEmbedding :=
  {| ce_MessageID := v_message_id v; ce_ChunkIndex := v_chunk_index v; ce_Vector := decodeVector (v_embedding v) |}.

Definition by_vector_key (a b : VectorRow) : bool :=
  str_lt (v_message_id a) (v_message_id b) ||
  String.eqb (v_message_id a) (v_message_id b) && (v_chunk_index a <? v_chunk_index b).

Definition append_embedding (out : gmap string (list ChunkEmbedding)) (v : VectorRow) : gmap string (list ChunkEmbedding) :=
  <[v_message_id v := default [] (out !! v_message_id v) ++ [to_embedding v]]> out.

Definition GetChunkEmbeddingsForMessages (messageIDs : list string) (modelID : string) : M (gmap string (list ChunkEmbedding)) :=
  match messageIDs with
  | [] => mret ∅
  | _ =>
      rows ← query (fun t => sort_slice by_vector_key
        (where_ (fun v => bool_decide (v_message_id v ∈ messageIDs) && String.eqb (v_model_id v) modelID) (tb_vectors t)));
      mret (fold_left append_embedding rows ∅)
  end.

(** The rows handed to [fn] one by one; [fn]'s error stops the scan. *)
Definition EachChunkEmbeddingForModel {B} (modelID : string) (fn : B -> ChunkEmbedding -> outcome B) (b : B) : M B :=
  rows ← query (fun t => any_order (where_ (fun v => String.eqb (v_model_id v) modelID) (tb_vectors t)));
  gom_lift (foldM fn b (to_embedding <$> rows)).

Definition defaultEmbeddingDim : Z := 1024.

Definition upsertEmbeddingMeta (dim : Z) (modelID : string) : M unit :=
  exec (fun t => Ok (set_meta (tb_dim t) (Some (dim, modelID)) t)).

(** The three drops and the DDL leave empty tables of the new width. *)
Definition EnsureEmbeddingDim (dim : Z) (modelID : string) : M unit :=
  if dim <=? 0 then gom_err (ENew ("EnsureEmbeddingDim: non-positive dim " ^^ itoa dim))
  else
    stored ← wrapping "read embedding_meta: " (query tb_meta);
    let storedDim := match stored with Some (d, _) => d | None => defaultEmbeddingDim end in
    if storedDim =? dim then upsertEmbeddingMeta dim modelID
    else
      transaction (
        wrapping "drop vector cache: " (exec Ok) ≫= fun _ =>
        wrapping "drop vector cache: " (exec (fun t => Ok (set_vectors (fun _ => []) t))) ≫= fun _ =>
        wrapping "drop vector cache: " (exec (fun t => Ok (set_rowids (fun _ => []) (tb_next_rowid t) t))) ≫= fun _ =>
        wrapping ("recreate vector cache at dim " ^^ itoa dim ^^ ": ")
          (exec (fun t => Ok (set_rowids (fun l => l) 1 (set_meta dim (tb_meta t) t)))) ≫= fun _ =>
        wrapping "upsert embedding_meta: " (upsertEmbeddingMeta dim modelID)).

(** ** The cache as a map *)

Definition row_key (r : RowidRow) : string * Z * string := (i_message_id r, i_chunk_index r, i_model_id r).
Definition vector_key (v : VectorRow) : string * Z * string := (v_message_id v, v_chunk_index v, v_model_id v).

Record cache_ok (t : Tables) : Prop := {
  co_keys : forall a b, a ∈ tb_rowids t -> b ∈ tb_rowids t -> row_key a = row_key b -> i_rowid a = i_rowid b;
  co_rowids : forall a b, a ∈ tb_rowids t -> b ∈ tb_rowids t -> i_rowid a = i_rowid b -> a = b;
  co_next : forall a, a ∈ tb_rowids t -> i_rowid a < tb_next_rowid t;
  co_vectors : forall v, v ∈ tb_vectors t -> exists a, a ∈ tb_rowids t /\ i_rowid a = v_rowid v /\ row_key a = vector_key v
}.

(** What a lookup finds when its query succeeds. *)
Definition cached (t : Tables) (m : string) (i : Z) (model : string) : option (list float) :=
  (fun v => decodeVector (v_embedding v)) <$> head (any_order (where_ (vector_is m i model) (tb_vectors t))).

Lemma rowid_is_spec m i model r : rowid_is m i model r = true <-> row_key r = (m, i, model).
Proof. unfold rowid_is, chunk_is, row_key. rewrite !andb_true_iff, !String.eqb_eq, Z.eqb_eq. naive_solver. Qed.

Lemma vector_is_spec m i model v : vector_is m i model v = true <-> vector_key v = (m, i, model).
Proof. unfold vector_is, chunk_is, vector_key. rewrite !andb_true_iff, !String.eqb_eq, Z.eqb_eq. naive_solver. Qed.

Lemma elem_of_where {A} (p : A -> bool) l x : x ∈ where_ p l <-> x ∈ l /\ p x = true.
Proof. unfold where_. rewrite !list_elem_of_In, filter_In. done. Qed.

Lemma elem_of_delete_where {A} (p : A -> bool) l x : x ∈ delete_where p l <-> x ∈ l /\ p x = false.
Proof. unfold delete_where. rewrite !list_elem_of_In, filter_In, negb_true_iff. done. Qed.

Lemma where_none {A} (p : A -> bool) l : (forall x, x ∈ l -> p x = false) -> where_ p l = [].
Proof.
  intros Hp. destruct (where_ p l) as [|x l'] eqn:E; [done|].
  assert (x ∈ where_ p l) as [Hx Hpx]%elem_of_where by (rewrite E; by left). by rewrite (Hp x Hx) in Hpx.
Qed.

Lemma steps_wrapping {A} pre (m : M A) R : steps m R -> steps (wrapping pre m) R.
Proof.
  intros Hm w w' a E. unfold wrapping in E. destruct (m w) as [w1 [x| |]] eqn:E1; try done.
  injection E as <- <-. by apply (Hm w w1 x).
Qed.

Lemma steps_query_row {A} (f : Tables -> option A) : steps (query_row f) (fun t a t' => t' = t /\ f t = Some a).
Proof.
  intros w w' a. unfold query_row, query, statement, mbind, gom_bind. destruct (e_fault _); [done|]. simpl.
  destruct (f (w_tables w)) eqn:E; [|done]. by intros [= <- <-].
Qed.

Lemma ensure_rowid_ok m i model t : cache_ok t -> cache_ok (ensure_rowid m i model t).
Proof.
  intros [Hk Hr Hn Hv]. unfold ensure_rowid. destruct (existsb _ _) eqn:E; [by split|].
  assert (forall a, a ∈ tb_rowids t -> row_key a <> (m, i, model)) as Hnew.
  { intros a Ha Hs%rowid_is_spec. assert (existsb (rowid_is m i model) (tb_rowids t) = true) as E'; [|congruence].
    apply existsb_exists. exists a. by rewrite <- list_elem_of_In. }
  split; cbn [set_rowids tb_rowids tb_next_rowid tb_vectors].
  - intros a b [Ha| ->%list_elem_of_singleton]%elem_of_app [Hb| ->%list_elem_of_singleton]%elem_of_app Hs; [by apply Hk|..|done].
    + by destruct (Hnew a Ha).
    + symmetry in Hs. by destruct (Hnew b Hb).
  - intros a b [Ha| ->%list_elem_of_singleton]%elem_of_app [Hb| ->%list_elem_of_singleton]%elem_of_app; simpl; [by apply Hr|..|done].
    + intros He. specialize (Hn a Ha). lia.
    + intros He. specialize (Hn b Hb). lia.
  - intros a [Ha| ->%list_elem_of_singleton]%elem_of_app; [specialize (Hn a Ha); lia|simpl; lia].
  - intros v Hv'. destruct (Hv v Hv') as (a & Ha & ?). exists a. split; [apply elem_of_app; by left|done].
Qed.

Lemma ensure_rowid_vectors m i model t : tb_vectors (ensure_rowid m i model t) = tb_vectors t.
Proof. unfold ensure_rowid. by destruct (existsb _ _). Qed.

(** The effect of the four statements. *)
Definition replaced (a : RowidRow) (v : VectorRow) (t t' : Tables) : Prop :=
  t' = set_vectors (fun l => delete_where (fun v' => v_rowid v' =? i_rowid a) l ++ [v]) t.

Lemma filter_delete_app (p q : VectorRow -> bool) l (v : VectorRow) :
  (forall x, x ∈ l -> q x = true -> p x = false) -> p v = false ->
  where_ p (delete_where q l ++ [v]) = where_ p l.
Proof.
  intros Hq Hv. unfold where_, delete_where. rewrite List.filter_app. simpl. rewrite Hv, app_nil_r.
  induction l as [|x l IH]; [done|]. simpl. destruct (q x) eqn:Ex; simpl.
  - rewrite (Hq x ltac:(by left) Ex). apply IH. intros y Hy. apply Hq. by right.
  - destruct (p x); [f_equal|]; apply IH; intros y Hy; apply Hq; by right.
Qed.

Section Replace.
Context (t t' : Tables) (a : RowidRow) (v : VectorRow).
Hypothesis Hok : cache_ok t.
Hypothesis Ha : a ∈ tb_rowids t.
Hypothesis Hid : v_rowid v = i_rowid a.
Hypothesis Hkey : row_key a = vector_key v.
Hypothesis Ht : replaced a v t t'.

Lemma replaced_ok : cache_ok t'.
Proof.
  rewrite Ht. destruct Hok as [Hk Hr Hn Hvs]. split; cbn [set_vectors tb_rowids tb_next_rowid tb_vectors]; [done..|].
  intros x [[Hx _]%elem_of_delete_where| ->%list_elem_of_singleton]%elem_of_app; [by apply Hvs|].
  by exists a.
Qed.

(** Vectors under the rowid of [a] are those under its key. *)
Lemma rowid_key x : x ∈ tb_vectors t -> (v_rowid x = i_rowid a <-> vector_key x = vector_key v).
Proof.
  intros Hx. destruct (co_vectors _ Hok x Hx) as (b & Hb & Er & Hkb). rewrite <- Hkey, <- Hkb, <- Er. split.
  - intros E. by rewrite (co_rowids _ Hok _ _ Hb Ha E).
  - by apply (co_keys _ Hok).
Qed.

Lemma replaced_other m i model : vector_key v <> (m, i, model) -> cached t' m i model = cached t m i model.
Proof.
  intros Hne. unfold cached. rewrite Ht. cbn [set_vectors tb_vectors]. do 3 f_equal. apply filter_delete_app.
  - intros x Hx E. apply Z.eqb_eq, (rowid_key x Hx) in E. apply not_true_iff_false. by rewrite vector_is_spec, E.
  - apply not_true_iff_false. by rewrite vector_is_spec.
Qed.

Lemma replaced_own :
  cached t' (v_message_id v) (v_chunk_index v) (v_model_id v) = Some (decodeVector (v_embedding v)).
Proof.
  unfold cached. rewrite Ht. cbn [set_vectors tb_vectors].
  assert (where_ (vector_is (v_message_id v) (v_chunk_index v) (v_model_id v))
            (delete_where (fun v' => v_rowid v' =? i_rowid a) (tb_vectors t) ++ [v]) = [v]) as ->.
  { unfold where_. rewrite List.filter_app. simpl.
    rewrite (proj2 (vector_is_spec _ _ _ v)) by done. change (List.filter ?p ?l) with (where_ p l).
    rewrite where_none; [done|]. intros x [Hx Hr]%elem_of_delete_where. apply not_true_iff_false.
    intros Hs%vector_is_spec. apply (rowid_key x Hx) in Hs. lia. }
  destruct (any_order [v]) as [|x l] eqn:E.
  - exfalso. apply (not_elem_of_nil v). rewrite <- E. apply elem_of_any_order. by left.
  - assert (x ∈ any_order [v]) as Hx by (rewrite E; by left).
    apply elem_of_any_order, list_elem_of_singleton in Hx as ->. done.
Qed.
End Replace.

Lemma steps_exec_ok (f : Tables -> Tables) : steps (exec (fun t => Ok (f t))) (fun t _ t' => t' = f t).
Proof. eapply steps_mono; [apply atomic_steps, exec_atomic|]. by intros t u t' [= <-]. Qed.

Lemma insert_vector_ok v vec t t' : insert_vector v vec t = Ok t' -> t' = set_vectors (fun l => l ++ [v]) t.
Proof. unfold insert_vector. destruct (negb _); [done|]. destruct (existsb _ _); [done|]. by intros [= <-]. Qed.

(** The vector row [InsertChunkEmbedding] writes. *)
Definition new_vector (r : MessageRow) (a : RowidRow) (m : string) (i : Z) (model : string) (vec : list float) : VectorRow :=
  {| v_rowid := i_rowid a; v_message_id := m; v_chunk_index := i; v_thread_id := r_thread_id r; v_model_id := model;
     v_role := r_role r; v_embedding := encodeVector vec |}.

Definition embedded (r : MessageRow) (m : string) (i : Z) (model : string) (vec : list float) (t t' : Tables) : Prop :=
  exists a, a ∈ tb_rowids (ensure_rowid m i model t) /\ row_key a = (m, i, model) /\
    replaced a (new_vector r a m i model vec) (ensure_rowid m i model t) t'.

Lemma InsertChunkEmbedding_atomic m i model vec :
  atomic (InsertChunkEmbedding m i model vec)
    (fun t thread t' => exists r, r ∈ tb_messages t /\ r_id r = m /\ thread = r_thread_id r /\ embedded r m i model vec t t').
Proof.
  intros w. unfold InsertChunkEmbedding. unfold mbind at 1, gom_bind.
  set (lookup := wrapping _ _).
  assert (reads lookup /\ forall w' r, lookup w = (w', Ok r) -> r ∈ tb_messages (w_tables w) /\ r_id r = m) as [Hreads Hfound].
  { unfold lookup, wrapping, query_row, query, statement. split.
    - intros w0. unfold mbind, gom_bind. destruct (e_fault _); [done|]. simpl. by destruct (find _ _).
    - intros w' r. unfold mbind, gom_bind. destruct (e_fault _); [done|]. simpl.
      destruct (find _ _) as [r0|] eqn:E; [|done]. intros [= _ <-]. apply find_some in E as [Hr Hid].
      split; [by apply list_elem_of_In|by apply String.eqb_eq]. }
  specialize (Hreads w). destruct (lookup w) as [w0 [r|e|p]] eqn:E; simpl in Hreads; [|done..].
  destruct (Hfound w0 r eq_refl) as [Hr Hid]. unfold mbind at 1, gom_bind.
  match goal with |- context [transaction ?b w0] => set (body := b) end.
  assert (atomic (transaction body) (fun t _ t' => embedded r m i model vec t t')) as Hat.
  { apply transaction_atomic. unfold body. eapply steps_mono.
    - eapply steps_bind; [eapply steps_wrapping, steps_exec_ok|]. intros u1.
      eapply steps_bind; [eapply steps_wrapping, steps_query_row|]. intros a.
      eapply steps_bind; [eapply steps_wrapping, steps_exec_ok|]. intros u2.
      eapply steps_wrapping, atomic_steps, exec_atomic.
    - cbn beta. intros t u t' (? & t1 & -> & a & t2 & (-> & Hf) & ? & t3 & -> & Hins).
      apply find_some in Hf as [Ha Hk]. apply insert_vector_ok in Hins. exists a.
      split; [by apply list_elem_of_In|]. split; [by apply rowid_is_spec|]. by rewrite Hins. }
  specialize (Hat w0). destruct (transaction body w0) as [w1 [u|e|p]]; simpl; [|congruence..].
  exists r. rewrite Hreads in Hat. done.
Qed.

(** The vector is found under its key, bit for bit, and every other key as it was. *)
Definition maps_to (m : string) (i : Z) (model : string) (vec : list float) (t t' : Tables) : Prop :=
  cache_ok t' /\ cached t' m i model = Some vec /\
  forall m' i' model', (m', i', model') <> (m, i, model) -> cached t' m' i' model' = cached t m' i' model'.

Lemma embedded_maps r m i model vec t t' :
  cache_ok t -> Forall is_float32 vec -> embedded r m i model vec t t' -> maps_to m i model vec t t'.
Proof.
  intros Hok Hvec (a & Hin & Hk & Hrep). pose proof (ensure_rowid_ok m i model _ Hok) as Hok1.
  pose proof (replaced_own _ _ a (new_vector r a m i model vec) Hok1 Hin Hk Hrep) as Hown. cbn in Hown. rewrite vector_roundtrip in Hown by done.
  split; [exact (replaced_ok _ _ a (new_vector r a m i model vec) Hok1 Hin eq_refl Hk Hrep)|]. split; [done|]. intros m' i' model' Hne.
  rewrite (replaced_other _ _ a (new_vector r a m i model vec) Hok1 Hin Hk Hrep) by (intros [= -> -> ->]; done).
  unfold cached. by rewrite ensure_rowid_vectors.
Qed.

End Embeddings.

(** The embedding cache is a map from (message, chunk, model) to vectors.
    Inserting either fails and changes nothing, or it stores the vector under
    its key, bit for bit what the caller passed, replaces an earlier one, and
    leaves every other key as it was; the rowid mapping stays one to one. *)
Theorem InsertChunkEmbedding_map `{Env, SliceSort} (m : string) (i : Z) (model : string) (vec : list float) (w : World Tables)
    (Hok : cache_ok (w_tables w)) (Hvec : Forall is_float32 vec) :
  let out := InsertChunkEmbedding m i model vec w in
  match out.2 with
  | Ok _ =>
      cache_ok (w_tables out.1) /\ cached (w_tables out.1) m i model = Some vec /\
      forall m' i' model', (m', i', model') <> (m, i, model) ->
        cached (w_tables out.1) m' i' model' = cached (w_tables w) m' i' model'
  | _ => w_tables out.1 = w_tables w
  end.
Proof.
  intros out. pose proof (InsertChunkEmbedding_atomic m i model vec w) as Ha. fold out in Ha.
  destruct out as [w' [thread|e|p]]; [|done..]. destruct Ha as (r & _ & _ & _ & He). by eapply embedded_maps.
Qed.

(** ** A re-embedded chunk *)
Module SampleCache.
#[local] Existing Instance calm_env.

Definition row : MessageRow :=
  {| r_id := "m1"; r_thread_id := "t"; r_role := ROLE_USER; r_content := ""; r_position := 1; r_created_at := (0, 0); r_turn_id := "u" |}.
Definition old (vec : list float) : VectorRow :=
  {| v_rowid := 1; v_message_id := "m1"; v_chunk_index := 0; v_thread_id := "t"; v_model_id := "e"; v_role := ROLE_USER;
     v_embedding := encodeVector vec |}.
Definition tables : Tables :=
  set_messages (fun _ => [row]) (set_vectors (fun _ => [old [f32_of_f64 f1; f0]])
    (set_rowids (fun _ => [{| i_rowid := 1; i_message_id := "m1"; i_chunk_index := 0; i_model_id := "e" |}]) 2
      (set_meta 2 None empty_tables))).
Definition vec : list float := [f32_of_f64 fhalf; S754_zero true].
Definition out : World Tables * outcome string :=
  InsertChunkEmbedding "m1" 0 "e" vec {| w_tables := tables; w_tick := 0 |}.
End SampleCache.

#[local] Existing Instance calm_env.
Lemma InsertChunkEmbedding_map_witness :
  SampleCache.out.2 = Ok "t" /\ cached SampleCache.tables "m1" 0 "e" = Some [f32_of_f64 f1; f0] /\
  match SampleCache.out.2 with
  | Ok _ => cached (w_tables SampleCache.out.1) "m1" 0 "e" = Some SampleCache.vec
  | _ => False
  end.
Proof.
  split; [vm_compute; reflexivity|]. split; [vm_compute; reflexivity|].
  pose proof (InsertChunkEmbedding_map "m1" 0 "e" SampleCache.vec {| w_tables := SampleCache.tables; w_tick := 0 |}) as Ht.
  refine (proj1 (proj2 (Ht _ _))).
  - split.
    + by intros a b ->%list_elem_of_singleton ->%list_elem_of_singleton.
    + by intros a b ->%list_elem_of_singleton ->%list_elem_of_singleton.
    + by intros a ->%list_elem_of_singleton.
    + intros v ->%list_elem_of_singleton. eexists. split; [by left|]. done.
  - repeat constructor.
Defined.
