(* ===== verification/Threads.v ===== *)
(** * The rest of the store: threads, edges, scores, agent states, plans, view
    states and selections ([service/storage])

    The methods of [*DB] in threads.go, edges.go, scores.go, agentstate.go,
    plans.go, viewstate.go and selections.go.  The integrity of the whole
    database under every sequence of writes is in [Integrity]. *)

From Stdlib Require Import ZArith Lia String Ascii.
From S2P Require Import Prelude GoFloat GoSort GoStrings Types Sql Storage Embeddings.
#[local] Open Scope Z_scope.

(** The encoding of a selection result, [proto.Marshal] at [SelectionResult]. *)
Class ResultCodec := {
  marshal_result : SelectionResult -> outcome string;
  unmarshal_result : string -> outcome SelectionResult;
  result_roundtrip : forall r s, marshal_result r = Ok s -> unmarshal_result s = Ok r
}.

Section Threads.
Context {env : Env} {srt : SliceSort}.
(** The order of the encoded creation times. *)
Context (created_before : Z * Z -> Z * Z -> bool).
#[local] Abbreviation M := (GoM (World Tables)).

(** ** threads.go *)

Definition thread_row (t : Thread) : ThreadRow :=
  {| t_id := th_Id t; t_name := th_Name t; t_sandboxed := th_Sandboxed t; t_created_at := AsTime (th_CreatedAt t);
     t_parent := th_ParentThreadId t; t_branch := th_BranchPointPosition t; t_archived := None |}.

Definition thread_exists (id : string) (t : Tables) : bool := bool_decide (id ∈ t_id <$> tb_threads t).

Definition insert_thread (r : ThreadRow) (t : Tables) : outcome Tables :=
  if thread_exists (t_id r) t then Err e_constraint
  else match t_parent r with
       | Some p => if thread_exists p t || String.eqb p (t_id r) then Ok (set_threads (fun l => l ++ [r]) t) else Err e_constraint
       | None => Ok (set_threads (fun l => l ++ [r]) t)
       end.

Definition insert_dir (d : string * string) (t : Tables) : outcome Tables :=
  if bool_decide (d ∈ tb_dirs t) then Err e_constraint
  else if thread_exists d.1 t then Ok (set_dirs (fun l => l ++ [d]) t) else Err e_constraint.

(** The thread and its directories are separate statements. *)
Definition CreateThread (t : Thread) : M unit :=
  exec (insert_thread (thread_row t)) ≫= fun _ =>
  foldM (fun _ dir => exec (insert_dir (th_Id t, dir))) tt (th_WorkingDirs t).

Definition GetThread (id : string) : M Thread :=
  row ← query (fun t => find (fun r => String.eqb (t_id r) id) (tb_threads t));
  match row with
  | None => gom_err sql_ErrNoRows
  | Some r =>
      dirs ← query (fun t => any_order (where_ (fun d => String.eqb d.1 id) (tb_dirs t)));
      mret {| th_Id := t_id r; th_Name := t_name r; th_WorkingDirs := dirs.*2; th_Sandboxed := t_sandboxed r;
              th_CreatedAt := Some (t_created_at r); th_ParentThreadId := t_parent r;
              th_BranchPointPosition := t_branch r; th_ArchivedAt := t_archived r |}
  end.

Definition by_created_desc (a b : ThreadRow) : bool := created_before (t_created_at b) (t_created_at a).

Definition ListThreads (includeArchived : bool) : M (list Thread) :=
  rows ← query (fun t => sort_slice by_created_desc
    (where_ (fun r => includeArchived || bool_decide (t_archived r = None)) (tb_threads t)));
  foldM (fun threads r => t ← GetThread (t_id r); mret (threads ++ [t])) [] rows.

Definition update_threads (id : string) (f : ThreadRow -> ThreadRow) (t : Tables) : Tables :=
  set_threads (map (fun r => if String.eqb (t_id r) id then f r else r)) t.

Definition with_archived (a : option (Z * Z)) (r : ThreadRow) : ThreadRow :=
  {| t_id := t_id r; t_name := t_name r; t_sandboxed := t_sandboxed r; t_created_at := t_created_at r;
     t_parent := t_parent r; t_branch := t_branch r; t_archived := a |}.
Definition with_name (name : string) (r : ThreadRow) : ThreadRow :=
  {| t_id := t_id r; t_name := name; t_sandboxed := t_sandboxed r; t_created_at := t_created_at r;
     t_parent := t_parent r; t_branch := t_branch r; t_archived := t_archived r |}.
Definition with_sandboxed (b : bool) (r : ThreadRow) : ThreadRow :=
  {| t_id := t_id r; t_name := t_name r; t_sandboxed := b; t_created_at := t_created_at r;
     t_parent := t_parent r; t_branch := t_branch r; t_archived := t_archived r |}.

(** [CURRENT_TIMESTAMP] has whole seconds. *)
Definition ArchiveThread (id : string) : M unit :=
  exec_at (fun nano t => Ok (update_threads id (with_archived (Some (nano / 10 ^ 9, 0))) t)).
Definition UnarchiveThread (id : string) : M unit :=
  exec (fun t => Ok (update_threads id (with_archived None) t)).
Definition DeleteThread (id : string) : M unit := exec (delete_thread e_constraint id).

Definition UpdateThread (t : Thread) : M unit :=
  transaction (
    exec (fun tb => Ok (update_threads (th_Id t) (fun r => with_sandboxed (th_Sandboxed t) (with_name (th_Name t) r)) tb)) ≫= fun _ =>
    exec (fun tb => Ok (set_dirs (delete_where (fun d => String.eqb d.1 (th_Id t))) tb)) ≫= fun _ =>
    foldM (fun _ dir => exec (insert_dir (th_Id t, dir))) tt (th_WorkingDirs t)).

Definition UpdateThreadName (id name : string) : M unit := exec (fun t => Ok (update_threads id (with_name name) t)).

(** ** edges.go *)

Definition edge_key (e : Edge) : string * string * EdgeSource := (e_FromMessageId e, e_ToMessageId e, e_Source e).

(** [source] is stored as its number. *)
Definition source_number (s : EdgeSource) : Z :=
  match s with EDGE_SOURCE_UNSPECIFIED => 0 | EDGE_SOURCE_CROSS_ENCODER => 1 | EDGE_SOURCE_PROVENANCE => 2 end.

(** A NaN binds as NULL, which the column refuses. *)
Definition InsertEdge (e : Edge) : M unit :=
  exec (fun t =>
    if fis_nan (e_Score e) || fis_nan (e_CrossEncoderScore e) then Err e_constraint
    else Ok (set_edges (replace_where (fun e' => bool_decide (edge_key e' = edge_key e)) e) t)).

Definition by_edge_key (a b : Edge) : bool :=
  str_lt (e_FromMessageId a) (e_FromMessageId b) ||
  String.eqb (e_FromMessageId a) (e_FromMessageId b) &&
    (str_lt (e_ToMessageId a) (e_ToMessageId b) ||
     String.eqb (e_ToMessageId a) (e_ToMessageId b) && (source_number (e_Source a) <? source_number (e_Source b))).

Definition AllEdges : M (list Edge) := query (fun t => sort_slice by_edge_key (tb_edges t)).

Definition DeleteEdgesForThread (threadID : string) : M unit :=
  exec (fun t => Ok (set_edges (delete_where (fun e =>
    String.eqb (e_FromThreadId e) threadID || String.eqb (e_ToThreadId e) threadID)) t)).

Definition CountProvenanceEdges : M Z :=
  query (fun t => Z.of_nat (length (where_ (fun e => bool_decide (e_Source e = EDGE_SOURCE_PROVENANCE)) (tb_edges t)))).

(** ** scores.go *)

Definition score_is (key : LocalContextScoreKey) (model : string) (s : ScoreRow) : bool :=
  bool_decide (s_key s = key) && String.eqb (s_model_id s) model.

Definition InsertLocalContextScore (key : LocalContextScoreKey) (modelID : string) (score : float) : M unit :=
  exec (fun t =>
    if fis_nan score then Err e_constraint
    else if existsb (fun c => chunk_is (lk_CandidateID key) (lk_CandidateChunkIdx key) (c_MessageID c) (c_ChunkIndex c))
              (snd <$> tb_chunks t)
    then Ok (set_scores (replace_where (score_is key modelID) {| s_key := key; s_model_id := modelID; s_score := score |}) t)
    else Err e_constraint).

Definition LocalContextScoresForModel (modelID : string) : M (gmap LocalContextScoreKey float) :=
  rows ← query (fun t => any_order (where_ (fun s => String.eqb (s_model_id s) modelID) (tb_scores t)));
  mret (fold_left (fun out s => <[s_key s := s_score s]> out) rows ∅).

(** ** agentstate.go *)

Definition fresh_agent (threadID : string) (status : AgentStatus) (mode : AgentMode) : AgentState :=
  {| as_ThreadID := threadID; as_Status := status; as_Mode := mode; as_RoundCount := 0; as_StartedAt := None;
     as_DurationLimit := None |}.

Definition agent_of (threadID : string) (a : AgentState) : bool := String.eqb (as_ThreadID a) threadID.
Definition has_agent (threadID : string) (t : Tables) : bool := existsb (agent_of threadID) (tb_agents t).

Definition update_agents (threadID : string) (f : AgentState -> AgentState) (t : Tables) : Tables :=
  set_agents (map (fun a => if agent_of threadID a then f a else a)) t.

(** [INSERT ... ON CONFLICT(thread_id) DO UPDATE] *)
Definition StartAutonomousRun (threadID : string) (startedAt : Z) (durationLimit : string) : M unit :=
  let run := {| as_ThreadID := threadID; as_Status := AgentStatusRunning; as_Mode := AgentModeAutonomous;
                as_RoundCount := 0; as_StartedAt := Some startedAt; as_DurationLimit := Some durationLimit |} in
  exec (fun t =>
    if has_agent threadID t then Ok (update_agents threadID (fun _ => run) t)
    else if thread_exists threadID t then Ok (set_agents (fun l => l ++ [run]) t) else Err e_constraint).

(** [INSERT OR IGNORE]: a missing thread is still refused. *)
Definition EnsureAgentStateRow (threadID : string) (status : AgentStatus) (mode : AgentMode) : M unit :=
  exec (fun t =>
    if has_agent threadID t then Ok t
    else if thread_exists threadID t then Ok (set_agents (fun l => l ++ [fresh_agent threadID status mode]) t)
    else Err e_constraint).

Definition with_status (s : AgentStatus) (a : AgentState) : AgentState :=
  {| as_ThreadID := as_ThreadID a; as_Status := s; as_Mode := as_Mode a; as_RoundCount := as_RoundCount a;
     as_StartedAt := as_StartedAt a; as_DurationLimit := as_DurationLimit a |}.
Definition with_mode (m : AgentMode) (a : AgentState) : AgentState :=
  {| as_ThreadID := as_ThreadID a; as_Status := as_Status a; as_Mode := m; as_RoundCount := as_RoundCount a;
     as_StartedAt := as_StartedAt a; as_DurationLimit := as_DurationLimit a |}.
Definition with_round (n : Z) (a : AgentState) : AgentState :=
  {| as_ThreadID := as_ThreadID a; as_Status := as_Status a; as_Mode := as_Mode a; as_RoundCount := n;
     as_StartedAt := as_StartedAt a; as_DurationLimit := as_DurationLimit a |}.

Definition SetAgentStatus (threadID : string) (status : AgentStatus) : M unit :=
  exec (fun t => Ok (update_agents threadID (with_status status) t)).
Definition SetAgentRoundCount (threadID : string) (round : Z) : M unit :=
  exec (fun t => Ok (update_agents threadID (with_round round) t)).
Definition SetAgentStatusAndMode (threadID : string) (status : AgentStatus) (mode : AgentMode) : M unit :=
  exec (fun t => Ok (update_agents threadID (fun a => with_mode mode (with_status status a)) t)).

Definition ListActiveAgentStates : M (list AgentState) :=
  query (fun t => any_order (where_ (fun a => negb (bool_decide (as_Status a = AgentStatusIdle))) (tb_agents t))).

Definition GetAgentState (threadID : string) : M AgentState :=
  row ← query (fun t => find (agent_of threadID) (tb_agents t));
  match row with None => gom_err sql_ErrNoRows | Some a => mret a end.

(** ** plans.go *)

Definition InsertPlan (p : Plan) : M unit :=
  exec_at (fun nano t =>
    if existsb (fun q => String.eqb (pl_ID q.2) (pl_ID p) || String.eqb (pl_Slug q.2) (pl_Slug p)) (tb_plans t)
    then Err e_constraint
    else if thread_exists (pl_ThreadID p) t then Ok (set_plans (fun l => l ++ [(nano / 10 ^ 9, p)]) t)
    else Err e_constraint).

Definition first_row {A} (o : option A) : M A := match o with Some a => mret a | None => gom_err sql_ErrNoRows end.

Definition GetPlanByThread (threadID : string) : M Plan :=
  row ← query (fun t => head (sort_slice (fun a b => b.1 <? a.1)
    (where_ (fun p => String.eqb (pl_ThreadID p.2) threadID) (tb_plans t))));
  first_row (snd <$> row).

Definition GetPlanBySlug (slug : string) : M Plan :=
  row ← query (fun t => find (fun p => String.eqb (pl_Slug p.2) slug) (tb_plans t));
  first_row (snd <$> row).

(** ** viewstate.go *)

Definition SaveViewState (threadID state : string) : M unit :=
  exec (fun t =>
    if existsb (fun v => String.eqb v.1 threadID) (tb_views t)
    then Ok (set_views (map (fun v => if String.eqb v.1 threadID then (threadID, state) else v)) t)
    else if thread_exists threadID t then Ok (set_views (fun l => l ++ [(threadID, state)]) t) else Err e_constraint).

Definition GetViewState (threadID : string) : M string :=
  row ← query (fun t => find (fun v => String.eqb v.1 threadID) (tb_views t));
  first_row (snd <$> row).

(** ** selections.go *)

Context {results : ResultCodec}.

Definition SaveSelection (result : option SelectionResult) (anchorMessageID : string) : M unit :=
  match result with
  | None => mret tt
  | Some r =>
      blob ← gom_lift (marshal_result r);
      exec_at (fun nano t =>
        if bool_decide (anchorMessageID ∈ r_id <$> tb_messages t)
        then Ok (set_selections (replace_where (fun s => String.eqb (sel_event s) (sr_EventId r))
               {| sel_event := sr_EventId r; sel_anchor := anchorMessageID; sel_result := blob;
                  sel_created := nano / 10 ^ 9 |}) t)
        else Err e_constraint)
  end.

(** Every failing lookup reads as absent. *)
Definition decode_selection (row : option SelectionRow) : M (option SelectionResult) :=
  match row with
  | None => mret None
  | Some s => r ← gom_lift (unmarshal_result (sel_result s)); mret (Some r)
  end.

Definition GetSelection (eventID : string) : M (option SelectionResult) :=
  scan_or None (query (fun t => find (fun s => String.eqb (sel_event s) eventID) (tb_selections t))) ≫= decode_selection.

Definition GetSelectionForMessage (messageID : string) : M (option SelectionResult) :=
  scan_or None (query (fun t => head (sort_slice (fun a b => sel_created b <? sel_created a)
    (where_ (fun s => String.eqb (sel_anchor s) messageID) (tb_selections t))))) ≫= decode_selection.

End Threads.
