(* ===== verification/Integrity.v ===== *)
(** * Referential integrity of the store ([service/storage])

    The keys and references the schema declares, as an invariant of the tables,
    and the statement that every sequence of the store's writes keeps it,
    whatever statement, transaction or commit fails on the way. *)

From Stdlib Require Import ZArith Lia String.
From S2P Require Import Prelude GoFloat GoSort GoStrings Types Sql Storage Embeddings Threads.
#[local] Open Scope Z_scope.

(** ** Keys and references *)

Definition unique {A K} (key : A -> K) (l : list A) : Prop := NoDup (key <$> l).
Definition within {A K} (ref : A -> K) (l : list A) (ids : list K) : Prop := forall x, x ∈ l -> ref x ∈ ids.

Section Keys.
Context {A K : Type} (key : A -> K).
Implicit Types (x y : A) (l : list A) (ids : list K).

Lemma unique_delete p l : unique key l -> unique key (delete_where p l).
Proof.
  unfold unique, delete_where. induction l as [|x l IH]; [done|]. rewrite fmap_cons, NoDup_cons. intros [Hx Hl]. simpl.
  destruct (negb (p x)); [|by apply IH]. rewrite fmap_cons, NoDup_cons. split; [|by apply IH].
  intros (y & E & Hy)%list_elem_of_fmap. apply Hx. rewrite E. apply list_elem_of_fmap_2.
  by apply elem_of_delete_where in Hy as [Hy _].
Qed.

Lemma unique_where p l : unique key l -> unique key (where_ p l).
Proof.
  assert (where_ p l = delete_where (fun y => negb (p y)) l) as ->; [|apply unique_delete].
  apply List.filter_ext. intros x. by rewrite negb_involutive.
Qed.

Lemma unique_snoc x l : unique key l -> ~ key x ∈ key <$> l -> unique key (l ++ [x]).
Proof.
  unfold unique. rewrite fmap_app. intros Hl Hx. apply NoDup_app. split; [done|]. split; [|apply NoDup_singleton].
  intros k Hk ->%list_elem_of_singleton. done.
Qed.

Lemma unique_replace same x l :
  (forall y, key y = key x -> same y = true) -> unique key l -> unique key (replace_where same x l).
Proof.
  intros Hs Hl. apply unique_snoc; [by apply unique_delete|]. intros (y & E & Hy)%list_elem_of_fmap.
  apply (elem_of_delete_where same) in Hy as [_ Hf]. by rewrite (Hs y) in Hf.
Qed.

Lemma unique_map (f : A -> A) l : (forall x, key (f x) = key x) -> unique key l -> unique key (map f l).
Proof.
  intros Hf. unfold unique. assert (key <$> map f l = key <$> l) as ->; [|done].
  induction l as [|x l IH]; [done|]. cbn. by rewrite Hf, IH.
Qed.

Lemma fresh_key x l : (forall y, y ∈ l -> key y <> key x) -> ~ key x ∈ key <$> l.
Proof. intros Hn (y & E & Hy)%list_elem_of_fmap. by apply (Hn y). Qed.

Lemma within_delete p l ids : within key l ids -> within key (delete_where p l) ids.
Proof. intros Hw x [Hx _]%elem_of_delete_where. by apply Hw. Qed.

Lemma within_snoc x l ids : within key l ids -> key x ∈ ids -> within key (l ++ [x]) ids.
Proof. intros Hw Hx y [Hy| ->%list_elem_of_singleton]%elem_of_app; auto. Qed.

Lemma within_more l ids ids' : within key l ids -> within key l (ids ++ ids').
Proof. intros Hw x Hx. apply elem_of_app. left. by apply Hw. Qed.

Lemma within_map (f : A -> A) l ids : (forall x, key (f x) = key x) -> within key l ids -> within key (map f l) ids.
Proof. intros Hf Hw x (y & -> & Hy)%list_elem_of_fmap. rewrite Hf. by apply Hw. Qed.
End Keys.

Lemma nodup_delete {A} (p : A -> bool) (l : list A) : NoDup l -> NoDup (delete_where p l).
Proof.
  intros Hl. rewrite <- (list_fmap_id (delete_where p l)). apply (unique_delete id). unfold unique. by rewrite list_fmap_id.
Qed.

(** The references that survive when both sides lose the same keys. *)
Lemma within_cascade {A B K} (ref : A -> K) (key : B -> K) (p : A -> bool) (q : B -> bool) (l : list A) (m : list B) :
  (forall x y, x ∈ l -> y ∈ m -> ref x = key y -> p x = false -> q y = false) ->
  within ref l (key <$> m) -> within ref (delete_where p l) (key <$> delete_where q m).
Proof.
  intros Hpq Hw x [Hx Hp]%elem_of_delete_where. destruct (list_elem_of_fmap_1 _ _ _ (Hw x Hx)) as (y & E & Hy).
  rewrite E. apply list_elem_of_fmap_2, elem_of_delete_where. split; [done|]. by apply (Hpq x y).
Qed.

Lemma fmap_keep {A K} (key : A -> K) (f : A -> A) (l : list A) : (forall x, key (f x) = key x) -> key <$> map f l = key <$> l.
Proof. intros Hf. induction l as [|x l IH]; [done|]. cbn. by rewrite Hf, IH. Qed.

Definition chunk_key (c : Chunk) : string * Z := (c_MessageID c, c_ChunkIndex c).
Definition candidate_of (s : ScoreRow) : string * Z := (lk_CandidateID (s_key s), lk_CandidateChunkIdx (s_key s)).
Definition score_pk (s : ScoreRow) : LocalContextScoreKey * string := (s_key s, s_model_id s).

(** The declared keys and foreign keys. *)
Record refs_ok (t : Tables) : Prop := {
  ok_threads : unique t_id (tb_threads t);
  ok_parents : forall r p, r ∈ tb_threads t -> t_parent r = Some p -> p ∈ t_id <$> tb_threads t;
  ok_dirs : NoDup (tb_dirs t);
  ok_dir_threads : within fst (tb_dirs t) (t_id <$> tb_threads t);
  ok_messages : unique r_id (tb_messages t);
  ok_message_threads : within r_thread_id (tb_messages t) (t_id <$> tb_threads t);
  ok_chunks : unique (fun rc => chunk_key rc.2) (tb_chunks t);
  ok_chunk_rowids : unique fst (tb_chunks t);
  ok_chunk_messages : within (fun rc => c_MessageID rc.2) (tb_chunks t) (r_id <$> tb_messages t);
  ok_edges : unique edge_key (tb_edges t);
  ok_scores : unique score_pk (tb_scores t);
  ok_score_chunks : within candidate_of (tb_scores t) ((fun rc => chunk_key rc.2) <$> tb_chunks t);
  ok_agents : unique as_ThreadID (tb_agents t);
  ok_agent_threads : within as_ThreadID (tb_agents t) (t_id <$> tb_threads t);
  ok_plans : unique (fun p => pl_ID p.2) (tb_plans t);
  ok_plan_slugs : unique (fun p => pl_Slug p.2) (tb_plans t);
  ok_plan_threads : within (fun p => pl_ThreadID p.2) (tb_plans t) (t_id <$> tb_threads t);
  ok_views : unique fst (tb_views t);
  ok_view_threads : within fst (tb_views t) (t_id <$> tb_threads t);
  ok_selections : unique sel_event (tb_selections t);
  ok_anchors : within sel_anchor (tb_selections t) (r_id <$> tb_messages t)
}.

Record integrity (t : Tables) : Prop := {
  in_refs : refs_ok t;
  in_cache : cache_ok t
}.

Lemma integrity_empty : integrity empty_tables.
Proof.
  split; split; cbn; try apply NoDup_nil_2; try (by intros x Hx%elem_of_nil);
    try (by intros x y Hx%elem_of_nil).
Qed.

(** ** Statements *)

Ltac rebuild := split; split; try assumption; cbn -[delete_where replace_where].

Lemma has_thread id t : thread_exists id t = true <-> id ∈ t_id <$> tb_threads t.
Proof. unfold thread_exists. by rewrite bool_decide_eq_true. Qed.

Section Statements.
Context {env : Env}.

Lemma insert_thread_ok r t t' : integrity t -> insert_thread r t = Ok t' -> integrity t'.
Proof.
  intros [[] []] E. unfold insert_thread in E. destruct (thread_exists (t_id r) t) eqn:Hid; [done|].
  assert (~ t_id r ∈ t_id <$> tb_threads t) as Hnew by (rewrite <- has_thread; congruence).
  assert (t' = set_threads (fun l => l ++ [r]) t /\
          (forall p, t_parent r = Some p -> p ∈ (t_id <$> tb_threads t) ++ [t_id r])) as [-> Hp].
  { destruct (t_parent r) as [p|]; [|by simplify_eq]. destruct (_ || _) eqn:Ep; [|done]. injection E as <-.
    split; [done|]. intros ? [= <-]. apply elem_of_app. apply orb_true_iff in Ep as [Ep%has_thread|Ep%String.eqb_eq].
    - by left.
    - right. by apply list_elem_of_singleton. }
  rebuild; rewrite ?fmap_app; try by apply within_more.
  - by apply unique_snoc.
  - intros x p [Hx| ->%list_elem_of_singleton]%elem_of_app Hxp; [|by apply Hp].
    apply elem_of_app. left. by apply (ok_parents0 x).
Qed.

Lemma insert_dir_ok d t t' : integrity t -> insert_dir d t = Ok t' -> integrity t'.
Proof.
  intros [[] []]. unfold insert_dir. case_bool_decide; [done|]. destruct (thread_exists _ _) eqn:Et; [|done].
  apply has_thread in Et. intros [= <-]. rebuild.
  - apply NoDup_app. split; [done|]. split; [|apply NoDup_singleton]. by intros x Hx ->%list_elem_of_singleton.
  - by apply within_snoc.
Qed.

Lemma drop_dirs_ok p t : integrity t -> integrity (set_dirs (delete_where p) t).
Proof.
  intros [[] []]. rebuild; [by apply nodup_delete|by apply within_delete].
Qed.

Lemma update_threads_ok id f t :
  (forall r, t_id (f r) = t_id r) -> (forall r, t_parent (f r) = t_parent r) -> integrity t -> integrity (update_threads id f t).
Proof.
  intros Hid Hp [[] []]. set (g := fun r => if String.eqb (t_id r) id then f r else r).
  assert (forall r, t_id (g r) = t_id r) as Hg by (intros r; unfold g; destruct (String.eqb _ _); auto).
  rebuild; fold g; rewrite ?(fmap_keep t_id g) by done; try done.
  - by apply unique_map.
  - intros r p (r0 & -> & Hr)%list_elem_of_fmap. intros E. apply (ok_parents0 r0); [done|].
    rewrite <- E. unfold g. destruct (String.eqb _ _); by rewrite ?Hp.
Qed.

Lemma insert_message_ok r t t' : integrity t -> insert_message r t = Ok t' -> integrity t'.
Proof.
  intros [[] []]. unfold insert_message. case_bool_decide; [done|]. case_bool_decide; [|done]. intros [= <-].
  rebuild; rewrite ?fmap_app; try by apply within_more.
  - by apply unique_snoc.
  - by apply within_snoc.
Qed.

Lemma next_chunk_rowid_fresh (l : list (Z * Chunk)) rc : rc ∈ l -> rc.1 < next_chunk_rowid l.
Proof.
  unfold next_chunk_rowid. induction l as [|x l IH]; [by intros ?%elem_of_nil|].
  intros [->|Hr]%elem_of_cons; cbn; [lia|]. specialize (IH Hr). lia.
Qed.

Lemma chunk_is_spec m i m' i' : chunk_is m i m' i' = true <-> (m, i) = (m', i').
Proof. unfold chunk_is. rewrite andb_true_iff, String.eqb_eq, Z.eqb_eq. naive_solver. Qed.

Lemma insert_chunk_ok c t t' : integrity t -> insert_chunk c t = Ok t' -> integrity t'.
Proof.
  intros [[] []]. unfold insert_chunk. destruct (existsb _ _) eqn:E; [done|]. case_bool_decide; [|done]. intros [= <-].
  rebuild; rewrite ?fmap_app; try by apply within_more.
  - apply unique_snoc; [done|]. intros (y & Ey & Hy)%list_elem_of_fmap.
    apply not_true_iff_false in E. apply E, existsb_exists. exists y.2. split.
    + apply list_elem_of_In. by apply list_elem_of_fmap_2.
    + by apply chunk_is_spec.
  - apply unique_snoc; [done|]. intros (y & Ey & Hy)%list_elem_of_fmap.
    apply next_chunk_rowid_fresh in Hy. cbn in Ey. lia.
  - by apply within_snoc.
Qed.

(** The chunks a cascade removes, by key. *)
Lemma gone_key (p : Chunk -> bool) t m i :
  existsb (fun c => chunk_is (c_MessageID c) (c_ChunkIndex c) m i) (where_ p (snd <$> tb_chunks t)) = true <->
  exists rc, rc ∈ tb_chunks t /\ p rc.2 = true /\ chunk_key rc.2 = (m, i).
Proof.
  rewrite existsb_exists. split.
  - intros (c & [(rc & -> & Hrc)%list_elem_of_fmap Hp]%list_elem_of_In%elem_of_where & Hk%chunk_is_spec). by exists rc.
  - intros (rc & Hrc & Hp & Hk). exists rc.2. split; [|by apply chunk_is_spec].
    apply list_elem_of_In, elem_of_where. split; [by apply list_elem_of_fmap_2|done].
Qed.

Lemma delete_chunks_ok p t : integrity t -> integrity (delete_chunks p t).
Proof.
  intros [[] [Hk Hr Hn Hv]]. unfold delete_chunks. rebuild.
  - by apply unique_delete.
  - by apply unique_delete.
  - by apply within_delete.
  - by apply unique_delete.
  - apply within_cascade; [|done]. intros s rc Hs Hrc Ek Hh. apply not_true_iff_false. intros Hp.
    apply not_true_iff_false in Hh. apply Hh, gone_key. by exists rc.
  - intros a b [Ha _]%elem_of_delete_where [Hb _]%elem_of_delete_where. by apply Hk.
  - intros a b [Ha _]%elem_of_delete_where [Hb _]%elem_of_delete_where. by apply Hr.
  - intros a [Ha _]%elem_of_delete_where. by apply Hn.
  - intros v [Hv' Hh]%elem_of_delete_where. destruct (Hv v Hv') as (a & Ha & Er & Ek). exists a.
    split; [|done]. apply elem_of_delete_where. split; [done|]. unfold row_key, vector_key in Ek.
    injection Ek as -> -> _. done.
Qed.

Lemma delete_thread_ok refuse id t t' : integrity t -> delete_thread refuse id t = Ok t' -> integrity t'.
Proof.
  intros Hok. unfold delete_thread. destruct (existsb _ _) eqn:E; [done|]. intros [= <-].
  set (own := r_id <$> where_ (fun r => String.eqb (r_thread_id r) id) (tb_messages t)).
  set (gone := fun c => bool_decide (c_MessageID c ∈ own)).
  pose proof (delete_chunks_ok gone t Hok) as Hok1. destruct Hok as [[] _].
  assert (forall r, r ∈ tb_messages t -> (r_thread_id r =? id)%string = false -> ~ r_id r ∈ own) as Hkeep.
  { intros r Hr Ht (r' & Er & [Hr' Ht']%elem_of_where)%list_elem_of_fmap.
    assert (r = r') as ->; [|congruence]. apply list_elem_of_lookup in Hr as [i Hi], Hr' as [j Hj].
    assert (i = j) as ->; [|congruence].
    apply (NoDup_lookup (r_id <$> tb_messages t) i j (r_id r)); [done|..]; rewrite list_lookup_fmap; [by rewrite Hi|by rewrite Hj, Er]. }
  assert (forall (A : Type) (ref : A -> string) l, within ref l (t_id <$> tb_threads t) ->
    within ref (delete_where (fun x => String.eqb (ref x) id) l)
      (t_id <$> delete_where (fun r => String.eqb (t_id r) id) (tb_threads t))) as Hthreads.
  { intros A ref l. apply within_cascade. intros x y _ _ ->. done. }
  assert (forall (A : Type) (ref : A -> string) l, within ref l (r_id <$> tb_messages t) ->
    within ref (delete_where (fun x => bool_decide (ref x ∈ own)) l)
      (r_id <$> delete_where (fun r => String.eqb (r_thread_id r) id) (tb_messages t))) as Hmessages.
  { intros A ref l. apply within_cascade. intros x r _ Hr ->. case_bool_decide as Hin; [done|]. intros _.
    apply not_true_iff_false. intros Ht. apply Hin. apply list_elem_of_fmap_2, elem_of_where. done. }
  destruct Hok1 as [[] []]. rebuild; auto using unique_delete, within_delete.
  - intros r p [Hr Hid]%elem_of_delete_where Hp. destruct (list_elem_of_fmap_1 _ _ _ (ok_parents0 r p Hr Hp)) as (q & -> & Hq).
    apply list_elem_of_fmap_2, elem_of_delete_where. split; [done|]. apply not_true_iff_false. intros Ht%String.eqb_eq.
    apply not_true_iff_false in E. apply E, existsb_exists. exists r. split; [by apply list_elem_of_In|].
    rewrite Hid. cbn. apply bool_decide_eq_true. congruence.
  - by apply nodup_delete.
Qed.

Lemma replace_edge_ok e t :
  integrity t -> integrity (set_edges (replace_where (fun e' => bool_decide (edge_key e' = edge_key e)) e) t).
Proof. intros [[] []]. rebuild. apply unique_replace; [|done]. intros y Hy. by apply bool_decide_eq_true. Qed.

Lemma delete_edges_ok p t : integrity t -> integrity (set_edges (delete_where p) t).
Proof. intros [[] []]. rebuild. by apply unique_delete. Qed.

Lemma replace_score_ok key model score t :
  integrity t -> (lk_CandidateID key, lk_CandidateChunkIdx key) ∈ (fun rc => chunk_key rc.2) <$> tb_chunks t ->
  integrity (set_scores (replace_where (score_is key model) {| s_key := key; s_model_id := model; s_score := score |}) t).
Proof.
  intros [[] []] Hk. rebuild.
  - apply unique_replace; [|done]. intros s [= <- <-]. unfold score_is.
    by rewrite bool_decide_true, String.eqb_refl.
  - apply within_snoc; [by apply within_delete|done].
Qed.

Lemma has_agent_spec id t : has_agent id t = false -> ~ id ∈ as_ThreadID <$> tb_agents t.
Proof.
  intros E (a & -> & Ha)%list_elem_of_fmap. apply not_true_iff_false in E. apply E, existsb_exists.
  exists a. split; [by apply list_elem_of_In|]. apply String.eqb_refl.
Qed.

Lemma insert_agent_ok a t :
  integrity t -> has_agent (as_ThreadID a) t = false -> thread_exists (as_ThreadID a) t = true ->
  integrity (set_agents (fun l => l ++ [a]) t).
Proof.
  intros [[] []] Ha Ht. rebuild.
  - apply unique_snoc; [done|]. by apply has_agent_spec.
  - apply within_snoc; [done|]. by apply has_thread.
Qed.

Lemma update_agents_ok id f t :
  (forall a, as_ThreadID a = id -> as_ThreadID (f a) = id) -> integrity t -> integrity (update_agents id f t).
Proof.
  intros Hf [[] []]. rebuild; [apply unique_map|apply within_map]; try done; intros a; unfold agent_of;
    destruct (String.eqb_spec (as_ThreadID a) id) as [E|]; try done; by rewrite (Hf a E).
Qed.

Lemma insert_plan_ok nano p t :
  integrity t ->
  existsb (fun q => String.eqb (pl_ID q.2) (pl_ID p) || String.eqb (pl_Slug q.2) (pl_Slug p)) (tb_plans t) = false ->
  thread_exists (pl_ThreadID p) t = true -> integrity (set_plans (fun l => l ++ [(nano, p)]) t).
Proof.
  intros [[] []] E Ht. assert (forall q, q ∈ tb_plans t -> pl_ID q.2 <> pl_ID p /\ pl_Slug q.2 <> pl_Slug p) as Hnew.
  { intros q Hq. apply not_true_iff_false in E. split; intros Eq; apply E, existsb_exists; exists q;
      (split; [by apply list_elem_of_In|]); rewrite Eq, String.eqb_refl; [done|apply orb_true_r]. }
  rebuild.
  - apply unique_snoc; [done|]. apply (fresh_key (fun p => pl_ID p.2)). intros q Hq. by apply Hnew.
  - apply unique_snoc; [done|]. apply (fresh_key (fun p => pl_Slug p.2)). intros q Hq. by apply Hnew.
  - apply within_snoc; [done|]. by apply has_thread.
Qed.

Lemma insert_view_ok v t :
  integrity t -> existsb (fun v' => String.eqb v'.1 v.1) (tb_views t) = false -> thread_exists v.1 t = true ->
  integrity (set_views (fun l => l ++ [v]) t).
Proof.
  intros [[] []] E Ht. rebuild.
  - apply unique_snoc; [done|]. apply fresh_key. intros w Hw Ew. apply not_true_iff_false in E. apply E, existsb_exists.
    exists w. split; [by apply list_elem_of_In|]. rewrite Ew. apply String.eqb_refl.
  - apply within_snoc; [done|]. by apply has_thread.
Qed.

Lemma update_views_ok id s t :
  integrity t -> integrity (set_views (map (fun v => if String.eqb v.1 id then (id, s) else v)) t).
Proof.
  intros [[] []]. rebuild; [apply unique_map|apply within_map]; try done; intros v;
    destruct (String.eqb_spec v.1 id) as [E|]; done.
Qed.

Lemma replace_selection_ok s t :
  integrity t -> sel_anchor s ∈ r_id <$> tb_messages t ->
  integrity (set_selections (replace_where (fun s' => String.eqb (sel_event s') (sel_event s)) s) t).
Proof.
  intros [[] []] Hs. rebuild.
  - apply unique_replace; [|done]. intros s' ->. apply String.eqb_refl.
  - apply within_snoc; [by apply within_delete|done].
Qed.

(** Changes to the cache leave the relational tables alone. *)
Lemma cache_only t t' :
  integrity t -> set_vectors (fun _ => []) (set_rowids (fun _ => []) 0 (set_meta 0 None t')) =
                 set_vectors (fun _ => []) (set_rowids (fun _ => []) 0 (set_meta 0 None t)) ->
  cache_ok t' -> integrity t'.
Proof.
  intros [Hr _] E Hc. split; [|done]. destruct t, t'. injection E. intros; subst. destruct Hr. by split.
Qed.

End Statements.

(** ** Calls *)

(** A call that keeps a property of the tables, whether it succeeds or not. *)
Definition keeps {A} (P : Tables -> Prop) (m : GoM (World Tables) A) : Prop :=
  forall w, P (w_tables w) -> P (w_tables (m w).1).

Section Keeps.
Context {env : Env} (P : Tables -> Prop).

Lemma keeps_ret {A} (a : A) : keeps P (mret a).
Proof. by intros w. Qed.

Lemma keeps_err {A} e : keeps P (gom_err e : GoM (World Tables) A).
Proof. by intros w. Qed.

Lemma keeps_lift {A} (o : outcome A) : keeps P (gom_lift o).
Proof. by intros w. Qed.

Lemma keeps_reads {A} (m : GoM (World Tables) A) : reads m -> keeps P m.
Proof. intros Hm w Hw. by rewrite Hm. Qed.

Lemma keeps_query {A} (f : Tables -> A) : keeps P (query f).
Proof. apply keeps_reads, query_reads. Qed.

Lemma keeps_bind {A B} (m : GoM (World Tables) A) (f : A -> GoM (World Tables) B) :
  keeps P m -> (forall a, keeps P (f a)) -> keeps P (m ≫= f).
Proof.
  intros Hm Hf w Hw. specialize (Hm w Hw). unfold mbind, gom_bind. destruct (m w) as [w' [a| |]]; [by apply Hf|done..].
Qed.

Lemma keeps_exec f : (forall t t', P t -> f t = Ok t' -> P t') -> keeps P (exec f).
Proof.
  intros Hf w Hw. unfold exec, statement. destruct (e_fault _); [done|]. cbn.
  destruct (f (w_tables w)) eqn:E; cbn; [by apply (Hf (w_tables w))|done..].
Qed.

Lemma keeps_exec_at f : (forall n t t', P t -> f n t = Ok t' -> P t') -> keeps P (exec_at f).
Proof. intros Hf w Hw. by apply (keeps_exec (f (e_now (w_tick w)))); [apply Hf|]. Qed.

Lemma keeps_foldM {A B} (f : B -> A -> GoM (World Tables) B) l b :
  (forall b x, keeps P (f b x)) -> keeps P (foldM (M := GoM (World Tables)) f b l).
Proof.
  intros Hf. revert b. induction l as [|x l IH]; intros b; [apply keeps_ret|]. cbn [foldM]. by apply keeps_bind.
Qed.

Lemma keeps_wrapping {A} pre (m : GoM (World Tables) A) : keeps P m -> keeps P (wrapping pre m).
Proof. intros Hm w Hw. specialize (Hm w Hw). unfold wrapping. by destruct (m w) as [w' [a| |]]. Qed.

Lemma keeps_transaction {A} (body : GoM (World Tables) A) : keeps P body -> keeps P (transaction body).
Proof.
  intros Hb w Hw. unfold transaction, statement. destruct (e_fault (w_tick w)); cbn; [done|].
  match goal with |- context [body ?x] => set (w0 := x) end. assert (P (w_tables w0)) as Hw0 by done.
  specialize (Hb w0 Hw0). destruct (body w0) as [w1 [a| |]]; [|done..]. by destruct (e_fault (w_tick w1)).
Qed.

Lemma keeps_atomic {A} (m : GoM (World Tables) A) R :
  atomic m R -> (forall t a t', P t -> R t a t' -> P t') -> keeps P m.
Proof.
  intros Hm HR w Hw. specialize (Hm w). destruct (m w) as [w' [a| |]]; cbn in *; [by eapply HR|by rewrite Hm..].
Qed.

Lemma keeps_catch (m : GoM (World Tables) unit) : keeps P m -> keeps P (gom_catch m).
Proof. intros Hm w Hw. specialize (Hm w Hw). unfold gom_catch. by destruct (m w) as [w' [a| |]]. Qed.

End Keeps.

(** Walks through a call, down to the functions its statements run. *)
Ltac keeping := repeat first
  [ done | eassumption | apply keeps_ret | apply keeps_err | apply keeps_lift | apply keeps_query | apply keeps_bind; [|intros ?]
  | apply keeps_foldM; intros ? ? | apply keeps_wrapping | apply keeps_transaction | apply keeps_catch
  | match goal with H : _ |- keeps _ _ => apply H end ].

Section Writes.
Context {env : Env} {srt : SliceSort} {codec : ProtoCodec} {results : ResultCodec}.

Lemma keeps_insert_dir d : keeps integrity (exec (insert_dir d)).
Proof. apply keeps_exec. intros t t'. apply insert_dir_ok. Qed.

Lemma keeps_insert_chunk c : keeps integrity (exec (insert_chunk c)).
Proof. apply keeps_exec. intros t t'. apply insert_chunk_ok. Qed.

Lemma keeps_DeleteThread id : keeps integrity (DeleteThread id).
Proof. apply keeps_exec. intros t t'. apply delete_thread_ok. Qed.

Lemma keeps_update id f :
  (forall r, t_id (f r) = t_id r) -> (forall r, t_parent (f r) = t_parent r) ->
  keeps integrity (exec (fun t => Ok (update_threads id f t))).
Proof. intros H1 H2. apply keeps_exec. intros t t' Ht [= <-]. by apply update_threads_ok. Qed.

Lemma keeps_agents id f :
  (forall a, as_ThreadID a = id -> as_ThreadID (f a) = id) -> keeps integrity (exec (fun t => Ok (update_agents id f t))).
Proof. intros Hf. apply keeps_exec. intros t t' Ht [= <-]. by apply update_agents_ok. Qed.

Lemma keeps_CreateThread t : keeps integrity (CreateThread t).
Proof.
  unfold CreateThread. pose proof keeps_insert_dir. keeping. apply keeps_exec. intros t0 t'. apply insert_thread_ok.
Qed.

Lemma keeps_UpdateThread t : keeps integrity (UpdateThread t).
Proof.
  unfold UpdateThread. apply keeps_transaction, keeps_bind; [by apply keeps_update|]. intros _.
  pose proof keeps_insert_dir. keeping. apply keeps_exec. intros t0 t' Ht [= <-]. by apply drop_dirs_ok.
Qed.

Lemma keeps_InsertEdge e : keeps integrity (InsertEdge e).
Proof. apply keeps_exec. intros t t' Ht. destruct (_ || _); [done|]. intros [= <-]. by apply replace_edge_ok. Qed.

Lemma keeps_InsertLocalContextScore key model score : keeps integrity (InsertLocalContextScore key model score).
Proof.
  apply keeps_exec. intros t t' Ht. destruct (fis_nan score); [done|]. destruct (existsb _ _) eqn:E; [|done].
  intros [= <-]. apply replace_score_ok; [done|].
  apply existsb_exists in E as (c & (rc & -> & Hrc)%list_elem_of_In%list_elem_of_fmap & ->%chunk_is_spec).
  by apply (list_elem_of_fmap_2 (fun rc => chunk_key rc.2)).
Qed.

Lemma keeps_agent_row (a : AgentState) (f : Tables -> Tables) :
  (forall t, integrity t -> integrity (f t)) ->
  keeps integrity (exec (fun t =>
    if has_agent (as_ThreadID a) t then Ok (f t)
    else if thread_exists (as_ThreadID a) t then Ok (set_agents (fun l => l ++ [a]) t) else Err e_constraint)).
Proof.
  intros Hf. apply keeps_exec. intros t t' Ht. destruct (has_agent _ _) eqn:Ha; [intros [= <-]; by apply Hf|].
  destruct (thread_exists _ _) eqn:He; [|done]. intros [= <-]. by apply insert_agent_ok.
Qed.

Lemma keeps_StartAutonomousRun id at_ lim : keeps integrity (StartAutonomousRun id at_ lim).
Proof.
  apply (keeps_agent_row {| as_ThreadID := id; as_Status := AgentStatusRunning; as_Mode := AgentModeAutonomous;
    as_RoundCount := 0; as_StartedAt := Some at_; as_DurationLimit := Some lim |}).
  intros t Ht. by apply update_agents_ok.
Qed.

Lemma keeps_EnsureAgentStateRow id st mode : keeps integrity (EnsureAgentStateRow id st mode).
Proof. by apply (keeps_agent_row (fresh_agent id st mode)). Qed.

Lemma keeps_InsertPlan p : keeps integrity (InsertPlan p).
Proof.
  apply keeps_exec_at. intros n t t' Ht. destruct (existsb _ _) eqn:E; [done|]. destruct (thread_exists _ _) eqn:He; [|done].
  intros [= <-]. by apply insert_plan_ok.
Qed.

Lemma keeps_SaveViewState id s : keeps integrity (SaveViewState id s).
Proof.
  apply keeps_exec. intros t t' Ht. destruct (existsb _ _) eqn:E; [intros [= <-]; by apply update_views_ok|].
  destruct (thread_exists _ _) eqn:He; [|done]. intros [= <-]. by apply insert_view_ok.
Qed.

Lemma keeps_SaveSelection r anchor : keeps integrity (SaveSelection r anchor).
Proof.
  destruct r as [r|]; [|apply keeps_ret]. apply keeps_bind; [apply keeps_lift|]. intros blob.
  apply keeps_exec_at. intros n t t' Ht. case_bool_decide; [|done]. intros [= <-].
  by apply (replace_selection_ok {| sel_event := sr_EventId r; sel_anchor := anchor; sel_result := blob; sel_created := n / 10 ^ 9 |}).
Qed.

Lemma keeps_prepare : keeps integrity prepare.
Proof. intros w Hw. unfold prepare, statement. by destruct (e_fault _). Qed.

Lemma keeps_insertMessageTx msg content chunks : keeps integrity (insertMessageTx msg content chunks).
Proof.
  pose proof keeps_prepare. pose proof keeps_insert_chunk. unfold insertMessageTx. destruct chunks; keeping;
    apply keeps_exec; intros t t'; apply insert_message_ok.
Qed.

Lemma keeps_fillCreatedAt msg : keeps integrity (fillCreatedAt msg).
Proof. intros w Hw. unfold fillCreatedAt. by destruct (unstamped msg). Qed.

Lemma keeps_InsertMessage msg chunks : keeps integrity (InsertMessage msg chunks).
Proof.
  pose proof keeps_fillCreatedAt. pose proof keeps_insertMessageTx. unfold InsertMessage. keeping.
Qed.

Lemma keeps_InsertToolCallPair call cc result rc : keeps integrity (InsertToolCallPair call cc result rc).
Proof.
  pose proof keeps_fillCreatedAt. pose proof keeps_insertMessageTx. unfold InsertToolCallPair. keeping.
Qed.

Lemma keeps_InsertTickTrace tr : keeps integrity (InsertTickTrace tr).
Proof. apply keeps_exec. intros t t' [[] []] [= <-]. split; split; done. Qed.

Lemma keeps_InsertChunks id chunks : keeps integrity (InsertChunks id chunks).
Proof.
  destruct chunks as [|c l]; [apply keeps_ret|]. pose proof keeps_prepare. unfold InsertChunks. generalize (c :: l). intros chunks.
  pose proof keeps_insert_chunk. keeping. apply keeps_exec. intros t t' Ht [= <-]. by apply delete_chunks_ok.
Qed.

Lemma keeps_InsertChunkEmbedding m i model vec : keeps integrity (InsertChunkEmbedding m i model vec).
Proof.
  eapply keeps_atomic; [apply InsertChunkEmbedding_atomic|]. cbn beta.
  intros t thread t' Ht (r & _ & _ & _ & a & Ha & Hk & Hrep). apply (cache_only t); [done|..].
  - rewrite Hrep. unfold ensure_rowid. by destruct (existsb _ _).
  - by apply (replaced_ok _ _ a (new_vector r a m i model vec) (ensure_rowid_ok m i model t (in_cache t Ht)) Ha).
Qed.

Lemma keeps_upsertEmbeddingMeta dim model : keeps integrity (upsertEmbeddingMeta dim model).
Proof. apply keeps_exec. intros t t' [[] []] [= <-]. split; split; done. Qed.

(** The rebuilt cache is empty, so the counter may start again. *)
Lemma keeps_EnsureEmbeddingDim dim model : keeps integrity (EnsureEmbeddingDim dim model).
Proof.
  unfold EnsureEmbeddingDim. destruct (dim <=? 0); [apply keeps_err|].
  apply keeps_bind; [keeping|]. intros stored. case_match; [apply keeps_upsertEmbeddingMeta|].
  eapply keeps_atomic.
  - apply transaction_atomic. eapply steps_bind; [eapply steps_wrapping, atomic_steps, exec_atomic|]. intros ?.
    do 3 (eapply steps_bind; [eapply steps_wrapping, steps_exec_ok|]; intros ?).
    eapply steps_wrapping, steps_exec_ok.
  - cbn beta. intros t u t' Ht (? & t1 & [= <-] & ? & t2 & -> & ? & t3 & -> & ? & t4 & -> & ->).
    apply (cache_only t); [done..|]. split; cbn; intros *; by intros ?%elem_of_nil.
Qed.

End Writes.

(** ** Every history of the store *)

Section History.
Context {env : Env} {srt : SliceSort} {codec : ProtoCodec} {results : ResultCodec}.

(** One call of the store: a write, or anything that leaves the tables alone. *)
Inductive store_step (w : World Tables) : World Tables -> Prop :=
| step_read w' : w_tables w' = w_tables w -> store_step w w'
| step_CreateThread t : store_step w (CreateThread t w).1
| step_UpdateThread t : store_step w (UpdateThread t w).1
| step_UpdateThreadName id name : store_step w (UpdateThreadName id name w).1
| step_ArchiveThread id : store_step w (ArchiveThread id w).1
| step_UnarchiveThread id : store_step w (UnarchiveThread id w).1
| step_DeleteThread id : store_step w (DeleteThread id w).1
| step_InsertMessage msg chunks : store_step w (InsertMessage msg chunks w).1
| step_InsertToolCallPair call cc result rc : store_step w (InsertToolCallPair call cc result rc w).1
| step_InsertChunks id chunks : store_step w (InsertChunks id chunks w).1
| step_InsertChunkEmbedding m i model vec : store_step w (InsertChunkEmbedding m i model vec w).1
| step_EnsureEmbeddingDim dim model : store_step w (EnsureEmbeddingDim dim model w).1
| step_InsertEdge e : store_step w (InsertEdge e w).1
| step_DeleteEdgesForThread id : store_step w (DeleteEdgesForThread id w).1
| step_InsertLocalContextScore key model score : store_step w (InsertLocalContextScore key model score w).1
| step_InsertTickTrace tr : store_step w (InsertTickTrace tr w).1
| step_StartAutonomousRun id started lim : store_step w (StartAutonomousRun id started lim w).1
| step_EnsureAgentStateRow id st mode : store_step w (EnsureAgentStateRow id st mode w).1
| step_SetAgentStatus id st : store_step w (SetAgentStatus id st w).1
| step_SetAgentRoundCount id n : store_step w (SetAgentRoundCount id n w).1
| step_SetAgentStatusAndMode id st mode : store_step w (SetAgentStatusAndMode id st mode w).1
| step_InsertPlan p : store_step w (InsertPlan p w).1
| step_SaveViewState id s : store_step w (SaveViewState id s w).1
| step_SaveSelection r anchor : store_step w (SaveSelection r anchor w).1.

Lemma store_step_ok w w' : store_step w w' -> integrity (w_tables w) -> integrity (w_tables w').
Proof.
  intros Hs Hw. destruct Hs as [w' E| | | | | | | | | | | | | | | | | | | | | | |]; [by rewrite E|revert w Hw..].
  - apply keeps_CreateThread.
  - apply keeps_UpdateThread.
  - by apply keeps_update.
  - apply keeps_exec_at. intros n t t' Ht [= <-]. by apply update_threads_ok.
  - by apply keeps_update.
  - apply keeps_DeleteThread.
  - apply keeps_InsertMessage.
  - apply keeps_InsertToolCallPair.
  - apply keeps_InsertChunks.
  - apply keeps_InsertChunkEmbedding.
  - apply keeps_EnsureEmbeddingDim.
  - apply keeps_InsertEdge.
  - apply keeps_exec. intros t t' Ht [= <-]. by apply delete_edges_ok.
  - apply keeps_InsertLocalContextScore.
  - apply keeps_InsertTickTrace.
  - apply keeps_StartAutonomousRun.
  - apply keeps_EnsureAgentStateRow.
  - by apply keeps_agents.
  - by apply keeps_agents.
  - by apply keeps_agents.
  - apply keeps_InsertPlan.
  - apply keeps_SaveViewState.
  - apply keeps_SaveSelection.
Qed.

(** C4: Starting from the bootstrap schema, every sequence of the store's calls,
    with any statement, transaction or commit failing on the way, leaves
    tables whose keys are unique and whose references all resolve: every
    message, directory, agent state, plan and view has its thread, every
    branch its parent, every chunk and selection its message, every score its
    chunk, and every cached vector its own rowid. *)
Theorem store_integrity tick (w : World Tables)
    (Hw : rtc store_step {| w_tables := empty_tables; w_tick := tick |} w) :
  integrity (w_tables w).
Proof.
  remember {| w_tables := empty_tables; w_tick := tick |} as w0 eqn:E.
  assert (integrity (w_tables w0)) as H0 by (rewrite E; apply integrity_empty). clear E.
  induction Hw as [|w0 w1 w2 Hs _ IH]; [done|]. by eapply IH, store_step_ok.
Qed.

(** *** Deleting a thread *)

Definition owned (id : string) (t : Tables) (m : string) : Prop :=
  exists r, r ∈ tb_messages t /\ r_id r = m /\ r_thread_id r = id.
Definition has_chunk (t : Tables) (m : string) (i : Z) : Prop := exists rc, rc ∈ tb_chunks t /\ chunk_key rc.2 = (m, i).

(** Nothing branches from the thread. *)
Definition unbranched (id : string) (t : Tables) : Prop :=
  forall r, r ∈ tb_threads t -> t_id r <> id -> t_parent r <> Some id.

Lemma gone_owned id t m :
  bool_decide (m ∈ r_id <$> where_ (fun r => String.eqb (r_thread_id r) id) (tb_messages t)) = true <-> owned id t m.
Proof.
  rewrite bool_decide_eq_true, list_elem_of_fmap. unfold owned. split.
  - intros (r & -> & [Hr Ht%String.eqb_eq]%elem_of_where). by exists r.
  - intros (r & Hr & <- & Ht). exists r. split; [done|]. apply elem_of_where. split; [done|]. by apply String.eqb_eq.
Qed.

Lemma corpus_delete id other t t' :
  tb_messages t' = delete_where (fun r => String.eqb (r_thread_id r) id) (tb_messages t) ->
  thread_corpus t' other = if decide (other = id) then [] else thread_corpus t other.
Proof.
  intros E. unfold thread_corpus, corpus. rewrite E. unfold delete_where. clear E. induction (tb_messages t) as [|r l IH]; cbn; [by case_decide|].
  assert (forall m, decoded r = Some m -> m_ThreadId m = r_thread_id r) as Hd.
  { unfold decoded, row_message, mbind, outcome_bind. intros m. destruct (unmarshalContentBlocks _); [|done..]. by intros [= <-]. }
  destruct (String.eqb_spec (r_thread_id r) id) as [Hid|Hid]; cbn; destruct (decoded r) as [m|] eqn:Em;
    rewrite ?filter_cons, ?(Hd m) by done; rewrite IH; repeat case_decide; congruence.
Qed.

Lemma unbranched_spec id t :
  existsb (fun r => negb (String.eqb (t_id r) id) && bool_decide (t_parent r = Some id)) (tb_threads t) = false <->
  unbranched id t.
Proof.
  rewrite <- not_true_iff_false, existsb_exists. unfold unbranched. split.
  - intros Hn r Hr Hid Hp. apply Hn. exists r. split; [by apply list_elem_of_In|].
    apply andb_true_iff. split; [|by apply bool_decide_eq_true]. by destruct (String.eqb_spec (t_id r) id).
  - intros Hu (r & Hr%list_elem_of_In & [Hid Hp%bool_decide_eq_true]%andb_true_iff).
    destruct (String.eqb_spec (t_id r) id) as [|Hne]; [done|]. by apply (Hu r Hr Hne).
Qed.

(** Deleting a thread is complete and confined.  Unless the statement is
    refused or another thread branches from it, the thread, its corpus, its
    chunks and the scores on them are gone, every other thread's corpus is as
    it was, the chunks and scores of other messages stay, and a cached vector
    of its messages is left only where its chunk was already missing; edges
    and tick traces are not touched.  A refused delete changes nothing. *)
Theorem DeleteThread_complete (id : string) (w : World Tables) (Hok : integrity (w_tables w)) :
  let out := DeleteThread id w in
  let t := w_tables w in
  let t' := w_tables out.1 in
  match out.2 with
  | Ok _ =>
      unbranched id t /\ ~ id ∈ t_id <$> tb_threads t' /\
      (forall other, thread_corpus t' other = if decide (other = id) then [] else thread_corpus t other) /\
      (forall rc, rc ∈ tb_chunks t' <-> rc ∈ tb_chunks t /\ ~ owned id t (c_MessageID rc.2)) /\
      (forall s, s ∈ tb_scores t' <-> s ∈ tb_scores t /\ ~ owned id t (lk_CandidateID (s_key s))) /\
      (forall v, v ∈ tb_vectors t' <->
        v ∈ tb_vectors t /\ ~ (owned id t (v_message_id v) /\ has_chunk t (v_message_id v) (v_chunk_index v))) /\
      tb_edges t' = tb_edges t /\ tb_traces t' = tb_traces t
  | Err _ => t' = t /\ (is_Some (e_fault (w_tick w)) \/ ~ unbranched id t)
  | Panic _ => False
  end.
Proof.
  unfold DeleteThread, exec, statement. destruct (e_fault (w_tick w)) as [e|]; cbn [fst snd]; [split; eauto|].
  unfold delete_thread. destruct (existsb _ (tb_threads (w_tables w))) eqn:E; cbn [fst snd].
  - split; [done|]. right. intros Hu%unbranched_spec. congruence.
  - apply unbranched_spec in E. set (t := w_tables w) in *. split; [done|]. split.
    { intros (r & -> & [_ Hr]%elem_of_delete_where)%list_elem_of_fmap. by rewrite String.eqb_refl in Hr. }
    split; [intros other; by apply corpus_delete|]. split.
    { intros rc. cbn -[delete_where]. by rewrite elem_of_delete_where, <- not_true_iff_false, gone_owned. }
    split; [|split; [|done]].
    + intros s. cbn -[delete_where]. rewrite elem_of_delete_where, <- not_true_iff_false, gone_key.
      split; intros [Hs Hn]; (split; [done|]); intros Ho; apply Hn.
      * destruct (list_elem_of_fmap_1 _ _ _ (ok_score_chunks _ (in_refs _ Hok) s Hs)) as (rc & Ek & Hrc).
        exists rc. split; [done|]. split; [|done]. injection Ek as Em _. apply gone_owned. by rewrite <- Em.
      * destruct Ho as (rc & Hrc & Hg%gone_owned & Ek). injection Ek as <- _. done.
    + intros v. cbn -[delete_where]. rewrite elem_of_delete_where, <- not_true_iff_false, gone_key. unfold has_chunk.
      split; intros [Hv Hn]; (split; [done|]); intros Ho; apply Hn.
      * destruct Ho as [Ho (rc & Hrc & Ek)]. exists rc. split; [done|]. split; [|done]. apply gone_owned.
        by injection Ek as -> _.
      * destruct Ho as (rc & Hrc & Hg%gone_owned & Ek). split; [|by exists rc]. injection Ek as <- _. done.
Qed.

End History.

(** ** A thread written, embedded and deleted *)
Module SampleHistory.
#[local] Existing Instance calm_env.
#[local] Existing Instance SampleCodec.codec.

(** An encoding that refuses every result. *)
#[program] Definition no_results : ResultCodec := {|
  marshal_result := fun _ => Err (ENew "proto: cannot encode");
  unmarshal_result := fun _ => Err (ENew "proto: cannot decode")
|}.
Next Obligation. done. Qed.
#[export] Existing Instance no_results.

Definition thread (id : string) (parent : option string) : Thread :=
  {| th_Id := id; th_Name := id; th_WorkingDirs := ["/w"]; th_Sandboxed := true; th_CreatedAt := Some (1, 0);
     th_ParentThreadId := parent; th_BranchPointPosition := None; th_ArchivedAt := None |}.
Definition msg (id thread : string) : Message :=
  {| m_Id := id; m_Role := ROLE_USER; m_Content := [BText {| tx_Text := "hi" |}]; m_Position := 1; m_ThreadId := thread;
     m_CreatedAt := None; m_TurnId := "u" |}.
Definition chunk : Chunk := {| c_MessageID := ""; c_ChunkIndex := 0; c_Text := "hi"; c_ByteStart := 0; c_ByteEnd := 2; c_TokenEst := 1 |}.
Definition key : LocalContextScoreKey :=
  {| lk_LocalContextFingerprint := "f"; lk_LocalContextChunkIndex := 0; lk_CandidateID := "m1"; lk_CandidateChunkIdx := 0 |}.

Definition start : World Tables := {| w_tables := empty_tables; w_tick := 0 |}.
Definition w1 := (CreateThread (thread "a" None) start).1.
Definition w2 := (CreateThread (thread "b" None) w1).1.
Definition w3 := (EnsureEmbeddingDim 1 "e" w2).1.
Definition w4 := (InsertMessage (msg "m1" "a") [chunk] w3).1.
Definition w5 := (InsertMessage (msg "m2" "b") [chunk] w4).1.
Definition w6 := (InsertChunkEmbedding "m1" 0 "e" [f32_of_f64 f1] w5).1.
Definition w7 := (InsertLocalContextScore key "ce" fhalf w6).1.

Lemma history : rtc store_step start w7.
Proof.
  apply (rtc_l _ _ w1); [exact (step_CreateThread start (thread "a" None))|].
  apply (rtc_l _ _ w2); [exact (step_CreateThread w1 (thread "b" None))|].
  apply (rtc_l _ _ w3); [exact (step_EnsureEmbeddingDim w2 1 "e")|].
  apply (rtc_l _ _ w4); [exact (step_InsertMessage w3 (msg "m1" "a") [chunk])|].
  apply (rtc_l _ _ w5); [exact (step_InsertMessage w4 (msg "m2" "b") [chunk])|].
  apply (rtc_l _ _ w6); [exact (step_InsertChunkEmbedding w5 "m1" 0 "e" [f32_of_f64 f1])|].
  apply rtc_once. exact (step_InsertLocalContextScore w6 key "ce" fhalf).
Qed.

Lemma sizes :
  let t := w_tables w7 in
  (length (tb_threads t), length (tb_messages t), length (tb_chunks t), length (tb_scores t), length (tb_vectors t)) =
  (2, 2, 2, 1, 1)%nat.
Proof. vm_compute. reflexivity. Qed.

Lemma tables_ok : integrity (w_tables w7).
Proof.
  assert (forall w, rtc store_step start w -> integrity (w_tables w)) as H.
  { intros w Hw. assert (integrity (w_tables start)) as H0 by apply integrity_empty.
    induction Hw as [|x y z Hs _ IH]; [done|]. by eapply IH, store_step_ok. }
  apply H, history.
Qed.
End SampleHistory.

Lemma store_integrity_witness :
  length (tb_scores (w_tables SampleHistory.w7)) = 1%nat /\ integrity (w_tables SampleHistory.w7).
Proof. split; [vm_compute; reflexivity|]. 
  exact (@store_integrity calm_env SampleCodec.codec SampleHistory.no_results 0 SampleHistory.w7 SampleHistory.history). Defined.

Lemma DeleteThread_complete_witness :
  (@DeleteThread calm_env "a" SampleHistory.w7).2 = Ok tt /\ unbranched "a" (w_tables SampleHistory.w7) /\
  tb_scores (w_tables (@DeleteThread calm_env "a" SampleHistory.w7).1) = [].
Proof.
  pose proof (@DeleteThread_complete calm_env SampleCodec.codec "a" SampleHistory.w7 SampleHistory.tables_ok) as H.
  cbv zeta in H. assert ((@DeleteThread calm_env "a" SampleHistory.w7).2 = Ok tt) as E by (vm_compute; reflexivity).
  rewrite E in H. split; [exact E|]. split; [exact (proj1 H)|vm_compute; reflexivity].
Defined.
