(* ===== verification/GoHash.v ===== *)
(** * Hashes of the Go standard library

    [hash/fnv] (64-bit FNV-1a) and [crypto/sha256], executable: the reference
    seed, the partition seeds and the Local Context fingerprint evaluate to
    the values Go computes. *)

From Stdlib Require Import ZArith Lia String Ascii.
From S2P Require Import Prelude GoStrings.
#[local] Open Scope Z_scope.

Definition byte_val (c : ascii) : Z := Z.of_N (N_of_ascii c).
Definition bytes_of (s : string) : list Z := map byte_val (list_ascii_of_string s).

(** ** FNV-1a, 64 bits *)
Definition fnv64a (s : string) : Z :=
  fold_left (fun h b => wrapu64 (Z.lxor h b * 1099511628211)) (bytes_of s) 14695981039346656037.

(** ** SHA-256 *)
Module Sha256.
(** The round constants: the first 32 bits of the fractional parts of the cube
    roots of the first 64 primes, and the initial state: those of the square
    roots of the first eight. *)
Definition is_prime (n : nat) : bool :=
  forallb (fun k => negb (n mod k =? 0)%nat) (seq 2 (n - 2)).
Definition primes : list Z := Eval vm_compute in Z.of_nat <$> List.filter is_prime (seq 2 310).
Fixpoint cube_root (bits : nat) (acc n : Z) : Z :=
  match bits with
  | O => acc
  | S b =>
      let c := acc + 2 ^ Z.of_nat b in
      cube_root b (if c * c * c <=? n then c else acc) n
  end.
Definition K : list Z :=
  Eval vm_compute in (fun p => wrapu32 (cube_root 36 0 (p * 2 ^ 96))) <$> primes.
Definition H0 : list Z :=
  Eval vm_compute in (fun p => wrapu32 (Z.sqrt (p * 2 ^ 64))) <$> take 8 primes.

Definition add32 (a b : Z) : Z := wrapu32 (a + b).
Definition rotr (n x : Z) : Z := Z.lor (Z.shiftr x n) (wrapu32 (Z.shiftl x (32 - n))).
Definition xor3 (a b c : Z) : Z := Z.lxor a (Z.lxor b c).

Definition word_at (l : list Z) (i : nat) : Z := nth i l 0.

(** The message schedule, extended from the newest word down. *)
Fixpoint schedule (fuel : nat) (w : list Z) : list Z :=
  match fuel with
  | O => w
  | S f =>
      let n := length w in
      let w15 := word_at w (n - 15) in
      let w2 := word_at w (n - 2) in
      let s0 := xor3 (rotr 7 w15) (rotr 18 w15) (Z.shiftr w15 3) in
      let s1 := xor3 (rotr 17 w2) (rotr 19 w2) (Z.shiftr w2 10) in
      schedule f (w ++ [add32 (add32 (word_at w (n - 16)) s0) (add32 (word_at w (n - 7)) s1)])
  end.

Definition round (st : list Z) (kw : Z * Z) : list Z :=
  match st with
  | [a; b; c; d; e; f; g; h] =>
      let s1 := xor3 (rotr 6 e) (rotr 11 e) (rotr 25 e) in
      let ch := Z.lxor (Z.land e f) (Z.land (Z.lxor e (2 ^ 32 - 1)) g) in
      let t1 := add32 (add32 (add32 h s1) (add32 ch kw.1)) kw.2 in
      let s0 := xor3 (rotr 2 a) (rotr 13 a) (rotr 22 a) in
      let maj := xor3 (Z.land a b) (Z.land a c) (Z.land b c) in
      let t2 := add32 s0 maj in
      [add32 t1 t2; a; b; c; add32 d t1; e; f; g]
  | _ => st
  end.

Definition compress (st block : list Z) : list Z :=
  let w := schedule 48 block in
  zip_with add32 st (fold_left round (zip K w) st).

Fixpoint words (fuel : nat) (bs : list Z) : list Z :=
  match fuel, bs with
  | S f, b0 :: b1 :: b2 :: b3 :: rest =>
      (((b0 * 256 + b1) * 256 + b2) * 256 + b3) :: words f rest
  | _, _ => []
  end.

Fixpoint be_bytes (n : nat) (z : Z) : list Z :=
  match n with
  | O => []
  | S n' => be_bytes n' (Z.shiftr z 8) ++ [Z.land z 255]
  end.

Definition pad (bs : list Z) : list Z :=
  let n := length bs in
  let z := Z.to_nat ((55 - Z.of_nat n) `mod` 64) in
  bs ++ [128] ++ replicate z 0 ++ be_bytes 8 (8 * Z.of_nat n).

Fixpoint blocks (fuel : nat) (st ws : list Z) : list Z :=
  match fuel, ws with
  | S f, _ :: _ => blocks f (compress st (take 16 ws)) (drop 16 ws)
  | _, _ => st
  end.

Definition sum (bs : list Z) : list Z :=
  let p := pad bs in
  let ws := words (length p) p in
  flat_map (be_bytes 4) (blocks (length ws) H0 ws).
End Sha256.

(** [hex.EncodeToString] *)
Definition hex_digit (z : Z) : ascii :=
  ascii_of_N (Z.to_N (if z <? 10 then z + 48 else z + 87)).
Definition hex_encode (bs : list Z) : string :=
  fold_right (fun b acc => String (hex_digit (b / 16)) (String (hex_digit (b `mod` 16)) acc))
    EmptyString bs.

Definition sha256_hex (s : string) : string := hex_encode (Sha256.sum (bytes_of s)).

Example sha256_abc :
  sha256_hex "abc" = "ba7816bf8f01cfea414140de5dae2223b00361a396177a9cb410ff61f20015ad".
Proof. vm_compute. reflexivity. Qed.

Example fnv64a_foobar : fnv64a "foobar" = 0x85944171f73967e8.
Proof. vm_compute. reflexivity. Qed.

Lemma hex_encode_length bs : slen (hex_encode bs) = (2 * length bs)%nat.
Proof. induction bs as [|b bs IH]; [done|]. cbn [hex_encode fold_right slen String.length length].
  unfold hex_encode, slen in *. cbn. lia. Qed.
