(* ===== verification/AnnIndex.v ===== *)
(** * The approximate-nearest-neighbour index ([service/annindex])

    Quantization ([quant.go]), the HNSW graph ([hnsw.go]) and the index over
    both ([index.go]).  Out-of-range accesses panic, as in Go; the theorems show
    which invariant rules them out.  Node and vector ids are naturals: an
    [int32] id overflows only past 2^31 vectors. *)

From Stdlib Require Import ZArith Lia String SpecFloat.
From stdpp Require Import sorting.
From S2P Require Import Prelude GoFloat GoSort GoHeap GoStrings GoHash.
#[local] Open Scope nat_scope.

Definition index_out_of_range : string := "index out of range".

(** [s\[i\]] *)
Definition at_ {A} (l : list A) (i : nat) : outcome A :=
  match l !! i with Some x => Ok x | None => Panic index_out_of_range end.

(** ** Quantization *)

Definition set_bit (i : nat) (code : list Z) : list Z :=
  alter (fun w => Z.lor w (Z.shiftl 1 (Z.of_nat (i mod 64)))) (i / 64) code.

(** [v >= 0] on a float32 *)
Definition Binarize (vec : list float) : list Z :=
  fold_left (fun code iv => if fle f0 (f64_of_f32 iv.2) then set_bit iv.1 code else code)
    (zip (seq 0 (length vec)) vec) (replicate ((length vec + 63) / 64) 0%Z).

(** [bits.OnesCount64] *)
Definition OnesCount64 (w : Z) : nat := length (List.filter (fun i => Z.testbit w (Z.of_nat i)) (seq 0 64)).

Fixpoint Hamming (a b : list Z) : outcome nat :=
  match a, b with
  | [], _ => Ok 0
  | _ :: _, [] => Panic index_out_of_range
  | x :: a', y :: b' =>
      match Hamming a' b' with
      | Ok d => Ok (OnesCount64 (Z.lxor x y) + d)
      | o => o
      end
  end.

(** [math.Round]: half away from zero. *)
Definition fround (x : float) : float :=
  match x with
  | S754_finite s m e =>
      if (0 <=? e)%Z then x
      else
        let a := ((Z.pos m + 2 ^ (- e - 1)) / 2 ^ (- e))%Z in
        if (a =? 0)%Z then S754_zero s else f64_of_Z (if s then - a else a)%Z
  | _ => x
  end.

Definition wrapi8 (z : Z) : Z := ((z + 128) `mod` 256 - 128)%Z.

Definition max_abs (vec : list float) : float :=
  fold_left (fun m x => let a := fabs (f64_of_f32 x) in if flt m a then a else m) vec f0.

Definition f127 : float := f64_of_Z 127.
Definition fm128 : float := f64_of_Z (-128).

Definition quantize1 (scale x : float) : Z :=
  let q := fround (fdiv (f64_of_f32 x) scale) in
  let q := if flt f127 q then f127 else if flt q fm128 then fm128 else q in
  wrapi8 (int_of_f64 q).

Definition QuantizeInt8 (vec : list float) : list Z * float :=
  let maxAbs := max_abs vec in
  if feq maxAbs f0 then (replicate (length vec) 0%Z, f0)
  else
    let scale := fdiv maxAbs f127 in
    (quantize1 scale <$> vec, scale).

Definition AsymmetricInt8Score (query : list float) (code : list Z) (scale : float) : outcome float :=
  match foldM (fun s iq =>
          match at_ code iq.1 with
          | Ok c => Ok (fadd s (fmul (f64_of_f32 iq.2) (f64_of_Z c)))
          | Err e => Err e
          | Panic t => Panic t
          end) f0 (zip (seq 0 (length query)) query) with
  | Ok s => Ok (fmul s scale)
  | o => o
  end.

(** ** The graph *)

Record hnswNode := { nd_code : list Z; nd_conns : list (list nat) }.

Record hnsw := {
  nodes : list hnswNode;
  vids : list nat;
  entry : option nat;
  topLayer : Z;
  h_m : Z;
  mMax0 : Z;
  h_efConstr : Z;
  mL : float;
  rngState : Z
}.

Definition newHNSW (m efConstr seed : Z) : hnsw :=
  let m := if (m <? 2)%Z then 2%Z else m in
  {| nodes := []; vids := []; entry := None; topLayer := 0%Z; h_m := m; mMax0 := wrap64 (2 * m);
     h_efConstr := efConstr; mL := fdiv f1 (GoMath.Log (f64_of_Z m)); rngState := wrapu64 seed |}.

Definition xorshift (z : Z) (k : Z) : Z := Z.lxor z (Z.shiftr z k).

(** splitmix64; the new state and the draw *)
Definition nextRandom (state : Z) : Z * float :=
  let state := wrapu64 (state + 0x9E3779B97F4A7C15) in
  let z := wrapu64 (xorshift state 30 * 0xBF58476D1CE4E5B9) in
  let z := wrapu64 (xorshift z 27 * 0x94D049BB133111EB) in
  let z := xorshift z 31 in
  (state, fdiv (f64_of_Z (Z.shiftr z 11)) (f64_of_Z (2 ^ 53))).

(** The literal [1e-12]. *)
Definition f1em12 : float := Eval vm_compute in f64_bits 0x3D719799812DEA11.

Definition randomLayer (h : hnsw) : Z * Z :=
  let '(state, u) := nextRandom (rngState h) in
  (state, int_of_f64 (fmul (fopp (GoMath.Log (fadd u f1em12))) (mL h))).

Record distNode := { dn_id : nat; dn_dist : nat }.
Definition nearer (a b : distNode) : bool := dn_dist a <? dn_dist b.
Definition farther (a b : distNode) : bool := dn_dist b <? dn_dist a.

Definition conns_at (h : hnsw) (id layer : nat) : outcome (list nat) :=
  nd ← at_ (nodes h) id; at_ (nd_conns nd) layer.

Definition dist_to (h : hnsw) (code : list Z) (id : nat) : outcome nat :=
  nd ← at_ (nodes h) id; Hamming code (nd_code nd).

(** One pass over the neighbours of [best]. *)
Definition improve (h : hnsw) (code : list Z) (acc : nat * nat * bool * nat) (nb : nat)
    : outcome (nat * nat * bool * nat) :=
  let '(best, bestDist, improved, visited) := acc in
  d ← dist_to h code nb;
  mret (if d <? bestDist then (nb, d, true, S visited) else (best, bestDist, improved, S visited)).

Fixpoint greedy_loop (h : hnsw) (code : list Z) (layer : nat) (fuel best bestDist visited : nat)
    : option (outcome (nat * nat)) :=
  match fuel with
  | O => None
  | S fuel' =>
      match (nbs ← conns_at h best layer; foldM (improve h code) (best, bestDist, false, visited) nbs) with
      | Ok (best', bestDist', improved, visited') =>
          if negb improved then Some (Ok (best', visited'))
          else greedy_loop h code layer fuel' best' bestDist' visited'
      | Err e => Some (Err e)
      | Panic s => Some (Panic s)
      end
  end.

(** The fuel: a distance cannot improve more often than it is large. *)
Definition greedyClosest (h : hnsw) (code : list Z) (ep layer visited : nat) : outcome (nat * nat) :=
  match dist_to h code ep with
  | Ok d => default (Panic "unreachable") (greedy_loop h code layer (S d) ep d (S visited))
  | Err e => Err e
  | Panic s => Panic s
  end.

Record beam := { bm_seen : gset nat; bm_cand : list distNode; bm_res : list distNode; bm_visited : nat }.

(** One neighbour of the popped candidate. *)
Definition consider (h : hnsw) (code : list Z) (ef : Z) (b : beam) (nb : nat) : outcome beam :=
  if bool_decide (nb ∈ bm_seen b) then Ok b
  else
    d ← dist_to h code nb;
    near ← (if (Z.of_nat (length (bm_res b)) <? ef)%Z then Ok true
            else root ← at_ (bm_res b) 0; Ok (d <? dn_dist root));
    let item := {| dn_id := nb; dn_dist := d |} in
    let seen := {[nb]} ∪ bm_seen b in
    if (near : bool) then
      let res := heap_push farther item (bm_res b) in
      match (if (ef <? Z.of_nat (length res))%Z then snd <$> heap_pop farther res else Some res) with
      | None => Panic index_out_of_range
      | Some res => Ok {| bm_seen := seen; bm_cand := heap_push nearer item (bm_cand b); bm_res := res;
                          bm_visited := S (bm_visited b) |}
      end
    else Ok {| bm_seen := seen; bm_cand := bm_cand b; bm_res := bm_res b; bm_visited := S (bm_visited b) |}.

Fixpoint beam_loop (h : hnsw) (code : list Z) (ef : Z) (layer fuel : nat) (b : beam) : option (outcome beam) :=
  match fuel with
  | O => None
  | S fuel' =>
      match heap_pop nearer (bm_cand b) with
      | None => Some (Ok b)
      | Some (c, cand) =>
          let b := {| bm_seen := bm_seen b; bm_cand := cand; bm_res := bm_res b; bm_visited := bm_visited b |} in
          match at_ (bm_res b) 0 with
          | Ok root =>
              if (dn_dist root <? dn_dist c) && (ef <=? Z.of_nat (length (bm_res b)))%Z then Some (Ok b)
              else
                match (nbs ← conns_at h (dn_id c) layer; foldM (consider h code ef) b nbs) with
                | Ok b' => beam_loop h code ef layer fuel' b'
                | Err e => Some (Err e)
                | Panic s => Some (Panic s)
                end
          | Err e => Some (Err e)
          | Panic s => Some (Panic s)
          end
      end
  end.

(** [out\[i\] = heap.Pop(res)] from the last index down. *)
Fixpoint drain_max (n : nat) (res acc : list distNode) : outcome (list distNode) :=
  match n with
  | O => Ok acc
  | S n' => match heap_pop farther res with
            | Some (x, res') => drain_max n' res' (x :: acc)
            | None => Panic index_out_of_range
            end
  end.

(** The fuel: every iteration pops a node that was pushed once. *)
Definition searchLayer (h : hnsw) (code : list Z) (ep : nat) (ef : Z) (layer visited : nat)
    : outcome (list distNode * nat) :=
  epDist ← dist_to h code ep;
  let start := [{| dn_id := ep; dn_dist := epDist |}] in
  b ← default (Panic "unreachable")
        (beam_loop h code ef layer (S (length (nodes h)))
           {| bm_seen := {[ep]}; bm_cand := heap_init nearer start; bm_res := heap_init farther start;
              bm_visited := S visited |});
  out ← drain_max (length (bm_res b)) (bm_res b) [];
  mret (out, bm_visited b).

Section Sorted.
Context `{!SliceSort}.

Definition with_dist (h : hnsw) (base : list Z) (cands : list nat) : outcome (list distNode) :=
  mapO (fun id => match dist_to h base id with
                  | Ok d => Ok {| dn_id := id; dn_dist := d |}
                  | Err e => Err e
                  | Panic s => Panic s
                  end) cands.

(** No kept neighbour is nearer to the candidate than the base is. *)
Fixpoint diverse (h : hnsw) (c : distNode) (out : list nat) : outcome bool :=
  match out with
  | [] => Ok true
  | s :: rest =>
      nc ← at_ (nodes h) (dn_id c);
      ns ← at_ (nodes h) s;
      d ← Hamming (nd_code nc) (nd_code ns);
      if d <? dn_dist c then Ok false else diverse h c rest
  end.

Definition keep_diverse (h : hnsw) (m : Z) (out : list nat) (c : distNode) : outcome (list nat) :=
  if (m <=? Z.of_nat (length out))%Z then Ok out
  else
    keep ← diverse h c out;
    mret (if (keep : bool) then out ++ [dn_id c] else out).

Definition fill_up (m : Z) (out : list nat) (c : distNode) : list nat :=
  if (m <=? Z.of_nat (length out))%Z then out
  else if bool_decide (dn_id c ∈ out) then out else out ++ [dn_id c].

Definition selectNeighbors (h : hnsw) (base : list Z) (cands : list nat) (m : Z) : outcome (list nat) :=
  arr ← with_dist h base cands;
  let arr := sort_slice nearer arr in
  out ← foldM (keep_diverse h m) [] arr;
  mret (fold_left (fill_up m) arr out).

(** ** Insertion *)

Definition with_nodes (ns : list hnswNode) (h : hnsw) : hnsw :=
  {| nodes := ns; vids := vids h; entry := entry h; topLayer := topLayer h; h_m := h_m h; mMax0 := mMax0 h;
     h_efConstr := h_efConstr h; mL := mL h; rngState := rngState h |}.

(** [h.nodes\[id\].conns\[l\] = nbs] *)
Definition set_conns (h : hnsw) (id l : nat) (nbs : list nat) : outcome hnsw :=
  nd ← at_ (nodes h) id;
  _ ← at_ (nd_conns nd) l;
  mret (with_nodes (<[id := {| nd_code := nd_code nd; nd_conns := <[l := nbs]> (nd_conns nd) |}]> (nodes h)) h).

Definition link_back (id l : nat) (mMax : Z) (h : hnsw) (nb : nat) : outcome hnsw :=
  old ← conns_at h nb l;
  h ← set_conns h nb l (old ++ [id]);
  if (mMax <? Z.of_nat (length (old ++ [id])))%Z then
    nd ← at_ (nodes h) nb;
    pruned ← selectNeighbors h (nd_code nd) (old ++ [id]) mMax;
    set_conns h nb l pruned
  else Ok h.

Definition mMax_of (h : hnsw) (l : nat) : Z := if Nat.eqb l 0 then mMax0 h else h_m h.

(** One layer of the linking loop: the graph and the next entry point. *)
Definition link_layer (id : nat) (code : list Z) (acc : hnsw * nat) (l : nat) : outcome (hnsw * nat) :=
  let '(h, ep) := acc in
  found ← searchLayer h code ep (h_efConstr h) l 0;
  let mMax := mMax_of h l in
  neighbours ← selectNeighbors h code (dn_id <$> found.1) mMax;
  h ← set_conns h id l neighbours;
  h ← foldM (link_back id l mMax) h neighbours;
  mret (h, match found.1 with [] => ep | f :: _ => dn_id f end).

(** [for l := hi; l > lo; l--] *)
Definition layers_down (hi lo : Z) : list nat := rev (seq (Z.to_nat (lo + 1)) (Z.to_nat (hi - lo))).

Definition descend (h : hnsw) (code : list Z) (acc : nat * nat) (l : nat) : outcome (nat * nat) :=
  greedyClosest h code acc.1 l acc.2.

(** The appended node has [layer + 1] lists: [layer] is at least -1. *)
Definition append_node (h : hnsw) (vid : nat) (code : list Z) (layer state : Z) : hnsw :=
  {| nodes := nodes h ++ [{| nd_code := code; nd_conns := replicate (Z.to_nat (layer + 1)) [] |}];
     vids := vids h ++ [vid]; entry := entry h; topLayer := topLayer h; h_m := h_m h; mMax0 := mMax0 h;
     h_efConstr := h_efConstr h; mL := mL h; rngState := state |}.

Definition raise_entry (h : hnsw) (id : nat) (layer : Z) : hnsw :=
  {| nodes := nodes h; vids := vids h; entry := Some id; topLayer := layer; h_m := h_m h; mMax0 := mMax0 h;
     h_efConstr := h_efConstr h; mL := mL h; rngState := rngState h |}.

Definition insert_at_layer (h : hnsw) (vid : nat) (code : list Z) (layer state : Z) : outcome (hnsw * nat) :=
  let id := length (nodes h) in
  let h := append_node h vid code layer state in
  match entry h with
  | None => Ok (raise_entry h id layer, id)
  | Some e =>
      ep ← foldM (descend h code) (e, 0) (layers_down (topLayer h) layer);
      r ← foldM (link_layer id code) (h, ep.1) (rev (seq 0 (Z.to_nat (Z.min layer (topLayer h) + 1))));
      let h := r.1 in
      mret ((if (topLayer h <? layer)%Z then raise_entry h id layer else h), id)
  end.

Definition insert (h : hnsw) (vid : nat) (code : list Z) : outcome (hnsw * nat) :=
  let '(state, layer) := randomLayer h in
  if (layer <? -1)%Z then Panic "makeslice: len out of range"
  else insert_at_layer h vid code layer state.

(** ** Search *)

Definition search (h : hnsw) (code : list Z) (k ef : Z) : outcome (list distNode * nat) :=
  match entry h with
  | None => Ok ([], 0)
  | Some e =>
      ep ← foldM (descend h code) (e, 0) (layers_down (topLayer h) 0);
      let ef := if (ef <? k)%Z then k else ef in
      res ← searchLayer h code ep.1 ef 0 ep.2;
      if (k <? Z.of_nat (length res.1))%Z then
        if (k <? 0)%Z then Panic "slice bounds out of range" else Ok (take (Z.to_nat k) res.1, res.2)
      else Ok res
  end.

(** ** The index *)

Record Candidate := { cd_Key : string; cd_Score : float }.

Record Config := { cf_M : Z; cf_EfConstr : Z; cf_EfSearch : Z; cf_Seed : Z }.

Record Index := {
  global : hnsw;
  parts : gmap string hnsw;
  keys : list string;
  i8 : list (list Z);
  scale : list float;
  byKey : gmap string nat;
  ix_m : Z;
  ix_efConstr : Z;
  ix_ef : Z;
  ix_seed : Z;
  dim : nat
}.

Definition or_default (z d : Z) : Z := if (z =? 0)%Z then d else z.

Definition New (cfg : Config) : Index :=
  let m := or_default (cf_M cfg) 16 in
  let efC := or_default (cf_EfConstr cfg) 200 in
  let efS := or_default (cf_EfSearch cfg) 128 in
  {| global := newHNSW m efC (cf_Seed cfg); parts := ∅; keys := []; i8 := []; scale := []; byKey := ∅;
     ix_m := m; ix_efConstr := efC; ix_ef := efS; ix_seed := cf_Seed cfg; dim := 0 |}.

Definition fnvHash (s : string) : Z := wrap64 (fnv64a s).

Definition dim_mismatch (op what : string) (n d : nat) : string :=
  "annindex." ^^ op ^^ ": " ^^ what ^^ " dim " ^^ itoa (Z.of_nat n) ^^ " != index dim " ^^ itoa (Z.of_nat d).

(** The graph of a thread, created on first use. *)
Definition part_of (ix : Index) (threadID : string) : hnsw :=
  default (newHNSW (ix_m ix) (ix_efConstr ix) (Z.lxor (ix_seed ix) (fnvHash threadID))) (parts ix !! threadID).

(** The index after its shared store and its graphs were extended. *)
Definition grown (ix : Index) (key : string) (i8c : list Z) (sc : float) (g : hnsw) (ps : gmap string hnsw) (d : nat) : Index :=
  {| global := g; parts := ps; keys := keys ix ++ [key]; i8 := i8 ix ++ [i8c]; scale := scale ix ++ [sc];
     byKey := <[key := length (keys ix)]> (byKey ix); ix_m := ix_m ix; ix_efConstr := ix_efConstr ix; ix_ef := ix_ef ix;
     ix_seed := ix_seed ix; dim := d |}.

Definition Add (ix : Index) (key threadID : string) (vec : list float) : outcome Index :=
  match byKey ix !! key with
  | Some _ => Ok ix
  | None =>
      if negb (dim ix =? 0) && negb (length vec =? dim ix)
      then Panic (dim_mismatch "Add" "vector" (length vec) (dim ix))
      else
        let vid := length (keys ix) in
        let code := Binarize vec in
        let '(i8c, sc) := QuantizeInt8 vec in
        g ← insert (global ix) vid code;
        ps ← (if String.eqb threadID "" then mret (parts ix)
              else
                p' ← insert (part_of ix threadID) vid code;
                mret (<[threadID := p'.1]> (parts ix)));
        mret (grown ix key i8c sc g.1 ps (if dim ix =? 0 then length vec else dim ix))
  end.

Definition to_candidate (ix : Index) (g : hnsw) (vec : list float) (r : distNode) : outcome Candidate :=
  vid ← at_ (vids g) (dn_id r);
  key ← at_ (keys ix) vid;
  code ← at_ (i8 ix) vid;
  sc ← at_ (scale ix) vid;
  s ← AsymmetricInt8Score vec code sc;
  mret {| cd_Key := key; cd_Score := s |}.

Definition better (a b : Candidate) : bool := flt (cd_Score b) (cd_Score a).

Definition Search (ix : Index) (vec : list float) (n : Z) (threadID : string) : outcome (list Candidate * nat) :=
  if negb (dim ix =? 0) && negb (length vec =? dim ix)
  then Panic (dim_mismatch "Search" "query" (length vec) (dim ix))
  else
    match (if String.eqb threadID "" then Some (global ix) else parts ix !! threadID) with
    | None => Ok ([], 0)
    | Some g =>
        r ← search g (Binarize vec) n (ix_ef ix);
        out ← mapO (to_candidate ix g vec) r.1;
        mret (sort_slice better out, r.2)
    end.

Definition Vector (ix : Index) (key : string) : outcome (option (list float)) :=
  match byKey ix !! key with
  | None => Ok None
  | Some vid =>
      code ← at_ (i8 ix) vid;
      s ← at_ (scale ix) vid;
      Ok (Some (List.map (fun c => f32_of_f64 (fmul (f64_of_Z c) s)) code))
  end.

Definition Has (ix : Index) (key : string) : bool :=
  match byKey ix !! key with Some _ => true | None => false end.

Definition Len (ix : Index) : nat := length (keys ix).

(** ** The graph invariant *)

Lemma at_returns {A} (l : list A) i x (Q : A -> Prop) : l !! i = Some x -> Q x -> returns (at_ l i) Q.
Proof. intros E Hq. unfold at_. rewrite E. by apply returns_ok. Qed.

(** The number of layers of a node. *)
Definition height (h : hnsw) (id : nat) : option nat := (fun nd => length (nd_conns nd)) <$> nodes h !! id.

(** [id] is a node that is present on [layer]. *)
Definition valid (h : hnsw) (layer id : nat) : Prop := exists n, height h id = Some n /\ layer < n.

(** [slack] exempts one neighbour list from the degree bound. *)
Record graph_ok (L : nat) (slack : option (nat * nat)) (h : hnsw) : Prop := {
  go_vids : length (vids h) = length (nodes h);
  go_code : forall id nd, nodes h !! id = Some nd -> length (nd_code nd) = L;
  go_base : forall id, id < length (nodes h) -> valid h 0 id;
  go_conns : forall id nd l nbs nb, nodes h !! id = Some nd -> nd_conns nd !! l = Some nbs -> nb ∈ nbs -> valid h l nb;
  go_degree : forall id nd l nbs, nodes h !! id = Some nd -> nd_conns nd !! l = Some nbs ->
    slack = Some (id, l) \/ (Z.of_nat (length nbs) <= mMax_of h l)%Z;
  go_entry : match entry h with
             | None => nodes h = []
             | Some e => (0 <= topLayer h)%Z /\ exists n, height h e = Some n /\ Z.of_nat n = (topLayer h + 1)%Z
             end;
  go_m : (2 <= h_m h)%Z /\ (2 <= mMax0 h)%Z
}.

(** The graphs of one insertion share everything but their lists. *)
Record same_shape (h h' : hnsw) : Prop := {
  ss_height : forall id, height h' id = height h id;
  ss_vids : vids h' = vids h;
  ss_entry : entry h' = entry h;
  ss_top : topLayer h' = topLayer h;
  ss_m : h_m h' = h_m h;
  ss_m0 : mMax0 h' = mMax0 h;
  ss_ef : h_efConstr h' = h_efConstr h;
  ss_rng : rngState h' = rngState h;
  ss_ml : mL h' = mL h
}.

#[local] Instance same_shape_preorder : PreOrder same_shape.
Proof.
  split; [by intros h|]. intros h1 h2 h3 [] []. split; intros; etransitivity; eauto.
Qed.

Lemma same_shape_valid h h' l x : same_shape h h' -> valid h l x -> valid h' l x.
Proof. intros Hs (n & Hn & Hl). exists n. by rewrite (ss_height _ _ Hs). Qed.

Lemma height_lt h id n : height h id = Some n -> id < length (nodes h).
Proof. unfold height. intros (nd & E & _)%fmap_Some. by eapply lookup_lt_Some. Qed.

Lemma valid_lt h l id : valid h l id -> id < length (nodes h).
Proof. intros (n & Hn & _). by eapply height_lt. Qed.

Lemma valid_node h l id : valid h l id -> exists nd, nodes h !! id = Some nd /\ l < length (nd_conns nd).
Proof. unfold valid, height. intros (n & (nd & E & ->)%fmap_Some & Hl). by exists nd. Qed.

Lemma valid_down h l l' id : l' <= l -> valid h l id -> valid h l' id.
Proof. intros Hl (n & Hn & Hlt). exists n. split; [done|lia]. Qed.

Lemma Hamming_returns a b : length a <= length b -> returns (Hamming a b) (fun _ => True).
Proof.
  revert b. induction a as [|x a IH]; intros [|y b] Hl; simpl in *; [by apply returns_ok|by apply returns_ok|lia|].
  destruct (IH b ltac:(lia)) as (d & -> & _). by apply returns_ok.
Qed.

Section Graph.
Context (L : nat) (slack : option (nat * nat)) (h : hnsw) (Hok : graph_ok L slack h).

Lemma conns_returns l id : valid h l id -> returns (conns_at h id l) (fun nbs => forall nb, nb ∈ nbs -> valid h l nb).
Proof.
  intros (nd & E & Hl)%valid_node. unfold conns_at.
  eapply returns_bind; [by eapply (at_returns _ _ nd (fun x => x = nd))|]. intros ? ->.
  destruct (lookup_lt_is_Some_2 (nd_conns nd) l Hl) as [nbs Hn].
  eapply at_returns; [exact Hn|]. intros nb Hnb. by eapply go_conns.
Qed.

Lemma dist_returns code id : length code = L -> id < length (nodes h) -> returns (dist_to h code id) (fun _ => True).
Proof.
  intros Hc Hid. destruct (lookup_lt_is_Some_2 (nodes h) id Hid) as [nd E]. unfold dist_to.
  eapply returns_bind; [by eapply (at_returns _ _ nd (fun x => x = nd))|]. intros ? ->.
  apply Hamming_returns. rewrite Hc, (go_code _ _ _ Hok id nd E). done.
Qed.

(** *** Greedy descent *)

Definition improving (l bestDist : nat) (best0 : nat) (acc : nat * nat * bool * nat) : Prop :=
  let '(best, d, improved, _) := acc in
  valid h l best /\ if improved : bool then d < bestDist else d = bestDist /\ best = best0.

Lemma greedy_returns code l fuel best bestDist vis :
  length code = L -> valid h l best -> bestDist < fuel ->
  exists r, greedy_loop h code l fuel best bestDist vis = Some (Ok r) /\ valid h l r.1.
Proof.
  intros Hc. revert best bestDist vis. induction fuel as [|fuel IH]; intros best bestDist vis Hb Hf; [lia|].
  cbn [greedy_loop].
  assert (returns (nbs ← conns_at h best l; foldM (improve h code) (best, bestDist, false, vis) nbs)
            (improving l bestDist best)) as (acc & -> & Hacc).
  { eapply returns_bind; [by apply conns_returns|]. intros nbs Hnbs.
    apply returns_foldM; [done|]. intros nb [[[b d] i] v] Hnb [Hv Hd].
    eapply returns_bind; [apply dist_returns; [done|by eapply valid_lt, Hnbs]|]. intros d' _. apply returns_ok.
    destruct (Nat.ltb_spec d' d); split; auto. destruct i; lia. }
  destruct acc as [[[b d] i] v]. destruct Hacc as [Hv Hd]. destruct i; cbn [negb]; [|eauto].
  apply IH; [done|lia].
Qed.

Lemma greedyClosest_returns code l ep vis :
  length code = L -> valid h l ep -> returns (greedyClosest h code ep l vis) (fun r => valid h l r.1).
Proof.
  intros Hc Hep. unfold greedyClosest.
  destruct (dist_returns code ep Hc (valid_lt _ _ _ Hep)) as (d & -> & _).
  destruct (greedy_returns code l (S d) ep d (S vis) Hc Hep ltac:(lia)) as (r & -> & Hr). by exists r.
Qed.

(** *** Beam search *)

Record beam_ok (l : nat) (ef : Z) (b : beam) : Prop := {
  bo_seen : forall x, x ∈ bm_seen b -> valid h l x;
  bo_cand : forall c, c ∈ bm_cand b -> dn_id c ∈ bm_seen b;
  bo_res : forall c, c ∈ bm_res b -> dn_id c ∈ bm_seen b;
  bo_nodup : NoDup (dn_id <$> bm_res b);
  bo_some : bm_res b <> [];
  bo_len : (Z.of_nat (length (bm_res b)) <= Z.max 1 ef)%Z
}.

Definition work (b : beam) : nat := length (nodes h) - size (bm_seen b) + length (bm_cand b).

Lemma seen_size l ef b : beam_ok l ef b -> size (bm_seen b) <= length (nodes h).
Proof.
  intros Hb. rewrite <- (length_seq (length (nodes h)) 0), <- (size_list_to_set (C := gset nat)) by apply NoDup_seq.
  apply subseteq_size. intros x Hx. apply elem_of_list_to_set, elem_of_seq.
  apply (bo_seen _ _ _ Hb), valid_lt in Hx. lia.
Qed.

Lemma elem_of_push less (x c : distNode) l : c ∈ heap_push less x l <-> c = x \/ c ∈ l.
Proof. rewrite heap_push_perm. apply elem_of_cons. Qed.

(** A result heap after a push and the pop that keeps it within [ef]. *)
Lemma push_pop ef item res :
  res <> [] -> NoDup (dn_id <$> res) -> dn_id item ∉ dn_id <$> res -> (Z.of_nat (length res) <= Z.max 1 ef)%Z ->
  exists res', (if (ef <? Z.of_nat (length (heap_push farther item res)))%Z
                then snd <$> heap_pop farther (heap_push farther item res) else Some (heap_push farther item res)) = Some res' /\
    res' <> [] /\ NoDup (dn_id <$> res') /\ (forall c, c ∈ res' -> c = item \/ c ∈ res) /\
    (Z.of_nat (length res') <= Z.max 1 ef)%Z.
Proof.
  intros Hne Hnd Hni Hl.
  assert (NoDup (dn_id <$> heap_push farther item res)) as Hnd'.
  { rewrite heap_push_perm. cbn. by apply NoDup_cons. }
  pose proof (heap_push_length farther item res) as Hlen.
  destruct (Z.ltb_spec ef (Z.of_nat (length (heap_push farther item res)))).
  - destruct (heap_pop_Some farther (heap_push farther item res)) as (x & res' & E).
    { intros E. by rewrite E in Hlen. }
    rewrite E. exists res'. split; [done|]. pose proof (heap_pop_perm _ _ _ _ E) as Hp.
    pose proof (heap_pop_length _ _ _ _ E) as Hpl. split; [|split; [|split]].
    + intros ->. simpl in Hpl. destruct res; [done|]. simpl in Hlen. lia.
    + rewrite Hp in Hnd'. cbn in Hnd'. by apply NoDup_cons in Hnd' as [_ ?].
    + intros c Hc. apply (elem_of_push farther). rewrite Hp. by right.
    + lia.
  - exists (heap_push farther item res). split; [done|]. split; [intros E; by rewrite E in Hlen|]. split; [done|].
    split; [by intros c ?%elem_of_push|lia].
Qed.

Lemma consider_returns code l ef b nb :
  length code = L -> beam_ok l ef b -> valid h l nb ->
  returns (consider h code ef b nb) (fun b' => beam_ok l ef b' /\ work b' <= work b).
Proof.
  intros Hc Hb Hnb. unfold consider. case_bool_decide as Hs; [by apply returns_ok|].
  eapply returns_bind; [apply dist_returns; [done|by eapply valid_lt]|]. intros d _.
  eapply returns_bind with (R := fun _ => True).
  { destruct (_ <? _)%Z; [by apply returns_ok|]. destruct (bm_res b) as [|root res] eqn:Er; [by destruct (bo_some _ _ _ Hb)|].
    eapply returns_bind; [by apply (at_returns _ _ root (fun _ => True))|]. intros ? _. by apply returns_ok. }
  intros near _. set (item := {| dn_id := nb; dn_dist := d |}).
  assert (size ({[nb]} ∪ bm_seen b) = S (size (bm_seen b))) as Hsz
    by (rewrite size_union by set_solver; by rewrite size_singleton).
  assert (forall b', beam_ok l ef b' -> bm_seen b' = {[nb]} ∪ bm_seen b -> length (bm_cand b') <= S (length (bm_cand b)) ->
            beam_ok l ef b' /\ work b' <= work b) as Hwork.
  { intros b' Hb' Hs' Hcand. split; [done|]. pose proof (seen_size l ef b' Hb') as H1.
    unfold work. rewrite Hs', Hsz in *. lia. }
  destruct near.
  - destruct (push_pop ef item (bm_res b)) as (res' & -> & Hne & Hnd & Hin & Hl); [apply Hb..| |apply Hb|].
    { intros (c & E & Hx)%list_elem_of_fmap. apply (bo_res _ _ _ Hb) in Hx. rewrite <- E in Hx. done. }
    apply returns_ok. apply Hwork; [|done|simpl; by rewrite heap_push_length].
    split; simpl; [| | |done|done|done].
    + intros x [->%elem_of_singleton|Hx]%elem_of_union; [done|by apply Hb].
    + intros c [->|Hx]%elem_of_push; [set_solver|]. apply (bo_cand _ _ _ Hb) in Hx. set_solver.
    + intros c [->|Hx]%Hin; [set_solver|]. apply (bo_res _ _ _ Hb) in Hx. set_solver.
  - apply returns_ok. apply Hwork; [|done|simpl; lia]. split; simpl; try apply Hb.
    + intros x [->%elem_of_singleton|Hx]%elem_of_union; [done|by apply Hb].
    + intros c Hx. apply (bo_cand _ _ _ Hb) in Hx. set_solver.
    + intros c Hx. apply (bo_res _ _ _ Hb) in Hx. set_solver.
Qed.

Lemma beam_returns code l ef fuel b :
  length code = L -> beam_ok l ef b -> work b < fuel ->
  exists b', beam_loop h code ef l fuel b = Some (Ok b') /\ beam_ok l ef b'.
Proof.
  intros Hc. revert b. induction fuel as [|fuel IH]; intros b Hb Hf; [lia|]. cbn [beam_loop].
  destruct (heap_pop nearer (bm_cand b)) as [[c cand]|] eqn:Ep; [|by exists b].
  set (b1 := {| bm_seen := bm_seen b; bm_cand := cand; bm_res := bm_res b; bm_visited := bm_visited b |}).
  pose proof (heap_pop_perm _ _ _ _ Ep) as Hp. pose proof (heap_pop_length _ _ _ _ Ep) as Hpl.
  assert (beam_ok l ef b1) as Hb1.
  { split; try apply Hb. simpl. intros x Hx. apply (bo_cand _ _ _ Hb). rewrite Hp. by right. }
  assert (valid h l (dn_id c)) as Hv.
  { apply (bo_seen _ _ _ Hb), (bo_cand _ _ _ Hb). rewrite Hp. by left. }
  assert (work b1 < work b) as Hw by (unfold work; simpl; lia).
  destruct (bm_res b1) as [|root res] eqn:Er; [by destruct (bo_some _ _ _ Hb1)|]. cbn [at_ lookup list_lookup].
  destruct (_ && _); [by exists b1|].
  assert (returns (nbs ← conns_at h (dn_id c) l; foldM (consider h code ef) b1 nbs)
    (fun b' => beam_ok l ef b' /\ work b' <= work b1)) as (b' & -> & Hb' & Hw').
  { eapply returns_bind; [by apply conns_returns|]. intros nbs Hnbs. apply returns_foldM; [done|].
    intros nb b2 Hnb [Hb2 Hw2]. eapply returns_mono; [apply consider_returns; [done|exact Hb2|auto]|].
    intros b3 [? ?]. split; [done|lia]. }
  apply IH; [done|lia].
Qed.

Lemma drain_returns n res acc :
  n = length res -> returns (drain_max n res acc) (fun out => out ≡ₚ res ++ acc).
Proof.
  revert res acc. induction n as [|n IH]; intros res acc Hn.
  - destruct res; [|done]. by apply returns_ok.
  - cbn [drain_max]. destruct (heap_pop_Some farther res) as (x & res' & E); [by intros ->|]. rewrite E.
    pose proof (heap_pop_perm _ _ _ _ E) as Hp. pose proof (heap_pop_length _ _ _ _ E).
    eapply returns_mono; [apply IH; lia|]. intros out ->. rewrite Hp. cbn. by rewrite Permutation_middle.
Qed.

Lemma searchLayer_returns code ep ef l vis :
  length code = L -> valid h l ep ->
  returns (searchLayer h code ep ef l vis) (fun r =>
    r.1 <> [] /\ NoDup (dn_id <$> r.1) /\ (forall c, c ∈ r.1 -> valid h l (dn_id c)) /\
    (Z.of_nat (length r.1) <= Z.max 1 ef)%Z).
Proof.
  intros Hc Hep. pose proof (valid_lt _ _ _ Hep) as Hlt. unfold searchLayer.
  eapply returns_bind; [by apply dist_returns|]. intros d _.
  set (b0 := {| bm_seen := {[ep]}; bm_cand := heap_init nearer _; bm_res := _; bm_visited := S vis |}).
  assert (beam_ok l ef b0) as Hb0.
  { split; cbn [b0 bm_seen bm_cand bm_res].
    - by intros x ->%elem_of_singleton.
    - intros c. rewrite heap_init_perm. intros ->%list_elem_of_singleton. set_solver.
    - intros c. rewrite heap_init_perm. intros ->%list_elem_of_singleton. set_solver.
    - rewrite heap_init_perm. apply NoDup_singleton.
    - intros E. pose proof (heap_init_perm farther [{| dn_id := ep; dn_dist := d |}]) as Hp. rewrite E in Hp.
      by apply Permutation_nil_cons in Hp.
    - rewrite heap_init_perm. simpl. lia. }
  destruct (beam_returns code l ef (S (length (nodes h))) b0 Hc Hb0) as (b & -> & Hb).
  { unfold work. cbn [b0 bm_seen bm_cand]. rewrite size_singleton, heap_init_perm. simpl. lia. }
  cbn [default from_option id]. eapply returns_bind; [by apply (returns_ok b (fun x => x = b))|]. intros ? ->.
  eapply returns_bind; [by apply drain_returns|]. intros out Hout. apply returns_ok. simpl.
  rewrite app_nil_r in Hout. split; [|split; [|split]].
  - intros ->. apply (bo_some _ _ _ Hb). by apply Permutation_nil_l in Hout.
  - rewrite Hout. apply Hb.
  - intros c. rewrite Hout. intros Hx. by apply (bo_seen _ _ _ Hb), (bo_res _ _ _ Hb).
  - rewrite Hout. apply Hb.
Qed.

(** *** Neighbour selection *)

Lemma with_dist_returns base cands :
  length base = L -> (forall x, x ∈ cands -> x < length (nodes h)) ->
  returns (with_dist h base cands) (fun arr => dn_id <$> arr = cands).
Proof.
  intros Hb Hc. unfold with_dist. eapply returns_mono.
  - apply (returns_mapO (fun id c => dn_id c = id)). intros id Hid.
    destruct (dist_returns base id Hb (Hc _ Hid)) as (d & -> & _). by apply returns_ok.
  - intros arr Harr. clear Hc. induction Harr as [|x y xs ys <- _ IH]; [done|]. cbn. by rewrite IH.
Qed.

Lemma diverse_returns c out :
  dn_id c < length (nodes h) -> (forall x, x ∈ out -> x < length (nodes h)) ->
  returns (diverse h c out) (fun _ => True).
Proof.
  intros Hc. induction out as [|x out IH]; intros Hout; simpl; [by apply returns_ok|].
  destruct (lookup_lt_is_Some_2 (nodes h) _ Hc) as [nc Ec].
  destruct (lookup_lt_is_Some_2 (nodes h) x (Hout x ltac:(left))) as [nx Ex].
  eapply returns_bind; [by apply (at_returns _ _ nc (fun n => n = nc))|]. intros ? ->.
  eapply returns_bind; [by apply (at_returns _ _ nx (fun n => n = nx))|]. intros ? ->.
  eapply returns_bind; [apply Hamming_returns; by rewrite !(go_code _ _ _ Hok _ _ Ec), (go_code _ _ _ Hok _ _ Ex)|].
  intros d _. destruct (_ <? _); [by apply returns_ok|]. apply IH. intros y Hy. apply Hout. by right.
Qed.

(** At most [m] of the candidates. *)
Definition chosen (cands : list nat) (m : Z) (out : list nat) : Prop :=
  (forall x, x ∈ out -> x ∈ cands) /\ (Z.of_nat (length out) <= Z.max 0 m)%Z.

Lemma chosen_snoc cands m out x :
  chosen cands m out -> x ∈ cands -> (Z.of_nat (length out) < m)%Z -> chosen cands m (out ++ [x]).
Proof.
  intros [Hin Hl] Hx Hm. split; [|rewrite length_app; simpl; lia].
  intros y [Hy| ->%list_elem_of_singleton]%elem_of_app; auto.
Qed.

Lemma selectNeighbors_returns base cands m :
  length base = L -> (forall x, x ∈ cands -> x < length (nodes h)) ->
  returns (selectNeighbors h base cands m) (chosen cands m).
Proof.
  intros Hb Hc. unfold selectNeighbors. eapply returns_bind; [by apply with_dist_returns|]. intros arr Harr.
  assert (forall c, c ∈ sort_slice nearer arr -> dn_id c ∈ cands) as Hin.
  { intros c. rewrite sort_slice_perm, <- Harr. apply list_elem_of_fmap_2. }
  eapply returns_bind with (R := chosen cands m).
  - apply returns_foldM; [split; [by intros x ?%not_elem_of_nil|simpl; lia]|]. intros c out Hcin Hout.
    unfold keep_diverse. destruct (Z.leb_spec m (Z.of_nat (length out))); [by apply returns_ok|].
    eapply returns_bind; [apply diverse_returns|].
    + by apply Hc, Hin.
    + intros x Hx. by apply Hc, Hout.
    + intros keep _. apply returns_ok. destruct keep; [|done]. apply chosen_snoc; auto.
  - intros out Hout. apply returns_ok. revert out Hout Hin. generalize (sort_slice nearer arr) as l.
    induction l as [|c l IH]; intros out Hout Hin; simpl; [done|]. apply IH; [|intros x Hx; apply Hin; by right].
    unfold fill_up. destruct (Z.leb_spec m (Z.of_nat (length out))); [done|]. case_bool_decide; [done|].
    apply chosen_snoc; auto. apply Hin. left.
Qed.

End Graph.

(** *** Linking *)

Lemma same_shape_mMax h h' l : same_shape h h' -> mMax_of h' l = mMax_of h l.
Proof. intros Hs. unfold mMax_of. by rewrite (ss_m _ _ Hs), (ss_m0 _ _ Hs). Qed.

Lemma mMax_pos L slack h l : graph_ok L slack h -> (0 <= mMax_of h l)%Z.
Proof. intros Hok. destruct (go_m _ _ _ Hok). unfold mMax_of. destruct (l =? 0); lia. Qed.

Lemma height_insert h id nd nd' id' :
  nodes h !! id = Some nd -> length (nd_conns nd') = length (nd_conns nd) ->
  height (with_nodes (<[id := nd']> (nodes h)) h) id' = height h id'.
Proof.
  intros E Hl. unfold height. simpl. destruct (decide (id = id')) as [<-|Hne].
  - rewrite list_lookup_insert_eq by (by eapply lookup_lt_Some). rewrite E. simpl. by rewrite Hl.
  - by rewrite list_lookup_insert_ne.
Qed.

(** Replacing one list keeps the invariant; the degree bound may be suspended
    for that list. *)
Lemma set_conns_returns L slack slack' h id l nbs :
  graph_ok L slack h -> slack = None \/ slack = Some (id, l) -> slack' = None \/ slack' = Some (id, l) ->
  slack' = Some (id, l) \/ (Z.of_nat (length nbs) <= mMax_of h l)%Z ->
  valid h l id -> (forall nb, nb ∈ nbs -> valid h l nb) ->
  returns (set_conns h id l nbs) (fun h' => graph_ok L slack' h' /\ same_shape h h').
Proof.
  intros Hok Hs Hs' Hlen (nd & E & Hl)%valid_node Hnbs. unfold set_conns.
  eapply returns_bind; [by apply (at_returns _ _ nd (fun n => n = nd))|]. intros ? ->.
  destruct (lookup_lt_is_Some_2 _ _ Hl) as [old Eold].
  eapply returns_bind; [by apply (at_returns _ _ old (fun _ => True))|]. intros _ _. apply returns_ok.
  set (nd' := {| nd_code := nd_code nd; nd_conns := <[l := nbs]> (nd_conns nd) |}).
  set (h' := with_nodes _ h).
  assert (same_shape h h') as Hss.
  { split; try done. intros id'. apply (height_insert _ _ nd); [done|]. simpl. apply length_insert. }
  assert (forall id' x, nodes h' !! id' = Some x -> id' = id /\ x = nd' \/ nodes h !! id' = Some x) as Hcase.
  { intros id' x. simpl. rewrite list_lookup_insert_Some. intros [(-> & -> & _)|[_ ?]]; auto. }
  assert (forall id' x l' ns, nodes h' !! id' = Some x -> nd_conns x !! l' = Some ns ->
    (id' = id /\ l' = l /\ ns = nbs) \/ ((id', l') <> (id, l) /\ exists y, nodes h !! id' = Some y /\ nd_conns y !! l' = Some ns)) as Hlist.
  { intros id' x l' ns Hx Hn. destruct (decide ((id', l') = (id, l))) as [[= -> ->]|Hne].
    - left. simpl in Hx. rewrite list_lookup_insert_eq in Hx by (by eapply lookup_lt_Some). injection Hx as <-.
      simpl in Hn. rewrite list_lookup_insert_eq in Hn by done. by injection Hn as <-.
    - right. split; [done|]. apply Hcase in Hx as [[-> ->]|Hx]; [|by exists x]. exists nd. split; [done|].
      simpl in Hn. rewrite list_lookup_insert_ne in Hn; [done|congruence]. }
  split; [|done]. split; simpl; rewrite ?length_insert; try apply Hok.
  - intros id' x [[-> ->]|Hx]%Hcase; simpl; by eapply go_code.
  - intros id' Hid. eapply same_shape_valid; [done|]. by eapply go_base.
  - intros id' x l' ns nb Hx Hn Hnb. eapply same_shape_valid; [done|].
    destruct (Hlist _ _ _ _ Hx Hn) as [(-> & -> & ->)|(_ & y & Hy & Hyn)]; [auto|]. by eapply go_conns.
  - intros id' x l' ns Hx Hn. change (mMax_of h' l') with (mMax_of h l').
    destruct (Hlist _ _ _ _ Hx Hn) as [(-> & -> & ->)|(Hne & y & Hy & Hyn)]; [done|].
    destruct (go_degree _ _ _ Hok _ _ _ _ Hy Hyn) as [E2|?]; [|by right]. destruct Hs; congruence.
  - pose proof (go_entry _ _ _ Hok) as He. destruct (entry h) as [e|].
    + destruct He as (Ht & n & Hn & Hz). split; [done|]. exists n. by rewrite (ss_height _ _ Hss).
    + by rewrite He in E.
Qed.

Lemma link_back_returns L id l h nb :
  graph_ok L None h -> valid h l id -> valid h l nb ->
  returns (link_back id l (mMax_of h l) h nb) (fun h' => graph_ok L None h' /\ same_shape h h').
Proof.
  intros Hok Hid Hnb. unfold link_back. eapply returns_bind; [by eapply conns_returns|]. intros old Hold.
  assert (forall x, x ∈ old ++ [id] -> valid h l x) as Hall.
  { intros x [Hx| ->%list_elem_of_singleton]%elem_of_app; auto. }
  destruct (Z.ltb_spec (mMax_of h l) (Z.of_nat (length (old ++ [id])))) as [Hlt|Hle].
  - eapply returns_bind; [apply (set_conns_returns L None (Some (nb, l))); auto|]. intros h1 [Hok1 Hs1].
    pose proof (same_shape_valid _ _ _ _ Hs1 Hnb) as Hnb1. pose proof (valid_node _ _ _ Hnb1) as (nd & E & _).
    eapply returns_bind; [by apply (at_returns _ _ nd (fun n => n = nd))|]. intros ? ->.
    eapply returns_bind.
    { apply (selectNeighbors_returns L _ _ Hok1); [by eapply go_code|].
      intros x Hx. by eapply valid_lt, same_shape_valid, Hall. }
    intros out [Hin Hlen]. eapply returns_mono.
    { apply (set_conns_returns L (Some (nb, l)) None); auto.
      - right. rewrite (same_shape_mMax _ _ _ Hs1). pose proof (mMax_pos _ _ _ l Hok). lia.
      - intros x Hx. by eapply same_shape_valid, Hall, Hin. }
    intros h2 [Hok2 Hs2]. split; [done|by transitivity h1].
  - eapply returns_bind; [apply (set_conns_returns L None None); auto|]. intros h1 Hh1. by apply returns_ok.
Qed.

(** The graph while [id] is being linked, and a usable entry on layer [l]. *)
Definition linking (L : nat) (h : hnsw) (acc : hnsw * nat) (l : nat) : Prop :=
  graph_ok L None acc.1 /\ same_shape h acc.1 /\ valid acc.1 l acc.2.

Lemma link_layer_returns L id code h acc l :
  length code = L -> linking L h acc l -> valid h l id ->
  returns (link_layer id code acc l) (fun acc' => linking L h acc' l).
Proof.
  intros Hc (Hok & Hs & Hep) Hid. destruct acc as [h1 ep]. simpl in *.
  eapply returns_bind; [by eapply searchLayer_returns|]. intros found (Hne & _ & Hv & _).
  assert (forall x, x ∈ dn_id <$> found.1 -> valid h1 l x) as Hfound.
  { intros x (c & -> & Hx)%list_elem_of_fmap. auto. }
  eapply returns_bind.
  { apply (selectNeighbors_returns L _ _ Hok); [done|]. intros x Hx. by eapply valid_lt, Hfound. }
  intros nbs [Hin Hlen]. pose proof (mMax_pos _ _ _ l Hok) as Hpos.
  eapply returns_bind.
  { apply (set_conns_returns L None None); auto; [right; lia|by eapply same_shape_valid]. }
  intros h2 [Hok2 Hs2]. eapply returns_bind.
  { apply (returns_foldM (fun h' => graph_ok L None h' /\ same_shape h1 h')); [done|].
    intros nb h3 Hnb [Hok3 Hs3]. rewrite <- (same_shape_mMax _ _ _ Hs3). eapply returns_mono.
    - apply link_back_returns; [done| |]; eapply same_shape_valid; eauto. by eapply same_shape_valid.
    - intros h4 [? ?]. split; [done|by transitivity h3]. }
  intros h3 [Hok3 Hs3]. apply returns_ok. split; [done|]. split; [by transitivity h1|]. simpl.
  eapply same_shape_valid; [done|]. destruct found.1 as [|f fs]; [done|]. apply Hv. left.
Qed.

Lemma link_layers_returns L id code h n acc :
  length code = L -> (forall l, l < n -> valid h l id) -> linking L h acc (pred n) ->
  returns (foldM (link_layer id code) acc (rev (seq 0 n))) (fun acc' => linking L h acc' 0).
Proof.
  intros Hc. revert acc. induction n as [|n IH]; intros acc Hid Hacc; [by apply returns_ok|].
  rewrite seq_S, rev_app_distr. simpl. eapply returns_bind.
  { apply (link_layer_returns L); [done|exact Hacc|]. apply Hid. lia. }
  intros acc' (Hok & Hs & Hv). apply IH; [intros l Hl; apply Hid; lia|].
  split; [done|]. split; [done|]. eapply valid_down; [|exact Hv]. lia.
Qed.

(** *** Insertion *)

Lemma descend_returns L h code b n acc :
  graph_ok L None h -> length code = L -> valid h (b + n) acc.1 ->
  returns (foldM (descend h code) acc (rev (seq (S b) n))) (fun r => valid h b r.1).
Proof.
  intros Hok Hc. revert acc. induction n as [|n IH]; intros acc Hv.
  - apply returns_ok. by rewrite Nat.add_0_r in Hv.
  - rewrite seq_S, rev_app_distr. simpl. eapply returns_bind.
    { eapply greedyClosest_returns; [done..|]. by rewrite <- Nat.add_succ_r. }
    intros r Hr. apply IH. eapply valid_down; [|exact Hr]. lia.
Qed.

Lemma layers_down_returns L h code hi lo acc :
  graph_ok L None h -> length code = L -> (0 <= lo)%Z -> (0 <= hi)%Z -> valid h (Z.to_nat hi) acc.1 ->
  returns (foldM (descend h code) acc (layers_down hi lo)) (fun r => valid h (Z.to_nat (Z.min lo hi)) r.1).
Proof.
  intros Hok Hc Hlo Hhi Hv. unfold layers_down. replace (Z.to_nat (lo + 1)) with (S (Z.to_nat lo)) by lia.
  destruct (Z.le_gt_cases lo hi).
  - rewrite Z.min_l by done. eapply descend_returns; [done..|].
    by replace (Z.to_nat lo + Z.to_nat (hi - lo)) with (Z.to_nat hi) by lia.
  - replace (Z.to_nat (hi - lo)) with 0 by lia. rewrite Z.min_r by lia. by apply returns_ok.
Qed.

Lemma height_append h vid code layer state id :
  (0 <= layer)%Z ->
  height (append_node h vid code layer state) id =
    if decide (id = length (nodes h)) then Some (Z.to_nat (layer + 1)) else height h id.
Proof.
  intros Hl. unfold height. simpl. case_decide as E.
  - subst id. rewrite lookup_app_r, Nat.sub_diag by done. simpl. by rewrite length_replicate.
  - destruct (decide (id < length (nodes h))); [by rewrite lookup_app_l|].
    rewrite !lookup_ge_None_2; [done|lia|rewrite length_app; simpl; lia].
Qed.

Lemma valid_append h vid code layer state l id :
  (0 <= layer)%Z -> valid h l id -> valid (append_node h vid code layer state) l id.
Proof.
  intros Hl Hv. pose proof (valid_lt _ _ _ Hv). destruct Hv as (n & Hn & ?). exists n. split; [|done].
  rewrite height_append by done. case_decide; [lia|done].
Qed.

Lemma append_node_lookup h vid code layer state id nd :
  nodes (append_node h vid code layer state) !! id = Some nd ->
  nodes h !! id = Some nd \/ nd_code nd = code /\ forall l nbs, nd_conns nd !! l = Some nbs -> nbs = [].
Proof.
  simpl. intros [?|[_ Hx]]%lookup_app_Some; [by left|]. right. apply list_lookup_singleton_Some in Hx as [_ <-].
  split; [done|]. simpl. by intros l nbs [-> _]%lookup_replicate_1.
Qed.

(** All but the entry point: true of a graph whose entry is about to move. *)
Lemma append_raise_ok L h vid code layer state (raised : bool) :
  graph_ok L None h -> length code = L -> (0 <= layer)%Z -> raised = true \/ entry h <> None ->
  graph_ok L None
    (if raised then raise_entry (append_node h vid code layer state) (length (nodes h)) layer
     else append_node h vid code layer state).
Proof.
  intros Hok Hc Hl Hr.
  assert (forall h', nodes h' = nodes (append_node h vid code layer state) ->
    vids h' = vids (append_node h vid code layer state) -> h_m h' = h_m h -> mMax0 h' = mMax0 h ->
    match entry h' with
    | None => nodes h' = []
    | Some e => (0 <= topLayer h')%Z /\ exists n, height h' e = Some n /\ Z.of_nat n = (topLayer h' + 1)%Z
    end -> graph_ok L None h') as Hgo.
  { intros h' Hn Hv Hm Hm0 He.
    assert (forall l x, valid h l x -> valid h' l x) as Hval.
    { intros l x Hx. apply (valid_append _ vid code layer state) in Hx; [|done]. unfold valid, height. by rewrite Hn. }
    split; rewrite ?Hv, ?Hn, ?Hm, ?Hm0.
    - simpl. rewrite !length_app, (go_vids _ _ _ Hok). done.
    - intros id nd [Hx|[-> _]]%append_node_lookup; [by eapply go_code|done].
    - intros id Hid. simpl in Hid. rewrite length_app in Hid. simpl in Hid.
      destruct (decide (id < length (nodes h))) as [Hlt|]; [by eapply Hval, go_base|].
      assert (id = length (nodes h)) as -> by lia. exists (Z.to_nat (layer + 1)). unfold height. rewrite Hn.
      pose proof (height_append h vid code layer state (length (nodes h)) Hl) as Hh. unfold height in Hh.
      rewrite Hh, decide_True by done. split; [done|lia].
    - intros id nd l nbs nb [Hx|[_ Hx]]%append_node_lookup Hnbs Hnb; [by eapply Hval, go_conns|].
      apply Hx in Hnbs as ->. by apply not_elem_of_nil in Hnb.
    - intros id nd l nbs [Hx|[_ Hx]]%append_node_lookup Hnbs; right; unfold mMax_of; rewrite Hm, Hm0.
      + destruct (go_degree _ _ _ Hok _ _ _ _ Hx Hnbs) as [|]; [discriminate|done].
      + apply Hx in Hnbs as ->. exact (mMax_pos _ _ _ l Hok).
    - rewrite <- Hn; exact He.
    - apply Hok. }
  destruct raised; apply Hgo; try done.
  - simpl. split; [done|]. exists (Z.to_nat (layer + 1)). split; [|lia].
    pose proof (height_append h vid code layer state (length (nodes h)) Hl) as Hh. by rewrite decide_True in Hh.
  - simpl. pose proof (go_entry _ _ _ Hok) as He. destruct (entry h) as [e|]; [|by destruct Hr].
    destruct He as (Ht & n & Hn & Hz). split; [done|]. exists n. split; [|done].
    rewrite height_append by done. case_decide as E; [|done]. apply height_lt in Hn. lia.
Qed.

Lemma raise_ok L h id layer :
  graph_ok L None h -> height h id = Some (Z.to_nat (layer + 1)) -> (0 <= layer)%Z -> graph_ok L None (raise_entry h id layer).
Proof.
  intros Hok Hid Hl. split; try apply Hok. simpl. split; [done|]. exists (Z.to_nat (layer + 1)). split; [exact Hid|lia].
Qed.

Lemma insert_at_layer_returns L h vid code layer state :
  graph_ok L None h -> length code = L -> (0 <= layer)%Z ->
  returns (insert_at_layer h vid code layer state) (fun r => graph_ok L None r.1 /\ vids r.1 = vids h ++ [vid]).
Proof.
  intros Hok Hc Hl. unfold insert_at_layer. set (id := length (nodes h)).
  pose proof (append_raise_ok L h vid code layer state) as Happ.
  set (h1 := append_node h vid code layer state) in *. change (entry h1) with (entry h).
  destruct (entry h) as [e|] eqn:Ee; [|apply returns_ok; split; [by apply (Happ true); auto|done]].
  assert (graph_ok L None h1) as Hok1 by (apply (Happ false); auto; right; congruence).
  pose proof (go_entry _ _ _ Hok1) as He. change (entry h1) with (entry h) in He. rewrite Ee in He.
  destruct He as (Ht & n & Hn & Hz). set (top := topLayer h1) in *.
  assert (height h1 id = Some (Z.to_nat (layer + 1))) as Hid.
  { unfold h1. rewrite height_append by done. by rewrite decide_True. }
  eapply returns_bind.
  { apply (layers_down_returns L); [done..|]. exists n. split; [done|lia]. }
  intros ep Hep. eapply returns_bind.
  { apply (link_layers_returns L id code h1); [done| |].
    - intros l Hlt. exists (Z.to_nat (layer + 1)). split; [done|lia].
    - split; [done|]. split; [done|]. simpl. eapply valid_down; [|exact Hep]. lia. }
  intros [h2 ep2] (Hok2 & Hs & _). apply returns_ok. simpl in *. split.
  - destruct (_ <? layer)%Z; [|done]. apply raise_ok; [done| |done]. by rewrite (ss_height _ _ Hs).
  - destruct (_ <? layer)%Z; simpl; by rewrite (ss_vids _ _ Hs).
Qed.

Lemma insert_returns L h vid code :
  graph_ok L None h -> length code = L -> (0 <= (randomLayer h).2)%Z ->
  returns (insert h vid code) (fun r => graph_ok L None r.1 /\ vids r.1 = vids h ++ [vid]).
Proof.
  intros Hok Hc Hl. unfold insert. destruct (randomLayer h) as [state layer]. simpl in Hl.
  destruct (Z.ltb_spec layer (-1)); [lia|]. by apply insert_at_layer_returns.
Qed.

Lemma newHNSW_ok L m efC seed : (m < 2 ^ 61)%Z -> graph_ok L None (newHNSW m efC seed).
Proof.
  intros Hm. split; simpl; try done; [lia|]. split; [destruct (Z.ltb_spec m 2); lia|].
  unfold wrap64. destruct (Z.ltb_spec m 2); [done|]. rewrite Z.mod_small; lia.
Qed.

(** *** Search *)

Lemma search_returns L h code k ef :
  graph_ok L None h -> length code = L -> (0 <= k)%Z ->
  returns (search h code k ef) (fun r =>
    NoDup (dn_id <$> r.1) /\ (forall c, c ∈ r.1 -> dn_id c < length (nodes h)) /\ (Z.of_nat (length r.1) <= k)%Z /\
    (r.1 = [] -> k = 0%Z \/ nodes h = [])).
Proof.
  intros Hok Hc Hk. unfold search. pose proof (go_entry _ _ _ Hok) as He.
  destruct (entry h) as [e|].
  2: { apply returns_ok; simpl; split; [constructor|]; split; [by intros c ?%not_elem_of_nil|]; split; [lia|by right]. }
  destruct He as (Ht & n & Hn & Hz). eapply returns_bind.
  { apply (layers_down_returns L); [done|done|done|exact Ht|]. exists n. split; [done|lia]. }
  intros ep Hep. rewrite Z.min_l in Hep by done. set (ef' := if (ef <? k)%Z then k else ef).
  eapply returns_bind; [by eapply searchLayer_returns|]. intros [out vis] (Hne & Hnd & Hv & Hl). simpl in *.
  assert (forall c, c ∈ out -> dn_id c < length (nodes h)) as Hlt by (intros c Hin; by eapply valid_lt, Hv).
  destruct (Z.ltb_spec k (Z.of_nat (length out))).
  - destruct (Z.ltb_spec k 0); [lia|]. apply returns_ok. simpl. split; [|split; [|split]].
    + rewrite fmap_take. by eapply sublist_NoDup, sublist_take.
    + intros c Hin. apply Hlt. by eapply subseteq_take.
    + rewrite length_take. lia.
    + simpl. intros E. left. apply (f_equal length) in E. rewrite length_take in E. destruct out; [done|simpl in E; lia].
  - apply returns_ok. split; [done|]. split; [done|]. split; [done|]. by intros [= ->].
Qed.

(** *** The index *)

(** Words of a code for [d] dimensions. *)
Definition words (d : nat) : nat := (d + 63) / 64.

Record part_ok (ix : Index) (g : hnsw) : Prop := {
  po_graph : graph_ok (words (dim ix)) None g;
  po_nodup : NoDup (vids g);
  po_range : forall v, v ∈ vids g -> v < length (keys ix)
}.

Record index_ok (ix : Index) : Prop := {
  io_i8 : length (i8 ix) = length (keys ix);
  io_scale : length (scale ix) = length (keys ix);
  io_codes : forall c, c ∈ i8 ix -> length c = dim ix;
  io_nodup : NoDup (keys ix);
  io_key : forall k v, byKey ix !! k = Some v <-> keys ix !! v = Some k;
  io_global : part_ok ix (global ix) /\ vids (global ix) = seq 0 (length (keys ix));
  io_parts : forall t g, parts ix !! t = Some g -> part_ok ix g;
  io_dim : dim ix = 0 -> keys ix = [] /\ parts ix = ∅;
  io_m : (ix_m ix < 2 ^ 61)%Z
}.

(** The vectors a search scoped to [t] ranges over. *)
Definition members (ix : Index) (t : string) : list nat :=
  if String.eqb t "" then vids (global ix) else default [] (vids <$> parts ix !! t).

Lemma length_Binarize vec : length (Binarize vec) = words (length vec).
Proof.
  unfold Binarize. rewrite <- (length_replicate (words (length vec)) 0%Z). unfold words.
  generalize (replicate ((length vec + 63) / 64) 0%Z). generalize (zip (seq 0 (length vec)) vec).
  induction l as [|iv l IH]; intros code; [done|]. simpl. rewrite IH. destruct (fle _ _); [|done].
  apply length_alter.
Qed.

Lemma length_QuantizeInt8 vec : length (QuantizeInt8 vec).1 = length vec.
Proof.
  unfold QuantizeInt8. destruct (feq _ _); simpl; [by rewrite length_replicate|by rewrite length_fmap].
Qed.

Lemma graph_ok_empty L L' h : graph_ok L None h -> nodes h = [] -> graph_ok L' None h.
Proof. intros Hok Hn. split; try apply Hok. intros id nd. by rewrite Hn. Qed.

Lemma New_ok cfg : (cf_M cfg < 2 ^ 61)%Z -> index_ok (New cfg).
Proof.
  intros Hm. assert (or_default (cf_M cfg) 16 < 2 ^ 61)%Z as Hm' by (unfold or_default; destruct (_ =? 0)%Z; lia).
  split; simpl; try done.
  - by intros c ?%not_elem_of_nil.
  - constructor.
  - split; [split|done]; simpl; [by apply newHNSW_ok|constructor|by intros v ?%not_elem_of_nil].
Qed.

Lemma dim_zero_empty ix g : index_ok ix -> part_ok ix g -> dim ix = 0 -> nodes g = [].
Proof.
  intros Hok [Hgo _ Hr] Hz. apply nil_length_inv. rewrite <- (go_vids _ _ _ Hgo).
  destruct (io_dim _ Hok Hz) as [Hk _]. rewrite Hk in Hr. destruct (vids g) as [|v vs]; [done|].
  specialize (Hr v ltac:(left)). simpl in Hr. lia.
Qed.

(** Once a vector of length [n] is added, the dimension is [n]. *)
Lemma io_graph_dim ix n g :
  index_ok ix -> dim ix = 0 \/ n = dim ix -> g = global ix \/ (exists t, g = part_of ix t) ->
  graph_ok (words n) None g /\ NoDup (vids g) /\ forall v, v ∈ vids g -> v < length (keys ix).
Proof.
  intros Hok Hn Hg.
  assert (part_ok ix g) as [Hgo Hnd Hr].
  { destruct Hg as [->|[t ->]]; [apply Hok|]. unfold part_of. destruct (parts ix !! t) as [g'|] eqn:E; simpl.
    - by eapply io_parts.
    - split; simpl; [by apply newHNSW_ok, Hok|constructor|by intros v ?%not_elem_of_nil]. }
  split; [|done]. destruct Hn as [Hd| ->]; [|done]. eapply graph_ok_empty; [done|].
  by eapply dim_zero_empty.
Qed.

Lemma vids_snoc (vs : list nat) n :
  NoDup vs -> (forall v, v ∈ vs -> v < n) -> NoDup (vs ++ [n]) /\ forall v, v ∈ vs ++ [n] -> v < S n.
Proof.
  intros Hnd Hr. split.
  - apply NoDup_app. split; [done|]. split; [|apply NoDup_singleton]. intros x Hx ->%list_elem_of_singleton.
    apply Hr in Hx. lia.
  - intros v [Hv| ->%list_elem_of_singleton]%elem_of_app; [apply Hr in Hv|]; lia.
Qed.

Lemma keys_fresh ix key v : index_ok ix -> byKey ix !! key = None -> keys ix !! v <> Some key.
Proof. intros Hok Hn E. apply (io_key _ Hok) in E. congruence. Qed.

(** A graph of the grown index is an old one, possibly extended by the new vector. *)
Definition extends (n : nat) (old new : list nat) : Prop := new = old \/ new = old ++ [n].

Lemma grown_part ix key code sc g0 ps d g old :
  graph_ok (words d) None g -> extends (length (keys ix)) old (vids g) ->
  NoDup old -> (forall v, v ∈ old -> v < length (keys ix)) -> part_ok (grown ix key code sc g0 ps d) g.
Proof.
  intros Hg Hext Hnd Hr. destruct (vids_snoc old (length (keys ix)) Hnd Hr) as [Hnd' Hr'].
  split; simpl; [done| |].
  - by destruct Hext as [-> | ->].
  - rewrite length_app. simpl. intros v Hv. destruct Hext as [E|E]; rewrite E in Hv; [apply Hr in Hv|apply Hr' in Hv]; lia.
Qed.

Lemma grown_ok ix key code sc g ps d :
  index_ok ix -> byKey ix !! key = None -> dim ix = 0 \/ d = dim ix -> length code = d -> d <> 0 ->
  graph_ok (words d) None g -> vids g = vids (global ix) ++ [length (keys ix)] ->
  (forall t g', ps !! t = Some g' -> graph_ok (words d) None g' /\
    extends (length (keys ix)) (default [] (vids <$> parts ix !! t)) (vids g')) ->
  index_ok (grown ix key code sc g ps d).
Proof.
  intros Hok Hk Hd Hc Hnz Hg Hv Hps. destruct (io_global _ Hok) as [[_ Hnd Hr] Hseq].
  assert (dim ix = 0 -> keys ix = []) as Hempty by (intros Hz; by apply (io_dim _ Hok)).
  split; simpl; rewrite ?length_app, ?(io_i8 _ Hok), ?(io_scale _ Hok); try done.
  - intros c [Hin| ->%list_elem_of_singleton]%elem_of_app; [|done]. destruct Hd as [Hz| ->]; [|by apply Hok].
    pose proof (io_i8 _ Hok) as Hl. rewrite (Hempty Hz) in Hl. apply nil_length_inv in Hl. rewrite Hl in Hin. by apply not_elem_of_nil in Hin.
  - apply NoDup_app. split; [apply Hok|]. split; [|apply NoDup_singleton].
    intros x (v & Hx)%list_elem_of_lookup ->%list_elem_of_singleton. by apply (keys_fresh ix key v Hok Hk).
  - intros k v. rewrite lookup_insert_Some, lookup_app_Some, list_lookup_singleton_Some, (io_key _ Hok). split.
    + intros [[-> <-]|[_ ?]]; [right; split; [done|split; [lia|done]]|by left].
    + intros [E|(? & ? & <-)]; [|left; split; [done|lia]]. right. split; [|done].
      intros ->. by apply (keys_fresh ix k v Hok Hk).
  - split; [|by rewrite Hv, Hseq, seq_app]. eapply grown_part; [done|by right|done|done].
  - intros t g' E. destruct (Hps t g' E) as [Hg' Hext]. eapply grown_part; [done|done| |].
    + destruct (parts ix !! t) as [g0|] eqn:E0; simpl; [by apply (io_parts _ Hok _ _ E0)|constructor].
    + destruct (parts ix !! t) as [g0|] eqn:E0; simpl; [by apply (io_parts _ Hok _ _ E0)|by intros v ?%not_elem_of_nil].
  - apply Hok.
Qed.

(** C23: [Index.Add] keeps the index well formed.  From a well-formed index
    ([New] gives one, [New_ok]), adding a non-empty vector of the index's
    dimension - the first vector fixes it - neither fails nor panics, provided
    the two layer draws are not negative (a draw is [-ln(u + 1e-12) / ln m]
    with [u < 1], truncated toward zero): every access of the graph search,
    linking and pruning loops is in range and they terminate.  In every graph
    each neighbour is a node of that layer, each degree is within its bound, and
    the entry point is on the top layer; the keys stay distinct and in bijection
    with the vector ids.  A known key changes nothing; a new one becomes a
    member of the global scope and of its thread's, and of no other. *)
Theorem Add_ok ix key t vec :
  index_ok ix -> vec <> [] -> dim ix = 0 \/ length vec = dim ix ->
  (0 <= (randomLayer (global ix)).2)%Z -> (0 <= (randomLayer (part_of ix t)).2)%Z ->
  returns (Add ix key t vec) (fun ix' =>
    index_ok ix' /\
    if Has ix key then ix' = ix
    else keys ix' = keys ix ++ [key] /\ dim ix' = length vec /\
      forall t', members ix' t' =
        members ix t' ++ (if String.eqb t' "" || String.eqb t' t then [length (keys ix)] else [])).
Proof.
  intros Hok Hvec Hdim Hdg Hdp. unfold Add, Has. destruct (byKey ix !! key) as [v|] eqn:Ek; [by apply returns_ok|].
  assert (negb (dim ix =? 0) && negb (length vec =? dim ix) = false) as ->.
  { destruct Hdim as [-> | ->]; [done|]. rewrite Nat.eqb_refl. by rewrite andb_false_r. }
  assert ((if dim ix =? 0 then length vec else dim ix) = length vec) as Ed.
  { destruct Hdim as [-> | ->]; [done|]. by destruct (dim ix =? 0). }
  pose proof (length_QuantizeInt8 vec) as Hq. destruct (QuantizeInt8 vec) as [i8c sc]. simpl in Hq.
  destruct (io_graph_dim ix (length vec) (global ix) Hok Hdim ltac:(by left)) as (Hgg & _).
  destruct (io_graph_dim ix (length vec) (part_of ix t) Hok Hdim ltac:(right; by exists t)) as (Hgp & _).
  eapply returns_bind; [apply insert_returns; [exact Hgg|apply length_Binarize|done]|]. intros g [Hg Hgv].
  eapply returns_bind with (R := fun ps => forall t', if String.eqb t' t && negb (String.eqb t "")
    then exists g', ps !! t' = Some g' /\ graph_ok (words (length vec)) None g' /\
           vids g' = default [] (vids <$> parts ix !! t') ++ [length (keys ix)]
    else ps !! t' = parts ix !! t').
  { destruct (String.eqb t "") eqn:Et; [apply returns_ok; intros t'; by rewrite andb_false_r|].
    eapply returns_bind; [apply insert_returns; [exact Hgp|apply length_Binarize|done]|]. intros p [Hp Hpv].
    apply returns_ok. intros t'. rewrite andb_true_r. destruct (String.eqb_spec t' t) as [->|Hne].
    - exists p.1. rewrite lookup_insert_eq. split; [done|]. split; [done|]. rewrite Hpv. f_equal.
      unfold part_of. by destruct (parts ix !! t).
    - by rewrite lookup_insert_ne. }
  intros ps Hps. apply returns_ok. rewrite Ed. split; [|split; [done|split; [done|]]].
  - apply grown_ok; try done; [by destruct vec|]. intros t' g' E. specialize (Hps t').
    destruct (_ && _); [destruct Hps as (g1 & E1 & Hg1 & Hv1)|].
    + rewrite E in E1. injection E1 as <-. split; [done|by right].
    + rewrite Hps in E. rewrite E. split; [|by left]. apply (io_graph_dim ix (length vec) g' Hok Hdim).
      right. exists t'. unfold part_of. by rewrite E.
  - intros t'. unfold members. simpl. destruct (String.eqb_spec t' "") as [->|Hne]; [by rewrite Hgv|].
    specialize (Hps t'). simpl. destruct (String.eqb_spec t' t) as [E|Hnt]; cbn [andb orb] in *; [subst t'|].
    + destruct (String.eqb_spec t "") as [?|_]; [done|]. destruct Hps as (g1 & -> & _ & Hv1). done.
    + rewrite Hps. by rewrite app_nil_r.
Qed.

(** *** Queries *)

Lemma AsymmetricInt8Score_returns query code sc :
  length query <= length code -> returns (AsymmetricInt8Score query code sc) (fun _ => True).
Proof.
  intros Hl. unfold AsymmetricInt8Score.
  match goal with |- context [foldM ?f ?b ?l] => assert (returns (foldM f b l) (fun _ => True)) as (s & -> & _) end.
  - apply returns_foldM; [done|]. intros [i q] s Hin _.
    apply elem_of_zip_l, elem_of_seq in Hin. destruct (lookup_lt_is_Some_2 code i ltac:(lia)) as [c Ec].
    unfold at_. simpl. rewrite Ec. by apply returns_ok.
  - by apply returns_ok.
Qed.

(** What a result of a search is: a stored vector of the scope, scored as
    [AsymmetricInt8Score] scores it. *)
Definition result_of (ix : Index) (g : hnsw) (vec : list float) (r : distNode) (c : Candidate) : Prop :=
  exists vid code sc, vids g !! dn_id r = Some vid /\ keys ix !! vid = Some (cd_Key c) /\
    i8 ix !! vid = Some code /\ scale ix !! vid = Some sc /\ AsymmetricInt8Score vec code sc = Ok (cd_Score c).

Lemma to_candidate_returns ix g vec r :
  index_ok ix -> part_ok ix g -> length vec = dim ix -> dn_id r < length (nodes g) ->
  returns (to_candidate ix g vec r) (result_of ix g vec r).
Proof.
  intros Hok Hg Hv Hr. rewrite <- (go_vids _ _ _ (po_graph _ _ Hg)) in Hr. unfold to_candidate.
  destruct (lookup_lt_is_Some_2 _ _ Hr) as [vid Evid].
  assert (vid < length (keys ix)) as Hvid by (eapply po_range, list_elem_of_lookup_2; eauto).
  destruct (lookup_lt_is_Some_2 (keys ix) vid Hvid) as [key Ekey].
  destruct (lookup_lt_is_Some_2 (i8 ix) vid ltac:(by rewrite (io_i8 _ Hok))) as [code Ecode].
  destruct (lookup_lt_is_Some_2 (scale ix) vid ltac:(by rewrite (io_scale _ Hok))) as [sc Esc].
  destruct (AsymmetricInt8Score_returns vec code sc) as (s & Es & _).
  { rewrite (io_codes _ Hok code); [lia|by eapply list_elem_of_lookup_2]. }
  unfold at_. rewrite Evid. cbn. rewrite Ekey. cbn. rewrite Ecode. cbn. rewrite Esc. cbn. rewrite Es.
  apply returns_ok. by exists vid, code, sc.
Qed.

Lemma result_keys ix g vec rs cs :
  index_ok ix -> part_ok ix g -> NoDup (dn_id <$> rs) -> Forall2 (result_of ix g vec) rs cs ->
  NoDup (cd_Key <$> cs).
Proof.
  intros Hok Hg Hnd HF. induction HF as [|r c rs cs Hrc HF IH]; [constructor|].
  cbn in *. apply NoDup_cons in Hnd as [Hni Hnd]. apply NoDup_cons. split; [|auto].
  intros (c' & Ek & Hc')%list_elem_of_fmap. apply Hni.
  apply list_elem_of_lookup in Hc' as (i & Hi). destruct (Forall2_lookup_r _ _ _ _ _ HF Hi) as (r' & Hr' & Hrc').
  destruct Hrc as (v & _ & _ & Ev & Ekv & _), Hrc' as (v' & _ & _ & Ev' & Ekv' & _).
  rewrite <- Ek in Ekv'. assert (v = v') as <- by (eapply NoDup_lookup; [apply Hok|done|done]).
  assert (dn_id r = dn_id r') as -> by (eapply NoDup_lookup; [apply Hg|done|done]).
  apply list_elem_of_fmap. exists r'. split; [done|]. by eapply list_elem_of_lookup_2.
Qed.

Lemma better_sorted cs :
  (forall c, c ∈ cs -> fis_nan (cd_Score c) = false) -> StronglySorted (not_after better) (sort_slice better cs).
Proof.
  intros Hnan. apply sort_slice_sorted; unfold better; [intros a b _ _; apply flt_asym|].
  intros a b c Ha Hb Hc Hab Hbc. destruct (flt (cd_Score c) (cd_Score a)) eqn:E; [|done].
  destruct (flt_cotrans _ (cd_Score b) _ (Hnan c Hc) (Hnan b Hb) (Hnan a Ha) E) as [Hx|Hx]; congruence.
Qed.

(** The graph a search is routed to. *)
Definition routed (ix : Index) (t : string) : option hnsw :=
  if String.eqb t "" then Some (global ix) else parts ix !! t.

Lemma routed_ok ix t g : index_ok ix -> routed ix t = Some g -> part_ok ix g /\ members ix t = vids g.
Proof.
  intros Hok. unfold routed, members. destruct (String.eqb t "").
  - intros [= <-]. split; [apply Hok|done].
  - intros E. rewrite E. split; [by eapply io_parts|done].
Qed.

(** [Index.Search] on a well-formed index, with a query of the index's
    dimension and a non-negative [n], neither fails nor panics.  It returns at
    most [n] candidates with distinct keys, each the key of a vector that is a
    member of the requested scope (the thread's partition, or everything for the
    empty thread id) with the asymmetric int8 score of that stored vector; when
    no score is a NaN they are in decreasing order of score.  The result is
    empty only when [n] is zero or the scope has no vector, which is what the
    oracle's widening loop relies on. *)
Lemma Search_returns ix vec n t :
  index_ok ix -> length vec = dim ix \/ dim ix = 0 -> (0 <= n)%Z ->
  returns (Search ix vec n t) (fun r =>
    (Z.of_nat (length r.1) <= n)%Z /\ NoDup (cd_Key <$> r.1) /\
    (forall c, c ∈ r.1 -> exists vid code sc, vid ∈ members ix t /\ keys ix !! vid = Some (cd_Key c) /\
       i8 ix !! vid = Some code /\ scale ix !! vid = Some sc /\ AsymmetricInt8Score vec code sc = Ok (cd_Score c)) /\
    ((forall c, c ∈ r.1 -> fis_nan (cd_Score c) = false) -> StronglySorted (not_after better) r.1) /\
    (r.1 = [] -> n = 0%Z \/ members ix t = [])).
Proof.
  intros Hok Hdim Hn. unfold Search. assert (negb (dim ix =? 0) && negb (length vec =? dim ix) = false) as ->.
  { destruct Hdim as [-> | ->]; [|done]. rewrite Nat.eqb_refl. by rewrite andb_false_r. }
  change (if (t =? "")%string then Some (global ix) else parts ix !! t) with (routed ix t).
  destruct (routed ix t) as [g|] eqn:Er.
  2: { apply returns_ok. simpl. unfold routed in Er. unfold members. destruct (t =? "")%string; [done|]. rewrite Er.
       split; [lia|]. split; [constructor|]. split; [by intros c ?%not_elem_of_nil|]. split; [constructor|by right]. }
  destruct (routed_ok ix t g Hok Er) as [Hg ->].
  assert (graph_ok (words (length vec)) None g) as Hgo.
  { destruct Hdim as [->|Hz]; [apply Hg|]. apply (graph_ok_empty (words (dim ix))); [apply Hg|].
    by eapply dim_zero_empty. }
  eapply returns_bind; [apply (search_returns (words (length vec))); [done|apply length_Binarize|done]|]. intros [rs vis] (Hnd & Hlt & Hlen & Hne).
  simpl in *. eapply returns_bind with (R := Forall2 (result_of ix g vec) rs).
  { apply returns_mapO. intros r Hr. pose proof (Hlt r Hr) as Hr'. apply to_candidate_returns; [done|done| |done].
    destruct Hdim as [|Hz]; [done|]. rewrite (dim_zero_empty ix g Hok Hg Hz) in Hr'. simpl in Hr'. lia. }
  intros cs Hcs. apply returns_ok. simpl. pose proof (Forall2_length _ _ _ Hcs) as Hl.
  split; [by rewrite sort_slice_perm, <- Hl|]. split.
  { rewrite sort_slice_perm. by eapply result_keys. }
  split; [|split].
  - intros c. rewrite sort_slice_perm. intros (i & Hi)%list_elem_of_lookup.
    destruct (Forall2_lookup_r _ _ _ _ _ Hcs Hi) as (r & _ & vid & code & sc & Ev & ?). exists vid, code, sc.
    split; [by eapply list_elem_of_lookup_2|done].
  - intros Hnan. apply better_sorted. intros c Hc. apply Hnan. by rewrite sort_slice_perm.
  - intros E. pose proof (sort_slice_perm _ better cs) as Hp. rewrite E in Hp. apply Permutation_nil_l in Hp. subst cs.
    destruct rs; [|done]. destruct (Hne eq_refl) as [|Hz]; [by left|right].
    apply nil_length_inv. rewrite (go_vids _ _ _ Hgo), Hz. done.
Qed.

End Sorted.

(** ** A small index *)

Module SampleIndex.
#[local] Existing Instance stable_slice_sort.
#[local] Open Scope string_scope.

Definition vec (x y : Z) : list float := [f32_of_f64 (f64_of_Z x); f32_of_f64 (f64_of_Z y)].
Definition start : Index := New {| cf_M := 0; cf_EfConstr := 0; cf_EfSearch := 0; cf_Seed := 1 |}.
Definition add (o : outcome Index) (key t : string) (v : list float) : outcome Index := o ≫= fun ix => Add ix key t v.

Definition filled : outcome Index :=
  add (add (add (Ok start) "m1#0" "t1" (vec 3 4)) "m2#0" "t2" (vec (-1) 2)) "m3#0" "t1" (vec (-5) (-2)).

Definition keys_of (o : outcome (list Candidate * nat)) : outcome (list string) :=
  match o with Ok r => Ok (cd_Key <$> r.1) | Err e => Err e | Panic s => Panic s end.

Example whole_corpus : keys_of (filled ≫= fun ix => Search ix (vec 1 1) 8 "") = Ok ["m1#0"; "m2#0"; "m3#0"].
Proof. vm_compute. reflexivity. Qed.

Example one_thread : keys_of (filled ≫= fun ix => Search ix (vec 1 1) 8 "t1") = Ok ["m1#0"; "m3#0"].
Proof. vm_compute. reflexivity. Qed.

Example wrong_width : (filled ≫= fun ix => Add ix "m4#0" "t1" [f1]) = Panic "annindex.Add: vector dim 1 != index dim 2".
Proof. vm_compute. reflexivity. Qed.

Lemma draws_ok : (0 <= (randomLayer (global start)).2)%Z /\ (0 <= (randomLayer (part_of start "t1")).2)%Z.
Proof. split; apply Z.leb_le; vm_compute; reflexivity. Qed.

Lemma start_ok : index_ok start.
Proof. apply New_ok. reflexivity. Qed.

Lemma Add_ok_witness :
  returns (Add start "m1#0" "t1" (vec 3 4)) (fun ix' =>
    index_ok ix' /\ keys ix' = ["m1#0"] /\ members ix' "" = [0] /\ members ix' "t1" = [0] /\ members ix' "t2" = []).
Proof.
  eapply returns_mono.
  - apply (@Add_ok stable_slice_sort start "m1#0" "t1" (vec 3 4) start_ok);
      [discriminate|by left|apply draws_ok|apply draws_ok].
  - intros ix' (Hok & Hk & Hd & Hm). split; [exact Hok|]. split; [exact Hk|]. by rewrite !Hm.
Defined.

(** One vector, stored in no thread. *)
Definition single : Index :=
  Eval vm_compute in match Add start "m1#0" "" (vec 3 4) with Ok ix => ix | _ => start end.

Lemma single_ok : index_ok single.
Proof.
  pose (g := global single). assert (returns (insert (global start) 0 (Binarize (vec 3 4)))
    (fun r => graph_ok (words 2) None r.1 /\ vids r.1 = (vids (global start) ++ [0])%list)) as (r & Er & Hg & _).
  { apply insert_returns; [apply (graph_ok_empty (words 0)); [apply start_ok|done]|by vm_compute|apply draws_ok]. }
  vm_compute in Er. injection Er as <-.
  apply (grown_ok start "m1#0" (QuantizeInt8 (vec 3 4)).1 (QuantizeInt8 (vec 3 4)).2 g ∅ 2);
    [apply start_ok|done|by left|by vm_compute|done|exact Hg|done|done].
Qed.

Example Search_single :
  returns (Search single (vec 1 1) 8 "") (fun r => cd_Key <$> r.1 = ["m1#0"]).
Proof.
  destruct (@Search_returns stable_slice_sort single (vec 1 1) 8 "" single_ok) as (r & E & _ & _ & _ & _ & Hne);
    [by left|done|].
  exists r. split; [exact E|]. vm_compute in E. injection E as <-. reflexivity.
Qed.
End SampleIndex.
