(* ===== verification/ChunkKey.v ===== *)
(** * Chunk keys ([service/chunkkey])

    The encoding of a chunk's identity as a key of the index, with the
    [strconv] and [strings] functions it uses. *)

From Stdlib Require Import ZArith Lia String Ascii.
From stdpp Require Import strings pretty.
From S2P Require Import Prelude GoStrings.
#[local] Open Scope Z_scope.

Definition digit_of (c : ascii) : option Z :=
  let n := Z.of_nat (nat_of_ascii c) in if (48 <=? n) && (n <=? 57) then Some (n - 48) else None.

(** The value of a run of digits after those read so far. *)
Fixpoint digits (acc : Z) (s : string) : option Z :=
  match s with
  | EmptyString => Some acc
  | String c s' => match digit_of c with Some d => digits (10 * acc + d) s' | None => None end
  end.

(** [strconv.Atoi]: the value it returns and whether the error is nil.  A
    number out of range is clamped, a malformed one reads as 0. *)
Definition clamp64 (z : Z) : Z * bool :=
  if z <? - 2 ^ 63 then (- 2 ^ 63, false) else if 2 ^ 63 <=? z then (2 ^ 63 - 1, false) else (z, true).

Definition unsigned (s : string) : option Z := if String.eqb s "" then None else digits 0 s.

Definition signed (s : string) : option Z :=
  match s with
  | EmptyString => None
  | String c s' =>
      if Ascii.eqb c "-" then Z.opp <$> unsigned s' else if Ascii.eqb c "+" then unsigned s' else unsigned s
  end.

Definition Atoi (s : string) : Z * bool :=
  match signed s with Some z => clamp64 z | None => (0, false) end.

(** [strings.Cut] at a one-byte separator *)
Fixpoint cut_byte (sep : ascii) (s : string) : option (string * string) :=
  match s with
  | EmptyString => None
  | String c s' =>
      if Ascii.eqb c sep then Some ("", s')
      else match cut_byte sep s' with Some (a, b) => Some (String c a, b) | None => None end
  end.

Definition Make (messageID : string) (chunkIndex : Z) : string := messageID ^^ nul ^^ itoa chunkIndex.

Definition Split (key : string) : string * Z :=
  match cut_byte (ascii_of_nat 0) key with
  | None => (key, 0)
  | Some (mid, idx) => (mid, (Atoi idx).1)
  end.

(** No byte of the string is NUL. *)
Fixpoint no_nul (s : string) : bool :=
  match s with EmptyString => true | String c s' => negb (Ascii.eqb c (ascii_of_nat 0)) && no_nul s' end.

Lemma digit_of_char x : (x < 10)%N -> digit_of (pretty_N_char x) = Some (Z.of_N x).
Proof.
  intros Hx. assert (x = 0 \/ x = 1 \/ x = 2 \/ x = 3 \/ x = 4 \/ x = 5 \/ x = 6 \/ x = 7 \/ x = 8 \/ x = 9)%N as Hc by lia.
  repeat destruct Hc as [-> | Hc]; [done..|]. by subst.
Qed.

Lemma digits_pretty_go x s : digits 0 (pretty_N_go x s) = digits (Z.of_N x) s.
Proof.
  revert s. induction (N.lt_wf_0 x) as [x _ IH]; intros s.
  destruct (N.eq_dec x 0%N) as [->|Hx]; [by rewrite pretty_N_go_0|].
  rewrite pretty_N_go_step by lia. rewrite IH by (apply N.div_lt; lia). simpl.
  rewrite digit_of_char by (apply N.mod_lt; lia). f_equal.
  rewrite N2Z.inj_div, N2Z.inj_mod. pose proof (Z.div_mod (Z.of_N x) 10). lia.
Qed.

Lemma pretty_go_nonempty x s : s <> "" -> pretty_N_go x s <> "".
Proof.
  revert s. induction (N.lt_wf_0 x) as [x _ IH]; intros s Hs.
  destruct (N.eq_dec x 0%N) as [->|Hx]; [by rewrite pretty_N_go_0|].
  rewrite pretty_N_go_step by lia. apply IH; [apply N.div_lt; lia|done].
Qed.

Lemma unsigned_pretty x : unsigned (pretty x) = Some (Z.of_N x).
Proof.
  unfold pretty, pretty_N, unsigned. case_decide as Hx; [by subst|].
  pose proof (digits_pretty_go x "") as Hd. destruct (String.eqb_spec (pretty_N_go x "") "") as [E|_]; [|exact Hd].
  rewrite pretty_N_go_step in E by lia. by apply pretty_go_nonempty in E.
Qed.

(** A decimal numeral starts with no sign. *)
Lemma signed_unsigned s z : unsigned s = Some z -> signed s = Some z.
Proof.
  destruct s as [|c s]; [done|]. intros Hu. pose proof Hu as Hd. unfold unsigned in Hd. simpl in Hd. simpl signed.
  destruct (Ascii.eqb_spec c "-") as [->|_]; [discriminate|]. by destruct (Ascii.eqb_spec c "+") as [->|_].
Qed.

Lemma signed_pretty z : signed (itoa z) = Some z.
Proof.
  unfold itoa, pretty, pretty_Z. destruct z as [|p|p]; [done|exact (signed_unsigned _ _ (unsigned_pretty _))|].
  change (Z.opp <$> unsigned (pretty (N.pos p)) = Some (Z.neg p)). by rewrite unsigned_pretty.
Qed.

Lemma Atoi_itoa z : in_int64 z -> Atoi (itoa z) = (z, true).
Proof.
  intros Hz. unfold Atoi. rewrite signed_pretty. unfold clamp64, in_int64 in *.
  destruct (Z.ltb_spec z (- 2 ^ 63)); [lia|]. destruct (Z.leb_spec (2 ^ 63) z); [lia|done].
Qed.

Lemma cut_nul a b : no_nul a = true -> cut_byte (ascii_of_nat 0) (a ^^ nul ^^ b) = Some (a, b).
Proof.
  induction a as [|d a IH]; intros Ha; [done|]. apply andb_prop in Ha as [Hd Ha]. apply negb_true_iff in Hd.
  rewrite append_cons. cbn [cut_byte]. by rewrite Hd, (IH Ha).
Qed.

(** A chunk key decodes to the chunk it encodes: for every message id
    without a NUL byte and every [int] chunk index, [Split] undoes [Make]. *)
Theorem Split_Make mid idx : no_nul mid = true -> in_int64 idx -> Split (Make mid idx) = (mid, idx).
Proof. intros Hm Hi. unfold Split, Make. by rewrite cut_nul, Atoi_itoa. Qed.

Lemma Split_Make_witness : Split (Make "msg-1" (-42)) = ("msg-1", -42).
Proof. apply Split_Make; [reflexivity|split; [discriminate|reflexivity]]. Defined.
