(* ===== verification/Llm.v ===== *)
(** * The completion interface ([proto/grudge/llm/v1], [core/completer.go])

    Requests, responses and stream chunks, and the contract of a stream that
    the provider adapters keep and the bridge consumes: [stream_ok] is what the
    adapters over HTTP give, [breaks_off] what the interface allows besides. *)

From Stdlib Require Import ZArith Lia String.
From S2P Require Import Prelude GoFloat Types.
#[local] Open Scope nat_scope.

Record Usage := { PromptTokens : Z; CompletionTokens : Z }.
Record ToolDeclaration := { td_Name : string; td_Description : string; td_ParametersJson : string }.

Inductive ToolChoiceMode :=
  | TOOL_CHOICE_MODE_UNSPECIFIED
  | TOOL_CHOICE_MODE_AUTO
  | TOOL_CHOICE_MODE_NONE
  | TOOL_CHOICE_MODE_REQUIRED
  | TOOL_CHOICE_MODE_NAMED.

Record ToolChoice := { tch_Mode : ToolChoiceMode; tch_NamedTool : string }.

Record CompletionRequest := {
  cq_Messages : list LLMMessage;
  cq_Model : string;
  cq_MaxTokens : option Z;
  cq_Temperature : option float;
  cq_TopP : option float;
  cq_Stop : list string;
  cq_Stream : bool;
  cq_Tools : list ToolDeclaration;
  cq_ToolChoice : option ToolChoice;
  cq_ContextWindowTokens : option Z
}.

Record CompletionResponse := {
  cs_Id : string;
  cs_Message : LLMMessage;
  cs_Usage : option Usage;
  cs_Model : string;
  cs_FinishReason : string
}.

Inductive Delta :=
  | DText (t : TextContent)
  | DThinking (t : ThinkingContent)
  | DToolCall (c : ToolCallContent)
  | DToolResult (r : ToolResultContent)
  | DNone.

Record StreamChunk := {
  sc_Delta : Delta;
  sc_Done : bool;
  sc_Usage : option Usage;
  sc_Error : option string;
  sc_FinishReason : string
}.

(** The iterator of [Stream]: chunks and errors in order.  A producer does
    nothing after a yield the consumer refused, so a consumer sees a prefix. *)
Record Completer := {
  Complete : nat -> CompletionRequest -> CompletionResponse + goerr;
  Stream : nat -> CompletionRequest -> list (StreamChunk + goerr)
}.

Definition delta_chunk (d : Delta) : StreamChunk :=
  {| sc_Delta := d; sc_Done := false; sc_Usage := None; sc_Error := None; sc_FinishReason := "" |}.
Definition error_chunk (text : string) : StreamChunk :=
  {| sc_Delta := DNone; sc_Done := true; sc_Usage := None; sc_Error := Some text; sc_FinishReason := "" |}.
Definition done_chunk (usage : option Usage) (reason : string) : StreamChunk :=
  {| sc_Delta := DNone; sc_Done := true; sc_Usage := usage; sc_Error := None; sc_FinishReason := reason |}.

(** A call that returns a value or an error. *)
Definition or_err {A} (x : A + goerr) : outcome A := match x with inl a => Ok a | inr e => Err e end.

(** Absent arguments are sent as an empty object. *)
Definition default_args (args : string) : string := if String.eqb args "" then "{}" else args.

(** ** The contract of a stream

    Deltas, then at most one terminal chunk, which alone carries usage, an
    error or a finish reason and has no delta. *)

Definition is_delta (c : StreamChunk) : Prop := exists d, d <> DNone /\ c = delta_chunk d.
Definition is_terminal (c : StreamChunk) : Prop :=
  sc_Delta c = DNone /\ sc_Done c = true /\ (sc_Error c <> None -> sc_Usage c = None).

Inductive chunks_ok : list StreamChunk -> Prop :=
  | chunks_nil : chunks_ok []
  | chunks_terminal c : is_terminal c -> chunks_ok [c]
  | chunks_delta c rest : is_delta c -> chunks_ok rest -> chunks_ok (c :: rest).

(** A stream fails before its first chunk or is a sequence of chunks. *)
Definition stream_ok (items : list (StreamChunk + goerr)) : Prop :=
  (exists e, items = [inr e]) \/ exists chunks, items = inl <$> chunks /\ chunks_ok chunks.

(** A call that opens a stream, then the chunks of what it opened. *)
Lemma opened_stream_ok {R} (m : outcome R) (items : R -> outcome (list (StreamChunk + goerr))) :
  settles m -> (forall r, exists chunks, items r = Ok (inl <$> chunks) /\ chunks_ok chunks) ->
  returns match m with Ok r => items r | Err e => Ok [inr e] | Panic s => Panic s end stream_ok.
Proof.
  intros Hm Hi. destruct m as [r|e|t]; [|apply returns_ok; left; by exists e|by destruct (Hm t)].
  destruct (Hi r) as (chunks & -> & Hok). apply returns_ok. right. by exists chunks.
Qed.

Lemma settles_or_err {A} (x : A + goerr) : settles (or_err x).
Proof. by destruct x. Qed.

(** What [core/completer.go] allows on top of that: after deltas, an error that
    ends the iteration. *)
Definition breaks_off (items : list (StreamChunk + goerr)) : Prop := exists ds e,
  ds <> [] /\ Forall (fun d => d <> DNone) ds /\ items = (inl ∘ delta_chunk <$> ds) ++ [inr e].

Class StreamContract (c : Completer) : Prop :=
  stream_contract : forall attempt req, stream_ok (Stream c attempt req) \/ breaks_off (Stream c attempt req).

(** A completer whose calls do not depend on the attempt. *)
Definition steady (complete : CompletionRequest -> outcome CompletionResponse)
    (stream : CompletionRequest -> outcome (list (StreamChunk + goerr))) : Completer :=
  {| Complete := fun _ req => match complete req with Ok r => inl r | Err e => inr e | Panic s => inr (ENew s) end;
     Stream := fun _ req => match stream req with Ok items => items | Err e => [inr e] | Panic s => [inr (ENew s)] end |}.

Lemma steady_interface complete stream :
  (forall req, returns (stream req) (fun items => stream_ok items \/ breaks_off items)) -> StreamContract (steady complete stream).
Proof. intros Hs attempt req. simpl. by destruct (Hs req) as (items & -> & Hok). Qed.

Lemma steady_contract complete stream :
  (forall req, returns (stream req) stream_ok) -> StreamContract (steady complete stream).
Proof. intros Hs. apply steady_interface. intros req. eapply returns_mono; [apply Hs|]. by left. Qed.

Lemma chunks_ok_app ds rest : Forall is_delta ds -> chunks_ok rest -> chunks_ok (ds ++ rest).
Proof. induction 1; [done|]. intros Hr. by constructor; auto. Qed.

Lemma delta_is_delta d : d <> DNone -> is_delta (delta_chunk d).
Proof. by exists d. Qed.

Lemma error_is_terminal t : is_terminal (error_chunk t).
Proof. done. Qed.

Lemma done_is_terminal u r : is_terminal (done_chunk u r).
Proof. split; [done|]. split; [done|]. by intros []. Qed.

Create HintDb llm.
#[export] Hint Resolve delta_is_delta error_is_terminal done_is_terminal : llm.
#[export] Hint Resolve settles_or_err : go.

(** The shape of a stream: its deltas and the terminal chunk, if there is one. *)
Lemma chunks_shape l :
  chunks_ok l ->
  exists ds last, l = (delta_chunk <$> ds) ++ option_list last /\ Forall (fun d => d <> DNone) ds /\
    (forall c, last = Some c -> is_terminal c).
Proof.
  induction 1 as [|c Hc|c rest (d & Hd & ->) _ (ds & last & -> & Hds & Hl)].
  - by exists [], None.
  - exists [], (Some c). split; [done|]. split; [constructor|]. by intros c' [= <-].
  - exists (d :: ds), last. split; [done|]. split; [by constructor|done].
Qed.

(** ** Streams by their deltas and their end *)

Inductive stream_end := EndsWith (last : option StreamChunk) | BreaksOff (e : goerr).

Definition end_items (en : stream_end) : list (StreamChunk + goerr) :=
  match en with EndsWith last => inl <$> option_list last | BreaksOff e => [inr e] end.

(** An end that follows [ds]: an error alone is a stream that failed at once. *)
Definition end_ok (ds : list Delta) (en : stream_end) : Prop :=
  match en with EndsWith last => forall c, last = Some c -> is_terminal c | BreaksOff _ => ds <> [] end.

(** A stream fails at once, or is its deltas and its end. *)
Lemma stream_shape items : stream_ok items \/ breaks_off items ->
  (exists e, items = [inr e]) \/
  exists ds en, items = (inl ∘ delta_chunk <$> ds) ++ end_items en /\ Forall (fun d => d <> DNone) ds /\ end_ok ds en.
Proof.
  intros [[He|(chunks & -> & Hok)]|(ds & e & Hne & Hds & ->)]; [by left|right|right].
  - apply chunks_shape in Hok as (ds & last & -> & Hds & Hl). exists ds, (EndsWith last).
    split; [|done]. by rewrite fmap_app, <- list_fmap_compose.
  - by exists ds, (BreaksOff e).
Qed.
