(* ===== verification/Httpc.v ===== *)
(** * HTTP transport ([core/httpc])

    The status mapping of [Client] and the line scanner ([bufio.Scanner]) the
    streaming adapters read a body with.  What the network does is an input: a
    failed exchange, or a response whose body is read up to an error. *)

From Stdlib Require Import ZArith Lia String Ascii.
From S2P Require Import Prelude GoStrings Errors.
#[local] Open Scope nat_scope.

Record Response := { StatusCode : Z; Body : string; ReadErr : option string }.

(** The exchange fails with an error text, or yields a response. *)
Definition Exchange : Type := string + Response.

Definition Do (x : Exchange) : outcome Response :=
  match x with
  | inl text => Err (wrap_sentinel EProviderUnavailable text)
  | inr resp =>
      if (StatusCode resp =? 401)%Z || (StatusCode resp =? 403)%Z then Err (EStatus "" (StatusCode resp) "")
      else if (StatusCode resp =? 429)%Z then Err (EStatus "" (StatusCode resp) "")
      else Ok resp
  end.

Lemma settles_Do x : settles (Do x).
Proof. destruct x; simpl; auto with go. Qed.
#[export] Hint Resolve settles_Do : go.

(** The body and the status; a read error keeps only the sentinel. *)
Definition DoJSON (x : Exchange) : outcome (string * Z) :=
  match Do x with
  | Ok resp =>
      match ReadErr resp with
      | Some text => Err (EWrap "" EProviderUnavailable (": reading response: " ^^ text))
      | None => Ok (Body resp, StatusCode resp)
      end
  | Err e => Err e
  | Panic s => Panic s
  end.

Definition statusBodyLimit : nat := 8 * 1024.

(** A body shorter than the limit whose read fails is dropped. *)
Definition NewStatusError (provider : string) (resp : Response) : goerr :=
  EStatus provider (StatusCode resp)
    match ReadErr resp with
    | Some _ => if slen (Body resp) <? statusBodyLimit then "" else trim_space (stake statusBodyLimit (Body resp))
    | None => trim_space (stake statusBodyLimit (Body resp))
    end.

(** The status survives, and the text is bounded. *)
Lemma NewStatusError_bounded provider resp :
  exists text, NewStatusError provider resp = EStatus provider (StatusCode resp) text /\ slen text <= statusBodyLimit.
Proof.
  eexists. split; [reflexivity|].
  assert (slen (trim_space (stake statusBodyLimit (Body resp))) <= statusBodyLimit)
    by (etrans; [apply trim_space_length|]; rewrite stake_length; lia).
  destruct (ReadErr resp); [|done]. destruct (_ <? _); [simpl; lia|done].
Qed.

(** ** [bufio.Scanner] with its default split and buffer *)

Definition newline : ascii := ascii_of_nat 10.

(** The lines of a body, their newline removed; an empty last one is dropped. *)
Fixpoint raw_lines (s : string) : list string :=
  match s with
  | EmptyString => []
  | String c s' =>
      if Ascii.eqb c newline then "" :: raw_lines s'
      else match raw_lines s' with
           | [] => [String c ""]
           | l :: ls => String c l :: ls
           end
  end.

Definition drop_cr (l : string) : string := if has_suffix l (byte 13) then stake (slen l - 1) l else l.

Definition MaxScanTokenSize : Z := 64 * 1024.
Definition ErrTooLong : string := "bufio.Scanner: token too long".

(** The tokens and [scanner.Err()]. *)
Fixpoint scan (lines : list string) (err : option string) : list string * option string :=
  match lines with
  | [] => ([], err)
  | l :: rest =>
      if (MaxScanTokenSize <=? Z.of_nat (slen l))%Z then ([], Some ErrTooLong)
      else let '(ls, e) := scan rest err in (drop_cr l :: ls, e)
  end.

Definition scan_body (resp : Response) : list string * option string := scan (raw_lines (Body resp)) (ReadErr resp).

Example scan_crlf :
  scan_body {| StatusCode := 200; Body := "a" ^^ byte 13 ^^ nl ^^ nl ^^ "bc"; ReadErr := None |} = (["a"; ""; "bc"], None).
Proof. vm_compute. reflexivity. Qed.
