(* ===== verification/Scorers.v ===== *)
(** * Rerankers and the TEI embedder ([core/adapter/tei], [zerank], [gcpranking])

    The clients of the scoring services.  A client is a state transformer over
    the number of requests sent; what the network answers to each request, and
    [encoding/json], are parameters.  The theorems are about the contract of
    [core.Scorer]: one score per candidate, in the order of the candidates. *)

From Stdlib Require Import ZArith Lia String Ascii.
From S2P Require Import Prelude GoFloat GoStrings Errors Retry Httpc Llm ChunkKey.
#[local] Open Scope Z_scope.

(** [math.Exp], the portable routine; the assembly of some platforms may
    differ from it in the last bit. *)
Module GoExp.
#[local] Open Scope gofloat_scope.
Definition Log2e : float := Eval vm_compute in f64_bits 0x3ff71547652b82fe.
Definition Overflow : float := Eval vm_compute in f64_bits 0x40862e42fefa39ef.
Definition Underflow : float := Eval vm_compute in f64_bits 0xc0874910d52d3051.
Definition NearZero : float := f64_lit 1 (-28).

Definition Exp (x : float) : float :=
  if fis_nan x || feq x finf then x
  else if feq x fninf then f0
  else if flt Overflow x then finf
  else if flt x Underflow then f0
  else if flt (fopp NearZero) x && flt x NearZero then f1 + x
  else
    let k := if flt x f0 then int_of_f64 (Log2e * x - fhalf)
             else if flt f0 x then int_of_f64 (Log2e * x + fhalf) else 0 in
    GoMath.expmulti (x - f64_of_Z k * GoMath.Ln2Hi) (f64_of_Z k * GoMath.Ln2Lo) k.
End GoExp.

(** [core.EmbedRole] *)
Inductive EmbedRole := RoleQuery | RoleDocument.

(** [if i in range { out[i] = v }] *)
Definition put (i : Z) (v : float) (out : list float) : list float :=
  if (i <? 0) || (Z.of_nat (length out) <=? i) then out else <[Z.to_nat i := v]> out.

Section Service.
(** What the [n]-th request gets: a request that cannot be built, or an
    exchange. *)
Context (Post : nat -> string -> string -> Exchange + goerr).
(** The context and the jitter of the retried call that starts at request [n]. *)
Context (ctx_err wait_err : nat -> Z -> option goerr) (draw : nat -> Z -> float).

Definition post_json (url body : string) : GoM nat (string * Z) := fun n =>
  (S n, x ← or_err (Post n url body); DoJSON x).

(** [retry.Do(ctx, LocalServicePolicy(), log, op)], whose closure assigns a
    variable. *)
Definition retried {X} (op : GoM (nat * X) unit) (x : X) : GoM nat X := fun n =>
  let r := Retry.Do (ctx_err n) (wait_err n) (draw n) None op LocalServicePolicy (n, x) in
  (r.1.1, match r.2 with Ok _ => Ok r.1.2 | Err e => Err e | Panic p => Panic p end).

(** The request of an attempt, and what it does with a body of status 200. *)
Definition attempt_with {X} (name url body : string) (read : string -> X -> X + goerr) : GoM (nat * X) unit := fun s =>
  match post_json url body s.1 with
  | (n, Ok (respBody, status)) =>
      if negb (status =? 200)
      then ((n, s.2), Err (EWrap "" EProviderUnavailable (": " ^^ name ^^ " returned " ^^ itoa status ^^ ": " ^^ respBody)))
      else match read respBody s.2 with
           | inl x => ((n, x), Ok tt)
           | inr e => ((n, s.2), Err e)
           end
  | (n, Err e) => ((n, s.2), Err e)
  | (n, Panic p) => ((n, s.2), Panic p)
  end.

(** ** TEI *)

Record rerankRequest := { rr_Query : string; rr_Texts : list string; rr_RawScores : bool; rr_Truncate : bool }.
Record rerankHit := { rh_Index : Z; rh_Score : float }.
Record batchEmbedRequest := { be_Inputs : list string; be_Truncate : bool }.

Section Tei.
Context (MarshalEmbed : batchEmbedRequest -> string + goerr) (UnmarshalEmbed : string -> list (list float) + goerr).
Context (MarshalRerank : rerankRequest -> string + goerr) (UnmarshalHits : string -> list rerankHit + goerr).
Context (baseURL queryPrefix : string).

Definition tei_embed (texts : list string) : GoM nat (list (list float)) :=
  body ← gom_lift (or_err (MarshalEmbed {| be_Inputs := texts; be_Truncate := true |}));
  resp ← retried (attempt_with "tei" (baseURL ^^ "/embed") body (fun b _ => UnmarshalEmbed b)) [];
  if negb (Nat.eqb (length resp) (length texts))
  then gom_err (EWrap "" EProviderUnavailable (": tei returned " ^^ itoa (Z.of_nat (length resp)) ^^ " embeddings for " ^^
                                               itoa (Z.of_nat (length texts)) ^^ " inputs"))
  else mret resp.

Definition tei_Embed (role : EmbedRole) (texts : list string) : GoM nat (list (list float)) :=
  match role with
  | RoleQuery => tei_embed (if String.eqb queryPrefix "" then texts else (fun t => queryPrefix ^^ t) <$> texts)
  | RoleDocument => tei_embed texts
  end.

Definition rerankBatchSize : nat := 32.

Definition place_hits (hits : list rerankHit) (out : list float) : list float :=
  fold_left (fun out h => put (rh_Index h) (rh_Score h) out) hits out.

Definition tei_scoreOnce (query : string) (slice : list string) (out : list float) : GoM nat (list float) :=
  body ← gom_lift (or_err (MarshalRerank {| rr_Query := query; rr_Texts := slice; rr_RawScores := false; rr_Truncate := true |}));
  retried (attempt_with "tei" (baseURL ^^ "/rerank") body
             (fun b out => match UnmarshalHits b with inl hits => inl (place_hits hits out) | inr e => inr e end)) out.

(** The loop over the batches; the fuel is the number of candidates. *)
Fixpoint tei_batches (fuel : nat) (query : string) (candidates : list string) : GoM nat (list float) :=
  match candidates, fuel with
  | [], _ => mret []
  | _, O => gom_lift (Panic "fuel")
  | _, S fuel' =>
      let slice := take rerankBatchSize candidates in
      scores ← tei_scoreOnce query slice (replicate (length slice) f0);
      rest ← tei_batches fuel' query (drop rerankBatchSize candidates);
      mret (scores ++ rest)
  end.

Definition tei_Score (query : string) (candidates : list string) : GoM nat (list float) :=
  match candidates with
  | [] => mret []
  | _ => if String.eqb query "" then mret (replicate (length candidates) f0)
         else tei_batches (length candidates) query candidates
  end.
End Tei.

(** ** Discovery Engine ranking *)

Record rankRecord := { rk_ID : string; rk_Content : string; rk_Score : float }.
Record rankRequest := { rq_Model : string; rq_Query : string; rq_Records : list rankRecord; rq_Ignore : bool }.

Section Gcp.
Context (MarshalRank : rankRequest -> string + goerr) (UnmarshalRecords : string -> list rankRecord + goerr).
Context (model project location : string).

Definition rankBatchSize : nat := 100.

Definition gcp_model : string := if String.eqb model "" then "semantic-ranker-default-004" else model.
Definition gcp_location : string := if String.eqb location "" then "global" else location.

Definition rank_url : string :=
  "https://discoveryengine.googleapis.com/v1/projects/" ^^ project ^^ "/locations/" ^^ gcp_location ^^
  "/rankingConfigs/default_ranking_config:rank".

Definition align_record (out : list float) (rec : rankRecord) : list float :=
  match Atoi (rk_ID rec) with (idx, true) => put idx (rk_Score rec) out | _ => out end.
Definition alignScores (records : list rankRecord) (out : list float) : list float := fold_left align_record records out.

(** [candidates[offset:end]] with their indices as ids. *)
Definition rank_records (offset : nat) (batch : list string) : list rankRecord :=
  imap (fun i c => {| rk_ID := itoa (Z.of_nat (offset + i)); rk_Content := c; rk_Score := f0 |}) batch.

Definition gcp_rankBatch (query : string) (offset : nat) (batch : list string) (out : list float) : GoM nat (list float) :=
  body ← gom_lift (or_err (MarshalRank {| rq_Model := gcp_model; rq_Query := query; rq_Records := rank_records offset batch; rq_Ignore := false |}));
  records ← retried (attempt_with "gcpranking" rank_url body (fun b _ => UnmarshalRecords b)) [];
  mret (alignScores records out).

Fixpoint gcp_batches (fuel : nat) (query : string) (offset : nat) (rest : list string) (out : list float) : GoM nat (list float) :=
  match rest, fuel with
  | [], _ => mret out
  | _, O => gom_lift (Panic "fuel")
  | _, S fuel' =>
      out ← gcp_rankBatch query offset (take rankBatchSize rest) out;
      gcp_batches fuel' query (offset + rankBatchSize) (drop rankBatchSize rest) out
  end.

Definition gcp_Score (query : string) (candidates : list string) : GoM nat (list float) :=
  match candidates with
  | [] => mret []
  | _ => let zeros := replicate (length candidates) f0 in
         if String.eqb query "" then mret zeros else gcp_batches (length candidates) query 0 candidates zeros
  end.
End Gcp.

(** ** zerank *)

Record classifyRequest := { cq_Model : string; cq_Input : list string; cq_UseActivation : bool }.

Section Zerank.
Context (MarshalClassify : classifyRequest -> string + goerr) (UnmarshalData : string -> list (list float) + goerr).
Context (baseURL model : string).

Definition zerank_model : string := if String.eqb model "" then "zeroentropy/zerank-1-small" else model.

Definition chatPrompt (query document : string) : string :=
  "<|im_start|>system" ^^ nl ^^ query ^^ "<|im_end|>" ^^ nl ^^
  "<|im_start|>user" ^^ nl ^^ document ^^ "<|im_end|>" ^^ nl ^^
  "<|im_start|>assistant" ^^ nl.

Definition scoreTemperature : float := f64_of_Z 5.

Definition sigmoid (logit : float) : float :=
  fdiv f1 (fadd f1 (GoExp.Exp (fdiv (fopp logit) scoreTemperature))).

Fixpoint read_logits (i : Z) (data : list (list float)) : outcome (list float) :=
  match data with
  | [] => Ok []
  | [] :: _ => Err (EWrap "" EProviderUnavailable (": zerank/vllm returned no logit for candidate " ^^ itoa i))
  | (logit :: _) :: rest => scores ← read_logits (i + 1) rest; mret (sigmoid logit :: scores)
  end.

Definition zerank_Score (query : string) (candidates : list string) : GoM nat (list float) :=
  match candidates with
  | [] => mret []
  | _ =>
      body ← gom_lift (or_err (MarshalClassify {| cq_Model := zerank_model; cq_Input := chatPrompt query <$> candidates;
                                                  cq_UseActivation := false |}));
      data ← retried (attempt_with "zerank/vllm" (baseURL ^^ "/classify") body (fun b _ => UnmarshalData b)) [];
      if negb (Nat.eqb (length data) (length candidates))
      then gom_err (EWrap "" EProviderUnavailable (": zerank/vllm scored " ^^ itoa (Z.of_nat (length data)) ^^ " of " ^^
                                                   itoa (Z.of_nat (length candidates)) ^^ " candidates"))
      else gom_lift (read_logits 0 data)
  end.
End Zerank.
End Service.

(** ** Placing scores *)

Lemma put_length i v out : length (put i v out) = length out.
Proof. unfold put. destruct (_ || _); [done|]. apply length_insert. Qed.

Lemma put_other i v out (k : nat) : i <> Z.of_nat k -> put i v out !! k = out !! k.
Proof.
  unfold put. destruct (_ || _) eqn:E; [done|]. apply orb_false_iff in E as [E1%Z.ltb_ge E2%Z.leb_gt]. intros Hne.
  apply list_lookup_insert_ne. lia.
Qed.

Lemma put_same v out (k : nat) : (k < length out)%nat -> put (Z.of_nat k) v out !! k = Some v.
Proof.
  intros Hk. unfold put. replace (_ || _) with false by (symmetry; apply orb_false_iff; split; [apply Z.ltb_ge|apply Z.leb_gt]; lia).
  rewrite Nat2Z.id. by apply list_lookup_insert_eq.
Qed.

Section Placing.
Context {H : Type} (key : H -> option Z) (val : H -> float).

(** A pass over answers that carry their position. *)
Definition place (hits : list H) (out : list float) : list float :=
  fold_left (fun out h => match key h with Some i => put i (val h) out | None => out end) hits out.

Lemma place_length hits out : length (place hits out) = length out.
Proof.
  unfold place. revert out. induction hits as [|h hits IH]; intros out; cbn [fold_left]; [done|].
  rewrite IH. destruct (key h); [apply put_length|done].
Qed.

Lemma place_other hits out (k : nat) :
  (forall h, h ∈ hits -> key h <> Some (Z.of_nat k)) -> place hits out !! k = out !! k.
Proof.
  unfold place. revert out. induction hits as [|h hits IH]; intros out Hno; cbn [fold_left]; [done|].
  rewrite IH; [|intros h' Hh'; apply Hno; by right]. destruct (key h) as [i|] eqn:E; [|done].
  apply put_other. intros ->. by apply (Hno h); [left|].
Qed.

(** Whatever their order, answers that agree put their score in its place. *)
Lemma place_agree hits out (k : nat) v :
  (k < length out)%nat -> (forall h, h ∈ hits -> key h = Some (Z.of_nat k) -> val h = v) ->
  out !! k = Some v \/ (exists h, h ∈ hits /\ key h = Some (Z.of_nat k)) -> place hits out !! k = Some v.
Proof.
  unfold place. revert out. induction hits as [|h hits IH]; intros out Hk Hv Hex; cbn [fold_left].
  { destruct Hex as [Hex|(h & Hh & _)]; [done|]. by apply elem_of_nil in Hh. }
  assert (length (match key h with Some i => put i (val h) out | None => out end) = length out) as Hlen
    by (destruct (key h); [apply put_length|done]).
  apply IH; [by rewrite Hlen|by intros h' Hh'; apply Hv; right|].
  destruct (key h) as [i|] eqn:E.
  - destruct (Z.eq_dec i (Z.of_nat k)) as [->|Hne].
    + left. rewrite put_same by done. f_equal. by apply Hv; [left|].
    + rewrite put_other by done. destruct Hex as [Hex|(h' & [->|Hh']%elem_of_cons & Hk')]; [by left|congruence|right; eauto].
  - destruct Hex as [Hex|(h' & [->|Hh']%elem_of_cons & Hk')]; [by left|congruence|right; eauto].
Qed.
End Placing.

Lemma place_hits_place hits out : place_hits hits out = place (fun h => Some (rh_Index h)) rh_Score hits out.
Proof. done. Qed.

Definition record_key (r : rankRecord) : option Z := match Atoi (rk_ID r) with (i, true) => Some i | _ => None end.

Lemma alignScores_place records out : alignScores records out = place record_key rk_Score records out.
Proof.
  unfold alignScores, place. revert out. induction records as [|r records IH]; intros out; cbn [fold_left]; [done|].
  rewrite IH. f_equal. unfold align_record, record_key. by destruct (Atoi _) as [i []].
Qed.

(** ** Retried calls *)

Section Calls.
Context (Post : nat -> string -> string -> Exchange + goerr).
Context (ctx_err wait_err : nat -> Z -> option goerr) (draw : nat -> Z -> float).

(** What successful attempts establish, the call establishes. *)
Lemma attempts_result {S} ctx wait dr (op : GoM S unit) (P Q : S -> Prop) p n a d last s :
  (forall s, P s -> match op s with (s', Ok _) => Q s' | (s', Err _) => P s' | (_, Panic _) => False end) ->
  (n <> 0%nat \/ last <> None) -> P s ->
  match attempts ctx wait dr None op p n a d last s with (s', Ok _) => Q s' | (_, Err _) => True | (_, Panic _) => False end.
Proof.
  intros Hop. revert a d last s. induction n as [|n IH]; intros a d last s Hn Hs; cbn [attempts].
  { destruct last; [done|]. by destruct Hn. }
  destruct (ctx a); [done|]. specialize (Hop s Hs). destruct (op s) as [s' [u|e|t]]; [done| |done].
  destruct (negb _); [done|]. destruct (a =? _); [done|]. destruct (wait a); [done|]. cbn [emit]. apply IH; [by right|done].
Qed.

Lemma post_json_settles url body n : settles (post_json Post url body n).2.
Proof.
  cbn. apply settles_bind; [apply settles_or_err|]. intros x. unfold DoJSON. pose proof (settles_Do x) as Hx.
  destruct (Httpc.Do x) as [r|e|t]; [by destruct (ReadErr r)|done|]. by destruct (Hx t).
Qed.

Lemma attempt_with_result {X} name url body (read : string -> X -> X + goerr) x0 n (Q : X -> Prop) :
  (forall k b x, (post_json Post url body k).2 = Ok (b, 200) -> read b x0 = inl x -> Q x) ->
  match retried ctx_err wait_err draw (attempt_with Post name url body read) x0 n with
  | (_, Ok x) => Q x
  | (_, Err _) => True
  | (_, Panic _) => False
  end.
Proof.
  intros Hread. unfold retried, Retry.Do.
  match goal with |- context [attempts ?c ?w ?dr None ?op ?p ?k ?a ?d None ?s] =>
    pose proof (attempts_result c w dr op (fun st => st.2 = x0) (fun st => Q st.2) p k a d None s) as Hat;
    destruct (attempts c w dr None op p k a d None s) as [[n' x'] [u|e|t]]; cbn [fst snd] in *
  end; apply Hat; try done; try (by left).
  all: intros [k x] Hx; cbn in Hx; rewrite Hx; clear x Hx; unfold attempt_with; cbn [fst snd].
  all: pose proof (post_json_settles url body k) as Hset; specialize (Hread k).
  all: destruct (post_json Post url body k) as [k' [[b status]|err|t']]; cbn in *; [|done|by destruct (Hset t')].
  all: destruct (Z.eqb_spec status 200) as [->|]; cbn; [|done].
  all: destruct (read b x0) as [x|err] eqn:Er; cbn; [by eapply Hread|done].
Qed.

(** An attempt that succeeds at once ends the call. *)
Lemma retried_first {X} (op : GoM (nat * X) unit) x n n' x' :
  ctx_err n 1 = None -> op (n, x) = ((n', x'), Ok tt) -> retried ctx_err wait_err draw op x n = (n', Ok x').
Proof. intros Hc Ho. unfold retried, Retry.Do. cbn zeta.
  change (Z.to_nat (MaxAttempts (normalize LocalServicePolicy))) with 3%nat. cbn [attempts]. by rewrite Hc, Ho.
Qed.

(** ** TEI *)

Section TeiScore.
Context (MarshalRerank : rerankRequest -> string + goerr) (UnmarshalHits : string -> list rerankHit + goerr).
Context (baseURL : string) (f : string -> string -> float) (query : string).

(** The answers cover the texts, in any order, each with the score of its text. *)
Definition answers (texts : list string) (hits : list rerankHit) : Prop := forall (i : nat) t, texts !! i = Some t ->
  (exists h, h ∈ hits /\ rh_Index h = Z.of_nat i) /\
  forall h, h ∈ hits -> rh_Index h = Z.of_nat i -> rh_Score h = f query t.

Definition rerank_body (texts : list string) : string + goerr :=
  MarshalRerank {| rr_Query := query; rr_Texts := texts; rr_RawScores := false; rr_Truncate := true |}.

(** What the service promises for the batches it accepts. *)
Definition reranks : Prop := forall n texts body b hits,
  (length texts <= rerankBatchSize)%nat -> rerank_body texts = inl body ->
  (post_json Post (baseURL ^^ "/rerank") body n).2 = Ok (b, 200) -> UnmarshalHits b = inl hits -> answers texts hits.

(** Nothing fails. *)
Definition available : Prop := (forall n, ctx_err n 1 = None) /\
  forall n texts, exists body b hits, rerank_body texts = inl body /\
    (post_json Post (baseURL ^^ "/rerank") body n).2 = Ok (b, 200) /\ UnmarshalHits b = inl hits.

Hypothesis Hservice : reranks.

Lemma place_answers texts hits :
  answers texts hits -> place_hits hits (replicate (length texts) f0) = f query <$> texts.
Proof.
  intros Ha. rewrite place_hits_place. apply list_eq. intros i.
  destruct (decide (i < length texts)%nat) as [Hi|Hi].
  - destruct (lookup_lt_is_Some_2 texts i Hi) as [t Ht]. rewrite list_lookup_fmap, Ht. cbn.
    destruct (Ha i t Ht) as [(h & Hh & Hk) Hv]. apply place_agree.
    + by rewrite length_replicate.
    + intros h' Hh' [= Hk']. by apply Hv.
    + right. exists h. by rewrite Hk.
  - rewrite !lookup_ge_None_2; [done| |]; rewrite ?length_fmap, ?place_length, ?length_replicate; lia.
Qed.

Lemma scoreOnce_result slice n : (length slice <= rerankBatchSize)%nat ->
  match tei_scoreOnce Post ctx_err wait_err draw MarshalRerank UnmarshalHits baseURL query slice (replicate (length slice) f0) n with
  | (_, Ok l) => l = f query <$> slice
  | (_, Err _) => True
  | (_, Panic _) => False
  end.
Proof.
  intros Hlen. unfold tei_scoreOnce, mbind, gom_bind, gom_lift.
  destruct (MarshalRerank _) as [body|e] eqn:Em; cbn [or_err]; [|done].
  apply attempt_with_result. intros k b x Hp. destruct (UnmarshalHits b) as [hits|e] eqn:Eu; [|done]. intros [= <-].
  apply place_answers. by eapply Hservice.
Qed.

Lemma scoreOnce_ok slice n : (length slice <= rerankBatchSize)%nat -> available -> exists n',
  tei_scoreOnce Post ctx_err wait_err draw MarshalRerank UnmarshalHits baseURL query slice (replicate (length slice) f0) n =
    (n', Ok (f query <$> slice)).
Proof.
  intros Hlen [Hctx Hav]. pose proof (scoreOnce_result slice n Hlen) as Hr.
  destruct (Hav n slice) as (body & b & hits & Hb & Hp & Hu). unfold rerank_body in Hb.
  unfold tei_scoreOnce, mbind, gom_bind, gom_lift in *. rewrite Hb in *. cbn [or_err] in *.
  destruct (post_json Post (baseURL ^^ "/rerank") body n) as [n' o] eqn:Ep. cbn in Hp. subst o.
  match goal with |- context [retried _ _ _ ?op ?x n] =>
    assert (retried ctx_err wait_err draw op x n = (n', Ok (place_hits hits x))) as E end.
  { apply retried_first; [by apply Hctx|]. unfold attempt_with. cbn [fst snd]. by rewrite Ep, Hu. }
  rewrite E in Hr |- *. rewrite Hr. by eexists.
Qed.

Lemma drop_fuel (l : list string) fuel : (length l <= S fuel)%nat -> l <> [] -> (length (drop rerankBatchSize l) <= fuel)%nat.
Proof. intros Hl Hne. rewrite length_drop. unfold rerankBatchSize. destruct l; [done|]. cbn [length] in *. lia. Qed.

Lemma take_batch (l : list string) : (length (take rerankBatchSize l) <= rerankBatchSize)%nat.
Proof. rewrite length_take. lia. Qed.

Lemma batches_result fuel cands n : (length cands <= fuel)%nat ->
  match tei_batches Post ctx_err wait_err draw MarshalRerank UnmarshalHits baseURL fuel query cands n with
  | (_, Ok l) => l = f query <$> cands
  | (_, Err _) => True
  | (_, Panic _) => False
  end.
Proof.
  revert cands n. induction fuel as [|fuel IH]; intros [|c cands] n Hf; cbn [tei_batches]; try done; [cbn in Hf; lia|].
  set (l := c :: cands) in *. unfold mbind at 1, gom_bind.
  pose proof (scoreOnce_result (take rerankBatchSize l) n (take_batch l)) as Hs.
  destruct (tei_scoreOnce _ _ _ _ _ _ _ _ _ _ _) as [n1 [a|e|p]]; [|done..]. unfold mbind, gom_bind.
  specialize (IH (drop rerankBatchSize l) n1 (drop_fuel l fuel Hf ltac:(done))).
  destruct (tei_batches _ _ _ _ _ _ _ _ _ _ _) as [n2 [r|e|p]]; [|done..]. cbn. rewrite Hs, IH, <- fmap_app.
  by rewrite take_drop.
Qed.

Lemma batches_ok fuel cands n : (length cands <= fuel)%nat -> available ->
  exists n', tei_batches Post ctx_err wait_err draw MarshalRerank UnmarshalHits baseURL fuel query cands n = (n', Ok (f query <$> cands)).
Proof.
  intros Hf Hav. revert cands n Hf. induction fuel as [|fuel IH]; intros [|c cands] n Hf; cbn [tei_batches]; try (by eexists); [cbn in Hf; lia|].
  set (l := c :: cands) in *. unfold mbind at 1, gom_bind.
  destruct (scoreOnce_ok (take rerankBatchSize l) n (take_batch l) Hav) as [n1 ->]. unfold mbind, gom_bind.
  destruct (IH (drop rerankBatchSize l) n1 (drop_fuel l fuel Hf ltac:(done))) as [n2 ->]. eexists.
  cbn. by rewrite <- fmap_app, take_drop.
Qed.
End TeiScore.
End Calls.

(** C34: Reranking in batches is reranking one by one.  Let the TEI service give
    each text of a batch it accepts (at most 32) a score that depends on the
    query and the text, and answer in any order, with repeated or out-of-range
    indices if it likes.  Then for any number of candidates, any retries and
    any failures, [Score] returns an error or exactly one score per
    candidate, in the order of the candidates, whatever the batches were; it
    does return them when nothing fails; and an empty query scores zero
    without a request. *)
Theorem tei_Score_pointwise (Post : nat -> string -> string -> Exchange + goerr)
    (ctx_err wait_err : nat -> Z -> option goerr) (draw : nat -> Z -> float)
    (MarshalRerank : rerankRequest -> string + goerr) (UnmarshalHits : string -> list rerankHit + goerr)
    (baseURL : string) (f : string -> string -> float) (query : string) (candidates : list string) (n : nat)
    (Hservice : reranks Post MarshalRerank UnmarshalHits baseURL f query) :
  let score := tei_Score Post ctx_err wait_err draw MarshalRerank UnmarshalHits baseURL query candidates n in
  if String.eqb query "" then score = (n, Ok (replicate (length candidates) f0))
  else
    match score.2 with
    | Ok l => l = f query <$> candidates
    | Err _ => True
    | Panic _ => False
    end /\
    (available Post ctx_err MarshalRerank UnmarshalHits baseURL query -> score.2 = Ok (f query <$> candidates)).
Proof.
  cbn zeta. unfold tei_Score. destruct candidates as [|c l]; [by destruct (String.eqb query "")|].
  destruct (String.eqb query ""); [done|]. split.
  - pose proof (batches_result Post ctx_err wait_err draw MarshalRerank UnmarshalHits baseURL f query Hservice
      (length (c :: l)) (c :: l) n ltac:(done)) as Hb. by destruct (tei_batches _ _ _ _ _ _ _ _ _ _ _) as [n' [r|e|p]].
  - intros Hav. by destruct (batches_ok Post ctx_err wait_err draw MarshalRerank UnmarshalHits baseURL f query Hservice
      (length (c :: l)) (c :: l) n ltac:(done) Hav) as [n' ->].
Qed.

(** ** The other rerankers *)

Section Others.
Context (Post : nat -> string -> string -> Exchange + goerr).
Context (ctx_err wait_err : nat -> Z -> option goerr) (draw : nat -> Z -> float).

Section GcpScore.
Context (MarshalRank : rankRequest -> string + goerr) (UnmarshalRecords : string -> list rankRecord + goerr).
Context (model project location : string) (f : string -> string -> float) (query : string).

(** The records of a batch echo its ids, in any order. *)
Definition ranked (offset : nat) (batch : list string) (records : list rankRecord) : Prop :=
  (forall (i : nat) t, batch !! i = Some t ->
     (exists r, r ∈ records /\ record_key r = Some (Z.of_nat (offset + i))) /\
     forall r, r ∈ records -> record_key r = Some (Z.of_nat (offset + i)) -> rk_Score r = f query t) /\
  forall r (j : nat), r ∈ records -> record_key r = Some (Z.of_nat j) -> (offset <= j < offset + length batch)%nat.

Hypothesis Hservice : forall n offset batch body b records, (length batch <= rankBatchSize)%nat ->
  MarshalRank {| rq_Model := gcp_model model; rq_Query := query; rq_Records := rank_records offset batch; rq_Ignore := false |} = inl body ->
  (post_json Post (rank_url project location) body n).2 = Ok (b, 200) -> UnmarshalRecords b = inl records ->
  ranked offset batch records.

Lemma align_ranked offset (past batch : list string) (out : list float) records :
  length past = offset -> take offset out = f query <$> past -> (offset + length batch <= length out)%nat ->
  ranked offset batch records ->
  take (offset + length batch) (alignScores records out) = f query <$> past ++ batch.
Proof.
  intros Hp Ht Hl [Hin Hbound]. rewrite alignScores_place. apply list_eq. intros i.
  destruct (decide (i < offset + length batch)%nat) as [Hi|Hi].
  2: { rewrite !lookup_ge_None_2; [done| |]; rewrite ?length_fmap, ?length_take, ?place_length, ?length_app; lia. }
  rewrite lookup_take_lt by done. destruct (decide (i < offset)%nat) as [Hlt|Hge].
  - rewrite place_other.
    + rewrite <- (lookup_take_lt out offset) by done. rewrite Ht, fmap_app, lookup_app_l; [done|]. rewrite length_fmap. lia.
    + intros r Hr Hk. apply Hbound in Hk; [lia|done].
  - destruct (lookup_lt_is_Some_2 batch (i - offset)) as [t Hti]; [lia|].
    rewrite fmap_app, lookup_app_r by (rewrite length_fmap; lia). rewrite length_fmap, Hp, list_lookup_fmap, Hti. cbn.
    destruct (Hin _ t Hti) as [(r & Hr & Hk) Hv]. replace (offset + (i - offset))%nat with i in * by lia.
    apply place_agree; [lia|done|]. right. by exists r.
Qed.

Lemma rankBatch_result past batch out n : (length batch <= rankBatchSize)%nat ->
  take (length past) out = f query <$> past -> (length past + length batch <= length out)%nat ->
  match gcp_rankBatch Post ctx_err wait_err draw MarshalRank UnmarshalRecords model project location query (length past) batch out n with
  | (_, Ok l) => length l = length out /\ take (length past + length batch) l = f query <$> past ++ batch
  | (_, Err _) => True
  | (_, Panic _) => False
  end.
Proof.
  intros Hlen Ht Hl. unfold gcp_rankBatch, mbind, gom_bind, gom_lift.
  destruct (MarshalRank _) as [body|e] eqn:Em; cbn [or_err]; [|done].
  pose proof (attempt_with_result Post ctx_err wait_err draw "gcpranking" (rank_url project location) body
    (fun b _ => UnmarshalRecords b) [] n (ranked (length past) batch)) as Hr.
  destruct (retried _ _ _ _ _ _) as [n' [records|e|p]]; cbn.
  - split; [by rewrite alignScores_place, place_length|]. apply align_ranked; try done. apply Hr.
    intros k b x Hp Hu. by eapply Hservice.
  - done.
  - apply Hr. intros k b x Hp Hu. by eapply Hservice.
Qed.

Lemma gcp_batches_result fuel past rest out n :
  (length rest <= fuel)%nat -> take (length past) out = f query <$> past -> length out = (length past + length rest)%nat ->
  match gcp_batches Post ctx_err wait_err draw MarshalRank UnmarshalRecords model project location fuel query (length past) rest out n with
  | (_, Ok l) => l = f query <$> past ++ rest
  | (_, Err _) => True
  | (_, Panic _) => False
  end.
Proof.
  revert past rest out n. induction fuel as [|fuel IH]; intros past [|c rest] out n Hf Ht Hl; cbn [gcp_batches].
  1, 3: cbn in Hl; rewrite app_nil_r, <- Ht, firstn_all2; [done|lia].
  { cbn in Hf. lia. }
  set (l := c :: rest) in *. unfold mbind at 1, gom_bind. set (batch := take rankBatchSize l).
  assert (length batch <= rankBatchSize)%nat as Hb by (unfold batch; rewrite length_take; lia).
  assert (length batch + length (drop rankBatchSize l) = length l)%nat as Hsplit
    by (unfold batch; rewrite <- length_app, take_drop; done).
  pose proof (rankBatch_result past batch out n Hb Ht ltac:(lia)) as Hr.
  destruct (gcp_rankBatch _ _ _ _ _ _ _ _ _ _ _ _ _ _) as [n1 [out1|e|p]]; [|done..]. destruct Hr as [Hlen Hout].
  assert (length rest = fuel \/ length rest < fuel)%nat as Hfuel by (cbn in Hf; lia).
  destruct (decide (rankBatchSize <= length l)%nat) as [Hbig|Hsmall].
  - assert (length past + rankBatchSize = length (past ++ batch))%nat as ->.
    { rewrite length_app. unfold batch. rewrite length_take. lia. }
    specialize (IH (past ++ batch) (drop rankBatchSize l) out1 n1).
    rewrite <- app_assoc in IH. assert (batch ++ drop rankBatchSize l = l) as Hcut by apply take_drop.
    rewrite Hcut in IH. apply IH.
    + rewrite length_drop. unfold rankBatchSize. cbn in Hf |- *. lia.
    + by rewrite length_app.
    + rewrite Hlen, length_app. lia.
  - rewrite (drop_ge l) in * by lia. assert (batch = l) as -> by (unfold batch; rewrite take_ge by lia; done).
    destruct fuel; cbn [gcp_batches]; cbn; rewrite <- Hout, firstn_all2; try done; rewrite Hlen; lia.
Qed.

(** The ranking service's scores come back in the order of the candidates. *)
Lemma gcp_Score_pointwise candidates n : query <> "" ->
  match (gcp_Score Post ctx_err wait_err draw MarshalRank UnmarshalRecords model project location query candidates n).2 with
  | Ok l => l = f query <$> candidates
  | Err _ => True
  | Panic _ => False
  end.
Proof.
  intros Hq%String.eqb_neq. unfold gcp_Score. destruct candidates as [|c l]; [done|]. rewrite Hq.
  pose proof (gcp_batches_result (length (c :: l)) [] (c :: l) (replicate (length (c :: l)) f0) n ltac:(done) ltac:(done)
    ltac:(by rewrite length_replicate)) as Hr. cbn [length app] in Hr |- *.
  by destruct (gcp_batches _ _ _ _ _ _ _ _ _ _ _ _ _ _ _) as [n' [r|e|p]].
Qed.
End GcpScore.

Lemma read_logits_spec i data l : read_logits i data = Ok l ->
  Forall2 (fun probs score => exists logit rest, probs = logit :: rest /\ score = sigmoid logit) data l.
Proof.
  revert i l. induction data as [|[|logit rest] data IH]; intros i l; cbn [read_logits]; [by intros [= <-]|done|].
  unfold mbind, outcome_bind. destruct (read_logits _ _) as [scores| |] eqn:E; [|done..]. intros [= <-].
  constructor; [eauto|by eapply IH].
Qed.

(** One score per candidate, from the first logit of each answer. *)
Lemma zerank_Score_aligned MarshalClassify UnmarshalData baseURL model query candidates n l :
  (zerank_Score Post ctx_err wait_err draw MarshalClassify UnmarshalData baseURL model query candidates n).2 = Ok l ->
  length l = length candidates /\
  exists data, Forall2 (fun probs score => exists logit rest, probs = logit :: rest /\ score = sigmoid logit) data l.
Proof.
  unfold zerank_Score. destruct candidates as [|c cs]; [intros [= <-]; split; [done|by exists []]|].
  unfold mbind, gom_bind, gom_lift. destruct (MarshalClassify _) as [body|e]; cbn [or_err]; [|done].
  destruct (retried _ _ _ _ _ _) as [n' [data|e|p]]; [|done..].
  destruct (Nat.eqb_spec (length data) (length (c :: cs))) as [Hl|]; cbn [negb]; [|done].
  cbn [snd]. intros E%read_logits_spec. split; [|by exists data]. by rewrite <- Hl, (Forall2_length _ _ _ E).
Qed.
End Others.

(** ** A service that scores a text by its length *)
Module SampleRerank.
(** The body is the lengths in unary; the answers come back in reverse. *)
Fixpoint ones (n : nat) (s : string) : string := match n with O => s | S n => String "1"%char (ones n s) end.
Definition encode (texts : list string) : string := fold_right (fun t s => ones (slen t) (String "0"%char s)) "" texts.
Fixpoint decode (n : nat) (s : string) : list nat :=
  match s with
  | EmptyString => []
  | String c s' => if Ascii.eqb c "0"%char then n :: decode 0 s' else decode (S n) s'
  end.
Definition Marshal (r : rerankRequest) : string + goerr := inl (encode (rr_Texts r)).
Definition hit (i n : nat) : rerankHit := {| rh_Index := Z.of_nat i; rh_Score := f64_of_Z (Z.of_nat n) |}.
Definition Unmarshal (b : string) : list rerankHit + goerr := inl (rev (imap hit (decode 0 b))).
Definition Post (n : nat) (url body : string) : Exchange + goerr :=
  inl (inr {| StatusCode := 200; Body := body; ReadErr := None |}).
Definition score (query text : string) : float := f64_of_Z (Z.of_nat (slen text)).
Definition calm (n : nat) (k : Z) : option goerr := None.
Definition candidates : list string := (fun n => ones n "") <$> seq 0 40.

Lemma decode_ones m n s : decode n (ones m s) = decode (m + n) s.
Proof. revert n. induction m as [|m IH]; intros n; cbn; [done|]. rewrite IH. f_equal. lia. Qed.

Lemma decode_encode texts : decode 0 (encode texts) = slen <$> texts.
Proof. induction texts as [|t texts IH]; [done|]. unfold encode in *. cbn. rewrite decode_ones. cbn. rewrite Nat.add_0_r. by f_equal. Qed.

Lemma serves query : reranks Post Marshal Unmarshal "http://tei" score query.
Proof.
  intros n texts body b hits _ [= <-] [= <-] [= <-]. rewrite decode_encode. intros i t Ht.
  assert (forall h, h ∈ rev (imap hit (slen <$> texts)) <-> exists j t', texts !! j = Some t' /\ h = hit j (slen t')) as Hin.
  { intros h. rewrite list_elem_of_In, <- in_rev, <- list_elem_of_In, list_elem_of_lookup. split.
    - intros [j Hj]. rewrite list_lookup_imap, list_lookup_fmap in Hj. destruct (texts !! j) as [t'|] eqn:E; [|done].
      injection Hj as <-. by exists j, t'.
    - intros (j & t' & Hj & ->). exists j. by rewrite list_lookup_imap, list_lookup_fmap, Hj. }
  split.
  - exists (hit i (slen t)). split; [|done]. apply Hin. by exists i, t.
  - intros h (j & t' & Hj & ->)%Hin Hij. cbn in Hij. apply Nat2Z.inj in Hij as ->. rewrite Ht in Hj. by injection Hj as <-.
Qed.

Lemma up query : available Post calm Marshal Unmarshal "http://tei" query.
Proof. split; [done|]. intros n texts. eexists _, _, _. by repeat split. Qed.
End SampleRerank.

Lemma tei_Score_pointwise_witness :
  (tei_Score SampleRerank.Post SampleRerank.calm SampleRerank.calm (fun _ _ => fhalf) SampleRerank.Marshal
     SampleRerank.Unmarshal "http://tei" "why" SampleRerank.candidates 0%nat).2 =
    Ok (SampleRerank.score "why" <$> SampleRerank.candidates).
Proof.
  apply (tei_Score_pointwise SampleRerank.Post SampleRerank.calm SampleRerank.calm (fun _ _ => fhalf) SampleRerank.Marshal
    SampleRerank.Unmarshal "http://tei" SampleRerank.score "why" SampleRerank.candidates 0%nat (SampleRerank.serves "why")).
  apply SampleRerank.up.
Defined.

(** A service that leaves a candidate out is not noticed: it scores zero. *)
Example missing_hit_scores_zero :
  (tei_Score SampleRerank.Post SampleRerank.calm SampleRerank.calm (fun _ _ => fhalf) SampleRerank.Marshal
     (fun b => inl [SampleRerank.hit 1 7]) "http://tei" "why" ["a"; "b"] 0%nat).2 = Ok [f0; f64_of_Z 7].
Proof. vm_compute. reflexivity. Qed.

(** The calibration keeps a logit of 10 away from 1. *)
Example zerank_separates : flt (sigmoid (f64_of_Z 10)) f1 = true /\ flt (sigmoid (f64_of_Z 5)) (sigmoid (f64_of_Z 10)) = true.
Proof. vm_compute. done. Qed.
