(* ===== verification/Chatwire.v ===== *)
(** * Canonical chat messages ([core/adapter/internal/chatwire])

    The conversion of a corpus wire into the OpenAI-compatible chat shape that
    the ollama and openai adapters send: tool calls merge into one assistant
    message followed by their results, orphans and stranded thinking drop. *)

From Stdlib Require Import ZArith Lia String.
From S2P Require Import Prelude GoStrings Types.
#[local] Open Scope nat_scope.

Record ToolCall := { ID : string; Name : string; Arguments : string }.

Record Message := {
  cw_Role : string;
  cw_Text : string;
  cw_Thinking : string;
  cw_ToolCalls : list ToolCall;
  cw_ToolCallID : string
}.

Definition RoleString (r : Role) : string :=
  match r with
  | ROLE_USER => "user"
  | ROLE_ASSISTANT => "assistant"
  | ROLE_SYSTEM => "system"
  | ROLE_UNSPECIFIED => "user"
  end.

(** ** Phase 1: the atoms *)

Inductive atom :=
  | AText (role text thinking : string)
  | ACall (c : ToolCall)
  | AResult (r : ToolResultContent).

(** [""] arguments become ["{}"]. *)
Definition call_of (tc : ToolCallContent) : ToolCall :=
  {| ID := tc_Id tc; Name := tc_Name tc;
     Arguments := if String.eqb (tc_Arguments tc) "" then "{}" else tc_Arguments tc |}.

Definition message_atoms (m : LLMMessage) : list atom :=
  let textParts := tx_Text <$> omap GetText (lm_Content m) in
  let thinkParts := th_Text <$> omap GetThinking (lm_Content m) in
  let msgCalls := call_of <$> omap GetToolCall (lm_Content m) in
  let msgResults := omap GetToolResult (lm_Content m) in
  (if (0 <? length textParts) || (0 <? length thinkParts)
   then [AText (RoleString (lm_Role m)) (join nl textParts) (join nl thinkParts)] else []) ++
  (ACall <$> msgCalls) ++ (AResult <$> msgResults).

Definition atoms_of (msgs : list LLMMessage) : list atom := msgs ≫= message_atoms.

Definition as_call (a : atom) : option ToolCall := match a with ACall c => Some c | _ => None end.
Definition as_result (a : atom) : option ToolResultContent := match a with AResult r => Some r | _ => None end.

Definition resultIDs (atoms : list atom) : gset string :=
  list_to_set (tr_ToolCallId <$> omap as_result atoms).

(** ** Phase 2: the messages

    The loop over the atoms from index [i] on, with their [consumed] flags. *)

(** The consecutive unconsumed calls from here on: those with a result are
    kept, all are consumed. *)
Fixpoint collect (ids : gset string) (atoms : list atom) (consumed : list bool) : list ToolCall * list bool :=
  match atoms, consumed with
  | ACall c :: atoms', false :: consumed' =>
      let '(group, flags) := collect ids atoms' consumed' in
      (if bool_decide (ID c ∈ ids) then c :: group else group, true :: flags)
  | _, _ => ([], consumed)
  end.

Definition tool_message (r : ToolResultContent) : Message :=
  {| cw_Role := "tool"; cw_Text := tr_Content r; cw_Thinking := ""; cw_ToolCalls := []; cw_ToolCallID := tr_ToolCallId r |}.

(** The unconsumed results of the calls, from here on. *)
Fixpoint answer (callIDs : gset string) (atoms : list atom) (consumed : list bool) : list Message * list bool :=
  match atoms, consumed with
  | a :: atoms', c :: consumed' =>
      let '(out, flags) := answer callIDs atoms' consumed' in
      match a, c with
      | AResult r, false =>
          if bool_decide (tr_ToolCallId r ∈ callIDs) then (tool_message r :: out, true :: flags) else (out, false :: flags)
      | _, _ => (out, c :: flags)
      end
  | _, _ => ([], consumed)
  end.

Definition flushThinking (pending : list string) : string := join nl pending.

(** The thinking of a text, after what was buffered. *)
Definition merged_thinking (pending : list string) (thinking : string) : string :=
  let buf := flushThinking pending in
  if String.eqb buf "" then thinking
  else if String.eqb thinking "" then buf else buf ^^ nl ^^ thinking.

Fixpoint emit (ids : gset string) (atoms : list atom) (consumed : list bool) (pending : list string) : list Message :=
  match atoms, consumed with
  | _ :: atoms', true :: consumed' => emit ids atoms' consumed' pending
  | AText role text thinking :: atoms', false :: consumed' =>
      if String.eqb text "" then
        emit ids atoms' consumed' (if String.eqb thinking "" then pending else pending ++ [thinking])
      else
        {| cw_Role := role; cw_Text := text; cw_Thinking := merged_thinking pending thinking;
           cw_ToolCalls := []; cw_ToolCallID := "" |} :: emit ids atoms' consumed' []
  | ACall _ :: atoms', false :: _ =>
      let '(group, flags) := collect ids atoms consumed in
      match group with
      | [] => emit ids atoms' (tail flags) []
      | _ =>
          let '(results, flags) := answer (list_to_set (ID <$> group)) atoms' (tail flags) in
          {| cw_Role := "assistant"; cw_Text := ""; cw_Thinking := flushThinking pending;
             cw_ToolCalls := group; cw_ToolCallID := "" |} :: results ++ emit ids atoms' flags []
      end
  | AResult _ :: atoms', false :: consumed' => emit ids atoms' consumed' pending
  | _, _ => []
  end.

Definition Canonicalize (msgs : list LLMMessage) : list Message :=
  let atoms := atoms_of msgs in
  emit (resultIDs atoms) atoms (replicate (length atoms) false) [].

(** ** What is left to send

    The atoms from some index on that no earlier message has consumed. *)

Definition as_text (a : atom) : option (string * string) :=
  match a with AText role text _ => Some (role, text) | _ => None end.

Fixpoint still {B} (f : atom -> option B) (atoms : list atom) (consumed : list bool) : list B :=
  match atoms, consumed with
  | a :: atoms', c :: consumed' =>
      let rest := still f atoms' consumed' in
      if c then rest else match f a with Some x => x :: rest | None => rest end
  | _, _ => []
  end.

Lemma still_fresh {B} (f : atom -> option B) atoms : still f atoms (replicate (length atoms) false) = omap f atoms.
Proof. induction atoms as [|a l IH]; [done|]. cbn. destruct (f a); by rewrite IH. Qed.

Definition kept (ids : gset string) (c : ToolCall) : Prop := ID c ∈ ids.
#[local] Instance kept_dec ids c : Decision (kept ids c).
Proof. unfold kept. apply _. Defined.

Lemma collect_spec ids atoms consumed group flags :
  length consumed = length atoms -> collect ids atoms consumed = (group, flags) ->
  length flags = length atoms /\
  (exists run, still as_call atoms consumed = run ++ still as_call atoms flags /\ group = filter (kept ids) run) /\
  still as_text atoms flags = still as_text atoms consumed /\
  still as_result atoms flags = still as_result atoms consumed.
Proof.
  revert consumed group flags. induction atoms as [|a l IH]; intros [|c consumed] group flags Hl; try done.
  { intros [= <- <-]. split; [done|]. split; [by exists []|done]. }
  injection Hl as Hl. assert (forall a, ([], c :: consumed) = (group, flags) -> length flags = length (a :: l) /\
    (exists run, still as_call (a :: l) (c :: consumed) = run ++ still as_call (a :: l) flags /\ group = filter (kept ids) run) /\
    still as_text (a :: l) flags = still as_text (a :: l) (c :: consumed) /\
    still as_result (a :: l) flags = still as_result (a :: l) (c :: consumed)) as Hstop.
  { intros x [= <- <-]. split; [simpl; by rewrite Hl|]. split; [by exists []|done]. }
  destruct a as [| d |]; [apply Hstop| |apply Hstop]. destruct c; [apply Hstop|]. cbn [collect].
  destruct (collect ids l consumed) as [g fl] eqn:E. destruct (IH _ _ _ Hl E) as (Hlen & (run & Hc & ->) & Ht & Hr).
  intros [= <- <-]. split; [simpl; by rewrite Hlen|]. split; [|done]. exists (d :: run). cbn [still as_call].
  rewrite Hc. split; [done|]. rewrite filter_cons. unfold kept at 3. case_bool_decide.
  - by rewrite decide_True.
  - by rewrite decide_False.
Qed.

Definition answers_to (S : gset string) (r : ToolResultContent) : Prop := tr_ToolCallId r ∈ S.
#[local] Instance answers_to_dec S r : Decision (answers_to S r).
Proof. unfold answers_to. apply _. Defined.

Lemma answer_spec S atoms consumed out flags :
  length consumed = length atoms -> answer S atoms consumed = (out, flags) ->
  length flags = length atoms /\
  out = tool_message <$> filter (answers_to S) (still as_result atoms consumed) /\
  still as_result atoms flags = filter (fun r => ~ answers_to S r) (still as_result atoms consumed) /\
  still as_text atoms flags = still as_text atoms consumed /\
  still as_call atoms flags = still as_call atoms consumed.
Proof.
  revert consumed out flags. induction atoms as [|a l IH]; intros [|c consumed] out flags Hl; try done.
  { intros [= <- <-]. done. }
  injection Hl as Hl. cbn [answer]. destruct (answer S l consumed) as [o fl] eqn:E.
  destruct (IH _ _ _ Hl E) as (Hlen & Ho & Hr & Ht & Hc).
  destruct a as [| |r], c; try (intros [= <- <-]; cbn; by rewrite ?Hlen, ?Hr, ?Ht, ?Hc, ?Ho).
  case_bool_decide as Hin; intros [= <- <-]; cbn [still as_call as_result as_text length]; rewrite !filter_cons.
  - rewrite (decide_True (P := answers_to S r)), (decide_False (P := ~ answers_to S r)) by (unfold answers_to; tauto).
    by rewrite Hlen, Ho.
  - rewrite (decide_False (P := answers_to S r)), (decide_True (P := ~ answers_to S r)) by done. by rewrite Hlen, Ho, Hr.
Qed.

(** ** The shape of the output *)

Definition plain (m : Message) : Prop :=
  cw_Role m <> "tool" /\ cw_Text m <> "" /\ cw_ToolCalls m = [] /\ cw_ToolCallID m = "".
Definition invoking (m : Message) : Prop :=
  cw_Role m = "assistant" /\ cw_Text m = "" /\ cw_ToolCalls m <> [] /\ cw_ToolCallID m = "".
Definition responding (m r : Message) : Prop :=
  cw_Role r = "tool" /\ cw_ToolCalls r = [] /\ cw_ToolCallID r ∈ ID <$> cw_ToolCalls m.

(** Texts, and assistant messages with calls directly followed by results of
    those calls that satisfy [P]. *)
Inductive shaped (P : Message -> list Message -> Prop) : list Message -> Prop :=
  | shaped_nil : shaped P []
  | shaped_text m out : plain m -> shaped P out -> shaped P (m :: out)
  | shaped_calls m rs out : invoking m -> Forall (responding m) rs -> P m rs -> shaped P out -> shaped P (m :: rs ++ out).

Definition sent_text (m : Message) : option (string * string) :=
  if bool_decide (cw_ToolCalls m = [] /\ cw_Role m <> "tool") then Some (cw_Role m, cw_Text m) else None.

Definition nonempty_text (p : string * string) : Prop := p.2 <> "".
#[local] Instance nonempty_text_dec p : Decision (nonempty_text p).
Proof. unfold nonempty_text. apply _. Defined.

Lemma responses_spec m S rs :
  list_to_set (ID <$> cw_ToolCalls m) = S ->
  Forall (responding m) (tool_message <$> filter (answers_to S) rs) /\
  omap sent_text (tool_message <$> filter (answers_to S) rs) = [] /\
  (tool_message <$> filter (answers_to S) rs) ≫= cw_ToolCalls = [].
Proof.
  intros <-. split; [|induction rs as [|r l [IH1 IH2]]; [done|]; rewrite filter_cons; by case_decide].
  apply Forall_fmap, Forall_forall. intros r [Hr _]%list_elem_of_filter. unfold responding. simpl.
  split; [done|]. split; [done|]. by apply elem_of_list_to_set in Hr.
Qed.

(** Every open call that has a result has an open one after it. *)
Fixpoint answered (ids : gset string) (atoms : list atom) (consumed : list bool) : Prop :=
  match atoms, consumed with
  | a :: atoms', c :: consumed' =>
      (if c then True
       else match a with
            | ACall d => kept ids d -> ID d ∈ tr_ToolCallId <$> still as_result atoms' consumed'
            | _ => True
            end) /\ answered ids atoms' consumed'
  | _, _ => True
  end.

Record open_pairing (ids : gset string) (atoms : list atom) (consumed : list bool) : Prop := {
  op_calls : NoDup (ID <$> still as_call atoms consumed);
  op_results : NoDup (tr_ToolCallId <$> still as_result atoms consumed);
  op_answered : answered ids atoms consumed
}.

Lemma open_pairing_tail ids a atoms c consumed :
  open_pairing ids (a :: atoms) (c :: consumed) -> open_pairing ids atoms consumed.
Proof.
  intros [Hc Hr [_ Ha]]. split; [| |exact Ha].
  - cbn in Hc. destruct c; [done|]. destruct (as_call a); [|done]. by apply NoDup_cons in Hc as [_ ?].
  - cbn in Hr. destruct c; [done|]. destruct (as_result a); [|done]. by apply NoDup_cons in Hr as [_ ?].
Qed.

Lemma collect_answered ids atoms consumed group flags :
  length consumed = length atoms -> collect ids atoms consumed = (group, flags) -> answered ids atoms consumed ->
  answered ids atoms flags /\ forall c, c ∈ group -> ID c ∈ tr_ToolCallId <$> still as_result atoms flags.
Proof.
  revert consumed group flags. induction atoms as [|a l IH]; intros [|b consumed] group flags Hl; try done.
  { intros [= <- <-] _. split; [done|]. by intros c ?%not_elem_of_nil. }
  injection Hl as Hl. assert (forall x, ([], b :: consumed) = (group, flags) -> answered ids (x :: l) (b :: consumed) ->
    answered ids (x :: l) flags /\ forall c, c ∈ group -> ID c ∈ tr_ToolCallId <$> still as_result (x :: l) flags) as Hstop.
  { intros x [= <- <-] Ha. split; [exact Ha|]. by intros c ?%not_elem_of_nil. }
  destruct a as [| d |]; [apply Hstop| |apply Hstop]. destruct b; [apply Hstop|]. cbn [collect].
  destruct (collect ids l consumed) as [g fl] eqn:E. intros [= <- <-] [Hd Ha].
  destruct (IH _ _ _ Hl E Ha) as [Ha' Hg]. split; [by split|]. cbn [still].
  destruct (collect_spec _ _ _ _ _ Hl E) as (_ & _ & _ & Hr). intros c Hc. rewrite Hr in *.
  case_bool_decide; [|by apply Hg]. apply elem_of_cons in Hc as [->|Hc]; [by apply Hd|by apply Hg].
Qed.

Lemma answer_answered ids S atoms consumed out flags :
  length consumed = length atoms -> answer S atoms consumed = (out, flags) -> answered ids atoms consumed ->
  (forall c, c ∈ still as_call atoms consumed -> ID c ∉ S) -> answered ids atoms flags.
Proof.
  revert consumed out flags. induction atoms as [|a l IH]; intros [|b consumed] out flags Hl E Ha Hc; try done.
  injection Hl as Hl. cbn [answer] in E. destruct (answer S l consumed) as [o fl] eqn:El. destruct Ha as [Hh Ha].
  destruct (answer_spec _ _ _ _ _ Hl El) as (_ & _ & Hr & _).
  assert (answered ids l fl) as Hfl.
  { eapply IH; [exact Hl|exact El|exact Ha|]. intros c Hin. apply Hc. cbn. destruct b; [done|].
    destruct (as_call a); [by right|done]. }
  destruct a as [| d |r], b; try (injection E as <- <-; by split).
  - injection E as <- <-. split; [|done]. intros Hk. rewrite Hr. specialize (Hh Hk).
    apply list_elem_of_fmap in Hh as (r & Er & Hin). apply list_elem_of_fmap. exists r. split; [done|].
    apply list_elem_of_filter. split; [|done]. unfold answers_to. rewrite <- Er. apply Hc. left.
  - case_bool_decide; injection E as <- <-; by split.
Qed.

Lemma NoDup_filter_fmap {A} (f : A -> string) (P : A -> Prop) `{forall x, Decision (P x)} l :
  NoDup (f <$> l) -> NoDup (f <$> filter P l).
Proof. intros Hn. eapply sublist_NoDup; [exact Hn|]. apply fmap_sublist, sublist_filter. Qed.

(** A group of calls and what answers it. *)
Lemma group_answered ids atoms consumed group flags out flags' :
  length consumed = length atoms -> open_pairing ids atoms consumed -> collect ids atoms consumed = (group, flags) ->
  answer (list_to_set (ID <$> group)) atoms flags = (out, flags') ->
  cw_ToolCallID <$> out ≡ₚ ID <$> group /\ open_pairing ids atoms flags'.
Proof.
  intros Hl [Hc Hr Ha] Ec Eo. destruct (collect_spec _ _ _ _ _ Hl Ec) as (Hlf & (run & Hrun & Hg) & _ & Hrf).
  destruct (collect_answered _ _ _ _ _ Hl Ec Ha) as [Haf Hin].
  destruct (answer_spec _ _ _ _ _ Hlf Eo) as (Hlo & -> & Hro & _ & Hco). rewrite Hrf in *.
  rewrite Hrun, fmap_app in Hc. apply NoDup_app in Hc as (Hn1 & Hdis & Hn2).
  assert (forall c, c ∈ still as_call atoms flags -> ID c ∉ (list_to_set (ID <$> group) : gset string)) as Hout.
  { intros c Hcin Hx. apply elem_of_list_to_set, list_elem_of_fmap in Hx as (d & Ed & Hd). subst group.
    apply list_elem_of_filter in Hd as [_ Hd]. apply (Hdis (ID c)); apply list_elem_of_fmap; eauto. }
  split.
  - rewrite <- list_fmap_compose. change (cw_ToolCallID ∘ tool_message) with tr_ToolCallId.
    apply NoDup_Permutation; [by apply NoDup_filter_fmap|subst group; by apply NoDup_filter_fmap|]. intros x. split.
    + intros (r & -> & [Hx _]%list_elem_of_filter)%list_elem_of_fmap. by apply elem_of_list_to_set in Hx.
    + intros Hx. pose proof Hx as (c & -> & Hcin)%list_elem_of_fmap. apply Hin in Hcin.
      apply list_elem_of_fmap in Hcin as (r & Er & Hrin). apply list_elem_of_fmap. exists r. split; [done|].
      apply list_elem_of_filter. split; [|done]. unfold answers_to. rewrite <- Er. by apply elem_of_list_to_set.
  - split; [by rewrite Hco|rewrite Hro; by apply NoDup_filter_fmap|].
    eapply answer_answered; [exact Hlf|exact Eo|exact Haf|exact Hout].
Qed.

Lemma collect_pairing ids atoms consumed group flags :
  length consumed = length atoms -> open_pairing ids atoms consumed -> collect ids atoms consumed = (group, flags) ->
  open_pairing ids atoms flags.
Proof.
  intros Hl [Hc Hr Ha] Ec. destruct (collect_spec _ _ _ _ _ Hl Ec) as (_ & (run & Hrun & _) & _ & Hrf).
  rewrite Hrun, fmap_app in Hc. apply NoDup_app in Hc as (_ & _ & Hn2).
  split; [done|by rewrite Hrf|by eapply collect_answered].
Qed.

Definition balanced (paired : Prop) (m : Message) (rs : list Message) : Prop :=
  paired -> cw_ToolCallID <$> rs ≡ₚ ID <$> cw_ToolCalls m.

Definition emitted (paired : Prop) (ids : gset string) (atoms : list atom) (consumed : list bool) (out : list Message) : Prop :=
  shaped (balanced paired) out /\
  (out ≫= cw_ToolCalls) = filter (kept ids) (still as_call atoms consumed) /\
  omap sent_text out = filter nonempty_text (still as_text atoms consumed).

(** A group of calls, its results, and what follows. *)
Lemma emitted_calls paired ids l fl thinking group rs flags' out :
  group <> [] -> length fl = length l -> answer (list_to_set (ID <$> group)) l fl = (rs, flags') ->
  (paired -> cw_ToolCallID <$> rs ≡ₚ ID <$> group) -> emitted paired ids l flags' out ->
  let m := {| cw_Role := "assistant"; cw_Text := ""; cw_Thinking := thinking; cw_ToolCalls := group; cw_ToolCallID := "" |} in
  shaped (balanced paired) (m :: rs ++ out) /\
  ((m :: rs ++ out) ≫= cw_ToolCalls) = group ++ filter (kept ids) (still as_call l fl) /\
  omap sent_text (m :: rs ++ out) = filter nonempty_text (still as_text l fl).
Proof.
  intros Hne Hl Ea Hbal (H1 & H2 & H3) m. destruct (answer_spec _ _ _ _ _ Hl Ea) as (_ & -> & _ & Ht & Hc).
  destruct (responses_spec m (list_to_set (ID <$> group)) (still as_result l fl) eq_refl) as (Hr1 & Hr2 & Hr3).
  split; [|split].
  - apply shaped_calls; [by repeat split|exact Hr1|exact Hbal|exact H1].
  - rewrite bind_cons, bind_app, Hr3, H2, Hc. done.
  - assert (sent_text m = None) as Hm.
    { unfold sent_text. rewrite bool_decide_eq_false_2; [done|]. intros [Hx _]. by apply Hne. }
    cbn [omap list_omap]. rewrite Hm. change (omap sent_text ((tool_message <$> filter (answers_to (list_to_set (ID <$> group))) (still as_result l fl)) ++ out) =
            filter nonempty_text (still as_text l fl)). by rewrite omap_app, Hr2, H3, Ht.
Qed.

Lemma emit_spec paired ids atoms consumed pending :
  length consumed = length atoms -> (forall p, p ∈ still as_text atoms consumed -> p.1 <> "tool") ->
  (paired -> open_pairing ids atoms consumed) -> emitted paired ids atoms consumed (emit ids atoms consumed pending).
Proof.
  revert consumed pending. induction atoms as [|a l IH]; intros [|b consumed] pending Hl Ht Hp; try done.
  { split; [constructor|done]. }
  injection Hl as Hl. assert (paired -> open_pairing ids l consumed) as Hp' by (intros; by eapply open_pairing_tail, Hp).
  destruct b; [destruct a; by apply IH|]. destruct a as [role text th|d|r].
  - assert (forall p, p ∈ still as_text l consumed -> p.1 <> "tool") as Ht' by (intros p Hin; apply Ht; by right).
    cbn [emit]. destruct (String.eqb_spec text "") as [->|Hne].
    + destruct (IH consumed (if String.eqb th "" then pending else pending ++ [th]) Hl Ht' Hp') as (H1 & H2 & H3).
      split; [done|]. split; [done|]. cbn [still as_text]. rewrite filter_cons, decide_False by (intros Hx; by apply Hx). done.
    + destruct (IH consumed [] Hl Ht' Hp') as (H1 & H2 & H3). assert (role <> "tool") as Hrole by (apply (Ht (role, text)); left).
      split; [by constructor|]. split; [done|]. cbn [still as_text]. rewrite filter_cons, decide_True by done.
      cbn. unfold sent_text at 1. rewrite bool_decide_eq_true_2 by done. by rewrite <- H3.
  - cbn [emit]. destruct (collect ids (ACall d :: l) (false :: consumed)) as [group flags] eqn:Ec.
    destruct (collect_spec ids (ACall d :: l) (false :: consumed) _ _ ltac:(simpl; by rewrite Hl) Ec)
      as (Hlf & (run & Hrun & Hg) & Htf & Hrf).
    pose proof Ec as Ec'. cbn [collect] in Ec. destruct (collect ids l consumed) as [g0 fl] eqn:Ec0.
    injection Ec as _ <-. injection Hlf as Hlf. cbn [tail]. cbn [still as_text] in Htf.
    assert (paired -> open_pairing ids l fl) as Hpf.
    { intros Hpd. eapply open_pairing_tail, (collect_pairing ids (ACall d :: l) (false :: consumed) group (true :: fl) ltac:(simpl; by rewrite Hl) (Hp Hpd) Ec'). }
    assert (forall p, p ∈ still as_text l fl -> p.1 <> "tool") as Ht' by (intros p; rewrite Htf; apply Ht).
    assert (filter (kept ids) (still as_call (ACall d :: l) (false :: consumed)) = group ++ filter (kept ids) (still as_call l fl)) as Hcalls.
    { rewrite Hrun, filter_app, <- Hg. done. }
    destruct group as [|c0 group0] eqn:Egroup.
    + destruct (IH fl [] Hlf Ht' Hpf) as (H1 & H2 & H3). split; [done|]. split; [by rewrite Hcalls|].
      cbn [still as_text]. by rewrite <- Htf.
    + rewrite <- Egroup in *. destruct (answer (list_to_set (ID <$> group)) l fl) as [rs flags'] eqn:Ea.
      assert (answer (list_to_set (ID <$> group)) (ACall d :: l) (true :: fl) = (rs, true :: flags')) as Ea'
        by (cbn [answer]; by rewrite Ea).
      assert (paired -> cw_ToolCallID <$> rs ≡ₚ ID <$> group /\ open_pairing ids l flags') as Hpair.
      { intros Hpd. destruct (group_answered ids (ACall d :: l) (false :: consumed) group (true :: fl) rs (true :: flags')
          ltac:(simpl; by rewrite Hl) (Hp Hpd) Ec' Ea') as [? Hop]. split; [done|]. by eapply open_pairing_tail. }
      destruct (answer_spec _ _ _ _ _ Hlf Ea) as (Hlo & _ & _ & Hto & _).
      destruct (emitted_calls paired ids l fl (flushThinking pending) group rs flags' (emit ids l flags' []))
        as (H1 & H2 & H3); [by rewrite Egroup|done|done|by intros ?; apply Hpair| |].
      { apply IH; [done| |by intros ?; apply Hpair]. intros p. rewrite Hto. apply Ht'. }
      unfold emitted. rewrite Hcalls. cbn [still as_text]. rewrite <- Htf. done.
  - cbn [emit]. by apply IH.
Qed.

(** ** Correctness *)

(** Tool-call and result ids are unique and no result precedes its call. *)
Definition well_paired (atoms : list atom) : Prop :=
  NoDup (ID <$> omap as_call atoms) /\ NoDup (tr_ToolCallId <$> omap as_result atoms) /\
  forall i j c r, atoms !! i = Some (ACall c) -> atoms !! j = Some (AResult r) -> ID c = tr_ToolCallId r -> i < j.

Lemma well_paired_answered pre l :
  well_paired (pre ++ l) -> answered (resultIDs (pre ++ l)) l (replicate (length l) false).
Proof.
  revert pre. induction l as [|a l IH]; intros pre Hw; [done|]. split.
  - destruct a as [|c|]; try done. intros Hk. rewrite still_fresh. unfold kept, resultIDs in Hk.
    apply elem_of_list_to_set, list_elem_of_fmap in Hk as (r & Er & Hr). apply list_elem_of_fmap. exists r. split; [done|].
    apply list_elem_of_omap in Hr as (x & Hx & Exr). destruct x as [| |r']; [done..|]. injection Exr as ->.
    apply list_elem_of_lookup in Hx as (j & Hj). destruct Hw as (_ & _ & Hord).
    assert (length pre < j) as Hlt.
    { eapply Hord; [|exact Hj|exact Er]. by rewrite lookup_app_r, Nat.sub_diag. }
    rewrite lookup_app_r in Hj by lia. destruct (j - length pre) as [|k] eqn:Ek; [lia|]. simpl in Hj.
    apply list_elem_of_omap. exists (AResult r). split; [by eapply list_elem_of_lookup_2|done].
  - specialize (IH (pre ++ [a])). rewrite <- app_assoc in IH. by apply IH.
Qed.

Lemma well_paired_open atoms :
  well_paired atoms -> open_pairing (resultIDs atoms) atoms (replicate (length atoms) false).
Proof.
  intros Hw. pose proof Hw as (Hc & Hr & _). split; [by rewrite still_fresh..|]. exact (well_paired_answered [] atoms Hw).
Qed.

Lemma atoms_roles msgs p : p ∈ omap as_text (atoms_of msgs) -> p.1 <> "tool".
Proof.
  intros (a & (m & Ha & _)%list_elem_of_bind & Ep)%list_elem_of_omap. destruct a as [role t th| |]; [|done..].
  injection Ep as <-. simpl. unfold message_atoms in Ha.
  apply elem_of_app in Ha as [Ha|[(c & [=] & _)%list_elem_of_fmap|(c & [=] & _)%list_elem_of_fmap]%elem_of_app].
  destruct (_ || _); [|by apply not_elem_of_nil in Ha]. apply list_elem_of_singleton in Ha.
  injection Ha as -> _ _. by destruct (lm_Role m).
Qed.

(** C19: the canonical chat of a wire.  Whatever the input, the output is a
    sequence of texts and of assistant messages with tool calls, each directly
    followed by results of its own calls only; nothing consists of thinking
    alone; every non-empty text is sent, in order, and so is, in order, every
    call that has a result somewhere in the input, and no other call.  When ids
    are unique and no result precedes its call, each group of calls is answered
    by exactly one result per call, which is what the chat protocol demands. *)
Theorem Canonicalize_wire (msgs : list LLMMessage) :
  let atoms := atoms_of msgs in
  let out := Canonicalize msgs in
  shaped (balanced (well_paired atoms)) out /\
  (out ≫= cw_ToolCalls) = filter (kept (resultIDs atoms)) (omap as_call atoms) /\
  omap sent_text out = filter nonempty_text (omap as_text atoms).
Proof.
  intros atoms out.
  destruct (emit_spec (well_paired atoms) (resultIDs atoms) atoms (replicate (length atoms) false) []) as (H1 & H2 & H3).
  - by rewrite length_replicate.
  - intros p. rewrite still_fresh. apply atoms_roles.
  - apply well_paired_open.
  - unfold out, Canonicalize. fold atoms. rewrite H2, H3, !still_fresh. done.
Qed.

(** ** Small wires *)

Module SampleWire.
Definition call (id : string) : ContentBlock :=
  BToolCall {| tc_Id := id; tc_Name := "read"; tc_Arguments := ""; tc_Signature := "" |}.
Definition result (id text : string) : ContentBlock :=
  BToolResult {| tr_ToolCallId := id; tr_Content := text; tr_IsError := false |}.
Definition text (s : string) : ContentBlock := BText {| tx_Text := s |}.
Definition thinking (s : string) : ContentBlock := BThinking {| th_Text := s; th_Signature := "" |}.
Definition msg (r : Role) (bs : list ContentBlock) : LLMMessage := {| lm_Role := r; lm_Content := bs |}.

Definition turn : list LLMMessage :=
  [msg ROLE_USER [text "hi"]; msg ROLE_ASSISTANT [thinking "look"; call "a"]; msg ROLE_ASSISTANT [call "b"; call "lost"];
   msg ROLE_USER [result "b" "2"; result "a" "1"]; msg ROLE_ASSISTANT [text "done"]].

Example turn_chat :
  (fun m => (cw_Role m, cw_Text m, cw_Thinking m, ID <$> cw_ToolCalls m, cw_ToolCallID m)) <$> Canonicalize turn =
  [("user", "hi", "", [], ""); ("assistant", "", "look", ["a"; "b"], ""); ("tool", "2", "", [], "b");
   ("tool", "1", "", [], "a"); ("assistant", "done", "", [], "")].
Proof. vm_compute. reflexivity. Qed.

(** A result that precedes its call keeps the call but does not answer it. *)
Example early_result :
  (fun m => (cw_Role m, ID <$> cw_ToolCalls m)) <$>
    Canonicalize [msg ROLE_USER [result "a" "1"]; msg ROLE_ASSISTANT [call "a"]] = [("assistant", ["a"])].
Proof. vm_compute. reflexivity. Qed.

(** Thinking before an orphan result is not dropped: it joins the next text. *)
Example stranded_thinking :
  (fun m => (cw_Role m, cw_Text m, cw_Thinking m)) <$>
    Canonicalize [msg ROLE_ASSISTANT [thinking "hm"]; msg ROLE_USER [result "x" "1"]; msg ROLE_USER [text "next"]] =
  [("user", "next", "hm")].
Proof. vm_compute. reflexivity. Qed.
End SampleWire.
