(* ===== verification/Anthropic.v ===== *)
(** * The Anthropic adapter ([core/adapter/anthropic])

    The request codec, the response codec and the streaming state machine over
    server-sent events.  [encoding/json] is a pair of functions: what
    [json.Marshal] makes of a request, and what [json.Unmarshal] makes of a
    text. *)

From Stdlib Require Import ZArith Lia String.
From S2P Require Import Prelude GoStrings Errors Types Llm Httpc.
#[local] Open Scope nat_scope.

(** ** Wire types *)

Record apiTool := { at_Name : string; at_Description : string; at_InputSchema : string }.
Record apiToolChoice := { ac_Type : string; ac_Name : string }.
Record apiThinking := { ak_Type : string; ak_Display : string }.

Record apiContentPart := {
  ap_Type : string;
  ap_Text : string;
  ap_Thinking : string;
  ap_Signature : string;
  ap_ID : string;
  ap_Name : string;
  ap_Input : string;
  ap_ToolID : string;
  ap_Content : string;
  ap_IsError : bool
}.

Record apiMessage := { am_Role : string; am_Content : list apiContentPart }.

Record messagesRequest := {
  mr_Model : string;
  mr_Messages : list apiMessage;
  mr_MaxTokens : Z;
  mr_System : string;
  mr_Stream : bool;
  mr_Tools : list apiTool;
  mr_ToolChoice : option apiToolChoice;
  mr_Thinking : option apiThinking
}.

Record apiUsage := { InputTokens : Z; OutputTokens : Z; CacheCreationInputTokens : Z; CacheReadInputTokens : Z }.

Definition promptTotal (u : apiUsage) : Z :=
  wrapi32 (wrapi32 (InputTokens u + CacheCreationInputTokens u) + CacheReadInputTokens u).

Record messagesResponse := {
  ms_ID : string;
  ms_Content : list apiContentPart;
  ms_Model : string;
  ms_Usage : apiUsage;
  ms_StopReason : string
}.

(** ** Helpers *)

Definition normalizeStopReason (reason : string) : string :=
  if String.eqb reason "end_turn" || String.eqb reason "stop_sequence" then "stop"
  else if String.eqb reason "max_tokens" then "length"
  else if String.eqb reason "tool_use" then "tool_calls"
  else if String.eqb reason "refusal" then "content_filter"
  else reason.

Definition roleStr (r : Role) : string :=
  match r with ROLE_USER => "user" | ROLE_ASSISTANT => "assistant" | _ => "user" end.

Definition textFromBlocks (blocks : list ContentBlock) : string :=
  fold_left (fun s b => match GetText b with Some t => s ^^ tx_Text t | None => s end) blocks "".

Definition thinkingCapable (model : string) : bool :=
  existsb (String.eqb model)
    ["claude-fable-5"; "claude-mythos-5"; "claude-opus-4-8"; "claude-opus-4-7"; "claude-opus-4-6";
     "claude-sonnet-5"; "claude-sonnet-4-6"].

Definition object_schema : string := "{" ^^ quoted "type" ^^ ":" ^^ quoted "object" ^^ "}".

Definition toAPITools (tools : list ToolDeclaration) : list apiTool :=
  (fun t => {| at_Name := td_Name t; at_Description := td_Description t;
               at_InputSchema := if slen (td_ParametersJson t) =? 0 then object_schema else td_ParametersJson t |}) <$> tools.

Definition toAPIToolChoice (tc : option ToolChoice) : outcome (option apiToolChoice) :=
  match tc with
  | None => Ok None
  | Some c =>
      match tch_Mode c with
      | TOOL_CHOICE_MODE_UNSPECIFIED => Ok None
      | TOOL_CHOICE_MODE_AUTO => Ok (Some {| ac_Type := "auto"; ac_Name := "" |})
      | TOOL_CHOICE_MODE_NONE => Ok (Some {| ac_Type := "none"; ac_Name := "" |})
      | TOOL_CHOICE_MODE_REQUIRED => Ok (Some {| ac_Type := "any"; ac_Name := "" |})
      | TOOL_CHOICE_MODE_NAMED =>
          if String.eqb (tch_NamedTool c) ""
          then Err (ENew "anthropic: tool_choice NAMED requires a non-empty named_tool")
          else Ok (Some {| ac_Type := "tool"; ac_Name := tch_NamedTool c |})
      end
  end.

Definition block_part (b : ContentBlock) : option apiContentPart :=
  match b with
  | BText t =>
      Some {| ap_Type := "text"; ap_Text := tx_Text t; ap_Thinking := ""; ap_Signature := ""; ap_ID := ""; ap_Name := "";
              ap_Input := ""; ap_ToolID := ""; ap_Content := ""; ap_IsError := false |}
  | BThinking t =>
      if slen (th_Signature t) =? 0 then None
      else Some {| ap_Type := "thinking"; ap_Text := ""; ap_Thinking := th_Text t; ap_Signature := th_Signature t; ap_ID := "";
                   ap_Name := ""; ap_Input := ""; ap_ToolID := ""; ap_Content := ""; ap_IsError := false |}
  | BToolCall c =>
      Some {| ap_Type := "tool_use"; ap_Text := ""; ap_Thinking := ""; ap_Signature := ""; ap_ID := tc_Id c; ap_Name := tc_Name c;
              ap_Input := default_args (tc_Arguments c); ap_ToolID := ""; ap_Content := ""; ap_IsError := false |}
  | BToolResult r =>
      Some {| ap_Type := "tool_result"; ap_Text := ""; ap_Thinking := ""; ap_Signature := ""; ap_ID := ""; ap_Name := "";
              ap_Input := ""; ap_ToolID := tr_ToolCallId r; ap_Content := tr_Content r; ap_IsError := tr_IsError r |}
  | _ => None
  end.

Definition toAPIContent (blocks : list ContentBlock) : list apiContentPart := omap block_part blocks.

Definition part_block (p : apiContentPart) : option ContentBlock :=
  if String.eqb (ap_Type p) "text" then Some (BText {| tx_Text := ap_Text p |})
  else if String.eqb (ap_Type p) "thinking" then
    Some (BThinking {| th_Text := ap_Thinking p; th_Signature := ap_Signature p |})
  else if String.eqb (ap_Type p) "tool_use" then
    Some (BToolCall {| tc_Id := ap_ID p; tc_Name := ap_Name p; tc_Arguments := default_args (ap_Input p); tc_Signature := "" |})
  else None.

Definition fromAPIContent (parts : list apiContentPart) : list ContentBlock := omap part_block parts.

(** The last system message wins. *)
Definition add_message (acc : string * list apiMessage) (m : LLMMessage) : string * list apiMessage :=
  match lm_Role m with
  | ROLE_SYSTEM => (textFromBlocks (lm_Content m), acc.2)
  | r => (acc.1, acc.2 ++ [{| am_Role := roleStr r; am_Content := toAPIContent (lm_Content m) |}])
  end.

Definition toAPIRequest (model : string) (req : CompletionRequest) (stream : bool) : outcome messagesRequest :=
  let '(system, msgs) := fold_left add_message (cq_Messages req) ("", []) in
  toolChoice ← toAPIToolChoice (cq_ToolChoice req);
  mret {| mr_Model := model; mr_Messages := msgs;
          mr_MaxTokens := default (if stream then 64000 else 16000)%Z (cq_MaxTokens req);
          mr_System := system; mr_Stream := stream; mr_Tools := toAPITools (cq_Tools req); mr_ToolChoice := toolChoice;
          mr_Thinking := if thinkingCapable model then Some {| ak_Type := "adaptive"; ak_Display := "summarized" |} else None |}.

(** ** Events *)

Record sseContentBlock := { sb_Type : string; sb_ID : string; sb_Name : string }.
Record sseDelta := {
  sd_Type : string;
  sd_Text : string;
  sd_Thinking : string;
  sd_PartialJSON : string;
  sd_Signature : string;
  sd_StopReason : string
}.
Record sseEvent := {
  se_Type : string;
  se_Index : Z;
  se_ContentBlock : option sseContentBlock;
  se_Delta : sseDelta;
  se_Usage : apiUsage;
  se_Error : string;
  se_MessageUsage : apiUsage
}.

Record blockState := { bs_kind : string; bs_id : string; bs_name : string; bs_args : string; bs_signature : string }.

Record streamState := { ss_blocks : gmap Z blockState; ss_promptTokens : Z }.

Definition with_blocks (m : gmap Z blockState) (st : streamState) : streamState :=
  {| ss_blocks := m; ss_promptTokens := ss_promptTokens st |}.

(** [content_block_delta]: the yielded chunk and the block's new state. *)
Definition append_args (s : string) (b : blockState) : blockState :=
  {| bs_kind := bs_kind b; bs_id := bs_id b; bs_name := bs_name b; bs_args := bs_args b ^^ s; bs_signature := bs_signature b |}.
Definition set_signature (s : string) (b : blockState) : blockState :=
  {| bs_kind := bs_kind b; bs_id := bs_id b; bs_name := bs_name b; bs_args := bs_args b; bs_signature := s |}.

Definition on_delta (ev : sseEvent) (st : streamState) : list StreamChunk * streamState :=
  let d := se_Delta ev in
  if String.eqb (sd_Type d) "text_delta" then ([delta_chunk (DText {| tx_Text := sd_Text d |})], st)
  else if String.eqb (sd_Type d) "thinking_delta" then
    ([delta_chunk (DThinking {| th_Text := sd_Thinking d; th_Signature := "" |})], st)
  else if String.eqb (sd_Type d) "input_json_delta" then
    ([], with_blocks (alter (append_args (sd_PartialJSON d)) (se_Index ev) (ss_blocks st)) st)
  else if String.eqb (sd_Type d) "signature_delta" then
    ([], with_blocks (alter (set_signature (sd_Signature d)) (se_Index ev) (ss_blocks st)) st)
  else ([], st).

(** What a closed block yields. *)
Definition close_block (b : blockState) : list StreamChunk :=
  if String.eqb (bs_kind b) "tool_use" then
    [delta_chunk (DToolCall {| tc_Id := bs_id b; tc_Name := bs_name b; tc_Arguments := default_args (bs_args b); tc_Signature := "" |})]
  else if String.eqb (bs_kind b) "thinking" then
    if String.eqb (bs_signature b) "" then []
    else [delta_chunk (DThinking {| th_Text := ""; th_Signature := bs_signature b |})]
  else [].

(** One event: the chunks it yields and the next state, or the end. *)
Definition on_event (ev : sseEvent) (st : streamState) : list StreamChunk * option streamState :=
  let t := se_Type ev in
  if String.eqb t "message_start" then
    ([], Some {| ss_blocks := ss_blocks st; ss_promptTokens := promptTotal (se_MessageUsage ev) |})
  else if String.eqb t "content_block_start" then
    ([], Some match se_ContentBlock ev with
              | Some cb => with_blocks (<[se_Index ev := {| bs_kind := sb_Type cb; bs_id := sb_ID cb; bs_name := sb_Name cb;
                                                              bs_args := ""; bs_signature := "" |}]> (ss_blocks st)) st
              | None => st
              end)
  else if String.eqb t "content_block_delta" then let '(out, st') := on_delta ev st in (out, Some st')
  else if String.eqb t "content_block_stop" then
    (match ss_blocks st !! se_Index ev with Some b => close_block b | None => [] end,
     Some (with_blocks (delete (se_Index ev) (ss_blocks st)) st))
  else if String.eqb t "message_delta" then
    ([done_chunk (Some {| PromptTokens := Z.max (ss_promptTokens st) (promptTotal (se_Usage ev));
                          CompletionTokens := OutputTokens (se_Usage ev) |})
        (normalizeStopReason (sd_StopReason (se_Delta ev)))], None)
  else if String.eqb t "error" then ([error_chunk (se_Error ev)], None)
  else ([], Some st).

Section Adapter.
Context (Marshal : messagesRequest -> string + goerr) (UnmarshalEvent : string -> sseEvent + string)
  (UnmarshalResponse : string -> messagesResponse + goerr) (Post : string -> Exchange + goerr) (model : string).

Fixpoint sse_loop (lines : list string) (scanErr : option string) (st : streamState) : list StreamChunk :=
  match lines with
  | [] => match scanErr with Some e => [error_chunk e] | None => [] end
  | line :: rest =>
      if negb (has_prefix line "data: ") then sse_loop rest scanErr st
      else
        let data := sdrop 6 line in
        if String.eqb data "[DONE]" then []
        else
          match UnmarshalEvent data with
          | inr e => [error_chunk e]
          | inl ev =>
              match on_event ev st with
              | (out, None) => out
              | (out, Some st') => out ++ sse_loop rest scanErr st'
              end
          end
  end.

(** The request up to the body of a response with status 200. *)
Definition open_stream (req : CompletionRequest) : outcome Response :=
  apiReq ← toAPIRequest model req true;
  body ← or_err (Marshal apiReq);
  x ← or_err (Post body);
  resp ← Do x;
  if negb (StatusCode resp =? 200)%Z then Err (NewStatusError "anthropic" resp) else Ok resp.

Definition Stream (req : CompletionRequest) : outcome (list (StreamChunk + goerr)) :=
  match open_stream req with
  | Ok resp =>
      let '(lines, err) := scan_body resp in
      Ok (inl <$> sse_loop lines err {| ss_blocks := ∅; ss_promptTokens := 0 |})
  | Err e => Ok [inr e]
  | Panic s => Panic s
  end.

Definition Complete (req : CompletionRequest) : outcome CompletionResponse :=
  apiReq ← toAPIRequest model req false;
  body ← or_err (Marshal apiReq);
  x ← or_err (Post body);
  r ← DoJSON x;
  if negb (r.2 =? 200)%Z then Err (EWrap "" EProviderUnavailable (": anthropic returned " ^^ itoa r.2 ^^ ": " ^^ r.1))
  else
    resp ← or_err (UnmarshalResponse r.1);
    mret {| cs_Id := ms_ID resp; cs_Model := ms_Model resp;
            cs_Message := {| lm_Role := ROLE_ASSISTANT; lm_Content := fromAPIContent (ms_Content resp) |};
            cs_Usage := Some {| PromptTokens := promptTotal (ms_Usage resp); CompletionTokens := OutputTokens (ms_Usage resp) |};
            cs_FinishReason := normalizeStopReason (ms_StopReason resp) |}.

Definition completer : Completer := steady Complete Stream.
End Adapter.

(** ** The stream contract *)

Lemma close_block_delta b : Forall is_delta (close_block b).
Proof. unfold close_block. repeat (destruct (String.eqb _ _)); repeat constructor; auto with llm. Qed.

Lemma on_delta_delta ev st : Forall is_delta (on_delta ev st).1.
Proof. unfold on_delta. repeat (destruct (String.eqb _ _)); simpl; repeat constructor; by apply delta_is_delta. Qed.

(** An event yields deltas and goes on, or ends with one terminal chunk. *)
Lemma on_event_chunks ev st :
  match on_event ev st with
  | (out, Some _) => Forall is_delta out
  | (out, None) => exists c, out = [c] /\ is_terminal c
  end.
Proof.
  unfold on_event. repeat (destruct (String.eqb _ _)); try (by constructor); eauto with llm.
  - pose proof (on_delta_delta ev st) as Hd. by destruct (on_delta ev st).
  - destruct (_ !! _); [apply close_block_delta|constructor].
Qed.

Section Streaming.
Context (UnmarshalEvent : string -> sseEvent + string).

Lemma Anthropic_loop_ok lines err st : chunks_ok (sse_loop UnmarshalEvent lines err st).
Proof.
  revert st. induction lines as [|line rest IH]; intros st; cbn [sse_loop].
  - destruct err; constructor; auto with llm.
  - destruct (negb _); [apply IH|]. destruct (String.eqb _ _); [constructor|].
    destruct (UnmarshalEvent _) as [ev|e]; [|constructor; auto with llm].
    pose proof (on_event_chunks ev st) as Hc. destruct (on_event ev st) as [out [st'|]].
    + by apply chunks_ok_app.
    + destruct Hc as (c & -> & Ht). by constructor.
Qed.

(** ** Interleaved blocks *)

(** The events of some lines; [None] when a line ends the stream or does not
    decode. *)
Fixpoint decode_lines (lines : list string) : option (list sseEvent) :=
  match lines with
  | [] => Some []
  | line :: rest =>
      if negb (has_prefix line "data: ") then decode_lines rest
      else if String.eqb (sdrop 6 line) "[DONE]" then None
      else match UnmarshalEvent (sdrop 6 line) with
           | inl ev => cons ev <$> decode_lines rest
           | inr _ => None
           end
  end.

(** The chunks of some events and the state after them; [None] after a
    terminal one. *)
Fixpoint run (evs : list sseEvent) (st : streamState) : option (list StreamChunk * streamState) :=
  match evs with
  | [] => Some ([], st)
  | ev :: rest =>
      match on_event ev st with
      | (out, Some st') => match run rest st' with Some (outs, st'') => Some (out ++ outs, st'') | None => None end
      | (_, None) => None
      end
  end.

Lemma sse_loop_run ls rest err evs st out st' :
  decode_lines ls = Some evs -> run evs st = Some (out, st') ->
  sse_loop UnmarshalEvent (ls ++ rest) err st = out ++ sse_loop UnmarshalEvent rest err st'.
Proof.
  revert evs st out. induction ls as [|line ls IH]; intros evs st out Hd Hr.
  - injection Hd as <-. simpl in Hr. by injection Hr as <- <-.
  - cbn [app sse_loop]. cbn [decode_lines] in Hd. destruct (negb _); [by eapply IH|]. destruct (String.eqb _ _); [done|].
    destruct (UnmarshalEvent _) as [ev|]; [|done]. apply fmap_Some in Hd as (evs' & Hd & ->). cbn [run] in Hr.
    destruct (on_event ev st) as [o [st1|]]; [|done]. destruct (run evs' st1) as [[outs st2]|] eqn:Er; [|done].
    injection Hr as <- <-. rewrite (IH _ _ _ Hd Er). by rewrite app_assoc.
Qed.

Lemma run_app evs1 evs2 st : run (evs1 ++ evs2) st =
  match run evs1 st with
  | Some (out, st') => match run evs2 st' with Some (outs, st'') => Some (out ++ outs, st'') | None => None end
  | None => None
  end.
Proof.
  revert st. induction evs1 as [|ev evs1 IH]; intros st; simpl; [by destruct (run evs2 st) as [[]|]|].
  destruct (on_event ev st) as [o [st1|]]; [|done]. rewrite IH. destruct (run evs1 st1) as [[o1 st2]|]; [|done].
  destruct (run evs2 st2) as [[o2 st3]|]; [|done]. by rewrite app_assoc.
Qed.

(** The event opens or closes block [i]. *)
Definition bounds (i : Z) (ev : sseEvent) : bool :=
  (se_Index ev =? i)%Z && (String.eqb (se_Type ev) "content_block_start" || String.eqb (se_Type ev) "content_block_stop").

(** The argument fragments of block [i]. *)
Definition fragment (i : Z) (ev : sseEvent) : string :=
  if (se_Index ev =? i)%Z && String.eqb (se_Type ev) "content_block_delta" && String.eqb (sd_Type (se_Delta ev)) "input_json_delta"
  then sd_PartialJSON (se_Delta ev) else "".

Definition fragments (i : Z) (evs : list sseEvent) : string := fold_left (fun s ev => s ^^ fragment i ev) evs "".

(** The event does not end the stream. *)
Definition continues (ev : sseEvent) : bool :=
  negb (String.eqb (se_Type ev) "message_delta") && negb (String.eqb (se_Type ev) "error").

Lemma on_event_continues ev st : continues ev = true -> exists out st', on_event ev st = (out, Some st').
Proof.
  unfold continues, on_event. intros [Hd He]%andb_prop. apply negb_true_iff in Hd, He. rewrite Hd, He.
  destruct (on_delta ev st) as [out st']. repeat (destruct (String.eqb _ _)); eauto.
Qed.

Lemma run_continues evs st : forallb continues evs = true -> exists out st', run evs st = Some (out, st').
Proof.
  revert st. induction evs as [|ev evs IH]; intros st Hc; [by exists [], st|].
  apply andb_prop in Hc as [Hev Hc]. cbn [run]. destruct (on_event_continues ev st Hev) as (out & st' & ->).
  destruct (IH st' Hc) as (outs & st'' & ->). eauto.
Qed.

(** Within its bounds a block only grows by its own fragments. *)
Definition grown_by (b b' : blockState) (args : string) : Prop :=
  bs_kind b' = bs_kind b /\ bs_id b' = bs_id b /\ bs_name b' = bs_name b /\ bs_args b' = bs_args b ^^ args.

Lemma grown_refl b : grown_by b b "".
Proof. unfold grown_by. by rewrite append_nil_r. Qed.

Lemma on_delta_block i ev st b :
  String.eqb (se_Type ev) "content_block_delta" = true -> ss_blocks st !! i = Some b ->
  exists b', ss_blocks (on_delta ev st).2 !! i = Some b' /\ grown_by b b' (fragment i ev).
Proof.
  intros Ht Hb. unfold on_delta, fragment. rewrite Ht, andb_true_r.
  destruct (String.eqb_spec (sd_Type (se_Delta ev)) "text_delta") as [E|_].
  { rewrite E, andb_false_r. exists b. split; [done|apply grown_refl]. }
  destruct (String.eqb_spec (sd_Type (se_Delta ev)) "thinking_delta") as [E|_].
  { rewrite E, andb_false_r. exists b. split; [done|apply grown_refl]. }
  destruct (String.eqb_spec (sd_Type (se_Delta ev)) "input_json_delta") as [E|_].
  { rewrite andb_true_r. simpl. destruct (Z.eqb_spec (se_Index ev) i) as [->|Hne].
    - rewrite lookup_alter_eq, Hb. by eexists.
    - rewrite lookup_alter_ne by done. exists b. split; [done|apply grown_refl]. }
  rewrite andb_false_r. destruct (String.eqb _ "signature_delta"); simpl; [|exists b; split; [done|apply grown_refl]].
  destruct (decide (se_Index ev = i)) as [->|Hne].
  - rewrite lookup_alter_eq, Hb. eexists. split; [done|]. unfold grown_by. simpl. by rewrite append_nil_r.
  - rewrite lookup_alter_ne by done. exists b. split; [done|apply grown_refl].
Qed.

Lemma on_event_block i ev st out st' b :
  on_event ev st = (out, Some st') -> bounds i ev = false -> ss_blocks st !! i = Some b ->
  exists b', ss_blocks st' !! i = Some b' /\ grown_by b b' (fragment i ev).
Proof.
  intros E Hb Hi. unfold bounds in Hb. unfold on_event in E.
  destruct (String.eqb (se_Type ev) "content_block_delta") eqn:Ed.
  { apply String.eqb_eq in Ed as Ed'. rewrite Ed' in E. simpl in E.
    destruct (on_delta_block i ev st b Ed Hi) as (b' & Hb' & Hg). destruct (on_delta ev st) as [o s1]. injection E as _ <-. eauto. }
  assert (fragment i ev = "") as ->. { unfold fragment. by rewrite Ed, andb_false_r. }
  destruct (String.eqb (se_Type ev) "message_start"); [injection E as _ <-; exists b; split; [done|apply grown_refl]|].
  destruct (String.eqb (se_Type ev) "content_block_start") eqn:Es.
  { injection E as _ <-. exists b. split; [|apply grown_refl]. destruct (se_ContentBlock ev); [|done]. simpl.
    rewrite lookup_insert_ne; [done|]. intros Hx. rewrite andb_true_r in Hb. by apply Z.eqb_neq in Hb. }
  destruct (String.eqb (se_Type ev) "content_block_stop") eqn:Ep.
  { injection E as _ <-. exists b. split; [|apply grown_refl]. simpl. rewrite lookup_delete_ne; [done|].
    intros Hx. rewrite orb_true_r, andb_true_r in Hb. by apply Z.eqb_neq in Hb. }
  destruct (String.eqb _ "message_delta"); [done|]. destruct (String.eqb _ "error"); [done|].
  injection E as _ <-. exists b. split; [done|apply grown_refl].
Qed.

Lemma fragments_from i evs s : fold_left (fun s ev => s ^^ fragment i ev) evs s = s ^^ fragments i evs.
Proof.
  unfold fragments. revert s. induction evs as [|ev evs IH]; intros s; simpl; [by rewrite append_nil_r|].
  rewrite (IH (s ^^ fragment i ev)), (IH ("" ^^ fragment i ev)). apply append_assoc.
Qed.

Lemma run_block i evs st out st' b :
  run evs st = Some (out, st') -> forallb (fun ev => negb (bounds i ev)) evs = true -> ss_blocks st !! i = Some b ->
  exists b', ss_blocks st' !! i = Some b' /\ grown_by b b' (fragments i evs).
Proof.
  revert st out b. induction evs as [|ev evs IH]; intros st out b Hr Hn Hb.
  - injection Hr as <- <-. exists b. split; [done|apply grown_refl].
  - cbn [run] in Hr. destruct (on_event ev st) as [o [st1|]] eqn:E; [|done].
    destruct (run evs st1) as [[outs st2]|] eqn:Er; [|done]. injection Hr as <- <-.
    apply andb_prop in Hn as [Hn1 Hn2]. apply negb_true_iff in Hn1.
    destruct (on_event_block _ _ _ _ _ _ E Hn1 Hb) as (b1 & Hb1 & Hk1 & Hi1 & Hna1 & Ha1).
    destruct (IH _ _ _ Er Hn2 Hb1) as (b2 & Hb2 & Hk2 & Hi2 & Hna2 & Ha2). exists b2. split; [done|].
    split; [congruence|]. split; [congruence|]. split; [congruence|]. rewrite Ha2, Ha1.
    change (fragments i (ev :: evs)) with (fold_left (fun s ev => s ^^ fragment i ev) evs (fragment i ev)).
    rewrite fragments_from. apply append_assoc.
Qed.

(** Tool calls are assembled from their own fragments.  Whatever else is
    interleaved on other blocks, between the start of a tool-use block and its
    stop, and whatever came before, the stop yields one tool call with the
    announced id and name and the concatenation, in order, of the block's JSON
    fragments (["{}"] if there is none), and the block is closed. *)
Theorem tool_call_assembled ls rest err st i pre start cb mid stop :
  decode_lines ls = Some (pre ++ start :: mid ++ [stop]) -> forallb continues (pre ++ start :: mid) = true ->
  se_Type start = "content_block_start" -> se_Index start = i -> se_ContentBlock start = Some cb -> sb_Type cb = "tool_use" ->
  forallb (fun ev => negb (bounds i ev)) mid = true ->
  se_Type stop = "content_block_stop" -> se_Index stop = i ->
  exists before st', ss_blocks st' !! i = None /\
    sse_loop UnmarshalEvent (ls ++ rest) err st =
      before ++ [delta_chunk (DToolCall {| tc_Id := sb_ID cb; tc_Name := sb_Name cb;
                                           tc_Arguments := default_args (fragments i mid); tc_Signature := "" |})] ++
      sse_loop UnmarshalEvent rest err st'.
Proof.
  intros Hd Hc Hst Hsi Hsb Hk Hm Hpt Hpi.
  destruct (run_continues _ st Hc) as (before & st1 & Hr). pose proof Hr as Hr1. rewrite run_app in Hr1.
  destruct (run pre st) as [[o0 s0]|]; [|done]. destruct (run (start :: mid) s0) as [[o1 s1]|] eqn:E1; [|done].
  injection Hr1 as _ <-. cbn [run] in E1. unfold on_event in E1 at 1. rewrite Hst, Hsb in E1. simpl in E1.
  match type of E1 with context [run mid ?s] => set (s2 := s) in * end.
  destruct (run mid s2) as [[o2 s3]|] eqn:E2; [|done]. injection E1 as _ <-.
  destruct (run_block i mid s2 _ _ {| bs_kind := sb_Type cb; bs_id := sb_ID cb; bs_name := sb_Name cb; bs_args := "";
    bs_signature := "" |} E2 Hm) as (b & Hb & Hbk & Hbi & Hbn & Hba).
  { unfold s2. simpl. rewrite Hsi. by rewrite lookup_insert_eq. }
  exists before, (with_blocks (delete i (ss_blocks s3)) s3). split; [simpl; by rewrite lookup_delete_eq|].
  rewrite app_comm_cons, app_assoc in Hd. rewrite (sse_loop_run _ _ _ _ _ (before ++ close_block b)
    (with_blocks (delete i (ss_blocks s3)) s3) Hd).
  - rewrite <- app_assoc. unfold close_block. rewrite Hbk, Hbi, Hbn, Hba. simpl. by rewrite Hk.
  - rewrite run_app, Hr. cbn [run]. unfold on_event. rewrite Hpt. simpl. rewrite Hpi, Hb. by rewrite app_nil_r.
Qed.
End Streaming.

Lemma Anthropic_stream_returns Marshal UnmarshalEvent Post model req :
  returns (Stream Marshal UnmarshalEvent Post model req) stream_ok.
Proof.
  apply opened_stream_ok.
  - unfold open_stream, toAPIRequest, toAPIToolChoice. destruct (fold_left _ _ _). go_settles.
  - intros resp. destruct (scan_body resp) as [lines err]. eexists. split; [reflexivity|]. apply Anthropic_loop_ok.
Qed.

#[export] Instance completer_contract Marshal UnmarshalEvent UnmarshalResponse Post model :
  StreamContract (completer Marshal UnmarshalEvent UnmarshalResponse Post model).
Proof. apply steady_contract. intros req. apply Anthropic_stream_returns. Qed.

(** C20: the adapter keeps the stream contract.  For every request, whatever the
    network does and whatever the body holds, [Stream] either yields one error
    and nothing else, or yields text, thinking and tool-call deltas followed by
    at most one terminal chunk, after which it yields nothing; only the
    terminal chunk carries usage, an error or a finish reason, and one with an
    error has no usage.  A response whose status is not 200 is such a single
    error: it keeps the status, so that the retry policy can classify it, and
    at most 8 KiB of the body. *)
Theorem Stream_contract Marshal UnmarshalEvent Post model req :
  returns (Stream Marshal UnmarshalEvent Post model req) stream_ok /\
  forall apiReq body resp, toAPIRequest model req true = Ok apiReq -> Marshal apiReq = inl body ->
    Post body = inl (inr resp) -> StatusCode resp <> 200%Z ->
    exists provider text, slen text <= statusBodyLimit /\
      Stream Marshal UnmarshalEvent Post model req = Ok [inr (EStatus provider (StatusCode resp) text)].
Proof.
  split; [apply Anthropic_stream_returns|]. intros apiReq body resp Hr Hm Hp Hs.
  unfold Stream, open_stream. rewrite Hr. simpl. rewrite Hm. simpl. rewrite Hp. simpl.
  destruct (_ || _); [exists "", ""; by split; [simpl; lia|]|].
  destruct (_ =? 429)%Z; [exists "", ""; by split; [simpl; lia|]|]. simpl.
  destruct (Z.eqb_spec (StatusCode resp) 200); [done|]. cbn.
  destruct (NewStatusError_bounded "anthropic" resp) as (text & -> & Hl). by exists "anthropic", text.
Qed.

(** ** The content codec *)

(** What survives a round trip: texts, signed thinking, calls. *)
Definition canonical_block (b : ContentBlock) : option ContentBlock :=
  match b with
  | BText t => Some (BText t)
  | BThinking t => if slen (th_Signature t) =? 0 then None else Some (BThinking t)
  | BToolCall c => Some (BToolCall {| tc_Id := tc_Id c; tc_Name := tc_Name c; tc_Arguments := default_args (tc_Arguments c);
                                      tc_Signature := "" |})
  | _ => None
  end.

Lemma default_args_idemp s : default_args (default_args s) = default_args s.
Proof. unfold default_args. destruct (String.eqb s "") eqn:E; [done|]. by rewrite E. Qed.

Lemma omap_cons {A B} (f : A -> option B) x l :
  omap f (x :: l) = match f x with Some y => y :: omap f l | None => omap f l end.
Proof. reflexivity. Qed.

Lemma block_roundtrip b : match block_part b with Some p => part_block p | None => None end = canonical_block b.
Proof.
  destruct b as [[t]|[t sg]|c| | | |]; try done; simpl.
  - by destruct (slen sg =? 0).
  - unfold part_block. simpl. by rewrite default_args_idemp.
Qed.

Lemma content_roundtrip blocks : fromAPIContent (toAPIContent blocks) = omap canonical_block blocks.
Proof.
  unfold fromAPIContent, toAPIContent. induction blocks as [|b blocks IH]; [done|].
  rewrite !omap_cons, <- block_roundtrip. destruct (block_part b) as [p|]; [|exact IH].
  rewrite omap_cons. destruct (part_block p); by rewrite IH.
Qed.

(** ** A small stream *)

Module SampleEvents.
Definition usage (i o : Z) : apiUsage :=
  {| InputTokens := i; OutputTokens := o; CacheCreationInputTokens := 0; CacheReadInputTokens := 5 |}.
Definition delta (type text : string) : sseDelta :=
  {| sd_Type := type; sd_Text := text; sd_Thinking := ""; sd_PartialJSON := text; sd_Signature := text; sd_StopReason := text |}.
Definition event (type : string) (i : Z) (cb : option sseContentBlock) (d : sseDelta) : sseEvent :=
  {| se_Type := type; se_Index := i; se_ContentBlock := cb; se_Delta := d; se_Usage := usage 0 3; se_Error := "";
     se_MessageUsage := usage 7 0 |}.
Definition tool (id : string) : option sseContentBlock := Some {| sb_Type := "tool_use"; sb_ID := id; sb_Name := "read" |}.
Definition none : sseDelta := delta "" "".

Definition start : sseEvent := event "content_block_start" 1 (tool "a") none.
Definition mid : list sseEvent :=
  [event "content_block_start" 2 (tool "b") none; event "content_block_delta" 1 None (delta "input_json_delta" "[1,");
   event "content_block_delta" 2 None (delta "input_json_delta" "9"); event "content_block_delta" 1 None (delta "input_json_delta" "2]")].
Definition stop : sseEvent := event "content_block_stop" 1 None none.
Definition finish : sseEvent := event "message_delta" 0 None (delta "" "tool_use").

(** A decoder that knows these events by name. *)
Definition decode (s : string) : sseEvent + string :=
  match List.find (fun p => String.eqb p.1 s)
          (zip ["m0"; "m1"; "m2"; "m3"] mid ++ [("start", start); ("stop", stop); ("finish", finish);
            ("hello", event "message_start" 0 None none)]) with
  | Some p => inl p.2
  | None => inr "invalid character"
  end.

Definition lines : list string := (fun s => "data: " ^^ s) <$> ["hello"; "start"; "m0"; "m1"; "m2"; "m3"; "stop"].
Definition st0 : streamState := {| ss_blocks := ∅; ss_promptTokens := 0 |}.

Example whole_stream :
  sse_loop decode (lines ++ ["data: finish"; "data: m0"]) None st0 =
  [delta_chunk (DToolCall {| tc_Id := "a"; tc_Name := "read"; tc_Arguments := "[1,2]"; tc_Signature := "" |});
   done_chunk (Some {| PromptTokens := 12; CompletionTokens := 3 |}) "tool_calls"].
Proof. vm_compute. reflexivity. Qed.

(** A body that ends early yields no terminal chunk and no error. *)
Example truncated_stream : sse_loop decode ["data: hello"] None st0 = [].
Proof. reflexivity. Qed.

Lemma tool_call_assembled_witness :
  exists before st', ss_blocks st' !! 1%Z = None /\
    sse_loop decode (lines ++ ["data: finish"]) None st0 =
      before ++ [delta_chunk (DToolCall {| tc_Id := "a"; tc_Name := "read"; tc_Arguments := "[1,2]"; tc_Signature := "" |})] ++
      sse_loop decode ["data: finish"] None st'.
Proof.
  exact (tool_call_assembled decode lines ["data: finish"] None st0 1 [event "message_start" 0 None none] start
    {| sb_Type := "tool_use"; sb_ID := "a"; sb_Name := "read" |} mid stop
    eq_refl eq_refl eq_refl eq_refl eq_refl eq_refl eq_refl eq_refl eq_refl).
Defined.
End SampleEvents.
