(* ===== verification/OpenAI.v ===== *)
(** * The OpenAI adapter ([core/adapter/openai])

    The request codec over the canonical chat, the streaming loop, and the
    accumulator that reassembles fragmented tool calls.  [encoding/json] and
    the network are inputs, as in [Anthropic]. *)

From Stdlib Require Import ZArith Lia String.
From S2P Require Import Prelude GoFloat GoStrings Errors Types Llm Httpc Chatwire.
#[local] Open Scope nat_scope.

(** ** Wire types *)

Record chatToolFunction := { cf_Name : string; cf_Description : string; cf_Parameters : string }.

(** The bare strings, or the named function. *)
Inductive chatToolChoice := ChoiceString (s : string) | ChoiceNamed (name : string).

Record toolCall := { tl_Index : option Z; tl_ID : string; tl_Type : string; tl_Name : string; tl_Arguments : string }.

(** [cm_Content] is the content when it is a JSON string. *)
Record chatMessage := {
  cm_Role : string;
  cm_Content : option string;
  cm_ToolCalls : list toolCall;
  cm_ToolCallID : string
}.

Record chatRequest := {
  cr_Model : string;
  cr_Messages : list chatMessage;
  cr_MaxTokens : option Z;
  cr_Temperature : option float;
  cr_TopP : option float;
  cr_Stop : list string;
  cr_Stream : bool;
  cr_IncludeUsage : bool;
  cr_Tools : list chatToolFunction;
  cr_ToolChoice : option chatToolChoice
}.

Record chatChoice := { cc_Message : chatMessage; cc_Delta : chatMessage; cc_FinishReason : string }.

Record chatResponse := { ch_ID : string; ch_Model : string; ch_Choices : list chatChoice; ch_Usage : Usage }.

(** ** The request *)

Definition toChatToolChoice (tc : option ToolChoice) : outcome (option chatToolChoice) :=
  match tc with
  | None => Ok None
  | Some c =>
      match tch_Mode c with
      | TOOL_CHOICE_MODE_UNSPECIFIED => Ok None
      | TOOL_CHOICE_MODE_AUTO => Ok (Some (ChoiceString "auto"))
      | TOOL_CHOICE_MODE_NONE => Ok (Some (ChoiceString "none"))
      | TOOL_CHOICE_MODE_REQUIRED => Ok (Some (ChoiceString "required"))
      | TOOL_CHOICE_MODE_NAMED =>
          if String.eqb (tch_NamedTool c) ""
          then Err (ENew "openai: tool_choice NAMED requires a non-empty named_tool")
          else Ok (Some (ChoiceNamed (tch_NamedTool c)))
      end
  end.

Definition toChatTools (tools : list ToolDeclaration) : list chatToolFunction :=
  (fun t => {| cf_Name := td_Name t; cf_Description := td_Description t;
               cf_Parameters := if slen (td_ParametersJson t) =? 0 then "{}" else td_ParametersJson t |}) <$> tools.

Definition fromCanonicalMessage (m : Message) : chatMessage :=
  {| cm_Role := cw_Role m; cm_Content := Some (cw_Text m);
     cm_ToolCalls := (fun c => {| tl_Index := None; tl_ID := ID c; tl_Type := "function"; tl_Name := Name c;
                                  tl_Arguments := Arguments c |}) <$> cw_ToolCalls m;
     cm_ToolCallID := cw_ToolCallID m |}.

Definition toChatRequest (model : string) (req : CompletionRequest) (stream : bool) : outcome chatRequest :=
  let msgs := fromCanonicalMessage <$> Canonicalize (cq_Messages req) in
  toolChoice ← toChatToolChoice (cq_ToolChoice req);
  mret {| cr_Model := model; cr_Messages := msgs; cr_MaxTokens := cq_MaxTokens req; cr_Temperature := cq_Temperature req;
          cr_TopP := cq_TopP req; cr_Stop := cq_Stop req; cr_Stream := stream; cr_IncludeUsage := stream;
          cr_Tools := toChatTools (cq_Tools req); cr_ToolChoice := toolChoice |}.

(** ** The response *)

Definition fromChatMessage (m : chatMessage) : list ContentBlock :=
  match cm_Content m with
  | Some s => if String.eqb s "" then [] else [BText {| tx_Text := s |}]
  | None => []
  end ++
  ((fun tc => BToolCall {| tc_Id := tl_ID tc; tc_Name := tl_Name tc; tc_Arguments := default_args (tl_Arguments tc);
                           tc_Signature := "" |}) <$> cm_ToolCalls m).

Definition normalizeFinishReason (reason : string) : string :=
  if String.eqb reason "function_call" then "tool_calls" else reason.

(** ** The accumulator

    A build is shared between the order and the index: the index holds its
    position. *)

Record toolCallBuild := { tb_id : string; tb_name : string; tb_args : string }.
Record toolCallAccumulator := { ac_order : list toolCallBuild; ac_byIdx : gmap Z nat }.

Definition newToolCallAccumulator : toolCallAccumulator := {| ac_order := []; ac_byIdx := ∅ |}.
Definition empty_build : toolCallBuild := {| tb_id := ""; tb_name := ""; tb_args := "" |}.

(** What one fragment does to its build. *)
Definition absorb (tc : toolCall) (b : toolCallBuild) : toolCallBuild :=
  {| tb_id := if String.eqb (tl_ID tc) "" then tb_id b else tl_ID tc;
     tb_name := if String.eqb (tl_Name tc) "" then tb_name b else tl_Name tc;
     tb_args := tb_args b ^^ tl_Arguments tc |}.

Definition no_open_call : goerr :=
  ENew "openai stream: tool_call fragment has no index and no id, and no call is open to continue".

(** The position of the fragment's build, created if need be. *)
Definition locate (a : toolCallAccumulator) (tc : toolCall) : outcome (toolCallAccumulator * nat) :=
  let n := length (ac_order a) in
  match tl_Index tc with
  | Some i =>
      match ac_byIdx a !! i with
      | Some p => Ok (a, p)
      | None => Ok ({| ac_order := ac_order a ++ [empty_build]; ac_byIdx := <[i := n]> (ac_byIdx a) |}, n)
      end
  | None =>
      if negb (String.eqb (tl_ID tc) "") then Ok ({| ac_order := ac_order a ++ [empty_build]; ac_byIdx := ac_byIdx a |}, n)
      else if 0 <? n then Ok (a, n - 1)
      else Err no_open_call
  end.

Definition add (a : toolCallAccumulator) (tc : toolCall) : outcome toolCallAccumulator :=
  ap ← locate a tc;
  mret {| ac_order := alter (absorb tc) ap.2 (ac_order ap.1); ac_byIdx := ac_byIdx ap.1 |}.

Definition emit_call (b : toolCallBuild) : StreamChunk :=
  delta_chunk (DToolCall {| tc_Id := tb_id b; tc_Name := tb_name b; tc_Arguments := default_args (tb_args b); tc_Signature := "" |}).

Definition emit (a : toolCallAccumulator) : list StreamChunk := emit_call <$> ac_order a.

(** ** The stream *)

Record streamState := { os_usage : option Usage; os_reason : string; os_calls : toolCallAccumulator }.

(** One decoded chunk: what it yields, and the next state or the error of a
    malformed fragment. *)
Definition on_chunk (c : chatResponse) (st : streamState) : list StreamChunk * (streamState + string) :=
  let usage := if (0 <? PromptTokens (ch_Usage c))%Z || (0 <? CompletionTokens (ch_Usage c))%Z
               then Some (ch_Usage c) else os_usage st in
  match ch_Choices c with
  | [] => ([], inl {| os_usage := usage; os_reason := os_reason st; os_calls := os_calls st |})
  | choice :: _ =>
      let reason := if String.eqb (cc_FinishReason choice) "" then os_reason st
                    else normalizeFinishReason (cc_FinishReason choice) in
      let content := default "" (cm_Content (cc_Delta choice)) in
      (if String.eqb content "" then [] else [delta_chunk (DText {| tx_Text := content |})],
       match foldM add (os_calls st) (cm_ToolCalls (cc_Delta choice)) with
       | Ok calls => inl {| os_usage := usage; os_reason := reason; os_calls := calls |}
       | Err e => inr (err_text e)
       | Panic s => inr s
       end)
  end.

Section Adapter.
Context (Marshal : chatRequest -> string + goerr) (UnmarshalChunk : string -> chatResponse + string)
  (UnmarshalResponse : string -> chatResponse + goerr) (Post : string -> Exchange + goerr) (model : string).

Fixpoint sse_loop (lines : list string) (scanErr : option string) (st : streamState) : list StreamChunk :=
  match lines with
  | [] => match scanErr with Some e => [error_chunk e] | None => [] end
  | line :: rest =>
      if negb (has_prefix line "data: ") then sse_loop rest scanErr st
      else
        let data := sdrop 6 line in
        if String.eqb data "[DONE]" then emit (os_calls st) ++ [done_chunk (os_usage st) (os_reason st)]
        else
          match UnmarshalChunk data with
          | inr e => [error_chunk e]
          | inl c =>
              match on_chunk c st with
              | (out, inr e) => out ++ [error_chunk e]
              | (out, inl st') => out ++ sse_loop rest scanErr st'
              end
          end
  end.

Definition open_stream (req : CompletionRequest) : outcome Response :=
  creq ← toChatRequest model req true;
  body ← or_err (Marshal creq);
  x ← or_err (Post body);
  resp ← Do x;
  if negb (StatusCode resp =? 200)%Z then Err (NewStatusError "openai" resp) else Ok resp.

Definition Stream (req : CompletionRequest) : outcome (list (StreamChunk + goerr)) :=
  match open_stream req with
  | Ok resp =>
      let '(lines, err) := scan_body resp in
      Ok (inl <$> sse_loop lines err {| os_usage := None; os_reason := ""; os_calls := newToolCallAccumulator |})
  | Err e => Ok [inr e]
  | Panic s => Panic s
  end.

Definition Complete (req : CompletionRequest) : outcome CompletionResponse :=
  creq ← toChatRequest model req false;
  body ← or_err (Marshal creq);
  x ← or_err (Post body);
  r ← DoJSON x;
  if negb (r.2 =? 200)%Z then Err (EWrap "" EProviderUnavailable (": openai returned " ^^ itoa r.2 ^^ ": " ^^ r.1))
  else
    resp ← or_err (UnmarshalResponse r.1);
    match ch_Choices resp with
    | [] => Err (EWrap "" EProviderUnavailable ": openai returned no choices")
    | choice :: _ =>
        mret {| cs_Id := ch_ID resp; cs_Model := ch_Model resp;
                cs_Message := {| lm_Role := ROLE_ASSISTANT; lm_Content := fromChatMessage (cc_Message choice) |};
                cs_Usage := Some (ch_Usage resp); cs_FinishReason := normalizeFinishReason (cc_FinishReason choice) |}
    end.

Definition completer : Completer := steady Complete Stream.

(** ** Embeddings *)

Context (MarshalEmbed : list string -> string + goerr) (UnmarshalEmbed : string -> list (list float) + goerr).

Definition embed (texts : list string) : outcome (list (list float)) :=
  body ← or_err (MarshalEmbed texts);
  x ← or_err (Post body);
  r ← DoJSON x;
  if negb (r.2 =? 200)%Z then Err (EWrap "" EProviderUnavailable (": openai returned " ^^ itoa r.2 ^^ ": " ^^ r.1))
  else
    data ← or_err (UnmarshalEmbed r.1);
    if negb (Nat.eqb (length data) (length texts))
    then Err (EWrap "" EProviderUnavailable (": openai returned " ^^ itoa (Z.of_nat (length data)) ^^ " embeddings for " ^^
                                             itoa (Z.of_nat (length texts)) ^^ " inputs"))
    else mret data.
End Adapter.

(** ** The stream contract *)

Lemma emit_deltas a : Forall is_delta (emit a).
Proof. unfold emit. apply Forall_fmap, Forall_forall. intros b _. by apply delta_is_delta. Qed.

Lemma on_chunk_deltas c st : Forall is_delta (on_chunk c st).1.
Proof.
  unfold on_chunk. destruct (ch_Choices c) as [|choice l]; [constructor|]. simpl.
  destruct (String.eqb _ _); repeat constructor. by apply delta_is_delta.
Qed.

Lemma OpenAI_loop_ok UnmarshalChunk lines err st : chunks_ok (sse_loop UnmarshalChunk lines err st).
Proof.
  revert st. induction lines as [|line rest IH]; intros st; cbn [sse_loop].
  - destruct err; constructor; auto with llm.
  - destruct (negb _); [apply IH|]. destruct (String.eqb _ _).
    { apply chunks_ok_app; [apply emit_deltas|]. constructor. auto with llm. }
    destruct (UnmarshalChunk _) as [c|e]; [|constructor; auto with llm].
    pose proof (on_chunk_deltas c st) as Hd. destruct (on_chunk c st) as [out [st'|e]]; apply chunks_ok_app; try done.
    constructor. auto with llm.
Qed.

(** [Stream] keeps the stream contract, whatever the network and the body
    hold. *)
Lemma OpenAI_stream_returns Marshal UnmarshalChunk Post model req :
  returns (Stream Marshal UnmarshalChunk Post model req) stream_ok.
Proof.
  apply opened_stream_ok.
  - unfold open_stream, toChatRequest, toChatToolChoice. go_settles.
  - intros resp. destruct (scan_body resp) as [lines err]. eexists. split; [reflexivity|]. apply OpenAI_loop_ok.
Qed.

#[export] Instance completer_contract Marshal UnmarshalChunk UnmarshalResponse Post model :
  StreamContract (completer Marshal UnmarshalChunk UnmarshalResponse Post model).
Proof. apply steady_contract. intros req. apply OpenAI_stream_returns. Qed.

(** ** Reassembly *)

(** Each index once, in the order of its first fragment. *)
Definition first_seen (l : list Z) : list Z :=
  fold_left (fun acc i => if bool_decide (i ∈ acc) then acc else acc ++ [i]) l [].

(** What the fragments of one index amount to. *)
Definition merged (frags : list toolCall) (i : Z) : toolCallBuild :=
  fold_left (fun b tc => if decide (tl_Index tc = Some i) then absorb tc b else b) frags empty_build.

Definition indices (frags : list toolCall) : list Z := omap tl_Index frags.

Lemma first_seen_snoc l i :
  first_seen (l ++ [i]) = if bool_decide (i ∈ first_seen l) then first_seen l else first_seen l ++ [i].
Proof. unfold first_seen. by rewrite fold_left_app. Qed.

Lemma elem_of_first_seen l i : i ∈ first_seen l <-> i ∈ l.
Proof.
  induction l as [|j l IH] using rev_ind; [done|]. rewrite first_seen_snoc, elem_of_app, <- IH, list_elem_of_singleton.
  case_bool_decide as Hj; [|by rewrite elem_of_app, list_elem_of_singleton].
  split; [by left|]. intros [?| ->]; [done|]. exact Hj.
Qed.

Lemma first_seen_NoDup l : NoDup (first_seen l).
Proof.
  induction l as [|j l IH] using rev_ind; [constructor|]. rewrite first_seen_snoc. case_bool_decide as Hj; [done|].
  apply NoDup_app. split; [done|]. split; [|apply NoDup_singleton]. by intros x Hx ->%list_elem_of_singleton.
Qed.

Lemma merged_snoc frags tc i :
  merged (frags ++ [tc]) i = if decide (tl_Index tc = Some i) then absorb tc (merged frags i) else merged frags i.
Proof. unfold merged. by rewrite fold_left_app. Qed.

Lemma merged_fresh frags i : i ∉ indices frags -> merged frags i = empty_build.
Proof.
  induction frags as [|tc frags IH] using rev_ind; intros Hi; [done|]. rewrite merged_snoc.
  unfold indices in *. rewrite omap_app, not_elem_of_app in Hi. destruct Hi as [Hi Ht]. rewrite decide_False; [auto|].
  intros E. apply Ht. simpl. rewrite E. by left.
Qed.

Record accumulated (frags : list toolCall) (a : toolCallAccumulator) : Prop := {
  acc_order : ac_order a = merged frags <$> first_seen (indices frags);
  acc_idx : forall i p, ac_byIdx a !! i = Some p <-> first_seen (indices frags) !! p = Some i
}.

Lemma alter_merged frags tc i p :
  tl_Index tc = Some i -> first_seen (indices frags) !! p = Some i ->
  alter (absorb tc) p (merged frags <$> first_seen (indices frags)) = merged (frags ++ [tc]) <$> first_seen (indices frags).
Proof.
  intros Hi Hp. apply list_eq. intros q. rewrite list_lookup_fmap. destruct (decide (q = p)) as [->|Hne].
  - rewrite list_lookup_alter_eq, list_lookup_fmap, Hp. simpl. by rewrite merged_snoc, decide_True.
  - rewrite list_lookup_alter_ne, list_lookup_fmap by done. destruct (_ !! q) as [j|] eqn:Ej; [|done]. simpl.
    rewrite merged_snoc, decide_False; [done|]. rewrite Hi. intros [= ->]. apply Hne.
    eapply NoDup_lookup; [apply first_seen_NoDup|done|done].
Qed.

Lemma add_accumulated frags a tc i :
  tl_Index tc = Some i -> accumulated frags a -> returns (add a tc) (accumulated (frags ++ [tc])).
Proof.
  intros Hi [Ho Hidx]. unfold add, locate. rewrite Hi.
  assert (indices (frags ++ [tc]) = indices frags ++ [i]) as Hind.
  { unfold indices. rewrite omap_app. simpl. by rewrite Hi. }
  destruct (ac_byIdx a !! i) as [p|] eqn:Ep; apply returns_ok; simpl; split; simpl; rewrite Hind, first_seen_snoc.
  - apply Hidx in Ep. rewrite bool_decide_eq_true_2 by (by eapply list_elem_of_lookup_2). rewrite Ho. by apply (alter_merged _ _ i).
  - pose proof Ep as Ep'. apply Hidx in Ep'. rewrite bool_decide_eq_true_2 by (by eapply list_elem_of_lookup_2). apply Hidx.
  - assert (i ∉ first_seen (indices frags)) as Hni.
    { intros (q & Hq)%list_elem_of_lookup. apply Hidx in Hq. congruence. }
    rewrite bool_decide_eq_false_2 by done. rewrite fmap_app, Ho. cbn. rewrite alter_app_r_alt by (rewrite length_fmap; lia).
    rewrite length_fmap, Nat.sub_diag. cbn. f_equal.
    + apply list_fmap_ext. intros q j Hj. rewrite merged_snoc, decide_False; [done|]. rewrite Hi. intros [= ->].
      apply Hni. by eapply list_elem_of_lookup_2.
    + rewrite merged_snoc, decide_True by done. rewrite merged_fresh; [done|]. by rewrite <- elem_of_first_seen.
  - assert (i ∉ first_seen (indices frags)) as Hni.
    { intros (q & Hq)%list_elem_of_lookup. apply Hidx in Hq. congruence. }
    rewrite bool_decide_eq_false_2 by done. intros j p. rewrite Ho, length_fmap.
    rewrite lookup_insert_Some, lookup_app_Some, list_lookup_singleton_Some, Hidx. split.
    + intros [[-> <-]|[_ ?]]; [right; split; [done|split; [lia|done]]|by left].
    + intros [E|(? & ? & <-)]; [|left; split; [done|lia]]. right. split; [|done].
      intros ->. apply Hni. by eapply list_elem_of_lookup_2.
Qed.

(** Fragmented tool calls are reassembled.  However the fragments of
    several calls interleave, when each carries an index none is refused, and
    the calls yielded at the end are one per index, in the order in which the
    indices first appeared, each with the last non-empty id and name among its
    own fragments and the concatenation of its own argument texts. *)
Theorem accumulate_indexed (frags : list toolCall) :
  (forall tc, tc ∈ frags -> tl_Index tc <> None) ->
  returns (foldM add newToolCallAccumulator frags) (fun a =>
    emit a = (fun i => emit_call (merged frags i)) <$> first_seen (indices frags)).
Proof.
  intros Hi. eapply (returns_mono _ (accumulated frags)).
  - assert (accumulated [] newToolCallAccumulator) as Hstart.
    { split; [done|]. intros i p. simpl. rewrite lookup_empty. done. }
    revert Hstart. change frags with ([] ++ frags) at 2. generalize (@nil toolCall) as done_. generalize newToolCallAccumulator.
    induction frags as [|tc frags IH]; intros a prev Ha; [apply returns_ok; by rewrite app_nil_r|].
    destruct (tl_Index tc) as [i|] eqn:Ei; [|by destruct (Hi tc ltac:(left))].
    eapply returns_bind; [by eapply add_accumulated|]. intros a' Ha'.
    rewrite cons_middle, app_assoc. apply IH; [intros x Hx; apply Hi; by right|done].
  - intros a [Ho _]. unfold emit. rewrite Ho. by rewrite <- list_fmap_compose.
Qed.

Module SampleFragments.
Definition frag (i : option Z) (id args : string) : toolCall :=
  {| tl_Index := i; tl_ID := id; tl_Type := "function"; tl_Name := id; tl_Arguments := args |}.
Definition interleaved : list toolCall :=
  [frag (Some 3) "a" "[1"; frag (Some 0) "b" ""; frag (Some 3) "" ",2]"; frag (Some 0) "" ""]%Z.

Lemma accumulate_indexed_witness :
  returns (foldM add newToolCallAccumulator interleaved) (fun a =>
    (fun b => (tb_id b, default_args (tb_args b))) <$> ac_order a = [("a", "[1,2]"); ("b", "{}")] /\
    emit a = (fun i => emit_call (merged interleaved i)) <$> [3; 0]%Z).
Proof.
  destruct (accumulate_indexed interleaved) as (a & E & Ha).
  - intros tc. unfold interleaved. rewrite !elem_of_cons. intros [->|[->|[->|[->|[]%not_elem_of_nil]]]]; discriminate.
  - exists a. split; [exact E|]. split; [|exact Ha]. vm_compute in E. injection E as <-. reflexivity.
Defined.

(** Without an index, an id opens a call and its absence continues the last. *)
Example lenient :
  (fun a => (fun b => (tb_id b, tb_args b)) <$> ac_order a) <$>
    foldM add newToolCallAccumulator [frag None "a" "1"; frag None "" "2"; frag None "b" "3"] = Ok [("a", "12"); ("b", "3")].
Proof. vm_compute. reflexivity. Qed.

Example nothing_open : foldM add newToolCallAccumulator [frag None "" "1"] = Err no_open_call.
Proof. reflexivity. Qed.
End SampleFragments.
