(* ===== verification/Ollama.v ===== *)
(** * The Ollama adapter ([core/adapter/ollama])

    The request codec over the canonical chat, the streaming loop over the
    documents of a JSON decoder, and the embedding loop.  [encoding/json] and
    the network are inputs, as in [Anthropic]; the dump of a failing request is
    a log and left out. *)

From Stdlib Require Import ZArith Lia String.
From S2P Require Import Prelude GoFloat GoStrings Errors Types Llm Httpc Chatwire.
#[local] Open Scope nat_scope.

(** ** Wire types *)

(** [ol_Arguments] is the raw JSON text. *)
Record ollamaToolCall := { ol_ID : string; ol_Type : string; ol_Name : string; ol_Arguments : string }.

Record chatMessage := {
  om_Role : string;
  om_Content : string;
  om_Thinking : string;
  om_ToolCalls : list ollamaToolCall;
  om_ToolCallID : string
}.

Record ollamaTool := { ot_Type : string; ot_Name : string; ot_Description : string; ot_Parameters : string }.

(** The options present in the map. *)
Record providerOptions := {
  op_temperature : option float;
  op_top_p : option float;
  op_stop : option (list string);
  op_num_ctx : option Z
}.

Record chatRequest := {
  ol_Model : string;
  ol_Messages : list chatMessage;
  ol_Stream : bool;
  ol_Options : option providerOptions;
  ol_Tools : list ollamaTool
}.

Record chatResponse := {
  or_Message : chatMessage;
  or_Model : string;
  or_Done : bool;
  or_PromptEval : Z;
  or_EvalCount : Z
}.

(** ** The request *)

Definition toLlamaMsg (m : Message) : chatMessage :=
  {| om_Role := cw_Role m; om_Content := cw_Text m; om_Thinking := cw_Thinking m;
     om_ToolCalls := (fun c => {| ol_ID := ID c; ol_Type := "function"; ol_Name := Name c; ol_Arguments := Arguments c |})
                     <$> cw_ToolCalls m;
     om_ToolCallID := cw_ToolCallID m |}.

Definition toLlamaMsgs (msgs : list LLMMessage) : list chatMessage := toLlamaMsg <$> Canonicalize msgs.

(** An empty map is nil. *)
Definition providerOpts (req : CompletionRequest) : option providerOptions :=
  let stop := if 0 <? length (cq_Stop req) then Some (cq_Stop req) else None in
  let num_ctx := match cq_ContextWindowTokens req with
                 | Some w => if (0 <? w)%Z then Some w else None
                 | None => None
                 end in
  match cq_Temperature req, cq_TopP req, stop, num_ctx with
  | None, None, None, None => None
  | t, p, s, n => Some {| op_temperature := t; op_top_p := p; op_stop := s; op_num_ctx := n |}
  end.

Definition toOllamaTools (tools : list ToolDeclaration) : list ollamaTool :=
  (fun t => {| ot_Type := "function"; ot_Name := td_Name t; ot_Description := td_Description t;
               ot_Parameters := if slen (td_ParametersJson t) =? 0 then "{}" else td_ParametersJson t |}) <$> tools.

Definition chat_request (model : string) (req : CompletionRequest) (stream : bool) : chatRequest :=
  {| ol_Model := model; ol_Messages := toLlamaMsgs (cq_Messages req); ol_Stream := stream; ol_Options := providerOpts req;
     ol_Tools := toOllamaTools (cq_Tools req) |}.

(** ** The response *)

Definition tool_content (tc : ollamaToolCall) : ToolCallContent :=
  {| tc_Id := ol_ID tc; tc_Name := ol_Name tc; tc_Arguments := default_args (ol_Arguments tc); tc_Signature := "" |}.

Definition usage_of (r : chatResponse) : Usage :=
  {| PromptTokens := wrapi32 (or_PromptEval r); CompletionTokens := wrapi32 (or_EvalCount r) |}.

(** Thinking, text, calls: as blocks of a message or as deltas of a stream. *)
Definition response_content (m : chatMessage) : list ContentBlock :=
  (if String.eqb (om_Thinking m) "" then [] else [BThinking {| th_Text := om_Thinking m; th_Signature := "" |}]) ++
  (if String.eqb (om_Content m) "" then [] else [BText {| tx_Text := om_Content m |}]) ++
  (BToolCall ∘ tool_content <$> om_ToolCalls m).

Definition response_deltas (m : chatMessage) : list StreamChunk :=
  (if String.eqb (om_Thinking m) "" then [] else [delta_chunk (DThinking {| th_Text := om_Thinking m; th_Signature := "" |})]) ++
  (if String.eqb (om_Content m) "" then [] else [delta_chunk (DText {| tx_Text := om_Content m |})]) ++
  ((fun tc => delta_chunk (DToolCall (tool_content tc))) <$> om_ToolCalls m).

Section Adapter.
Context (Marshal : chatRequest -> string + goerr) (UnmarshalResponse : string -> chatResponse + goerr)
  (Decode : Response -> list chatResponse * option string) (Post : string -> Exchange + goerr) (model : string).

(** The documents of the decoder, and the error after them unless the body
    ends there. *)
Fixpoint decode_loop (docs : list chatResponse) (err : option string) : list StreamChunk :=
  match docs with
  | [] => match err with Some e => [error_chunk e] | None => [] end
  | c :: rest =>
      response_deltas (or_Message c) ++
      (if or_Done c then [done_chunk (Some (usage_of c)) ""] else decode_loop rest err)
  end.

Definition open_stream (req : CompletionRequest) : outcome Response :=
  body ← or_err (Marshal (chat_request model req true));
  x ← or_err (Post body);
  resp ← Do x;
  if negb (StatusCode resp =? 200)%Z
  then Err (EStatus "ollama" (StatusCode resp) (trim_space (stake statusBodyLimit (Body resp)))) else Ok resp.

Definition Stream (req : CompletionRequest) : outcome (list (StreamChunk + goerr)) :=
  match open_stream req with
  | Ok resp => let '(docs, err) := Decode resp in Ok (inl <$> decode_loop docs err)
  | Err e => Ok [inr e]
  | Panic s => Panic s
  end.

Definition Complete (req : CompletionRequest) : outcome CompletionResponse :=
  body ← or_err (Marshal (chat_request model req false));
  x ← or_err (Post body);
  r ← DoJSON x;
  if negb (r.2 =? 200)%Z then Err (EWrap "" EProviderUnavailable (": ollama returned " ^^ itoa r.2 ^^ ": " ^^ r.1))
  else
    resp ← or_err (UnmarshalResponse r.1);
    mret {| cs_Id := ""; cs_Model := or_Model resp;
            cs_Message := {| lm_Role := ROLE_ASSISTANT; lm_Content := response_content (or_Message resp) |};
            cs_Usage := Some (usage_of resp); cs_FinishReason := "" |}.

Definition completer : Completer := steady Complete Stream.

(** ** Embeddings *)

Context (MarshalEmbed : string -> string + goerr) (UnmarshalEmbed : string -> list (list float) + goerr).

Definition embedOne (text : string) : outcome (list float) :=
  body ← or_err (MarshalEmbed text);
  x ← or_err (Post body);
  r ← DoJSON x;
  if negb (r.2 =? 200)%Z then Err (EWrap "" EProviderUnavailable (": ollama returned " ^^ itoa r.2 ^^ ": " ^^ r.1))
  else
    embeddings ← or_err (UnmarshalEmbed r.1);
    match embeddings with
    | [] => Err (EWrap "" EProviderUnavailable ": ollama returned empty embeddings")
    | v :: _ => mret v
    end.

(** One request per text; the first failure discards the batch. *)
Fixpoint embed (texts : list string) : outcome (list (list float)) :=
  match texts with
  | [] => mret []
  | text :: rest =>
      vec ← embedOne text;
      results ← embed rest;
      mret (vec :: results)
  end.

(** A batch that succeeds has every text's own vector, in order. *)
Lemma embed_all texts vs : embed texts = Ok vs -> Forall2 (fun t v => embedOne t = Ok v) texts vs.
Proof.
  revert vs. induction texts as [|t ts IH]; intros vs; simpl.
  - intros [= <-]. constructor.
  - destruct (embedOne t) as [v| |] eqn:E; simpl; try done.
    destruct (embed ts) as [rs| |]; simpl; try done. intros [= <-]. constructor; [exact E|]. by apply IH.
Qed.
End Adapter.

(** ** The stream contract *)

Lemma response_deltas_ok m : Forall is_delta (response_deltas m).
Proof.
  unfold response_deltas. apply Forall_app. split; [|apply Forall_app; split].
  - destruct (String.eqb _ _); repeat constructor. by apply delta_is_delta.
  - destruct (String.eqb _ _); repeat constructor. by apply delta_is_delta.
  - apply Forall_fmap, Forall_forall. intros tc _. by apply delta_is_delta.
Qed.

Lemma decode_loop_ok docs err : chunks_ok (decode_loop docs err).
Proof.
  induction docs as [|c docs IH]; simpl; [destruct err; constructor; auto with llm|].
  apply chunks_ok_app; [apply response_deltas_ok|]. destruct (or_Done c); [|exact IH]. constructor. auto with llm.
Qed.

Lemma Ollama_stream_returns Marshal Decode Post model req : returns (Stream Marshal Decode Post model req) stream_ok.
Proof.
  apply opened_stream_ok.
  - unfold open_stream. go_settles.
  - intros resp. destruct (Decode resp) as [docs err]. eexists. split; [reflexivity|]. apply decode_loop_ok.
Qed.

#[export] Instance completer_contract Marshal UnmarshalResponse Decode Post model :
  StreamContract (completer Marshal UnmarshalResponse Decode Post model).
Proof. apply steady_contract. intros req. apply Ollama_stream_returns. Qed.

(** Streamed in one document or returned whole, a response has the same
    content. *)
Lemma stream_matches_complete c :
  or_Done c = true ->
  decode_loop [c] None =
    ((fun b => delta_chunk match b with
                           | BText t => DText t | BThinking t => DThinking t | BToolCall t => DToolCall t
                           | BToolResult t => DToolResult t | _ => DNone
                           end) <$> response_content (or_Message c)) ++ [done_chunk (Some (usage_of c)) ""].
Proof.
  intros Hd. simpl. rewrite Hd. f_equal. unfold response_deltas, response_content. rewrite !fmap_app.
  f_equal; [by destruct (String.eqb _ _)|]. f_equal; [by destruct (String.eqb _ _)|]. by rewrite <- list_fmap_compose.
Qed.
