(* ===== verification/Counting.v ===== *)
(** * What is counted and what is sent ([core/counting.go], [core/adapter/*/counting.go])

    An assembly sizes its payload with the counting projection of the adapter
    that will send it.  Here are the projections, their registry, and that they
    are no smaller than the text their codecs put on the wire. *)

From Stdlib Require Import ZArith Lia String.
From S2P Require Import Prelude GoFloat GoStrings Types Llm OpenAI Ollama Anthropic Chatwire.
#[local] Open Scope nat_scope.

(** ** The registry *)

Definition projection : Type := LLMMessage -> string.

(** A nil projection is [None]. *)
Definition RegisterCountProjection (name : string) (proj : option projection) (registry : gmap string projection) : gmap string projection :=
  match proj with
  | Some proj => if String.eqb name "" then registry else <[name := proj]> registry
  | None => registry
  end.

Definition CountProjection (adapter : string) (registry : gmap string projection) : option projection := registry !! adapter.

(** ** The projections *)

(** [strings.Builder] over the blocks. *)
Definition count_blocks (count : ContentBlock -> string) (m : LLMMessage) : string :=
  fold_left (fun sb b => sb ^^ count b) (lm_Content m) "".

Definition call_count (c : ToolCallContent) : string := tc_Name c ^^ ": " ^^ tc_Arguments c ^^ nl.

Definition anthropic_block (b : ContentBlock) : string :=
  match b with
  | BText t => tx_Text t ^^ nl
  | BThinking t => if 0 <? slen (th_Signature t) then th_Text t ^^ nl else ""
  | BToolCall c => call_count c
  | BToolResult r => tr_Content r ^^ nl
  | _ => ""
  end.

Definition openai_block (b : ContentBlock) : string :=
  match b with
  | BText t => tx_Text t ^^ nl
  | BToolCall c => call_count c
  | BToolResult r => tr_Content r ^^ nl
  | _ => ""
  end.

Definition ollama_block (b : ContentBlock) : string :=
  match b with
  | BText t => tx_Text t ^^ nl
  | BThinking t => th_Text t ^^ nl
  | BToolCall c => call_count c
  | BToolResult r => tr_Content r ^^ nl
  | _ => ""
  end.

Definition anthropic_CountText : projection := count_blocks anthropic_block.

Definition openai_CountText : projection := count_blocks openai_block.

Definition ollama_CountText : projection := count_blocks ollama_block.

(** ** Bytes *)

#[local] Abbreviation total := sum_list_with.
#[local] Arguments slen : simpl never.

(** Lengths of concatenations and of the separators, then arithmetic. *)
Ltac bytes :=
  rewrite ?append_length in *; change (slen "") with 0 in *; change (slen nl) with 1 in *; change (slen ": ") with 2 in *;
  change (slen "{}") with 2 in *; lia.

Lemma total_le {A} (f g : A -> nat) l : (forall x, x ∈ l -> f x <= g x) -> total f l <= total g l.
Proof. induction l as [|x l IH]; intros H; [done|]. cbn. specialize (H x) as Hx. assert (total f l <= total g l) by (apply IH; set_solver). assert (f x <= g x) by set_solver. lia. Qed.

Lemma total_omap {A B} (f : A -> option B) (g : B -> nat) (h : A -> nat) l :
  (forall x y, f x = Some y -> g y <= h x) -> total g (omap f l) <= total h l.
Proof.
  intros H. induction l as [|x l IH]; [done|]. cbn. destruct (f x) as [y|] eqn:E; cbn; [|lia]. specialize (H _ _ E). lia.
Qed.

Lemma fold_bytes {A} (f : A -> string) l acc : slen (fold_left (fun sb x => sb ^^ f x) l acc) = slen acc + total (fun x => slen (f x)) l.
Proof. revert acc. induction l as [|x l IH]; intros acc; cbn [fold_left sum_list_with]; [lia|]. rewrite IH, append_length. lia. Qed.

Lemma count_blocks_bytes count m : slen (count_blocks count m) = total (fun b => slen (count b)) (lm_Content m).
Proof. unfold count_blocks. by rewrite fold_bytes. Qed.

Lemma call_count_bytes c : slen (tc_Name c) + slen (tc_Arguments c) + 3 = slen (call_count c).
Proof. unfold call_count. bytes. Qed.

Lemma default_args_bytes args : slen (default_args args) <= slen args + 2.
Proof. unfold default_args. destruct (String.eqb_spec args "") as [->|_]; bytes. Qed.

(** A joined list of texts has a separator less than it has texts. *)
Lemma join_bytes1 s l : slen (join nl (s :: l)) + 1 <= total (fun s => slen s + 1) (s :: l).
Proof.
  revert s. induction l as [|s' l IH]; intros s; [cbn; lia|]. specialize (IH s').
  change (join nl (s :: s' :: l)) with (s ^^ nl ^^ join nl (s' :: l)). cbn [sum_list_with] in *. bytes.
Qed.

Lemma join_bytes l : slen (join nl l) <= total (fun s => slen s + 1) l /\
  (join nl l <> "" -> slen (join nl l) + 1 <= total (fun s => slen s + 1) l).
Proof. destruct l as [|s l]; [done|]. pose proof (join_bytes1 s l). split; [lia|done]. Qed.

(** ** Anthropic *)

Definition part_bytes (p : apiContentPart) : nat :=
  slen (ap_Text p) + slen (ap_Thinking p) + slen (ap_Name p) + slen (ap_Input p) + slen (ap_Content p).

Definition anthropic_bytes (r : messagesRequest) : nat :=
  slen (mr_System r) + total (fun m => total part_bytes (am_Content m)) (mr_Messages r).

Lemma block_part_bytes b p : block_part b = Some p -> part_bytes p <= slen (anthropic_block b).
Proof.
  destruct b as [t|t|c|r| | |]; cbn; try done.
  - intros [= <-]. unfold part_bytes. cbn. bytes.
  - destruct (slen (th_Signature t)) as [|n]; cbn; [done|]. intros [= <-]. unfold part_bytes. cbn. bytes.
  - intros [= <-]. unfold part_bytes. cbn. rewrite <- call_count_bytes. pose proof (default_args_bytes (tc_Arguments c)). bytes.
  - intros [= <-]. unfold part_bytes. cbn. bytes.
Qed.

Lemma text_bytes blocks acc :
  slen (fold_left (fun s b => match GetText b with Some t => s ^^ tx_Text t | None => s end) blocks acc)
    <= slen acc + total (fun b => slen (anthropic_block b)) blocks.
Proof.
  revert acc. induction blocks as [|b l IH]; intros acc; cbn [fold_left sum_list_with]; [lia|]. etransitivity; [apply IH|].
  destruct b; cbn; bytes.
Qed.

Lemma system_bytes blocks : slen (textFromBlocks blocks) <= total (fun b => slen (anthropic_block b)) blocks.
Proof. apply (text_bytes blocks ""). Qed.

Lemma add_messages_bytes msgs acc :
  let out := fold_left add_message msgs acc in
  slen out.1 + total (fun m => total part_bytes (am_Content m)) out.2 <=
    slen acc.1 + total (fun m => total part_bytes (am_Content m)) acc.2 + total (fun m => slen (anthropic_CountText m)) msgs.
Proof.
  revert acc. induction msgs as [|m msgs IH]; intros acc; cbn; [lia|]. etransitivity; [apply IH|].
  unfold anthropic_CountText at 2. rewrite count_blocks_bytes. unfold add_message.
  pose proof (system_bytes (lm_Content m)).
  pose proof (total_omap block_part part_bytes (fun b => slen (anthropic_block b)) (lm_Content m) block_part_bytes).
  destruct (lm_Role m); cbn; rewrite ?sum_list_with_app; cbn; unfold toAPIContent in *; lia.
Qed.

(** ** The canonical chat *)

Section Chat.
(** Whether thinking is sent. *)
Context (thinks : bool).

Definition thought (s : string) : nat := if thinks then slen s else 0.
Definition call_bytes (c : ToolCall) : nat := slen (Name c) + slen (Arguments c).
Definition chat_bytes (m : Chatwire.Message) : nat := slen (cw_Text m) + thought (cw_Thinking m) + total call_bytes (cw_ToolCalls m).

Lemma chat_bytes_eq role t th calls id :
  chat_bytes {| cw_Role := role; cw_Text := t; cw_Thinking := th; cw_ToolCalls := calls; cw_ToolCallID := id |} = slen t + thought th + total call_bytes calls.
Proof. done. Qed.
Lemma tool_bytes r : chat_bytes (tool_message r) = slen (tr_Content r).
Proof. unfold tool_message. rewrite chat_bytes_eq. unfold thought. cbn. destruct thinks; bytes. Qed.

(** What an atom may take: a thinking text comes with a separator. *)
Definition apart (s : string) : nat := if thinks then slen s + 1 else 0.
Definition thought_budget (s : string) : nat := if String.eqb s "" then 0 else apart s.
Definition atom_budget (a : atom) : nat :=
  match a with
  | AText _ text thinking => slen text + thought_budget thinking
  | ACall c => call_bytes c
  | AResult r => slen (tr_Content r)
  end.
Definition left_budget (atoms : list atom) (consumed : list bool) : nat := total atom_budget (still Some atoms consumed).
Definition pending_budget (pending : list string) : nat := total apart pending.

Lemma left_true a atoms consumed : left_budget (a :: atoms) (true :: consumed) = left_budget atoms consumed.
Proof. done. Qed.
Lemma left_false a atoms consumed : left_budget (a :: atoms) (false :: consumed) = atom_budget a + left_budget atoms consumed.
Proof. done. Qed.

Lemma collect_bytes ids atoms consumed : let out := collect ids atoms consumed in
  total call_bytes out.1 + left_budget atoms out.2 <= left_budget atoms consumed.
Proof.
  revert consumed. induction atoms as [|[role t th|c|r] atoms IH]; intros [|[] consumed]; cbn [collect]; try (cbn; lia).
  specialize (IH consumed). destruct (collect ids atoms consumed) as [group flags]. cbn [fst snd] in *.
  rewrite left_true, left_false. case_bool_decide; cbn [sum_list_with atom_budget]; lia.
Qed.

Lemma answer_bytes ids atoms consumed : let out := answer ids atoms consumed in
  total chat_bytes out.1 + left_budget atoms out.2 <= left_budget atoms consumed.
Proof.
  revert consumed. induction atoms as [|a atoms IH]; intros [|c consumed]; cbn [answer]; try (cbn; lia).
  specialize (IH consumed). destruct (answer ids atoms consumed) as [out flags]. cbn [fst snd] in *.
  destruct c; [destruct a; cbn [fst snd]; rewrite !left_true; lia|].
  destruct a as [role t th|k|r]; cbn [fst snd]; rewrite ?left_false; try lia.
  case_bool_decide; cbn [fst snd sum_list_with]; rewrite ?left_true, ?left_false; [|lia].
  rewrite tool_bytes. cbn [atom_budget]. lia.
Qed.

Lemma flush_bytes pending : thought (flushThinking pending) <= pending_budget pending /\
  (flushThinking pending <> "" -> apart (flushThinking pending) <= pending_budget pending).
Proof. unfold flushThinking, pending_budget, thought, apart. destruct thinks; [apply join_bytes|lia]. Qed.

Lemma merged_bytes pending thinking : thought (merged_thinking pending thinking) <= pending_budget pending + thought_budget thinking.
Proof.
  unfold merged_thinking, thought_budget. pose proof (flush_bytes pending) as [Hf Hf1].
  destruct (String.eqb_spec (flushThinking pending) "") as [E|E]; destruct (String.eqb_spec thinking "") as [->|_]; try lia.
  - unfold thought. destruct thinks; bytes.
  - unfold thought, apart. destruct thinks; lia.
  - specialize (Hf1 E). unfold thought, apart in *. destruct thinks; [|lia]. bytes.
Qed.

Lemma emit_bytes ids atoms consumed pending :
  total chat_bytes (emit ids atoms consumed pending) <= left_budget atoms consumed + pending_budget pending.
Proof.
  revert consumed pending. induction atoms as [|a atoms IH]; intros [|[] consumed] pending; cbn [emit]; try (destruct a; cbn; lia);
    try (cbn; lia).
  - rewrite left_true. destruct a; apply IH.
  - rewrite left_false. destruct a as [role t th|c|r]; cbn [atom_budget].
    + destruct (String.eqb_spec t "") as [->|_].
      * etransitivity; [apply IH|]. unfold thought_budget, pending_budget. destruct (String.eqb th ""); cbn; [lia|].
        rewrite sum_list_with_app. cbn. lia.
      * cbn [sum_list_with]. pose proof (IH consumed []) as Hi. pose proof (merged_bytes pending th). rewrite chat_bytes_eq. cbn in *. bytes.
    + pose proof (collect_bytes ids (ACall c :: atoms) (false :: consumed)) as Hc. revert Hc. cbn [collect].
      destruct (collect ids atoms consumed) as [group flags]. cbn [fst snd tail]. rewrite left_true, left_false. cbn [atom_budget].
      destruct (if bool_decide (ID c ∈ ids) then c :: group else group) as [|c' group'] eqn:Eg; intros Hc.
      * pose proof (IH flags []). cbn in *. lia.
      * pose proof (answer_bytes (list_to_set (ID <$> c' :: group')) atoms flags) as Ha. revert Ha.
        destruct (answer _ atoms flags) as [results flags']. cbn [fst snd]. intros Ha. cbn [sum_list_with]. rewrite sum_list_with_app.
        pose proof (IH flags' []) as Hi. pose proof (flush_bytes pending) as [Hf _]. rewrite chat_bytes_eq. cbn in *. bytes.
    + etransitivity; [apply IH|]. lia.
Qed.

(** A projection that counts at least this of each block. *)
Context (count : ContentBlock -> string).
Definition covers : Prop := forall b,
  match b with
  | BText t => slen (tx_Text t) + 1
  | BThinking t => apart (th_Text t)
  | BToolCall c => slen (tc_Name c) + slen (tc_Arguments c) + 2
  | BToolResult r => slen (tr_Content r)
  | _ => 0
  end <= slen (count b).
Hypothesis Hcount : covers.

Lemma call_of_bytes c : call_bytes (call_of c) <= slen (tc_Name c) + slen (tc_Arguments c) + 2.
Proof. unfold call_bytes, call_of. cbn [Name Arguments]. destruct (String.eqb (tc_Arguments c) ""); bytes. Qed.

Lemma blocks_bytes bs :
  total (fun s => slen s + 1) (tx_Text <$> omap GetText bs) + total apart (th_Text <$> omap GetThinking bs) +
  total atom_budget (ACall <$> (call_of <$> omap GetToolCall bs)) + total atom_budget (AResult <$> omap GetToolResult bs)
    <= total (fun b => slen (count b)) bs.
Proof.
  induction bs as [|b bs IH]; [done|]. pose proof (Hcount b) as Hb.
  destruct b as [t|t|c|r| | |]; cbn in *; try lia. pose proof (call_of_bytes c). lia.
Qed.

Lemma message_budget m : total atom_budget (message_atoms m) <= slen (count_blocks count m).
Proof.
  rewrite count_blocks_bytes. pose proof (blocks_bytes (lm_Content m)) as Hb. unfold message_atoms.
  rewrite !sum_list_with_app.
  pose proof (join_bytes (tx_Text <$> omap GetText (lm_Content m))) as [Ht _].
  pose proof (flush_bytes (th_Text <$> omap GetThinking (lm_Content m))) as [_ Hth]. unfold flushThinking, pending_budget in Hth.
  assert (thought_budget (join nl (th_Text <$> omap GetThinking (lm_Content m))) <= total apart (th_Text <$> omap GetThinking (lm_Content m))).
  { unfold thought_budget. destruct (String.eqb_spec (join nl (th_Text <$> omap GetThinking (lm_Content m))) ""); [lia|auto]. }
  destruct (_ || _); cbn [sum_list_with atom_budget]; lia.
Qed.

(** The chat made of any messages is no longer than they count. *)
Lemma canonical_bytes msgs : total chat_bytes (Canonicalize msgs) <= total (fun m => slen (count_blocks count m)) msgs.
Proof.
  unfold Canonicalize. etransitivity; [apply emit_bytes|]. unfold left_budget. rewrite still_fresh.
  assert (forall l : list atom, omap Some l = l) as Hid by (intros l; induction l as [|a l IH]; [done|]; cbn; by rewrite IH).
  rewrite Hid. cbn. rewrite Nat.add_0_r. unfold atoms_of. induction msgs as [|m msgs IH]; [done|].
  cbn. rewrite sum_list_with_app. pose proof (message_budget m). cbn in *. lia.
Qed.
End Chat.

(** ** What is sent is counted *)

Definition openai_bytes (r : OpenAI.chatRequest) : nat :=
  total (fun m => slen (default "" (cm_Content m)) + total (fun c => slen (tl_Name c) + slen (tl_Arguments c)) (OpenAI.cm_ToolCalls m))
    (OpenAI.cr_Messages r).
Definition ollama_bytes (r : Ollama.chatRequest) : nat :=
  total (fun m => slen (om_Content m) + slen (om_Thinking m) + total (fun c => slen (ol_Name c) + slen (ol_Arguments c)) (om_ToolCalls m))
    (ol_Messages r).

Lemma total_fmap {A B} (f : A -> B) (g : B -> nat) l : total g (f <$> l) = total (fun x => g (f x)) l.
Proof. induction l as [|x l IH]; [done|]. cbn. by rewrite IH. Qed.

Lemma openai_covers : covers false openai_block.
Proof. intros [t|t|c|r| | |]; cbn; rewrite <- ?call_count_bytes; bytes. Qed.
Lemma ollama_covers : covers true ollama_block.
Proof. intros [t|t|c|r| | |]; cbn; rewrite <- ?call_count_bytes; bytes. Qed.

(** C39: Nothing an adapter sends is missing from its count.  Whatever request
    the Anthropic, OpenAI or Ollama codec makes of some messages, the bytes of
    text in it - system text, message text, replayed thinking, the names and
    arguments of tool calls, the contents of tool results - are at most the
    bytes its counting projection gives for those messages, although the codecs
    merge messages, reorder calls and results, and fill in empty arguments. *)
Theorem wire_counted (model : string) (req : CompletionRequest) (stream : bool) :
  (forall r, toAPIRequest model req stream = Ok r ->
     anthropic_bytes r <= total (fun m => slen (anthropic_CountText m)) (cq_Messages req)) /\
  (forall r, toChatRequest model req stream = Ok r ->
     openai_bytes r <= total (fun m => slen (openai_CountText m)) (cq_Messages req)) /\
  ollama_bytes (chat_request model req stream) <= total (fun m => slen (ollama_CountText m)) (cq_Messages req).
Proof.
  split; [|split].
  - intros r. unfold toAPIRequest. pose proof (add_messages_bytes (cq_Messages req) ("", [])) as Hb. revert Hb.
    destruct (fold_left add_message _ _) as [system msgs]. destruct (toAPIToolChoice _) as [tc| |]; [|done..].
    intros Hb [= <-]. unfold anthropic_bytes. cbn in *. bytes.
  - intros r. unfold toChatRequest. destruct (toChatToolChoice _) as [tc| |]; [|done..]. intros [= <-].
    unfold openai_bytes. cbn. rewrite total_fmap. etransitivity; [|apply (canonical_bytes false openai_block openai_covers)].
    apply total_le. intros m _. unfold chat_bytes, thought. cbn. rewrite total_fmap. unfold call_bytes. cbn. lia.
  - unfold ollama_bytes. cbn. unfold toLlamaMsgs. rewrite total_fmap.
    etransitivity; [|apply (canonical_bytes true ollama_block ollama_covers)].
    apply total_le. intros m _. unfold chat_bytes, thought. cbn. rewrite total_fmap. unfold call_bytes. cbn. lia.
Qed.
