(* ===== verification/Predicate.v ===== *)
(** * Retrieval predicates ([rrc/predicate.go])

    The typed filter algebra the oracle applies to candidate chunks: its
    reference evaluator, the compiled evaluator the hot loop uses, and the
    routing analysis that picks a thread partition. *)

From Stdlib Require Import ZArith Lia String.
From S2P Require Import Prelude.

Inductive RetrievalScope := ScopeThread | ScopeAll.

(** A [Predicate] interface value; [PredNil] is the nil interface. *)
Inductive Predicate :=
  | PredNil
  | PredAll
  | PredThread (ThreadID : string)
  | PredScope (CurrentThread : string) (Scope : RetrievalScope)
  | PredAnd (Children : list Predicate)
  | PredOr (Children : list Predicate)
  | PredNot (Inner : Predicate)
  | PredHasMetadata (Key Value : string)
  | PredExcludeMessageIDs (MessageIDs : list string).

Record CandidateAttrs := {
  ca_MessageID : string;
  ca_ThreadID : string;
  ca_Metadata : gmap string string
}.

(** [a.Metadata\[key\]]: the zero value for an absent key. *)
Definition metadata_get (a : CandidateAttrs) (key : string) : string :=
  default "" (ca_Metadata a !! key).

Definition scope_is_all (s : RetrievalScope) : bool :=
  match s with ScopeAll => true | ScopeThread => false end.

Fixpoint EvalPredicate (p : Predicate) (a : CandidateAttrs) : bool :=
  match p with
  | PredNil => true
  | PredAll => true
  | PredThread t => String.eqb (ca_ThreadID a) t
  | PredScope cur sc => scope_is_all sc || String.eqb (ca_ThreadID a) cur
  | PredExcludeMessageIDs ids =>
      negb (existsb (fun id => String.eqb (ca_MessageID a) id) ids)
  | PredAnd children => forallb (fun child => EvalPredicate child a) children
  | PredOr children => existsb (fun child => EvalPredicate child a) children
  | PredNot inner => negb (EvalPredicate inner a)
  | PredHasMetadata key val =>
      if String.eqb key "thread_id" then String.eqb (ca_ThreadID a) val
      else String.eqb (metadata_get a key) val
  end.

(** The closure Go builds; the exclusion set is materialised once. *)
Fixpoint CompilePredicate (p : Predicate) : CandidateAttrs -> bool :=
  match p with
  | PredNil | PredAll => fun _ => true
  | PredThread want => fun a => String.eqb (ca_ThreadID a) want
  | PredScope cur sc =>
      if scope_is_all sc then fun _ => true
      else fun a => String.eqb (ca_ThreadID a) cur
  | PredExcludeMessageIDs ids =>
      let set : gset string := list_to_set ids in
      fun a => negb (bool_decide (ca_MessageID a ∈ set))
  | PredAnd children =>
      let fs := map CompilePredicate children in
      fun a => forallb (fun f => f a) fs
  | PredOr children =>
      let fs := map CompilePredicate children in
      fun a => existsb (fun f => f a) fs
  | PredNot inner =>
      let f := CompilePredicate inner in
      fun a => negb (f a)
  | PredHasMetadata key val =>
      fun a => if String.eqb key "thread_id" then String.eqb (ca_ThreadID a) val
               else String.eqb (metadata_get a key) val
  end.

(** The first child that pins a thread decides a conjunction. *)
Fixpoint ThreadScopeOf (p : Predicate) : option string :=
  match p with
  | PredThread t => Some t
  | PredScope cur sc => if scope_is_all sc then None else Some cur
  | PredAnd children =>
      (fix first (l : list Predicate) : option string :=
         match l with
         | [] => None
         | child :: l' =>
             match ThreadScopeOf child with
             | Some t => Some t
             | None => first l'
             end
         end) children
  | _ => None
  end.

(** ** Induction through the children lists *)

Section PredicateInd.
Variable P : Predicate -> Prop.
Hypotheses (Hnil : P PredNil) (Hall : P PredAll)
  (Hthread : forall t, P (PredThread t))
  (Hscope : forall c s, P (PredScope c s))
  (Hand : forall l, Forall P l -> P (PredAnd l))
  (Hor : forall l, Forall P l -> P (PredOr l))
  (Hnot : forall p, P p -> P (PredNot p))
  (Hmeta : forall k v, P (PredHasMetadata k v))
  (Hex : forall l, P (PredExcludeMessageIDs l)).

Fixpoint Predicate_ind' (p : Predicate) : P p :=
  let fix go (l : list Predicate) : Forall P l :=
    match l with
    | [] => Forall_nil_2 P
    | x :: l' => Forall_cons_2 P x l' (Predicate_ind' x) (go l')
    end in
  match p with
  | PredNil => Hnil
  | PredAll => Hall
  | PredThread t => Hthread t
  | PredScope c s => Hscope c s
  | PredAnd l => Hand l (go l)
  | PredOr l => Hor l (go l)
  | PredNot q => Hnot q (Predicate_ind' q)
  | PredHasMetadata k v => Hmeta k v
  | PredExcludeMessageIDs l => Hex l
  end.
End PredicateInd.

Lemma existsb_eqb_elem_of x (l : list string) :
  existsb (fun y => String.eqb x y) l = bool_decide (x ∈ l).
Proof.
  apply eq_true_iff_eq. rewrite existsb_exists, bool_decide_eq_true, list_elem_of_In.
  split; [intros (y & Hy & <-%String.eqb_eq); done | intros H; exists x; by rewrite String.eqb_refl].
Qed.

Lemma compiled_agrees (p : Predicate) (a : CandidateAttrs) : CompilePredicate p a = EvalPredicate p a.
Proof.
  induction p as [| | | |l IH|l IH|p IH| |l] using Predicate_ind'; simpl; try done.
  - by destruct (scope_is_all s).
  - induction IH as [|p l Hp _ IH]; simpl; [done|]. by rewrite Hp, IH.
  - induction IH as [|p l Hp _ IH]; simpl; [done|]. by rewrite Hp, IH.
  - by rewrite IH.
  - rewrite existsb_eqb_elem_of. f_equal. apply bool_decide_ext. set_solver.
Qed.

(** The compiled evaluator agrees with the reference evaluator on every
    predicate and every candidate, so the hot filter loop of the oracle
    decides exactly what the canonical semantics decides. *)
Theorem CompilePredicate_eval (p : Predicate) (a : CandidateAttrs) :
  CompilePredicate p a = EvalPredicate p a.
Proof. apply compiled_agrees. Qed.

(** Routing is sound. When the analysis pins a predicate to one thread,
    every candidate the predicate accepts belongs to that thread, so searching
    only that thread's partition cannot lose a match. *)
Theorem ThreadScopeOf_sound (p : Predicate) (t : string) (a : CandidateAttrs)
    (Hpin : ThreadScopeOf p = Some t) (Hmatch : EvalPredicate p a = true) :
  ca_ThreadID a = t.
Proof.
  revert t Hpin Hmatch.
  induction p as [| | |c s|l IH|l IH|p IH| |l] using Predicate_ind'; simpl; intros t' Hpin Hm;
    try discriminate.
  - injection Hpin as <-. by apply String.eqb_eq.
  - destruct (scope_is_all s); [discriminate|]. injection Hpin as <-. by apply String.eqb_eq.
  - induction IH as [|p l Hp _ IHl]; [discriminate|].
    simpl in Hm. apply andb_prop in Hm as [Hm1 Hm2].
    destruct (ThreadScopeOf p) as [t0|] eqn:E; [|by apply IHl].
    injection Hpin as ->. by apply Hp.
Qed.

Definition witness_attrs : CandidateAttrs :=
  {| ca_MessageID := "m1"; ca_ThreadID := "t"; ca_Metadata := ∅ |}.

Lemma ThreadScopeOf_sound_witness :
  ThreadScopeOf (PredAnd [PredExcludeMessageIDs ["m0"]; PredScope "t" ScopeThread]) = Some "t" /\
  ca_ThreadID witness_attrs = "t".
Proof.
  split; [reflexivity|].
  apply (ThreadScopeOf_sound
    (PredAnd [PredExcludeMessageIDs ["m0"]; PredScope "t" ScopeThread]) "t" witness_attrs);
    vm_compute; reflexivity.
Defined.

(** A metadata query for an absent key accepts a candidate when the wanted
    value is the empty string. *)
Lemma PredHasMetadata_absent_key (k : string) (a : CandidateAttrs) :
  k <> "thread_id" -> ca_Metadata a !! k = None ->
  EvalPredicate (PredHasMetadata k "") a = true.
Proof.
  intros Hk Ha. simpl. rewrite (proj2 (String.eqb_neq _ _)) by done.
  unfold metadata_get. by rewrite Ha.
Qed.
