(* ===== verification/Chunk.v ===== *)
(** * Message chunking ([rrc/chunk])

    [Split] walks a long text forward in overlapping windows whose ends back
    off to a natural boundary.  Offsets are byte offsets into the trimmed
    text.  The estimator is an interface value: nil makes [Estimate] panic. *)

From Stdlib Require Import ZArith Lia String Ascii.
From S2P Require Import Prelude GoStrings.
#[local] Open Scope nat_scope.

Record Config := {
  MaxChars : Z;
  OverlapChars : Z;
  Estimator : option (string -> Z)
}.

Definition DefaultConfig : Config :=
  {| MaxChars := 2000; OverlapChars := 200; Estimator := None |}.

Definition Estimate (c : Config) (s : string) : outcome Z :=
  match Estimator c with
  | None => Panic "chunk: no TokenEstimator on Config"
  | Some est => Ok (est s)
  end.

Record Chunk := {
  ck_Index : nat;
  ck_Text : string;
  ck_ByteStart : nat;
  ck_ByteEnd : nat;
  ck_TokenEst : Z
}.

Definition is_blank (c : ascii) : bool :=
  let n := nat_of_ascii c in (n =? 32) || (n =? 9).

Definition terminators : list string :=
  [". "; "! "; "? "; "." ^^ tab; "!" ^^ tab; "?" ^^ tab].

(** The first terminator that occurs decides, at its last occurrence. *)
Fixpoint last_terminator (sl : string) (terms : list string) : option (nat * nat) :=
  match terms with
  | [] => None
  | term :: rest =>
      match last_index sl term with
      | Some idx => Some (idx, slen term)
      | None => last_terminator sl rest
      end
  end.

Definition findBoundary (text : string) (start maxEnd window : nat) : nat :=
  let minEnd := Nat.max (maxEnd - window) start in
  if maxEnd <=? minEnd then maxEnd
  else
    let sl := slice text minEnd maxEnd in
    match last_index sl (nl ^^ nl) with
    | Some idx => minEnd + idx + 2
    | None =>
        match last_index sl nl with
        | Some idx => minEnd + idx + 1
        | None =>
            match last_terminator sl terminators with
            | Some (idx, n) => minEnd + idx + n
            | None =>
                match last_index_any sl is_blank with
                | Some idx => minEnd + idx + 1
                | None => maxEnd
                end
            end
        end
    end.

(** The normalised sizes: [MaxChars > 0] and [0 <= OverlapChars < MaxChars]. *)
Definition norm_max (cfg : Config) : nat :=
  if (MaxChars cfg <=? 0)%Z then 2000 else Z.to_nat (MaxChars cfg).
Definition norm_overlap (cfg : Config) : nat :=
  let o := if (OverlapChars cfg <? 0)%Z then 0 else Z.to_nat (OverlapChars cfg) in
  if norm_max cfg <=? o then norm_max cfg / 4 else o.

(** The end of the window that starts at [i]. *)
Definition window_end (text : string) (maxc i : nat) : nat :=
  if slen text <=? i + maxc then slen text
  else findBoundary text i (i + maxc) (maxc / 2).

(** The loop body and its iteration; [None] is running out of fuel. *)
Fixpoint split_loop (cfg : Config) (text : string) (maxc overlap : nat)
    (fuel i : nat) (chunks : list Chunk) : option (outcome (list Chunk)) :=
  if slen text <=? i then Some (Ok chunks)
  else
    match fuel with
    | O => None
    | S fuel' =>
        let e := window_end text maxc i in
        let piece := trim_space (slice text i e) in
        let step (chunks' : list Chunk) :=
          if slen text <=? e then Some (Ok chunks')
          else
            let next := e - overlap in
            let next := if next <=? i then i + 1 else next in
            split_loop cfg text maxc overlap fuel' next chunks' in
        if String.eqb piece "" then step chunks
        else
          match Estimate cfg piece with
          | Ok est =>
              step (chunks ++ [{| ck_Index := length chunks; ck_Text := piece;
                                  ck_ByteStart := i; ck_ByteEnd := e; ck_TokenEst := est |}])
          | Err er => Some (Err er)
          | Panic s => Some (Panic s)
          end
    end.

Definition Split (text : string) (cfg : Config) : option (outcome (list Chunk)) :=
  let text := trim_space text in
  if String.eqb text "" then Some (Ok [])
  else
    let maxc := norm_max cfg in
    let overlap := norm_overlap cfg in
    if slen text <=? maxc then
      Some (match Estimate cfg text with
            | Ok est => Ok [{| ck_Index := 0; ck_Text := text; ck_ByteStart := 0;
                               ck_ByteEnd := slen text; ck_TokenEst := est |}]
            | Err er => Err er
            | Panic s => Panic s
            end)
    else split_loop cfg text maxc overlap (slen text) 0 [].

(** ** Window geometry *)

Lemma last_terminator_bound sl terms idx n :
  last_terminator sl terms = Some (idx, n) -> idx + n <= slen sl.
Proof.
  induction terms as [|t terms IH]; simpl; [done|]. case_match eqn:E; [|done].
  intros [= <- <-]. by apply last_index_bound.
Qed.

Lemma last_terminator_pos sl terms idx n :
  Forall (fun t => 0 < slen t) terms -> last_terminator sl terms = Some (idx, n) -> 0 < n.
Proof.
  induction 1 as [|t terms Ht _ IH]; simpl; [done|]. case_match; [|done]. by intros [= <- <-].
Qed.

(** A boundary lies in the second half of the window and past its start. *)
Lemma findBoundary_bounds text start maxEnd window :
  start < maxEnd -> maxEnd <= slen text ->
  start < findBoundary text start maxEnd window <= maxEnd /\
  maxEnd - window <= findBoundary text start maxEnd window.
Proof.
  intros Hs Hl. unfold findBoundary. set (minEnd := Nat.max (maxEnd - window) start).
  assert (start <= minEnd /\ maxEnd - window <= minEnd) as [H1 H2] by (unfold minEnd; lia).
  clearbody minEnd. destruct (maxEnd <=? minEnd) eqn:E; [apply Nat.leb_le in E; lia|].
  apply Nat.leb_gt in E.
  assert (slen (slice text minEnd maxEnd) = maxEnd - minEnd) as Hlen by (apply slice_length; lia).
  destruct (last_index _ (nl ^^ nl)) as [idx|] eqn:E1.
  { apply last_index_bound in E1. rewrite append_length in E1. simpl in E1. lia. }
  destruct (last_index _ nl) as [idx|] eqn:E2.
  { apply last_index_bound in E2. simpl in E2. lia. }
  destruct (last_terminator _ _) as [[idx n]|] eqn:E3.
  { pose proof (last_terminator_bound _ _ _ _ E3).
    assert (0 < n) by (eapply last_terminator_pos; [|exact E3]; repeat constructor; simpl; lia).
    lia. }
  destruct (last_index_any _ is_blank) as [idx|] eqn:E4; [|lia].
  apply last_index_any_bound in E4. lia.
Qed.

Lemma window_end_bounds text maxc i :
  0 < maxc -> i < slen text ->
  i < window_end text maxc i <= slen text /\ window_end text maxc i - i <= maxc.
Proof.
  intros Hm Hi. unfold window_end. destruct (slen text <=? i + maxc) eqn:E.
  - apply Nat.leb_le in E. lia.
  - apply Nat.leb_gt in E.
    pose proof (findBoundary_bounds text i (i + maxc) (maxc / 2)). lia.
Qed.

Lemma norm_max_pos cfg : 0 < norm_max cfg.
Proof. unfold norm_max. destruct (MaxChars cfg <=? 0)%Z eqn:E; lia. Qed.

Lemma norm_overlap_lt cfg : norm_overlap cfg < norm_max cfg.
Proof.
  pose proof (norm_max_pos cfg). unfold norm_overlap.
  destruct (OverlapChars cfg <? 0)%Z; destruct (norm_max cfg <=? _) eqn:E;
    try (apply Nat.leb_gt in E; lia);
    apply Nat.div_lt; lia.
Qed.

(** ** The loop *)

Section Loop.
Context (cfg : Config) (text : string) (maxc overlap : nat).
Hypothesis maxc_pos : 0 < maxc.

(** What every emitted chunk satisfies. *)
Definition chunk_ok (k : nat) (c : Chunk) : Prop :=
  ck_Index c = k /\
  ck_ByteStart c < ck_ByteEnd c <= slen text /\
  ck_ByteEnd c - ck_ByteStart c <= maxc /\
  ck_Text c = trim_space (slice text (ck_ByteStart c) (ck_ByteEnd c)) /\
  ck_Text c <> "" /\
  Estimate cfg (ck_Text c) = Ok (ck_TokenEst c).

Definition chunks_ok (cs : list Chunk) : Prop :=
  forall k c, cs !! k = Some c -> chunk_ok k c.

(** [p] is inside a chunk, or inside a window whose text is only space. *)
Definition covered (cs : list Chunk) (p : nat) : Prop :=
  (exists c, c ∈ cs /\ ck_ByteStart c <= p < ck_ByteEnd c) \/
  (exists a b, a <= p < b /\ b <= slen text /\ trim_space (slice text a b) = "").

Lemma covered_app cs cs' p : covered cs p -> covered (cs ++ cs') p.
Proof. intros [(c & Hc & Hp)|?]; [left; exists c; set_solver | by right]. Qed.

Lemma split_loop_progress i e :
  i < e -> i < (if e - overlap <=? i then i + 1 else e - overlap) /\
  (if e - overlap <=? i then i + 1 else e - overlap) <= e.
Proof. destruct (e - overlap <=? i) eqn:E; [lia|]. apply Nat.leb_gt in E. lia. Qed.

(** Enough fuel: the window start strictly increases. *)
Lemma split_loop_terminates fuel i cs :
  slen text - i <= fuel -> is_Some (split_loop cfg text maxc overlap fuel i cs).
Proof.
  revert i cs. induction fuel as [|f IH]; intros i cs Hf; cbn [split_loop].
  - rewrite (proj2 (Nat.leb_le _ _)) by lia. eauto.
  - destruct (slen text <=? i) eqn:E; [eauto|]. apply Nat.leb_gt in E.
    destruct (window_end_bounds text maxc i) as [Hw _]; [done|lia|].
    pose proof (split_loop_progress i (window_end text maxc i)).
    repeat case_match; eauto; apply IH; lia.
Qed.

Lemma split_loop_ok fuel i cs out :
  chunks_ok cs -> (forall p, p < i -> p < slen text -> covered cs p) ->
  split_loop cfg text maxc overlap fuel i cs = Some (Ok out) ->
  chunks_ok out /\ (forall p, p < slen text -> covered out p).
Proof.
  revert i cs. induction fuel as [|f IH]; intros i cs Hok Hcov H; cbn [split_loop] in H.
  - destruct (slen text <=? i) eqn:E; [|done]. apply Nat.leb_le in E.
    injection H as <-. split; [done|]. intros p Hp. apply Hcov; lia.
  - destruct (slen text <=? i) eqn:E.
    { apply Nat.leb_le in E. injection H as <-. split; [done|]. intros p Hp. apply Hcov; lia. }
    apply Nat.leb_gt in E.
    destruct (window_end_bounds text maxc i) as [Hw Hlen]; [done|lia|].
    set (e := window_end text maxc i) in *.
    set (piece := trim_space (slice text i e)) in *.
    assert (exists cs', chunks_ok cs' /\ (forall p, p < e -> covered cs' p) /\
      (if slen text <=? e then Some (Ok cs')
       else split_loop cfg text maxc overlap f
              (if e - overlap <=? i then i + 1 else e - overlap) cs') = Some (Ok out))
      as (cs' & Hok' & Hcov' & H').
    { destruct (String.eqb_spec piece "") as [Hp|Hp].
      - exists cs. split; [done|]. split; [|done]. intros p Hpe.
        destruct (decide (p < i)); [apply Hcov; lia|].
        right. exists i, e. repeat split; try lia. exact Hp.
      - destruct (Estimate cfg piece) as [est| |] eqn:Eest; [|done..].
        eexists. split; [|split; [|exact H]].
        + intros k c. rewrite lookup_app. destruct (cs !! k) as [c'|] eqn:Ek.
          * intros [= <-]. by apply Hok.
          * apply lookup_ge_None in Ek. intros Hc. apply list_lookup_singleton_Some in Hc as [Hk <-].
            repeat split; simpl; try lia; done.
        + intros p Hpe. destruct (decide (p < i)).
          * apply covered_app. apply Hcov; lia.
          * left. eexists. split; [apply elem_of_app; right; by apply list_elem_of_singleton|].
            simpl. lia. }
    destruct (slen text <=? e) eqn:Ee.
    + apply Nat.leb_le in Ee. injection H' as <-. split; [done|]. intros p Hp. apply Hcov'. lia.
    + pose proof (split_loop_progress i e). eapply IH; [exact Hok'| |exact H'].
      intros p Hp _. apply Hcov'. lia.
Qed.
End Loop.

(** Chunking always terminates (the window start strictly advances, so the
    text length is fuel enough), for every text and every configuration,
    including an overlap that would swallow the window. *)
Theorem Split_terminates (text : string) (cfg : Config) : is_Some (Split text cfg).
Proof.
  unfold Split. destruct (String.eqb _ ""); [eauto|].
  destruct (slen (trim_space text) <=? norm_max cfg); [eauto|].
  apply split_loop_terminates; [apply norm_max_pos|lia].
Qed.

(** What [Split] returns.  Chunks are numbered 0, 1, 2, ...; each spans a
    non-empty byte range of the trimmed text no longer than the size cap, its
    text is that range trimmed and never empty, its token estimate is the
    configured estimator's; and no byte of the trimmed text is lost: every
    position lies in a chunk or in a window that is only white space. *)
Theorem Split_spec (text : string) (cfg : Config) (out : list Chunk)
    (Hsplit : Split text cfg = Some (Ok out)) :
  chunks_ok cfg (trim_space text) (norm_max cfg) out /\
  (forall p, p < slen (trim_space text) -> covered (trim_space text) out p).
Proof.
  pose proof (norm_max_pos cfg) as Hpos. unfold Split in Hsplit.
  pose proof (trim_space_idemp text) as Hidem.
  remember (trim_space text) as t eqn:Et. clear Et.
  destruct (String.eqb_spec t "") as [He|He].
  { injection Hsplit as <-. rewrite He. split; [intros k c; by rewrite lookup_nil | simpl; lia]. }
  destruct (slen t <=? norm_max cfg) eqn:E.
  - apply Nat.leb_le in E. destruct (Estimate cfg t) as [est| |] eqn:Eest; [|done..].
    injection Hsplit as <-. assert (0 < slen t) by (destruct t; [done|simpl; lia]).
    split.
    + intros k c Hc. apply list_lookup_singleton_Some in Hc as [? <-]. subst k.
      unfold chunk_ok. cbn [ck_Index ck_Text ck_ByteStart ck_ByteEnd ck_TokenEst].
      rewrite slice_full. repeat split; try lia; try done.
    + intros p Hp. left. eexists. split; [by apply list_elem_of_singleton|]. simpl. lia.
  - apply (split_loop_ok cfg t (norm_max cfg) (norm_overlap cfg)) in Hsplit; [done|lia| |].
    + intros k c. by rewrite lookup_nil.
    + intros p Hp. lia.
Qed.

Definition byte_estimator : Config :=
  {| MaxChars := 8; OverlapChars := 3; Estimator := Some (fun s => Z.of_nat (slen s)) |}.
Definition sample_chunks : list Chunk :=
  Eval vm_compute in
    match Split " one two. three four " byte_estimator with Some (Ok l) => l | _ => [] end.

Lemma Split_spec_witness :
  Split " one two. three four " byte_estimator = Some (Ok sample_chunks) /\
  length sample_chunks = 4 /\
  chunks_ok byte_estimator (trim_space " one two. three four ") (norm_max byte_estimator) sample_chunks.
Proof.
  split; [vm_compute; reflexivity|]. split; [reflexivity|].
  exact (proj1 (Split_spec " one two. three four " byte_estimator sample_chunks
                  ltac:(vm_compute; reflexivity))).
Defined.

(** The call as its clients see it: the fuel of [Split] never runs out. *)
Definition run_split (text : string) (cfg : Config) : outcome (list Chunk) :=
  default (Panic "unreachable") (Split text cfg).

(** With an estimator installed, chunking succeeds. *)
Lemma split_loop_total cfg est text maxc overlap fuel i cs o :
  Estimator cfg = Some est ->
  split_loop cfg text maxc overlap fuel i cs = Some o -> exists out, o = Ok out.
Proof.
  intros He. revert i cs. induction fuel as [|f IH]; intros i cs H; cbn [split_loop] in H.
  - case_match; [|done]. injection H as <-. eauto.
  - unfold Estimate in H. rewrite He in H.
    repeat case_match; try done; try (injection H as <-; eauto); by eapply IH.
Qed.

Lemma run_split_total cfg est text :
  Estimator cfg = Some est -> exists out, run_split text cfg = Ok out.
Proof.
  intros He. unfold run_split, Split. destruct (String.eqb _ ""); [by eexists|].
  destruct (slen (trim_space text) <=? norm_max cfg).
  { unfold Estimate. rewrite He. by eexists. }
  destruct (split_loop_terminates cfg (trim_space text) (norm_max cfg) (norm_overlap cfg)
    (norm_max_pos cfg) (slen (trim_space text)) 0 []) as [o Ho]; [lia|].
  rewrite Ho. simpl. by eapply split_loop_total.
Qed.
