(* ===== verification/Detect.v ===== *)
(** * The acceptance law ([rrc/detect.go], [rrc/acceptance.go])

    Rank statistics against a reference sample the selection event draws for
    itself, evidence in bits, and the stance.  All arithmetic is float64. *)

From Stdlib Require Import ZArith Lia String SpecFloat.
From S2P Require Import Prelude GoFloat GoHash.
#[local] Open Scope nat_scope.

Definition ReferenceSampleSize : nat := 64.
Definition minReferenceSample : nat := 4.

Definition f64_of_nat (n : nat) : float := f64_of_Z (Z.of_nat n).

(** How many references the candidate fails to beat (a tie counts). *)
Definition rank_count (score : float) (refScores : list float) : nat :=
  length (filter (fun r => fle score r = true) refScores).

Definition nullP (score : float) (refScores : list float) : float :=
  fdiv (f64_of_nat (rank_count score refScores + 1)) (f64_of_nat (length refScores + 1)).

Definition surprisalBits (p : float) : float :=
  if fle p f0 then finf else fopp (GoMath.Log2 p).

Definition confidenceFromBits (bits : float) : float :=
  if feq bits finf then f1 else fsub f1 (GoMath.Exp2 (fopp bits)).

Definition bitsFromConfidence (conf : float) : float :=
  if fle f1 conf then finf
  else if fle conf f0 then f0
  else fopp (GoMath.Log2 (fsub f1 conf)).

Definition stanceBits (lossRatio : float) : float :=
  if fle lossRatio f0 then f0
  else if fle f1 lossRatio then finf
  else fopp (GoMath.Log2 (fsub f1 lossRatio)).

(** [1e-9] *)
Definition flat_eps : float := Eval vm_compute in f64_bits 0x3e112e0be826d695.

Definition range_lo (refs : list float) (r0 : float) : float :=
  fold_left (fun lo r => if flt r lo then r else lo) refs r0.
Definition range_hi (refs : list float) (r0 : float) : float :=
  fold_left (fun hi r => if flt hi r then r else hi) refs r0.

Definition flatReference (refScores : list float) : bool :=
  if length refScores <? minReferenceSample then false
  else
    match refScores with
    | [] => false
    | r0 :: rest => flt (fsub (range_hi rest r0) (range_lo rest r0)) flat_eps
    end.

Definition referenceSeed (fingerprint : string) : Z := fnv64a fingerprint.

(** [p >= lossRatio + mu*float64(tokens)] *)
Definition accept (p lossRatio mu : float) (tokens : Z) : bool :=
  fle (fadd lossRatio (fmul mu (f64_of_Z tokens))) p.

(** The bar every detection is held to: the probability of outranking the
    whole sample by chance. *)
Definition beatAll (n : nat) : float := fdiv f1 (f64_of_nat (n + 1)).

(** ** Exhaustive facts about the sample sizes in use

    [nullP] takes one of finitely many values for a sample of at most
    [ReferenceSampleSize] references, so statements about its float64 value
    are decided by evaluation. *)

Definition null_value (k n : nat) : float := fdiv (f64_of_nat (k + 1)) (f64_of_nat (n + 1)).

Definition for_ranks (P : nat -> nat -> bool) : bool :=
  forallb (fun n => forallb (fun k => P k n) (seq 0 (S n))) (seq 0 (S ReferenceSampleSize)).

Lemma for_ranks_spec P k n :
  for_ranks P = true -> k <= n -> n <= ReferenceSampleSize -> P k n = true.
Proof.
  unfold for_ranks. rewrite forallb_forall. intros H Hk Hn.
  assert (In n (seq 0 (S ReferenceSampleSize))) as Hin by (apply in_seq; lia).
  specialize (H n Hin). rewrite forallb_forall in H. apply H, in_seq. lia.
Qed.

Lemma rank_count_le score refs : rank_count score refs <= length refs.
Proof. apply length_filter. Qed.

Lemma rank_count_zero score refs :
  rank_count score refs = 0 <-> Forall (fun r => fle score r = false) refs.
Proof.
  unfold rank_count. induction refs as [|r refs IH]; [done|].
  rewrite Forall_cons, <- IH, filter_cons. destruct (fle score r) eqn:E.
  - rewrite decide_True by done. simpl. split; [lia|]. intros [? _]. done.
  - rewrite decide_False by done. tauto.
Qed.

Definition beat_table (k n : nat) : bool :=
  Bool.eqb (fle (null_value k n) (beatAll n)) (k =? 0).
Lemma beat_table_true : for_ranks beat_table = true.
Proof. vm_compute. reflexivity. Qed.

(** A candidate's null probability clears the detection bar exactly when
    the candidate scores strictly above every reference of the sample
    (distribution-free: nothing else about the scores matters), for every
    sample the engine can draw. *)
Theorem nullP_beats_all (score : float) (refs : list float)
    (Hsize : length refs <= ReferenceSampleSize) :
  fle (nullP score refs) (beatAll (length refs)) = true <->
  Forall (fun r => fle score r = false) refs.
Proof.
  rewrite <- rank_count_zero.
  pose proof (for_ranks_spec _ (rank_count score refs) _ beat_table_true
                (rank_count_le score refs) Hsize) as H.
  unfold beat_table in H. apply eqb_prop in H.
  change (null_value (rank_count score refs) (length refs)) with (nullP score refs) in H.
  rewrite H. apply Nat.eqb_eq.
Qed.

Lemma nullP_beats_all_witness :
  length [f0; fhalf; f1; f0] <= ReferenceSampleSize /\
  (fle (nullP f2 [f0; fhalf; f1; f0]) (beatAll 4) = true <->
   Forall (fun r => fle f2 r = false) [f0; fhalf; f1; f0]).
Proof.
  split; [unfold ReferenceSampleSize; simpl; lia|].
  apply (nullP_beats_all f2 [f0; fhalf; f1; f0]). unfold ReferenceSampleSize. simpl. lia.
Defined.

(** ** Detection evidence *)

(** [2^-12] bits *)
Definition bits_tolerance : float := f64_lit 1 (-12).

(** The confidence that is stored is a float32, and assembly turns it back
    into bits. *)
Definition stored_confidence (bits : float) : float :=
  f64_of_f32 (f32_of_f64 (confidenceFromBits bits)).

Definition for_samples (P : nat -> bool) : bool :=
  forallb P (seq minReferenceSample (ReferenceSampleSize - minReferenceSample + 1)).

Lemma for_samples_spec P n :
  for_samples P = true -> minReferenceSample <= n -> n <= ReferenceSampleSize -> P n = true.
Proof.
  unfold for_samples. rewrite forallb_forall. intros H Hlo Hhi. apply H, in_seq.
  unfold minReferenceSample, ReferenceSampleSize in *. lia.
Qed.

Definition evidence_table (n : nat) : bool :=
  let b := surprisalBits (beatAll n) in
  let c := stored_confidence b in
  fle (stanceBits fhalf) b && flt f0 c && flt c f1 && accept c fhalf f0 0 &&
  flt (fabs (fsub (bitsFromConfidence c) b)) bits_tolerance.
Lemma evidence_table_true : for_samples evidence_table = true.
Proof. vm_compute. reflexivity. Qed.

(** The evidence of a detection, for every gated sample size: its bits
    clear the default stance (one bit), the confidence stored on the edge (a
    float32) is strictly between 0 and 1 and clears the precision floor the
    traversal applies, and turning it back into bits, as the shed does, loses
    less than 2^-12 bit. *)
Theorem detection_evidence (n : nat)
    (Hlo : minReferenceSample <= n) (Hhi : n <= ReferenceSampleSize) :
  let b := surprisalBits (beatAll n) in
  let c := stored_confidence b in
  fle (stanceBits fhalf) b = true /\
  flt f0 c = true /\ flt c f1 = true /\
  accept c fhalf f0 0 = true /\
  flt (fabs (fsub (bitsFromConfidence c) b)) bits_tolerance = true.
Proof.
  pose proof (for_samples_spec _ n evidence_table_true Hlo Hhi) as H.
  unfold evidence_table in H. cbv zeta in H |- *.
  repeat match goal with H : _ && _ = true |- _ => apply andb_prop in H as [H ?] end.
  done.
Qed.

Lemma detection_evidence_witness :
  minReferenceSample <= 4 /\ accept (stored_confidence (surprisalBits (beatAll 4))) fhalf f0 0 = true.
Proof.
  split; [unfold minReferenceSample; lia|].
  apply (detection_evidence 4); unfold minReferenceSample, ReferenceSampleSize; lia.
Defined.

(** The stance examples in the comment of [stanceBits]. *)
Example stance_half : stanceBits fhalf = f64_of_Z 1.
Proof. vm_compute. reflexivity. Qed.
Example stance_three_quarters : stanceBits (f64_lit 3 (-2)) = f64_of_Z 2.
Proof. vm_compute. reflexivity. Qed.
Example stance_seven_eighths : stanceBits (f64_lit 7 (-3)) = f64_of_Z 3.
Proof. vm_compute. reflexivity. Qed.

(** ** The health check *)

Lemma fsub_self_finite x :
  match x with S754_finite _ _ _ | S754_zero _ => True | _ => False end ->
  flt (fsub x x) flat_eps = true.
Proof.
  destruct x as [s|s| |s m e]; try done; intros _.
  - by destruct s.
  - unfold fsub, SFsub. rewrite Z.sub_diag. reflexivity.
Qed.

Lemma range_constant (f : float -> float -> float) x refs :
  (forall y, y = x -> f x y = x) -> Forall (fun r => r = x) refs -> fold_left f refs x = x.
Proof.
  intros Hf H. induction H as [|r refs Hr _ IH]; simpl; [done|]. by rewrite (Hf r Hr).
Qed.

(** The scorer health check fires on a collapsed instrument: a sample of
    at least [minReferenceSample] references that all carry the same finite
    score is reported flat, and a smaller sample never is. *)
Theorem flatReference_constant (x : float) (refs : list float)
    (Hfin : match x with S754_finite _ _ _ | S754_zero _ => True | _ => False end)
    (Hall : Forall (fun r => r = x) refs) :
  flatReference refs = negb (length refs <? minReferenceSample).
Proof.
  unfold flatReference. destruct (length refs <? minReferenceSample) eqn:E; [done|].
  destruct Hall as [|r refs -> Hall]; [done|].
  unfold range_hi, range_lo. rewrite !range_constant; try done.
  - by rewrite fsub_self_finite.
  - intros y ->. by rewrite flt_irrefl.
  - intros y ->. by rewrite flt_irrefl.
Qed.

Lemma flatReference_constant_witness :
  Forall (fun r => r = fhalf) [fhalf; fhalf; fhalf; fhalf] /\
  flatReference [fhalf; fhalf; fhalf; fhalf] = true.
Proof.
  split; [repeat constructor|].
  rewrite (flatReference_constant fhalf [fhalf; fhalf; fhalf; fhalf]);
    [reflexivity|vm_compute; exact I|repeat constructor].
Defined.
