(* ===== verification/Dag.v ===== *)
(** * The prerequisite DAG and the score cache ([rrc/dag.go], [rrc/score_cache.go])

    The DAG is a dual adjacency list over one edge multiset.  A missing map
    entry is the empty list; [range] over the backward map is the [MapRange]
    parameter.  The cache writes through to an optional persister, recorded
    here as the log of persisted rows. *)

From Stdlib Require Import ZArith Lia String.
From S2P Require Import Prelude GoFloat Types.

(** ** DAG *)

Record dag := {
  backward : gmap string (list Edge);
  forward : gmap string (list Edge)
}.

Definition newDAG : dag := {| backward := ∅; forward := ∅ |}.

(** [m\[k\] = append(m\[k\], e)] *)
Definition append_at (k : string) (e : Edge) (m : gmap string (list Edge)) : gmap string (list Edge) :=
  <[k := default [] (m !! k) ++ [e]]> m.

Definition AddEdge (d : dag) (edge : Edge) : dag :=
  {| backward := append_at (e_ToMessageId edge) edge (backward d);
     forward := append_at (e_FromMessageId edge) edge (forward d) |}.

Definition AddEdges_all (d : dag) (edges : list Edge) : dag := fold_left AddEdge edges d.

Definition Prerequisites (d : dag) (id : string) : list Edge := default [] (backward d !! id).
Definition Dependents (d : dag) (id : string) : list Edge := default [] (forward d !! id).

Definition HasMessage (d : dag) (id : string) : bool :=
  bool_decide (is_Some (backward d !! id)) || bool_decide (is_Some (forward d !! id)).

Definition AllEdges `{!MapRange string} (d : dag) : list Edge :=
  (map_range (backward d)).*2 ≫= id.

Definition ThreadEdges `{!MapRange string} (d : dag) (threadID : string) : list Edge :=
  filter (fun e => e_FromThreadId e = threadID /\ e_ToThreadId e = threadID) (AllEdges d).

(** ** Well-formedness: both indexes hold the same edges, under the right key *)

(** Edges of an index, as a multiset. *)
Definition index_edges (m : gmap string (list Edge)) : list Edge := (map_to_list m).*2 ≫= id.

Record dag_wf (d : dag) : Prop := {
  wf_backward : forall k es e, backward d !! k = Some es -> e ∈ es -> e_ToMessageId e = k;
  wf_forward : forall k es e, forward d !! k = Some es -> e ∈ es -> e_FromMessageId e = k;
  wf_dual : index_edges (backward d) ≡ₚ index_edges (forward d)
}.

Lemma bind_id_perm {A} (l1 l2 : list (list A)) : l1 ≡ₚ l2 -> l1 ≫= id ≡ₚ l2 ≫= id.
Proof. intros H. by apply bind_Permutation. Qed.

Lemma index_edges_insert m k e :
  index_edges (append_at k e m) ≡ₚ e :: index_edges m.
Proof.
  unfold append_at, index_edges. destruct (m !! k) as [es|] eqn:E; simpl.
  - rewrite <- (insert_delete_eq m k (es ++ [e])).
    rewrite map_to_list_insert by apply lookup_delete_eq.
    rewrite <- (insert_id m k es) at 2 by done. rewrite <- (insert_delete_eq m k es).
    rewrite map_to_list_insert by apply lookup_delete_eq. simpl.
    change (id (es ++ [e]) ++ (map_to_list (delete k m)).*2 ≫= id ≡ₚ
            e :: (es ++ (map_to_list (delete k m)).*2 ≫= id)).
    unfold id. rewrite <- app_assoc. simpl. symmetry. apply Permutation_middle.
  - rewrite map_to_list_insert by done. reflexivity.
Qed.

Lemma append_at_key (f : Edge -> string) m e :
  (forall k es x, m !! k = Some es -> x ∈ es -> f x = k) ->
  forall k es x, append_at (f e) e m !! k = Some es -> x ∈ es -> f x = k.
Proof.
  intros Hm k es x. unfold append_at. rewrite lookup_insert. case_decide as Hk.
  - subst. intros [= <-]. rewrite elem_of_app, list_elem_of_singleton. intros [Hx| ->]; [|done].
    destruct (m !! f e) as [es|] eqn:E; simpl in Hx; [by eapply Hm|set_solver].
  - apply Hm.
Qed.

Lemma newDAG_wf : dag_wf newDAG.
Proof. split; simpl; try (intros k es e; rewrite lookup_empty; done). done. Qed.

Lemma AddEdge_wf d e : dag_wf d -> dag_wf (AddEdge d e).
Proof.
  intros [Hb Hf Hd]. split; simpl.
  - by apply (append_at_key e_ToMessageId).
  - by apply (append_at_key e_FromMessageId).
  - by rewrite !index_edges_insert, Hd.
Qed.

Lemma AddEdges_all_wf d es : dag_wf d -> dag_wf (AddEdges_all d es).
Proof. revert d. induction es as [|e es IH]; intros d Hd; simpl; [done|]. by apply IH, AddEdge_wf. Qed.

#[export] Hint Resolve newDAG_wf AddEdge_wf AddEdges_all_wf : core.

Section Edges.
Context `{!MapRange string}.

Lemma AllEdges_perm d : AllEdges d ≡ₚ index_edges (backward d).
Proof. unfold AllEdges, index_edges. apply bind_id_perm. by rewrite map_range_perm. Qed.

Lemma AddEdge_AllEdges d e : AllEdges (AddEdge d e) ≡ₚ e :: AllEdges d.
Proof. rewrite !AllEdges_perm. apply index_edges_insert. Qed.

Lemma AddEdges_all_AllEdges d es : AllEdges (AddEdges_all d es) ≡ₚ es ++ AllEdges d.
Proof.
  revert d. induction es as [|e es IH]; intros d; simpl; [done|].
  rewrite IH, AddEdge_AllEdges. symmetry. apply Permutation_middle.
Qed.

Lemma elem_of_AllEdges d e : e ∈ AllEdges d <-> exists k es, backward d !! k = Some es /\ e ∈ es.
Proof.
  unfold AllEdges. rewrite list_elem_of_bind. setoid_rewrite list_elem_of_fmap. split.
  - intros (es & He & [k es'] & -> & Hin). apply elem_of_map_range in Hin. eauto.
  - intros (k & es & Hk & He). exists es. split; [done|]. exists (k, es).
    by rewrite elem_of_map_range.
Qed.

Lemma newDAG_AllEdges : AllEdges newDAG ≡ₚ [].
Proof. by rewrite AllEdges_perm. Qed.
End Edges.

Lemma Prerequisites_AddEdge d e id :
  Prerequisites (AddEdge d e) id =
  Prerequisites d id ++ (if decide (e_ToMessageId e = id) then [e] else []).
Proof.
  unfold Prerequisites, AddEdge, append_at. simpl. rewrite lookup_insert.
  repeat case_decide; subst; try done. by rewrite app_nil_r.
Qed.

Lemma Prerequisites_AddEdges_all d es id :
  Prerequisites (AddEdges_all d es) id =
  Prerequisites d id ++ filter (fun e => e_ToMessageId e = id) es.
Proof.
  revert d. induction es as [|e es IH]; intros d; simpl; [by rewrite app_nil_r|].
  rewrite IH, Prerequisites_AddEdge, filter_cons, <- app_assoc. by case_decide.
Qed.

Lemma Prerequisites_to d id e : dag_wf d -> e ∈ Prerequisites d id -> e_ToMessageId e = id.
Proof.
  unfold Prerequisites. intros Hwf. destruct (backward d !! id) as [es|] eqn:E; simpl; [|set_solver].
  by eapply wf_backward.
Qed.

Lemma Dependents_from d id e : dag_wf d -> e ∈ Dependents d id -> e_FromMessageId e = id.
Proof.
  unfold Dependents. intros Hwf. destruct (forward d !! id) as [es|] eqn:E; simpl; [|set_solver].
  by eapply wf_forward.
Qed.

Lemma elem_of_index m e : e ∈ index_edges m <-> exists k es, m !! k = Some es /\ e ∈ es.
Proof.
  unfold index_edges. rewrite list_elem_of_bind. setoid_rewrite list_elem_of_fmap. split.
  - intros (es & He & [k es'] & -> & Hin). apply elem_of_map_to_list in Hin. eauto.
  - intros (k & es & Hk & He). exists es. split; [done|]. exists (k, es).
    by rewrite elem_of_map_to_list.
Qed.

(** The two adjacency lists are two views of one edge set.  However the
    DAG was built by edge insertions, an edge is listed among the
    prerequisites of its target iff it is listed among the dependents of its
    source, and every listed edge has that endpoint. *)
Theorem adjacency_dual (es : list Edge) (e : Edge) :
  let d := AddEdges_all newDAG es in
  (e ∈ Prerequisites d (e_ToMessageId e) <-> e ∈ es) /\
  (e ∈ Dependents d (e_FromMessageId e) <-> e ∈ es) /\
  (forall id, e ∈ Prerequisites d id -> e_ToMessageId e = id) /\
  (forall id, e ∈ Dependents d id -> e_FromMessageId e = id).
Proof.
  intros d. assert (dag_wf d) as Hwf by (apply AddEdges_all_wf; auto).
  assert (e ∈ Prerequisites d (e_ToMessageId e) <-> e ∈ es) as Hp.
  { unfold d. rewrite Prerequisites_AddEdges_all. unfold Prerequisites, newDAG. simpl.
    rewrite lookup_empty. simpl. rewrite list_elem_of_filter. tauto. }
  split; [done|]. split; [|split; intros id; [by apply Prerequisites_to|by apply Dependents_from]].
  rewrite <- Hp. unfold Prerequisites, Dependents.
  transitivity (e ∈ index_edges (forward d)); [|rewrite <- (wf_dual _ Hwf)];
    rewrite elem_of_index; split.
  - destruct (forward d !! _) as [l|] eqn:E; simpl; [eauto|set_solver].
  - intros (k & l & Hk & He). by rewrite (wf_forward _ Hwf k l e Hk He), Hk.
  - intros (k & l & Hk & He). by rewrite (wf_backward _ Hwf k l e Hk He), Hk.
  - destruct (backward d !! _) as [l|] eqn:E; simpl; [eauto|set_solver].
Qed.

(** ** Score cache *)

Record scoreKey := {
  LocalContextFingerprint : string;
  LocalContextChunkIndex : nat;
  CandidateMsgID : string;
  CandidateChunkIdx : nat
}.

#[export] Instance scoreKey_eq_dec : EqDecision scoreKey.
Proof. solve_decision. Defined.
#[export] Instance scoreKey_countable : Countable scoreKey.
Proof.
  apply (inj_countable'
    (fun k => (LocalContextFingerprint k, LocalContextChunkIndex k, CandidateMsgID k, CandidateChunkIdx k))
    (fun '(a, b, c, d) => Build_scoreKey a b c d)).
  by intros [].
Defined.

Record PersistedScore := { ps_Key : scoreKey; ps_Score : float }.

(** [persist] is the installed [ScorePersister], if any; the rows handed to
    it are appended to [persisted]. *)
Record scoreCache := {
  scores : gmap scoreKey float;
  persist : bool;
  persisted : list PersistedScore
}.

Definition newScoreCache : scoreCache := {| scores := ∅; persist := false; persisted := [] |}.

Definition setPersister (p : bool) (sc : scoreCache) : scoreCache :=
  {| scores := scores sc; persist := p; persisted := persisted sc |}.

Definition setLocalContext (k : scoreKey) (score : float) (sc : scoreCache) : scoreCache :=
  {| scores := <[k := score]> (scores sc);
     persist := persist sc;
     persisted := if persist sc then persisted sc ++ [{| ps_Key := k; ps_Score := score |}]
                  else persisted sc |}.

Definition getLocalContext (sc : scoreCache) (k : scoreKey) : option float := scores sc !! k.

Definition loadSilent (k : scoreKey) (score : float) (sc : scoreCache) : scoreCache :=
  {| scores := <[k := score]> (scores sc); persist := persist sc; persisted := persisted sc |}.

Definition all_scores (sc : scoreCache) : gmap scoreKey float := scores sc.

Lemma getLocalContext_set k k' s sc :
  getLocalContext (setLocalContext k s sc) k' = if decide (k = k') then Some s else getLocalContext sc k'.
Proof. unfold getLocalContext, setLocalContext. simpl. by rewrite lookup_insert. Qed.

Lemma getLocalContext_load k k' s sc :
  getLocalContext (loadSilent k s sc) k' = if decide (k = k') then Some s else getLocalContext sc k'.
Proof. unfold getLocalContext, loadSilent. simpl. by rewrite lookup_insert. Qed.

(** [c'] is [c] after some write-through insertions of new keys. *)
Record cache_grows (c c' : scoreCache) : Prop := {
  cg_keep : forall k s, getLocalContext c k = Some s -> getLocalContext c' k = Some s;
  cg_persist : persist c' = persist c;
  cg_prefix : persisted c `prefix_of` persisted c';
  cg_write : forall k s, persist c = true -> getLocalContext c' k = Some s ->
    getLocalContext c k = Some s \/ {| ps_Key := k; ps_Score := s |} ∈ persisted c'
}.

#[export] Instance cache_grows_preorder : PreOrder cache_grows.
Proof.
  split; [intros c; split; auto|].
  intros c1 c2 c3 [A1 A2 A3 A4] [B1 B2 B3 B4]. split; [auto|congruence|by etransitivity|].
  intros k s Hp Hk. destruct (B4 k s) as [H|H]; [congruence|done| |auto].
  destruct (A4 k s Hp H) as [?|Hin]; [auto|right]. destruct B3 as [x ->]. set_solver.
Qed.

Lemma cache_grows_set c c' k s :
  getLocalContext c k = None -> cache_grows c c' -> cache_grows c (setLocalContext k s c').
Proof.
  intros Hk [A1 A2 A3 A4]. split.
  - intros k' s' Hk'. rewrite getLocalContext_set. case_decide; [congruence|auto].
  - done.
  - simpl. destruct (persist c'); [by apply prefix_app_r|done].
  - intros k' s' Hp. rewrite getLocalContext_set. simpl. rewrite A2, Hp. case_decide as Hd.
    + intros [= <-]. subst. set_solver.
    + intros H. destruct (A4 k' s' Hp H); set_solver.
Qed.
