(* ===== verification/Protocol.v ===== *)
(** * Protocol closure ([rrc/protocol.go])

    A tool call and its result are one protocol unit: a message may only be
    sent with the exact counterparts of its call and result blocks.
    [NewProtocolIndex] indexes a corpus by (thread, call id); [CloseGroup]
    computes the transitive closure of a root by breadth-first search.

    The second half states closure declaratively ([resolves], [reach]) and
    shows the search computes exactly that. *)

From Stdlib Require Import ZArith Lia String.
From stdpp Require Import sorting relations.
From S2P Require Import Prelude GoFloat GoSort GoStrings Types.
#[local] Open Scope nat_scope.

Record DeliveryGroup := {
  dg_RootID : string;
  dg_RootIDs : list string;
  dg_Score : float;
  dg_Messages : list Message
}.

Record ProtocolIndex := {
  callByKey : gmap string Message;
  resultByKey : gmap string Message;
  ambiguous : gmap string bool
}.

Definition protocolKey (threadID callID : string) : string := threadID ^^ nul ^^ callID.
Definition call_tag (key : string) : string := "call" ^^ nul ^^ key.
Definition result_tag (key : string) : string := "result" ^^ nul ^^ key.

(** [prior != nil && prior.Id != m.Id] *)
Definition clashes (prior : option Message) (m : Message) : bool :=
  match prior with Some q => negb (String.eqb (m_Id q) (m_Id m)) | None => false end.

Definition note_call (m : Message) (key : string) (p : ProtocolIndex) : ProtocolIndex :=
  {| callByKey := <[key := m]> (callByKey p);
     resultByKey := resultByKey p;
     ambiguous := if clashes (callByKey p !! key) m then <[call_tag key := true]> (ambiguous p)
                  else ambiguous p |}.

Definition note_result (m : Message) (key : string) (p : ProtocolIndex) : ProtocolIndex :=
  {| callByKey := callByKey p;
     resultByKey := <[key := m]> (resultByKey p);
     ambiguous := if clashes (resultByKey p !! key) m then <[result_tag key := true]> (ambiguous p)
                  else ambiguous p |}.

(** The keys a block is indexed under: an empty call id is not indexed. *)
Definition call_key (m : Message) (b : ContentBlock) : option string :=
  match GetToolCall b with
  | Some tc => if String.eqb (tc_Id tc) "" then None else Some (protocolKey (m_ThreadId m) (tc_Id tc))
  | None => None
  end.
Definition result_key (m : Message) (b : ContentBlock) : option string :=
  match GetToolResult b with
  | Some tr => if String.eqb (tr_ToolCallId tr) "" then None
               else Some (protocolKey (m_ThreadId m) (tr_ToolCallId tr))
  | None => None
  end.

Definition index_block (p : ProtocolIndex) (m : Message) (b : ContentBlock) : ProtocolIndex :=
  let p := match call_key m b with Some key => note_call m key p | None => p end in
  match result_key m b with Some key => note_result m key p | None => p end.

Definition NewProtocolIndex (corpus : list Message) : ProtocolIndex :=
  fold_left (fun p m => fold_left (fun p b => index_block p m b) (m_Content m) p) corpus
    {| callByKey := ∅; resultByKey := ∅; ambiguous := ∅ |}.

Definition err_multiple (what id plural thread : string) : goerr :=
  ENew ("protocol closure: " ^^ what ^^ " " ^^ id ^^ " has multiple " ^^ plural ^^
        " in thread " ^^ thread).
Definition err_missing (id relation thread : string) : goerr :=
  ENew ("protocol closure: message " ^^ id ^^ " requires exact " ^^ relation ^^
        " in thread " ^^ thread).

(** The switch on one block of [current]: [Ok None] is [continue]. *)
Definition counterpart (p : ProtocolIndex) (current : Message) (b : ContentBlock)
    : outcome (option Message) :=
  match GetToolCall b with
  | Some tc =>
      let key := protocolKey (m_ThreadId current) (tc_Id tc) in
      if flag (ambiguous p) (result_tag key)
      then Err (err_multiple "tool call" (tc_Id tc) "results" (m_ThreadId current))
      else match resultByKey p !! key with
           | None => Err (err_missing (m_Id current) "tool result" (m_ThreadId current))
           | Some m => Ok (Some m)
           end
  | None =>
      match GetToolResult b with
      | Some tr =>
          let key := protocolKey (m_ThreadId current) (tr_ToolCallId tr) in
          if flag (ambiguous p) (call_tag key)
          then Err (err_multiple "tool result" (tr_ToolCallId tr) "calls" (m_ThreadId current))
          else match callByKey p !! key with
               | None => Err (err_missing (m_Id current) "tool call" (m_ThreadId current))
               | Some m => Ok (Some m)
               end
      | None => Ok None
      end
  end.

Record closure_state := {
  cs_seen : gset string;
  cs_queue : list Message;
  cs_messages : list Message
}.

Definition visit_block (p : ProtocolIndex) (current : Message) (st : closure_state)
    (b : ContentBlock) : outcome closure_state :=
  match counterpart p current b with
  | Ok None => Ok st
  | Ok (Some m) =>
      if decide (m_Id m ∈ cs_seen st) then Ok st
      else Ok {| cs_seen := {[m_Id m]} ∪ cs_seen st;
                 cs_queue := cs_queue st ++ [m];
                 cs_messages := cs_messages st ++ [m] |}
  | Err e => Err e
  | Panic s => Panic s
  end.

(** [None] is running out of fuel. *)
Fixpoint close_loop (p : ProtocolIndex) (fuel : nat) (st : closure_state)
    : option (outcome (list Message)) :=
  match cs_queue st with
  | [] => Some (Ok (cs_messages st))
  | current :: queue =>
      match fuel with
      | O => None
      | S fuel' =>
          match foldM (visit_block p current)
                  {| cs_seen := cs_seen st; cs_queue := queue; cs_messages := cs_messages st |}
                  (m_Content current) with
          | Ok st' => close_loop p fuel' st'
          | Err e => Some (Err e)
          | Panic s => Some (Panic s)
          end
      end
  end.

(** Delivery order: thread, then position. *)
Definition delivery_less (a b : Message) : bool :=
  if String.eqb (m_ThreadId a) (m_ThreadId b) then (m_Position a <? m_Position b)%Z
  else str_lt (m_ThreadId a) (m_ThreadId b).

Definition closure_fuel (p : ProtocolIndex) : nat := S (size (callByKey p) + size (resultByKey p)).

Definition CloseGroup (p : ProtocolIndex) (root : option Message) (score : float)
    : option (outcome DeliveryGroup) :=
  match root with
  | None => Some (Err (ENew "protocol closure: nil root"))
  | Some root =>
      match close_loop p (closure_fuel p)
              {| cs_seen := {[m_Id root]}; cs_queue := [root]; cs_messages := [root] |} with
      | None => None
      | Some (Err e) => Some (Err e)
      | Some (Panic s) => Some (Panic s)
      | Some (Ok messages) =>
          Some (Ok {| dg_RootID := m_Id root; dg_RootIDs := [m_Id root]; dg_Score := score;
                      dg_Messages := sort_stable delivery_less messages |})
      end
  end.

Lemma delivery_less_asym a b : delivery_less a b = true -> delivery_less b a = false.
Proof.
  unfold delivery_less. rewrite (String.eqb_sym (m_ThreadId b)).
  destruct (String.eqb_spec (m_ThreadId a) (m_ThreadId b)); [lia|apply str_lt_asym].
Qed.

Lemma delivery_less_ntrans a b c :
  delivery_less a b = false -> delivery_less b c = false -> delivery_less a c = false.
Proof.
  unfold delivery_less.
  destruct (String.eqb_spec (m_ThreadId a) (m_ThreadId b)) as [E1|E1],
    (String.eqb_spec (m_ThreadId b) (m_ThreadId c)) as [E2|E2],
    (String.eqb_spec (m_ThreadId a) (m_ThreadId c)) as [E3|E3]; try congruence; try lia;
    intros H1 H2; try by rewrite ?E1, <- ?E2.
  - exfalso. apply E1, str_lt_total; [done|]. by rewrite E3.
  - by eapply str_lt_ntrans.
Qed.

(** ** What the index knows about the corpus *)

Definition all_blocks (corpus : list Message) : list (Message * ContentBlock) :=
  corpus ≫= fun m => (fun b => (m, b)) <$> m_Content m.

Lemma elem_of_all_blocks corpus m b :
  (m, b) ∈ all_blocks corpus <-> m ∈ corpus /\ b ∈ m_Content m.
Proof.
  unfold all_blocks. rewrite list_elem_of_bind. setoid_rewrite list_elem_of_fmap. split.
  - intros (m' & (b' & [= -> ->] & Hb) & Hm). done.
  - intros [Hm Hb]. exists m. split; [by exists b|done].
Qed.

Lemma NewProtocolIndex_blocks corpus :
  NewProtocolIndex corpus =
  fold_left (fun p mb => index_block p mb.1 mb.2) (all_blocks corpus)
    {| callByKey := ∅; resultByKey := ∅; ambiguous := ∅ |}.
Proof.
  unfold NewProtocolIndex, all_blocks. generalize (Build_ProtocolIndex ∅ ∅ ∅).
  induction corpus as [|m corpus IH]; intros p; simpl; [done|].
  rewrite fold_left_app, IH. f_equal. generalize (m_Content m) as bs. intros bs. revert p.
  induction bs as [|b bs IHb]; intros p; simpl; [done|]. apply IHb.
Qed.

#[local] Ltac in_app := rewrite ?elem_of_app, ?list_elem_of_singleton; naive_solver.

Section Table.
Context (f : Message -> ContentBlock -> option string).

(** Two messages with different ids are indexed under [key]. *)
Definition split_key (l : list (Message * ContentBlock)) (key : string) : Prop :=
  exists m1 b1 m2 b2, (m1, b1) ∈ l /\ (m2, b2) ∈ l /\
    f m1 b1 = Some key /\ f m2 b2 = Some key /\ m_Id m1 <> m_Id m2.

Record table_inv (t : gmap string Message) (amb : string -> bool)
    (l : list (Message * ContentBlock)) : Prop := {
  table_none : forall key m b, t !! key = None -> (m, b) ∈ l -> f m b <> Some key;
  table_some : forall key m, t !! key = Some m -> exists b, (m, b) ∈ l /\ f m b = Some key;
  table_amb : forall key, amb key = true <-> split_key l key
}.

Lemma split_key_mono l x key : split_key l key -> split_key (l ++ [x]) key.
Proof. intros (m1 & b1 & m2 & b2 & ?). exists m1, b1, m2, b2. in_app. Qed.

Lemma table_inv_skip t amb l m b :
  f m b = None -> table_inv t amb l -> table_inv t amb (l ++ [(m, b)]).
Proof.
  intros Hf [Hn Hs Ha]. split.
  - intros key m' b' Ht. rewrite elem_of_app, list_elem_of_singleton.
    intros [H|[= -> ->]]; [by eapply Hn|congruence].
  - intros key m' Ht. destruct (Hs key m' Ht) as (b' & ? & ?). exists b'. in_app.
  - intros key. rewrite Ha. split; [apply split_key_mono|].
    intros (m1 & b1 & m2 & b2 & H1 & H2 & F1 & F2 & Hne).
    rewrite elem_of_app, list_elem_of_singleton in H1, H2.
    destruct H1 as [H1|[= -> ->]], H2 as [H2|[= -> ->]]; try congruence.
    exists m1, b1, m2, b2. done.
Qed.

Lemma table_inv_note t amb l m b key :
  f m b = Some key -> table_inv t amb l ->
  table_inv (<[key := m]> t)
    (fun k => if decide (k = key) then clashes (t !! key) m || amb k else amb k)
    (l ++ [(m, b)]).
Proof.
  intros Hf [Hn Hs Ha]. split.
  - intros k m' b'. rewrite lookup_insert_None. intros [Ht Hk].
    rewrite elem_of_app, list_elem_of_singleton. intros [H|[= -> ->]]; [by eapply Hn|congruence].
  - intros k m'. rewrite lookup_insert. case_decide as Hk.
    + intros [= <-]. subst k. exists b. in_app.
    + intros Ht. destruct (Hs k m' Ht) as (b' & ? & ?). exists b'. in_app.
  - intros k. case_decide as Hk; [|rewrite Ha; split; [apply split_key_mono|]].
    + subst k. rewrite orb_true_iff, Ha. split.
      * intros [Hc|H]; [|by apply split_key_mono].
        destruct (t !! key) as [q|] eqn:Et; [|done]. simpl in Hc.
        apply negb_true_iff, String.eqb_neq in Hc.
        destruct (Hs key q Et) as (bq & Hq & Fq).
        exists q, bq, m, b. in_app.
      * intros (m1 & b1 & m2 & b2 & H1 & H2 & F1 & F2 & Hne).
        destruct (t !! key) as [q|] eqn:Et; simpl.
        -- destruct (Hs key q Et) as (bq & Hq & Fq).
           destruct (String.eqb_spec (m_Id q) (m_Id m)) as [He|]; [right|by left].
           rewrite elem_of_app, list_elem_of_singleton in H1, H2.
           destruct H1 as [H1|[= -> ->]], H2 as [H2|[= -> ->]]; try congruence.
           ++ exists m1, b1, m2, b2. done.
           ++ exists m1, b1, q, bq. rewrite He. done.
           ++ exists q, bq, m2, b2. rewrite He. done.
        -- rewrite elem_of_app, list_elem_of_singleton in H1, H2.
           destruct H1 as [H1|[= -> ->]], H2 as [H2|[= -> ->]]; try congruence;
             exfalso; eapply Hn; eauto.
    + intros (m1 & b1 & m2 & b2 & H1 & H2 & F1 & F2 & Hne).
      rewrite elem_of_app, list_elem_of_singleton in H1, H2.
      destruct H1 as [H1|[= -> ->]], H2 as [H2|[= -> ->]]; try congruence.
      exists m1, b1, m2, b2. done.
Qed.

Lemma table_inv_ext t amb amb' l :
  (forall k, amb k = amb' k) -> table_inv t amb l -> table_inv t amb' l.
Proof. intros He [Hn Hs Ha]. split; [done..|]. intros k. by rewrite <- He. Qed.
End Table.

Record index_inv (p : ProtocolIndex) (l : list (Message * ContentBlock)) : Prop := {
  inv_call : table_inv call_key (callByKey p) (fun k => flag (ambiguous p) (call_tag k)) l;
  inv_result : table_inv result_key (resultByKey p) (fun k => flag (ambiguous p) (result_tag k)) l
}.

Lemma call_tag_inj k k' : call_tag k = call_tag k' -> k = k'.
Proof. intros H. by injection H. Qed.
Lemma result_tag_inj k k' : result_tag k = result_tag k' -> k = k'.
Proof. intros H. by injection H. Qed.
Lemma call_result_tag k k' : call_tag k <> result_tag k'.
Proof. discriminate. Qed.

Lemma flag_insert `{Countable K} (m : gmap K bool) (k k' : K) b :
  flag (<[k := b]> m) k' = if decide (k = k') then b else flag m k'.
Proof. unfold flag. rewrite lookup_insert. by case_decide. Qed.

Lemma flag_note (tag : string -> string) (Hinj : forall k k', tag k = tag k' -> k = k') c amb key k :
  (if decide (k = key) then c || flag amb (tag k) else flag amb (tag k)) =
  flag (if c then <[tag key := true]> amb else amb) (tag k).
Proof.
  destruct c; simpl; [rewrite flag_insert|by case_decide].
  repeat case_decide; subst; try done. exfalso. eauto.
Qed.

Lemma flag_note_other (amb : gmap string bool) (c : bool) t t' :
  t <> t' -> flag amb t' = flag (if c then <[t := true]> amb else amb) t'.
Proof. destruct c; [|done]. intros. by rewrite flag_insert, decide_False. Qed.

Lemma index_block_inv p l m b :
  index_inv p l -> index_inv (index_block p m b) (l ++ [(m, b)]).
Proof.
  intros [Hc Hr]. unfold index_block.
  assert (call_key m b = None \/ result_key m b = None) as Hone.
  { unfold call_key, result_key. destruct b; simpl; auto. }
  destruct (call_key m b) as [kc|] eqn:Ec, (result_key m b) as [kr|] eqn:Er;
    try (destruct Hone; discriminate).
  - split; [|apply table_inv_skip; [done|]]; simpl.
    + eapply table_inv_ext; [|by apply table_inv_note]. intros k.
      apply flag_note, call_tag_inj.
    + eapply table_inv_ext; [|exact Hr]. intros k. apply flag_note_other, call_result_tag.
  - split; [apply table_inv_skip; [done|]|]; simpl.
    + eapply table_inv_ext; [|exact Hc]. intros k. apply flag_note_other.
      intros ?. by eapply call_result_tag.
    + eapply table_inv_ext; [|by apply table_inv_note]. intros k.
      apply flag_note, result_tag_inj.
  - split; by apply table_inv_skip.
Qed.

Lemma NewProtocolIndex_inv corpus : index_inv (NewProtocolIndex corpus) (all_blocks corpus).
Proof.
  rewrite NewProtocolIndex_blocks. induction (all_blocks corpus) as [|[m b] l IH] using rev_ind.
  - split; split; simpl; try (intros; set_solver); intros key; unfold flag; rewrite lookup_empty;
      simpl; (split; [done|]); intros (?&?&?&?&?&?); set_solver.
  - rewrite fold_left_app. simpl. by apply index_block_inv.
Qed.

Lemma table_ids_le f t amb l : table_inv f t amb l -> forall m, m ∈ (map_to_list t).*2 -> exists b, (m, b) ∈ l.
Proof.
  intros Ht m. rewrite list_elem_of_fmap. intros ([k m'] & -> & Hk). apply elem_of_map_to_list in Hk.
  destruct (table_some _ _ _ _ Ht k m' Hk) as (b & ? & ?). eauto.
Qed.

(** ** Closure, declaratively *)

Definition protocol_block (b : ContentBlock) : bool :=
  match b with BToolCall _ | BToolResult _ => true | _ => false end.

Definition carries (f : Message -> ContentBlock -> option string) (corpus : list Message)
    (key : string) (m : Message) : Prop :=
  m ∈ corpus /\ exists b, b ∈ m_Content m /\ f m b = Some key.

(** [m] carries [key], and no message with another id does. *)
Definition sole (f : Message -> ContentBlock -> option string) (corpus : list Message)
    (key : string) (m : Message) : Prop :=
  carries f corpus key m /\ forall m', carries f corpus key m' -> m_Id m' = m_Id m.

(** [m] is the exact counterpart of block [b] of [current]. *)
Definition resolves (corpus : list Message) (current : Message) (b : ContentBlock) (m : Message) : Prop :=
  match b with
  | BToolCall tc => sole result_key corpus (protocolKey (m_ThreadId current) (tc_Id tc)) m
  | BToolResult tr => sole call_key corpus (protocolKey (m_ThreadId current) (tr_ToolCallId tr)) m
  | _ => False
  end.

Definition link (corpus : list Message) (m m' : Message) : Prop :=
  exists b, b ∈ m_Content m /\ resolves corpus m b m'.

Definition reach (corpus : list Message) : Message -> Message -> Prop := rtc (link corpus).

Lemma table_sole f t amb corpus key m :
  table_inv f t amb (all_blocks corpus) -> amb key = false -> t !! key = Some m ->
  sole f corpus key m.
Proof.
  intros Hi Ha Ht. destruct (table_some _ _ _ _ Hi key m Ht) as (b & Hb & Hf).
  pose proof Hb as Hb'. apply elem_of_all_blocks in Hb as [Hm Hb]. split; [split; eauto|].
  intros m' (Hm' & b' & Hin & Hf'). destruct (decide (m_Id m' = m_Id m)) as [|Hne]; [done|].
  assert (amb key = true) as E; [|by rewrite E in Ha]. apply (table_amb _ _ _ _ Hi).
  exists m', b', m, b. rewrite !elem_of_all_blocks. done.
Qed.

Lemma table_not_sole f t amb corpus key m :
  table_inv f t amb (all_blocks corpus) -> amb key = true \/ t !! key = None ->
  ~ sole f corpus key m.
Proof.
  intros Hi Hor [(Hm & b & Hb & Hf) Hall]. destruct Hor as [Ha|Ht].
  - apply (table_amb _ _ _ _ Hi) in Ha as (m1 & b1 & m2 & b2 & H1 & H2 & F1 & F2 & Hne).
    apply elem_of_all_blocks in H1 as [? ?], H2 as [? ?]. apply Hne.
    rewrite (Hall m1), (Hall m2); [done|split; eauto..].
  - by apply (table_none _ _ _ _ Hi key m b Ht); [apply elem_of_all_blocks|].
Qed.

Lemma counterpart_spec corpus current b :
  match counterpart (NewProtocolIndex corpus) current b with
  | Ok None => protocol_block b = false
  | Ok (Some m) => resolves corpus current b m
  | Err _ => protocol_block b = true /\ forall m, ~ resolves corpus current b m
  | Panic _ => False
  end.
Proof.
  destruct (NewProtocolIndex_inv corpus) as [Hc Hr].
  unfold counterpart, resolves. destruct b; simpl; try done.
  - destruct (flag _ _) eqn:Ea; [split; [done|]; intros m; eapply table_not_sole; eauto|].
    destruct (_ !! _) eqn:Et; [by eapply table_sole|].
    split; [done|]. intros m. eapply table_not_sole; eauto.
  - destruct (flag _ _) eqn:Ea; [split; [done|]; intros m; eapply table_not_sole; eauto|].
    destruct (_ !! _) eqn:Et; [by eapply table_sole|].
    split; [done|]. intros m. eapply table_not_sole; eauto.
Qed.

(** ** The search *)

Record search_inv (pool : list Message) (R : Message -> Prop) (handled : list Message)
    (st : closure_state) : Prop := {
  si_split : cs_messages st = handled ++ cs_queue st;
  si_seen : forall id, id ∈ cs_seen st <-> id ∈ m_Id <$> cs_messages st;
  si_nodup : NoDup (m_Id <$> cs_messages st);
  si_reach : forall m, m ∈ cs_messages st -> R m;
  si_pool : forall m, m ∈ cs_messages st -> m ∈ pool
}.

Definition index_pool (p : ProtocolIndex) : list Message :=
  (map_to_list (callByKey p)).*2 ++ (map_to_list (resultByKey p)).*2.

Lemma counterpart_pool p current b m :
  counterpart p current b = Ok (Some m) -> m ∈ index_pool p.
Proof.
  unfold counterpart, index_pool. intros H. go_case H; injection H as ->;
    rewrite elem_of_app, !list_elem_of_fmap; [right|left];
    eexists (_, _); (split; [|by apply elem_of_map_to_list]); done.
Qed.

Lemma counterpart_no_panic p current b s : counterpart p current b <> Panic s.
Proof. unfold counterpart. repeat case_match; done. Qed.

Lemma visit_block_inv p pool (R : Message -> Prop) handled current b st st' :
  (forall m, counterpart p current b = Ok (Some m) -> R m /\ m ∈ pool) ->
  search_inv pool R handled st -> visit_block p current st b = Ok st' ->
  search_inv pool R handled st' /\ cs_seen st ⊆ cs_seen st' /\
  forall m, counterpart p current b = Ok (Some m) -> m_Id m ∈ cs_seen st'.
Proof.
  intros Hc [Hsp Hse Hnd Hre Hpo] H. unfold visit_block in H.
  destruct (counterpart p current b) as [[m|]| |] eqn:E; try done; [|by injection H as <-].
  destruct (Hc m eq_refl) as [HR Hpool].
  destruct (decide (m_Id m ∈ cs_seen st)) as [Hin|Hin]; injection H as <-.
  - split; [done|]. split; [done|]. by intros ? [= <-].
  - split; [|split; simpl; [set_solver|intros ? [= <-]; set_solver]].
    split; simpl.
    + by rewrite Hsp, app_assoc.
    + intros id. rewrite fmap_app, elem_of_app, elem_of_union, <- Hse. simpl.
      rewrite elem_of_singleton, list_elem_of_singleton. tauto.
    + rewrite fmap_app. apply NoDup_app. split; [done|]. split; [|apply NoDup_singleton].
      intros id Hid. apply Hse in Hid. simpl. rewrite list_elem_of_singleton. intros ->. done.
    + intros m'. rewrite elem_of_app, list_elem_of_singleton. intros [?| ->]; eauto.
    + intros m'. rewrite elem_of_app, list_elem_of_singleton. intros [?| ->]; eauto.
Qed.

Lemma visit_blocks_inv p pool (R : Message -> Prop) handled current bs st st' :
  (forall b m, b ∈ bs -> counterpart p current b = Ok (Some m) -> R m /\ m ∈ pool) ->
  search_inv pool R handled st -> foldM (visit_block p current) st bs = Ok st' ->
  search_inv pool R handled st' /\ cs_seen st ⊆ cs_seen st' /\
  forall b m, b ∈ bs -> counterpart p current b = Ok (Some m) -> m_Id m ∈ cs_seen st'.
Proof.
  revert st. induction bs as [|b bs IH]; intros st Hc Hi H; simpl in H.
  - injection H as <-. split; [done|]. split; [done|]. set_solver.
  - unfold mbind, outcome_bind in H. destruct (visit_block p current st b) as [st1| |] eqn:E; try done.
    destruct (visit_block_inv p pool R handled current b st st1) as (Hi1 & Hsub1 & Hb1); [|done..|].
    { intros m. apply Hc. set_solver. }
    destruct (IH st1) as (Hi2 & Hsub2 & Hb2); [|done..|].
    { intros b' m Hb'. apply Hc. set_solver. }
    split; [done|]. split; [set_solver|].
    intros b' m [->|Hb']%elem_of_cons Hm; [apply Hsub2; eauto|eauto].
Qed.

Lemma search_step pool R handled current queue st :
  cs_queue st = current :: queue -> search_inv pool R handled st ->
  search_inv pool R (handled ++ [current])
    {| cs_seen := cs_seen st; cs_queue := queue; cs_messages := cs_messages st |}.
Proof.
  intros Hq [Hsp Hse Hnd Hre Hpo]. split; simpl; try done.
  by rewrite Hsp, Hq, <- app_assoc.
Qed.

Lemma search_bound pool R handled st :
  search_inv pool R handled st -> length handled + length (cs_queue st) <= length pool.
Proof.
  intros [Hsp _ Hnd _ Hpo]. rewrite <- length_app, <- Hsp.
  apply submseteq_length, NoDup_submseteq; [|done]. by eapply NoDup_fmap_1.
Qed.

Lemma close_loop_terminates p root fuel handled st :
  search_inv (root :: index_pool p) (fun _ => True) handled st ->
  length (root :: index_pool p) <= fuel + length handled ->
  is_Some (close_loop p fuel st).
Proof.
  revert handled st. induction fuel as [|fuel IH]; intros handled st Hi Hf;
    pose proof (search_bound _ _ _ _ Hi) as Hb; simpl.
  - destruct (cs_queue st) eqn:Eq; [eauto|]. exfalso. simpl in *. lia.
  - destruct (cs_queue st) as [|current queue] eqn:Eq; [eauto|].
    pose proof (search_step _ _ _ _ _ _ Eq Hi) as Hi'.
    destruct (foldM _ _ _) as [st'| |] eqn:E; [|eauto..].
    eapply visit_blocks_inv in E as (Hi2 & _); [|clear E|exact Hi'].
    + eapply IH; [exact Hi2|]. rewrite length_app. simpl. simpl in Hf. lia.
    + intros b m _ Hm. split; [done|]. right. by eapply counterpart_pool.
Qed.

Lemma search_init (root : Message) pool (R : Message -> Prop) :
  R root -> root ∈ pool ->
  search_inv pool R [] {| cs_seen := {[m_Id root]}; cs_queue := [root]; cs_messages := [root] |}.
Proof.
  intros. split; simpl; [done| |apply NoDup_singleton| |].
  - intros id. rewrite elem_of_singleton, list_elem_of_singleton. done.
  - intros m. by rewrite list_elem_of_singleton; intros ->.
  - intros m. by rewrite list_elem_of_singleton; intros ->.
Qed.

Lemma index_pool_length p : length (index_pool p) = size (callByKey p) + size (resultByKey p).
Proof. unfold index_pool. by rewrite length_app, !length_fmap, !length_map_to_list. Qed.

(** Protocol closure terminates: every enqueued message has a new id and
    comes from the index, so the number of indexed keys bounds the search. *)
Theorem CloseGroup_terminates (p : ProtocolIndex) (root : option Message) (score : float) :
  is_Some (CloseGroup p root score).
Proof.
  unfold CloseGroup. destruct root as [root|]; [|eauto].
  destruct (close_loop_terminates p root (closure_fuel p) []
              {| cs_seen := {[m_Id root]}; cs_queue := [root]; cs_messages := [root] |}) as [o Ho].
  - apply search_init; [done|]. set_solver.
  - unfold closure_fuel. rewrite <- index_pool_length. simpl. lia.
  - rewrite Ho. destruct o; eauto.
Qed.

(** The call as its clients see it: the fuel never runs out. *)
Definition run_close (p : ProtocolIndex) (root : Message) (score : float) : outcome DeliveryGroup :=
  default (Panic "unreachable") (CloseGroup p (Some root) score).

(** Every protocol block of [ms] has its counterpart, by id, in [ms]. *)
Definition closed_under (p : ProtocolIndex) (ids : list string) (ms : list Message) : Prop :=
  forall m b, m ∈ ms -> b ∈ m_Content m ->
    exists o, counterpart p m b = Ok o /\ forall m', o = Some m' -> m_Id m' ∈ ids.

Lemma visit_blocks_ok p current bs st st' :
  foldM (visit_block p current) st bs = Ok st' ->
  forall b, b ∈ bs -> exists o, counterpart p current b = Ok o.
Proof.
  revert st. induction bs as [|x bs IH]; intros st H b; [by intros ?%elem_of_nil|].
  cbn [foldM] in H. unfold mbind, outcome_bind in H. destruct (visit_block p current st x) as [st1| |] eqn:E; try done.
  intros [->|Hb]%elem_of_cons; [|by eapply IH]. unfold visit_block in E.
  destruct (counterpart p current x); [eauto|done..].
Qed.

Lemma close_loop_closed p pool fuel handled st ms :
  (forall m, m ∈ index_pool p -> m ∈ pool) ->
  search_inv pool (fun _ => True) handled st -> closed_under p (m_Id <$> cs_messages st) handled ->
  close_loop p fuel st = Some (Ok ms) ->
  NoDup (m_Id <$> ms) /\ closed_under p (m_Id <$> ms) ms /\ (forall m, m ∈ ms -> m ∈ pool) /\
  exists more, ms = cs_messages st ++ more.
Proof.
  intros Hpool. revert handled st. induction fuel as [|fuel IH]; intros handled st Hi Hh H; simpl in H;
    destruct (cs_queue st) as [|current queue] eqn:Eq; try done.
  1,2: injection H as <-; pose proof (si_split _ _ _ _ Hi) as Hsp; rewrite Eq, app_nil_r in Hsp;
    split; [apply (si_nodup _ _ _ _ Hi)|]; split; [by rewrite <- Hsp in Hh|];
    split; [apply (si_pool _ _ _ _ Hi)|]; exists []; by rewrite app_nil_r.
  pose proof (search_step _ _ _ _ _ _ Eq Hi) as Hi'.
  destruct (foldM _ _ _) as [st'| |] eqn:E; [|done..].
  pose proof (visit_blocks_ok _ _ _ _ _ E) as Hok. pose proof E as E'.
  eapply visit_blocks_inv in E' as (Hi2 & Hsub & Hb2); [|clear E|exact Hi'].
  2: { intros b m _ Hm. split; [done|]. by eapply Hpool, counterpart_pool. }
  assert (exists more, cs_messages st' = cs_messages st ++ more) as [more Hmore].
  { clear -E. match type of E with foldM _ ?s _ = _ => change (cs_messages st) with (cs_messages s); revert E; generalize s end.
    induction (m_Content current) as [|b bs IHb]; intros s E; cbn [foldM] in E.
    { injection E as <-. exists []. by rewrite app_nil_r. }
    unfold mbind, outcome_bind in E. destruct (visit_block p current s b) as [s1| |] eqn:Ev; try done.
    destruct (IHb s1 E) as [more ->]. unfold visit_block in Ev.
    destruct (counterpart p current b) as [[m|]| |]; try done; [|injection Ev as <-; eauto].
    destruct (decide _); injection Ev as <-; [eauto|]. simpl. rewrite <- app_assoc. eauto. }
  destruct (IH (handled ++ [current]) st' Hi2) as (R1 & R2 & R3 & more' & ->); [|exact H|].
  - intros m b [Hm| ->%list_elem_of_singleton]%elem_of_app Hb.
    + destruct (Hh m b Hm Hb) as (o & Ho & Hin). exists o. split; [done|]. intros m' Hm'.
      rewrite Hmore, fmap_app, elem_of_app. auto.
    + destruct (Hok b Hb) as [o Ho]. exists o. split; [done|]. intros m' ->.
      apply (si_seen _ _ _ _ Hi2). by eapply Hb2.
  - split; [done|]. split; [done|]. split; [done|]. exists (more ++ more'). by rewrite Hmore, <- app_assoc.
Qed.

(** What a successful closure promises, whatever the index. *)
Lemma run_close_ok p root score g :
  run_close p root score = Ok g ->
  dg_RootID g = m_Id root /\ dg_RootIDs g = [m_Id root] /\ dg_Score g = score /\ root ∈ dg_Messages g /\
  NoDup (m_Id <$> dg_Messages g) /\ closed_under p (m_Id <$> dg_Messages g) (dg_Messages g) /\
  (forall m, m ∈ dg_Messages g -> m ∈ root :: index_pool p).
Proof.
  unfold run_close, CloseGroup. destruct (close_loop _ _ _) as [[ms| |]|] eqn:E; try done.
  intros [= <-]. cbn [dg_RootID dg_RootIDs dg_Score dg_Messages].
  apply (close_loop_closed p (root :: index_pool p) _ []) in E as (Hnd & Hcl & Hpool & more & ->).
  - do 3 (split; [done|]). split; [apply elem_of_sort_stable; set_solver|].
    split; [by rewrite (sort_stable_perm delivery_less)|].
    split; [|intros m; rewrite elem_of_sort_stable; apply Hpool].
    intros m b. rewrite elem_of_sort_stable. intros Hm Hb.
    destruct (Hcl m b Hm Hb) as (o & Ho & Hin). exists o. split; [done|].
    intros m' Hm'. rewrite (sort_stable_perm delivery_less). auto.
  - intros m Hm. by right.
  - apply search_init; [done|by left].
  - by intros m b ?%elem_of_nil.
Qed.

(** The index only holds messages of its corpus. *)
Lemma index_pool_corpus corpus m : m ∈ index_pool (NewProtocolIndex corpus) -> m ∈ corpus.
Proof.
  destruct (NewProtocolIndex_inv corpus) as [Hc Hr]. unfold index_pool.
  intros [Hm|Hm]%elem_of_app; apply list_elem_of_fmap in Hm as ([k x] & -> & Hk);
    apply elem_of_map_to_list in Hk; [apply (table_some _ _ _ _ Hc) in Hk|apply (table_some _ _ _ _ Hr) in Hk];
    destruct Hk as (b & Hb & _); by apply elem_of_all_blocks in Hb as [? _].
Qed.

Section Exact.
Context (corpus : list Message) (root : Message).
Hypothesis ids_unique :
  forall a b, a ∈ root :: corpus -> b ∈ root :: corpus -> m_Id a = m_Id b -> a = b.

Let p := NewProtocolIndex corpus.
Let R := reach corpus root.

(** Every protocol block of [m] has its counterpart's id among [seen]. *)
Definition settled (seen : gset string) (m : Message) : Prop :=
  forall b, b ∈ m_Content m -> protocol_block b = true ->
  exists m', resolves corpus m b m' /\ m_Id m' ∈ seen.

Definition unresolved : Prop :=
  exists m b, R m /\ b ∈ m_Content m /\ protocol_block b = true /\
    forall m', ~ resolves corpus m b m'.

Lemma resolves_corpus m b m' : resolves corpus m b m' -> m' ∈ corpus.
Proof. destruct b; simpl; try done; intros [[? _] _]; done. Qed.

Lemma resolves_unique m b m1 m2 : resolves corpus m b m1 -> resolves corpus m b m2 -> m1 = m2.
Proof.
  intros H1 H2. apply ids_unique; [right; by eapply resolves_corpus..|].
  destruct b; simpl in *; try done; destruct H1 as [_ H1], H2 as [H2 _]; symmetry; auto.
Qed.

Lemma visit_blocks_error current bs st e :
  R current -> bs ⊆ m_Content current ->
  foldM (visit_block p current) st bs = Err e -> unresolved.
Proof.
  intros HR. revert st. induction bs as [|b bs IH]; intros st Hbs H; simpl in H; [done|].
  unfold mbind, outcome_bind in H.
  destruct (visit_block p current st b) as [st1|e1|] eqn:E; [|clear H|done].
  - apply (IH st1); [set_solver|done].
  - unfold visit_block in E. pose proof (counterpart_spec corpus current b) as Hs. fold p in Hs.
    destruct (counterpart p current b) as [[m|]| |]; try case_decide; try done.
    destruct Hs as [Hb Hn]. exists current, b. set_solver.
Qed.

Lemma visit_blocks_no_panic current bs st s :
  foldM (visit_block p current) st bs <> Panic s.
Proof.
  revert st. induction bs as [|b bs IH]; intros st; simpl; [done|].
  unfold mbind, outcome_bind, visit_block.
  pose proof (counterpart_no_panic p current b) as Hn.
  destruct (counterpart p current b) as [[m|]|e|t]; [case_decide; apply IH|apply IH|done|].
  by destruct (Hn t).
Qed.

Lemma foldM_ok_visit current bs st st' b e :
  foldM (visit_block p current) st bs = Ok st' -> b ∈ bs -> counterpart p current b <> Err e.
Proof.
  revert st. induction bs as [|c bs IH]; intros st H Hb He; simpl in H; [set_solver|].
  unfold mbind, outcome_bind in H.
  destruct (visit_block p current st c) as [st1| |] eqn:E; [|done..].
  apply elem_of_cons in Hb as [->|Hb]; [|by eapply IH].
  unfold visit_block in E. by rewrite He in E.
Qed.

(** What the search returns. *)
Definition search_result (o : outcome (list Message)) : Prop :=
  match o with
  | Ok ms => (forall m, m ∈ ms -> R m) /\ NoDup (m_Id <$> ms) /\ root ∈ ms /\
             (forall m, m ∈ ms -> m ∈ root :: corpus) /\
             (forall m, m ∈ ms -> settled (list_to_set (m_Id <$> ms)) m)
  | Err _ => unresolved
  | Panic _ => False
  end.

Lemma close_loop_exact fuel handled st o :
  search_inv (root :: corpus) R handled st -> root ∈ cs_messages st ->
  (forall m, m ∈ handled -> settled (cs_seen st) m) ->
  close_loop p fuel st = Some o -> search_result o.
Proof.
  revert handled st. induction fuel as [|fuel IH]; intros handled st Hi Hroot Hh H; simpl in H.
  all: destruct (cs_queue st) as [|current queue] eqn:Eq.
  1,3: injection H as <-; destruct Hi as [Hsp Hse Hnd Hre Hpo];
    rewrite Eq, app_nil_r in Hsp; simpl; repeat split; [done..|];
    intros m Hm b Hb Hpb; rewrite Hsp in Hm;
    destruct (Hh m Hm b Hb Hpb) as (m' & Hr & Hin);
    exists m'; split; [done|]; by apply elem_of_list_to_set, Hse.
  - done.
  - pose proof (search_step _ _ _ _ _ _ Eq Hi) as Hi'.
    assert (R current) as HRc.
    { apply (si_reach _ _ _ _ Hi). rewrite (si_split _ _ _ _ Hi), Eq. set_solver. }
    destruct (foldM _ _ _) as [st'|e|] eqn:E.
    + pose proof E as E'. eapply visit_blocks_inv in E' as (Hi2 & Hsub & Hb2); [| |exact Hi'].
      2: { intros b m Hb Hm. pose proof (counterpart_spec corpus current b) as Hs. fold p in Hs.
           rewrite Hm in Hs. split; [|right; by eapply resolves_corpus].
           eapply rtc_r; [exact HRc|]. by exists b. }
      eapply IH; [exact Hi2| | |exact H].
      * rewrite (si_split _ _ _ _ Hi2) . pose proof (si_seen _ _ _ _ Hi2 (m_Id root)) as Hs.
        rewrite <- (si_split _ _ _ _ Hi2).
        assert (m_Id root ∈ cs_seen st') as Hin.
        { apply Hsub. simpl. apply (si_seen _ _ _ _ Hi). by apply list_elem_of_fmap_2. }
        apply Hs, list_elem_of_fmap in Hin as (r & Hid & Hr).
        rewrite (ids_unique root r); [done|by left|by apply (si_pool _ _ _ _ Hi2)|done].
      * intros m. rewrite elem_of_app, list_elem_of_singleton. intros [Hm| ->] b Hb Hpb.
        -- destruct (Hh m Hm b Hb Hpb) as (m' & Hr & Hin). exists m'. split; [done|].
           by apply Hsub.
        -- pose proof (counterpart_spec corpus current b) as Hs. fold p in Hs.
           destruct (counterpart p current b) as [[m'|]|e|] eqn:Ec; try congruence; try done.
           ++ exists m'. split; [done|]. by apply (Hb2 b).
           ++ exfalso. eapply foldM_ok_visit; eauto.
    + injection H as <-. simpl. by eapply visit_blocks_error.
    + by apply visit_blocks_no_panic in E.
Qed.
End Exact.

(** C10: [CloseGroup] computes exactly the protocol closure of its root.  When
    message ids identify the corpus's messages, the call returns, and either
    it succeeds: the group holds the messages reachable from the root through
    tool-call/result counterparts, each once, in delivery order, and every
    protocol block in the group has its unique exact counterpart in the
    group; or it fails, and then some reachable message has a protocol block
    with no unique counterpart (missing, or claimed by two messages). *)
Theorem CloseGroup_exact (corpus : list Message) (root : Message) (score : float)
    (Hids : forall a b, a ∈ root :: corpus -> b ∈ root :: corpus -> m_Id a = m_Id b -> a = b) :
  exists out, CloseGroup (NewProtocolIndex corpus) (Some root) score = Some out /\
  match out with
  | Ok g =>
      dg_RootID g = m_Id root /\ dg_RootIDs g = [m_Id root] /\ dg_Score g = score /\
      (forall m, m ∈ dg_Messages g <-> reach corpus root m) /\
      NoDup (m_Id <$> dg_Messages g) /\
      StronglySorted (not_after delivery_less) (dg_Messages g) /\
      (forall m b, m ∈ dg_Messages g -> b ∈ m_Content m -> protocol_block b = true ->
         exists m', resolves corpus m b m' /\ m' ∈ dg_Messages g)
  | Err _ => unresolved corpus root
  | Panic _ => False
  end.
Proof.
  unfold CloseGroup. set (st := {| cs_seen := _; cs_queue := _; cs_messages := _ |}).
  destruct (close_loop_terminates (NewProtocolIndex corpus) root
              (closure_fuel (NewProtocolIndex corpus)) [] st) as [o Ho].
  { apply search_init; [done|set_solver]. }
  { unfold closure_fuel. rewrite <- index_pool_length. simpl. lia. }
  rewrite Ho. apply (close_loop_exact corpus root Hids) with (handled := []) in Ho;
    [|apply search_init; [constructor|set_solver]|simpl; set_solver|set_solver].
  destruct o as [ms|e|]; [|by eexists|done]. eexists. split; [reflexivity|]. simpl.
  destruct Ho as (Hre & Hnd & Hroot & Hpool & Hset).
  assert (forall m m' b, m ∈ ms -> b ∈ m_Content m -> resolves corpus m b m' -> m' ∈ ms) as Hclosed.
  { intros m m' b Hm Hb Hr. destruct (Hset m Hm b Hb) as (m2 & Hr2 & Hin).
    { destruct b; simpl in Hr; done. }
    rewrite (resolves_unique corpus root Hids m b m' m2) by done.
    apply elem_of_list_to_set, list_elem_of_fmap in Hin as (m3 & Hid & Hm3).
    rewrite (Hids m2 m3); [done|right; by eapply resolves_corpus|by apply Hpool|done]. }
  do 3 (split; [done|]). split.
  { intros m. rewrite elem_of_sort_stable. split; [apply Hre|]. clear -Hroot Hclosed.
    intros Hr. induction Hr as [|x y z (b & Hb & Hres) _ IH]; [done|]. by eapply IH, Hclosed. }
  split; [by rewrite (sort_stable_perm delivery_less ms)|]. split.
  { apply (sort_stable_Sorted delivery_less (fun _ => True)).
    - intros a b _ _. apply delivery_less_asym.
    - intros a b c _ _ _. apply delivery_less_ntrans.
    - by apply Forall_true. }
  intros m b. rewrite elem_of_sort_stable. intros Hm Hb Hp.
  destruct (Hset m Hm b Hb Hp) as (m' & Hr & _). exists m'. split; [done|].
  rewrite elem_of_sort_stable. by eapply Hclosed.
Qed.

Module Sample.
Definition msg (id : string) (pos : Z) (c : list ContentBlock) : Message :=
  {| m_Id := id; m_Role := ROLE_ASSISTANT; m_Content := c; m_Position := pos;
     m_ThreadId := "t"; m_CreatedAt := None; m_TurnId := "u" |}.
Definition call (id : string) : ContentBlock :=
  BToolCall {| tc_Id := id; tc_Name := "ls"; tc_Arguments := "{}"; tc_Signature := "" |}.
Definition result (id : string) : ContentBlock :=
  BToolResult {| tr_ToolCallId := id; tr_Content := "ok"; tr_IsError := false |}.
Definition corpus : list Message :=
  [msg "a" 1 [call "1"; call "2"]; msg "b" 2 [result "1"]; msg "c" 3 [result "2"; call "3"];
   msg "d" 4 [result "3"]; msg "e" 5 []].
Definition ids (o : option (outcome DeliveryGroup)) : list string :=
  match o with Some (Ok g) => m_Id <$> dg_Messages g | _ => [] end.
End Sample.

Lemma CloseGroup_exact_witness :
  Sample.ids (CloseGroup (NewProtocolIndex Sample.corpus) (Some (Sample.msg "b" 2 [Sample.result "1"])) f1)
    = ["a"; "b"; "c"; "d"] /\
  exists out, CloseGroup (NewProtocolIndex Sample.corpus)
                (Some (Sample.msg "b" 2 [Sample.result "1"])) f1 = Some out.
Proof.
  split; [vm_compute; reflexivity|].
  destruct (CloseGroup_exact Sample.corpus (Sample.msg "b" 2 [Sample.result "1"]) f1) as (out & H & _).
  - intros a b Ha Hb. unfold Sample.corpus in Ha, Hb.
    repeat setoid_rewrite elem_of_cons in Ha. repeat setoid_rewrite elem_of_cons in Hb.
    rewrite elem_of_nil in Ha, Hb.
    destruct_or?; subst; try done; by intros.
  - by exists out.
Defined.
