(* ===== verification/Pairing.v ===== *)
(** * Closed corpora: what the write side owes to protocol closure

    [CloseGroup] ([rrc/protocol.go]) fails on a tool call whose result is not
    in the corpus, and that failure is final for the thread.  A corpus is
    [pair_closed] when every tool call and every tool result has its one
    counterpart, in the same thread and turn.  Here is what keeps a corpus
    closed when messages are appended, and what a closed corpus buys: closure
    succeeds from every message, on the corpus and on every part of it that
    contains its own counterparts. *)

From Stdlib Require Import ZArith Lia String Ascii.
From S2P Require Import Prelude GoFloat GoSort GoStrings Types Protocol.
#[local] Open Scope nat_scope.

(** A message that protocol closure does not look at. *)
Definition keyless (m : Message) : Prop := forall b, b ∈ m_Content m -> protocol_block b = false.

Definition pair_closed (corpus : list Message) : Prop := forall m b,
  m ∈ corpus -> b ∈ m_Content m -> protocol_block b = true ->
  m_TurnId m <> "" /\
  exists m', resolves corpus m b m' /\ m_ThreadId m' = m_ThreadId m /\ m_TurnId m' = m_TurnId m.

(** No message is indexed under [key]. *)
Definition unused (corpus : list Message) (key : string) : Prop := forall m b,
  m ∈ corpus -> b ∈ m_Content m -> call_key m b <> Some key /\ result_key m b <> Some key.

(** The call and its result, as the runner writes them. *)
Definition call_message (callID : string) (m : Message) : Prop :=
  exists tc, m_Content m = [BToolCall tc] /\ tc_Id tc = callID.
Definition result_message (callID : string) (m : Message) : Prop :=
  exists tr, m_Content m = [BToolResult tr] /\ tr_ToolCallId tr = callID.

Lemma append_cancel_l a b c : a ^^ b = a ^^ c -> b = c.
Proof. induction a as [|x a IH]; simpl; [done|]. intros [= H]. auto. Qed.

Lemma protocolKey_inj thread a b : protocolKey thread a = protocolKey thread b -> a = b.
Proof. unfold protocolKey. intros H%append_cancel_l. by injection H. Qed.

Lemma keyless_keys m b : keyless m -> b ∈ m_Content m -> call_key m b = None /\ result_key m b = None.
Proof. intros Hk Hb%Hk. by destruct b. Qed.

Lemma sole_app f corpus new key m :
  sole f corpus key m -> (forall m' b, m' ∈ new -> b ∈ m_Content m' -> f m' b <> Some key) ->
  sole f (corpus ++ new) key m.
Proof.
  intros [[Hm Hk] Hall] Hnew. split; [split; [set_solver|done]|].
  intros m' [[Hm'|Hm']%elem_of_app (b & Hb & Hf)]; [by apply Hall; split; eauto|]. by destruct (Hnew m' b Hm' Hb).
Qed.

Lemma resolves_app corpus new m b m' :
  resolves corpus m b m' ->
  (forall n c key, n ∈ new -> c ∈ m_Content n -> call_key n c = Some key \/ result_key n c = Some key ->
     unused corpus key) ->
  resolves (corpus ++ new) m b m'.
Proof.
  intros Hr Hnew. destruct b; simpl in *; try done; destruct Hr as [Hc Hall];
    (apply sole_app; [by split|]); intros n c Hn Hb Hk; destruct Hc as [Hm' (b & Hb' & Hk')];
    [destruct (Hnew n c _ Hn Hb (or_intror Hk) m' b Hm' Hb')|destruct (Hnew n c _ Hn Hb (or_introl Hk) m' b Hm' Hb')]; done.
Qed.

(** Appending keeps the old messages closed when the new keys are unused. *)
Lemma pair_closed_app corpus new :
  pair_closed corpus ->
  (forall n c key, n ∈ new -> c ∈ m_Content n -> call_key n c = Some key \/ result_key n c = Some key ->
     unused corpus key) ->
  (forall m b, m ∈ new -> b ∈ m_Content m -> protocol_block b = true ->
     m_TurnId m <> "" /\
     exists m', resolves (corpus ++ new) m b m' /\ m_ThreadId m' = m_ThreadId m /\ m_TurnId m' = m_TurnId m) ->
  pair_closed (corpus ++ new).
Proof.
  intros Hc Hkeys Hnew m b [Hm|Hm]%elem_of_app Hb Hp; [|by apply Hnew].
  destruct (Hc m b Hm Hb Hp) as (Ht & m' & Hr & Hth & Htu). split; [done|].
  exists m'. split; [by apply resolves_app|done].
Qed.

Lemma pair_closed_keyless corpus m : keyless m -> pair_closed corpus -> pair_closed (corpus ++ [m]).
Proof.
  intros Hk Hc. apply pair_closed_app; [done|..].
  - intros n c key ->%list_elem_of_singleton Hin [H|H]; destruct (keyless_keys m c Hk Hin); congruence.
  - intros n b ->%list_elem_of_singleton Hb Hp. by rewrite (Hk b Hb) in Hp.
Qed.

Section Pair.
Context (corpus : list Message) (callID : string) (call result : Message).
Hypothesis Hid : callID <> "".
Hypothesis Hcall : call_message callID call.
Hypothesis Hresult : result_message callID result.
Hypothesis Hthread : m_ThreadId result = m_ThreadId call.
Hypothesis Hturn : m_TurnId result = m_TurnId call.
Hypothesis Hnonempty : m_TurnId call <> "".
Hypothesis Hunused : unused corpus (protocolKey (m_ThreadId call) callID).

Let key := protocolKey (m_ThreadId call) callID.

Lemma call_message_keys b : b ∈ m_Content call -> call_key call b = Some key /\ result_key call b = None.
Proof.
  destruct Hcall as (tc & -> & E). intros ->%list_elem_of_singleton. unfold call_key, result_key. simpl. rewrite E.
  by destruct (String.eqb_spec callID "").
Qed.

Lemma result_message_keys b : b ∈ m_Content result -> call_key result b = None /\ result_key result b = Some key.
Proof.
  destruct Hresult as (tr & -> & E). intros ->%list_elem_of_singleton. unfold call_key, result_key. simpl. rewrite E, Hthread.
  by destruct (String.eqb_spec callID "").
Qed.

Lemma sole_result : sole result_key (corpus ++ [call; result]) key result.
Proof.
  split.
  - split; [set_solver|]. destruct Hresult as (tr & Hc & E). exists (BToolResult tr).
    assert (BToolResult tr ∈ m_Content result) as Hb by (rewrite Hc; by left).
    split; [done|]. by apply result_message_keys.
  - intros m' [[Hm|[->|[->|[]%elem_of_nil]%elem_of_cons]%elem_of_cons]%elem_of_app (b & Hb & Hf)]; [|..|done].
    + by destruct (Hunused m' b Hm Hb).
    + destruct (call_message_keys b Hb); congruence.
Qed.

Lemma sole_call : sole call_key (corpus ++ [call; result]) key call.
Proof.
  split.
  - split; [set_solver|]. destruct Hcall as (tc & Hc & E). exists (BToolCall tc).
    assert (BToolCall tc ∈ m_Content call) as Hb by (rewrite Hc; by left).
    split; [done|]. by apply call_message_keys.
  - intros m' [[Hm|[->|[->|[]%elem_of_nil]%elem_of_cons]%elem_of_cons]%elem_of_app (b & Hb & Hf)]; [|done|].
    + by destruct (Hunused m' b Hm Hb).
    + destruct (result_message_keys b Hb); congruence.
Qed.

(** A pair under an unused key keeps the corpus closed. *)
Lemma pair_closed_pair : pair_closed corpus -> pair_closed (corpus ++ [call; result]).
Proof.
  intros Hc. apply pair_closed_app; [done|..].
  - intros n c k [->|[->|[]%elem_of_nil]%elem_of_cons]%elem_of_cons Hin.
    + destruct (call_message_keys c Hin) as [-> ->]. intros [[= <-]|?]; done.
    + destruct (result_message_keys c Hin) as [-> ->]. intros [?|[= <-]]; done.
  - intros n b [->|[->|[]%elem_of_nil]%elem_of_cons]%elem_of_cons Hin Hp.
    + split; [done|]. exists result. split; [|done]. destruct Hcall as (tc & Hcc & E). rewrite Hcc in Hin.
      apply list_elem_of_singleton in Hin as ->. simpl. rewrite E. apply sole_result.
    + split; [by rewrite Hturn|]. exists call. split; [|done]. destruct Hresult as (tr & Hcc & E). rewrite Hcc in Hin.
      apply list_elem_of_singleton in Hin as ->. simpl. rewrite E, Hthread. apply sole_call.
Qed.
End Pair.

(** ** What a closed corpus buys *)

Definition ids_unique (corpus : list Message) : Prop := forall a b,
  a ∈ corpus -> b ∈ corpus -> m_Id a = m_Id b -> a = b.

Lemma closed_resolved corpus root :
  pair_closed corpus -> root ∈ corpus -> ~ unresolved corpus root.
Proof.
  intros Hc Hroot (m & b & Hr & Hb & Hp & Hno).
  assert (m ∈ corpus) as Hm.
  { clear -Hroot Hr. unfold reach in Hr. induction Hr as [|x y z (b & _ & Hres) _ IH]; [done|].
    apply IH. by eapply resolves_corpus. }
  destruct (Hc m b Hm Hb Hp) as (_ & m' & Hres & _). by apply (Hno m').
Qed.

(** Closure succeeds from every message of a closed corpus. *)
Lemma closed_run_close corpus root score :
  pair_closed corpus -> ids_unique corpus -> root ∈ corpus ->
  exists g, run_close (NewProtocolIndex corpus) root score = Ok g.
Proof.
  intros Hc Hu Hroot. unfold run_close, CloseGroup. set (st := {| cs_seen := _; cs_queue := _; cs_messages := _ |}).
  destruct (close_loop_terminates (NewProtocolIndex corpus) root
              (closure_fuel (NewProtocolIndex corpus)) [] st) as [o Ho].
  { apply search_init; [done|set_solver]. }
  { unfold closure_fuel. rewrite <- index_pool_length. simpl. lia. }
  rewrite Ho. apply (close_loop_exact corpus root) with (handled := []) in Ho;
    [|intros a b Ha Hb; apply Hu; set_solver
     |apply search_init; [constructor|set_solver]|simpl; set_solver|set_solver].
  destruct o as [ms|e|]; [by eexists| |done]. simpl in Ho. by apply closed_resolved in Ho.
Qed.

(** A part that contains the counterparts of its messages is closed. *)
Lemma pair_closed_part corpus part :
  pair_closed corpus -> part ⊆ corpus ->
  (forall m m', m ∈ part -> m' ∈ corpus -> m_TurnId m <> "" -> m_ThreadId m' = m_ThreadId m -> m_TurnId m' = m_TurnId m ->
     ~ keyless m -> m' ∈ part) ->
  pair_closed part.
Proof.
  intros Hc Hsub Hin m b Hm Hb Hp. destruct (Hc m b (Hsub m Hm) Hb Hp) as (Ht & m' & Hr & Hth & Htu).
  split; [done|]. exists m'. split; [|done].
  assert (m' ∈ part) as Hm'.
  { eapply Hin; [exact Hm|by eapply resolves_corpus|done..|]. intros Hk. by rewrite (Hk b Hb) in Hp. }
  destruct b; simpl in *; try done; destruct Hr as [[_ Hk] Hall]; (split; [by split|]);
    intros n [Hn Hkn]; apply Hall; (split; [by apply Hsub|done]).
Qed.
