(* ===== verification/PbText.v ===== *)
(** * Plain-text views of content blocks ([proto/pbtext]) *)

From Stdlib Require Import ZArith Lia String.
From S2P Require Import Prelude GoFloat GoStrings Types.

Definition BlocksFromText (text : string) : list ContentBlock := [BText {| tx_Text := text |}].

(** What one block appends to the builder. *)
Definition block_text (b : ContentBlock) : string :=
  match b with
  | BText t => tx_Text t ^^ nl
  | BThinking t => th_Text t ^^ nl
  | BToolCall tc => tc_Name tc ^^ ": " ^^ tc_Arguments tc ^^ nl
  | BToolResult tr => tr_Content tr ^^ nl
  | BAttachment a =>
      "[attached: " ^^ at_Filename a ^^ " at " ^^ at_Path a ^^ "]" ^^ nl ^^
      (if String.eqb (at_InlinedText a) "" then "" else at_InlinedText a ^^ nl)
  | BImage _ | BNone => ""
  end.

Definition TextFromBlocks (blocks : list ContentBlock) : string :=
  fold_left (fun sb b => sb ^^ block_text b) blocks "".
