(* ===== verification/LocalContext.v ===== *)
(** * Local Context ([rrc/local_context.go])

    The delivered window, the in-flight turn inside it, and the deterministic
    serialization of the turn's discourse into scorer-sized query chunks. *)

From Stdlib Require Import ZArith Lia String.
From S2P Require Import Prelude GoFloat GoStrings GoHash Types Chunk.
#[local] Open Scope nat_scope.

Definition localContextSerializationVersion : string := "local-context-v1".

Record SerializedLocalContextChunk := { lc_Index : nat; lc_Text : string }.

Record SerializedLocalContext := {
  slc_EventID : string;
  slc_Fingerprint : string;
  slc_MessageIDs : list string;
  slc_Chunks : list SerializedLocalContextChunk
}.

Definition BuildLocalContext (threadCorpus : list Message) (n : Z) : list Message :=
  if (n <=? 0)%Z then []
  else drop (Z.to_nat (Z.of_nat (length threadCorpus) - n)) threadCorpus.

(** The first index that carries the turn; the window runs to the end. *)
Fixpoint from_turn (currentTurnID : string) (l : list Message) : option (list Message) :=
  match l with
  | [] => None
  | m :: l' => if String.eqb (m_TurnId m) currentTurnID then Some l else from_turn currentTurnID l'
  end.

Definition BuildActiveDiscourse (threadCorpus : list Message) (currentTurnID : string)
    (fallbackN : Z) : list Message :=
  if String.eqb currentTurnID "" then BuildLocalContext threadCorpus fallbackN
  else match from_turn currentTurnID threadCorpus with
       | None => BuildLocalContext threadCorpus fallbackN
       | Some w => w
       end.

Definition roleLabel (role : Role) : string :=
  match role with
  | ROLE_USER => "user"
  | ROLE_ASSISTANT => "assistant"
  | ROLE_SYSTEM => "system"
  | ROLE_UNSPECIFIED => "unspecified"
  end.

Definition semantic_block (b : ContentBlock) : bool :=
  match b with
  | BText t => negb (String.eqb (tx_Text t) "")
  | BThinking t => negb (String.eqb (th_Text t) "")
  | _ => false
  end.
Definition hasSemanticBlock (blocks : list ContentBlock) : bool := existsb semantic_block blocks.

Definition SemanticMessages (msgs : list Message) : list Message :=
  List.filter (fun m => hasSemanticBlock (m_Content m)) msgs.

(** What one block writes to the query body. *)
Definition semantic_text (b : ContentBlock) : string :=
  if semantic_block b then
    match b with
    | BText t => "[text]" ^^ nl ^^ tx_Text t ^^ nl
    | BThinking t => "[thinking]" ^^ nl ^^ th_Text t ^^ nl
    | _ => ""
    end
  else "".

Definition serializeSemanticMessage (m : Message) : string :=
  let body := fold_left (fun sb b => sb ^^ semantic_text b) (m_Content m) "" in
  if String.eqb body "" then ""
  else "[message role=" ^^ roleLabel (m_Role m) ^^ "]" ^^ nl ^^ body ^^ "[/message]" ^^ nl.

(** What one block writes to the candidate serialization. *)
Definition scoring_text (b : ContentBlock) : string :=
  match b with
  | BText t => "[text]" ^^ nl ^^ tx_Text t ^^ nl
  | BThinking t => "[thinking]" ^^ nl ^^ th_Text t ^^ nl
  | BToolCall tc =>
      "[tool_call id=" ^^ tc_Id tc ^^ " name=" ^^ tc_Name tc ^^ "]" ^^ nl ^^ tc_Arguments tc ^^ nl
  | BToolResult tr =>
      "[tool_result tool_call_id=" ^^ tr_ToolCallId tr ^^ " error=" ^^ fmt_bool (tr_IsError tr) ^^
      "]" ^^ nl ^^ tr_Content tr ^^ nl
  | BImage im =>
      "[image media_type=" ^^ im_MediaType im ^^ " bytes=" ^^ itoa (Z.of_nat (slen (im_Data im))) ^^
      "]" ^^ nl
  | BAttachment a =>
      "[attachment filename=" ^^ at_Filename a ^^ " mime_type=" ^^ at_MimeType a ^^ " path=" ^^
      at_Path a ^^ "]" ^^ nl ^^ at_InlinedText a ^^ nl
  | BNone => ""
  end.

Definition SerializeMessageForScoring (m : Message) : string :=
  fold_left (fun sb b => sb ^^ scoring_text b) (m_Content m)
    ("[message role=" ^^ roleLabel (m_Role m) ^^ "]" ^^ nl) ^^ "[/message]" ^^ nl.

(** [currentTurnID != "" && m.TurnId != currentTurnID] *)
Definition out_of_turn (currentTurnID : string) (m : Message) : bool :=
  negb (String.eqb currentTurnID "") && negb (String.eqb (m_TurnId m) currentTurnID).

(** The loop's accumulators. *)
Record serialize_state := {
  ss_ids : list string;
  ss_chunks : list SerializedLocalContextChunk;
  ss_next : nat
}.

Definition add_chunk (st : serialize_state) (text : string) : serialize_state :=
  {| ss_ids := ss_ids st;
     ss_chunks := ss_chunks st ++ [{| lc_Index := ss_next st; lc_Text := text |}];
     ss_next := ss_next st + 1 |}.

Definition serialize_message (currentTurnID : string) (cfg : Config) (st : serialize_state)
    (m : Message) : outcome serialize_state :=
  let st := {| ss_ids := ss_ids st ++ [m_Id m]; ss_chunks := ss_chunks st; ss_next := ss_next st |} in
  if out_of_turn currentTurnID m then Ok st
  else
    let text := serializeSemanticMessage m in
    if String.eqb (trim_space text) "" then Ok st
    else
      match run_split text cfg with
      | Ok [] => Ok (add_chunk st text)
      | Ok rawChunks => Ok (fold_left (fun st c => add_chunk st (ck_Text c)) rawChunks st)
      | Err e => Err e
      | Panic s => Panic s
      end.

(** The bytes the fingerprint hashes. *)
Definition fingerprint_input (ids : list string) (chunks : list SerializedLocalContextChunk) : string :=
  "version:" ^^ localContextSerializationVersion ^^ nl ^^
  fold_right (fun id s => "message:" ^^ id ^^ nl ^^ s)
    (fold_right (fun c s =>
       "chunk:" ^^ itoa (Z.of_nat (lc_Index c)) ^^ nl ^^ lc_Text c ^^ nl ^^ s) "" chunks) ids.

Definition SerializeLocalContext (local : list Message) (currentTurnID : string) (cfg : Config)
    : outcome (option SerializedLocalContext) :=
  match last local with
  | None => Ok None
  | Some anchor =>
      match foldM (serialize_message currentTurnID cfg)
              {| ss_ids := []; ss_chunks := []; ss_next := 0 |} local with
      | Err e => Err e
      | Panic s => Panic s
      | Ok st =>
          match ss_chunks st with
          | [] => Ok None
          | chunks =>
              Ok (Some {| slc_EventID := "sel-" ^^ m_Id anchor;
                          slc_Fingerprint := sha256_hex (fingerprint_input (ss_ids st) chunks);
                          slc_MessageIDs := ss_ids st;
                          slc_Chunks := chunks |})
          end
      end
  end.

(** ** Specification *)

(** The query chunks of one message: its own text, chunked on its own. *)
Definition query_texts (cfg : Config) (m : Message) : list string :=
  let text := serializeSemanticMessage m in
  if String.eqb (trim_space text) "" then []
  else match run_split text cfg with
       | Ok [] => [text]
       | Ok raw => ck_Text <$> raw
       | _ => []
       end.

Definition in_turn (currentTurnID : string) (m : Message) : Prop :=
  currentTurnID = "" \/ m_TurnId m = currentTurnID.
#[export] Instance in_turn_dec t m : Decision (in_turn t m).
Proof. unfold in_turn. apply _. Defined.

Definition number_from (k : nat) (texts : list string) : list SerializedLocalContextChunk :=
  imap (fun i t => {| lc_Index := k + i; lc_Text := t |}) texts.

Lemma number_from_app k l l' : number_from k (l ++ l') = number_from k l ++ number_from (k + length l) l'.
Proof.
  unfold number_from. rewrite imap_app. f_equal. apply imap_ext. intros. simpl. f_equal. lia.
Qed.

Lemma number_from_length k l : length (number_from k l) = length l.
Proof. apply length_imap. Qed.

Lemma add_chunks_spec raw st :
  ss_next st = length (ss_chunks st) ->
  fold_left (fun st c => add_chunk st (ck_Text c)) raw st =
  {| ss_ids := ss_ids st;
     ss_chunks := ss_chunks st ++ number_from (length (ss_chunks st)) (ck_Text <$> raw);
     ss_next := length (ss_chunks st) + length raw |}.
Proof.
  revert st. induction raw as [|c raw IH]; intros st Hn; simpl.
  - rewrite app_nil_r, Nat.add_0_r, <- Hn. by destruct st.
  - rewrite IH; simpl; rewrite length_app; simpl; [|by rewrite Hn].
    f_equal; [|lia]. rewrite <- app_assoc, Hn. simpl. unfold number_from. simpl.
    f_equal. f_equal; [f_equal; lia|]. apply imap_ext. intros. simpl. f_equal. lia.
Qed.

Lemma out_of_turn_spec t m : out_of_turn t m = false <-> in_turn t m.
Proof.
  unfold out_of_turn, in_turn.
  destruct (String.eqb_spec t ""), (String.eqb_spec (m_TurnId m) t); simpl; intuition congruence.
Qed.

Lemma serialize_message_spec t cfg est st m :
  Estimator cfg = Some est -> ss_next st = length (ss_chunks st) ->
  serialize_message t cfg st m =
  let texts := if decide (in_turn t m) then query_texts cfg m else [] in
  Ok {| ss_ids := ss_ids st ++ [m_Id m];
        ss_chunks := ss_chunks st ++ number_from (length (ss_chunks st)) texts;
        ss_next := length (ss_chunks st) + length texts |}.
Proof.
  intros He Hn. unfold serialize_message, query_texts.
  destruct (out_of_turn t m) eqn:Eo.
  { rewrite decide_False by (rewrite <- out_of_turn_spec; congruence).
    simpl. by rewrite app_nil_r, Nat.add_0_r, Hn. }
  rewrite decide_True by by apply out_of_turn_spec.
  destruct (String.eqb _ ""); simpl; [by rewrite app_nil_r, Nat.add_0_r, Hn|].
  destruct (run_split_total cfg est (serializeSemanticMessage m) He) as [[|c raw] ->].
  - unfold add_chunk, number_from. simpl. by rewrite Hn, Nat.add_0_r.
  - rewrite (add_chunks_spec (c :: raw)) by done. simpl. by rewrite length_fmap.
Qed.

Lemma serialize_fold t cfg est local st :
  Estimator cfg = Some est -> ss_next st = length (ss_chunks st) ->
  exists st', foldM (serialize_message t cfg) st local = Ok st' /\
    ss_ids st' = ss_ids st ++ (m_Id <$> local) /\
    ss_chunks st' = ss_chunks st ++
      number_from (length (ss_chunks st)) (filter (in_turn t) local ≫= query_texts cfg).
Proof.
  intros He. revert st. induction local as [|m local IH]; intros st Hn.
  - simpl. exists st. by rewrite !app_nil_r.
  - cbn [foldM]. rewrite (serialize_message_spec _ _ est) by done. cbv zeta.
    match goal with |- context [mbind _ (Ok ?s)] => destruct (IH s) as (st' & Hf & Hi & Hc) end.
    { simpl. by rewrite length_app, number_from_length. }
    exists st'. split; [exact Hf|]. rewrite Hi, Hc. simpl. split; [by rewrite <- app_assoc|].
    rewrite length_app, number_from_length, <- app_assoc. f_equal.
    rewrite filter_cons. case_decide; simpl; [by rewrite number_from_app|]. unfold number_from at 1. simpl. by rewrite Nat.add_0_r.
Qed.

(** What the serialization of a window is.  The membership lists every
    message of the window in order; the query chunks are those of the current
    turn's semantic messages, message by message (no chunk spans two
    messages), numbered 0, 1, 2, ... across the whole serialization; the
    fingerprint hashes exactly this content, and the event is named after the
    last message.  There is no serialization iff there is no query chunk. *)
Theorem SerializeLocalContext_spec (local : list Message) (t : string) (cfg : Config)
    (est : string -> Z) (Hest : Estimator cfg = Some est) :
  let texts := filter (in_turn t) local ≫= query_texts cfg in
  match SerializeLocalContext local t cfg with
  | Ok None => texts = []
  | Ok (Some s) =>
      texts <> [] /\
      slc_MessageIDs s = m_Id <$> local /\
      slc_Chunks s = number_from 0 texts /\
      slc_Fingerprint s = sha256_hex (fingerprint_input (m_Id <$> local) (number_from 0 texts)) /\
      (exists anchor, last local = Some anchor /\ slc_EventID s = "sel-" ^^ m_Id anchor)
  | _ => False
  end.
Proof.
  intros texts. unfold SerializeLocalContext. destruct (last local) as [anchor|] eqn:El.
  2: { apply last_None in El. unfold texts. by rewrite El. }
  destruct (serialize_fold t cfg est local {| ss_ids := []; ss_chunks := []; ss_next := 0 |})
    as (st & -> & Hi & Hc); [done..|].
  simpl in Hi, Hc. fold texts in Hc. destruct (ss_chunks st) as [|c cs] eqn:Ec.
  - destruct texts; [done|]. discriminate.
  - rewrite Hc, Hi. repeat split; try done; [|by exists anchor].
    intros Ht. rewrite Ht in Hc. discriminate.
Qed.

(** ** Semantic projection *)

Lemma fold_append_empty {A} (f : A -> string) l acc :
  fold_left (fun sb b => sb ^^ f b) l acc = "" <-> acc = "" /\ Forall (fun b => f b = "") l.
Proof.
  revert acc. induction l as [|b l IH]; intros acc; simpl.
  - split; [intros ->; by repeat constructor|by intros [-> _]].
  - rewrite IH, Forall_cons. destruct acc; simpl; [tauto|]. split; [intros [? _]; done|intros [? _]; done].
Qed.

(** A message is query material exactly when it carries semantic content:
    its query serialization is empty iff it has no non-empty text or thinking
    block, and then it contributes no query chunk. *)
Theorem tool_messages_do_not_query (cfg : Config) (m : Message) :
  (serializeSemanticMessage m = "" <-> hasSemanticBlock (m_Content m) = false) /\
  (hasSemanticBlock (m_Content m) = false -> query_texts cfg m = []).
Proof.
  assert (serializeSemanticMessage m = "" <-> hasSemanticBlock (m_Content m) = false) as H.
  { unfold serializeSemanticMessage.
    destruct (String.eqb_spec (fold_left (fun sb b => sb ^^ semantic_text b) (m_Content m) "") "") as [E|E].
    - apply fold_append_empty in E as [_ E]. split; [intros _|done].
      unfold hasSemanticBlock. apply not_true_is_false. intros (b & Hb & Hs)%existsb_exists.
      rewrite Forall_forall in E. apply list_elem_of_In in Hb. specialize (E b Hb).
      unfold semantic_text in E. rewrite Hs in E. destruct b; done.
    - split; [done|]. intros Hn. exfalso. apply E, fold_append_empty. split; [done|].
      apply Forall_forall. intros b Hb. unfold semantic_text.
      destruct (semantic_block b) eqn:Es; [|done]. exfalso.
      unfold hasSemanticBlock in Hn. rewrite (proj2 (existsb_exists _ _)) in Hn; [done|]. exists b. by rewrite <- list_elem_of_In. }
  split; [done|]. intros Hn. unfold query_texts. apply H in Hn. by rewrite Hn.
Qed.

(** ** Windows *)

Lemma from_turn_spec t l :
  match from_turn t l with
  | Some w => exists pre, l = pre ++ w /\ Forall (fun m => m_TurnId m <> t) pre /\
                exists m w', w = m :: w' /\ m_TurnId m = t
  | None => Forall (fun m => m_TurnId m <> t) l
  end.
Proof.
  induction l as [|m l IH]; simpl; [constructor|].
  destruct (String.eqb_spec (m_TurnId m) t) as [E|E].
  - exists []. repeat split; [constructor|]. eauto.
  - destruct (from_turn t l) as [w|]; [|by constructor].
    destruct IH as (pre & -> & Hpre & Hw). exists (m :: pre). repeat split; [by constructor|done].
Qed.

(** The active discourse is the in-flight turn, untruncated.  It is always
    a suffix of the corpus.  If some message of the turn is stored, it starts
    at the first of them and misses none; otherwise (or with no turn id) it is
    the last [fallbackN] messages. *)
Theorem BuildActiveDiscourse_spec (corpus : list Message) (turn : string) (n : Z) :
  let w := BuildActiveDiscourse corpus turn n in
  (exists pre, corpus = pre ++ w) /\
  ((exists m, m ∈ corpus /\ m_TurnId m = turn /\ turn <> "") ->
     (exists m w', w = m :: w' /\ m_TurnId m = turn) /\
     forall m, m ∈ corpus -> m_TurnId m = turn -> m ∈ w) /\
  (turn = "" \/ (forall m, m ∈ corpus -> m_TurnId m <> turn) ->
     Z.of_nat (length w) = Z.max 0 (Z.min n (Z.of_nat (length corpus)))).
Proof.
  assert (exists pre, corpus = pre ++ BuildLocalContext corpus n) as Hsuf.
  { unfold BuildLocalContext. destruct (n <=? 0)%Z; [exists corpus; by rewrite app_nil_r|].
    eexists. by rewrite take_drop. }
  assert (Z.of_nat (length (BuildLocalContext corpus n)) =
          Z.max 0 (Z.min n (Z.of_nat (length corpus)))) as Hlen.
  { unfold BuildLocalContext. destruct (n <=? 0)%Z eqn:E; [simpl; lia|]. rewrite length_drop. lia. }
  unfold BuildActiveDiscourse. destruct (String.eqb_spec turn "") as [->|Ht].
  { split; [done|]. split; [|done]. by intros (m & _ & _ & ?). }
  pose proof (from_turn_spec turn corpus) as Hf. destruct (from_turn turn corpus) as [w|].
  - destruct Hf as (pre & -> & Hpre & m0 & w' & -> & Hm0). rewrite Forall_forall in Hpre.
    split; [by eexists|]. split; [intros _; split; [eauto|]|].
    + intros m [Hm|Hm]%elem_of_app Hmt; [by destruct (Hpre m Hm)|done].
    + intros [?|Hno]; [done|]. exfalso. apply (Hno m0); [set_solver|done].
  - rewrite Forall_forall in Hf. split; [done|]. split; [|done].
    intros (m & Hm & Hmt & _). by destruct (Hf m Hm).
Qed.

Module SampleWindow.
Definition msg (id turn : string) (c : list ContentBlock) : Message :=
  {| m_Id := id; m_Role := ROLE_USER; m_Content := c; m_Position := 1; m_ThreadId := "t";
     m_CreatedAt := None; m_TurnId := turn |}.
Definition text (s : string) : ContentBlock := BText {| tx_Text := s |}.
Definition window : list Message :=
  [msg "a" "1" [text "old"]; msg "b" "2" [text "new"]; msg "c" "2" [];
   msg "d" "2" [BThinking {| th_Text := "because"; th_Signature := "" |}]].
Definition cfg : Config :=
  {| MaxChars := 2000; OverlapChars := 200; Estimator := Some (fun s => Z.of_nat (slen s)) |}.
Definition chunk_texts (o : outcome (option SerializedLocalContext)) : list (nat * string) :=
  match o with Ok (Some s) => (fun c => (lc_Index c, lc_Text c)) <$> slc_Chunks s | _ => [] end.
End SampleWindow.

Example SampleWindow_chunks :
  filter (in_turn "2") SampleWindow.window ≫= query_texts SampleWindow.cfg =
  [trim_space ("[message role=user]" ^^ nl ^^ "[text]" ^^ nl ^^ "new" ^^ nl ^^ "[/message]");
   trim_space ("[message role=user]" ^^ nl ^^ "[thinking]" ^^ nl ^^ "because" ^^ nl ^^ "[/message]")].
Proof. vm_compute. reflexivity. Qed.

Lemma SerializeLocalContext_spec_witness :
  Estimator SampleWindow.cfg = Some (fun s => Z.of_nat (slen s)) /\
  match SerializeLocalContext SampleWindow.window "2" SampleWindow.cfg with
  | Ok (Some s) => slc_MessageIDs s = ["a"; "b"; "c"; "d"]
  | _ => False
  end.
Proof.
  split; [reflexivity|].
  pose proof (SerializeLocalContext_spec SampleWindow.window "2" SampleWindow.cfg
                (fun s => Z.of_nat (slen s)) eq_refl) as H.
  revert H. cbv zeta. rewrite SampleWindow_chunks. case_match; [|done..]. case_match; [|done].
  by intros (_ & -> & _).
Defined.
