(* ===== verification/Inserter.v ===== *)
(** * The message inserter ([service/messages/inserter.go])

    The one insertion pathway: the chunks of a message's scoring serialization
    are derived, the message and its chunks are written in one transaction,
    and the embedding of what was written is enqueued afterwards. *)

From Stdlib Require Import ZArith Lia String.
From S2P Require Import Prelude GoSort GoStrings Types Chunk LocalContext Sql Storage.

(** The database and the ids handed to [embedEnq], in order. *)
Record InsertState := { in_world : World Tables; in_embeds : list string }.

(** [Inserter]: the accessor of the live chunk configuration, and whether
    [embedEnq] is set. *)
Record Inserter := { chunkConfig : World Tables -> Chunk.Config; embedEnq : bool }.

(** A call of the database, from a larger state. *)
Definition on_db {A} (m : GoM (World Tables) A) : GoM InsertState A := fun s =>
  let r := m (in_world s) in ({| in_world := r.1; in_embeds := in_embeds s |}, r.2).

Definition chunk_row (messageID : string) (c : Chunk.Chunk) : Storage.Chunk :=
  {| c_MessageID := messageID; c_ChunkIndex := Z.of_nat (ck_Index c); c_Text := ck_Text c;
     c_ByteStart := Z.of_nat (ck_ByteStart c); c_ByteEnd := Z.of_nat (ck_ByteEnd c); c_TokenEst := ck_TokenEst c |}.

Definition chunksFor (msg : Message) (cfg : Chunk.Config) : outcome (list Storage.Chunk) :=
  map (chunk_row (m_Id msg)) <$> run_split (SerializeMessageForScoring msg) cfg.

Section Inserter.
Context {env : Env} {srt : SliceSort} {codec : ProtoCodec} (i : Inserter).

Definition live_config : GoM InsertState Chunk.Config := fun s => (s, Ok (chunkConfig i (in_world s))).

(** [if i.embedEnq != nil && len(chunks) > 0 { i.embedEnq(id) }] *)
Definition enqueue (id : string) (chunks : list Storage.Chunk) (s : InsertState) : InsertState :=
  if embedEnq i && negb (bool_decide (chunks = []))
  then {| in_world := in_world s; in_embeds := in_embeds s ++ [id] |} else s.

(** [if err != nil { return err }] before the enqueues. *)
Definition finish {A} (res : A * option goerr) (enq : InsertState -> InsertState) : GoM InsertState (A * option goerr) :=
  fun s => match res.2 with Some _ => (s, Ok res) | None => (enq s, Ok res) end.

Definition Insert (msg : Message) : GoM InsertState (Message * option goerr) :=
  cfg ← live_config;
  chunks ← gom_lift (chunksFor msg cfg);
  res ← on_db (InsertMessage msg chunks);
  finish res (enqueue (m_Id res.1) chunks).

Definition InsertPair (call result : Message) : GoM InsertState (Message * Message * option goerr) :=
  cfg ← live_config;
  callChunks ← gom_lift (chunksFor call cfg);
  resultChunks ← gom_lift (chunksFor result cfg);
  res ← on_db (InsertToolCallPair call callChunks result resultChunks);
  finish res (fun s => enqueue (m_Id res.1.2) resultChunks (enqueue (m_Id res.1.1) callChunks s)).

(** Every configuration the accessor gives has an estimator. *)
Definition configured : Prop := forall w, is_Some (Estimator (chunkConfig i w)).

Hypothesis Hcfg : configured.

Lemma chunksFor_total msg w : exists cs, chunksFor msg (chunkConfig i w) = Ok cs.
Proof.
  destruct (Hcfg w) as [est He]. unfold chunksFor.
  destruct (run_split_total _ est (SerializeMessageForScoring msg) He) as [out ->]. by eexists.
Qed.

(** What was enqueued: the ids of written messages that have chunks. *)
Definition embeds_of (msgs : list (Message * list Storage.Chunk)) : list string :=
  if embedEnq i then (fun mc => m_Id mc.1) <$> List.filter (fun mc => negb (bool_decide (mc.2 = []))) msgs else [].

Definition inserted (msgs : list (Message * list Storage.Chunk)) (err : option goerr) (s s' : InsertState) : Prop :=
  wrote_or_not msgs err (w_tables (in_world s)) (w_tables (in_world s')) /\
  in_embeds s' = in_embeds s ++ match err with None => embeds_of msgs | Some _ => [] end.

Lemma enqueue_embeds id chunks s :
  in_embeds (enqueue id chunks s) =
    in_embeds s ++ (if embedEnq i && negb (bool_decide (chunks = [])) then [id] else []) /\
  in_world (enqueue id chunks s) = in_world s.
Proof. unfold enqueue. destruct (_ && _); simpl; [done|]. by rewrite app_nil_r. Qed.

Lemma Insert_run msg s :
  exists s' msg' chunks err,
    Insert msg s = (s', Ok (msg', err)) /\ chunksFor msg (chunkConfig i (in_world s)) = Ok chunks /\
    stamped msg msg' /\ inserted [(msg', chunks)] err s s'.
Proof.
  destruct (chunksFor_total msg (in_world s)) as [cs Hcs].
  destruct (InsertMessage_spec msg cs (in_world s)) as (w' & msg' & err & E & Hst & Hw).
  unfold Insert, mbind, gom_bind, live_config, gom_lift, on_db, finish. rewrite Hcs, E. cbn [fst snd].
  set (s1 := {| in_world := w'; in_embeds := in_embeds s |}).
  destruct err as [e|]; eexists _, _, cs, _; (split; [reflexivity|]); (do 2 (split; [done|])); split.
  - done.
  - by rewrite app_nil_r.
  - by rewrite (proj2 (enqueue_embeds _ _ _)).
  - rewrite (proj1 (enqueue_embeds _ _ _)). unfold embeds_of. simpl. destruct (embedEnq i); [|done]. simpl.
    by destruct (negb (bool_decide (cs = []))).
Qed.

Lemma InsertPair_run call result s :
  exists s' call' result' cc rc err,
    InsertPair call result s = (s', Ok (call', result', err)) /\
    chunksFor call (chunkConfig i (in_world s)) = Ok cc /\ chunksFor result (chunkConfig i (in_world s)) = Ok rc /\
    stamped call call' /\ stamped result result' /\ inserted [(call', cc); (result', rc)] err s s'.
Proof.
  destruct (chunksFor_total call (in_world s)) as [cc Hcc], (chunksFor_total result (in_world s)) as [rc Hrc].
  destruct (InsertToolCallPair_spec call cc result rc (in_world s)) as (w' & call' & result' & err & E & Hs1 & Hs2 & Hw).
  unfold InsertPair, mbind, gom_bind, live_config, gom_lift, on_db, finish. rewrite Hcc, Hrc, E. cbn [fst snd].
  set (s1 := {| in_world := w'; in_embeds := in_embeds s |}).
  destruct err as [e|]; eexists _, _, _, cc, rc, _; (split; [reflexivity|]); (do 4 (split; [done|])); split.
  - done.
  - by rewrite app_nil_r.
  - by rewrite !(proj2 (enqueue_embeds _ _ _)).
  - rewrite !(proj1 (enqueue_embeds _ _ _)), <- app_assoc. f_equal. unfold embeds_of. simpl.
    destruct (embedEnq i); [|done]. simpl.
    by destruct (negb (bool_decide (cc = []))), (negb (bool_decide (rc = []))).
Qed.

End Inserter.
