(* ===== verification/Runner.v ===== *)
(** * The agent runner ([service/agent/runner.go])

    [SendMessage] stores the triggering message, runs the agent framework and
    drains its events ([processEvents]): thinking is flushed as messages of its
    own, a tool call is buffered until its result arrives and then written
    with it in one transaction, and what is still buffered at the end of the
    turn is closed with an error result.

    The framework ([adkRunner.Run]) is the list of what its iterator yields,
    together with what happens while it runs: the telemetry callbacks and the
    writes of other goroutines.  The theorems hold for every list.  A callback
    that is nil is one whose notices nobody reads. *)

From Stdlib Require Import ZArith Lia String.
From S2P Require Import Prelude GoFloat GoSort GoStrings Errors Types Genai Protocol Pairing Chunk LocalContext PbText Sql Storage Inserter.
#[local] Open Scope Z_scope.

(** ** State *)

(** The fields of [rrc.AssembleTelemetry] the trace reads. *)
Record AssembleTelemetry := {
  at_DurationMs : Z;
  at_PriorsConsidered : Z;
  at_CandidatesScored : Z;
  at_Reranked : Z;
  at_EdgesFormed : Z;
  at_SelectMs : Z;
  at_MMRMs : Z;
  at_ShedMs : Z;
  at_SelectedCount : Z;
  at_LocalContextCount : Z;
  at_ClosureCount : Z;
  at_SheddedCount : Z;
  at_TotalTokens : Z;
  at_EffectiveBudget : Z
}.

Definition no_telemetry : AssembleTelemetry :=
  {| at_DurationMs := 0; at_PriorsConsidered := 0; at_CandidatesScored := 0; at_Reranked := 0; at_EdgesFormed := 0;
     at_SelectMs := 0; at_MMRMs := 0; at_ShedMs := 0; at_SelectedCount := 0; at_LocalContextCount := 0;
     at_ClosureCount := 0; at_SheddedCount := 0; at_TotalTokens := 0; at_EffectiveBudget := 0 |}.

(** The per-call trace scratch; an instant is in nanoseconds, [None] the zero
    time. *)
Record Tick := {
  tickAssemble : AssembleTelemetry;
  tickAssembleSet : bool;
  tickAssembleCount : Z;
  tickRunStart : option Z;
  tickFirstEvent : option Z;
  tickPersistMs : Z;
  tickCorpusSize : Z;
  tickUsagePredicted : Z;
  tickUsagePrompt : Z;
  tickUsageCompletion : Z;
  tickRound : Z
}.

Inductive Notice :=
  | OnToolCall (callID toolName args : string)
  | OnToolResult (callID toolName result : string) (isError : bool)
  | PublishAgentState (Status : AgentStatus) (Mode : AgentMode) (RoundCount : Z) (DurationLimit : string) (Error : option goerr).

Record RunState := {
  rs_ins : InsertState;
  rs_msgSeq : Z;
  rs_currentTurnID : string;
  rs_tick : Tick;
  rs_notices : list Notice
}.

Definition rs_tables (s : RunState) : Tables := w_tables (in_world (rs_ins s)).

Definition set_ins (i : InsertState) (s : RunState) : RunState :=
  {| rs_ins := i; rs_msgSeq := rs_msgSeq s; rs_currentTurnID := rs_currentTurnID s; rs_tick := rs_tick s;
     rs_notices := rs_notices s |}.
Definition set_msgSeq (n : Z) (s : RunState) : RunState :=
  {| rs_ins := rs_ins s; rs_msgSeq := n; rs_currentTurnID := rs_currentTurnID s; rs_tick := rs_tick s;
     rs_notices := rs_notices s |}.
Definition set_turn (t : string) (s : RunState) : RunState :=
  {| rs_ins := rs_ins s; rs_msgSeq := rs_msgSeq s; rs_currentTurnID := t; rs_tick := rs_tick s;
     rs_notices := rs_notices s |}.
Definition set_tick (t : Tick) (s : RunState) : RunState :=
  {| rs_ins := rs_ins s; rs_msgSeq := rs_msgSeq s; rs_currentTurnID := rs_currentTurnID s; rs_tick := t;
     rs_notices := rs_notices s |}.
Definition add_notice (n : Notice) (s : RunState) : RunState :=
  {| rs_ins := rs_ins s; rs_msgSeq := rs_msgSeq s; rs_currentTurnID := rs_currentTurnID s; rs_tick := rs_tick s;
     rs_notices := rs_notices s ++ [n] |}.

Definition with_assemble (a : AssembleTelemetry) (n : Z) (t : Tick) : Tick :=
  {| tickAssemble := a; tickAssembleSet := true; tickAssembleCount := n; tickRunStart := tickRunStart t;
     tickFirstEvent := tickFirstEvent t; tickPersistMs := tickPersistMs t; tickCorpusSize := tickCorpusSize t;
     tickUsagePredicted := tickUsagePredicted t; tickUsagePrompt := tickUsagePrompt t;
     tickUsageCompletion := tickUsageCompletion t; tickRound := tickRound t |}.
Definition with_usage (predicted prompt completion : Z) (t : Tick) : Tick :=
  {| tickAssemble := tickAssemble t; tickAssembleSet := tickAssembleSet t; tickAssembleCount := tickAssembleCount t;
     tickRunStart := tickRunStart t; tickFirstEvent := tickFirstEvent t; tickPersistMs := tickPersistMs t;
     tickCorpusSize := tickCorpusSize t; tickUsagePredicted := predicted; tickUsagePrompt := prompt;
     tickUsageCompletion := completion; tickRound := tickRound t |}.
Definition with_times (runStart firstEvent : option Z) (t : Tick) : Tick :=
  {| tickAssemble := tickAssemble t; tickAssembleSet := tickAssembleSet t; tickAssembleCount := tickAssembleCount t;
     tickRunStart := runStart; tickFirstEvent := firstEvent; tickPersistMs := tickPersistMs t;
     tickCorpusSize := tickCorpusSize t; tickUsagePredicted := tickUsagePredicted t;
     tickUsagePrompt := tickUsagePrompt t; tickUsageCompletion := tickUsageCompletion t; tickRound := tickRound t |}.
Definition with_persist (ms : Z) (t : Tick) : Tick :=
  {| tickAssemble := tickAssemble t; tickAssembleSet := tickAssembleSet t; tickAssembleCount := tickAssembleCount t;
     tickRunStart := tickRunStart t; tickFirstEvent := tickFirstEvent t; tickPersistMs := ms;
     tickCorpusSize := tickCorpusSize t; tickUsagePredicted := tickUsagePredicted t;
     tickUsagePrompt := tickUsagePrompt t; tickUsageCompletion := tickUsageCompletion t; tickRound := tickRound t |}.
(** The reset at the entry of [SendMessage]; the round is kept. *)
Definition reset_tick (t : Tick) : Tick :=
  {| tickAssemble := no_telemetry; tickAssembleSet := false; tickAssembleCount := 0; tickRunStart := None;
     tickFirstEvent := None; tickPersistMs := 0; tickCorpusSize := 0; tickUsagePredicted := 0; tickUsagePrompt := 0;
     tickUsageCompletion := 0; tickRound := tickRound t |}.
Definition with_corpus (n : Z) (t : Tick) : Tick :=
  {| tickAssemble := tickAssemble t; tickAssembleSet := tickAssembleSet t; tickAssembleCount := tickAssembleCount t;
     tickRunStart := tickRunStart t; tickFirstEvent := tickFirstEvent t; tickPersistMs := tickPersistMs t;
     tickCorpusSize := n; tickUsagePredicted := tickUsagePredicted t; tickUsagePrompt := tickUsagePrompt t;
     tickUsageCompletion := tickUsageCompletion t; tickRound := tickRound t |}.
Definition SetTickRound (round : Z) (s : RunState) : RunState :=
  set_tick {| tickAssemble := tickAssemble (rs_tick s); tickAssembleSet := tickAssembleSet (rs_tick s);
              tickAssembleCount := tickAssembleCount (rs_tick s); tickRunStart := tickRunStart (rs_tick s);
              tickFirstEvent := tickFirstEvent (rs_tick s); tickPersistMs := tickPersistMs (rs_tick s);
              tickCorpusSize := tickCorpusSize (rs_tick s); tickUsagePredicted := tickUsagePredicted (rs_tick s);
              tickUsagePrompt := tickUsagePrompt (rs_tick s); tickUsageCompletion := tickUsageCompletion (rs_tick s);
              tickRound := round |} s.

(** The callback [OnAssemble]: times add up over the attempts, counts come
    from the last. *)
Definition note_assemble (t : AssembleTelemetry) (k : Tick) : Tick :=
  let n := wrap64 (tickAssembleCount k + 1) in
  if negb (tickAssembleSet k) then with_assemble t n k
  else
    let a := tickAssemble k in
    with_assemble
      {| at_DurationMs := wrap64 (at_DurationMs a + at_DurationMs t);
         at_PriorsConsidered := at_PriorsConsidered t;
         at_CandidatesScored := wrap64 (at_CandidatesScored a + at_CandidatesScored t);
         at_Reranked := wrap64 (at_Reranked a + at_Reranked t);
         at_EdgesFormed := at_EdgesFormed t;
         at_SelectMs := wrap64 (at_SelectMs a + at_SelectMs t);
         at_MMRMs := wrap64 (at_MMRMs a + at_MMRMs t);
         at_ShedMs := wrap64 (at_ShedMs a + at_ShedMs t);
         at_SelectedCount := at_SelectedCount t;
         at_LocalContextCount := at_LocalContextCount t;
         at_ClosureCount := at_ClosureCount t;
         at_SheddedCount := at_SheddedCount t;
         at_TotalTokens := at_TotalTokens t;
         at_EffectiveBudget := at_EffectiveBudget t |} n k.

(** The variables of [processEvents]. *)
Record Turn := {
  lastErr : option goerr;
  thinkingBuf : string;
  thinkingSig : string;
  textBuf : string;
  seenCallIDs : gmap string string;
  seenResultIDs : gset string;
  pendingCalls : gmap string Message;
  pendingOrder : list string
}.

Definition start_turn : Turn :=
  {| lastErr := None; thinkingBuf := ""; thinkingSig := ""; textBuf := ""; seenCallIDs := ∅; seenResultIDs := ∅;
     pendingCalls := ∅; pendingOrder := [] |}.

Definition set_lastErr (e : option goerr) (t : Turn) : Turn :=
  {| lastErr := e; thinkingBuf := thinkingBuf t; thinkingSig := thinkingSig t; textBuf := textBuf t;
     seenCallIDs := seenCallIDs t; seenResultIDs := seenResultIDs t; pendingCalls := pendingCalls t;
     pendingOrder := pendingOrder t |}.
Definition set_thinking (buf sig : string) (t : Turn) : Turn :=
  {| lastErr := lastErr t; thinkingBuf := buf; thinkingSig := sig; textBuf := textBuf t;
     seenCallIDs := seenCallIDs t; seenResultIDs := seenResultIDs t; pendingCalls := pendingCalls t;
     pendingOrder := pendingOrder t |}.
Definition set_text (buf : string) (t : Turn) : Turn :=
  {| lastErr := lastErr t; thinkingBuf := thinkingBuf t; thinkingSig := thinkingSig t; textBuf := buf;
     seenCallIDs := seenCallIDs t; seenResultIDs := seenResultIDs t; pendingCalls := pendingCalls t;
     pendingOrder := pendingOrder t |}.
Definition see_call (id name : string) (t : Turn) : Turn :=
  {| lastErr := lastErr t; thinkingBuf := thinkingBuf t; thinkingSig := thinkingSig t; textBuf := textBuf t;
     seenCallIDs := <[id := name]> (seenCallIDs t); seenResultIDs := seenResultIDs t; pendingCalls := pendingCalls t;
     pendingOrder := pendingOrder t |}.
Definition buffer_call (id : string) (m : Message) (t : Turn) : Turn :=
  {| lastErr := lastErr t; thinkingBuf := thinkingBuf t; thinkingSig := thinkingSig t; textBuf := textBuf t;
     seenCallIDs := seenCallIDs t; seenResultIDs := seenResultIDs t; pendingCalls := <[id := m]> (pendingCalls t);
     pendingOrder := pendingOrder t ++ [id] |}.
(** The buffered message as a failed [indexPair] leaves it. *)
Definition rebuffer_call (id : string) (m : Message) (t : Turn) : Turn :=
  {| lastErr := lastErr t; thinkingBuf := thinkingBuf t; thinkingSig := thinkingSig t; textBuf := textBuf t;
     seenCallIDs := seenCallIDs t; seenResultIDs := seenResultIDs t; pendingCalls := <[id := m]> (pendingCalls t);
     pendingOrder := pendingOrder t |}.
Definition drop_call (id : string) (t : Turn) : Turn :=
  {| lastErr := lastErr t; thinkingBuf := thinkingBuf t; thinkingSig := thinkingSig t; textBuf := textBuf t;
     seenCallIDs := seenCallIDs t; seenResultIDs := seenResultIDs t; pendingCalls := delete id (pendingCalls t);
     pendingOrder := pendingOrder t |}.
Definition see_result (id : string) (t : Turn) : Turn :=
  {| lastErr := lastErr t; thinkingBuf := thinkingBuf t; thinkingSig := thinkingSig t; textBuf := textBuf t;
     seenCallIDs := seenCallIDs t; seenResultIDs := {[id]} ∪ seenResultIDs t; pendingCalls := pendingCalls t;
     pendingOrder := pendingOrder t |}.

(** ** Operations *)

(** What the framework's iterator yields; the last three happen between two
    events, while it runs: the two telemetry callbacks, and the writes of
    other goroutines to the shared database. *)
Inductive Yield {J : Type} :=
  | YError (e : goerr)
  | YEvent (c : option (@Content J))
  | YAssemble (t : AssembleTelemetry)
  | YUsage (predicted prompt completion : Z)
  | YOthers (write : Tables -> Tables).
Arguments Yield : clear implicits.

Section Runner.
Context {env : Env} {srt : SliceSort} {codec : ProtoCodec} {J : Type} {json : Json J}.
Context (threadID modelName : string) (inserter : option Inserter).
#[local] Abbreviation M := (GoM RunState).

Definition on_ins {A} (m : GoM InsertState A) : M A := fun s =>
  let r := m (rs_ins s) in (set_ins r.1 s, r.2).
Definition rdb {A} (m : GoM (World Tables) A) : M A := on_ins (on_db m).
Definition modify (f : RunState -> RunState) : M unit := fun s => (f s, Ok tt).

(** [d.Milliseconds()] of an elapsed time *)
Definition ms_between (a b : Z) : Z := Z.quot (wrap64 (b - a)) 1000000.

(** [pStart := time.Now(); ...; r.tickPersistMs += time.Since(pStart).Milliseconds()] *)
Definition timed {A} (m : M A) : M A :=
  pStart ← rdb now;
  a ← m;
  pEnd ← rdb now;
  modify (fun s => set_tick (with_persist (wrap64 (tickPersistMs (rs_tick s) + ms_between pStart pEnd)) (rs_tick s)) s)
    ≫= fun _ => mret a.

Definition CurrentTurn (s : RunState) : string := rs_currentTurnID s.

(** [if msg.TurnId == "" { msg.TurnId = r.CurrentTurn() }] *)
Definition stamp_turn (turn : string) (m : Message) : Message :=
  if String.eqb (m_TurnId m) ""
  then {| m_Id := m_Id m; m_Role := m_Role m; m_Content := m_Content m; m_Position := m_Position m;
          m_ThreadId := m_ThreadId m; m_CreatedAt := m_CreatedAt m; m_TurnId := turn |}
  else m.

Definition indexMessage (msg : Message) : M (Message * option goerr) := fun s =>
  let msg := stamp_turn (CurrentTurn s) msg in
  timed (match inserter with
         | None => rdb (InsertMessage msg [])
         | Some i => on_ins (Insert i msg)
         end) s.

Definition indexPair (call result : Message) : M (Message * Message * option goerr) := fun s =>
  let call := stamp_turn (CurrentTurn s) call in
  let result := stamp_turn (CurrentTurn s) result in
  timed (match inserter with
         | None => rdb (InsertToolCallPair call [] result [])
         | Some i => on_ins (InsertPair i call result)
         end) s.

Definition nextMsgID : M string :=
  nano ← rdb now;
  (fun s => let n := wrap64 (rs_msgSeq s + 1) in
            (set_msgSeq n s, Ok ("msg-" ^^ threadID ^^ "-" ^^ itoa nano ^^ "-" ^^ itoa n))) : M string.

Definition syncMsgSeq : M unit :=
  p ← rdb (MaxPosition threadID);
  modify (fun s => if rs_msgSeq s <? p then set_msgSeq p s else s).

Definition NextPosition : M Z :=
  syncMsgSeq ≫= fun _ => ((fun s => let n := wrap64 (rs_msgSeq s + 1) in (set_msgSeq n s, Ok n)) : M Z).

(** [&threadv1.Message{Id: r.nextMsgID(), ..., Position: r.msgSeq.Load()}] *)
Definition new_message (role : Role) (content : list ContentBlock) : M Message :=
  id ← nextMsgID;
  (fun s => (s, Ok {| m_Id := id; m_Role := role; m_Content := content; m_Position := rs_msgSeq s;
                      m_ThreadId := threadID; m_CreatedAt := None; m_TurnId := "" |})) : M Message.

Definition thinking_block (t : Turn) : ContentBlock :=
  BThinking {| th_Text := thinkingBuf t; th_Signature := thinkingSig t |}.

(** A failed write of thinking is only logged. *)
Definition storeThinking (t : Turn) : M Turn :=
  if String.eqb (thinkingBuf t) "" then mret t
  else
    msg ← new_message ROLE_ASSISTANT [thinking_block t];
    _ ← indexMessage msg;
    mret (set_thinking "" "" t).

(** The [%q] verb on a name without characters to escape. *)
Definition err_empty_call (name : string) : goerr :=
  ENew ("agent: provider emitted a tool call with an empty id (tool " ^^ quoted name ^^
        "); cannot guarantee protocol closure").

(** One part.  The flag is [continue]: the rest of the part is skipped. *)
Definition on_call (fc : @FunctionCall J) (signature : string) (t : Turn) : M (Turn * bool) :=
  if String.eqb (fc_ID fc) "" then gom_err (err_empty_call (fc_Name fc))
  else
    match seenCallIDs t !! fc_ID fc with
    | Some _ => mret (t, true)
    | None =>
        t ← storeThinking (see_call (fc_ID fc) (fc_Name fc) t);
        let argsJSON := marshal_or "{}" (fc_Args fc) in
        msg ← new_message ROLE_ASSISTANT
                [BToolCall {| tc_Id := fc_ID fc; tc_Name := fc_Name fc; tc_Arguments := argsJSON; tc_Signature := signature |}];
        _ ← modify (add_notice (OnToolCall (fc_ID fc) (fc_Name fc) argsJSON));
        mret (buffer_call (fc_ID fc) msg t, false)
    end.

(** [errors.Is(ctx.Err(), context.Canceled)] *)
Definition cancelled : M bool :=
  e ← rdb ctx_err;
  mret (match e with Some e => err_is e ECanceled | None => false end).

Definition response_text (fr : @FunctionResponse J) : string :=
  match fr_Response fr with
  | None => ""
  | Some r => match string_field "output" r with Some s => s | None => marshal_or "" (Some r) end
  end.

Definition result_block (callID content : string) (isError : bool) : ContentBlock :=
  BToolResult {| tr_ToolCallId := callID; tr_Content := content; tr_IsError := isError |}.

Definition on_response (fr : @FunctionResponse J) (t : Turn) : M (Turn * bool) :=
  stop ← cancelled;
  if stop : bool then mret (t, true)
  else if negb (String.eqb (fr_ID fr) "") && bool_decide (fr_ID fr ∈ seenResultIDs t) then mret (t, true)
  else
    let text := response_text fr in
    msg ← new_message ROLE_ASSISTANT [result_block (fr_ID fr) text false];
    match pendingCalls t !! fr_ID fr with
    | None => mret (t, true)
    | Some call =>
        r ← indexPair call msg;
        match r.2 with
        | Some _ => mret (rebuffer_call (fr_ID fr) r.1.1 t, true)
        | None =>
            _ ← modify (add_notice (OnToolResult (fr_ID fr) (fr_Name fr) text false));
            mret (see_result (fr_ID fr) (drop_call (fr_ID fr) t), false)
        end
    end.

Definition nonempty (s : string) : bool := negb (String.eqb s "").

Definition on_text (p : @Part J) (t : Turn) : M Turn :=
  let called := match pt_FunctionCall p with Some _ => true | None => false end in
  if negb called && pt_Thought p && (nonempty (pt_Text p) || nonempty (pt_ThoughtSignature p)) then
    let buf := thinkingBuf t ^^ pt_Text p in
    if nonempty (pt_ThoughtSignature p) then storeThinking (set_thinking buf (pt_ThoughtSignature p) t)
    else mret (set_thinking buf (thinkingSig t) t)
  else if nonempty (pt_Text p) && negb called then mret (set_text (textBuf t ^^ pt_Text p) t)
  else mret t.

Definition process_part (t : Turn) (p : @Part J) : M Turn :=
  r ← match pt_FunctionCall p with Some fc => on_call fc (pt_ThoughtSignature p) t | None => mret (t, false) end;
  if snd r : bool then mret (fst r)
  else
    r ← match pt_FunctionResponse p with Some fr => on_response fr (fst r) | None => mret (fst r, false) end;
    if snd r : bool then mret (fst r) else on_text p (fst r).

(** The first content-bearing event stamps the trace. *)
Definition note_first_event : M unit := fun s =>
  match tickFirstEvent (rs_tick s) with
  | Some _ => (s, Ok tt)
  | None => (nano ← rdb now;
             modify (fun s => set_tick (with_times (tickRunStart (rs_tick s)) (Some nano) (rs_tick s)) s)) s
  end.

Definition others (write : Tables -> Tables) (s : RunState) : RunState :=
  set_ins {| in_world := set_tables (write (rs_tables s)) (in_world (rs_ins s)); in_embeds := in_embeds (rs_ins s) |} s.

Definition process_yield (t : Turn) (y : Yield J) : M Turn :=
  match y with
  | YError e => mret (if err_is e ECanceled then t else set_lastErr (Some e) t)
  | YEvent None => mret t
  | YEvent (Some c) => note_first_event ≫= fun _ => foldM process_part t (ct_Parts c)
  | YAssemble a => modify (fun s => set_tick (note_assemble a (rs_tick s)) s) ≫= fun _ => mret t
  | YUsage p q c => modify (fun s => set_tick (with_usage p q c (rs_tick s)) s) ≫= fun _ => mret t
  | YOthers write => modify (others write) ≫= fun _ => mret t
  end.

Definition placeholder (t : Turn) : string :=
  match lastErr t with
  | Some e => "Tool execution failed: " ^^ err_text e
  | None => "Tool execution ended without a result."
  end.

(** One step of the turn-end flush; the first error is kept. *)
Definition flush_call (st : Turn * option goerr) (callID : string) : M (Turn * option goerr) :=
  let t := fst st in
  match pendingCalls t !! callID with
  | None => mret st
  | Some call =>
      let content := placeholder t in
      msg ← new_message ROLE_ASSISTANT [result_block callID content true];
      r ← indexPair call msg;
      match r.2 with
      | Some e => mret (rebuffer_call callID r.1.1 t, match snd st with None => Some e | Some e0 => Some e0 end)
      | None =>
          _ ← modify (add_notice (OnToolResult callID (default "" (seenCallIDs t !! callID)) content true));
          mret (drop_call callID t, snd st)
      end
  end.

Definition final_content (t : Turn) : list ContentBlock :=
  (if nonempty (thinkingBuf t) then [thinking_block t] else []) ++
  (if nonempty (textBuf t) then [BText {| tx_Text := textBuf t |}] else []).

Definition finish_turn (t : Turn) : M Message :=
  match final_content t with
  | [] =>
      stop ← cancelled;
      gom_err (if stop : bool then EStopped
               else match lastErr t with Some e => EWrap "agent error: " e "" | None => ENoResponse end)
  | content =>
      msg ← new_message ROLE_ASSISTANT content;
      r ← indexMessage msg;
      match r.2 with Some e => gom_err e | None => mret r.1 end
  end.

Definition processEvents (events : list (Yield J)) : M Message :=
  t ← foldM process_yield start_turn events;
  st ← foldM flush_call (t, None) (pendingOrder t);
  match snd st with Some e => gom_err e | None => finish_turn (fst st) end.

(** [return time.Time.Sub(...)] over the stages: (complete, stream). *)
Definition split_stream (k : Tick) (assembly now : Z) : Z * Z :=
  match tickRunStart k with
  | None => (0, 0)
  | Some runStart =>
      match tickFirstEvent k with
      | Some first => (Z.max 0 (wrap64 (ms_between runStart first - assembly)), ms_between first now)
      | None => (ms_between runStart now, 0)
      end
  end.

Definition retry_note (k : Tick) : string :=
  "assemble retries=" ^^ itoa (wrap64 (tickAssembleCount k - 1)) ^^ " (context-overflow re-Assemble loop)".

Definition trace_error (k : Tick) (callErr : option goerr) : string :=
  let msg := match callErr with Some e => err_text e | None => "" end in
  if 1 <? tickAssembleCount k
  then if String.eqb msg "" then retry_note k else msg ^^ "; " ^^ retry_note k
  else msg.

Definition tick_trace (k : Tick) (tickStart now : Z) (callErr : option goerr) : TickTrace :=
  let a := tickAssemble k in
  let sel := if tickAssembleSet k then at_DurationMs a else 0 in
  let walk := if tickAssembleSet k then at_SelectMs a else 0 in
  let rest := if tickAssembleSet k then wrap64 (at_MMRMs a + at_ShedMs a) else 0 in
  let cs := split_stream k (wrap64 (wrap64 (sel + walk) + rest)) now in
  {| tt_ID := 0; tt_ThreadID := threadID; tt_Round := tickRound k; tt_RRCPrerequisiteSelectionMs := sel;
     tt_SelectMs := walk; tt_AssembleMs := rest; tt_CompleteMs := cs.1; tt_StreamMs := cs.2;
     tt_PersistMs := tickPersistMs k; tt_TotalMs := ms_between tickStart now; tt_CompleterModel := modelName;
     tt_CorpusSize := tickCorpusSize k; tt_SelectedCount := at_SelectedCount a;
     tt_AssembledTokensEst := at_TotalTokens a; tt_UsagePredictedTokens := tickUsagePredicted k;
     tt_UsagePromptTokens := tickUsagePrompt k; tt_UsageCompletionTokens := tickUsageCompletion k;
     tt_Errored := match callErr with Some _ => true | None => false end; tt_ErrorMsg := trace_error k callErr |}.

(** The deferred exit of [SendMessage]; a failed insert is only logged. *)
Definition persistTickTrace (tickStart : Z) (callErr : option goerr) : M unit :=
  nano ← rdb now;
  (fun s => let r := rdb (InsertTickTrace (tick_trace (rs_tick s) tickStart nano callErr)) s in
            (r.1, match r.2 with Panic p => Panic p | _ => Ok tt end)) : M unit.

Definition user_blocks (content : string) (attachments : list AttachmentContent) : list ContentBlock :=
  BlocksFromText content ++ (BAttachment <$> attachments).

(** The body of [SendMessage] between the entry and the deferred trace.  [run]
    is what the framework yields, given the prompt it is started with. *)
Definition send_body (run : option string -> RunState -> list (Yield J))
    (content : string) (attachments : list AttachmentContent) : M Message :=
  count ← rdb (MessageCount threadID);
  _ ← modify (fun s => set_tick (with_corpus count (rs_tick s)) s);
  _ ← syncMsgSeq;
  nano ← rdb now;
  _ ← modify (set_turn ("turn-" ^^ threadID ^^ "-" ^^ itoa nano));
  err ← (if nonempty content || negb (bool_decide (attachments = []))
         then
           msg ← new_message ROLE_USER (user_blocks content attachments);
           r ← indexMessage msg;
           mret r.2
         else mret None);
  match err with
  | Some e => gom_err e
  | None =>
      runStart ← rdb now;
      _ ← modify (fun s => set_tick (with_times (Some runStart) (tickFirstEvent (rs_tick s)) (rs_tick s)) s);
      (fun s => processEvents (run (if nonempty content then Some content else None) s) s) : M Message
  end.

Definition SendMessage (run : option string -> RunState -> list (Yield J))
    (content : string) (attachments : list AttachmentContent) : M Message :=
  tickStart ← rdb now;
  _ ← modify (fun s => set_tick (reset_tick (rs_tick s)) s);
  (fun s =>
     let r := send_body run content attachments s in
     match r.2 with
     | Panic p => ((persistTickTrace tickStart None r.1).1, Panic p)
     | Ok m => let d := persistTickTrace tickStart None r.1 in (d.1, match d.2 with Panic p => Panic p | _ => Ok m end)
     | Err e => let d := persistTickTrace tickStart (Some e) r.1 in (d.1, match d.2 with Panic p => Panic p | _ => Err e end)
     end) : M Message.

End Runner.

(** ** What the writes of a turn do to the corpus *)

(** Every tool call of the database has its result and every result its call,
    and the primary key holds. *)
Definition db_closed `{ProtoCodec} (t : Tables) : Prop :=
  pair_closed (corpus t) /\ NoDup (r_id <$> tb_messages t).

Definition run_corpus `{ProtoCodec} (s : RunState) : list Message := corpus (rs_tables s).

Section Effects.
Context {env : Env} {srt : SliceSort} {codec : ProtoCodec} {J : Type} {json : Json J}.
Context (threadID modelName : string) (inserter : option Inserter).
Hypothesis Hcfg : match inserter with Some i => configured i | None => True end.
#[local] Abbreviation M := (GoM RunState).

(** A call that returns, keeps the turn and does [rel] to the tables. *)
Definition effect {A} (m : M A) (rel : string -> Tables -> A -> Tables -> Prop) : Prop := forall s, exists s' a,
  m s = (s', Ok a) /\ rs_currentTurnID s' = rs_currentTurnID s /\ rel (rs_currentTurnID s) (rs_tables s) a (rs_tables s').

(** The same without touching the tables. *)
Definition quiet {A} (m : M A) (V : A -> Prop) : Prop := effect m (fun _ t a t' => t' = t /\ V a).

Lemma effect_bind {A B} (m : M A) (f : A -> M B) (R : string -> Tables -> A -> Tables -> Prop) Q :
  effect m R -> (forall a, effect (f a) (Q a)) ->
  effect (m ≫= f) (fun turn t b t' => exists a t1, R turn t a t1 /\ Q a turn t1 b t').
Proof.
  intros Hm Hf s. destruct (Hm s) as (s1 & a & E & Ht & HR). destruct (Hf a s1) as (s2 & b & E2 & Ht2 & HQ).
  exists s2, b. unfold mbind, gom_bind. rewrite E. split; [done|]. split; [congruence|].
  exists a, (rs_tables s1). split; [done|]. by rewrite <- Ht.
Qed.

Lemma effect_mono {A} (m : M A) (R Q : string -> Tables -> A -> Tables -> Prop) :
  effect m R -> (forall turn t a t', R turn t a t' -> Q turn t a t') -> effect m Q.
Proof. intros Hm HQ s. destruct (Hm s) as (s' & a & E & Ht & HR). exists s', a. auto. Qed.

Lemma quiet_bind {A B} (m : M A) (f : A -> M B) (V : A -> Prop) rel :
  quiet m V -> (forall a, V a -> effect (f a) rel) -> effect (m ≫= f) rel.
Proof.
  intros Hm Hf s. destruct (Hm s) as (s1 & a & E & Ht & Et & HV). destruct (Hf a HV s1) as (s2 & b & E2 & Ht2 & HQ).
  exists s2, b. unfold mbind, gom_bind. rewrite E. split; [done|]. split; [congruence|].
  by rewrite <- Ht, <- Et.
Qed.

Lemma quiet_ret {A} (a : A) (V : A -> Prop) : V a -> quiet (mret a) V.
Proof. intros HV s. by exists s, a. Qed.

Lemma quiet_now : quiet (rdb now) (fun _ => True).
Proof. intros s. by eexists _, _. Qed.

Lemma quiet_ctx_err : quiet (rdb ctx_err) (fun _ => True).
Proof. intros s. by eexists _, _. Qed.

Lemma quiet_modify f :
  (forall s, rs_tables (f s) = rs_tables s) -> (forall s, rs_currentTurnID (f s) = rs_currentTurnID s) ->
  quiet (modify f) (fun _ => True).
Proof. intros Ht Hc s. exists (f s), tt. auto. Qed.

Lemma quiet_cancelled : quiet cancelled (fun _ => True).
Proof. unfold cancelled. eapply quiet_bind; [apply quiet_ctx_err|]. intros e _. by apply quiet_ret. Qed.

Lemma timed_effect {A} (m : M A) rel : effect m rel -> effect (timed m) rel.
Proof.
  intros Hm. unfold timed. eapply quiet_bind; [apply quiet_now|]. intros t0 _.
  eapply effect_mono; [eapply effect_bind; [exact Hm|]|].
  - intros a. eapply quiet_bind; [apply quiet_now|]. intros t1 _.
    eapply quiet_bind; [by apply quiet_modify|]. intros _ _.
    instantiate (1 := fun a _ t b t' => t' = t /\ b = a). by apply quiet_ret.
  - intros turn t a t' (b & t1 & HR & -> & ->). done.
Qed.

Lemma new_message_quiet role content :
  quiet (new_message threadID role content)
    (fun m => m_Content m = content /\ m_ThreadId m = threadID /\ m_TurnId m = "").
Proof.
  intros s. unfold new_message, nextMsgID, mbind, gom_bind, rdb, on_ins, on_db, now. simpl.
  eexists _, _. by split.
Qed.

(** What [indexMessage] and [indexPair] write. *)
Definition index_rel (msg : Message) (turn : string) (t : Tables) (r : Message * option goerr) (t' : Tables) : Prop :=
  exists chunks, stamped (stamp_turn turn msg) r.1 /\ wrote_or_not [(r.1, chunks)] r.2 t t'.

Definition pair_rel (call result : Message) (turn : string) (t : Tables) (r : Message * Message * option goerr) (t' : Tables) : Prop :=
  exists cc rc, stamped (stamp_turn turn call) r.1.1 /\ stamped (stamp_turn turn result) r.1.2 /\
    wrote_or_not [(r.1.1, cc); (r.1.2, rc)] r.2 t t'.

Lemma indexMessage_effect msg : effect (indexMessage inserter msg) (index_rel msg).
Proof.
  intros s. unfold indexMessage, CurrentTurn. apply (timed_effect _ (fun _ t r t' =>
    exists chunks, stamped (stamp_turn (rs_currentTurnID s) msg) r.1 /\ wrote_or_not [(r.1, chunks)] r.2 t t')).
  intros s0. destruct inserter as [i|].
  - destruct (Insert_run i Hcfg (stamp_turn (rs_currentTurnID s) msg) (rs_ins s0)) as (s' & m' & cs & err & E & _ & Hs & Hw & _).
    unfold on_ins. rewrite E. eexists _, _. split; [reflexivity|]. split; [done|]. by exists cs.
  - destruct (InsertMessage_spec (stamp_turn (rs_currentTurnID s) msg) [] (in_world (rs_ins s0))) as (w' & m' & err & E & Hs & Hw).
    unfold rdb, on_ins, on_db. rewrite E. eexists _, _. split; [reflexivity|]. split; [done|]. by exists [].
Qed.

Lemma indexPair_effect call result : effect (indexPair inserter call result) (pair_rel call result).
Proof.
  intros s. unfold indexPair, CurrentTurn. set (turn := rs_currentTurnID s). apply (timed_effect _ (fun _ t r t' =>
    exists cc rc, stamped (stamp_turn turn call) r.1.1 /\ stamped (stamp_turn turn result) r.1.2 /\
      wrote_or_not [(r.1.1, cc); (r.1.2, rc)] r.2 t t')).
  intros s0. destruct inserter as [i|].
  - destruct (InsertPair_run i Hcfg (stamp_turn turn call) (stamp_turn turn result) (rs_ins s0))
      as (s' & c' & r' & cc & rc & err & E & _ & _ & H1 & H2 & Hw & _).
    unfold on_ins. rewrite E. eexists _, _. split; [reflexivity|]. split; [done|]. by exists cc, rc.
  - destruct (InsertToolCallPair_spec (stamp_turn turn call) [] (stamp_turn turn result) [] (in_world (rs_ins s0)))
      as (w' & c' & r' & err & E & H1 & H2 & Hw).
    unfold rdb, on_ins, on_db. rewrite E. eexists _, _. split; [reflexivity|]. split; [done|]. by exists [], [].
Qed.

(** A timestamp or a turn does not change what closure sees. *)
Lemma stamped_fields msg msg' : stamped msg msg' ->
  m_Content msg' = m_Content msg /\ m_ThreadId msg' = m_ThreadId msg /\ m_TurnId msg' = m_TurnId msg /\
  m_Id msg' = m_Id msg /\ m_Position msg' = m_Position msg /\ m_Role msg' = m_Role msg.
Proof. intros (ts & _ & -> & _). done. Qed.

Lemma stamp_turn_fields turn msg :
  m_Content (stamp_turn turn msg) = m_Content msg /\ m_ThreadId (stamp_turn turn msg) = m_ThreadId msg /\
  m_TurnId (stamp_turn turn msg) = (if String.eqb (m_TurnId msg) "" then turn else m_TurnId msg) /\
  m_Id (stamp_turn turn msg) = m_Id msg /\ m_Position (stamp_turn turn msg) = m_Position msg.
Proof. unfold stamp_turn. by destruct (String.eqb (m_TurnId msg) ""). Qed.

Lemma nodup_wrote msgs err t t' :
  wrote_or_not msgs err t t' -> NoDup (r_id <$> tb_messages t) -> NoDup (r_id <$> tb_messages t').
Proof. destruct err; simpl; [by intros ->|]. by intros (rows & _ & (_ & _ & _ & Hn) & _). Qed.

Lemma corpus_wrote msgs err t t' :
  wrote_or_not msgs err t t' -> corpus t' = corpus t ++ match err with None => msgs.*1 | Some _ => [] end.
Proof. destruct err; simpl; [intros ->; by rewrite app_nil_r|]. by intros (rows & _ & _ & ->). Qed.

End Effects.

(** ** Write-side protocol closure *)

Section Closed.
Context {env : Env} {srt : SliceSort} {codec : ProtoCodec} {J : Type} {json : Json J}.
Context (threadID modelName : string) (inserter : option Inserter).
Hypothesis Hcfg : match inserter with Some i => configured i | None => True end.
Context (turn : string) (Hturn : turn <> "").
(** The call ids the framework may emit in this turn, and those of later turns. *)
Context (ids later : string -> Prop) (Hlater : forall id, ids id -> later id -> False).

Let key (id : string) : string := protocolKey threadID id.

(** A closed database in the middle of the turn, with the later ids unused. *)
Definition mid_turn (s : RunState) : Prop :=
  db_closed (rs_tables s) /\ rs_currentTurnID s = turn /\ forall id, later id -> unused (run_corpus s) (key id).

Definition pending_ok (t : Turn) : Prop := forall id m, pendingCalls t !! id = Some m ->
  ids id /\ id <> "" /\ call_message id m /\ m_ThreadId m = threadID /\ (m_TurnId m = "" \/ m_TurnId m = turn) /\
  is_Some (seenCallIDs t !! id).

(** Ids that were not emitted yet, and those still buffered, are unused. *)
Definition fresh (t : Turn) (s : RunState) : Prop := forall id, ids id ->
  seenCallIDs t !! id = None \/ is_Some (pendingCalls t !! id) -> unused (run_corpus s) (key id).

Definition turn_inv (t : Turn) (s : RunState) : Prop := mid_turn s /\ pending_ok t /\ fresh t s.

Definition part_ok (p : @Part J) : Prop := match pt_FunctionCall p with Some fc => ids (fc_ID fc) | None => True end.

(** The writes of others keep the database closed and leave our ids alone. *)
Definition yield_ok (y : Yield J) : Prop :=
  match y with
  | YEvent (Some c) => Forall part_ok (ct_Parts c)
  | YOthers write => forall t, db_closed t ->
      db_closed (write t) /\
      forall id, ids id \/ later id -> unused (corpus t) (key id) -> unused (corpus (write t)) (key id)
  | _ => True
  end.

Lemma unused_app c new k : unused c k -> unused new k -> unused (c ++ new) k.
Proof. intros H1 H2 m b [Hm|Hm]%elem_of_app; [by apply H1|by apply H2]. Qed.

Lemma unused_keyless m k : keyless m -> unused [m] k.
Proof. intros Hk n b ->%list_elem_of_singleton Hb. by destruct (keyless_keys m b Hk Hb) as [-> ->]. Qed.

(** Quiet calls keep every invariant that looks at the tables and the turn. *)
Lemma quiet_triple {A} (m : GoM RunState A) V (P : RunState -> Prop) E :
  quiet m V -> (forall s s', rs_tables s' = rs_tables s -> rs_currentTurnID s' = rs_currentTurnID s -> P s -> P s') ->
  triple P m (fun a s => V a /\ P s) E.
Proof.
  intros Hq HP s Hs. destruct (Hq s) as (s' & a & -> & Ht & Et & HV). split; [done|]. by eapply HP.
Qed.

Lemma turn_inv_ext t s s' :
  rs_tables s' = rs_tables s -> rs_currentTurnID s' = rs_currentTurnID s -> turn_inv t s -> turn_inv t s'.
Proof.
  unfold turn_inv, mid_turn, fresh, run_corpus. intros -> ->. done.
Qed.

Lemma turn_inv_quiet {A} (m : GoM RunState A) V t E :
  quiet m V -> triple (turn_inv t) m (fun a s => V a /\ turn_inv t s) E.
Proof. intros Hq. apply quiet_triple; [done|]. apply turn_inv_ext. Qed.

(** A keyless message written, or not. *)
Lemma index_keyless t msg E :
  keyless msg -> triple (turn_inv t) (indexMessage inserter msg) (fun _ => turn_inv t) E.
Proof.
  intros Hk s (((Hc & Hnd) & Ht & Hl) & Hp & Hf).
  destruct (indexMessage_effect inserter Hcfg msg s) as (s' & [msg' err] & -> & Et & cs & Hst & Hw).
  pose proof (nodup_wrote _ _ _ _ Hw Hnd) as Hnd'. apply corpus_wrote in Hw. cbn [fst snd] in *.
  assert (keyless msg') as Hk'.
  { intros b. destruct (stamped_fields _ _ Hst) as (-> & _). rewrite (proj1 (stamp_turn_fields _ _)). apply Hk. }
  split; [split; [split; [|done]|split; [congruence|]]|split; [done|]]; unfold fresh, run_corpus in *; rewrite Hw.
  - destruct err; [by rewrite app_nil_r|]. by apply pair_closed_keyless.
  - intros id Hid. destruct err; [rewrite app_nil_r; auto|]. apply unused_app; [auto|by apply unused_keyless].
  - intros id Hid Hor. destruct err; [rewrite app_nil_r; auto|]. apply unused_app; [auto|by apply unused_keyless].
Qed.

Lemma turn_inv_cong t t' s :
  pendingCalls t' = pendingCalls t -> seenCallIDs t' = seenCallIDs t -> turn_inv t s -> turn_inv t' s.
Proof. unfold turn_inv, pending_ok, fresh. intros -> ->. done. Qed.

(** Flushing the thinking of [t] keeps the invariant of every [t0]. *)
Lemma storeThinking_inv t0 t E :
  triple (turn_inv t0) (storeThinking threadID inserter t)
    (fun t' s => (pendingCalls t' = pendingCalls t /\ seenCallIDs t' = seenCallIDs t) /\ turn_inv t0 s) E.
Proof.
  unfold storeThinking. destruct (String.eqb (thinkingBuf t) ""); [by apply triple_ret|].
  eapply triple_bind; [eapply turn_inv_quiet, new_message_quiet|]. intros msg s [(Hc & _ & _) Hi].
  revert s Hi. change (triple (turn_inv t0) (indexMessage inserter msg ≫= fun _ => mret (set_thinking "" "" t))
    (fun t' s => (pendingCalls t' = pendingCalls t /\ seenCallIDs t' = seenCallIDs t) /\ turn_inv t0 s) E).
  eapply triple_bind; [apply index_keyless|].
  - intros b. rewrite Hc. by intros ->%list_elem_of_singleton.
  - intros r. by apply triple_ret.
Qed.

(** The pair written, or not. *)
Lemma index_pair_inv t id call result E :
  pendingCalls t !! id = Some call -> result_message id result -> m_ThreadId result = threadID -> m_TurnId result = "" ->
  triple (turn_inv t) (indexPair inserter call result)
    (fun r s => match r.2 with
                | Some _ => turn_inv (rebuffer_call id r.1.1 t) s
                | None => turn_inv (drop_call id t) s
                end) E.
Proof.
  intros Hcall Hres Hrth Hrt s (((Hc & Hnd) & Ht & Hl) & Hp & Hf).
  destruct (Hp id call Hcall) as (Hid & Hne & Hcm & Hcth & Hct & Hseen).
  assert (unused (run_corpus s) (key id)) as Hun by (apply Hf; [done|right; by eexists]).
  destruct (indexPair_effect inserter Hcfg call result s) as (s' & [[call' result'] err] & -> & Et & cc & rc & Hs1 & Hs2 & Hw).
  pose proof (nodup_wrote _ _ _ _ Hw Hnd) as Hnd'. apply corpus_wrote in Hw. cbn [fst snd] in *. rewrite Ht in Hs1, Hs2.
  destruct (stamped_fields _ _ Hs1) as (C1 & T1 & U1 & _), (stamped_fields _ _ Hs2) as (C2 & T2 & U2 & _).
  destruct (stamp_turn_fields turn call) as (C1' & T1' & U1' & _), (stamp_turn_fields turn result) as (C2' & T2' & U2' & _).
  assert (m_TurnId call' = turn) as Hu1.
  { rewrite U1, U1'. destruct (String.eqb_spec (m_TurnId call) ""); [done|]. destruct Hct; congruence. }
  assert (m_TurnId result' = turn) as Hu2 by (rewrite U2, U2', Hrt; done).
  assert (call_message id call') as Hcm'.
  { destruct Hcm as (tc & Htc & Hx). exists tc. by rewrite C1, C1'. }
  assert (result_message id result') as Hrm'.
  { destruct Hres as (tr & Htr & Hx). exists tr. by rewrite C2, C2'. }
  assert (m_ThreadId call' = threadID /\ m_ThreadId result' = threadID) as [Hth1 Hth2] by (rewrite T1, T1', T2, T2'; done).
  destruct err as [e|]; unfold turn_inv, mid_turn, db_closed, fresh, run_corpus in *; rewrite Hw.
  - rewrite app_nil_r. split; [split; [done|split; [congruence|done]]|]. split.
    + intros j m. cbn [rebuffer_call pendingCalls seenCallIDs]. rewrite lookup_insert. case_decide as Hj; [|apply Hp].
      intros [= <-]. subst j. split_and!; try done. by right.
    + intros j Hj Hor. apply Hf; [done|]. cbn [rebuffer_call pendingCalls seenCallIDs] in Hor.
      rewrite lookup_insert in Hor. case_decide as Hij; [subst j; right; by eexists|done].
  - cbn [fmap list_fmap fst].
    assert (forall j, j <> id -> unused [call'; result'] (key j)) as Hnew.
    { intros j Hne' n b [->|[->|[]%elem_of_nil]%elem_of_cons]%elem_of_cons Hb.
      * destruct (call_message_keys id call' Hne Hcm' b Hb) as [-> ->]. rewrite Hth1.
        split; [|done]. intros [= Hk%protocolKey_inj]. congruence.
      * destruct (result_message_keys id call' result' Hne Hrm' ltac:(congruence) b Hb) as [-> ->]. rewrite Hth1.
        split; [done|]. intros [= Hk%protocolKey_inj]. congruence. }
    split; [split; [split; [|done]|split; [congruence|]]|split].
    + apply (pair_closed_pair _ id); try congruence; try done. by rewrite Hth1.
    + intros j Hj. apply unused_app; [by apply Hl|]. apply Hnew. intros ->. by apply (Hlater id).
    + intros j m. cbn [drop_call pendingCalls seenCallIDs]. intros [Hne' Hj]%lookup_delete_Some. by apply Hp.
    + intros j Hj Hor. cbn [drop_call pendingCalls seenCallIDs] in Hor.
      assert (j <> id) as Hne'.
      { intros ->. rewrite lookup_delete_eq in Hor. destruct Hseen as [? Hs], Hor as [|[? ?]]; congruence. }
      rewrite lookup_delete_ne in Hor by done. apply unused_app; [by apply Hf|by apply Hnew].
Qed.

(** A pure part of a precondition. *)
Lemma triple_pure {S A} (X : Prop) (P : S -> Prop) (m : GoM S A) (Q : A -> S -> Prop) E :
  (X -> triple P m Q E) -> triple (fun s => X /\ P s) m Q E.
Proof. intros H s [HX HP]. by apply H. Qed.

Lemma on_call_inv (fc : @FunctionCall J) sig t :
  ids (fc_ID fc) ->
  triple (turn_inv t) (on_call threadID inserter fc sig t) (fun r => turn_inv (fst r)) mid_turn.
Proof.
  intros Hid. unfold on_call. destruct (String.eqb_spec (fc_ID fc) "") as [|Hne].
  { apply triple_err. by intros s [? _]. }
  destruct (seenCallIDs t !! fc_ID fc) eqn:Hseen; [by apply triple_ret|].
  eapply triple_bind; [apply (storeThinking_inv t)|]. intros t1. cbn beta. apply triple_pure. intros [Hp1 Hs1].
  eapply triple_bind; [eapply turn_inv_quiet, new_message_quiet|]. intros msg. cbn beta.
  apply triple_pure. intros (Hc & Hth & Htu).
  eapply triple_bind; [eapply turn_inv_quiet, quiet_modify; done|]. intros u. cbn beta. apply triple_ret.
  intros s (_ & Hm & Hp & Hf). cbn [fst]. split; [done|]. split.
  - intros id m. cbn [buffer_call pendingCalls seenCallIDs]. rewrite Hp1, Hs1. cbn [see_call pendingCalls seenCallIDs].
    rewrite !lookup_insert. case_decide as Hj; [|apply Hp].
    intros [= <-]. subst id. split_and!; [done|done| |done|by left|by eexists]. by eexists.
  - intros id Hi Hor. apply Hf; [done|]. cbn [buffer_call pendingCalls seenCallIDs] in Hor. rewrite Hp1, Hs1 in Hor.
    cbn [see_call pendingCalls seenCallIDs] in Hor. rewrite !lookup_insert in Hor.
    case_decide as Hj; [subst id; by left|done].
Qed.

Lemma on_response_inv (fr : @FunctionResponse J) t E :
  triple (turn_inv t) (on_response threadID inserter fr t) (fun r => turn_inv (fst r)) E.
Proof.
  unfold on_response. eapply triple_bind; [eapply turn_inv_quiet, quiet_cancelled|]. intros stop. cbn beta.
  apply triple_pure. intros _. destruct stop; [by apply triple_ret|]. destruct (_ && _); [by apply triple_ret|].
  eapply triple_bind; [eapply turn_inv_quiet, new_message_quiet|]. intros msg. cbn beta.
  apply triple_pure. intros (Hc & Hth & Htu). destruct (pendingCalls t !! fr_ID fr) as [call|] eqn:Hcall; [|by apply triple_ret].
  eapply triple_bind; [apply (index_pair_inv t (fr_ID fr)); try done; by eexists|].
  intros [[call' res'] [e|]]; cbn beta match; cbn [fst snd]; [by apply triple_ret|].
  eapply triple_bind; [eapply turn_inv_quiet, quiet_modify; done|]. intros u. cbn beta. apply triple_ret.
  intros s [_ Hi]. exact Hi.
Qed.

Lemma on_text_inv (p : @Part J) t E : triple (turn_inv t) (on_text threadID inserter p t) turn_inv E.
Proof.
  unfold on_text. destruct (_ && _ && _).
  - destruct (nonempty (pt_ThoughtSignature p)).
    + eapply triple_conseq; [apply (storeThinking_inv t)|done| |done].
      intros t' s [[Hp Hs] Hi]. by eapply turn_inv_cong.
    + apply triple_ret. intros s. by apply turn_inv_cong.
  - destruct (_ && _); apply triple_ret; [|done]. intros s. by apply turn_inv_cong.
Qed.

Lemma process_part_inv t p : part_ok p -> triple (turn_inv t) (process_part threadID inserter t p) turn_inv mid_turn.
Proof.
  intros Hok. unfold process_part. unfold part_ok in Hok. eapply triple_bind with (R := fun r => turn_inv (fst r)).
  { destruct (pt_FunctionCall p); [by apply on_call_inv|by apply triple_ret]. }
  intros [t1 []]; cbn [fst snd]; [by apply triple_ret|]. eapply triple_bind with (R := fun r => turn_inv (fst r)).
  { destruct (pt_FunctionResponse p); [by apply on_response_inv|by apply triple_ret]. }
  intros [t2 []]; cbn [fst snd]; [by apply triple_ret|apply on_text_inv].
Qed.

Lemma note_first_event_quiet : quiet note_first_event (fun _ => True).
Proof.
  intros s. unfold note_first_event. destruct (tickFirstEvent (rs_tick s)); [by eexists _, _|].
  unfold mbind, gom_bind. destruct (quiet_now s) as (s1 & nano & -> & Ht & Et & _).
  eexists _, _. split; [reflexivity|]. by split.
Qed.

Lemma process_yield_inv t (y : Yield J) : yield_ok y -> triple (turn_inv t) (process_yield threadID inserter t y) turn_inv mid_turn.
Proof.
  intros Hok. unfold process_yield. destruct y as [e|[c|]|a|p q c|write].
  - destruct (err_is e ECanceled); apply triple_ret; [done|]. intros s. by apply turn_inv_cong.
  - eapply triple_bind; [eapply turn_inv_quiet, note_first_event_quiet|]. intros u. cbn beta. apply triple_pure. intros _.
    apply triple_foldM. intros p t' Hp. apply process_part_inv. simpl in Hok. rewrite Forall_forall in Hok. auto.
  - by apply triple_ret.
  - eapply triple_bind; [eapply turn_inv_quiet, quiet_modify; done|]. intros u. cbn beta. apply triple_ret. by intros s [_ ?].
  - eapply triple_bind; [eapply turn_inv_quiet, quiet_modify; done|]. intros u. cbn beta. apply triple_ret. by intros s [_ ?].
  - eapply triple_bind with (R := fun _ => turn_inv t); [|intros _; by apply triple_ret].
    intros s ((Hc & Ht & Hl) & Hp & Hf). destruct (Hok _ Hc) as [Hc' Hun].
    split; [split; [done|split; [done|]]|split; [done|]].
    + intros id Hid. apply Hun; [by right|]. by apply Hl.
    + intros id Hid Hor. apply Hun; [by left|]. by apply Hf.
Qed.

Lemma flush_call_inv st id :
  triple (turn_inv (fst st)) (flush_call threadID inserter st id) (fun st => turn_inv (fst st)) mid_turn.
Proof.
  unfold flush_call. destruct (pendingCalls (fst st) !! id) as [call|] eqn:Hcall; [|by apply triple_ret].
  eapply triple_bind; [eapply turn_inv_quiet, new_message_quiet|]. intros msg. cbn beta.
  apply triple_pure. intros (Hc & Hth & Htu).
  eapply triple_bind; [apply (index_pair_inv (fst st) id); try done; by eexists|].
  intros [[call' res'] [e|]]; cbn beta match; cbn [fst snd]; [by apply triple_ret|].
  eapply triple_bind; [eapply turn_inv_quiet, quiet_modify; done|]. intros u. cbn beta. apply triple_ret.
  by intros s [_ Hi].
Qed.

Lemma finish_turn_inv t : triple (turn_inv t) (finish_turn threadID inserter t) (fun _ => mid_turn) mid_turn.
Proof.
  unfold finish_turn. destruct (final_content t) as [|b l] eqn:E.
  - eapply triple_bind; [eapply turn_inv_quiet, quiet_cancelled|]. intros stop. cbn beta.
    apply triple_err. by intros s (_ & Hm & _).
  - eapply triple_bind; [eapply turn_inv_quiet, new_message_quiet|]. intros msg. cbn beta.
    apply triple_pure. intros (Hc & _ & _). eapply triple_bind; [apply index_keyless|].
    + intros b'. rewrite Hc, <- E. unfold final_content. destruct (nonempty _), (nonempty _); set_solver.
    + intros [m [e|]]; cbn [fst snd]; [apply triple_err|apply triple_ret]; by intros s (Hm & _).
Qed.

(** From a closed database to a closed database, whatever is yielded. *)
Lemma processEvents_inv (events : list (Yield J)) :
  Forall yield_ok events ->
  triple (turn_inv start_turn) (processEvents threadID inserter events) (fun _ => mid_turn) mid_turn.
Proof.
  intros Hok. unfold processEvents. eapply triple_bind.
  { apply triple_foldM. intros y t Hy. apply process_yield_inv. rewrite Forall_forall in Hok. auto. }
  intros t. eapply triple_bind.
  { apply (triple_foldM (fun st => turn_inv (fst st)) _ _ (t, None)). intros id st _. apply flush_call_inv. }
  intros [t' [e|]]; cbn [fst snd]; [|apply finish_turn_inv]. apply triple_err. by intros s (Hm & _).
Qed.

End Closed.

Section Send.
Context {env : Env} {srt : SliceSort} {codec : ProtoCodec} {J : Type} {json : Json J}.
Context (threadID modelName : string) (inserter : option Inserter).
Hypothesis Hcfg : match inserter with Some i => configured i | None => True end.
Context (ids later : string -> Prop) (Hlater : forall id, ids id -> later id -> False).
Context (run : option string -> RunState -> list (Yield J)).
Hypothesis Hrun : forall prompt s, Forall (yield_ok threadID ids later) (run prompt s).

(** A closed database in which none of the given call ids is in use. *)
Definition ready (ids : string -> Prop) (s : RunState) : Prop :=
  db_closed (rs_tables s) /\ forall id, ids id -> unused (run_corpus s) (protocolKey threadID id).

(** Before the turn, and after it. *)
Definition before (s : RunState) : Prop := ready (fun id => ids id \/ later id) s.
Definition after (s : RunState) : Prop := ready later s.

Lemma ready_ext ids0 s s' : rs_tables s' = rs_tables s -> ready ids0 s -> ready ids0 s'.
Proof. unfold ready, run_corpus. by intros ->. Qed.

Lemma quiet_scan_or {A} (dflt : A) (f : Tables -> A) : quiet (rdb (scan_or dflt (query f))) (fun _ => True).
Proof.
  intros s. unfold rdb, on_ins, on_db, scan_or, query, statement. destruct (e_fault _); by eexists _, _.
Qed.

Lemma quiet_syncMsgSeq : quiet (syncMsgSeq threadID) (fun _ => True).
Proof.
  unfold syncMsgSeq. eapply quiet_bind; [apply quiet_scan_or|]. intros p _.
  apply quiet_modify; intros s; by destruct (_ <? _).
Qed.

Lemma quiet_keeps {A} (m : GoM RunState A) V P E :
  quiet m V -> (forall s s', rs_tables s' = rs_tables s -> P s -> P s') -> triple P m (fun _ s => P s) E.
Proof.
  intros Hq HP. eapply triple_conseq; [apply (quiet_triple m V P E Hq)|done|by intros a s [_ ?]|done].
  intros s s' Ht _. by apply HP.
Qed.

Lemma user_blocks_keyless content atts b : b ∈ user_blocks content atts -> protocol_block b = false.
Proof.
  unfold user_blocks, BlocksFromText. rewrite elem_of_app, list_elem_of_singleton, list_elem_of_fmap.
  by intros [->|(a & -> & _)].
Qed.

Lemma start_turn_inv turn s : before s -> rs_currentTurnID s = turn -> turn_inv threadID turn ids later start_turn s.
Proof.
  intros [Hd Hu] Ht. split; [split; [done|split; [done|]]|split; [by intros id m|]].
  - intros id Hid. apply Hu. by right.
  - intros id Hid _. apply Hu. by left.
Qed.

Lemma send_body_closed content attachments :
  triple before (send_body threadID inserter run content attachments) (fun _ => after) after.
Proof.
  unfold send_body.
  eapply triple_bind; [eapply quiet_keeps; [apply quiet_scan_or|apply ready_ext]|]. intros count. cbn beta.
  eapply triple_bind; [eapply quiet_keeps; [by apply quiet_modify|apply ready_ext]|]. intros u1. cbn beta.
  eapply triple_bind; [eapply quiet_keeps; [apply quiet_syncMsgSeq|apply ready_ext]|]. intros u2. cbn beta.
  eapply triple_bind; [eapply quiet_keeps; [apply quiet_now|apply ready_ext]|]. intros nano. cbn beta.
  set (turn := "turn-" ^^ threadID ^^ "-" ^^ itoa nano). assert (turn <> "") as Hturn by done.
  eapply triple_bind with (R := fun _ => turn_inv threadID turn ids later start_turn).
  { intros s Hs. by apply start_turn_inv. }
  intros u3. eapply triple_bind with (R := fun _ => turn_inv threadID turn ids later start_turn).
  { destruct (_ || _); [|by apply triple_ret].
    eapply triple_bind; [eapply turn_inv_quiet, new_message_quiet|]. intros msg. cbn beta.
    apply triple_pure. intros (Hc & _ & _). eapply triple_bind; [apply index_keyless; [done|intros b; rewrite Hc; apply user_blocks_keyless]|].
    intros r. by apply triple_ret. }
  intros [e|]; [apply triple_err; by intros s ((? & _ & ?) & _)|].
  eapply triple_bind; [eapply turn_inv_quiet, quiet_now|]. intros rs. cbn beta. apply triple_pure. intros _.
  eapply triple_bind; [eapply turn_inv_quiet; by apply quiet_modify|]. intros u4. cbn beta. apply triple_pure. intros _.
  intros s Hs. set (events := run _ s).
  eapply (triple_conseq _ _ _ _ _ _ _ (processEvents_inv threadID inserter Hcfg turn Hturn ids later Hlater events (Hrun _ _)));
    [done|by intros m s' (? & _ & ?)|by intros s' (? & _ & ?)|exact Hs].
Qed.

End Send.

Section Theorems.
Context {env : Env} {srt : SliceSort} {codec : ProtoCodec} {J : Type} {json : Json J}.

Lemma persist_runs threadID modelName tickStart err s :
  exists s', persistTickTrace threadID modelName tickStart err s = (s', Ok tt) /\
    tb_messages (rs_tables s') = tb_messages (rs_tables s).
Proof.
  unfold persistTickTrace, mbind, gom_bind. destruct (quiet_now s) as (s1 & nano & -> & _ & <- & _).
  unfold rdb, on_ins, on_db, InsertTickTrace, exec, statement.
  destruct (e_fault _); eexists; (split; [reflexivity|done]).
Qed.

Lemma ready_messages threadID ids s s' :
  tb_messages (rs_tables s') = tb_messages (rs_tables s) -> ready threadID ids s -> ready threadID ids s'.
Proof. unfold ready, run_corpus, db_closed, corpus. by intros ->. Qed.

Lemma db_closed_closes t m score :
  db_closed t -> m ∈ corpus t -> exists g, run_close (NewProtocolIndex (corpus t)) m score = Ok g.
Proof. intros [Hc Hn] Hm. apply closed_run_close; [done| |done]. intros a b. by apply corpus_ids. Qed.

(** A turn takes a ready state to a ready state. *)
Lemma SendMessage_ready (threadID modelName : string) (inserter : option Inserter) (ids later : string -> Prop)
    (run : option string -> RunState -> list (Yield J)) (content : string) (attachments : list AttachmentContent)
    (s : RunState) :
  (match inserter with Some i => configured i | None => True end) ->
  (forall id, ids id -> later id -> False) ->
  (forall prompt s, Forall (yield_ok threadID ids later) (run prompt s)) ->
  ready threadID (fun id => ids id \/ later id) s ->
  let out := SendMessage threadID modelName inserter run content attachments s in
  settles out.2 /\ ready threadID later out.1.
Proof.
  intros Hcfg Hlater Hrun Hready out. unfold out, SendMessage, mbind, gom_bind.
  destruct (quiet_now s) as (s1 & nano & -> & _ & Et & _). cbn [modify]. set (s2 := set_tick _ s1).
  pose proof (send_body_closed threadID inserter Hcfg ids later Hlater run Hrun content attachments s2
                (ready_ext threadID _ s s2 Et Hready)) as Hb.
  destruct (send_body _ _ _ _ _ s2) as [s3 [m|e|p]]; cbn [fst snd]; [..|done].
  - destruct (persist_runs threadID modelName nano None s3) as (s4 & -> & Hm). cbn [fst snd].
    split; [apply settles_ok|]. by eapply ready_messages.
  - destruct (persist_runs threadID modelName nano (Some e) s3) as (s4 & -> & Hm). cbn [fst snd].
    split; [apply settles_err|]. by eapply ready_messages.
Qed.


End Theorems.

(** ** What the user interface is told *)

Definition call_ids (ns : list Notice) : list string :=
  omap (fun n => match n with OnToolCall id _ _ => Some id | _ => None end) ns.
Definition result_ids (ns : list Notice) : list string :=
  omap (fun n => match n with OnToolResult id _ _ _ => Some id | _ => None end) ns.

Section Notices.
Context {env : Env} {srt : SliceSort} {codec : ProtoCodec} {J : Type} {json : Json J}.
Context (threadID : string) (inserter : option Inserter).
Hypothesis Hcfg : match inserter with Some i => configured i | None => True end.

(** A call that tells nothing. *)
Definition mute {A} (m : GoM RunState A) : Prop := forall s, rs_notices (m s).1 = rs_notices s.

Lemma mute_bind {A B} (m : GoM RunState A) (f : A -> GoM RunState B) : mute m -> (forall a, mute (f a)) -> mute (m ≫= f).
Proof.
  intros Hm Hf s. unfold mbind, gom_bind. specialize (Hm s). destruct (m s) as [s' [a| |]]; [|done..].
  by rewrite Hf.
Qed.
Lemma mute_ret {A} (a : A) : mute (mret a).
Proof. done. Qed.
Lemma mute_on_ins {A} (m : GoM InsertState A) : mute (on_ins m).
Proof. done. Qed.
Lemma mute_modify f : (forall s, rs_notices (f s) = rs_notices s) -> mute (modify f).
Proof. done. Qed.
Lemma mute_timed {A} (m : GoM RunState A) : mute m -> mute (timed m).
Proof.
  intros Hm. unfold timed. apply mute_bind; [apply mute_on_ins|]. intros t0. apply mute_bind; [done|]. intros a.
  apply mute_bind; [apply mute_on_ins|]. intros t1. apply mute_bind; [by apply mute_modify|]. intros _. apply mute_ret.
Qed.
Lemma mute_index msg : mute (indexMessage inserter msg).
Proof. intros s. unfold indexMessage. apply mute_timed. by destruct inserter. Qed.
Lemma mute_index_pair call result : mute (indexPair inserter call result).
Proof. intros s. unfold indexPair. apply mute_timed. by destruct inserter. Qed.
Lemma mute_new_message role content : mute (new_message threadID role content).
Proof. unfold new_message, nextMsgID. apply mute_bind; [apply mute_bind; [apply mute_on_ins|done]|done]. Qed.

(** Mute calls that return keep what is known of the notices. *)
Lemma mute_triple {A} (m : GoM RunState A) rel (P : list Notice -> Prop) E :
  effect m rel -> mute m -> triple (fun s => P (rs_notices s)) m (fun _ s => P (rs_notices s)) E.
Proof. intros He Hm s Hs. specialize (Hm s). destruct (He s) as (s' & a & E1 & _). rewrite E1 in Hm |- *. simpl in Hm. by rewrite Hm. Qed.

(** Announced calls are those seen, answered ones those seen and no longer
    pending; whatever is pending will be flushed. *)
Record log_inv (t : Turn) (ns : list Notice) : Prop := {
  li_calls_once : NoDup (call_ids ns);
  li_results_once : NoDup (result_ids ns);
  li_calls : forall id, id ∈ call_ids ns <-> is_Some (seenCallIDs t !! id);
  li_results : forall id, id ∈ result_ids ns <-> is_Some (seenCallIDs t !! id) /\ pendingCalls t !! id = None;
  li_pending : forall id, is_Some (pendingCalls t !! id) -> id ∈ pendingOrder t /\ is_Some (seenCallIDs t !! id)
}.

Context (ns0 : list Notice).

Definition logged (t : Turn) (l : list Notice) : Prop := exists ns, l = ns0 ++ ns /\ log_inv t ns.
Definition log_state (t : Turn) (s : RunState) : Prop := logged t (rs_notices s).
Definition anything (s : RunState) : Prop := True.

Lemma logged_cong t t' l :
  pendingCalls t' = pendingCalls t -> seenCallIDs t' = seenCallIDs t -> pendingOrder t' = pendingOrder t ->
  logged t l -> logged t' l.
Proof.
  intros Ep Es Eo (ns & -> & [H1 H2 H3 H4 H5]). exists ns. split; [done|]. split; try done; by rewrite ?Ep, ?Es, ?Eo.
Qed.

Lemma logged_call t id name args m l :
  seenCallIDs t !! id = None -> logged t l ->
  logged (buffer_call id m (see_call id name t)) (l ++ [OnToolCall id name args]).
Proof.
  intros Hn (ns & -> & [H1 H2 H3 H4 H5]). exists (ns ++ [OnToolCall id name args]). split; [by rewrite app_assoc|].
  assert (call_ids (ns ++ [OnToolCall id name args]) = call_ids ns ++ [id]) as Ec by (unfold call_ids; by rewrite omap_app).
  assert (result_ids (ns ++ [OnToolCall id name args]) = result_ids ns) as Er
    by (unfold result_ids; rewrite omap_app; simpl; by rewrite app_nil_r).
  split; cbn [buffer_call see_call seenCallIDs pendingCalls pendingOrder]; rewrite ?Ec, ?Er.
  - apply NoDup_app. split; [done|]. split; [|apply NoDup_singleton].
    intros x Hx%H3 ->%list_elem_of_singleton. destruct Hx; congruence.
  - done.
  - intros x. rewrite elem_of_app, list_elem_of_singleton, H3, lookup_insert. case_decide; naive_solver.
  - intros x. rewrite H4, !lookup_insert. case_decide as Hx; [subst x|done].
    rewrite Hn. split; [intros [[? ?] _]; done|intros [_ ?]; done].
  - intros x. rewrite !lookup_insert, elem_of_app, list_elem_of_singleton. case_decide as Hx.
    + subst x. intros _. split; [by right|by eexists].
    + intros Hp. destruct (H5 x Hp). auto.
Qed.

Lemma logged_result t id name text err l :
  is_Some (pendingCalls t !! id) -> logged t l -> logged (drop_call id t) (l ++ [OnToolResult id name text err]).
Proof.
  intros Hp (ns & -> & [H1 H2 H3 H4 H5]). exists (ns ++ [OnToolResult id name text err]). split; [by rewrite app_assoc|].
  assert (result_ids (ns ++ [OnToolResult id name text err]) = result_ids ns ++ [id]) as Er
    by (unfold result_ids; by rewrite omap_app).
  assert (call_ids (ns ++ [OnToolResult id name text err]) = call_ids ns) as Ec
    by (unfold call_ids; rewrite omap_app; simpl; by rewrite app_nil_r).
  destruct (H5 id Hp) as [_ Hs].
  split; cbn [drop_call seenCallIDs pendingCalls pendingOrder]; rewrite ?Ec, ?Er; try done.
  - apply NoDup_app. split; [done|]. split; [|apply NoDup_singleton].
    intros x Hx%H4 ->%list_elem_of_singleton. destruct Hp, Hx; congruence.
  - intros x. rewrite elem_of_app, list_elem_of_singleton, H4, lookup_delete. case_decide; naive_solver.
  - intros x. rewrite lookup_delete. case_decide; [by intros [? ?]|]. apply H5.
Qed.

Lemma logged_rebuffer t id m l : is_Some (pendingCalls t !! id) -> logged t l -> logged (rebuffer_call id m t) l.
Proof.
  intros Hp (ns & -> & [H1 H2 H3 H4 H5]). exists ns. split; [done|].
  split; cbn [rebuffer_call seenCallIDs pendingCalls pendingOrder]; try done;
    intros x; rewrite lookup_insert; case_decide as Hx; auto; subst x.
  - rewrite H4. destruct Hp as [? ->]. naive_solver.
  - intros _. by apply H5.
Qed.

Lemma storeThinking_log t0 t E :
  triple (log_state t0) (storeThinking threadID inserter t)
    (fun t' s => (pendingCalls t' = pendingCalls t /\ seenCallIDs t' = seenCallIDs t /\ pendingOrder t' = pendingOrder t) /\
                 log_state t0 s) E.
Proof.
  unfold storeThinking. destruct (String.eqb (thinkingBuf t) ""); [by apply triple_ret|].
  eapply triple_bind; [eapply (mute_triple _ _ (logged t0)); [apply new_message_quiet|apply mute_new_message]|]. intros msg.
  eapply triple_bind; [eapply (mute_triple _ _ (logged t0)); [by apply indexMessage_effect|apply mute_index]|]. intros r.
  by apply triple_ret.
Qed.

Lemma on_call_log (fc : @FunctionCall J) sig t :
  triple (log_state t) (on_call threadID inserter fc sig t) (fun r => log_state (fst r)) anything.
Proof.
  unfold on_call. destruct (String.eqb (fc_ID fc) ""); [by apply triple_err|].
  destruct (seenCallIDs t !! fc_ID fc) eqn:Hs; [by apply triple_ret|].
  eapply triple_bind; [apply (storeThinking_log t)|]. intros t1. cbn beta. apply triple_pure. intros (Hp1 & Hs1 & Ho1).
  eapply triple_bind; [eapply (mute_triple _ _ (logged t)); [apply new_message_quiet|apply mute_new_message]|]. intros msg.
  intros s Hl. cbn. eapply logged_cong; [..|by eapply (logged_call t (fc_ID fc) (fc_Name fc) _ msg)];
    cbn; by rewrite ?Hp1, ?Hs1, ?Ho1.
Qed.

Lemma on_response_log (fr : @FunctionResponse J) t :
  triple (log_state t) (on_response threadID inserter fr t) (fun r => log_state (fst r)) anything.
Proof.
  unfold on_response.
  eapply triple_bind; [eapply (mute_triple _ _ (logged t)); [apply quiet_cancelled|by intros s]|]. intros stop.
  destruct stop; [by apply triple_ret|]. destruct (_ && _); [by apply triple_ret|].
  eapply triple_bind; [eapply (mute_triple _ _ (logged t)); [apply new_message_quiet|apply mute_new_message]|]. intros msg.
  destruct (pendingCalls t !! fr_ID fr) as [call|] eqn:Hp; [|by apply triple_ret].
  eapply triple_bind; [eapply (mute_triple _ _ (logged t)); [by apply indexPair_effect|apply mute_index_pair]|].
  intros [[c' r'] [e|]]; cbn [fst snd].
  - apply triple_ret. intros s. apply logged_rebuffer. by eexists.
  - intros s Hl.
    eapply (logged_cong (drop_call (fr_ID fr) t)); [done..|]. apply logged_result; [by eexists|done].
Qed.

Lemma on_text_log (p : @Part J) t E : triple (log_state t) (on_text threadID inserter p t) log_state E.
Proof.
  unfold on_text. destruct (_ && _ && _).
  - destruct (nonempty (pt_ThoughtSignature p)).
    + eapply triple_conseq; [apply (storeThinking_log t)|done| |done].
      intros t' s [(Hp & Hs & Ho) Hl]. by apply (logged_cong t).
    + apply triple_ret. intros s. by apply (logged_cong t).
  - destruct (_ && _); apply triple_ret; [|done]. intros s. by apply (logged_cong t).
Qed.

Lemma process_part_log t (p : @Part J) : triple (log_state t) (process_part threadID inserter t p) log_state anything.
Proof.
  unfold process_part. eapply triple_bind with (R := fun r => log_state (fst r)).
  { destruct (pt_FunctionCall p); [apply on_call_log|by apply triple_ret]. }
  intros [t1 []]; cbn [fst snd]; [by apply triple_ret|]. eapply triple_bind with (R := fun r => log_state (fst r)).
  { destruct (pt_FunctionResponse p); [apply on_response_log|by apply triple_ret]. }
  intros [t2 []]; cbn [fst snd]; [by apply triple_ret|apply on_text_log].
Qed.

Lemma process_yield_log t (y : Yield J) : triple (log_state t) (process_yield threadID inserter t y) log_state anything.
Proof.
  unfold process_yield. destruct y as [e|[c|]|a|p q c|write]; try (intros s Hl; exact Hl).
  - destruct (err_is e ECanceled); apply triple_ret; [done|]. intros s. by apply (logged_cong t).
  - eapply triple_bind; [eapply (mute_triple _ _ (logged t)); [apply note_first_event_quiet|]|].
    + intros s. unfold note_first_event. by destruct (tickFirstEvent _).
    + intros u. apply (triple_foldM log_state). intros p t' _. apply process_part_log.
Qed.

(** During the flush: what is pending is still to come, or a flush failed. *)
Definition flushing (todo : list string) (st : Turn * option goerr) (s : RunState) : Prop :=
  log_state (fst st) s /\ (snd st = None -> forall id, is_Some (pendingCalls (fst st) !! id) -> id ∈ todo).

Lemma flush_call_log id todo st :
  triple (flushing (id :: todo) st) (flush_call threadID inserter st id) (flushing todo) anything.
Proof.
  unfold flush_call. destruct st as [t err]. cbn [fst snd].
  destruct (pendingCalls t !! id) as [call|] eqn:Hp.
  2: { apply triple_ret. intros s [Hl Ht]. split; [done|]. cbn [fst snd] in *. intros He j Hj.
       specialize (Ht He j Hj). apply elem_of_cons in Ht as [->|]; [destruct Hj; congruence|done]. }
  set (P := fun l => logged t l /\ (err = None -> forall j, is_Some (pendingCalls t !! j) -> j ∈ id :: todo)).
  change (flushing (id :: todo) (t, err)) with (fun s => P (rs_notices s)).
  eapply triple_bind; [eapply (mute_triple _ _ P); [apply new_message_quiet|apply mute_new_message]|]. intros msg.
  eapply triple_bind; [eapply (mute_triple _ _ P); [by apply indexPair_effect|apply mute_index_pair]|].
  intros [[c' r'] [e|]]; cbn [fst snd]; intros s [Hl Ht].
  - split; [|by destruct err]. apply logged_rebuffer; [by eexists|done].
  - split; [apply (logged_result t id); [by eexists|done]|]. cbn [fst snd drop_call pendingCalls]. intros He j [Hj Hd]%lookup_delete_is_Some.
    specialize (Ht He j Hd). apply elem_of_cons in Ht as [->|]; done.
Qed.

Lemma flush_log todo st :
  triple (flushing todo st) (foldM (flush_call threadID inserter) st todo) (flushing []) anything.
Proof.
  revert st. induction todo as [|id todo IH]; intros st; cbn [foldM]; [by apply triple_ret|].
  eapply triple_bind; [apply flush_call_log|]. apply IH.
Qed.

Lemma finish_turn_log t (P : list Notice -> Prop) :
  triple (fun s => P (rs_notices s)) (finish_turn threadID inserter t) (fun _ s => P (rs_notices s)) anything.
Proof.
  unfold finish_turn. destruct (final_content t) as [|b l].
  - eapply triple_bind; [eapply (mute_triple _ _ P); [apply quiet_cancelled|by intros s]|]. intros stop. by apply triple_err.
  - eapply triple_bind; [eapply (mute_triple _ _ P); [apply new_message_quiet|apply mute_new_message]|]. intros msg.
    eapply triple_bind; [eapply (mute_triple _ _ P); [by apply indexMessage_effect|apply mute_index]|].
    intros [m [e|]]; cbn [fst snd]; [by apply triple_err|by apply triple_ret].
Qed.

Lemma processEvents_log (events : list (Yield J)) :
  triple (log_state start_turn) (processEvents threadID inserter events)
    (fun _ s => exists t, log_state t s /\ pendingCalls t = ∅) anything.
Proof.
  unfold processEvents. eapply triple_bind.
  { apply (triple_foldM log_state). intros y t _. apply process_yield_log. }
  intros t. eapply triple_bind.
  { eapply triple_conseq; [apply (flush_log (pendingOrder t) (t, None))| |done|done].
    intros s Hl. split; [done|]. intros _ id Hid. destruct Hl as (ns & _ & Hi). by apply (li_pending _ _ Hi). }
  intros [t' [e|]]; cbn [fst snd]; [by apply triple_err|].
  intros s [Hl Ht]. cbn [fst snd] in *. assert (pendingCalls t' = ∅) as He.
  { apply map_empty. intros id. destruct (pendingCalls t' !! id) eqn:E; [|done].
    specialize (Ht eq_refl id ltac:(by eexists)). by apply elem_of_nil in Ht. }
  pose proof (finish_turn_log t' (logged t') s Hl) as Hf. destruct (finish_turn _ _ t' s) as [s' [m| |]]; [|done..].
  by exists t'.
Qed.

(** C26: Every tool call shown to the user is answered.  However the events are
    repeated, mixed up or cut short, when [processEvents] returns a message
    each announced call was announced once, exactly one result was announced
    for it (the tool's, or the error of the turn-end flush), and no result
    without its call. *)
Theorem announced_calls_answered (events : list (Yield J)) (s s' : RunState) (m : Message)
    (Hnotices : rs_notices s = ns0) (Hret : processEvents threadID inserter events s = (s', Ok m)) :
  exists ns, rs_notices s' = ns0 ++ ns /\ NoDup (call_ids ns) /\ NoDup (result_ids ns) /\
    forall id, id ∈ call_ids ns <-> id ∈ result_ids ns.
Proof.
  pose proof (processEvents_log events s) as Hl. rewrite Hret in Hl.
  destruct Hl as (t & (ns & -> & [H1 H2 H3 H4 H5]) & He).
  - exists []. split; [by rewrite app_nil_r|]. split; try (by constructor); intros id; cbn; rewrite lookup_empty;
      (split; [by intros ?%elem_of_nil || by intros [? ?]|by intros [? ?] || by intros [[? ?] _]]) || by intros [? ?].
  - exists ns. do 3 (split; [done|]). intros id. rewrite H3, H4, He, lookup_empty. naive_solver.
Qed.

End Notices.

(** ** A turn: one answered call, one repeated, one that never gets a result,
    with the write of the first pair failing. *)
#[local] Existing Instance SampleCodec.codec.

Module SampleTurn.

(** The insert of the result row in the first pair write fails. *)
Definition env : Env := {|
  e_fault := fun n => if bool_decide (n = 29%nat) then Some (ENew "disk I/O error") else None;
  e_now := fun n => Z.of_nat n;
  e_ctx := fun _ => None;
  e_constraint := ENew "constraint failed"
|}.
Definition tables : Tables :=
  set_threads (fun _ => [{| t_id := "t"; t_name := ""; t_sandboxed := true; t_created_at := (0, 0); t_parent := None;
                            t_branch := None; t_archived := None |}]) empty_tables.

Definition start : RunState :=
  {| rs_ins := {| in_world := {| w_tables := tables; w_tick := 0 |}; in_embeds := [] |}; rs_msgSeq := 0;
     rs_currentTurnID := ""; rs_tick := reset_tick {| tickAssemble := no_telemetry; tickAssembleSet := false;
       tickAssembleCount := 0; tickRunStart := None; tickFirstEvent := None; tickPersistMs := 0; tickCorpusSize := 0;
       tickUsagePredicted := 0; tickUsagePrompt := 0; tickUsageCompletion := 0; tickRound := 0 |};
     rs_notices := [] |}.

Definition part (call : option (@FunctionCall string)) (resp : option (@FunctionResponse string)) : @Part string :=
  {| pt_Text := ""; pt_Thought := false; pt_ThoughtSignature := ""; pt_FunctionCall := call; pt_FunctionResponse := resp |}.
Definition call (id : string) : @Part string := part (Some {| fc_ID := id; fc_Name := "ls"; fc_Args := None |}) None.
Definition answer (id : string) : @Part string :=
  part None (Some {| fr_ID := id; fr_Name := "ls"; fr_Response := Some (single "output" "ok") |}).

Definition run (prompt : option string) (s : RunState) : list (Yield string) :=
  [YEvent (Some {| ct_Role := "model"; ct_Parts := [thinking_part "hm" ""; call "c1"; call "c1"; call "c2"] |});
   YError (ENew "tool crashed");
   YEvent (Some {| ct_Role := "user"; ct_Parts := [answer "c1"] |});
   YEvent None;
   YEvent (Some {| ct_Role := "model"; ct_Parts := [text_part "done"] |})].

Definition ids (id : string) : Prop := id = "c1" \/ id = "c2".

Definition result : RunState * outcome Message := SendMessage (env := env) "t" "m" None run "go" [] start.
End SampleTurn.

#[local] Existing Instance SampleTurn.env.


Module SampleNotices.
Definition final : RunState * outcome Message := processEvents "t" None (SampleTurn.run None SampleTurn.start) SampleTurn.start.
Definition reply : Message :=
  match final.2 with Ok m => m | _ => {| m_Id := ""; m_Role := ROLE_USER; m_Content := []; m_Position := 0; m_ThreadId := "";
                                         m_CreatedAt := None; m_TurnId := "" |} end.

(** A signature that arrives after its thinking was flushed stays behind, and
    is attached to the thinking that follows. *)
Definition signed : list (Yield string) :=
  [YEvent (Some {| ct_Role := "model"; ct_Parts := [thinking_part "first" ""; SampleTurn.call "c1"] |});
   YEvent (Some {| ct_Role := "model"; ct_Parts := [thinking_part "" "sig-of-first"; thinking_part "second" ""] |})].
End SampleNotices.

Example stale_signature :
  last (m_Content <$> run_corpus (processEvents "t" None SampleNotices.signed SampleTurn.start).1) =
  Some [BThinking {| th_Text := "second"; th_Signature := "sig-of-first" |}].
Proof. vm_compute. reflexivity. Qed.

Lemma announced_calls_answered_witness :
  call_ids (rs_notices SampleNotices.final.1) = ["c1"; "c2"] /\
  exists ns, rs_notices SampleNotices.final.1 = [] ++ ns /\ NoDup (call_ids ns) /\ NoDup (result_ids ns) /\
    forall id, id ∈ call_ids ns <-> id ∈ result_ids ns.
Proof.
  split; [vm_compute; reflexivity|].
  apply (announced_calls_answered "t" None I [] (SampleTurn.run None SampleTurn.start) SampleTurn.start
           SampleNotices.final.1 SampleNotices.reply); [reflexivity|vm_compute; reflexivity].
Defined.
