(* ===== verification/Registry.v ===== *)
(** * The runner registry ([service/runtime/registry.go])

    A map from threads to live runners behind one lock, with a single-flight
    gate for construction.  Entries and build signals are shared objects and
    are modelled by addresses into a heap.  Each critical section is a
    function of the registry; [GetOrBuild] is the transition system of its
    callers, which interleave between critical sections.

    [single_flight] and [GetOrBuild_terminates] state what the gate promises. *)

From Stdlib Require Import ZArith Lia String.
From S2P Require Import Prelude GoSort Sql.

(** The runner and the cancel function are handles. *)
Record Entry := {
  en_Runner : option nat;
  en_Cancel : option nat;
  en_ParentThreadID : string
}.

Definition set_cancel (c : option nat) (e : Entry) : Entry :=
  {| en_Runner := en_Runner e; en_Cancel := c; en_ParentThreadID := en_ParentThreadID e |}.

(** [buildSignal]: open, or closed with the error it records. *)
Inductive buildSignal := Open | Closed (err : option goerr).

(** [rg_entries] and [rg_signals] are the heap cells the two maps point to. *)
Record Registry := {
  rg_m : gmap string nat;
  rg_building : gmap string nat;
  rg_entries : list Entry;
  rg_signals : list buildSignal
}.

Definition NewRegistry : Registry := {| rg_m := ∅; rg_building := ∅; rg_entries := []; rg_signals := [] |}.

Definition set_m (f : gmap string nat -> gmap string nat) (r : Registry) : Registry :=
  {| rg_m := f (rg_m r); rg_building := rg_building r; rg_entries := rg_entries r; rg_signals := rg_signals r |}.
Definition set_building (f : gmap string nat -> gmap string nat) (r : Registry) : Registry :=
  {| rg_m := rg_m r; rg_building := f (rg_building r); rg_entries := rg_entries r; rg_signals := rg_signals r |}.
Definition set_entries (f : list Entry -> list Entry) (r : Registry) : Registry :=
  {| rg_m := rg_m r; rg_building := rg_building r; rg_entries := f (rg_entries r); rg_signals := rg_signals r |}.
Definition set_signals (f : list buildSignal -> list buildSignal) (r : Registry) : Registry :=
  {| rg_m := rg_m r; rg_building := rg_building r; rg_entries := rg_entries r; rg_signals := f (rg_signals r) |}.

(** [&Entry{...}] *)
Definition new_entry (e : Entry) (r : Registry) : Registry * nat :=
  (set_entries (fun l => l ++ [e]) r, length (rg_entries r)).

(** ** Single critical sections *)

Definition Get (threadID : string) (r : Registry) : option nat := rg_m r !! threadID.

Definition Set_ (threadID : string) (e : nat) (r : Registry) : Registry := set_m <[threadID := e]> r.

Definition SetCancel (threadID : string) (cancel : nat) (r : Registry) : Registry :=
  match rg_m r !! threadID with
  | Some e => set_entries (alter (set_cancel (Some cancel)) e) r
  | None => r
  end.

Definition Delete (threadID : string) (r : Registry) : Registry := set_m (delete threadID) r.

(** The snapshot of [Range], in any order. *)
Definition Range `{SliceSort} (r : Registry) : list (string * nat) := any_order (map_to_list (rg_m r)).

(** What [Stop] and [StopAll] do outside the registry. *)
Inductive Action :=
  | MergeSubagent (parent fork : nat)
  | PublishSubagent (ThreadID ForkThreadID Status : string)
  | CancelTurn (runner : nat)
  | Cancel (cancel : nat).

Definition entry_at (r : Registry) (e : nat) : option Entry := rg_entries r !! e.

(** The merge happens only between two live runners, the notice always. *)
Definition merge_actions (threadID : string) (entry : Entry) (r : Registry) : list Action :=
  if String.eqb (en_ParentThreadID entry) "" then []
  else
    match Get (en_ParentThreadID entry) r ≫= entry_at r with
    | Some parentEntry =>
        match en_Runner parentEntry, en_Runner entry with
        | Some p, Some f => [MergeSubagent p f]
        | _, _ => []
        end
    | None => []
    end ++ [PublishSubagent (en_ParentThreadID entry) threadID "completed"].

(** [mid] and [late] are what other goroutines do between the lookups and
    before the delete; the cancel function is read last. *)
Definition Stop (threadID : string) (mid late : Registry -> Registry) (r : Registry) : Registry * list Action * bool :=
  match Get threadID r with
  | None => (r, [], false)
  | Some e =>
      match entry_at r e with
      | None => (r, [], false)
      | Some entry =>
          let r1 := mid r in
          let r2 := late r1 in
          (Delete threadID r2,
           merge_actions threadID entry r1
             ++ match en_Runner entry with Some x => [CancelTurn x] | None => [] end
             ++ match entry_at r2 e ≫= en_Cancel with Some c => [Cancel c] | None => [] end,
           true)
      end
  end.

Definition StopAll `{SliceSort} (r : Registry) : Registry * list Action :=
  (set_m (fun _ => ∅) r,
   Range r ≫= fun te => match entry_at r te.2 with
                        | Some e => match en_Cancel e with Some c => [Cancel c] | None => [] end
                        | None => []
                        end).

(** ** [GetOrBuild] *)

(** Where a caller stands: before the lock, blocked on a signal, inside its
    build closure, returned with an entry or an error; a closure that panics
    unwinds past the rest of the function. *)
Inductive Caller :=
  | Looping
  | Waiting (sig : nat)
  | Building (sig : nat)
  | Returned (res : nat + goerr)
  | Panicked.

(** From [r.mu.Lock()] to the branch taken. *)
Definition enter (threadID : string) (r : Registry) : Registry * Caller :=
  match rg_m r !! threadID with
  | Some e => (r, Returned (inl e))
  | None =>
      match rg_building r !! threadID with
      | Some sig => (r, Waiting sig)
      | None =>
          let sig := length (rg_signals r) in
          (set_building <[threadID := sig]> (set_signals (fun l => l ++ [Open]) r), Building sig)
      end
  end.

(** [<-sig.done]: blocked while the signal is open. *)
Definition await (sig : nat) (r : Registry) : option Caller :=
  match rg_signals r !! sig with
  | Some (Closed None) => Some Looping
  | Some (Closed (Some err)) => Some (Returned (inr err))
  | _ => None
  end.

(** The second critical section of the builder. *)
Definition resolve (threadID : string) (sig : nat) (res : Entry + goerr) (r : Registry) : Registry * Caller :=
  match res with
  | inl entry =>
      let re := new_entry entry r in
      (set_signals <[sig := Closed None]> (set_m <[threadID := re.2]> (set_building (delete threadID) re.1)),
       Returned (inl re.2))
  | inr err =>
      (set_signals <[sig := Closed (Some err)]> (set_building (delete threadID) r), Returned (inr err))
  end.

(** The registry and its callers, each with its thread. *)
Record State := { st_reg : Registry; st_callers : list (string * Caller) }.

Definition move (i : nat) (threadID : string) (rc : Registry * Caller) (st : State) : State :=
  {| st_reg := rc.1; st_callers := <[i := (threadID, rc.2)]> (st_callers st) |}.

(** One step of the [i]-th caller. *)
Inductive caller_step (i : nat) (st : State) : State -> Prop :=
| step_enter tid :
    st_callers st !! i = Some (tid, Looping) -> caller_step i st (move i tid (enter tid (st_reg st)) st)
| step_wake tid sig c :
    st_callers st !! i = Some (tid, Waiting sig) -> await sig (st_reg st) = Some c ->
    caller_step i st (move i tid (st_reg st, c) st)
| step_resolve tid sig res :
    st_callers st !! i = Some (tid, Building sig) -> caller_step i st (move i tid (resolve tid sig res (st_reg st)) st).

Definition some_step (st st' : State) : Prop := exists i, caller_step i st st'.

(** Anything that may happen: a caller's step, a panicking closure, a new
    caller, or another method of the registry; [Set] is called on the threads
    of [sets] only. *)
Inductive step `{SliceSort} (sets : string -> Prop) (st : State) : State -> Prop :=
| step_caller st' : some_step st st' -> step sets st st'
| step_panic i tid sig :
    st_callers st !! i = Some (tid, Building sig) -> step sets st (move i tid (st_reg st, Panicked) st)
| step_call tid : step sets st {| st_reg := st_reg st; st_callers := st_callers st ++ [(tid, Looping)] |}
| step_set tid e : sets tid ->
    step sets st {| st_reg := (let re := new_entry e (st_reg st) in Set_ tid re.2 re.1); st_callers := st_callers st |}
| step_set_cancel tid c : step sets st {| st_reg := SetCancel tid c (st_reg st); st_callers := st_callers st |}
| step_delete tid : step sets st {| st_reg := Delete tid (st_reg st); st_callers := st_callers st |}
| step_stop_all : step sets st {| st_reg := (StopAll (st_reg st)).1; st_callers := st_callers st |}.

(** ** The invariant of the gate *)

Record gate (st : State) : Prop := {
  g_open : forall tid sig, rg_building (st_reg st) !! tid = Some sig -> rg_signals (st_reg st) !! sig = Some Open;
  g_keys : forall t1 t2 sig, rg_building (st_reg st) !! t1 = Some sig -> rg_building (st_reg st) !! t2 = Some sig -> t1 = t2;
  g_builder : forall tid sig, rg_building (st_reg st) !! tid = Some sig ->
    exists j, st_callers st !! j = Some (tid, Building sig) \/ st_callers st !! j = Some (tid, Panicked);
  g_building : forall i tid sig, st_callers st !! i = Some (tid, Building sig) -> rg_building (st_reg st) !! tid = Some sig;
  g_one : forall i j tid s1 s2,
    st_callers st !! i = Some (tid, Building s1) -> st_callers st !! j = Some (tid, Building s2) -> i = j;
  g_waiting : forall i tid sig, st_callers st !! i = Some (tid, Waiting sig) ->
    exists s, rg_signals (st_reg st) !! sig = Some s /\ (s = Open -> rg_building (st_reg st) !! tid = Some sig)
}.

(** The callers after one of them moved. *)
Lemma moved i (x : string * Caller) (l : list (string * Caller)) j y :
  is_Some (l !! i) -> <[i := x]> l !! j = Some y <-> (j = i /\ y = x) \/ (j <> i /\ l !! j = Some y).
Proof.
  intros Hi%lookup_lt_is_Some. destruct (decide (j = i)) as [->|Hne].
  - rewrite list_lookup_insert_eq by done. naive_solver.
  - rewrite list_lookup_insert_ne by done. naive_solver.
Qed.

Ltac moved := repeat match goal with H : <[_ := _]> _ !! _ = Some _ |- _ => apply moved in H; [|done] end.

(** The builder of a thread is still there when somebody else moved. *)
Lemma builder_stays i x c (l : list (string * Caller)) tid sig :
  l !! i = Some (tid, c) -> c <> Building sig -> c <> Panicked ->
  (exists j, l !! j = Some (x, Building sig) \/ l !! j = Some (x, Panicked)) ->
  forall y, exists j, <[i := y]> l !! j = Some (x, Building sig) \/ <[i := y]> l !! j = Some (x, Panicked).
Proof.
  intros Hi Hb Hp (j & Hj) y. exists j. rewrite !list_lookup_insert_ne; [done|..]; intros ->; naive_solver.
Qed.

Lemma gate_idle i tid st c :
  gate st -> st_callers st !! i = Some (tid, c) -> (forall sig, c <> Building sig) -> c <> Panicked ->
  forall c', (forall sig, c' <> Building sig) ->
  (forall sig, c' = Waiting sig ->
    exists s, rg_signals (st_reg st) !! sig = Some s /\ (s = Open -> rg_building (st_reg st) !! tid = Some sig)) ->
  gate (move i tid (st_reg st, c') st).
Proof.
  intros [Ho Hk Hb Hg H1 Hw] Hi Hnb Hnp c' Hnb' Hw'. assert (is_Some (st_callers st !! i)) as Hs by eauto.
  split; cbn; try done.
  - intros t sig Et. eapply builder_stays; [done..|by apply Hb].
  - intros; moved; naive_solver.
  - intros; moved; naive_solver.
  - intros; moved; naive_solver.
Qed.

Lemma gate_enter i tid st :
  gate st -> st_callers st !! i = Some (tid, Looping) -> gate (move i tid (enter tid (st_reg st)) st).
Proof.
  intros Hgate Hi. unfold enter.
  destruct (rg_m (st_reg st) !! tid) as [e|]; [by eapply gate_idle|].
  destruct (rg_building (st_reg st) !! tid) as [sig|] eqn:Eb.
  { eapply gate_idle; [done..|]. intros s [= <-]. exists Open. split; [by apply (g_open _ Hgate tid)|done]. }
  destruct Hgate as [Ho Hk Hb Hg H1 Hw]. assert (is_Some (st_callers st !! i)) as Hs by eauto.
  set (new := length (rg_signals (st_reg st))).
  assert (forall t s, rg_building (st_reg st) !! t = Some s -> s <> new) as Hnew.
  { intros t s Et ->. apply Ho, lookup_lt_Some in Et. unfold new in Et. lia. }
  split; cbn; fold new.
  - intros t s [[-> <-]|[Hne Et]]%lookup_insert_Some.
    + unfold new. by rewrite lookup_app_r, Nat.sub_diag by lia.
    + apply lookup_app_l_Some. by apply (Ho t).
  - intros t1 t2 s [[-> <-]|[? E1]]%lookup_insert_Some [[-> E2]|[? E2]]%lookup_insert_Some; try done.
    + by apply Hnew in E2.
    + subst. by apply Hnew in E1.
    + by eapply Hk.
  - intros t s [[-> <-]|[Hne Et]]%lookup_insert_Some.
    + exists i. left. by rewrite list_lookup_insert_eq by (by apply lookup_lt_is_Some).
    + eapply builder_stays; [done..|by apply Hb].
  - intros j t s Hj; moved. destruct Hj as [[-> [= -> ->]]|[Hne Hj]]; [by rewrite lookup_insert_eq|].
    apply lookup_insert_Some. right. split; [|by apply (Hg j)]. intros ->. apply Hg in Hj. congruence.
  - intros j k t s1 s2 Ej Ek; moved. destruct Ej as [[-> [= -> ->]]|[Hj Ej]], Ek as [[-> [= E]]|[Hk' Ek]]; try done.
    + apply Hg in Ek. congruence.
    + subst. apply Hg in Ej. congruence.
    + by eapply H1.
  - intros j t s Hj; moved. destruct Hj as [[-> [= ]]|[Hne Hj]]. destruct (Hw j t s Hj) as (x & Ex & Hx).
    exists x. split; [by apply lookup_app_l_Some|]. intros Hop%Hx. apply lookup_insert_Some. right. split; [|done].
    intros ->. congruence.
Qed.

Lemma gate_wake i tid sig c st :
  gate st -> st_callers st !! i = Some (tid, Waiting sig) -> await sig (st_reg st) = Some c ->
  gate (move i tid (st_reg st, c) st).
Proof.
  intros Hg Hi E. unfold await in E. destruct (rg_signals (st_reg st) !! sig) as [[|[err|]]|]; simplify_eq;
    by eapply gate_idle.
Qed.

(** Closing a signal. *)
Lemma gate_close i tid sig out err (f : Registry -> Registry) st :
  gate st -> st_callers st !! i = Some (tid, Building sig) ->
  (forall r, rg_building (f r) = rg_building r /\ rg_signals (f r) = rg_signals r) ->
  gate (move i tid (set_signals <[sig := Closed err]> (f (set_building (delete tid) (st_reg st))), Returned out) st).
Proof.
  intros [Ho Hk Hb Hg H1 Hw] Hi Hf. assert (is_Some (st_callers st !! i)) as Hs by eauto.
  pose proof (Hg _ _ _ Hi) as Eb. destruct (Hf (set_building (delete tid) (st_reg st))) as [Ef1 Ef2].
  assert (sig < length (rg_signals (st_reg st)))%nat as Hlt by (apply Ho, lookup_lt_Some in Eb; done).
  split; cbn; rewrite ?Ef1, ?Ef2; cbn.
  - intros t s [Hne Et]%lookup_delete_Some. rewrite list_lookup_insert_ne; [by apply (Ho t)|].
    intros ->. by apply Hne, (Hk _ _ s).
  - intros t1 t2 s [_ E1]%lookup_delete_Some [_ E2]%lookup_delete_Some. by eapply Hk.
  - intros t s [Hne Et]%lookup_delete_Some. destruct (Hb t s Et) as (j & Hj). exists j.
    rewrite list_lookup_insert_ne; [done|]. intros ->. naive_solver.
  - intros j t s Hj; moved. destruct Hj as [[-> [=]]|[Hne Hj]]. apply lookup_delete_Some. split; [|by apply (Hg j)].
    intros ->. by apply Hne, (H1 _ _ t s sig).
  - intros j k t s1 s2 Ej Ek; moved. destruct Ej as [[-> [=]]|[Hj Ej]], Ek as [[-> [=]]|[Hk' Ek]]. by eapply H1.
  - intros j t s Hj; moved. destruct Hj as [[-> [=]]|[Hne Hj]]. destruct (Hw j t s Hj) as (x & Ex & Hx).
    destruct (decide (s = sig)) as [->|Hs'].
    + exists (Closed err). by rewrite list_lookup_insert_eq.
    + exists x. rewrite list_lookup_insert_ne by done. split; [done|]. intros Hop%Hx. apply lookup_delete_Some.
      split; [|done]. intros ->. congruence.
Qed.

Lemma gate_resolve i tid sig res st :
  gate st -> st_callers st !! i = Some (tid, Building sig) -> gate (move i tid (resolve tid sig res (st_reg st)) st).
Proof.
  intros Hg Hi. destruct res as [entry|err]; cbn.
  - by apply (gate_close _ _ _ _ _ (fun r => set_m <[tid := length (rg_entries r)]> (set_entries (fun l => l ++ [entry]) r))).
  - by apply (gate_close _ _ _ _ _ (fun r => r)).
Qed.

Lemma gate_caller i st st' : gate st -> caller_step i st st' -> gate st'.
Proof. intros Hg [tid Hi|tid sig c Hi E|tid sig res Hi]; [by apply gate_enter|by eapply gate_wake|by apply gate_resolve]. Qed.

Lemma gate_panic i tid sig st :
  gate st -> st_callers st !! i = Some (tid, Building sig) -> gate (move i tid (st_reg st, Panicked) st).
Proof.
  intros [Ho Hk Hb Hg H1 Hw] Hi. assert (is_Some (st_callers st !! i)) as Hs by eauto. split; cbn; try done.
  - intros t s Et. destruct (decide (t = tid)) as [->|Hne].
    + exists i. right. by rewrite list_lookup_insert_eq by (by apply lookup_lt_is_Some).
    + destruct (Hb t s Et) as (j & Hj). exists j. rewrite list_lookup_insert_ne; [done|]. intros ->. naive_solver.
  - intros; moved; naive_solver.
  - intros; moved; naive_solver.
  - intros; moved; naive_solver.
Qed.

Lemma gate_call tid st : gate st -> gate {| st_reg := st_reg st; st_callers := st_callers st ++ [(tid, Looping)] |}.
Proof.
  intros [Ho Hk Hb Hg H1 Hw].
  assert (forall j t c, (st_callers st ++ [(tid, Looping)]) !! j = Some (t, c) -> c <> Looping -> st_callers st !! j = Some (t, c)) as Hold.
  { intros j t c [Hj|[_ [_ [= -> ->]]%list_lookup_singleton_Some]]%lookup_app_Some; [done|]. done. }
  split; cbn; try done.
  - intros t s Et. destruct (Hb t s Et) as (j & [Hj|Hj]); exists j; [left|right]; by apply lookup_app_l_Some.
  - intros j t s Hj%Hold; [|done]. by apply (Hg j).
  - intros j k t s1 s2 Hj%Hold Hk'%Hold; [|done..]. by eapply H1.
  - intros j t s Hj%Hold; [|done]. by apply (Hw j).
Qed.

(** The other methods leave the gate alone. *)
Lemma gate_other r st :
  rg_building r = rg_building (st_reg st) -> rg_signals r = rg_signals (st_reg st) ->
  gate st -> gate {| st_reg := r; st_callers := st_callers st |}.
Proof. intros E1 E2 []. split; cbn; rewrite ?E1, ?E2; done. Qed.

Lemma gate_step `{SliceSort} sets st st' : gate st -> step sets st st' -> gate st'.
Proof.
  intros Hg [st'' (i & Hi)|i tid sig Hi|tid|tid e Hs|tid c|tid|].
  - by eapply gate_caller.
  - by eapply gate_panic.
  - by apply gate_call.
  - by apply gate_other.
  - apply gate_other; [..|done]; unfold SetCancel; by destruct (rg_m _ !! _).
  - by apply gate_other.
  - by apply gate_other.
Qed.

(** ** Single flight *)

(** A build in flight has no entry, unless somebody may [Set] one. *)
Definition unset (sets : string -> Prop) (st : State) : Prop :=
  forall i tid sig, st_callers st !! i = Some (tid, Building sig) -> ~ sets tid -> rg_m (st_reg st) !! tid = None.

Lemma unset_caller sets i st st' : gate st -> unset sets st -> caller_step i st st' -> unset sets st'.
Proof.
  intros Hg Hu [tid Hi|tid sig c Hi E|tid sig res Hi]; assert (is_Some (st_callers st !! i)) as Hs by eauto; unfold unset, enter; cbn.
  - destruct (rg_m (st_reg st) !! tid) as [e|] eqn:Em; [|destruct (rg_building _ !! tid)]; cbn; intros; moved; naive_solver.
  - unfold await in E. destruct (rg_signals _ !! sig) as [[|[err|]]|]; simplify_eq; intros; moved; naive_solver.
  - intros j t s Hj Ht. moved. destruct Hj as [[-> E]|[Hne Hj]]; [by destruct res; simplify_eq|].
    assert (t <> tid) as Hd by (intros ->; by apply Hne, (g_one _ Hg j i tid s sig)).
    destruct res; cbn; [rewrite lookup_insert_ne by done|]; by apply (Hu j t s).
Qed.

Lemma unset_step `{SliceSort} sets st st' : gate st -> unset sets st -> step sets st st' -> unset sets st'.
Proof.
  intros Hg Hu [st'' (i & Hi)|i tid sig Hi|tid|tid e Hs|tid c|tid|].
  - by eapply unset_caller.
  - assert (is_Some (st_callers st !! i)) as Hs by eauto. intros j t s Hj. cbn in *. moved. naive_solver.
  - intros j t s [Hj|[_ [_ [=]]%list_lookup_singleton_Some]]%lookup_app_Some. by apply (Hu j t s).
  - intros j t s Hj Ht. cbn. rewrite lookup_insert_ne by (intros ->; done). by apply (Hu j t s).
  - intros j t s Hj Ht. specialize (Hu j t s Hj Ht). cbn. unfold SetCancel. by destruct (rg_m _ !! tid).
  - intros j t s Hj Ht. cbn. apply lookup_delete_None. right. by apply (Hu j t s).
  - intros j t s Hj Ht. cbn. apply lookup_empty.
Qed.

(** A caller that can take its next step. *)
Definition can_step (i : nat) (st : State) : Prop := exists st', caller_step i st st'.

Lemma unreturned_steps i tid c st :
  gate st -> st_callers st !! i = Some (tid, c) -> (forall res, c <> Returned res) -> c <> Panicked ->
  can_step i st \/ exists sig j, c = Waiting sig /\
    (st_callers st !! j = Some (tid, Building sig) /\ can_step j st \/ st_callers st !! j = Some (tid, Panicked)).
Proof.
  intros Hg Hi Hr Hp. destruct c as [|sig|sig|res|]; [|..|by destruct (Hr res)|done].
  - left. eexists. by apply step_enter.
  - destruct (g_waiting _ Hg i tid sig Hi) as ([|err] & Es & Ho).
    + right. destruct (g_builder _ Hg tid sig (Ho eq_refl)) as (j & [Hj|Hj]); exists sig, j; (split; [done|]); [left|by right].
      split; [done|]. eexists. by apply (step_resolve j st tid sig (inr (ENew ""))).
    + left. destruct err as [err|]; eexists; (eapply step_wake; [done|unfold await; by rewrite Es]).
  - left. eexists. by apply (step_resolve i st tid sig (inr (ENew ""))).
Qed.


(** ** Every caller returns *)

(** Steps a caller may still take, given what it will find. *)
Definition weight (r : Registry) (tc : string * Caller) : nat :=
  match tc.2 with
  | Looping => match rg_m r !! tc.1 with Some _ => 1 | None => 4 end
  | Building _ => 1
  | Waiting sig => match rg_signals r !! sig with Some (Closed None) => 2 | Some (Closed (Some _)) => 1 | _ => 3 end
  | Returned _ | Panicked => 0
  end.

Definition total (st : State) : nat := sum_list (weight (st_reg st) <$> st_callers st).

(** What holds while nothing but [GetOrBuild] runs. *)
Record settling (st : State) : Prop := {
  s_gate : gate st;
  s_unset : unset (fun _ => False) st;
  s_panic : forall i tid, st_callers st !! i <> Some (tid, Panicked);
  s_done : forall i tid sig, st_callers st !! i = Some (tid, Waiting sig) ->
    rg_signals (st_reg st) !! sig = Some (Closed None) -> is_Some (rg_m (st_reg st) !! tid);
  s_same : forall i tid e, st_callers st !! i = Some (tid, Returned (inl e)) -> rg_m (st_reg st) !! tid = Some e
}.

Lemma sum_le {A} (f g : A -> nat) (l : list A) :
  (forall z, z ∈ l -> g z <= f z)%nat -> (sum_list (g <$> l) <= sum_list (f <$> l))%nat.
Proof.
  induction l as [|z l IH]; intros Hle; [done|]. rewrite !fmap_cons. cbn [sum_list sum_list_with].
  apply Nat.add_le_mono; [apply Hle; by left|]. apply IH. intros w Hw. apply Hle. by right.
Qed.

Lemma sum_insert {A} (f g : A -> nat) (l : list A) i x y :
  l !! i = Some x -> (forall z, z ∈ l -> g z <= f z)%nat -> (g y < f x)%nat ->
  (sum_list (g <$> <[i := y]> l) < sum_list (f <$> l))%nat.
Proof.
  revert i. induction l as [|z l IH]; intros i Hi Hle Hlt; [done|]. destruct i as [|i].
  - injection Hi as ->. change (<[0%nat := y]> (x :: l)) with (y :: l). rewrite !fmap_cons. cbn [sum_list sum_list_with].
    apply Nat.add_lt_le_mono; [done|]. apply sum_le. intros w Hw. apply Hle. by right.
  - change (<[S i := y]> (z :: l)) with (z :: <[i := y]> l). rewrite !fmap_cons. cbn [sum_list sum_list_with].
    apply Nat.add_le_lt_mono; [apply Hle; by left|]. apply (IH i Hi); [|done]. intros w Hw. apply Hle. by right.
Qed.

(** What a settling step does: the mover loses weight and nobody gains any. *)
Lemma settling_weight i st st' :
  settling st -> caller_step i st st' -> (total st' < total st)%nat.
Proof.
  intros [Hg Hu Hp Hd Hs] [tid Hi|tid sig c Hi E|tid sig res Hi]; unfold total, move; cbn [st_callers st_reg].
  - unfold enter. destruct (rg_m (st_reg st) !! tid) as [e|] eqn:Em; [|destruct (rg_building (st_reg st) !! tid) as [sig|] eqn:Eb];
      cbn [fst snd]; (eapply sum_insert; [exact Hi|intros [t c] Hc; try done|]); unfold weight; cbn; rewrite ?Em; try lia.
    + by rewrite (g_open _ Hg _ _ Eb); lia.
    + destruct c as [|s| | |]; try done. destruct (decide (s < length (rg_signals (st_reg st)))%nat) as [Hlt|Hge].
      * by rewrite lookup_app_l.
      * rewrite (lookup_ge_None_2 (rg_signals (st_reg st))) by lia. destruct (_ !! s) as [[|[]]|]; lia.
  - eapply sum_insert; [exact Hi|done|]. unfold weight, await in *. cbn [fst snd].
    destruct (rg_signals (st_reg st) !! sig) as [[|[err|]]|] eqn:Es; simplify_eq; [lia|].
    destruct (Hd i tid sig Hi Es) as [e ->]. lia.
  - assert (rg_building (st_reg st) !! tid = Some sig) as Eb by by apply (g_building _ Hg i).
    pose proof (g_open _ Hg _ _ Eb) as Eo. assert (sig < length (rg_signals (st_reg st)))%nat as Hlt by by eapply lookup_lt_Some.
    eapply sum_insert; [exact Hi| |destruct res; cbn; lia]. intros [t c] Hc. unfold weight. cbn [fst snd].
    destruct c as [|s| | |]; try done.
    + destruct res; cbn; [|done]. destruct (decide (t = tid)) as [->|Hne]; [|by rewrite lookup_insert_ne].
      rewrite lookup_insert_eq. destruct (rg_m (st_reg st) !! tid); lia.
    + destruct (decide (s = sig)) as [->|Hne].
      * rewrite Eo. destruct res; cbn; rewrite list_lookup_insert_eq by done; lia.
      * destruct res; cbn; by rewrite list_lookup_insert_ne.
Qed.

Lemma settling_step i st st' : settling st -> caller_step i st st' -> settling st'.
Proof.
  intros [Hg Hu Hp Hd Hs] Hst. split; [by eapply gate_caller|by eapply unset_caller|..];
    destruct Hst as [tid Hi|tid sig c Hi E|tid sig res Hi]; assert (is_Some (st_callers st !! i)) as Hsome by eauto;
    unfold enter, move; cbn [st_callers st_reg].
  - intros j t Hj. moved. destruct Hj as [[-> E]|[_ Hj]]; [|by apply (Hp j t)].
    destruct (rg_m (st_reg st) !! tid); [done|]. by destruct (rg_building (st_reg st) !! tid).
  - intros j t Hj. moved. destruct Hj as [[-> [= -> <-]]|[_ Hj]]; [|by apply (Hp j t)].
    unfold await in E. by destruct (rg_signals _ !! sig) as [[|[]]|].
  - intros j t Hj. moved. destruct Hj as [[-> E]|[_ Hj]]; [|by apply (Hp j t)]. by destruct res.
  - intros j t s Hj. destruct (rg_m (st_reg st) !! tid) as [e|] eqn:Em; [|destruct (rg_building (st_reg st) !! tid) as [b|] eqn:Eb];
      cbn; moved; (destruct Hj as [[-> E]|[_ Hj]]; simplify_eq/=); [by apply (Hd j t s)| |by apply (Hd j t s)|].
    + by rewrite (g_open _ Hg _ _ Eb).
    + intros Es. apply (Hd j t s Hj). destruct (g_waiting _ Hg j t s Hj) as (x & Ex & _).
      by rewrite lookup_app_l in Es by by eapply lookup_lt_Some.
  - intros j t s Hj. moved. destruct Hj as [[-> [= -> <-]]|[_ Hj]]; [|by apply (Hd j t s)].
    unfold await in E. by destruct (rg_signals _ !! sig) as [[|[]]|].
  - intros j t s Hj. moved. destruct Hj as [[-> E]|[_ Hj]]; [by destruct res|].
    destruct (g_waiting _ Hg j t s Hj) as (x & Ex & Hx). destruct res; cbn.
    + intros Es. destruct (decide (t = tid)) as [->|Hne]; [by rewrite lookup_insert_eq|]. rewrite lookup_insert_ne by done.
      apply (Hd j t s Hj). destruct (decide (s = sig)) as [->|Hss]; [|by rewrite list_lookup_insert_ne in Es].
      pose proof (g_building _ Hg _ _ _ Hi) as Eb. rewrite (g_open _ Hg _ _ Eb) in Ex. simplify_eq.
      destruct Hne. symmetry. by apply (g_keys _ Hg _ _ sig Eb), Hx.
    + intros Es. apply (Hd j t s Hj). destruct (decide (s = sig)) as [->|Hss]; [|by rewrite list_lookup_insert_ne in Es].
      rewrite list_lookup_insert_eq in Es; [done|]. by eapply lookup_lt_Some.
  - intros j t e Hj. destruct (rg_m (st_reg st) !! tid) as [e'|] eqn:Em; [|destruct (rg_building (st_reg st) !! tid) as [b|] eqn:Eb];
      cbn; moved; (destruct Hj as [[-> E]|[_ Hj]]; simplify_eq/=); try done; by apply (Hs j).
  - intros j t e Hj. moved. destruct Hj as [[-> [= -> <-]]|[_ Hj]]; [|by apply (Hs j)].
    unfold await in E. by destruct (rg_signals _ !! sig) as [[|[]]|].
  - intros j t e Hj. moved. destruct Hj as [[-> E]|[_ Hj]].
    + destruct res; simplify_eq/=; by rewrite lookup_insert_eq.
    + destruct res; cbn; [|by apply (Hs j)]. rewrite lookup_insert_ne; [by apply (Hs j)|]. intros ->.
      apply Hs in Hj. by rewrite (Hu i t sig Hi id) in Hj.
Qed.

(** C27: Every caller returns.  Start any number of callers of [GetOrBuild],
    for any threads, on a registry in which nothing is being built, and let
    build closures succeed or fail as they like.  Then every interleaving
    ends after at most four steps per caller, and when it has ended each
    caller has returned the error of a build or the very entry that is
    registered for its thread: callers of one thread that succeed share one
    runner. *)
Theorem GetOrBuild_terminates (reg : Registry) (threads : list string) (n : nat) (st : State)
    (Hreg : rg_building reg = ∅)
    (Hst : nsteps some_step n {| st_reg := reg; st_callers := (fun tid => (tid, Looping)) <$> threads |} st) :
  (n <= 4 * length threads)%nat /\
  ((forall st', ~ some_step st st') ->
   forall i tid c, st_callers st !! i = Some (tid, c) ->
     (exists err, c = Returned (inr err)) \/ (exists e, c = Returned (inl e) /\ rg_m (st_reg st) !! tid = Some e)).
Proof.
  set (st0 := {| st_reg := reg; st_callers := (fun tid => (tid, Looping)) <$> threads |}) in *.
  assert (settling st0) as H0.
  { assert (forall i tid c, st_callers st0 !! i = Some (tid, c) -> c = Looping) as Hl.
    { intros i tid c Hi. cbn in Hi. rewrite list_lookup_fmap in Hi. destruct (threads !! i); simplify_eq/=. done. }
    assert (forall tid, rg_building (st_reg st0) !! tid = None) as Hb by (intros tid; cbn; by rewrite Hreg, lookup_empty).
    split; [split| | | |].
    - intros tid sig. by rewrite Hb.
    - intros t1 t2 sig. by rewrite Hb.
    - intros tid sig. by rewrite Hb.
    - intros i tid sig Hi. by apply Hl in Hi.
    - intros i j tid s1 s2 Hi. by apply Hl in Hi.
    - intros i tid sig Hi. by apply Hl in Hi.
    - intros i tid sig Hi. by apply Hl in Hi.
    - intros i tid Hi. by apply Hl in Hi.
    - intros i tid sig Hi. by apply Hl in Hi.
    - intros i tid e Hi. by apply Hl in Hi. }
  assert (total st0 <= 4 * length threads)%nat as Ht.
  { clear - reg. unfold total, st0. cbn. induction threads as [|t l IH]; [done|]. rewrite !fmap_cons.
    cbn [sum_list sum_list_with length]. assert (weight reg (t, Looping) <= 4)%nat by (unfold weight; cbn; destruct (rg_m reg !! t); lia).
    unfold id in *. lia. }
  clearbody st0. assert (settling st /\ n + total st <= total st0)%nat as [Hs Hn].
  { clear Ht. induction Hst as [x|n x y z (i & Hi) _ IH]; [split; [done|lia]|].
    destruct IH as [Hz Hle]; [by eapply settling_step|]. split; [done|]. pose proof (settling_weight i x y H0 Hi). lia. }
  split; [lia|]. intros Hend i tid c Hi. destruct c as [|sig|sig|[e|err]|].
  1-3: exfalso; destruct (unreturned_steps i tid _ st (s_gate _ Hs) Hi) as [(st' & Hst')|(s & j & _ & [[_ (st' & Hst')]|Hj])];
    [done..|by apply (Hend st'); exists i|by apply (Hend st'); exists j|by apply (s_panic _ Hs j tid)].
  - right. exists e. split; [done|]. by apply (s_same _ Hs i).
  - left. by exists err.
  - by destruct (s_panic _ Hs i tid).
Qed.

(** ** Two callers of one thread *)
Module SampleFlight.
Definition entry : Entry := {| en_Runner := Some 7; en_Cancel := None; en_ParentThreadID := "" |}.
Definition s0 : State := {| st_reg := NewRegistry; st_callers := [("a", Looping); ("a", Looping)] |}.
Definition s1 : State := move 0 "a" (enter "a" (st_reg s0)) s0.
Definition s2 : State := move 1 "a" (enter "a" (st_reg s1)) s1.
Definition s3 : State := move 0 "a" (resolve "a" 0 (inl entry) (st_reg s2)) s2.
Definition s4 : State := move 1 "a" (st_reg s3, Looping) s3.
Definition s5 : State := move 1 "a" (enter "a" (st_reg s4)) s4.

Lemma enter1 : some_step s0 s1.
Proof. exists 0%nat. by apply step_enter. Qed.
Lemma enter2 : some_step s1 s2.
Proof. exists 1%nat. by apply step_enter. Qed.
Lemma resolve1 : some_step s2 s3.
Proof. exists 0%nat. by apply step_resolve. Qed.
Lemma wake2 : some_step s3 s4.
Proof. exists 1%nat. by eapply step_wake. Qed.
Lemma enter3 : some_step s4 s5.
Proof. exists 1%nat. by apply step_enter. Qed.

Lemma flight : nsteps some_step 5 s0 s5.
Proof.
  eapply nsteps_l; [exact enter1|]. eapply nsteps_l; [exact enter2|]. eapply nsteps_l; [exact resolve1|].
  eapply nsteps_l; [exact wake2|]. apply nsteps_once, enter3.
Qed.

(** [StopAll] does not see a build in flight: the runner it would have torn
    down is registered afterwards. *)
Example stale_after_StopAll :
  let stopped := {| st_reg := (StopAll (st_reg s2)).1; st_callers := st_callers s2 |} in
  Get "a" (resolve "a" 0 (inl entry) (st_reg stopped)).1 = Some 0%nat /\ (StopAll (st_reg s2)).2 = [].
Proof. vm_compute. by split. Qed.

(** A closure that panics leaves its signal open: the thread's next callers
    wait for good. *)
Example wedged_by_panic :
  let st := move 0 "a" (st_reg s2, Panicked) s2 in
  (enter "a" (st_reg st)).2 = Waiting 0 /\ await 0 (st_reg st) = None.
Proof. vm_compute. by split. Qed.

Lemma called : rtc (step (fun _ => False)) {| st_reg := NewRegistry; st_callers := [] |} s2.
Proof.
  eapply rtc_l; [apply (step_call _ _ "a")|]. eapply rtc_l; [apply (step_call _ _ "a")|].
  eapply rtc_l; [apply step_caller, enter1|]. apply rtc_once, step_caller, enter2.
Qed.
End SampleFlight.


Lemma GetOrBuild_terminates_witness :
  st_callers SampleFlight.s5 = [("a", Returned (inl 0%nat)); ("a", Returned (inl 0%nat))] /\ (5 <= 4 * 2)%nat.
Proof.
  split; [reflexivity|].
  exact (proj1 (GetOrBuild_terminates NewRegistry ["a"; "a"] 5 SampleFlight.s5 eq_refl SampleFlight.flight)).
Defined.
