(* ===== verification/Autonomous.v ===== *)
(** * Autonomous runs ([service/agent/autonomous.go], [service/runtime])

    The pause gate of a run, the loop [RunAutonomous] over the turns of
    [Runner] and the callbacks the factory wires to it.  The budget of a resumed
    run and the reconciliation of agent states at boot are in [Control]. *)

From Stdlib Require Import ZArith Lia String.
From S2P Require Import Prelude GoFloat GoSort GoStrings GoTime Errors Types Genai Sql Storage Threads LocalContext Protocol Pairing Inserter Runner.
#[local] Open Scope Z_scope.

(** ** The pause gate

    A channel is an address in the list of channels, which tells whether it
    is closed. *)

Record AutonomousState := { paused : bool; pauseCh : nat; resumeCh : nat }.

Definition make_chan (h : list bool) : list bool * nat := (h ++ [false], length h).

(** [close(ch)] *)
Definition close_chan (ch : nat) (h : list bool) : outcome (list bool) :=
  match h !! ch with
  | Some false => Ok (<[ch := true]> h)
  | Some true => Panic "close of closed channel"
  | None => Panic "close of nil channel"
  end.

Definition newAutonomousState (h : list bool) : AutonomousState * list bool :=
  let '(h, p) := make_chan h in
  let '(h, r) := make_chan h in
  ({| paused := false; pauseCh := p; resumeCh := r |}, h).

Definition Pause (a : AutonomousState) (h : list bool) : outcome (AutonomousState * list bool) :=
  if negb (paused a)
  then h ← close_chan (pauseCh a) h; mret ({| paused := true; pauseCh := pauseCh a; resumeCh := resumeCh a |}, h)
  else mret (a, h).

Definition Resume (a : AutonomousState) (h : list bool) : outcome (AutonomousState * list bool) :=
  if paused a
  then
    h ← close_chan (resumeCh a) h;
    let '(h, p) := make_chan h in
    let '(h, r) := make_chan h in
    mret ({| paused := false; pauseCh := p; resumeCh := r |}, h)
  else mret (a, h).

Definition IsPaused (a : AutonomousState) : bool := paused a.

(** The locked part of [waitIfPaused]: the channel to wait on, if any. *)
Definition wait_on (a : AutonomousState) : option nat := if paused a then Some (resumeCh a) else None.

(** The [select]: ready when the channel is closed or the context is done; the
    context's error is what the call returns. *)
Definition released (ch : nat) (h : list bool) : bool := bool_decide (h !! ch = Some true).

(** The gate with the channels its blocked callers wait on. *)
Record GateState := { gs_auto : AutonomousState; gs_chans : list bool; gs_waiting : list nat }.

Inductive gate_step (g : GateState) : GateState -> Prop :=
| gate_pause a h : Pause (gs_auto g) (gs_chans g) = Ok (a, h) ->
    gate_step g {| gs_auto := a; gs_chans := h; gs_waiting := gs_waiting g |}
| gate_resume a h : Resume (gs_auto g) (gs_chans g) = Ok (a, h) ->
    gate_step g {| gs_auto := a; gs_chans := h; gs_waiting := gs_waiting g |}
| gate_wait ch : wait_on (gs_auto g) = Some ch ->
    gate_step g {| gs_auto := gs_auto g; gs_chans := gs_chans g; gs_waiting := gs_waiting g ++ [ch] |}
| gate_leave i : gate_step g {| gs_auto := gs_auto g; gs_chans := gs_chans g; gs_waiting := delete i (gs_waiting g) |}.

Record gate_ok (g : GateState) : Prop := {
  go_pause : gs_chans g !! pauseCh (gs_auto g) = Some (paused (gs_auto g));
  go_resume : gs_chans g !! resumeCh (gs_auto g) = Some false;
  go_distinct : pauseCh (gs_auto g) <> resumeCh (gs_auto g);
  go_waiting : forall ch, ch ∈ gs_waiting g ->
    gs_chans g !! ch = Some true \/ (ch = resumeCh (gs_auto g) /\ paused (gs_auto g) = true)
}.

(** Two fresh channels after [h]. *)
Lemma fresh_chans (h : list bool) :
  ((h ++ [false]) ++ [false]) !! length h = Some false /\
  ((h ++ [false]) ++ [false]) !! length (h ++ [false]) = Some false.
Proof.
  split.
  - apply lookup_app_l_Some. by rewrite lookup_app_r, Nat.sub_diag by lia.
  - by rewrite lookup_app_r, Nat.sub_diag by lia.
Qed.

Lemma Pause_ok g : gate_ok g -> exists a h, Pause (gs_auto g) (gs_chans g) = Ok (a, h) /\
  gate_ok {| gs_auto := a; gs_chans := h; gs_waiting := gs_waiting g |} /\ paused a = true.
Proof.
  intros [Hp Hr Hd Hw]. unfold Pause. destruct (paused (gs_auto g)) eqn:E; cbn [negb].
  - eexists _, _. split; [reflexivity|]. split; [|done]. split; cbn; rewrite ?E; done.
  - unfold close_chan. rewrite Hp. eexists _, _. split; [reflexivity|]. split; [|done].
    assert (pauseCh (gs_auto g) < length (gs_chans g))%nat as Hlt by by eapply lookup_lt_Some.
    split; cbn; [by rewrite list_lookup_insert_eq|by rewrite list_lookup_insert_ne|done|].
    intros ch [Hch|[-> ?]]%Hw; [|done]. left. rewrite list_lookup_insert_ne; [done|]. congruence.
Qed.

(** After [Resume] every channel somebody waits on is closed. *)
Lemma Resume_ok g : gate_ok g -> exists a h, Resume (gs_auto g) (gs_chans g) = Ok (a, h) /\
  gate_ok {| gs_auto := a; gs_chans := h; gs_waiting := gs_waiting g |} /\ paused a = false /\
  forall ch, ch ∈ gs_waiting g -> h !! ch = Some true.
Proof.
  intros [Hp Hr Hd Hw]. unfold Resume. destruct (paused (gs_auto g)) eqn:E.
  - unfold close_chan. rewrite Hr. cbn. eexists _, _. split; [reflexivity|].
    set (h := <[resumeCh (gs_auto g) := true]> (gs_chans g)). destruct (fresh_chans h) as [F1 F2].
    assert (forall ch, ch ∈ gs_waiting g -> ((h ++ [false]) ++ [false]) !! ch = Some true) as Hall.
    { intros ch Hch%Hw. do 2 apply lookup_app_l_Some. unfold h.
      assert (resumeCh (gs_auto g) < length (gs_chans g))%nat as Hlt by by eapply lookup_lt_Some.
      destruct (decide (ch = resumeCh (gs_auto g))) as [->|Hne]; [by rewrite list_lookup_insert_eq|].
      rewrite list_lookup_insert_ne by done. by destruct Hch as [|[? _]]. }
    split; [|by split]. split; cbn; [done|done| |].
    + rewrite length_app. cbn. lia.
    + intros ch Hch. left. by apply Hall.
  - eexists _, _. split; [reflexivity|]. split; [by split; cbn; rewrite ?E|]. split; [done|].
    intros ch [Hch|[_ ?]]%Hw; done.
Qed.

Lemma gate_step_ok g g' : gate_ok g -> gate_step g g' -> gate_ok g'.
Proof.
  intros Hg [a h E|a h E|ch E|i].
  - destruct (Pause_ok g Hg) as (a' & h' & E' & Hg' & _). rewrite E in E'. by simplify_eq.
  - destruct (Resume_ok g Hg) as (a' & h' & E' & Hg' & _). rewrite E in E'. by simplify_eq.
  - destruct Hg as [Hp Hr Hd Hw]. unfold wait_on in E. destruct (paused (gs_auto g)) eqn:Ep; [|done]. injection E as <-.
    split; cbn; rewrite ?Ep; try done. intros ch [Hch| ->%list_elem_of_singleton]%elem_of_app; [|by right].
    destruct (Hw ch Hch) as [|[-> _]]; [by left|by right].
  - destruct Hg as [Hp Hr Hd Hw]. split; cbn; try done. intros ch Hch%list_elem_of_delete_inv. by apply Hw.
Qed.

Lemma gate_reach g0 g : rtc gate_step g0 g -> gate_ok g0 -> gate_ok g.
Proof. induction 1 as [|x y z Hs _ IH]; [done|]. intros Hx. by apply IH, (gate_step_ok x). Qed.

(** The pause gate works.  Whatever the order of pauses, resumes, arriving
    and leaving waiters, [Pause] and [Resume] never close a channel twice, a
    caller of [waitIfPaused] that stays blocked does so only while the gate is
    paused, and the next [Resume] releases every blocked caller: no wake-up
    is lost. *)
Theorem pause_gate (h : list bool) (g : GateState)
    (Hg : rtc gate_step (let ah := newAutonomousState h in {| gs_auto := ah.1; gs_chans := ah.2; gs_waiting := [] |}) g) :
  (exists a h, Pause (gs_auto g) (gs_chans g) = Ok (a, h) /\ IsPaused a = true) /\
  (exists a h, Resume (gs_auto g) (gs_chans g) = Ok (a, h) /\ IsPaused a = false /\
     forall ch, ch ∈ gs_waiting g -> released ch h = true) /\
  (forall ch, ch ∈ gs_waiting g -> released ch (gs_chans g) = false -> IsPaused (gs_auto g) = true).
Proof.
  assert (gate_ok g) as Hok.
  { eapply gate_reach; [exact Hg|]. destruct (fresh_chans h) as [F1 F2]. split; cbn; [done|done| |by intros ch ?%elem_of_nil].
    rewrite length_app. cbn. lia. }
  split; [|split].
  - destruct (Pause_ok g Hok) as (a & h' & E & _ & Hp). by exists a, h'.
  - destruct (Resume_ok g Hok) as (a & h' & E & _ & Hp & Hr). exists a, h'. split; [done|]. split; [done|].
    intros ch Hch. by apply bool_decide_eq_true, Hr.
  - intros ch Hch Hrel. destruct (go_waiting _ Hok ch Hch) as [Ht|[_ Hp]]; [|done].
    apply bool_decide_eq_false in Hrel. done.
Qed.

(** ** The loop *)

(** What the [select] at the head of a round finds. *)
Inductive Choice := CtxDone (err : goerr) | Deadline | Continue.

(** One pass of the loop: the error of [waitIfPaused], the choice, and what the
    framework yields if the tick is sent. *)
Record Round {J : Type} := {
  rd_wait : option goerr;
  rd_choice : Choice;
  rd_run : option string -> RunState -> list (Yield J)
}.
Arguments Round : clear implicits.

(** What ended a run: its error, or nothing at the deadline. *)
Definition Ended : Type := option goerr.

Section Autonomous.
Context {env : Env} {srt : SliceSort} {codec : ProtoCodec} {J : Type} {json : Json J}.
Context (threadID modelName : string) (inserter : option Inserter).
#[local] Abbreviation M := (GoM RunState).

(** A call with its error as a value. *)
Definition catch {A} (m : M A) : M (option goerr) := fun s =>
  match m s with
  | (s', Ok _) => (s', Ok None)
  | (s', Err e) => (s', Ok (Some e))
  | (s', Panic p) => (s', Panic p)
  end.

(** The callbacks [OnAutonomousError] and [onRound], nil or not. *)
Context (OnAutonomousError : option (goerr -> M unit)) (onRound : option (Z -> M unit)).

Definition count_round (round : Z) : M unit :=
  match onRound with Some f => f round | None => mret tt end.

(** The loop over a sequence of passes; [None] when it is still running after
    them. *)
Fixpoint autonomous_loop (round : Z) (rounds : list (Round J)) : M (option Ended) :=
  match rounds with
  | [] => mret None
  | rd :: rest =>
      match rd_wait rd with
      | Some e => mret (Some (Some e))
      | None =>
          match rd_choice rd with
          | CtxDone e => mret (Some (Some e))
          | Deadline => mret (Some None)
          | Continue =>
              modify (SetTickRound (wrap64 (round + 1))) ≫= fun _ =>
              err ← catch (SendMessage threadID modelName inserter (rd_run rd) "" []);
              let next := count_round (wrap64 (round + 1)) ≫= fun _ => autonomous_loop (wrap64 (round + 1)) rest in
              match err with
              | None => next
              | Some e =>
                  if err_is e ENoResponse then next
                  else match OnAutonomousError with
                       | Some h => h e ≫= fun _ => autonomous_loop round rest
                       | None => mret (Some (Some e))
                       end
              end
          end
      end
  end.

(** The persisted round, or 0 when it cannot be read. *)
Definition seed_round : M Z := fun s =>
  match rdb (GetAgentState threadID) s with
  | (s', Ok st) => (s', Ok (as_RoundCount st))
  | (s', Err _) => (s', Ok 0)
  | (s', Panic p) => (s', Panic p)
  end.

Definition RunAutonomous (kickoff : option string -> RunState -> list (Yield J)) (prompt : string)
    (attachments : list AttachmentContent) (rounds : list (Round J)) : M (option Ended) :=
  err ← catch (SendMessage threadID modelName inserter kickoff prompt attachments);
  let loop := seed_round ≫= fun round => autonomous_loop round rounds in
  match err with
  | None => loop
  | Some e =>
      match OnAutonomousError with
      | Some h => h e ≫= fun _ => loop
      | None => mret (Some (Some e))
      end
  end.

End Autonomous.

(** ** The callbacks of [wireRunnerCallbacks] ([service/runtime/factory.go]) *)
Section Callbacks.
Context {env : Env} {srt : SliceSort}.
Context (threadID : string).
#[local] Abbreviation M := (GoM RunState).

(** A call whose error is dropped. *)
Definition ignore {A} (m : M A) : M unit := fun s =>
  match m s with (s', Panic p) => (s', Panic p) | (s', _) => (s', Ok tt) end.

(** The elapsed time of the notice is left out. *)
Definition round_callback (round : Z) : M unit :=
  durLimit ← ((fun s => match rdb (GetAgentState threadID) s with
                        | (s', Ok st) => (s', Ok (default "" (as_DurationLimit st)))
                        | (s', Err _) => (s', Ok "")
                        | (s', Panic p) => (s', Panic p)
                        end) : M string);
  _ ← modify (add_notice (PublishAgentState AgentStatusRunning AgentModeAutonomous round durLimit None));
  ignore (rdb (SetAgentRoundCount threadID round)).

(** [pause] is [runner.PauseAutonomous]: the gate is a separate object. *)
Definition error_callback (pause : M unit) (err : goerr) : M unit :=
  _ ← pause;
  _ ← ignore (rdb (SetAgentStatus threadID AgentStatusPaused));
  modify (add_notice (PublishAgentState AgentStatusPaused AgentModeAutonomous 0 "" (Some err))).

End Callbacks.

(** ** A run keeps the database closed *)

(** What ends a run whose errors are handled: the context, or the deadline. *)
Fixpoint run_end {J} (rounds : list (Round J)) : option Ended :=
  match rounds with
  | [] => None
  | rd :: rest =>
      match rd_wait rd, rd_choice rd with
      | Some e, _ => Some (Some e)
      | None, CtxDone e => Some (Some e)
      | None, Deadline => Some None
      | None, Continue => run_end rest
      end
  end.

Section Run.
Context {env : Env} {srt : SliceSort} {codec : ProtoCodec} {J : Type} {json : Json J}.
Context (threadID modelName : string) (inserter : option Inserter).
Hypothesis Hcfg : match inserter with Some i => configured i | None => True end.
(** The call ids of the [n]-th turn. *)
Context (ids : nat -> string -> Prop).
Hypothesis Hids : forall n m id, ids n id -> ids m id -> n = m.

(** The ids of the turns from the [n]-th on. *)
Definition from (n : nat) (id : string) : Prop := exists m, (n <= m)%nat /\ ids m id.

(** A callback that returns and leaves the messages alone. *)
Definition bystander (m : GoM RunState unit) : Prop :=
  forall s, (m s).2 = Ok tt /\ tb_messages (rs_tables (m s).1) = tb_messages (rs_tables s).

Lemma from_split n id : ids n id \/ from (S n) id <-> from n id.
Proof.
  split.
  - intros [Hid|(m & Hm & Hid)]; [by exists n|]. exists m. split; [lia|done].
  - intros (m & Hm & Hid). destruct (decide (m = n)) as [->|Hne]; [by left|]. right. exists m. split; [lia|done].
Qed.

Lemma ready_iff P Q s : (forall id, P id <-> Q id) -> ready threadID P s -> ready threadID Q s.
Proof. intros HPQ [Hd Hu]. split; [done|]. intros id Hid. by apply Hu, HPQ. Qed.

(** The [n]-th turn. *)
Lemma turn_ready n run content attachments s :
  (forall prompt s, Forall (yield_ok threadID (ids n) (from (S n))) (run prompt s)) -> ready threadID (from n) s ->
  exists s' err, catch (SendMessage threadID modelName inserter run content attachments) s = (s', Ok err) /\
    ready threadID (from (S n)) s'.
Proof.
  intros Hrun Hs.
  destruct (SendMessage_ready threadID modelName inserter (ids n) (from (S n)) run content attachments s Hcfg) as [Hset Hr].
  - intros id Hid (m & Hm & Hid'). pose proof (Hids _ _ _ Hid Hid'). lia.
  - done.
  - eapply ready_iff; [|exact Hs]. intros id. by rewrite from_split.
  - unfold catch. destruct (SendMessage _ _ _ _ _ _ s) as [s' [m|e|p]]; [by eexists _, _..|]. by destruct (Hset p).
Qed.

Lemma bystander_ready m P s : bystander m -> ready threadID P s ->
  exists s', m s = (s', Ok tt) /\ ready threadID P s'.
Proof.
  intros Hb Hs. destruct (Hb s) as [E Hm]. exists (m s).1. split; [rewrite <- E; by destruct (m s)|].
  by eapply ready_messages.
Qed.

Context (handler : goerr -> GoM RunState unit) (onRound : option (Z -> GoM RunState unit)).
Hypothesis Hhandler : forall e, bystander (handler e).
Hypothesis Honround : forall f round, onRound = Some f -> bystander (f round).

Lemma count_round_bystander round : bystander (count_round onRound round).
Proof. unfold count_round. destruct onRound as [f|] eqn:E; [by apply Honround|]. by intros s. Qed.

Lemma loop_ready rounds n round s :
  (forall k rd, rounds !! k = Some rd ->
     forall prompt s, Forall (yield_ok threadID (ids (n + k)) (from (S (n + k)))) (rd_run rd prompt s)) ->
  ready threadID (from n) s ->
  exists s', autonomous_loop threadID modelName inserter (Some handler) onRound round rounds s = (s', Ok (run_end rounds)) /\
    ready threadID (from (n + length rounds)) s'.
Proof.
  revert n round s. induction rounds as [|rd rest IH]; intros n round s Hrounds Hs; cbn [autonomous_loop run_end].
  - eexists. split; [reflexivity|]. by rewrite Nat.add_0_r.
  - assert (forall s', ready threadID (from n) s' -> ready threadID (from (n + length (rd :: rest))) s') as Hmono.
    { intros s' [Hd Hu]. split; [done|]. intros id (m & Hm & Hid). apply Hu. exists m. split; [lia|done]. }
    destruct (rd_wait rd) as [e|]; [eexists; split; [reflexivity|by apply Hmono]|].
    destruct (rd_choice rd) as [e| |]; [eexists; split; [reflexivity|by apply Hmono]..|].
    unfold mbind at 1, gom_bind. cbn [modify]. set (s0 := SetTickRound _ s).
    assert (ready threadID (from n) s0) as Hs0 by exact Hs.
    destruct (turn_ready n (rd_run rd) "" [] s0) as (s1 & err & E & Hs1); [|done|].
    { specialize (Hrounds 0%nat rd eq_refl). by rewrite Nat.add_0_r in Hrounds. }
    unfold mbind at 1, gom_bind. rewrite E.
    assert (forall s2 round', ready threadID (from (S n)) s2 ->
      exists s', autonomous_loop threadID modelName inserter (Some handler) onRound round' rest s2 = (s', Ok (run_end rest)) /\
        ready threadID (from (n + length (rd :: rest))) s') as Hrest.
    { intros s2 round' Hs2. destruct (IH (S n) round' s2) as (s' & E' & Hs'); [|done|].
      - intros k rd' Hk. specialize (Hrounds (S k) rd' Hk). by rewrite <- Nat.add_succ_comm in Hrounds.
      - exists s'. split; [done|]. cbn [length]. by rewrite <- Nat.add_succ_comm. }
    assert (forall m : GoM RunState unit, bystander m -> forall round',
      exists s', (m ≫= fun _ => autonomous_loop threadID modelName inserter (Some handler) onRound round' rest) s1 =
        (s', Ok (run_end rest)) /\ ready threadID (from (n + length (rd :: rest))) s') as Hnext.
    { intros m Hm round'. destruct (bystander_ready m _ s1 Hm Hs1) as (s2 & E2 & Hs2). rewrite (bind_ok _ _ _ _ _ E2).
      by apply Hrest. }
    destruct err as [e|]; [destruct (err_is e ENoResponse)|]; apply Hnext; [apply count_round_bystander|apply Hhandler|apply count_round_bystander].
Qed.

Lemma seed_round_runs s : exists s' n, seed_round threadID s = (s', Ok n) /\ rs_tables s' = rs_tables s.
Proof.
  unfold seed_round, rdb, on_ins, on_db, GetAgentState, query, statement, mbind, gom_bind.
  destruct (e_fault _); cbn; [by eexists _, _|]. destruct (find _ _); by eexists _, _.
Qed.

End Run.


Section Wired.
Context {env : Env} {srt : SliceSort}.

Lemma rdb_agents id f s :
  exists s' r, rdb (exec (fun t => Ok (update_agents id f t))) s = (s', r) /\ (r = Ok tt \/ exists e, r = Err e) /\
    tb_messages (rs_tables s') = tb_messages (rs_tables s).
Proof.
  unfold rdb, on_ins, on_db, exec, statement. destruct (e_fault _); eexists _, _; (split; [reflexivity|]); (split; [eauto|done]).
Qed.

Lemma ignore_agents id f : bystander (ignore (rdb (exec (fun t => Ok (update_agents id f t))))).
Proof.
  intros s. unfold ignore. destruct (rdb_agents id f s) as (s' & r & -> & [->|(e & ->)] & Hm); by split.
Qed.

Lemma bystander_bind (m : GoM RunState unit) (f : unit -> GoM RunState unit) :
  bystander m -> (forall u, bystander (f u)) -> bystander (m ≫= f).
Proof.
  intros Hm Hf s. destruct (Hm s) as [E Et]. destruct (m s) as [s' r] eqn:Es. cbn in E, Et. subst r.
  rewrite (bind_ok _ _ _ _ _ Es). destruct (Hf tt s') as [E' Et']. split; [done|]. by rewrite Et'.
Qed.

(** The wired callbacks are bystanders. *)
Lemma round_callback_bystander id round : bystander (round_callback id round).
Proof.
  intros s. unfold round_callback.
  set (lim := fun s => match rdb (GetAgentState id) s with | (s', Ok st) => _ | (s', Err _) => _ | (s', Panic p) => _ end).
  assert (exists s1 d, lim s = (s1, Ok d) /\ rs_tables s1 = rs_tables s) as (s1 & d & E & Ht).
  { unfold lim, rdb, on_ins, on_db, GetAgentState, query, statement, mbind, gom_bind.
    destruct (e_fault _); cbn; [by eexists _, _|]. destruct (find _ _); by eexists _, _. }
  rewrite (bind_ok lim _ _ _ _ E). rewrite <- Ht.
  refine (bystander_bind (modify _) (fun _ => ignore _) _ _ s1); [by intros s2|]. intros _. apply ignore_agents.
Qed.

Lemma error_callback_bystander id pause e : bystander pause -> bystander (error_callback id pause e).
Proof.
  intros Hp. unfold error_callback. apply bystander_bind; [done|]. intros _. apply bystander_bind; [apply ignore_agents|].
  intros _ s. by split.
Qed.

End Wired.

(** ** A run of two rounds *)
Module SampleRun.
#[local] Existing Instance SampleCodec.codec.
#[local] Existing Instance SampleTurn.env.

(** The first round fails, the second finds the deadline passed. *)
Definition rounds : list (Round string) :=
  [{| rd_wait := None; rd_choice := Continue; rd_run := fun _ _ => [YError (ENew "overloaded")] |};
   {| rd_wait := None; rd_choice := Deadline; rd_run := fun _ _ => [] |}].
Definition ids (n : nat) (id : string) : Prop := n = 0%nat /\ SampleTurn.ids id.
Definition handler (e : goerr) : GoM RunState unit := error_callback "t" (mret tt) e.
Definition onRound : option (Z -> GoM RunState unit) := Some (round_callback "t").
Definition out : RunState * outcome (option Ended) :=
  RunAutonomous "t" "m" None (Some handler) onRound SampleTurn.run "go" [] rounds SampleTurn.start.
Definition updates : list Notice :=
  List.filter (fun n => match n with PublishAgentState _ _ _ _ _ => true | _ => false end) (rs_notices out.1).

(** A turn the user stopped is not told apart from a failure. *)
Definition stopped_env : Env := {|
  e_fault := fun _ => None; e_now := fun n => Z.of_nat n; e_ctx := fun _ => Some ECanceled; e_constraint := ENew "constraint failed"
|}.
Definition stopped : RunState * outcome (option Ended) :=
  autonomous_loop (env := stopped_env) (J := string) "t" "m" None
    (Some (error_callback (env := stopped_env) "t" (mret tt))) None 0
    [{| rd_wait := None; rd_choice := Continue; rd_run := fun _ _ => [YError ECanceled] |}] SampleTurn.start.
End SampleRun.

Example stop_pauses_with_an_error :
  rs_notices SampleRun.stopped.1 = [PublishAgentState AgentStatusPaused AgentModeAutonomous 0 "" (Some EStopped)].
Proof. vm_compute. reflexivity. Qed.


(** ** A gate with one waiter *)
Module SampleGate.
Definition g0 : GateState := let ah := newAutonomousState [] in {| gs_auto := ah.1; gs_chans := ah.2; gs_waiting := [] |}.
Definition g1 : GateState :=
  {| gs_auto := {| paused := true; pauseCh := 0; resumeCh := 1 |}; gs_chans := [true; false]; gs_waiting := [] |}.
Definition g2 : GateState := {| gs_auto := gs_auto g1; gs_chans := gs_chans g1; gs_waiting := [1%nat] |}.
End SampleGate.

Lemma pause_gate_witness :
  released 1 (gs_chans SampleGate.g2) = false /\ IsPaused (gs_auto SampleGate.g2) = true.
Proof.
  split; [reflexivity|]. refine (proj2 (proj2 (pause_gate [] SampleGate.g2 _)) 1%nat _ _); [|by left|reflexivity].
  eapply rtc_l; [by apply (gate_pause SampleGate.g0 (gs_auto SampleGate.g1) [true; false])|].
  apply rtc_once. by apply (gate_wait SampleGate.g1 1).
Defined.
