(* ===== verification/Control.v ===== *)
(** * Agent control ([service/graph/schema.agent.resolvers.go],
    [service/runtime/reconcile.go], [service/plans])

    The mutations that start, pause, resume and stop agents, plan mode, and
    the reconciliation of agent states at boot.  The state is the database,
    the runner registry, the plan cache, the gates of the runners' runs, what
    was published, and the loops that were launched as goroutines. *)

From Stdlib Require Import ZArith Lia String.
From S2P Require Import Prelude GoFloat GoSort GoStrings GoTime Types Genai Sql Storage Embeddings Threads Integrity PbText LocalContext Inserter Runner Registry.
#[local] Open Scope Z_scope.

(** ** The budget of a resumed run ([storage/agentstate.go]) *)

Definition ResumeMin : Z := 5 * Minute.

(** Why a run is not resumed; the texts are not kept. *)
Inductive Reason :=
  | NoDurationLimit
  | NoStartedAt
  | Unparseable (limit : string)
  | NonPositive (limit : string)
  | BudgetExpired (elapsed total : Z).

(** [now] is the clock [time.Since] reads. *)
Definition RemainingBudget (now : Z) (st : AgentState) : Z + Reason :=
  let limit := default "" (as_DurationLimit st) in
  if String.eqb limit "" then inr NoDurationLimit
  else
    match as_StartedAt st with
    | None => inr NoStartedAt
    | Some started =>
        match ParseDuration limit with
        | None => inr (Unparseable limit)
        | Some total =>
            if total <=? 0 then inr (NonPositive limit)
            else
              let elapsed := time_sub now started in
              let remaining := wrap64 (total - elapsed) in
              if remaining <=? 0 then inr (BudgetExpired elapsed total)
              else inl (if remaining <? ResumeMin then ResumeMin else remaining)
        end
    end.

(** ** The state *)

(** A [RunAutonomous] goroutine with its prompt and duration. *)
Record Loop := { lp_ThreadID : string; lp_Runner : option nat; lp_Prompt : string; lp_Duration : Z }.

(** A published [AgentState]. *)
Record Update := {
  up_ThreadID : string;
  up_Status : AgentStatus;
  up_Mode : AgentMode;
  up_RoundCount : Z;
  up_DurationLimit : option string;
  up_PlanContent : option string
}.

(** [ct_gates] holds the runners whose [autoState] is set, with its pause
    flag, [ct_seq] their message counters, [ct_actions] what stopping runners
    did. *)
Record Control := {
  ct_ins : InsertState;
  ct_registry : Registry;
  ct_plans : gmap string string;
  ct_gates : gmap nat bool;
  ct_seq : gmap nat Z;
  ct_cancels : nat;
  ct_actions : list Action;
  ct_published : list Update;
  ct_loops : list Loop
}.

Definition set_ct_ins (i : InsertState) (c : Control) : Control :=
  {| ct_ins := i; ct_registry := ct_registry c; ct_plans := ct_plans c; ct_gates := ct_gates c; ct_seq := ct_seq c;
     ct_cancels := ct_cancels c; ct_actions := ct_actions c; ct_published := ct_published c; ct_loops := ct_loops c |}.
Definition set_registry (r : Registry) (c : Control) : Control :=
  {| ct_ins := ct_ins c; ct_registry := r; ct_plans := ct_plans c; ct_gates := ct_gates c; ct_seq := ct_seq c;
     ct_cancels := ct_cancels c; ct_actions := ct_actions c; ct_published := ct_published c; ct_loops := ct_loops c |}.
Definition set_plan_cache (f : gmap string string -> gmap string string) (c : Control) : Control :=
  {| ct_ins := ct_ins c; ct_registry := ct_registry c; ct_plans := f (ct_plans c); ct_gates := ct_gates c; ct_seq := ct_seq c;
     ct_cancels := ct_cancels c; ct_actions := ct_actions c; ct_published := ct_published c; ct_loops := ct_loops c |}.
Definition set_gates (f : gmap nat bool -> gmap nat bool) (c : Control) : Control :=
  {| ct_ins := ct_ins c; ct_registry := ct_registry c; ct_plans := ct_plans c; ct_gates := f (ct_gates c); ct_seq := ct_seq c;
     ct_cancels := ct_cancels c; ct_actions := ct_actions c; ct_published := ct_published c; ct_loops := ct_loops c |}.
Definition set_seq (f : gmap nat Z -> gmap nat Z) (c : Control) : Control :=
  {| ct_ins := ct_ins c; ct_registry := ct_registry c; ct_plans := ct_plans c; ct_gates := ct_gates c; ct_seq := f (ct_seq c);
     ct_cancels := ct_cancels c; ct_actions := ct_actions c; ct_published := ct_published c; ct_loops := ct_loops c |}.
Definition add_actions (l : list Action) (c : Control) : Control :=
  {| ct_ins := ct_ins c; ct_registry := ct_registry c; ct_plans := ct_plans c; ct_gates := ct_gates c; ct_seq := ct_seq c;
     ct_cancels := ct_cancels c; ct_actions := ct_actions c ++ l; ct_published := ct_published c; ct_loops := ct_loops c |}.
Definition add_update (u : Update) (c : Control) : Control :=
  {| ct_ins := ct_ins c; ct_registry := ct_registry c; ct_plans := ct_plans c; ct_gates := ct_gates c; ct_seq := ct_seq c;
     ct_cancels := ct_cancels c; ct_actions := ct_actions c; ct_published := ct_published c ++ [u]; ct_loops := ct_loops c |}.
Definition add_loop (l : Loop) (c : Control) : Control :=
  {| ct_ins := ct_ins c; ct_registry := ct_registry c; ct_plans := ct_plans c; ct_gates := ct_gates c; ct_seq := ct_seq c;
     ct_cancels := ct_cancels c; ct_actions := ct_actions c; ct_published := ct_published c; ct_loops := ct_loops c ++ [l] |}.
Definition set_cancels (n : nat) (c : Control) : Control :=
  {| ct_ins := ct_ins c; ct_registry := ct_registry c; ct_plans := ct_plans c; ct_gates := ct_gates c; ct_seq := ct_seq c;
     ct_cancels := n; ct_actions := ct_actions c; ct_published := ct_published c; ct_loops := ct_loops c |}.

Definition ct_world (c : Control) : World Tables := in_world (ct_ins c).
Definition ct_tables (c : Control) : Tables := w_tables (ct_world c).

(** ** The plan cache ([service/plans]) *)
Definition plans_Get (threadID : string) (c : Control) : string := default "" (ct_plans c !! threadID).
Definition plans_Set (threadID content : string) (c : Control) : Control := set_plan_cache <[threadID := content]> c.
Definition plans_Clear (threadID : string) (c : Control) : Control := set_plan_cache (delete threadID) c.

Section Control.
Context {env : Env} {srt : SliceSort} {codec : ProtoCodec}.
(** The factory [runtime.Build], and the store's inserter. *)
Context (Build : string -> outcome Entry) (inserter : Inserter).
#[local] Abbreviation M := (GoM Control).

Definition cdb {A} (m : GoM (World Tables) A) : M A := fun c =>
  let r := on_db m (ct_ins c) in (set_ct_ins r.1 c, r.2).
Definition cmodify (f : Control -> Control) : M unit := fun c => (f c, Ok tt).

Definition publish (threadID : string) (status : AgentStatus) (mode : AgentMode) : M unit :=
  cmodify (add_update {| up_ThreadID := threadID; up_Status := status; up_Mode := mode; up_RoundCount := 0;
                         up_DurationLimit := None; up_PlanContent := None |}).

(** [GetOrBuild] of a caller that meets no other. *)
Definition GetOrBuild (threadID : string) (r : Registry) : Registry * Caller :=
  match enter threadID r with
  | (r', Building sig) =>
      match Build threadID with
      | Ok e => resolve threadID sig (inl e) r'
      | Err err => resolve threadID sig (inr err) r'
      | Panic _ => (r', Panicked)
      end
  | rc => rc
  end.

(** The runner of the entry, with the error wrapped by [pre]. *)
Definition get_runner (pre : string) (threadID : string) : M (option nat) := fun c =>
  let rc := GetOrBuild threadID (ct_registry c) in
  let c := set_registry rc.1 c in
  match rc.2 with
  | Returned (inl e) => (c, Ok (entry_at rc.1 e ≫= en_Runner))
  | Returned (inr err) => (c, Err (EWrap pre err ""))
  | _ => (c, Panic "build")
  end.

Definition getOrCreateRunner (threadID : string) : M (option nat) :=
  get_runner ("build runner " ^^ threadID ^^ ": ") threadID.

(** [runner.method()] on a nil runner *)
Definition the_runner (r : option nat) : M nat :=
  match r with Some h => mret h | None => gom_lift (Panic "nil pointer dereference") end.

(** Nobody else touches the registry during the call. *)
Definition stopRunner (threadID : string) : M unit :=
  cmodify (fun c => let '(r, actions, _) := Stop threadID id id (ct_registry c) in add_actions actions (set_registry r c)).

(** [context.WithCancel] gives a fresh cancel function to the entry. *)
Definition set_auto_cancel (threadID : string) : M unit :=
  cmodify (fun c => set_cancels (S (ct_cancels c)) (set_registry (SetCancel threadID (ct_cancels c) (ct_registry c)) c)).

Definition launch (threadID : string) (runner : option nat) (prompt : string) (duration : Z) : M unit :=
  cmodify (add_loop {| lp_ThreadID := threadID; lp_Runner := runner; lp_Prompt := prompt; lp_Duration := duration |}).

(** ** The mutations *)

Definition StopAgent (threadID : string) : M bool :=
  _ ← stopRunner threadID;
  _ ← publish threadID AgentStatusIdle AgentModeNormal;
  _ ← cdb (EnsureAgentStateRow threadID AgentStatusIdle AgentModeNormal);
  _ ← cdb (SetAgentStatusAndMode threadID AgentStatusIdle AgentModeNormal);
  mret true.

(** The registered runner, if there is an entry. *)
Definition live_runner (threadID : string) (c : Control) : option Entry := Get threadID (ct_registry c) ≫= entry_at (ct_registry c).

Definition set_paused (b : bool) (runner : nat) (c : Control) : Control := set_gates (alter (fun _ => b) runner) c.

Definition load_state (threadID : string) : M AgentState := cdb (wrapping "load state: " (GetAgentState threadID)).

Definition PauseAgent (threadID : string) : M bool :=
  _ ← ((fun c => match live_runner threadID c with
                 | None => (c, Ok tt)
                 | Some e => match en_Runner e with
                             | Some h => (set_paused true h c, Ok tt)
                             | None => (c, Panic "nil pointer dereference")
                             end
                 end) : M unit);
  st ← load_state threadID;
  _ ← publish threadID AgentStatusPaused (as_Mode st);
  _ ← cdb (SetAgentStatus threadID AgentStatusPaused);
  mret true.

(** [agentRunner.NextPosition()] *)
Definition next_position (threadID : string) (runner : nat) : M Z := fun c =>
  let r := NextPosition threadID
             {| rs_ins := ct_ins c; rs_msgSeq := default 0 (ct_seq c !! runner); rs_currentTurnID := "";
                rs_tick := {| tickAssemble := no_telemetry; tickAssembleSet := false; tickAssembleCount := 0;
                  tickRunStart := None; tickFirstEvent := None; tickPersistMs := 0; tickCorpusSize := 0;
                  tickUsagePredicted := 0; tickUsagePrompt := 0; tickUsageCompletion := 0; tickRound := 0 |};
                rs_notices := [] |} in
  (set_seq <[runner := rs_msgSeq r.1]> (set_ct_ins (rs_ins r.1) c), r.2).

Definition storeMessage (msg : Message) : M unit := fun c =>
  let r := Insert inserter msg (ct_ins c) in
  (set_ct_ins r.1 c, match r.2 with
                     | Ok (_, None) => Ok tt
                     | Ok (_, Some e) => Err e
                     | Err e => Err e
                     | Panic p => Panic p
                     end).

(** [fmt.Errorf("<pre>%w", err)] around a failure of [m] *)
Definition cwrap {A} (pre : string) (m : M A) : M A := fun c =>
  match m c with (c', Err e) => (c', Err (EWrap pre e "")) | r => r end.

(** The correction of a resume is a user turn of its own. *)
Definition store_correction (threadID correction : string) : M unit :=
  runner ← get_runner ("resume runner: build runner " ^^ threadID ^^ ": ") threadID;
  n1 ← cdb now;
  h ← the_runner runner;
  position ← next_position threadID h;
  n2 ← cdb now;
  n3 ← cdb now;
  cwrap "insert correction: "
    (storeMessage {| m_Id := "msg-" ^^ itoa n1; m_Role := ROLE_USER; m_Content := BlocksFromText correction;
                     m_Position := position; m_ThreadId := threadID; m_CreatedAt := Some (timestamp_of n3);
                     m_TurnId := "turn-" ^^ threadID ^^ "-" ^^ itoa n2 |}).

(** [entry.Runner.IsAutonomousActive()], if there is an entry. *)
Definition active_runner (threadID : string) : M (option nat) := fun c =>
  match live_runner threadID c with
  | None => (c, Ok None)
  | Some e =>
      match en_Runner e with
      | Some h => (c, Ok (if decide (is_Some (ct_gates c !! h)) then Some h else None))
      | None => (c, Panic "nil pointer dereference")
      end
  end.

Definition ResumeAgent (threadID : string) (correction : option string) : M bool :=
  st ← load_state threadID;
  let text := default "" correction in
  _ ← (if String.eqb text "" then mret tt else store_correction threadID text);
  active ← active_runner threadID;
  _ ← match active with
      | Some h => cmodify (set_paused false h)
      | None =>
          if bool_decide (as_Mode st = AgentModeAutonomous)
          then
            nano ← cdb now;
            match RemainingBudget nano st with
            | inr _ => mret tt
            | inl remaining =>
                if 0 <? remaining
                then
                  runner ← get_runner ("restart runner: build runner " ^^ threadID ^^ ": ") threadID;
                  _ ← set_auto_cancel threadID;
                  launch threadID runner (if String.eqb text "" then "continue" else text) remaining
                else mret tt
            end
          else mret tt
      end;
  _ ← publish threadID AgentStatusRunning (as_Mode st);
  _ ← cdb (SetAgentStatus threadID AgentStatusRunning);
  mret true.

Definition minDur : Z := 5 * Minute.
Definition maxDur : Z := 14 * 24 * Hour.

(** The given duration is stored, the loop gets at most [maxDur]. *)
Definition StartAutonomous (threadID prompt duration : string) : M bool :=
  match ParseDuration duration with
  | None => gom_err (EWrap "invalid duration: " (ENew "time: invalid duration") "")
  | Some dur =>
      if dur <? minDur then gom_err (ENew "minimum autonomous duration is 5m")
      else
        let dur := if maxDur <? dur then maxDur else dur in
        nano ← cdb now;
        _ ← cdb (StartAutonomousRun threadID nano duration);
        runner ← get_runner ("create runner: build runner " ^^ threadID ^^ ": ") threadID;
        _ ← set_auto_cancel threadID;
        _ ← cmodify (add_update {| up_ThreadID := threadID; up_Status := AgentStatusRunning; up_Mode := AgentModeAutonomous;
                                   up_RoundCount := 0; up_DurationLimit := Some duration; up_PlanContent := None |});
        _ ← launch threadID runner prompt dur;
        mret true
  end.

Definition EnterPlanMode (threadID : string) : M bool :=
  _ ← cdb (EnsureAgentStateRow threadID AgentStatusIdle AgentModePlan);
  _ ← cdb (SetAgentStatusAndMode threadID AgentStatusIdle AgentModePlan);
  _ ← stopRunner threadID;
  _ ← get_runner ("create runner: build runner " ^^ threadID ^^ ": ") threadID;
  _ ← publish threadID AgentStatusIdle AgentModePlan;
  mret true.

Definition approvedPrompt : string :=
  "Plan approved. Proceed with implementation. Re-read plan.adoc if any detail is unclear.".

Definition ApprovePlan (threadID : string) (autonomous : bool) : M bool :=
  let mode := if autonomous then AgentModeAutonomous else AgentModeNormal in
  let status := if autonomous then AgentStatusRunning else AgentStatusIdle in
  _ ← cdb (EnsureAgentStateRow threadID status mode);
  _ ← cdb (SetAgentStatusAndMode threadID status mode);
  _ ← cmodify (plans_Clear threadID);
  _ ← publish threadID status mode;
  _ ← (if autonomous
       then
         runner ← get_runner ("create runner: build runner " ^^ threadID ^^ ": ") threadID;
         _ ← set_auto_cancel threadID;
         launch threadID runner approvedPrompt (default 0 (ParseDuration "1h"))
       else mret tt);
  mret true.

Definition RejectPlan (threadID : string) : M bool :=
  _ ← cmodify (plans_Clear threadID);
  _ ← cdb (EnsureAgentStateRow threadID AgentStatusIdle AgentModePlan);
  _ ← cdb (SetAgentStatusAndMode threadID AgentStatusIdle AgentModePlan);
  _ ← stopRunner threadID;
  _ ← get_runner ("create runner: build runner " ^^ threadID ^^ ": ") threadID;
  _ ← publish threadID AgentStatusIdle AgentModePlan;
  mret true.

(** The query: a missing row reads as idle. *)
Definition AgentState_query (threadID : string) : M Update := fun c =>
  match cdb (GetAgentState threadID) c with
  | (c', Ok st) =>
      let pc := plans_Get threadID c' in
      (c', Ok {| up_ThreadID := threadID; up_Status := as_Status st; up_Mode := as_Mode st;
                 up_RoundCount := as_RoundCount st;
                 up_DurationLimit := (if String.eqb (default "" (as_DurationLimit st)) "" then None
                                      else Some (default "" (as_DurationLimit st)));
                 up_PlanContent := (if String.eqb pc "" then None else Some pc) |})
  | (c', Err _) => (c', Ok {| up_ThreadID := threadID; up_Status := AgentStatusIdle; up_Mode := AgentModeNormal;
                              up_RoundCount := 0; up_DurationLimit := None; up_PlanContent := None |})
  | (c', Panic p) => (c', Panic p)
  end.

(** ** Reconciliation at boot ([service/runtime/reconcile.go]) *)

Inductive Reconciled :=
  | ResetNonAutonomous
  | ResetPaused
  | ResetNoBudget (reason : Reason)
  | ResetNoRunner
  | Resumed (remaining : Z).

(** A failed update is only logged, and nothing is published then. *)
Definition resetToIdle (threadID : string) : M unit := fun c =>
  match cdb (SetAgentStatusAndMode threadID AgentStatusIdle AgentModeNormal) c with
  | (c', Ok _) => publish threadID AgentStatusIdle AgentModeNormal c'
  | (c', Err _) => (c', Ok tt)
  | (c', Panic p) => (c', Panic p)
  end.

(** [getOrBuildRunner] with its error as a value. *)
Definition try_runner (threadID : string) : M (option nat + goerr) := fun c =>
  match get_runner "" threadID c with
  | (c', Ok r) => (c', Ok (inl r))
  | (c', Err e) => (c', Ok (inr e))
  | (c', Panic p) => (c', Panic p)
  end.

Definition reconcileRow (st : AgentState) : M Reconciled :=
  let threadID := as_ThreadID st in
  if negb (bool_decide (as_Mode st = AgentModeAutonomous))
  then resetToIdle threadID ≫= fun _ => mret ResetNonAutonomous
  else if bool_decide (as_Status st = AgentStatusPaused)
  then resetToIdle threadID ≫= fun _ => mret ResetPaused
  else
    nano ← cdb now;
    match RemainingBudget nano st with
    | inr reason => resetToIdle threadID ≫= fun _ => mret (ResetNoBudget reason)
    | inl remaining =>
        r ← try_runner threadID;
        match r with
        | inr _ => resetToIdle threadID ≫= fun _ => mret ResetNoRunner
        | inl runner =>
            _ ← set_auto_cancel threadID;
            _ ← publish threadID AgentStatusRunning AgentModeAutonomous;
            _ ← launch threadID runner "continue" remaining;
            mret (Resumed remaining)
        end
    end.

Definition ReconcileOnBoot : M unit := fun c =>
  match cdb ListActiveAgentStates c with
  | (c', Ok rows) => foldM (M := M) (fun _ st => reconcileRow st ≫= fun _ => mret tt) tt rows c'
  | (c', Err _) => (c', Ok tt)
  | (c', Panic p) => (c', Panic p)
  end.

End Control.

(** ** The budget is bounded *)

(** A resumed run gets what is left of its budget.  For every row and every
    reading of the clock, [RemainingBudget] grants at least five minutes and a
    valid duration; when the clock has not gone back it grants exactly the
    rest of the stored limit (or five minutes if that is less), and it
    refuses a row that has a positive limit and a start only when the limit
    has passed. *)
Theorem RemainingBudget_spec (now : Z) (st : AgentState) :
  match RemainingBudget now st with
  | inl r =>
      ResumeMin <= r <= maxDuration /\
      exists started total, as_StartedAt st = Some started /\ ParseDuration (default "" (as_DurationLimit st)) = Some total /\
        (started <= now -> now - started < total /\ r = Z.max ResumeMin (total - (now - started)))
  | inr _ =>
      forall started total, as_StartedAt st = Some started -> default "" (as_DurationLimit st) <> "" ->
        ParseDuration (default "" (as_DurationLimit st)) = Some total -> 0 < total -> started <= now -> total <= now - started
  end.
Proof.
  unfold RemainingBudget. destruct (String.eqb_spec (default "" (as_DurationLimit st)) "") as [E|Hne]; [by intros|].
  destruct (as_StartedAt st) as [started|]; [|by intros]. destruct (ParseDuration _) as [total|] eqn:Ep; [|by intros].
  apply ParseDuration_range in Ep as Hr. unfold minDuration, maxDuration in Hr.
  destruct (Z.leb_spec total 0) as [Hle|Hpos]; [intros ? ? [= <-] _ [= <-]; lia|].
  assert (started <= now -> wrap64 (total - time_sub now started) = total - Z.min (now - started) maxDuration) as Hw.
  { intros Hs. unfold time_sub, minDuration, maxDuration. rewrite Z.max_r by lia. apply wrap64_id. unfold in_int64. lia. }
  pose proof (wrap64_range (total - time_sub now started)) as Hrange. unfold in_int64 in Hrange.
  destruct (Z.leb_spec (wrap64 (total - time_sub now started)) 0) as [H0|H0].
  - intros ? ? [= <-] _ [= <-] _ Hs. specialize (Hw Hs). unfold maxDuration in Hw. lia.
  - destruct (Z.ltb_spec (wrap64 (total - time_sub now started)) ResumeMin) as [Hm|Hm].
    + split; [unfold ResumeMin, Minute, maxDuration; lia|]. exists started, total. split; [done|]. split; [done|].
      intros Hs. specialize (Hw Hs). unfold maxDuration in Hw. lia.
    + split; [unfold maxDuration; lia|]. exists started, total. split; [done|]. split; [done|].
      intros Hs. specialize (Hw Hs). unfold maxDuration in Hw. lia.
Qed.

(** ** No agent is left running without a loop *)

Definition idle (a : AgentState) : AgentState := with_mode AgentModeNormal (with_status AgentStatusIdle a).

(** The rows after the listed threads were reset. *)
Definition mark (resets : list string) (l : list AgentState) : list AgentState :=
  (fun a => if bool_decide (as_ThreadID a ∈ resets) then idle a else a) <$> l.

Lemma mark_cons id resets l :
  map (fun a => if agent_of id a then idle a else a) (mark resets l) = mark (id :: resets) l.
Proof.
  unfold mark. induction l as [|a l IH]; [done|]. cbn [fmap list_fmap map]. f_equal; [|exact IH].
  unfold agent_of. destruct (String.eqb_spec (as_ThreadID a) id) as [E|Hne].
  - rewrite (bool_decide_true (as_ThreadID a ∈ id :: resets)) by (rewrite E; by left).
    assert (as_ThreadID (if bool_decide (as_ThreadID a ∈ resets) then idle a else a) = id) as -> by (by case_bool_decide).
    rewrite String.eqb_refl. by case_bool_decide.
  - assert (as_ThreadID (if bool_decide (as_ThreadID a ∈ resets) then idle a else a) = as_ThreadID a) as -> by (by case_bool_decide).
    destruct (String.eqb_spec (as_ThreadID a) id); [done|].
    assert (as_ThreadID a ∈ id :: resets <-> as_ThreadID a ∈ resets) as Hiff by (rewrite elem_of_cons; naive_solver).
    by rewrite (bool_decide_ext _ _ Hiff).
Qed.

Section Reconcile.
Context {env : Env} {srt : SliceSort} (Build : string -> outcome Entry).
Hypothesis Hcalm : forall n, e_fault n = None.
Hypothesis Hbuild : forall id, settles (Build id).

Lemma get_runner_alone pre id c :
  rg_building (ct_registry c) = ∅ ->
  exists c' r, get_runner Build pre id c = (c', r) /\ settles r /\ rg_building (ct_registry c') = ∅ /\
    ct_tables c' = ct_tables c /\ ct_loops c' = ct_loops c.
Proof.
  intros Hb. unfold get_runner, GetOrBuild, enter. destruct (rg_m (ct_registry c) !! id) as [e|] eqn:Em; cbn.
  { eexists _, _. split; [reflexivity|]. by split; [apply settles_ok|]. }
  rewrite Hb, lookup_empty. specialize (Hbuild id). destruct (Build id) as [e|err|p]; [..|by destruct (Hbuild p)]; cbn;
    eexists _, _; (split; [reflexivity|]); (split; [apply settles_ok || apply settles_err|]); split; try done.
  - cbn. by rewrite Hb, insert_empty, delete_singleton_eq.
  - cbn. by rewrite Hb, insert_empty, delete_singleton_eq.
Qed.

(** One row, reset or resumed. *)
Definition row_done (st : AgentState) (c c' : Control) (l : list AgentState) (resets : list string) : Prop :=
  (tb_agents (ct_tables c') = mark (as_ThreadID st :: resets) l /\ ct_loops c' = ct_loops c) \/
  (tb_agents (ct_tables c') = mark resets l /\ as_Mode st = AgentModeAutonomous /\ as_Status st <> AgentStatusPaused /\
   exists runner nano remaining, RemainingBudget nano st = inl remaining /\
     ct_loops c' = ct_loops c ++ [{| lp_ThreadID := as_ThreadID st; lp_Runner := runner; lp_Prompt := "continue";
                                     lp_Duration := remaining |}]).

Lemma resetToIdle_run id c l resets :
  tb_agents (ct_tables c) = mark resets l ->
  exists c', resetToIdle id c = (c', Ok tt) /\ tb_agents (ct_tables c') = mark (id :: resets) l /\
    ct_loops c' = ct_loops c /\ ct_registry c' = ct_registry c.
Proof.
  intros Ha. unfold resetToIdle, cdb, on_db, SetAgentStatusAndMode, exec, statement. rewrite Hcalm. cbn.
  eexists. split; [reflexivity|]. split; [|done]. rewrite <- mark_cons, <- Ha. done.
Qed.

Lemma reconcileRow_run st c l resets :
  tb_agents (ct_tables c) = mark resets l -> rg_building (ct_registry c) = ∅ ->
  exists c' act, reconcileRow Build st c = (c', Ok act) /\ rg_building (ct_registry c') = ∅ /\ row_done st c c' l resets.
Proof.
  intros Ha Hb. unfold reconcileRow.
  assert (forall act c, tb_agents (ct_tables c) = mark resets l -> rg_building (ct_registry c) = ∅ ->
    exists c', (resetToIdle (as_ThreadID st) ≫= fun _ => mret act) c = (c', Ok (act : Reconciled)) /\ rg_building (ct_registry c') = ∅ /\
      tb_agents (ct_tables c') = mark (as_ThreadID st :: resets) l /\ ct_loops c' = ct_loops c) as Hreset.
  { intros act c0 Ha0 Hb0. destruct (resetToIdle_run (as_ThreadID st) c0 l resets Ha0) as (c' & E & Ha' & Hl & Hreg).
    exists c'. unfold mbind, gom_bind. rewrite E. split; [done|]. by rewrite Hreg. }
  case_bool_decide as Hm; cbn [negb].
  2: { destruct (Hreset ResetNonAutonomous c Ha Hb) as (c' & E & Hb' & Hd). eexists _, _. split; [exact E|]. split; [done|by left]. }
  case_bool_decide as Hp.
  { destruct (Hreset ResetPaused c Ha Hb) as (c' & E & Hb' & Hd). eexists _, _. split; [exact E|]. split; [done|by left]. }
  unfold mbind at 1, gom_bind, cdb at 1, on_db, now. cbn [fst snd].
  set (nano := e_now _). set (c1 := set_ct_ins _ c). assert (tb_agents (ct_tables c1) = mark resets l) as Ha1 by exact Ha.
  destruct (RemainingBudget nano st) as [remaining|reason] eqn:Er.
  2: { destruct (Hreset (ResetNoBudget reason) c1 Ha1 Hb) as (c' & E & Hb' & Hd). eexists _, _. split; [exact E|]. split; [done|by left]. }
  destruct (get_runner_alone "" (as_ThreadID st) c1 Hb) as (c2 & r & E & Hs & Hb2 & Ht2 & Hl2).
  unfold mbind at 1, gom_bind, try_runner. rewrite E.
  destruct r as [runner|err|p]; [| |by destruct (Hs p)].
  - eexists _, _. split; [reflexivity|]. split.
    + cbn. unfold SetCancel. by destruct (rg_m _ !! _).
    + right. cbn. unfold ct_tables, ct_world in *. cbn. rewrite Ht2. split; [done|]. split; [done|]. split; [done|].
      exists runner, nano, remaining. split; [done|]. by rewrite Hl2.
  - destruct (Hreset ResetNoRunner c2) as (c' & E' & Hb' & Ha' & Hl'); [by rewrite Ht2|done|].
    eexists _, _. split; [exact E'|]. split; [done|]. left. split; [done|]. by rewrite Hl', Hl2.
Qed.

(** What holds after a part of the rows: every row of the part is reset or has
    its loop, and every new loop belongs to such a row. *)
Record reconciled (l rows : list AgentState) (c0 c : Control) (resets : list string) : Prop := {
  rc_agents : tb_agents (ct_tables c) = mark resets l;
  rc_gate : rg_building (ct_registry c) = ∅;
  rc_resets : forall id, id ∈ resets -> id ∈ as_ThreadID <$> rows;
  rc_rows : forall st, st ∈ rows -> as_ThreadID st ∈ resets \/
    (as_Mode st = AgentModeAutonomous /\ as_Status st <> AgentStatusPaused /\
     exists lp nano, lp ∈ ct_loops c /\ lp_ThreadID lp = as_ThreadID st /\ RemainingBudget nano st = inl (lp_Duration lp));
  rc_loops : forall lp, lp ∈ ct_loops c -> lp ∈ ct_loops c0 \/
    exists st, st ∈ rows /\ as_ThreadID st = lp_ThreadID lp /\ ~ as_ThreadID st ∈ resets
}.

Lemma reconcile_rows l c0 c done_ rows resets :
  NoDup (as_ThreadID <$> done_ ++ rows) -> reconciled l done_ c0 c resets ->
  exists c' resets', foldM (M := GoM Control) (fun _ st => reconcileRow Build st ≫= fun _ => mret tt) tt rows c = (c', Ok tt) /\
    reconciled l (done_ ++ rows) c0 c' resets'.
Proof.
  revert done_ c resets. induction rows as [|st rows IH]; intros done_ c resets Hnd Hrc.
  - exists c, resets. split; [done|]. by rewrite app_nil_r.
  - destruct Hrc as [Ha Hg Hr Hrows Hl]. destruct (reconcileRow_run st c l resets Ha Hg) as (c1 & act & E & Hg1 & Hd).
    cbn [foldM]. rewrite (bind_ok _ _ c c1 tt) by (by rewrite (bind_ok _ _ _ _ _ E)).
    assert (done_ ++ st :: rows = (done_ ++ [st]) ++ rows) as Happ by by rewrite <- app_assoc.
    assert (~ as_ThreadID st ∈ as_ThreadID <$> done_) as Hfresh.
    { rewrite fmap_app, NoDup_app in Hnd. destruct Hnd as (_ & Hnd & _). intros Hin. apply (Hnd _ Hin). by left. }
    assert (forall id, id ∈ as_ThreadID <$> done_ -> id ∈ as_ThreadID <$> done_ ++ [st]) as Hmore.
    { intros id Hid. rewrite fmap_app. apply elem_of_app. by left. }
    assert (as_ThreadID st ∈ as_ThreadID <$> done_ ++ [st]) as Hlast.
    { rewrite fmap_app. apply elem_of_app. right. by left. }
    rewrite Happ in Hnd |- *. destruct Hd as [[Ha1 Hl1]|(Ha1 & Hm & Hp & runner & nano & remaining & Hb & Hl1)].
    + eapply (IH _ _ (as_ThreadID st :: resets)); [exact Hnd|]. split; [done|done|..]; rewrite ?Hl1.
      * intros id [->|Hid]%elem_of_cons; [done|]. by apply Hmore, Hr.
      * intros st' [Hst| ->%list_elem_of_singleton]%elem_of_app; [|left; by left].
        destruct (Hrows st' Hst) as [Hin|Hx]; [left; by right|by right].
      * intros lp Hlp. destruct (Hl lp Hlp) as [|(st' & Hst & Eq & Hn)]; [by left|right]. exists st'.
        split; [apply elem_of_app; by left|]. split; [done|]. intros [Heq|]%elem_of_cons; [|done].
        apply Hfresh. rewrite <- Heq. by apply list_elem_of_fmap_2.
    + eapply (IH _ _ resets); [exact Hnd|]. split; [done|done|..]; rewrite ?Hl1.
      * intros id Hid. by apply Hmore, Hr.
      * intros st' [Hst| ->%list_elem_of_singleton]%elem_of_app.
        -- destruct (Hrows st' Hst) as [Hin|(Hm' & Hp' & lp & n & Hlp & Hx)]; [by left|right]. split; [done|]. split; [done|].
           exists lp, n. split; [apply elem_of_app; by left|done].
        -- right. split; [done|]. split; [done|]. eexists _, nano. split; [apply elem_of_app; right; by left|done].
      * intros lp [Hlp| ->%list_elem_of_singleton]%elem_of_app.
        -- destruct (Hl lp Hlp) as [|(st' & Hst & Hx)]; [by left|right]. exists st'. split; [apply elem_of_app; by left|done].
        -- right. exists st. split; [apply elem_of_app; right; by left|]. split; [done|].
           intros Hin. by apply Hfresh, Hr.
Qed.

End Reconcile.

(** C15: After a boot no agent is left marked active without a loop.  Take the
    agent states a crash left behind, and a store that answers.  Reconciliation
    returns; a row that is still not idle is an unchanged running autonomous
    row, for whose thread a loop was launched with the row's remaining budget;
    every other active row is now idle in normal mode with its round count,
    start and limit kept; idle rows are untouched; and no loop was launched
    for a thread whose row is idle. *)
Theorem ReconcileOnBoot_spec `{Env, SliceSort} (Build : string -> outcome Entry) (c : Control)
    (Hcalm : forall n, e_fault n = None) (Hbuild : forall id, settles (Build id))
    (Hgate : rg_building (ct_registry c) = ∅) (Hkeys : unique as_ThreadID (tb_agents (ct_tables c))) :
  let out := ReconcileOnBoot Build c in
  out.2 = Ok tt /\
  (forall a, a ∈ tb_agents (ct_tables out.1) -> as_Status a <> AgentStatusIdle ->
     a ∈ tb_agents (ct_tables c) /\ as_Status a = AgentStatusRunning /\ as_Mode a = AgentModeAutonomous /\
     exists lp nano, lp ∈ ct_loops out.1 /\ lp_ThreadID lp = as_ThreadID a /\ RemainingBudget nano a = inl (lp_Duration lp)) /\
  (forall a, a ∈ tb_agents (ct_tables c) ->
     a ∈ tb_agents (ct_tables out.1) \/ as_Status a <> AgentStatusIdle /\ idle a ∈ tb_agents (ct_tables out.1)) /\
  (forall lp, lp ∈ ct_loops out.1 -> lp ∈ ct_loops c \/
     exists a, a ∈ tb_agents (ct_tables out.1) /\ as_ThreadID a = lp_ThreadID lp /\ as_Status a <> AgentStatusIdle).
Proof.
  intros out. set (l := tb_agents (ct_tables c)) in *.
  set (active := where_ (fun a => negb (bool_decide (as_Status a = AgentStatusIdle))) l).
  assert (forall a, a ∈ any_order active <-> a ∈ l /\ as_Status a <> AgentStatusIdle) as Hact.
  { intros a. rewrite elem_of_any_order. unfold active. rewrite elem_of_where, negb_true_iff, bool_decide_eq_false. done. }
  assert (forall a b, a ∈ l -> b ∈ l -> as_ThreadID a = as_ThreadID b -> a = b) as Hinj.
  { intros a b [i Hi]%list_elem_of_lookup [j Hj]%list_elem_of_lookup E. assert (i = j) as ->; [|congruence].
    apply (NoDup_lookup (as_ThreadID <$> l) i j (as_ThreadID a)); [done|..]; rewrite list_lookup_fmap; [by rewrite Hi|by rewrite Hj, E]. }
  assert (exists c1, cdb ListActiveAgentStates c = (c1, Ok (any_order active)) /\ reconciled l [] c c1 []) as (c1 & E1 & Hrc).
  { unfold cdb, on_db, ListActiveAgentStates, query, statement. rewrite Hcalm. cbn. eexists. split; [reflexivity|].
    split; cbn; try done; try by intros x Hx%elem_of_nil.
    - unfold mark. rewrite <- (list_fmap_id (tb_agents _)). done.
    - intros lp Hlp. by left. }
  destruct (reconcile_rows Build Hcalm Hbuild l c c1 [] (any_order active) []) as (c2 & resets & E2 & [Ha _ Hr Hrows Hl]); [|done|].
  { cbn. unfold any_order. rewrite sort_slice_perm. by apply unique_where. }
  assert (out = (c2, Ok tt)) as -> by (unfold out, ReconcileOnBoot; rewrite E1; exact E2). cbn [fst snd app] in *.
  assert (forall id, id ∈ resets -> exists a, a ∈ l /\ as_ThreadID a = id /\ as_Status a <> AgentStatusIdle) as Hres.
  { intros id (a & -> & [Hin Hs]%Hact)%Hr%list_elem_of_fmap. by exists a. }
  split; [done|]. rewrite Ha. unfold mark. split; [|split].
  - intros a (a0 & -> & Hin)%list_elem_of_fmap. case_bool_decide as Hd; [done|]. intros Hs. split; [done|].
    destruct (Hrows a0) as [|(Hm & Hp & Hx)]; [by apply Hact|done|]. split; [by destruct (as_Status a0)|]. by split.
  - intros a Hin. destruct (decide (as_ThreadID a ∈ resets)) as [Hd|Hd].
    + right. split.
      * destruct (Hres _ Hd) as (b & Hb & Et & Hs). by rewrite (Hinj a b Hin Hb).
      * apply list_elem_of_fmap. exists a. by rewrite bool_decide_true.
    + left. apply list_elem_of_fmap. exists a. by rewrite bool_decide_false.
  - intros lp [|(st & [Hst Hs]%Hact & Et & Hn)]%Hl; [by left|right]. exists st. split; [|done].
    apply list_elem_of_fmap. exists st. by rewrite bool_decide_false.
Qed.

(** ** Three rows left by a crash *)
Module SampleControl.
#[local] Existing Instance calm_env.
#[local] Existing Instance SampleCodec.codec.

Definition agent (id : string) (status : AgentStatus) (mode : AgentMode) (limit : option string) : AgentState :=
  {| as_ThreadID := id; as_Status := status; as_Mode := mode; as_RoundCount := 7; as_StartedAt := Some 0; as_DurationLimit := limit |}.
Definition row (id : string) : ThreadRow :=
  {| t_id := id; t_name := ""; t_sandboxed := true; t_created_at := (0, 0); t_parent := None; t_branch := None; t_archived := None |}.
Definition tables : Tables :=
  set_threads (fun _ => [row "a"; row "b"; row "c"])
    (set_agents (fun _ => [agent "a" AgentStatusRunning AgentModeAutonomous (Some "1h");
                           agent "b" AgentStatusPaused AgentModeAutonomous (Some "1h");
                           agent "c" AgentStatusIdle AgentModeNormal None]) empty_tables).
Definition start : Control :=
  {| ct_ins := {| in_world := {| w_tables := tables; w_tick := 0 |}; in_embeds := [] |}; ct_registry := NewRegistry;
     ct_plans := ∅; ct_gates := ∅; ct_seq := ∅; ct_cancels := 0; ct_actions := []; ct_published := []; ct_loops := [] |}.
Definition build (id : string) : outcome Entry := Ok {| en_Runner := Some 5%nat; en_Cancel := None; en_ParentThreadID := "" |}.
Definition inserter : Inserter := {| chunkConfig := fun _ => Chunk.DefaultConfig; embedEnq := false |}.

Definition booted : Control * outcome unit := ReconcileOnBoot build start.

Definition agent_of_thread (id : string) (c : Control) : option AgentState := find (agent_of id) (tb_agents (ct_tables c)).

(** The clock of a later day. *)
Definition late_env : Env := {|
  e_fault := fun _ => None; e_now := fun n => 100 * Hour; e_ctx := fun _ => None; e_constraint := ENew "constraint failed"
|}.
End SampleControl.

Lemma ReconcileOnBoot_spec_witness :
  as_Status <$> tb_agents (ct_tables SampleControl.booted.1) = [AgentStatusRunning; AgentStatusIdle; AgentStatusIdle] /\
  (lp_ThreadID <$> ct_loops SampleControl.booted.1) = ["a"] /\ SampleControl.booted.2 = Ok tt.
Proof.
  split; [vm_compute; reflexivity|]. split; [vm_compute; reflexivity|].
  refine (proj1 (@ReconcileOnBoot_spec calm_env _ SampleControl.build SampleControl.start _ _ _ _)).
  - intros n. reflexivity.
  - intros id. apply settles_ok.
  - reflexivity.
  - repeat (apply NoDup_cons_2; [intros H; repeat (apply elem_of_cons in H as [H|H]; [discriminate H|]); by apply elem_of_nil in H|]).
    apply NoDup_nil_2.
Defined.

(** Resuming a thread that runs nothing, or whose budget has passed, marks it
    running although no loop is launched. *)
Example resume_without_loop :
  let out := ResumeAgent (env := calm_env) (codec := SampleCodec.codec) SampleControl.build SampleControl.inserter "c" None SampleControl.start in
  let late := ResumeAgent (env := SampleControl.late_env) (codec := SampleCodec.codec) SampleControl.build SampleControl.inserter "b" None
                SampleControl.start in
  out.2 = Ok true /\ (as_Status <$> SampleControl.agent_of_thread "c" out.1) = Some AgentStatusRunning /\ ct_loops out.1 = [] /\
  late.2 = Ok true /\ (as_Status <$> SampleControl.agent_of_thread "b" late.1) = Some AgentStatusRunning /\ ct_loops late.1 = [].
Proof. vm_compute. by repeat split. Qed.

(** The fourteen-day cap is not stored: a run of 400 hours gets 336, and after a
    restart more than that. *)
Example cap_lost_on_restart :
  let out := StartAutonomous (env := calm_env) SampleControl.build "c" "go" "400h" SampleControl.start in
  (lp_Duration <$> ct_loops out.1) = [336 * Hour] /\
  (RemainingBudget Hour <$> SampleControl.agent_of_thread "c" out.1) = Some (inl (399 * Hour)).
Proof. vm_compute. by split. Qed.

(** Approving a plan for an autonomous run keeps the old run's round count,
    start and limit, or leaves them missing. *)
Example approve_keeps_old_run :
  let out := ApprovePlan (env := calm_env) SampleControl.build "c" true SampleControl.start in
  (as_RoundCount <$> SampleControl.agent_of_thread "c" out.1) = Some 7 /\
  (RemainingBudget Hour <$> SampleControl.agent_of_thread "c" out.1) = Some (inr NoDurationLimit).
Proof. vm_compute. by split. Qed.
