(* ===== verification/ToolAgent.v ===== *)
(** * The runtime behind the tools ([service/runtime/toolagent.go]) and the
    retry indicator ([service/graph/resolver.go])

    What a tool's request becomes: an approval or a question that waits on a
    channel of the registry, a change of mode, a plan to show.  The other
    parties act on the registry while a request is being set up and while it
    waits; they are functions of the registry, and what ends the wait is an
    argument. *)

From Stdlib Require Import ZArith Lia String.
From S2P Require Import Prelude GoSort GoStrings GoChan Approvals Types Sql Storage Threads Inserter Registry Errors Retry Control Tools PbText.
#[local] Open Scope Z_scope.

(** [Result] and [IsError] are left empty here. *)
Record ToolExec := { te_ThreadID : string; te_CallID : string; te_ToolName : string; te_Arguments : string; te_Status : string }.

(** The approval registry and the published tool events. *)
Record Desk := { dk_reg : Approvals.Registry; dk_execs : list ToolExec }.

Definition publishTool (threadID callID toolName args status : string) (d : Desk) : Desk :=
  {| dk_reg := dk_reg d;
     dk_execs := dk_execs d ++ [{| te_ThreadID := threadID; te_CallID := callID; te_ToolName := toolName; te_Arguments := args; te_Status := status |}] |}.
Definition on_reg (f : Approvals.Registry -> Approvals.Registry) (d : Desk) : Desk := {| dk_reg := f (dk_reg d); dk_execs := dk_execs d |}.

(** What the select picks. *)
Inductive wake := CtxDone (e : goerr) | TimerFired | FromChannel.

(** ** Approval *)

(** [None] is a wait that goes on: the channel was picked and is empty.
    [before] is what the others do between the event and the registration,
    [during] what they do while the call waits. *)
Definition RequireApproval (threadID callID toolName argsJSON : string) (before during : Approvals.Registry -> Approvals.Registry) (w : wake)
    (d : Desk) : option (Desk * (bool + goerr)) :=
  let d := on_reg before (publishTool threadID callID toolName argsJSON "pending" d) in
  let '(reg, ch) := RegisterApproval (dk_reg d) callID threadID in
  let d := on_reg during {| dk_reg := reg; dk_execs := dk_execs d |} in
  let finish status r d := Some (on_reg (fun reg => UnregisterApproval reg callID) (publishTool threadID callID toolName argsJSON status d), r) in
  match w with
  | CtxDone e => finish "cancelled" (inr e) d
  | TimerFired => finish "timeout" (inr (ENew "tool approval timed out after 5 minutes")) d
  | FromChannel =>
      match recv ch (objs (approvals (dk_reg d))) with
      | (Got approved, h) =>
          finish (if approved then "approved" else "denied") (inl approved)
            (on_reg (fun reg => {| approvals := with_objs (approvals reg) h; answers := answers reg; threadIDs := threadIDs reg |}) d)
      | (Ended, h) => finish "denied" (inl false) d
      | (Blocked, _) => None
      end
  end.

(** ** Questions *)

Section Answers.

(** [json.Unmarshal] of an object of strings: [None] for an error or null. *)
Context (Unmarshal : string -> option (gmap string string)).

Definition blank_answers (questions : AskUserArgs) : gmap string string :=
  fold_left (fun out q => <[aq_Question q := ""]> out) questions ∅.

Definition parseAnswerPayload (raw : string) (questions : AskUserArgs) : gmap string string :=
  match Unmarshal raw with
  | Some asMap => fold_left (fun out q => <[aq_Question q := default "" (asMap !! aq_Question q)]> out) questions ∅
  | None =>
      match questions with
      | [] => ∅
      | q :: rest => fold_left (fun out q => <[aq_Question q := ""]> out) rest {[aq_Question q := raw]}
      end
  end.

Definition AskUser (threadID callID argsJSON : string) (args : AskUserArgs) (before during : Approvals.Registry -> Approvals.Registry) (w : wake)
    (d : Desk) : option (Desk * (gmap string string + goerr)) :=
  let d := on_reg before (publishTool threadID callID "AskUserQuestion" argsJSON "waiting_for_user" d) in
  let '(reg, ch) := RegisterAnswer (dk_reg d) callID in
  let d := on_reg during {| dk_reg := reg; dk_execs := dk_execs d |} in
  let finish status r d := Some (on_reg (fun reg => UnregisterAnswer reg callID) (publishTool threadID callID "AskUserQuestion" argsJSON status d), r) in
  match w with
  | CtxDone e => finish "cancelled" (inr e) d
  | TimerFired => finish "completed" (inl (blank_answers args)) d
  | FromChannel =>
      match recv ch (objs (answers (dk_reg d))) with
      | (Got raw, h) =>
          finish "completed" (inl (parseAnswerPayload raw args))
            (on_reg (fun reg => {| approvals := approvals reg; answers := with_objs (answers reg) h; threadIDs := threadIDs reg |}) d)
      | (Ended, h) => finish "completed" (inl (parseAnswerPayload "" args)) d
      | (Blocked, _) => None
      end
  end.

(** *** Every question is answered *)

Lemma fold_answers (f : AskUserQuestion -> string) (qs : AskUserArgs) (acc : gmap string string) k :
  fold_left (fun out q => <[aq_Question q := f q]> out) qs acc !! k =
    match last (List.filter (fun q => String.eqb (aq_Question q) k) qs) with
    | Some q => Some (f q)
    | None => acc !! k
    end.
Proof.
  revert acc. induction qs as [|q qs IH]; intros acc; [done|]. cbn [fold_left List.filter]. rewrite IH.
  destruct (String.eqb_spec (aq_Question q) k) as [->|Hne].
  - destruct (List.filter _ qs) as [|x l]; [by rewrite lookup_insert_eq|].
    change (last (q :: x :: l)) with (last (x :: l)). destruct (last (x :: l)) eqn:E; [done|]. by apply last_None in E.
  - destruct (last _); [done|]. by rewrite lookup_insert_ne.
Qed.

Lemma last_filter_some (qs : AskUserArgs) k : (exists q, q ∈ qs /\ aq_Question q = k) ->
  exists q, last (List.filter (fun q => String.eqb (aq_Question q) k) qs) = Some q /\ aq_Question q = k.
Proof.
  intros (q & Hq & Hk). destruct (last (List.filter _ qs)) as [x|] eqn:E.
  - exists x. split; [done|]. apply last_Some_elem_of, list_elem_of_In, filter_In in E as [_ E]. by apply String.eqb_eq.
  - apply last_None in E. exfalso. apply (not_elem_of_nil q). rewrite <- E. apply list_elem_of_In, filter_In.
    split; [by apply list_elem_of_In|by apply String.eqb_eq].
Qed.

Lemma last_filter_none (qs : AskUserArgs) k : ~ k ∈ aq_Question <$> qs -> List.filter (fun q => String.eqb (aq_Question q) k) qs = [].
Proof.
  intros Hk. destruct (List.filter _ qs) as [|x l] eqn:E; [done|]. destruct Hk.
  assert (x ∈ List.filter (fun q => String.eqb (aq_Question q) k) qs) as Hx by (rewrite E; by left).
  apply list_elem_of_In, filter_In in Hx as [Hx Hk]. apply String.eqb_eq in Hk as <-. by apply list_elem_of_fmap_2, list_elem_of_In.
Qed.

End Answers.

(** The model gets an answer to exactly the questions it asked: from an
    object of the user's each question's own entry, blank where there is none;
    from any other text that text for the first question and blanks for the
    rest. *)
Theorem parseAnswerPayload_complete (Unmarshal : string -> option (gmap string string)) (raw : string) (questions : AskUserArgs)
    (Hdistinct : NoDup (aq_Question <$> questions)) (k : string) :
  parseAnswerPayload Unmarshal raw questions !! k =
    if bool_decide (k ∈ aq_Question <$> questions)
    then Some (match Unmarshal raw with
               | Some m => default "" (m !! k)
               | None => if bool_decide (head (aq_Question <$> questions) = Some k) then raw else ""
               end)
    else None.
Proof.
  unfold parseAnswerPayload. destruct (Unmarshal raw) as [m|].
  - rewrite (fold_answers (fun q => default "" (m !! aq_Question q))). case_bool_decide as Hk.
    + assert (exists q, q ∈ questions /\ aq_Question q = k) as Hq by (apply list_elem_of_fmap in Hk as (q & -> & Hq); eauto).
      destruct (last_filter_some questions k Hq) as (q & -> & Hqk). by rewrite Hqk.
    + by rewrite last_filter_none.
  - destruct questions as [|q rest]; [done|]. rewrite (fold_answers (fun _ => "")). cbn [fmap list_fmap head] in *.
    apply NoDup_cons in Hdistinct as [Hnot Hnd]. case_bool_decide as Hk.
    + apply elem_of_cons in Hk as [->|Hk].
      * rewrite last_filter_none by done. simpl. rewrite lookup_singleton_eq. by rewrite bool_decide_eq_true_2.
      * assert (exists x, x ∈ rest /\ aq_Question x = k) as Hx by (apply list_elem_of_fmap in Hk as (x & -> & Hx); eauto).
        destruct (last_filter_some rest k Hx) as (x & -> & _).
        rewrite bool_decide_eq_false_2; [done|]. intros [= E]. by rewrite E in Hnot.
    + rewrite last_filter_none by (intros ?; apply Hk; by right). simpl. apply lookup_singleton_ne. intros E. apply Hk. rewrite E. by left.
Qed.

Lemma parseAnswerPayload_complete_witness :
  let q t := {| aq_Question := t; aq_Header := "h"; aq_Options := []; aq_MultiSelect := false |} in
  parseAnswerPayload (fun _ => None) "black" [q "Coffee?"; q "Tea?"] !! "Tea?" = Some "".
Proof.
  intros q. rewrite (parseAnswerPayload_complete (fun _ => None) "black" [q "Coffee?"; q "Tea?"]); [reflexivity|].
  apply (bool_decide_unpack _). vm_compute. exact I.
Defined.

(** C32: An approval is granted only by a verdict the registry received for
    this call while it waited: a cancelled context and a timeout are errors,
    an empty channel keeps the call waiting; the user's interface sees the
    pending event and then the one that says how it ended, and the call is no
    longer registered. *)
Theorem RequireApproval_decides (threadID callID toolName argsJSON : string) (before during : Approvals.Registry -> Approvals.Registry)
    (w : wake) (d d' : Desk) (r : bool + goerr)
    (Hrun : RequireApproval threadID callID toolName argsJSON before during w d = Some (d', r)) :
  let reg := RegisterApproval (before (dk_reg d)) callID threadID in
  let waiting := objs (approvals (during reg.1)) !! reg.2 in
  (r = inl true -> w = FromChannel /\ exists c rest, waiting = Some c /\ ch_buf c = true :: rest) /\
  (forall e, w = CtxDone e -> r = inr e) /\ (w = TimerFired -> exists e, r = inr e) /\
  pending (approvals (dk_reg d')) !! callID = None /\ threadIDs (dk_reg d') !! callID = None /\
  exists status, status ∈ ["cancelled"; "timeout"; "approved"; "denied"] /\ (status = "approved" <-> r = inl true) /\
    te_Status <$> dk_execs d' = (te_Status <$> dk_execs d) ++ ["pending"; status].
Proof.
  intros reg waiting. unfold RequireApproval in Hrun. cbn [on_reg publishTool dk_reg dk_execs] in Hrun.
  fold reg in Hrun. destruct reg as [reg0 ch] eqn:Er. cbn [fst snd dk_reg] in *.
  destruct w as [e| |].
  - injection Hrun as <- <-. split; [done|]. split; [by intros ? [= ->]|]. split; [done|]. cbn. rewrite !lookup_delete_eq.
    split; [done|]. split; [done|]. exists "cancelled". split; [set_solver|]. split; [done|]. by rewrite !fmap_app, <- app_assoc.
  - injection Hrun as <- <-. split; [done|]. split; [done|]. split; [by eexists|]. cbn. rewrite !lookup_delete_eq.
    split; [done|]. split; [done|]. exists "timeout". split; [set_solver|]. split; [done|]. by rewrite !fmap_app, <- app_assoc.
  - unfold recv in Hrun. cbn [on_reg dk_reg] in Hrun.
    change (objs (approvals (during reg0)) !! ch) with waiting in Hrun. destruct waiting as [c|] eqn:Ew; [|done].
    destruct (ch_buf c) as [|v rest] eqn:Eb.
    + destruct (ch_closed c); [|done]. injection Hrun as <- <-. split; [done|]. split; [done|]. split; [done|]. cbn. rewrite !lookup_delete_eq.
      split; [done|]. split; [done|]. exists "denied". split; [set_solver|]. split; [done|]. by rewrite !fmap_app, <- app_assoc.
    + injection Hrun as <- <-. split; [intros [= ->]; split; [done|by exists c, rest]|]. split; [done|]. split; [done|]. cbn. rewrite !lookup_delete_eq.
      split; [done|]. split; [done|]. exists (if v then "approved" else "denied"). split; [destruct v; set_solver|].
      split; [by destruct v|]. by rewrite !fmap_app, <- app_assoc.
Qed.

(** ** Samples *)
Module SampleApproval.
Definition desk : Desk := {| dk_reg := Approvals.New; dk_execs := [] |}.
(** The user's click, as the resolver sends it. *)
Definition click (v : bool) (r : Approvals.Registry) : Approvals.Registry :=
  match SendApproval r "c1" v with Ok (Some (r', _)) => r' | _ => r end.

(** A click that comes after the pending event and before the registration
    finds no call and is lost: the tool waits on. *)
Example early_click_lost : RequireApproval "t" "c1" "Bash" "{}" (click true) (fun r => r) FromChannel desk = None.
Proof. vm_compute. reflexivity. Qed.

Definition granted := RequireApproval "t" "c1" "Bash" "{}" (fun r => r) (click true) FromChannel desk.
End SampleApproval.

Lemma RequireApproval_decides_witness :
  match SampleApproval.granted with
  | Some (d', r) => r = inl true /\ pending (approvals (dk_reg d')) !! "c1" = None
  | None => False
  end.
Proof.
  destruct SampleApproval.granted as [[d' r]|] eqn:E; [|vm_compute in E; discriminate E].
  pose proof (RequireApproval_decides "t" "c1" "Bash" "{}" (fun r => r) (SampleApproval.click true) FromChannel SampleApproval.desk d' r E) as Hd.
  split; [|apply Hd]. vm_compute in E. by injection E as _ <-.
Defined.

(** ** Modes and plans *)

Section Mode.
Context {env : Env} {srt : SliceSort}.
#[local] Abbreviation M := (GoM Control).

Definition mode_of (mode : string) : AgentMode :=
  if String.eqb mode "plan" then AgentModePlan else if String.eqb mode "autonomous" then AgentModeAutonomous else AgentModeNormal.

Definition plan_ptr (content : string) : option string := if String.eqb content "" then None else Some content.

Definition publish_state (threadID : string) (status : AgentStatus) (mode : AgentMode) : M unit := fun c =>
  (add_update {| up_ThreadID := threadID; up_Status := status; up_Mode := mode; up_RoundCount := 0; up_DurationLimit := None;
                 up_PlanContent := plan_ptr (plans_Get threadID c) |} c, Ok tt).

Definition SetMode (threadID mode : string) : M unit :=
  _ ← cdb (SetAgentStatusAndMode threadID AgentStatusRunning (mode_of mode));
  publish_state threadID AgentStatusRunning (mode_of mode).

(** A state that cannot be read is not plan mode. *)
Definition IsPlanMode (threadID : string) : M bool := fun c =>
  match cdb (GetAgentState threadID) c with
  | (c', Ok st) => (c', Ok (bool_decide (as_Mode st = AgentModePlan)))
  | (c', Err _) => (c', Ok false)
  | (c', Panic p) => (c', Panic p)
  end.

Definition OnPlanContent (threadID content : string) : M unit := fun c =>
  publish_state threadID AgentStatusIdle AgentModePlan (plans_Set threadID content c).

(** ** The retry indicator *)

Record RetryStatus := { rt_Attempt : Z; rt_MaxAttempts : Z; rt_NextDelayMs : Z; rt_Final : bool; rt_Error : option string }.

(** The published state: what could be read of the agent's, and the retry. *)
Record RetryState := { rp_ThreadID : string; rp_State : option AgentState; rp_Retry : option RetryStatus }.

(** [None] for a retry that is over and went well.  An event that is neither
    final nor an error is not logged without a nil dereference. *)
Definition retry_status (attempt maxAttempts nextDelay : Z) (final : bool) (err : option goerr) : outcome (option RetryStatus) :=
  match final, err with
  | true, None => Ok None
  | false, None => Panic "nil pointer dereference"
  | _, Some e => Ok (Some {| rt_Attempt := attempt; rt_MaxAttempts := maxAttempts; rt_NextDelayMs := nextDelay `quot` 1000000;
                             rt_Final := final; rt_Error := Some (err_text e) |})
  end.

Definition publishRetryStatus (threadID : string) (attempt maxAttempts nextDelay : Z) (final : bool) (err : option goerr) : M RetryState := fun c =>
  match retry_status attempt maxAttempts nextDelay final err with
  | Ok rs =>
      match cdb (GetAgentState threadID) c with
      | (c', Panic p) => (c', Panic p)
      | (c', st) => (c', Ok {| rp_ThreadID := threadID; rp_State := match st with Ok st => Some st | _ => None end; rp_Retry := rs |})
      end
  | Err e => (c, Err e)
  | Panic p => (c, Panic p)
  end.

End Mode.

(** ** The approval resolvers ([service/graph/schema.tools.resolvers.go]) *)

(** [None] is a sender that blocks on the call's channel. *)
Definition verdict {A} (send : Approvals.Registry -> outcome (option (Approvals.Registry * A))) (found : A -> bool) (missing : goerr) (d : Desk)
    : outcome (option (Desk * (bool + goerr))) :=
  match send (dk_reg d) with
  | Ok (Some (reg, a)) => Ok (Some ({| dk_reg := reg; dk_execs := dk_execs d |}, if found a then inl true else inr missing))
  | Ok None => Ok None
  | Err e => Err e
  | Panic p => Panic p
  end.

Definition no_approval (callID : string) : goerr := ENew ("no pending approval for call " ^^ callID).
Definition ApproveToolCall (callID : string) : Desk -> outcome (option (Desk * (bool + goerr))) :=
  verdict (fun reg => SendApproval reg callID true) id (no_approval callID).
Definition AnswerQuestion (callID answer : string) : Desk -> outcome (option (Desk * (bool + goerr))) :=
  verdict (fun reg => SendAnswer reg callID answer) id (ENew ("no pending question for call " ^^ callID)).

Section Denial.
Context {env : Env} {srt : SliceSort} {codec : ProtoCodec} (Build : string -> outcome Entry) (inserter : Inserter).

(** The reason as a system message of the turn in flight, whose id
    [currentTurn] is; a failing store is ignored. *)
Definition deny_feedback (threadID reason currentTurn : string) : GoM Control unit :=
  runner ← get_runner Build ("denial feedback runner: build runner " ^^ threadID ^^ ": ") threadID;
  h ← the_runner runner;
  turn ← (if String.eqb currentTurn "" then n ← cdb now; mret ("turn-" ^^ threadID ^^ "-" ^^ itoa n) else mret currentTurn);
  n1 ← cdb now;
  position ← next_position threadID h;
  n2 ← cdb now;
  _ ← gom_catch (storeMessage inserter
    {| m_Id := "msg-" ^^ itoa n1; m_Role := ROLE_SYSTEM; m_Content := BlocksFromText ("Tool call denied by user. Reason: " ^^ reason);
       m_Position := position; m_ThreadId := threadID; m_CreatedAt := Some (timestamp_of n2); m_TurnId := turn |});
  mret tt.

(** The feedback comes first; where it fails the call is not denied. *)
Definition DenyToolCall (callID : string) (reason : option string) (currentTurn : string) (d : Desk) (c : Control)
    : Control * outcome (option (Desk * (bool + goerr))) :=
  let threadID := ThreadIDForCall (dk_reg d) callID in
  let text := default "" reason in
  let deny := verdict (fun reg => SendApproval reg callID false) id (no_approval callID) d in
  if String.eqb text "" || String.eqb threadID "" then (c, deny)
  else
    match deny_feedback threadID text currentTurn c with
    | (c', Ok _) => (c', deny)
    | (c', Err e) => (c', Ok (Some (d, inr e)))
    | (c', Panic p) => (c', Panic p)
    end.

End Denial.
