(* ===== verification/EngineConfig.v ===== *)
(** * Engine configuration ([rrc/config.go]) *)

From Stdlib Require Import ZArith Lia String.
From S2P Require Import Prelude GoFloat Chunk.

Record EngineConfig := {
  ScorerModelID : string;
  LossRatio : float;
  MinBatchStdDev : float;
  RerankTopK : Z;
  LocalContextSize : Z;
  cfg_Chunk : Config;
  ContextBudgetTokens : Z;
  BudgetHeadroomPct : float;
  PerMsgDelimiterTokens : Z
}.

(** [0.05] and [0.9] as float64 *)
Definition lit_0_05 : float := Eval vm_compute in f64_bits 0x3fa999999999999a.
Definition lit_0_90 : float := Eval vm_compute in f64_bits 0x3feccccccccccccd.

Definition DefaultConfig : EngineConfig := {|
  ScorerModelID := "";
  LossRatio := fhalf;
  MinBatchStdDev := lit_0_05;
  RerankTopK := 64;
  LocalContextSize := 10;
  cfg_Chunk := Chunk.DefaultConfig;
  ContextBudgetTokens := 150000;
  BudgetHeadroomPct := lit_0_90;
  PerMsgDelimiterTokens := 5
|}.
