(* ===== verification/Settings.v ===== *)
(** * Configuration ([service/config])

    The settings and the engine's wire schema, their validation, the file they
    are loaded from and saved to, the paths and the first-run probes.  The
    operating system and the network answer by tick; [encoding/json] is a
    parameter with the laws the loader relies on. *)

From Stdlib Require Import ZArith Lia String.
From S2P Require Import Prelude GoFloat GoStrings GoPath Errors EngineConfig Hooks.
#[local] Open Scope Z_scope.

(** ** The settings *)

Record ServerConfig := { ms_Name : string; ms_Endpoint : string; ms_Enabled : bool }.

Record ProviderConfig := {
  pc_Adapter : string;
  pc_Model : string;
  pc_BaseURL : string;
  pc_APIKey : string;
  pc_Options : gmap string string
}.

(** The wire schema of the engine's live knobs; [EngineConfig.EngineConfig] is
    the engine's own record. *)
Record EngineConfig := {
  ec_LossRatio : float;
  ec_MinBatchStdDev : float;
  ec_LocalContextSize : Z;
  ec_RerankTopK : Z;
  ec_ContextBudgetTokens : Z;
  ec_BudgetHeadroomPct : float;
  ec_PerMsgDelimiterTokens : Z
}.

Definition zero_engine : EngineConfig :=
  {| ec_LossRatio := f0; ec_MinBatchStdDev := f0; ec_LocalContextSize := 0; ec_RerankTopK := 0; ec_ContextBudgetTokens := 0;
     ec_BudgetHeadroomPct := f0; ec_PerMsgDelimiterTokens := 0 |}.

#[export] Instance EngineConfig_eq_dec : EqDecision EngineConfig.
Proof. solve_decision. Defined.

(** Go's [==] on the struct. *)
Definition engine_eqb (a b : EngineConfig) : bool :=
  feq (ec_LossRatio a) (ec_LossRatio b) && feq (ec_MinBatchStdDev a) (ec_MinBatchStdDev b) &&
  (ec_LocalContextSize a =? ec_LocalContextSize b) && (ec_RerankTopK a =? ec_RerankTopK b) &&
  (ec_ContextBudgetTokens a =? ec_ContextBudgetTokens b) && feq (ec_BudgetHeadroomPct a) (ec_BudgetHeadroomPct b) &&
  (ec_PerMsgDelimiterTokens a =? ec_PerMsgDelimiterTokens b).

Record Settings := {
  st_Providers : gmap string ProviderConfig;
  st_Permissions : gmap string string;
  st_MCPServers : list ServerConfig;
  st_Hooks : list HookConfig;
  st_Preferences : gmap string string;
  st_Engine : EngineConfig
}.

Definition with_Providers (p : gmap string ProviderConfig) (s : Settings) : Settings :=
  {| st_Providers := p; st_Permissions := st_Permissions s; st_MCPServers := st_MCPServers s; st_Hooks := st_Hooks s;
     st_Preferences := st_Preferences s; st_Engine := st_Engine s |}.
Definition with_Engine (e : EngineConfig) (s : Settings) : Settings :=
  {| st_Providers := st_Providers s; st_Permissions := st_Permissions s; st_MCPServers := st_MCPServers s; st_Hooks := st_Hooks s;
     st_Preferences := st_Preferences s; st_Engine := e |}.

(** ** The engine's knobs *)

Definition Validate (e : EngineConfig) : option goerr :=
  if flt (ec_MinBatchStdDev e) f0 || (ec_LocalContextSize e <=? 0) || (ec_RerankTopK e <=? 0) || (ec_ContextBudgetTokens e <? 0) ||
     flt (ec_BudgetHeadroomPct e) f0 || flt f1 (ec_BudgetHeadroomPct e) || flt (ec_LossRatio e) f0 || flt f1 (ec_LossRatio e) ||
     (ec_PerMsgDelimiterTokens e <? 0)
  then Some (ENew "engine config: Local Context size and top-K must be positive; other values cannot be negative; headroom and loss_ratio must be in [0,1]")
  else None.

Definition ApplyTo (e : EngineConfig) (base : EngineConfig.EngineConfig) : EngineConfig.EngineConfig :=
  {| ScorerModelID := ScorerModelID base;
     LossRatio := if flt f0 (ec_LossRatio e) then ec_LossRatio e else LossRatio base;
     MinBatchStdDev := ec_MinBatchStdDev e;
     RerankTopK := ec_RerankTopK e;
     LocalContextSize := ec_LocalContextSize e;
     cfg_Chunk := cfg_Chunk base;
     ContextBudgetTokens := ec_ContextBudgetTokens e;
     BudgetHeadroomPct := ec_BudgetHeadroomPct e;
     PerMsgDelimiterTokens := ec_PerMsgDelimiterTokens e |}.

Definition EngineConfigFromRRC (ec : EngineConfig.EngineConfig) : EngineConfig :=
  {| ec_LossRatio := LossRatio ec; ec_MinBatchStdDev := MinBatchStdDev ec; ec_LocalContextSize := LocalContextSize ec;
     ec_RerankTopK := RerankTopK ec; ec_ContextBudgetTokens := ContextBudgetTokens ec; ec_BudgetHeadroomPct := BudgetHeadroomPct ec;
     ec_PerMsgDelimiterTokens := PerMsgDelimiterTokens ec |}.

(** ** Decoding *)

(** [encoding/json]: an object as a map of raw values ([null] gives an empty
    one) and back; the engine object read with unknown fields refused; a
    settings document read the same way, with the engine's [UnmarshalJSON] on
    the value of its engine field; and the indented document. *)
Class SettingsJson := {
  Unmarshal_fields : string -> gmap string string + goerr;
  Marshal_fields : gmap string string -> string + goerr;
  Decode_engine : string -> EngineConfig + goerr;
  Decode_settings : (string -> EngineConfig + goerr) -> string -> Settings + goerr;
  MarshalIndent_settings : Settings -> string + goerr
}.

Definition required : list string :=
  ["min_batch_stddev"; "local_context_size"; "rerank_top_k"; "context_budget_tokens"; "budget_headroom_pct"; "per_msg_delimiter_tokens"].

(** The first required key a map lacks. *)
Definition missing (fields : gmap string string) : option string :=
  find (fun key => match fields !! key with None => true | Some _ => false end) required.

Section Config.
Context `{!SettingsJson}.

Definition UnmarshalJSON (data : string) : EngineConfig + goerr :=
  match Unmarshal_fields data with
  | inr e => inr e
  | inl fields =>
      let fields := delete "diversity_lambda" fields in
      match Marshal_fields fields with
      | inr e => inr e
      | inl cleaned =>
          match Decode_engine cleaned with
          | inr e => inr e
          | inl decoded =>
              match missing fields with
              | Some key => inr (ENew ("engine config missing required field " ^^ quoted key))
              | None => match Validate decoded with Some e => inr e | None => inl decoded end
              end
          end
      end
  end.

(** ** The host *)

(** How a write of a whole file ends: refused before it is opened, or after
    the file was truncated, with some of the data in it. *)
Inductive written := WriteDone | WriteRefused (e : goerr) | WriteTorn (e : goerr) (left : string).

Class Os := {
  os_Getenv : string -> string;
  os_UserHomeDir : string;
  os_MkdirAll : nat -> string -> option goerr;
  os_ReadFile : nat -> string -> option goerr;
  os_WriteFile : nat -> string -> written;
  http_Get : nat -> string -> option Z;
  keyring_Get : string -> string
}.

Record Host := { ho_files : gmap string string; ho_tick : nat }.

Context `{!Os}.
#[local] Abbreviation M := (GoM Host).

Definition host_tick : M nat := fun h => ({| ho_files := ho_files h; ho_tick := S (ho_tick h) |}, Ok (ho_tick h)).
Definition put_file (path data : string) : M unit := fun h => ({| ho_files := <[path := data]> (ho_files h); ho_tick := ho_tick h |}, Ok tt).

Definition mkdir (dir : string) : M unit := n ← host_tick; match os_MkdirAll n dir with Some e => gom_err e | None => mret tt end.

(** The content, or nothing where there is no file. *)
Definition read_config (path : string) : M (option string) :=
  n ← host_tick;
  match os_ReadFile n path with
  | Some e => gom_err e
  | None => h ← gom_get; mret (ho_files h !! path)
  end.

Definition write_config (path data : string) : M unit :=
  n ← host_tick;
  match os_WriteFile n path with
  | WriteDone => put_file path data
  | WriteRefused e => gom_err e
  | WriteTorn e l => _ ← put_file path l; gom_err e
  end.

(** ** Paths *)

Record Paths := { pa_ConfigDir : string; pa_DataDir : string; pa_CacheDir : string }.
Record Config := { cf_Paths : Paths; cf_Settings : Settings }.

Definition xdg (var : string) (under_home : list string) : string :=
  Join [if String.eqb (os_Getenv var) "" then Join (os_UserHomeDir :: under_home) else os_Getenv var; "grudge"].

Definition resolvePaths : Paths :=
  {| pa_ConfigDir := xdg "XDG_CONFIG_HOME" [".config"];
     pa_DataDir := xdg "XDG_DATA_HOME" [".local"; "share"];
     pa_CacheDir := xdg "XDG_CACHE_HOME" [".cache"] |}.

(** ** Names and keys *)

Definition GetUserName (s : Settings) : string :=
  let name := trim_space (default "" (st_Preferences s !! "name")) in
  if negb (String.eqb name "") then name
  else if negb (String.eqb (os_Getenv "USER") "") then os_Getenv "USER"
  else if negb (String.eqb (os_Getenv "USERNAME") "") then os_Getenv "USERNAME"
  else "User".

(** [core.ProviderConfig] has the same fields. *)
Definition ToCore (p : ProviderConfig) : ProviderConfig :=
  {| pc_Adapter := pc_Adapter p; pc_Model := pc_Model p; pc_BaseURL := pc_BaseURL p;
     pc_APIKey := if String.eqb (pc_APIKey p) "" then keyring_Get (pc_Adapter p) else pc_APIKey p;
     pc_Options := pc_Options p |}.

(** ** First run *)

Definition probeHTTP (url : string) : M bool :=
  n ← host_tick; mret (match http_Get n url with Some status => status <? 500 | None => false end).

Definition local_provider (adapter model url : string) : ProviderConfig :=
  {| pc_Adapter := adapter; pc_Model := model; pc_BaseURL := url; pc_APIKey := ""; pc_Options := ∅ |}.

Definition probe (url role : string) (p : ProviderConfig) (s : Settings) : M Settings :=
  up ← probeHTTP url; mret (if (up : bool) then with_Providers (<[role := p]> (st_Providers s)) s else s).

Definition probeProviders (s : Settings) : M Settings :=
  s ← probe "http://localhost:11434/api/tags" "main" (local_provider "ollama" "" "http://localhost:11434") s;
  s ← probe "http://localhost:8000/v1/models" "scorer" (local_provider "zerank" "zeroentropy/zerank-1-small" "http://localhost:8000") s;
  s ← probe "http://localhost:8080/health" "embedder" (local_provider "tei" "Qwen/Qwen3-Embedding-0.6B" "http://localhost:8080") s;
  probe "http://localhost:8888/" "search" (local_provider "searxng" "" "http://localhost:8888") s.

Definition default_engine : EngineConfig :=
  {| ec_LossRatio := f0; ec_MinBatchStdDev := lit_0_05; ec_LocalContextSize := 10; ec_RerankTopK := 64; ec_ContextBudgetTokens := 150000;
     ec_BudgetHeadroomPct := lit_0_90; ec_PerMsgDelimiterTokens := 5 |}.

Definition fresh_settings : Settings :=
  {| st_Providers := ∅;
     st_Permissions := list_to_map [("FileRead", "allow"); ("Glob", "allow"); ("Grep", "allow"); ("WebSearch", "allow");
                                    ("WebFetch", "allow"); ("FileEdit", "ask"); ("FileWrite", "ask"); ("Bash", "ask")];
     st_MCPServers := []; st_Hooks := []; st_Preferences := ∅; st_Engine := default_engine |}.

Definition defaultSettings : M Settings := probeProviders fresh_settings.

(** ** Loading and saving *)

Definition settingsPath (p : Paths) : string := Join [pa_ConfigDir p; "config.json"].

(** The document: every field known, and an engine block there. *)
Definition parse_settings (data : string) : Settings + goerr :=
  match Decode_settings UnmarshalJSON data with
  | inr e => inr e
  | inl s =>
      match Unmarshal_fields data with
      | inr e => inr e
      | inl topLevel =>
          match topLevel !! "engine" with
          | None => inr (ENew ("settings missing required field " ^^ quoted "engine"))
          | Some _ => inl s
          end
      end
  end.

Definition load_settings (paths : Paths) : M Config :=
  data ← read_config (settingsPath paths);
  match data with
  | None => s ← defaultSettings; mret {| cf_Paths := paths; cf_Settings := s |}
  | Some data =>
      match parse_settings data with
      | inr e => gom_err e
      | inl s => mret {| cf_Paths := paths; cf_Settings := s |}
      end
  end.

Definition Load : M Config :=
  let paths := resolvePaths in
  _ ← foldM (fun _ dir => mkdir dir) tt [pa_ConfigDir paths; pa_DataDir paths; pa_CacheDir paths];
  load_settings paths.

Definition Save (c : Config) : M unit :=
  match MarshalIndent_settings (cf_Settings c) with
  | inr e => gom_err e
  | inl data => write_config (settingsPath (cf_Paths c)) data
  end.
(** ** What loading and saving promise *)

(** The wire keys, as [MarshalIndent] writes them. *)
Definition wire_keys : list string := "loss_ratio" :: required.

(** [raw] is what the encoder writes for an engine block. *)
Definition engine_encoded (raw : string) (e : EngineConfig) : Prop := exists fields cleaned,
  Unmarshal_fields raw = inl fields /\ dom fields = (list_to_set wire_keys : gset string) /\
  Marshal_fields fields = inl cleaned /\ Decode_engine cleaned = inl e.

(** A decoded document with an engine field has what the engine's own decoder
    made of a value of it.  An encoded document has an engine field; decoding
    gives that block exactly, and all of it when its texts are valid UTF-8
    ([json_exact]). *)
Class SettingsJsonLaws := {
  json_exact : Settings -> Prop;
  settings_engine : forall um data s fields, Decode_settings um data = inl s -> Unmarshal_fields data = inl fields ->
    is_Some (fields !! "engine") -> exists raw, um raw = inl (st_Engine s);
  settings_encoded : forall s data, MarshalIndent_settings s = inl data ->
    exists fields raw, Unmarshal_fields data = inl fields /\ fields !! "engine" = Some raw /\ engine_encoded raw (st_Engine s) /\
      forall um, um raw = inl (st_Engine s) ->
        exists s', Decode_settings um data = inl s' /\ st_Engine s' = st_Engine s /\ (json_exact s -> s' = s)
}.

Lemma UnmarshalJSON_valid data e : UnmarshalJSON data = inl e -> Validate e = None.
Proof.
  unfold UnmarshalJSON. destruct (Unmarshal_fields data) as [fields|]; [|done]. destruct (Marshal_fields _) as [cleaned|]; [|done].
  destruct (Decode_engine cleaned) as [decoded|]; [|done]. destruct (missing _); [done|].
  destruct (Validate decoded) eqn:E; [done|]. by intros [= <-].
Qed.

Lemma missing_none fields : (forall key, key ∈ required -> is_Some (fields !! key)) -> missing fields = None.
Proof.
  intros Hall. unfold missing. destruct (find _ required) as [key|] eqn:E; [|done].
  apply find_some in E as [Hin E]. apply list_elem_of_In in Hin. destruct (Hall key Hin) as [x Hx]. by rewrite Hx in E.
Qed.

Lemma UnmarshalJSON_encoded raw e : engine_encoded raw e -> Validate e = None -> UnmarshalJSON raw = inl e.
Proof.
  intros (fields & cleaned & Hf & Hd & Hm & He) Hv. unfold UnmarshalJSON. rewrite Hf.
  assert (delete "diversity_lambda" fields = fields) as ->.
  { apply delete_id, not_elem_of_dom. rewrite Hd. intros Hin. apply elem_of_list_to_set in Hin. by vm_compute in Hin; repeat (apply elem_of_cons in Hin as [Hin|Hin]; [discriminate Hin|]); apply elem_of_nil in Hin. }
  rewrite Hm, He, missing_none; [by rewrite Hv|].
  intros key Hk. apply elem_of_dom. rewrite Hd. apply elem_of_list_to_set. by right.
Qed.

Lemma parse_valid `{!SettingsJsonLaws} data s : parse_settings data = inl s -> Validate (st_Engine s) = None.
Proof.
  unfold parse_settings. destruct (Decode_settings UnmarshalJSON data) as [s0|] eqn:Ed; [|done].
  destruct (Unmarshal_fields data) as [fields|] eqn:Ef; [|done]. destruct (fields !! "engine") eqn:Ee; [|done]. intros [= <-].
  destruct (settings_engine _ _ _ _ Ed Ef ltac:(by eexists)) as (raw & Hr). by eapply UnmarshalJSON_valid.
Qed.

Lemma parse_encoded `{!SettingsJsonLaws} s data : MarshalIndent_settings s = inl data -> Validate (st_Engine s) = None ->
  exists s', parse_settings data = inl s' /\ st_Engine s' = st_Engine s /\ (json_exact s -> s' = s).
Proof.
  intros (fields & raw & Hf & He & Henc & Hdec)%settings_encoded Hv.
  destruct (Hdec UnmarshalJSON (UnmarshalJSON_encoded _ _ Henc Hv)) as (s' & Hs & Hsame & Hexact).
  exists s'. unfold parse_settings. by rewrite Hs, Hf, He.
Qed.

Lemma mkdirs_files dirs h : let out := foldM (M := M) (fun _ dir => mkdir dir) tt dirs h in
  ho_files out.1 = ho_files h /\ match out.2 with Ok _ => True | Err e => exists n dir, os_MkdirAll n dir = Some e | Panic _ => False end.
Proof.
  revert h. induction dirs as [|dir dirs IH]; intros h; [done|]. cbn [foldM]. unfold mkdir, mbind, gom_bind, host_tick.
  destruct (os_MkdirAll (ho_tick h) dir) as [e|] eqn:E; [split; [done|]; cbn; eauto|].
  exact (IH {| ho_files := ho_files h; ho_tick := S (ho_tick h) |}).
Qed.

Lemma probe_engine url role p s h : exists h' s', probe url role p s h = (h', Ok s') /\ st_Engine s' = st_Engine s /\ ho_files h' = ho_files h.
Proof.
  unfold probe, probeHTTP, host_tick, mbind, gom_bind, mret, gom_ret. eexists _, _. split; [reflexivity|]. split; [|done].
  by destruct (match http_Get _ _ with Some _ => _ | None => _ end).
Qed.

Lemma defaultSettings_engine h : exists h' s, defaultSettings h = (h', Ok s) /\ st_Engine s = default_engine /\ ho_files h' = ho_files h.
Proof.
  unfold defaultSettings, probeProviders.
  repeat match goal with
  | |- context [@mbind ?M ?B _ _ ?f (probe ?u ?r ?p ?s) ?h] =>
      let E := fresh "E" in destruct (probe_engine u r p s h) as (? & ? & E & ? & ?); rewrite (bind_ok _ f _ _ _ E); clear E
  | |- exists h' s', probe ?u ?r ?p ?s ?h = _ /\ _ => destruct (probe_engine u r p s h) as (? & ? & -> & ? & ?)
  end.
  eexists _, _. split; [reflexivity|]. split; [|congruence]. change default_engine with (st_Engine fresh_settings). congruence.
Qed.

(** What [Load] answers, by what is in the file. *)
Lemma Load_cases h : let out := Load h in
  ho_files out.1 = ho_files h /\
  match out.2 with
  | Ok c => cf_Paths c = resolvePaths /\
      match ho_files h !! settingsPath resolvePaths with
      | None => st_Engine (cf_Settings c) = default_engine
      | Some data => parse_settings data = inl (cf_Settings c)
      end
  | Err e => (exists n dir, os_MkdirAll n dir = Some e) \/ (exists n, os_ReadFile n (settingsPath resolvePaths) = Some e) \/
      exists data, ho_files h !! settingsPath resolvePaths = Some data /\ parse_settings data = inr e
  | Panic _ => False
  end.
Proof.
  pose proof (mkdirs_files [pa_ConfigDir resolvePaths; pa_DataDir resolvePaths; pa_CacheDir resolvePaths] h) as [Hf Hr].
  unfold Load. cbn zeta. set (dirs := foldM (M := M) _ _ _) in *. unfold mbind, gom_bind.
  destruct (dirs h) as [h1 [[]|e|p]]; cbn [fst snd] in *; [|by split; [|left]|done].
  unfold load_settings, read_config, mbind, gom_bind, host_tick, gom_err, gom_get, mret, gom_ret.
  destruct (os_ReadFile (ho_tick h1) _) as [e|] eqn:Er; [cbn; split; [done|]; right; left; by eexists|]. cbn [fst snd ho_files]. rewrite Hf.
  destruct (ho_files h !! settingsPath resolvePaths) as [data|] eqn:Ed.
  - destruct (parse_settings data) as [s|e] eqn:Ep; cbn; (split; [done|]); [done|]. right. right. by eexists.
  - edestruct defaultSettings_engine as (h2 & s & -> & Hs & Hf2). cbn. split; [by rewrite Hf2|]. done.
Qed.

(** What [Save] leaves in the file. *)
Lemma Save_cases c h : let out := Save c h in
  match out.2 with
  | Ok _ => exists data, MarshalIndent_settings (cf_Settings c) = inl data /\ ho_files out.1 = <[settingsPath (cf_Paths c) := data]> (ho_files h)
  | Err e => ho_files out.1 = ho_files h \/
      exists n l, os_WriteFile n (settingsPath (cf_Paths c)) = WriteTorn e l /\ ho_files out.1 = <[settingsPath (cf_Paths c) := l]> (ho_files h)
  | Panic _ => False
  end.
Proof.
  unfold Save. destruct (MarshalIndent_settings _) as [data|e] eqn:Em; [|by left].
  unfold write_config, mbind, gom_bind, host_tick. destruct (os_WriteFile (ho_tick h) _) eqn:Ew; cbn; [by exists data|by left|].
  right. by exists (ho_tick h), left.
Qed.

Lemma Save_saved c h h' : Save c h = (h', Ok tt) ->
  exists data, MarshalIndent_settings (cf_Settings c) = inl data /\ ho_files h' = <[settingsPath (cf_Paths c) := data]> (ho_files h).
Proof. intros E. pose proof (Save_cases c h) as Hs. by rewrite E in Hs. Qed.

End Config.

(** Whatever is on disk, a configuration that loads has a valid engine
    block: sizes positive, the other knobs not negative, headroom and loss
    ratio at most one; loading never panics and writes nothing. *)
Theorem Load_valid `{!SettingsJson, !SettingsJsonLaws, !Os} (h : Host) :
  match Load h with
  | (h', Ok c) => Validate (st_Engine (cf_Settings c)) = None /\ ho_files h' = ho_files h
  | (h', Err _) => ho_files h' = ho_files h
  | (_, Panic _) => False
  end.
Proof.
  pose proof (Load_cases h) as [Hf Hr]. destruct (Load h) as [h' [c|e|p]]; cbn [fst snd] in *; [|done..]. split; [|done].
  destruct Hr as [_ Hr]. destruct (ho_files h !! _) as [data|]; [by eapply parse_valid|]. by rewrite Hr.
Qed.


(** ** A small codec *)
Module SampleConfig.
#[local] Open Scope string_scope.

(** The document [S] holds the fresh settings, and [E] their engine block. *)
Definition all_keys : gmap string string := list_to_map ((fun k => (k, "0")) <$> wire_keys).

#[export] Instance json : SettingsJson := {|
  Unmarshal_fields := fun data =>
    if String.eqb data "S" then inl {["engine" := "E"]} else if String.eqb data "E" then inl all_keys else inr (ENew "invalid character");
  Marshal_fields := fun fields => if bool_decide (fields = all_keys) then inl "E" else inl "?";
  Decode_engine := fun cleaned => if String.eqb cleaned "E" then inl default_engine else inr (ENew "json: unknown field");
  Decode_settings := fun um data =>
    if String.eqb data "S" then match um "E" with inl e => inl (with_Engine e fresh_settings) | inr e => inr e end
    else inr (ENew "invalid character");
  MarshalIndent_settings := fun s => if bool_decide (st_Engine s = default_engine) then inl "S" else inr (ENew "unsupported value")
|}.

#[export] Instance json_laws : SettingsJsonLaws.
Proof.
  refine {| json_exact := fun s => s = fresh_settings |}.
  - intros um data s fields. cbn. destruct (String.eqb data "S"); [|done]. destruct (um "E") as [e|] eqn:E; [|done].
    intros [= <-] _ _. by exists "E".
  - intros s data. cbn. case_bool_decide as He; [|done]. intros [= <-]. exists {["engine" := "E"]}, "E".
    split; [done|]. split; [done|]. split.
    + exists all_keys, "E". rewrite He. split; [done|]. split; [unfold all_keys; by rewrite dom_list_to_map_L|]. split; [by vm_compute|done].
    + intros um Hum. cbn. rewrite Hum. eexists. split; [reflexivity|]. split; [done|]. by intros ->.
Defined.

#[export] Instance os : Os := {|
  os_Getenv := fun v => if String.eqb v "USER" then "ann" else ""; os_UserHomeDir := "/home/ann";
  os_MkdirAll := fun _ _ => None; os_ReadFile := fun _ _ => None;
  os_WriteFile := fun n _ => if Nat.eqb n 9 then WriteTorn (ENew "no space left on device") "" else WriteDone;
  http_Get := fun _ url => if has_prefix url "http://localhost:8080" then Some 200 else None;
  keyring_Get := fun _ => "key"
|}.

Definition empty : Host := {| ho_files := ∅; ho_tick := 0 |}.
Definition config : Config := {| cf_Paths := resolvePaths; cf_Settings := fresh_settings |}.

Example first_run : (fun c => (map_to_list (pc_Adapter <$> st_Providers (cf_Settings c)), settingsPath (cf_Paths c), GetUserName (cf_Settings c)))
  <$> (Load empty).2 = Ok ([("embedder", "tei")], "/home/ann/.config/grudge/config.json", "ann").
Proof. vm_compute. reflexivity. Qed.

(** A save that fails half way leaves a file no later start can read. *)
Example torn_save : let h := (Save config {| ho_files := {[settingsPath resolvePaths := "S"]}; ho_tick := 9 |}).1 in
  (Load h).2 = Err (ENew "invalid character").
Proof. vm_compute. reflexivity. Qed.
End SampleConfig.
#[local] Existing Instances SampleConfig.json SampleConfig.json_laws SampleConfig.os.

Lemma Load_valid_witness : exists h' c, Load SampleConfig.empty = (h', Ok c) /\ Validate (st_Engine (cf_Settings c)) = None.
Proof.
  pose proof (Load_valid SampleConfig.empty) as H. destruct (Load SampleConfig.empty) as [h' [c|e|p]] eqn:E.
  - exists h', c. by destruct H.
  - exfalso. vm_compute in E. discriminate E.
  - destruct H.
Defined.

