(* ===== verification/GenaiKit.v ===== *)
(** * The Google adapters ([core/adapter/internal/genaikit], [vertex], [googleai])

    The completer, the embedder and the counting projection that the two
    adapters of the genai SDK share, and how the two are constructed.  The SDK
    is a parameter: what its calls answer to the contents and the
    configuration they are given, and the values of its constants. *)

From Stdlib Require Import ZArith Lia String Ascii.
From S2P Require Import Prelude GoFloat GoSort GoStrings Types Genai Scorers Protocol Settings Llm.
#[local] Open Scope nat_scope.

Section GenaiKit.
(** [Schema] is a decoded JSON value of any type, [Client] the SDK's client. *)
Context {J Schema Client : Type} `{Json J} (Unmarshal_schema : string -> Schema + goerr)
  (FinishReasonStop FinishReasonMaxTokens : string).

(** ** What goes to the SDK and comes back *)

Inductive FunctionCallingConfigMode :=
  | FunctionCallingConfigModeAuto | FunctionCallingConfigModeNone | FunctionCallingConfigModeAny.

Record ToolConfig := { tcf_Mode : FunctionCallingConfigMode; tcf_AllowedFunctionNames : list string }.
Record Declaration := { gd_Name : string; gd_Description : string; gd_ParametersJsonSchema : option Schema }.

Record GenerateContentConfig := {
  gg_SystemInstruction : option (Content (J := J));
  gg_MaxOutputTokens : Z;
  gg_Temperature : option float;
  gg_TopP : option float;
  gg_StopSequences : list string;
  gg_Tools : option (list Declaration);
  gg_ToolConfig : option ToolConfig
}.

Record Candidate := { cn_Content : option (Content (J := J)); cn_FinishReason : string }.
Record UsageMetadata := { um_PromptTokenCount : Z; um_CandidatesTokenCount : Z }.
Record GenerateContentResponse := { gr_Candidates : list Candidate; gr_UsageMetadata : option UsageMetadata }.

Context (GenerateContent : list (Content (J := J)) -> GenerateContentConfig -> GenerateContentResponse + goerr)
  (GenerateContentStream : list (Content (J := J)) -> GenerateContentConfig -> list (GenerateContentResponse + goerr))
  (Model Name : string).

(** ** The request ([encode.go]) *)

Definition declaration (t : ToolDeclaration) : Declaration :=
  {| gd_Name := td_Name t; gd_Description := td_Description t;
     gd_ParametersJsonSchema :=
       if String.eqb (td_ParametersJson t) "" then None
       else match Unmarshal_schema (td_ParametersJson t) with inl schema => Some schema | inr _ => None end |}.

(** [TOOL_CHOICE_MODE_*] has no other value in the proto file. *)
Definition toToolConfig (tc : option ToolChoice) : outcome (option ToolConfig) :=
  match tc with
  | None => Ok None
  | Some tc =>
      let config mode names := Ok (Some {| tcf_Mode := mode; tcf_AllowedFunctionNames := names |}) in
      match tch_Mode tc with
      | TOOL_CHOICE_MODE_UNSPECIFIED => Ok None
      | TOOL_CHOICE_MODE_AUTO => config FunctionCallingConfigModeAuto []
      | TOOL_CHOICE_MODE_NONE => config FunctionCallingConfigModeNone []
      | TOOL_CHOICE_MODE_REQUIRED => config FunctionCallingConfigModeAny []
      | TOOL_CHOICE_MODE_NAMED =>
          if String.eqb (tch_NamedTool tc) "" then Err (ENew "tool_choice NAMED requires a non-empty named_tool")
          else config FunctionCallingConfigModeAny [tch_NamedTool tc]
      end
  end.

Definition is_system (m : LLMMessage) : bool := bool_decide (lm_Role m = ROLE_SYSTEM).

(** The loop over the messages: turns in order, the system message apart. *)
Definition hoist (msgs : list LLMMessage) : list (Content (J := J)) * option (Content (J := J)) :=
  fold_left (fun '(contents, system) m =>
    if is_system m then (contents, Some (ProtoToContent m)) else (contents ++ [ProtoToContent m], system)) msgs ([], None).

Definition encode (req : CompletionRequest) : outcome (list (Content (J := J)) * GenerateContentConfig) :=
  let '(contents, system) := hoist (cq_Messages req) in
  match toToolConfig (cq_ToolChoice req) with
  | Err e => Err (EWrap (Name ^^ ": ") e "")
  | Panic s => Panic s
  | Ok toolConfig =>
      Ok (contents,
        {| gg_SystemInstruction := system; gg_MaxOutputTokens := default 0%Z (cq_MaxTokens req);
           gg_Temperature := cq_Temperature req; gg_TopP := cq_TopP req; gg_StopSequences := cq_Stop req;
           gg_Tools := match cq_Tools req with [] => None | tools => Some (declaration <$> tools) end;
           gg_ToolConfig := toolConfig |})
  end.

(** ** The response ([completer.go]) *)

Definition normalizeFinish (fr : string) : string :=
  if String.eqb fr FinishReasonStop then "stop" else if String.eqb fr FinishReasonMaxTokens then "length" else fr.

Definition synthCallID (id name : string) : string := if String.eqb id "" then "genai-call-" ^^ name else id.

Definition usage_of (u : UsageMetadata) : Usage :=
  {| PromptTokens := um_PromptTokenCount u; CompletionTokens := um_CandidatesTokenCount u |}.

Definition partToChunk (p : Part (J := J)) : option Delta :=
  if (negb (String.eqb (pt_Text p) "") || negb (String.eqb (pt_ThoughtSignature p) "")) && pt_Thought p
  then Some (DThinking {| th_Text := pt_Text p; th_Signature := pt_ThoughtSignature p |})
  else if negb (String.eqb (pt_Text p) "") then Some (DText {| tx_Text := pt_Text p |})
  else match pt_FunctionCall p with
       | Some fc => Some (DToolCall {| tc_Id := synthCallID (fc_ID fc) (fc_Name fc); tc_Name := fc_Name fc;
                                       tc_Arguments := marshal_or "{}" (fc_Args fc); tc_Signature := pt_ThoughtSignature p |})
       | None => None
       end.

Definition candidate_chunks (c : Candidate) : list Delta :=
  match cn_Content c with None => [] | Some content => omap partToChunk (ct_Parts content) end.

Definition last_finish (c : Candidate) (lastFinish : string) : string :=
  if String.eqb (cn_FinishReason c) "" then lastFinish else normalizeFinish (cn_FinishReason c).

Fixpoint stream_loop (items : list (GenerateContentResponse + goerr)) (lastFinish : string) (usage : option Usage)
    : list (StreamChunk + goerr) :=
  match items with
  | [] => [inl (done_chunk usage lastFinish)]
  | inr err :: _ => [inr (EWrap (Name ^^ " stream: ") err "")]
  | inl resp :: rest =>
      match gr_Candidates resp with
      | [] => stream_loop rest lastFinish usage
      | cand :: _ =>
          (inl ∘ delta_chunk <$> candidate_chunks cand) ++
          stream_loop rest (last_finish cand lastFinish)
            (match gr_UsageMetadata resp with Some u => Some (usage_of u) | None => usage end)
      end
  end.

Definition Stream (req : CompletionRequest) : outcome (list (StreamChunk + goerr)) :=
  match encode req with
  | Err e => Ok [inr e]
  | Panic s => Panic s
  | Ok (contents, cfg) => Ok (stream_loop (GenerateContentStream contents cfg) "" None)
  end.

Definition Complete (req : CompletionRequest) : outcome CompletionResponse :=
  c ← encode req;
  match GenerateContent c.1 c.2 with
  | inr e => Err (EWrap (Name ^^ " generate: ") e "")
  | inl resp =>
      match gr_Candidates resp with
      | {| cn_Content := Some content; cn_FinishReason := reason |} :: _ =>
          Ok {| cs_Id := ""; cs_Model := Model;
                cs_Message := {| lm_Role := ROLE_ASSISTANT; lm_Content := lm_Content (ContentToProto content) |};
                cs_Usage := usage_of <$> gr_UsageMetadata resp; cs_FinishReason := normalizeFinish reason |}
      | _ => Err (ENew (Name ^^ ": no candidates in response"))
      end
  end.

Definition completer : Completer := steady Complete Stream.

(** ** Embeddings and counting *)

(** An embedding is nil or its values. *)
Context (EmbedContent : string -> string -> list (option (list float)) + goerr).

Definition taskType (role : EmbedRole) : string :=
  match role with RoleQuery => "RETRIEVAL_QUERY" | RoleDocument => "RETRIEVAL_DOCUMENT" end.

Fixpoint embed_from (i : nat) (role : EmbedRole) (texts : list string) : outcome (list (list float)) :=
  match texts with
  | [] => mret []
  | text :: rest =>
      match EmbedContent (taskType role) text with
      | inr e => Err (EWrap (Name ^^ " embed: ") e "")
      | inl (Some values :: _) => out ← embed_from (S i) role rest; mret (values :: out)
      | inl _ => Err (ENew (Name ^^ " embed: no embedding returned for input " ^^ itoa (Z.of_nat i)))
      end
  end.

Definition Embed (role : EmbedRole) (texts : list string) : outcome (list (list float)) := embed_from 0 role texts.

Definition count_block (b : ContentBlock) : string :=
  match b with
  | BText t => tx_Text t ^^ nl
  | BThinking t => th_Text t ^^ nl
  | BToolCall c => tc_Name c ^^ ": " ^^ tc_Arguments c ^^ nl
  | BToolResult r => tr_Content r ^^ nl
  | _ => ""
  end.

Definition CountText (m : LLMMessage) : string := fold_left (fun sb b => sb ^^ count_block b) (lm_Content m) "".

(** ** Construction ([vertex.go], [googleai.go]) *)

Definition provider_option (cfg : ProviderConfig) (key : string) : string := default "" (pc_Options cfg !! key).

Fixpoint firstNonEmpty (vals : list string) : string :=
  match vals with
  | [] => ""
  | v :: rest => if String.eqb v "" then firstNonEmpty rest else v
  end.

(** [genai.ClientConfig] *)
Inductive ClientConfig :=
  | BackendVertexAI (project location : string)
  | BackendGeminiAPI (apiKey baseURL : string).

Context (Getenv : string -> string) (NewClient : ClientConfig -> Client + goerr).

Definition vertex_New (cfg : ProviderConfig) : Client + goerr :=
  let project := firstNonEmpty [provider_option cfg "project"; Getenv "GOOGLE_CLOUD_PROJECT"] in
  let location := firstNonEmpty [provider_option cfg "location"; Getenv "GOOGLE_CLOUD_LOCATION"; Getenv "GOOGLE_CLOUD_REGION"] in
  if String.eqb project "" then inr (ENew ("vertex: GCP project required (set Options[" ^^ quoted "project" ^^ "] or GOOGLE_CLOUD_PROJECT)"))
  else
    match NewClient (BackendVertexAI project (if String.eqb location "" then "global" else location)) with
    | inr e => inr (EWrap "vertex: new genai client: " e "")
    | inl client => inl client
    end.

Definition googleai_New (cfg : ProviderConfig) : Client + goerr :=
  match NewClient (BackendGeminiAPI (pc_APIKey cfg) (pc_BaseURL cfg)) with
  | inr e => inr (EWrap "googleai: new genai client: " e "")
  | inl client => inl client
  end.

(** ** What is sent *)

Lemma hoist_spec msgs :
  hoist msgs = (ProtoToContent <$> List.filter (negb ∘ is_system) msgs, ProtoToContent <$> last (List.filter is_system msgs)).
Proof.
  unfold hoist. induction msgs as [|m msgs IH] using rev_ind; [done|].
  rewrite fold_left_app, IH, !List.filter_app. cbn. unfold compose. destruct (is_system m); cbn.
  - by rewrite app_nil_r, last_snoc.
  - by rewrite fmap_app, app_nil_r.
Qed.

(** The turns of a request keep their order, the system message never is one of
    them, and only a named choice without a name is refused. *)
Lemma encode_spec req :
  match encode req with
  | Ok (contents, cfg) => contents = ProtoToContent <$> List.filter (negb ∘ is_system) (cq_Messages req) /\
      gg_SystemInstruction cfg = ProtoToContent <$> last (List.filter is_system (cq_Messages req))
  | Err _ => exists tc, cq_ToolChoice req = Some tc /\ tch_Mode tc = TOOL_CHOICE_MODE_NAMED /\ tch_NamedTool tc = ""
  | Panic _ => False
  end.
Proof.
  unfold encode. rewrite hoist_spec. destruct (cq_ToolChoice req) as [tc|]; [|done]. unfold toToolConfig.
  destruct (tch_Mode tc) eqn:Em; try done. destruct (String.eqb_spec (tch_NamedTool tc) ""); [by exists tc|done].
Qed.

(** The projection counts the blocks that are sent, and no others. *)
Definition sent (b : ContentBlock) : bool := match block_parts (J := J) b with [] => false | _ => true end.

Lemma CountText_sent role blocks :
  CountText {| lm_Role := role; lm_Content := blocks |} = CountText {| lm_Role := role; lm_Content := List.filter sent blocks |}.
Proof.
  unfold CountText. cbn [lm_Content]. generalize "". induction blocks as [|b blocks IH]; intros acc; [done|].
  destruct b; cbn; rewrite ?append_nil_r; apply IH.
Qed.

(** ** What is streamed *)

Lemma partToChunk_delta p d : partToChunk p = Some d -> d <> DNone.
Proof.
  unfold partToChunk. destruct (_ && _); [by intros [= <-]|]. destruct (negb _); [by intros [= <-]|].
  destruct (pt_FunctionCall p); [by intros [= <-]|done].
Qed.

Lemma candidate_chunks_deltas c : Forall (fun d => d <> DNone) (candidate_chunks c).
Proof.
  unfold candidate_chunks. destruct (cn_Content c) as [content|]; [|constructor]. apply Forall_forall. intros d.
  rewrite list_elem_of_omap. intros (p & _ & Hp). by eapply partToChunk_delta.
Qed.

(** The first candidate of a response. *)
Definition response_chunks (resp : GenerateContentResponse) : list Delta :=
  match gr_Candidates resp with [] => [] | cand :: _ => candidate_chunks cand end.

(** The responses before the first error, and that error. *)
Fixpoint received (items : list (GenerateContentResponse + goerr)) : list GenerateContentResponse * option goerr :=
  match items with
  | [] => ([], None)
  | inr e :: _ => ([], Some e)
  | inl resp :: rest => let '(resps, e) := received rest in (resp :: resps, e)
  end.

(** Every part of every response received is a delta, in order; then a terminal
    chunk, or the error that ended the stream. *)
Lemma stream_loop_shape items fin usage : exists usage' fin',
  stream_loop items fin usage = (inl ∘ delta_chunk <$> flat_map response_chunks (received items).1) ++
    end_items match (received items).2 with
              | Some e => BreaksOff (EWrap (Name ^^ " stream: ") e "")
              | None => EndsWith (Some (done_chunk usage' fin'))
              end.
Proof.
  revert fin usage. induction items as [|[resp|e] items IH]; intros fin usage; [by exists usage, fin| |by exists usage, fin].
  cbn [received stream_loop]. destruct (received items) as [resps e]. unfold response_chunks at 1. cbn -[end_items].
  destruct (gr_Candidates resp) as [|cand cands]; [apply IH|].
  destruct (IH (last_finish cand fin) match gr_UsageMetadata resp with Some u => Some (usage_of u) | None => usage end)
    as (usage' & fin' & ->). exists usage', fin'. cbn -[end_items]. by rewrite fmap_app, <- (assoc_L (++)).
Qed.

Lemma stream_loop_ok items : stream_ok (stream_loop items "" None) \/ breaks_off (stream_loop items "" None).
Proof.
  destruct (stream_loop_shape items "" None) as (usage & fin & ->).
  assert (Forall (fun d => d <> DNone) (flat_map response_chunks (received items).1)) as Hds.
  { apply List.Forall_flat_map, Forall_forall. intros resp _. unfold response_chunks.
    destruct (gr_Candidates resp); [constructor|apply candidate_chunks_deltas]. }
  revert Hds. generalize (flat_map response_chunks (received items).1). intros ds Hds.
  destruct (received items).2 as [e|]; cbn [end_items].
  - destruct ds as [|d ds]; [left; left; by eexists|]. right. by exists (d :: ds), (EWrap (Name ^^ " stream: ") e "").
  - left. right. exists ((delta_chunk <$> ds) ++ [done_chunk usage fin]). split; [by rewrite fmap_app, <- list_fmap_compose|].
    apply chunks_ok_app; [|constructor; auto with llm].
    apply Forall_fmap. eapply Forall_impl; [exact Hds|]. intros d. apply delta_is_delta.
Qed.

#[export] Instance completer_contract : StreamContract completer.
Proof.
  apply steady_interface. intros req. unfold Stream. destruct (encode req) as [[contents cfg]|e|s] eqn:E.
  - apply returns_ok, stream_loop_ok.
  - apply returns_ok. left. left. by exists e.
  - pose proof (encode_spec req) as Hs. by rewrite E in Hs.
Qed.

(** ** Streamed or whole *)

Definition delta_of (b : ContentBlock) : Delta :=
  match b with
  | BText t => DText t | BThinking t => DThinking t | BToolCall c => DToolCall c | BToolResult r => DToolResult r | _ => DNone
  end.

(** A part with one payload, whose call has an id of its own. *)
Definition single (p : Part (J := J)) : Prop :=
  pt_FunctionResponse p = None /\
  match pt_FunctionCall p with
  | Some fc => fc_ID fc <> "" /\ pt_Text p = "" /\ pt_Thought p = false
  | None => True
  end.

Lemma single_part p : single p -> option_list (partToChunk p) = delta_of <$> part_blocks p.
Proof.
  unfold single, partToChunk, part_blocks, synthCallID. intros [-> Hp]. rewrite andb_comm.
  destruct (pt_FunctionCall p) as [fc|].
  - destruct Hp as (Hid & -> & ->). cbn. by destruct (String.eqb_spec (fc_ID fc) "").
  - destruct (pt_Thought p && _); [done|]. by destruct (String.eqb (pt_Text p) "").
Qed.

(** However the parts of an answer are spread over the responses of a stream,
    the deltas are the blocks the answer has when it is given whole. *)
Theorem streamed_as_whole (req : CompletionRequest) contents cfg resps content reason usage rest
    (Hreq : encode req = Ok (contents, cfg))
    (Hwhole : GenerateContent contents cfg = inl {| gr_Candidates := {| cn_Content := Some content; cn_FinishReason := reason |} :: rest;
                                                    gr_UsageMetadata := usage |})
    (Hparts : Forall single (ct_Parts content))
    (Hstream : GenerateContentStream contents cfg = inl <$> resps)
    (Hspread : flat_map (fun r => match gr_Candidates r with {| cn_Content := Some c |} :: _ => ct_Parts c | _ => [] end) resps
               = ct_Parts content) :
  exists response usage' fin, Complete req = Ok response /\
    Stream req = Ok ((inl ∘ delta_chunk ∘ delta_of <$> lm_Content (cs_Message response)) ++ [inl (done_chunk usage' fin)]).
Proof.
  unfold Complete, Stream. rewrite Hreq. cbn. rewrite Hwhole, Hstream. cbn.
  destruct (stream_loop_shape (inl <$> resps) "" None) as (usage' & fin & ->). eexists _, usage', fin. split; [reflexivity|].
  f_equal. cbn [cs_Message lm_Content ContentToProto].
  assert (received (inl <$> resps) = (resps, None)) as ->.
  { clear. induction resps as [|r resps IH]; [done|]. cbn. by rewrite IH. }
  cbn [fst snd end_items option_list fmap list_fmap]. f_equal.
  assert (flat_map response_chunks resps = delta_of <$> flat_map part_blocks (ct_Parts content)) as ->;
    [|by rewrite <- list_fmap_compose].
  rewrite <- Hspread in Hparts |- *. clear -Hparts. induction resps as [|r resps IH]; [done|]. cbn in *.
  apply Forall_app in Hparts as [Hr Hrest]. rewrite flat_map_app, fmap_app, IH by done. f_equal. clear -Hr.
  unfold response_chunks, candidate_chunks. destruct (gr_Candidates r) as [|[[c|] fr] cs]; [done| |done]. cbn in *.
  induction Hr as [|p l Hp _ IH]; [done|]. cbn. rewrite fmap_app, <- IH, <- (single_part p) by done. by destruct (partToChunk p).
Qed.

(** ** Embeddings *)

(** A batch that succeeds has every text's own vector, in order. *)
Lemma Embed_all role texts vs : Embed role texts = Ok vs ->
  Forall2 (fun text v => exists rest, EmbedContent (taskType role) text = inl (Some v :: rest)) texts vs.
Proof.
  unfold Embed. generalize 0. revert vs. induction texts as [|text texts IH]; intros vs i; cbn; [by intros [= <-]|].
  destruct (EmbedContent _ text) as [[|[v|] rest]|e] eqn:E; try done.
  destruct (embed_from (S i) role texts) as [out|e|s] eqn:Er; cbn; try done. intros [= <-].
  constructor; [by exists rest|]. by eapply IH.
Qed.

End GenaiKit.

(** ** A model that gives its calls no id *)
Module SampleKit.
Definition call (id : string) : Part (J := string) :=
  {| pt_Text := ""; pt_Thought := false; pt_ThoughtSignature := ""; pt_FunctionResponse := None;
     pt_FunctionCall := Some {| fc_ID := id; fc_Name := "read"; fc_Args := Some "}" |} |}.

Definition answer (parts : list (Part (J := string))) : GenerateContentResponse (J := string) :=
  {| gr_Candidates := [{| cn_Content := Some {| ct_Role := "model"; ct_Parts := parts |}; cn_FinishReason := "STOP" |}];
     gr_UsageMetadata := Some {| um_PromptTokenCount := 7; um_CandidatesTokenCount := 2 |} |}.

Definition request (msgs : list LLMMessage) : CompletionRequest :=
  {| cq_Messages := msgs; cq_Model := "m"; cq_MaxTokens := None; cq_Temperature := None; cq_TopP := None; cq_Stop := [];
     cq_Stream := true; cq_Tools := []; cq_ToolChoice := None; cq_ContextWindowTokens := None |}.

Definition schema (s : string) : string + goerr := inl s.
Definition streamed (parts : list (list (Part (J := string)))) : list (StreamChunk + goerr) :=
  match Stream schema "STOP" "MAX_TOKENS" (fun _ _ => inl ∘ answer <$> parts) "vertex" (request []) with Ok items => items | _ => [] end.
Definition completed (parts : list (Part (J := string))) : outcome CompletionResponse :=
  Complete schema "STOP" "MAX_TOKENS" (fun _ _ => inl (answer parts)) "gemini" "vertex" (request []).

(** Given whole the call has an empty id, streamed an invented one. *)
Example ids_differ :
  (lm_Content ∘ cs_Message <$> completed [call ""]) =
    Ok [BToolCall {| tc_Id := ""; tc_Name := "read"; tc_Arguments := "{}"; tc_Signature := "" |}] /\
  streamed [[call ""]] = [inl (delta_chunk (DToolCall {| tc_Id := "genai-call-read"; tc_Name := "read"; tc_Arguments := "{}"; tc_Signature := "" |}));
                          inl (done_chunk (Some {| PromptTokens := 7; CompletionTokens := 2 |}) "stop")].
Proof. split; vm_compute; reflexivity. Qed.

(** The corpus after a turn for each of the streams: the calls streamed, each
    with its result. *)
Definition stored (turn : Z) (items : list (StreamChunk + goerr)) : list Message :=
  flat_map (fun it => match it with
    | inl {| sc_Delta := DToolCall tc |} =>
        let message suffix role b := {| m_Id := "m" ^^ itoa turn ^^ suffix; m_Role := role; m_Content := [b]; m_Position := turn;
                                        m_ThreadId := "t"; m_CreatedAt := None; m_TurnId := "turn" ^^ itoa turn |} in
        [message "c" ROLE_ASSISTANT (BToolCall tc);
         message "r" ROLE_USER (BToolResult {| tr_ToolCallId := tc_Id tc; tr_Content := "ok"; tr_IsError := false |})]
    | _ => []
    end) items.

Definition closes (corpus : list Message) : list bool :=
  (fun m => match run_close (NewProtocolIndex corpus) m f0 with Ok _ => true | _ => false end) <$> corpus.

(** The id is a function of the tool's name, and protocol closure keys calls by
    thread and id: the second turn that uses a tool makes every call of it in
    the thread ambiguous, for good. *)
Example repeated_call_bricks :
  closes (stored 1 (streamed [[call ""]])) = [true; true] /\
  closes (stored 1 (streamed [[call ""]]) ++ stored 2 (streamed [[call ""]])) = [false; false; false; false] /\
  closes (stored 1 (streamed [[call "a"]]) ++ stored 2 (streamed [[call "b"]])) = [true; true; true; true].
Proof. repeat split; vm_compute; reflexivity. Qed.

(** Of two system messages the last is sent. *)
Example last_system_wins :
  let text role s := {| lm_Role := role; lm_Content := [BText {| tx_Text := s |}] |} in
  (gg_SystemInstruction ∘ snd <$> encode (J := string) schema "vertex" (request [text ROLE_SYSTEM "one"; text ROLE_USER "hi"; text ROLE_SYSTEM "two"]))
  = Ok (Some {| ct_Role := "user"; ct_Parts := [text_part "two"] |}).
Proof. vm_compute. reflexivity. Qed.

(** A usage report without a candidate is dropped. *)
Example usage_dropped :
  match Stream schema "STOP" "MAX_TOKENS" (fun _ _ => [inl {| gr_Candidates := []; gr_UsageMetadata := Some {| um_PromptTokenCount := 7; um_CandidatesTokenCount := 2 |} |}])
          "vertex" (request []) with
  | Ok items => items = [inl (done_chunk None "")]
  | _ => False
  end.
Proof. vm_compute. reflexivity. Qed.

Lemma streamed_as_whole_witness : exists response usage fin,
  Complete schema "STOP" "MAX_TOKENS" (fun _ _ => inl (answer [text_part "hi"; call "a"])) "gemini" "vertex" (request []) = Ok response /\
  Stream schema "STOP" "MAX_TOKENS" (fun _ _ => inl ∘ answer <$> [[text_part "hi"]; [call "a"]]) "vertex" (request []) =
    Ok ((inl ∘ delta_chunk ∘ delta_of <$> lm_Content (cs_Message response)) ++ [inl (done_chunk usage fin)]).
Proof.
  eapply (streamed_as_whole schema "STOP" "MAX_TOKENS" (fun _ _ => inl (answer [text_part "hi"; call "a"]))
            (fun _ _ => inl ∘ answer <$> [[text_part "hi"]; [call "a"]]) "gemini" "vertex" (request []) _ _
            (answer <$> [[text_part "hi"]; [call "a"]]) {| ct_Role := "model"; ct_Parts := [text_part "hi"; call "a"] |} "STOP"
            (Some {| um_PromptTokenCount := 7; um_CandidatesTokenCount := 2 |}) []); try reflexivity.
  by repeat constructor.
Defined.
End SampleKit.
