(* ===== verification/Factory.v ===== *)
(** * What a runner is made of ([service/runtime/factory.go], [service/skills],
    [service/prompt], [service/mcp], [service/graph/errors.go])

    The factory of a thread's runner: the thread's row, its workspace, the
    tools' dependencies, the instruction and the names under which the model's
    scale and projection are kept.  The runner itself is in [Runner]; what is
    here is everything [Build] hands to it.  Reading a directory or a file is a
    parameter, and so are the template engine and the MCP transports. *)

From Stdlib Require Import ZArith Lia String Ascii.
From S2P Require Import Prelude GoStrings GoPath GoSort Errors Adoc Workspace Sql Storage Threads Hooks Settings TokenScale Tools.
#[local] Open Scope Z_scope.

(** ** Skills ([service/skills/loader.go]) *)

(** [AllowedTools] and [Arguments] are never set. *)
Record Skill := { sl_Name : string; sl_Description : string; sl_WhenToUse : string; sl_Content : string; sl_Path : string }.

Definition with_field (key val : string) (s : Skill) : Skill :=
  if String.eqb key "name" then {| sl_Name := val; sl_Description := sl_Description s; sl_WhenToUse := sl_WhenToUse s; sl_Content := sl_Content s; sl_Path := sl_Path s |}
  else if String.eqb key "description" then {| sl_Name := sl_Name s; sl_Description := val; sl_WhenToUse := sl_WhenToUse s; sl_Content := sl_Content s; sl_Path := sl_Path s |}
  else if String.eqb key "when_to_use" then {| sl_Name := sl_Name s; sl_Description := sl_Description s; sl_WhenToUse := val; sl_Content := sl_Content s; sl_Path := sl_Path s |}
  else s.

(** [strings.Cut(line, ":")] *)
Definition cut_colon (line : string) : option (string * string) :=
  match index line ":" with Some i => Some (stake i line, sdrop (i + 1) line) | None => None end.

Definition parseFrontmatter (s : Skill) (fm : string) : Skill :=
  fold_left (fun s line => match cut_colon (trim_space line) with
                           | Some (key, val) => with_field (trim_space key) (trim_space val) s
                           | None => s
                           end) (split_byte "010" fm) s.

Definition trim_suffix (s suf : string) : string := if has_suffix s suf then stake (slen s - slen suf) s else s.

Definition parse_skill (path content : string) : Skill :=
  let skill := {| sl_Name := ""; sl_Description := ""; sl_WhenToUse := ""; sl_Content := ""; sl_Path := path |} in
  let skill :=
    if has_prefix content ("---" ^^ nl) then
      match index (sdrop 4 content) (nl ^^ "---") with
      | Some end_ =>
          parseFrontmatter {| sl_Name := ""; sl_Description := ""; sl_WhenToUse := ""; sl_Content := trim_space (sdrop (4 + end_ + 4) content); sl_Path := path |}
            (stake end_ (sdrop 4 content))
      | None => skill
      end
    else skill in
  if String.eqb (sl_Name skill) "" then with_field "name" (trim_suffix (Base path) ".md") skill else skill.

(** [Lists] a directory as names with a flag for directories, or not at all. *)
Class Dirs := { os_ReadDir : string -> option (list (string * bool)); os_ReadText : string -> option string }.

Section Factory.
Context `{!Dirs}.

Definition parseSkillFile (path : string) : option Skill := parse_skill path <$> os_ReadText path.

Definition loadFromDir (dir : string) : list Skill :=
  match os_ReadDir dir with
  | None => []
  | Some entries => omap (fun entry => if (entry.2 : bool) || negb (has_suffix entry.1 ".md") then None else parseSkillFile (Join [dir; entry.1])) entries
  end.

Definition LoadAll (userSkillsDir : string) (projectDirs : list string) : list Skill :=
  loadFromDir userSkillsDir ++ (projectDirs ≫= fun dir => loadFromDir (Join [dir; ".grudge"; "skills"])).

(** ** Prompt ([service/prompt]) *)

Definition LoadAgentsMD (workingDirs : list string) : list string :=
  omap (fun dir => match os_ReadText (Join [dir; "AGENTS.md"]) with
                   | Some data => let content := trim_space data in if String.eqb content "" then None else Some content
                   | None => None
                   end) workingDirs.

Record TemplateData := {
  td_UserName : string; tp_Sandboxed : bool; tp_WorkingDirs : list string; tp_AgentsMD : list string; tp_PlanContent : string;
  tp_PlanDir : string; tp_CurrentTime : string; tp_Mode : string
}.

(** A parsed template is what it makes of the data. *)
Definition Assembler : Type := TemplateData -> string + goerr.

Definition NewAssembler (templatesFS : gmap string string) (read_error : string -> goerr) (parse : string -> Assembler + goerr) : outcome Assembler :=
  match CompileFS templatesFS read_error "templates/system.adoc" with
  | Some (_, Ok composed) => match parse composed with inl a => Ok a | inr e => Err (EWrap "parse composed prompt: " e "") end
  | Some (_, Err e) => Err (EWrap "compose system prompt: " e "")
  | Some (_, Panic p) => Panic p
  | None => Panic "compile"
  end.

(** ** MCP servers ([service/mcp]) *)

Inductive Transport := SSETransport (endpoint : string) | CommandTransport (command : string) (args : list string).

(** A server without an endpoint is skipped. *)
Definition transport_of (fields : string -> list string) (endpoint : string) : option Transport :=
  if has_prefix endpoint "http://" || has_prefix endpoint "https://" then Some (SSETransport endpoint)
  else match fields endpoint with [] => None | command :: args => Some (CommandTransport command args) end.

Definition LoadMCPTools {T} (fields : string -> list string) (connect : Transport -> T + goerr) (servers : list ServerConfig) : list T :=
  omap (fun srv => if negb (ms_Enabled srv) then None
                   else match transport_of fields (ms_Endpoint srv) with
                        | None => None
                        | Some t => match connect t with inl ts => Some ts | inr _ => None end
                        end) servers.

Fixpoint MCPToolsAsTools {T U} (tools_of : T -> list U + goerr) (name_of : T -> string) (toolsets : list T) : list U + goerr :=
  match toolsets with
  | [] => inl []
  | ts :: rest =>
      match tools_of ts with
      | inr e => inr (EWrap ("list tools from toolset " ^^ name_of ts ^^ ": ") e "")
      | inl l => match MCPToolsAsTools tools_of name_of rest with inl l' => inl (l ++ l') | inr e => inr e end
      end
  end.

(** ** The factory *)

Definition Perm_of (text : string) : Perm :=
  if String.eqb text "allow" then PermAllow else if String.eqb text "ask" then PermAsk else if String.eqb text "deny" then PermDeny else PermOther text.

Context {env : Env} {srt : SliceSort} {os : Os} (getwd : string + goerr) (now_rfc3339 : string).

(** What the factory needs of [Deps]: the configuration, the skills, the
    assembler and whether there is a scale store. *)
Record Deps := { dp_Config : Config; dp_Skills : list Skill; dp_Assembler : option Assembler; dp_Scales : bool }.

Definition search_endpoint (s : Settings) : string := match st_Providers s !! "search" with Some c => pc_BaseURL c | None => "" end.
Definition model_of (role : string) (s : Settings) : string := match st_Providers s !! role with Some c => pc_Model c | None => "" end.

Definition buildToolDeps (threadID : string) (thread : Thread) (workspace : string) (skillDefs : list SkillDef) (searchURL : string) (deps : Deps) : ToolDeps :=
  {| td_Sandboxed := th_Sandboxed thread; td_Workspace := workspace; td_WorkingDirs := th_WorkingDirs thread; td_Skills := skillDefs;
     td_SearchURL := searchURL; td_ThreadID := threadID; td_PlanDir := Join [pa_DataDir (cf_Paths (dp_Config deps)); "plans"];
     td_Permissions := Perm_of <$> st_Permissions (cf_Settings (dp_Config deps)) |}.

Definition mode_text (mode : AgentMode) : string :=
  match mode with AgentModeAutonomous => "autonomous" | AgentModePlan => "plan" | _ => "normal" end.

(** A state that cannot be read is the normal mode. *)
Definition assembleInstruction (threadID : string) (thread : Thread) (deps : Deps) : GoM (Sql.World Tables) string := fun w =>
  match dp_Assembler deps with
  | None => (w, Err (ENew "prompt assembler not initialized — templates directory missing"))
  | Some assemble =>
      let '(w', st) := GetAgentState threadID w in
      let mode := match st with Ok a => mode_text (as_Mode a) | _ => "normal" end in
      (w', match PlanDirForThread getwd (pa_DataDir (cf_Paths (dp_Config deps))) threadID with
           | Err e => Err (EWrap "plan dir: " e "")
           | Panic p => Panic p
           | Ok planDir =>
               match assemble {| td_UserName := GetUserName (cf_Settings (dp_Config deps)); tp_Sandboxed := th_Sandboxed thread;
                                 tp_WorkingDirs := th_WorkingDirs thread; tp_AgentsMD := LoadAgentsMD (th_WorkingDirs thread);
                                 tp_PlanContent := ""; tp_PlanDir := planDir; tp_CurrentTime := now_rfc3339; tp_Mode := mode |} with
               | inl text => Ok text
               | inr e => Err e
               end
           end)
  end.

(** The key of the scale store, and the adapter whose projection counts. *)
Definition scale_key (deps : Deps) : option string :=
  match st_Providers (cf_Settings (dp_Config deps)) !! "main" with
  | Some c => if dp_Scales deps && negb (String.eqb (pc_Adapter c) "") && negb (String.eqb (pc_Model c) "")
              then Bound (pc_Adapter c ^^ "/" ^^ pc_Model c) else None
  | None => None
  end.
Definition projection_of (deps : Deps) : option string := pc_Adapter <$> st_Providers (cf_Settings (dp_Config deps)) !! "main".

(** The arguments of [NewRunner] that are not shared by all threads. *)
Record Wiring := { wr_Tools : ToolDeps; wr_Instruction : string; wr_ModelName : string; wr_RerankerModelID : string; wr_ScaleKey : option string; wr_Projection : option string }.

Definition Build (mkdir_all : string -> option goerr) (threadID : string) (deps : Deps) : GoM (Sql.World Tables) Wiring := fun w =>
  match GetThread threadID w with
  | (w', Err e) => (w', Err (EWrap ("get thread " ^^ threadID ^^ ": ") e ""))
  | (w', Panic p) => (w', Panic p)
  | (w', Ok thread) =>
      match WorkspaceDir getwd mkdir_all (pa_DataDir (cf_Paths (dp_Config deps))) threadID with
      | Err e => (w', Err (EWrap "workspace dir: " e ""))
      | Panic p => (w', Panic p)
      | Ok workspace =>
          let s := cf_Settings (dp_Config deps) in
          let skillDefs := (fun s => {| sk_Name := sl_Name s; sk_Content := sl_Content s |}) <$> dp_Skills deps in
          let tools := buildToolDeps threadID thread workspace skillDefs (search_endpoint s) deps in
          match assembleInstruction threadID thread deps w' with
          | (w2, Ok text) =>
              (w2, Ok {| wr_Tools := tools; wr_Instruction := text; wr_ModelName := model_of "main" s; wr_RerankerModelID := model_of "scorer" s;
                         wr_ScaleKey := scale_key deps; wr_Projection := projection_of deps |})
          | (w2, Err e) => (w2, Err e)
          | (w2, Panic p) => (w2, Panic p)
          end
      end
  end.

End Factory.

(** ** Error types ([service/graph/errors.go]) *)

Definition isContextLengthError (msg : string) : bool :=
  contains msg "context_length" || contains msg "maximum context" || contains msg "too many tokens".

(** The type extension of a presented error; empty for none. *)
Definition ErrorPresenter (e : goerr) : string :=
  if err_is e EProviderUnavailable || err_is e EAuth || err_is e ERateLimited then "PROVIDER_UNAVAILABLE"
  else if err_is e EScorerFailed || err_is e EScorerUnavailable then "SCORER_UNAVAILABLE"
  else if err_is e EMessageNotFound || err_is e EThreadNotFound then "AGENT_ERROR"
  else if isContextLengthError (err_text e) then "CONTEXT_LENGTH"
  else "".

(** An overflow that the core's classifier knows is not always typed as one. *)
Example overflow_untyped : let e := ENew "prompt is too long: 210000 tokens" in IsContextOverflow (Some e) = true /\ ErrorPresenter e = "".
Proof. vm_compute. split; reflexivity. Qed.

(** ** Threads do not meet in the workspace *)

Section Disjoint.
Context `{!World, !Dirs, !Env, !SliceSort, !Os} (now_rfc3339 : string).
Hypothesis cwd_abs : forall wd, Getwd = inl wd -> IsAbs wd = true.

Lemma Build_workspace mkdir_all threadID deps w w' r : Build Getwd now_rfc3339 mkdir_all threadID deps w = (w', Ok r) ->
  threadScopedDir Getwd (pa_DataDir (cf_Paths (dp_Config deps))) "sandboxes" "sbx-" threadID = Ok (td_Workspace (wr_Tools r)).
Proof.
  unfold Build, WorkspaceDir. destruct (GetThread threadID w) as [w1 [thread| |]]; [|done..].
  unfold mbind, outcome_bind. destruct (threadScopedDir _ _ _ _ _) as [dir| |]; [|done..].
  destruct (mkdir_all dir); [done|]. destruct (assembleInstruction _ _ _ _ _ w1) as [w2 [text| |]]; [|done..]. by intros [= _ <-].
Qed.

Lemma resolved_below mkdir_all threadID deps w w' r p a s l : Build Getwd now_rfc3339 mkdir_all threadID deps w = (w', Ok r) ->
  td_Sandboxed (wr_Tools r) = true -> (resolvePath (wr_Tools r) p s).2 = Ok a ->
  Forall name l -> Abs Getwd (Join [pa_DataDir (cf_Paths (dp_Config deps)); "sandboxes"]) = Ok (abs_path l) ->
  exists rest, name ("sbx-" ^^ threadID) /\ Forall name rest /\ a = abs_path (l ++ ("sbx-" ^^ threadID) :: rest).
Proof.
  intros Hb%Build_workspace Hsb Hr Hl Ha. destruct (threadScopedDir_entry Getwd cwd_abs _ "sandboxes" "sbx-" threadID _ eq_refl Hb) as (_ & l' & Hl' & Ha' & Hn & Hdir).
  assert (l' = l) as -> by (apply abs_path_inj; congruence).
  unfold resolvePath in Hr. rewrite Hsb in Hr. cbn in Hr. destruct (ResolveWorkspacePath_under Getwd cwd_abs _ _ _ Hr) as (k & Hk & Hak & rest & Hrest & ->).
  assert (Forall name (l ++ ["sbx-" ^^ threadID])) as Hfull by (apply Forall_app; split; [done|by apply Forall_singleton]).
  rewrite Hdir in Hak. unfold Abs in Hak. rewrite abs_rooted in Hak.
  rewrite Clean_fixed in Hak by done. assert (k = l ++ ["sbx-" ^^ threadID]) as -> by (apply abs_path_inj; congruence).
  exists rest. split; [done|]. split; [done|]. by rewrite <- app_assoc.
Qed.

End Disjoint.

(** C9: Sandboxed threads do not reach each other's files: of the runners made
    for two threads, no path the file tools of one let through is a path those
    of the other let through, or lies inside it. *)
Theorem sandboxes_disjoint `{!World, !Dirs, !Env, !SliceSort, !Os} (now1 now2 : string) (mk1 mk2 : string -> option goerr) (t1 t2 : string) (deps : Deps)
    (w1 w2 w1' w2' : Sql.World Tables) (r1 r2 : Wiring) (p q a b : string) (s1 s2 : Tools.Tools)
    (Hcwd : forall wd, Getwd = inl wd -> IsAbs wd = true) (Hne : t1 <> t2)
    (Hbuild1 : Build Getwd now1 mk1 t1 deps w1 = (w1', Ok r1)) (Hbuild2 : Build Getwd now2 mk2 t2 deps w2 = (w2', Ok r2))
    (Hsb1 : td_Sandboxed (wr_Tools r1) = true) (Hsb2 : td_Sandboxed (wr_Tools r2) = true)
    (Hp : (resolvePath (wr_Tools r1) p s1).2 = Ok a) (Hq : (resolvePath (wr_Tools r2) q s2).2 = Ok b) :
  a <> b /\ has_prefix b (a ^^ "/") = false.
Proof.
  destruct (threadScopedDir_entry Getwd Hcwd _ "sandboxes" "sbx-" t1 _ eq_refl (Build_workspace _ _ _ _ _ _ _ Hbuild1)) as (_ & l & Hl & Ha & _ & _).
  destruct (resolved_below _ Hcwd _ _ _ _ _ _ _ _ _ l Hbuild1 Hsb1 Hp Hl Ha) as (k1 & N1 & K1 & ->).
  destruct (resolved_below _ Hcwd _ _ _ _ _ _ _ _ _ l Hbuild2 Hsb2 Hq Hl Ha) as (k2 & N2 & K2 & ->).
  assert (forall n k, name n -> Forall name k -> Forall name (l ++ n :: k)) as Hnames by (intros n k Hn Hk; apply Forall_app; split; [done|by constructor]).
  assert ("sbx-" ^^ t1 <> "sbx-" ^^ t2) as Hd by (by intros ?%(inj _)).
  split.
  - intros E%abs_path_inj; [|by apply Hnames..]. apply app_inv_head in E. congruence.
  - apply not_true_iff_false. intros Hpre. apply abs_prefix in Hpre as (rest & Hr & E); [|by apply Hnames..].
    rewrite <- app_assoc in E. apply app_inv_head in E. cbn [app] in E. congruence.
Qed.

(** ** Two threads *)
Module SampleFactory.
#[local] Open Scope string_scope.
#[local] Existing Instances SampleConfig.os stable_slice_sort.

#[export] Instance dirs : Dirs := {|
  os_ReadDir := fun d => if String.eqb d "/k" then Some [("plan.md", false); ("sub.md", true); ("x.txt", false)] else None;
  os_ReadText := fun p => if String.eqb p "/k/plan.md" then Some ("---" ^^ nl ^^ "description: a: b" ^^ nl ^^ "---" ^^ nl ^^ "Do $ARGUMENTS" ^^ nl) else None
|}.

Example skills : (fun s => (sl_Name s, sl_Description s, sl_Content s)) <$> LoadAll "/k" ["/p"] = [("plan", "a: b", "Do $ARGUMENTS")].
Proof. vm_compute. reflexivity. Qed.

Definition row (id : string) : ThreadRow :=
  {| t_id := id; t_name := id; t_sandboxed := true; t_created_at := (0, 0); t_parent := None; t_branch := None; t_archived := None |}.
Definition db : Sql.World Tables := {| w_tables := set_threads (fun _ => [row "thread-1"; row "thread-12"]) empty_tables; w_tick := 0 |}.
Definition deps : Deps :=
  {| dp_Config := {| cf_Paths := {| pa_ConfigDir := "/c"; pa_DataDir := "/d"; pa_CacheDir := "/x" |}; cf_Settings := fresh_settings |};
     dp_Skills := LoadAll "/k" []; dp_Assembler := Some (fun d => inl (tp_Mode d ^^ " " ^^ tp_PlanDir d)); dp_Scales := true |}.

#[export] Instance world : Tools.World := {|
  IsPlanMode := fun _ => false; SetMode := fun _ _ => None; RequireApproval := fun _ _ _ _ => inl true; FireHook := fun _ _ _ => None;
  AskUserVia := fun _ _ => inl ∅; SpawnAgent := fun _ _ id => inl id; SendToAgent := fun _ _ _ => inl ""; Getwd := inl "/srv";
  Tools.os_ReadFile := fun _ _ => inl ""; Tools.os_WriteFile := fun _ _ _ => None; Tools.os_MkdirAll := fun _ _ => None; os_Glob := fun _ p => [p];
  os_Files := fun _ => ∅; os_open_error := fun p => ENew p; sh := fun _ _ _ => ("", ExitZero); docker := fun _ _ _ => ("", None);
  http_NewRequest := fun _ => None; Tools.http_Get := fun _ _ => inl (200, ""); search_Decode := fun _ => inl []; json_args := fun _ => "{}";
  json_Unmarshal := fun _ => inl []; json_MarshalIndent := fun _ => inl "{}"
|}.

Definition build (id : string) : Sql.World Tables * outcome Wiring := Build (env := calm_env) Getwd "2026" (fun _ => None) id deps db.
Definition tools : Tools.Tools := {| tl_log := []; tl_tick := 0; tl_callSeq := 0; tl_Tasks := None |}.

Example instruction : wr_Instruction <$> (build "thread-1").2 = Ok "normal /d/plans/plan-thread-1".
Proof. vm_compute. reflexivity. Qed.
End SampleFactory.

Lemma sandboxes_disjoint_witness : "/d/sandboxes/sbx-thread-1/a" <> "/d/sandboxes/sbx-thread-12/a".
Proof.
  destruct (SampleFactory.build "thread-1") as [w1 [r1|e|p]] eqn:E1; [|exfalso; vm_compute in E1; discriminate E1..].
  destruct (SampleFactory.build "thread-12") as [w2 [r2|e|p]] eqn:E2; [|exfalso; vm_compute in E2; discriminate E2..].
  refine (proj1 (sandboxes_disjoint (H := SampleFactory.world) (H0 := SampleFactory.dirs) (H1 := calm_env) (H2 := stable_slice_sort) (H3 := SampleConfig.os)
    "2026" "2026" (fun _ => None) (fun _ => None) "thread-1" "thread-12" SampleFactory.deps _ _ w1 w2 r1 r2 "a" "/workspace/a" _ _
    SampleFactory.tools SampleFactory.tools _ _ E1 E2 _ _ _ _));
    [by intros wd [= <-]|discriminate|vm_compute in E1, E2; injection E1 as <- <-; injection E2 as <- <-; reflexivity..].
Defined.
