(* ===== verification/Selection.v ===== *)
(** * Best-first prerequisite selection ([rrc/selection.go])

    [extractSubgraph] walks the DAG backward from the prompt through a
    priority queue; [transitiveReduction] prunes the via paths.  The walk's
    loop takes fuel; [walk_fuel], the number of stored edges, is always
    enough. *)

From Stdlib Require Import ZArith Lia String.
From stdpp Require Import relations.
From S2P Require Import Prelude GoFloat GoHeap Types Detect Dag EngineConfig.
#[local] Open Scope nat_scope.

Record selectionEntry := {
  se_MessageID : string;
  se_EffectiveScore : float;
  se_HopDepth : Z;
  se_ViaEdges : list Edge;
  se_ThreadID : string;
  se_CrossThread : bool;
  se_ProvenanceWeight : float
}.

Definition seedEdgeScore (edge : Edge) : float := f64_of_f32 (e_Score edge).

Definition relationalEdgeScore (edge : Edge) (refFloor : list float) : float :=
  let raw := f64_of_f32 (e_CrossEncoderScore edge) in
  if minReferenceSample <=? length refFloor then
    let p := nullP raw refFloor in
    if flt (beatAll (length refFloor)) p then f0
    else confidenceFromBits (surprisalBits p)
  else raw.

Definition scopeAllows (edge : Edge) (promptThreadID : string) (scope : SelectionScope) : bool :=
  match scope with
  | SELECTION_SCOPE_ALL_THREADS => true
  | _ => String.eqb (e_FromThreadId edge) promptThreadID && String.eqb (e_ToThreadId edge) promptThreadID
  end.

(** [priorityQueue]: a max-heap on [priority].  The item's [index] field is
    only bookkeeping of [container/heap] and is not modelled. *)
Record pqItem := { pi_entry : selectionEntry; pi_priority : float }.
Definition pq_less (a b : pqItem) : bool := flt (pi_priority b) (pi_priority a).

Definition provenance_edge (edge : Edge) : bool :=
  bool_decide (e_Source edge = EDGE_SOURCE_PROVENANCE).

Record walk_state := {
  ws_visited : gset string;
  ws_pq : list pqItem;
  ws_selected : list selectionEntry;
  ws_belowFloor : gmap string float
}.

Section Walk.
Context (d : dag) (promptID promptThreadID : string) (scope : SelectionScope)
        (cfg : EngineConfig) (refFloor : list float).

Definition seed_entry (edge : Edge) : selectionEntry := {|
  se_MessageID := e_FromMessageId edge;
  se_EffectiveScore := seedEdgeScore edge;
  se_HopDepth := 1;
  se_ViaEdges := [edge];
  se_ThreadID := e_FromThreadId edge;
  se_CrossThread := negb (String.eqb (e_FromThreadId edge) promptThreadID);
  se_ProvenanceWeight := f64_of_f32 (e_CrossEncoderScore edge)
|}.

(** The guards of the seed loop. *)
Definition seed_ok (edge : Edge) : bool :=
  negb (provenance_edge edge) && scopeAllows edge promptThreadID scope &&
  accept (seedEdgeScore edge) (LossRatio cfg) f0 0.

Definition push_entry (pq : list pqItem) (entry : selectionEntry) : list pqItem :=
  heap_push pq_less {| pi_entry := entry; pi_priority := se_EffectiveScore entry |} pq.

Definition seed_step (pq : list pqItem) (edge : Edge) : list pqItem :=
  if seed_ok edge then push_entry pq (seed_entry edge) else pq.

Definition extend_entry (entry : selectionEntry) (edge : Edge) : selectionEntry := {|
  se_MessageID := e_FromMessageId edge;
  se_EffectiveScore := fmul (relationalEdgeScore edge refFloor) (se_EffectiveScore entry);
  se_HopDepth := se_HopDepth entry + 1;
  se_ViaEdges := se_ViaEdges entry ++ [edge];
  se_ThreadID := e_FromThreadId edge;
  se_CrossThread := negb (String.eqb (e_FromThreadId edge) promptThreadID);
  se_ProvenanceWeight := fmul (se_ProvenanceWeight entry) (f64_of_f32 (e_CrossEncoderScore edge))
|}.

(** The guards of the expansion loop, the [visited] test apart. *)
Definition extend_ok (edge : Edge) : bool :=
  negb (provenance_edge edge) && scopeAllows edge promptThreadID scope &&
  accept (relationalEdgeScore edge refFloor) (LossRatio cfg) f0 0.

Definition extend_step (visited : gset string) (entry : selectionEntry) (pq : list pqItem)
    (edge : Edge) : list pqItem :=
  if bool_decide (e_FromMessageId edge ∈ visited) then pq
  else if extend_ok edge then push_entry pq (extend_entry entry edge) else pq.

(** One iteration of the traversal: the popped entry and the rest of the
    queue. *)
Definition walk_step (st : walk_state) (entry : selectionEntry) (pq : list pqItem) : walk_state :=
  if decide (se_MessageID entry ∈ ws_visited st) then
    {| ws_visited := ws_visited st; ws_pq := pq;
       ws_selected := ws_selected st; ws_belowFloor := ws_belowFloor st |}
  else
    let visited := {[se_MessageID entry]} ∪ ws_visited st in
    if flt (se_EffectiveScore entry) (LossRatio cfg) then
      {| ws_visited := visited; ws_pq := pq; ws_selected := ws_selected st;
         ws_belowFloor := <[se_MessageID entry := se_EffectiveScore entry]> (ws_belowFloor st) |}
    else
      {| ws_visited := visited;
         ws_pq := fold_left (extend_step visited entry)
                    (Prerequisites d (se_MessageID entry)) pq;
         ws_selected := ws_selected st ++ [entry];
         ws_belowFloor := ws_belowFloor st |}.

Fixpoint walk (fuel : nat) (st : walk_state) : option walk_state :=
  match heap_pop pq_less (ws_pq st) with
  | None => Some st
  | Some (item, pq) =>
      match fuel with
      | O => None
      | S fuel' => walk fuel' (walk_step st (pi_entry item) pq)
      end
  end.

Definition walk_init : walk_state := {|
  ws_visited := {[promptID]};
  ws_pq := fold_left seed_step (Prerequisites d promptID) (heap_init pq_less []);
  ws_selected := [];
  ws_belowFloor := ∅
|}.

Definition walk_fuel : nat := length (index_edges (backward d)).

Definition extractSubgraph : option (list selectionEntry * gmap string float) :=
  match walk walk_fuel walk_init with
  | Some st => Some (ws_selected st, ws_belowFloor st)
  | None => None
  end.
End Walk.

(** ** Transitive reduction *)

Section Reduction.
Context `{!MapRange string}.

Definition directPrereqs (ids : gset string) (s : selectionEntry) : gset string :=
  list_to_set (filter (fun id => id ∈ ids) (e_FromMessageId <$> se_ViaEdges s)).

Definition prereq_table (selected : list selectionEntry) : gmap string (gset string) :=
  let ids : gset string := list_to_set (se_MessageID <$> selected) in
  fold_left (fun m s => <[se_MessageID s := directPrereqs ids s]> m) selected ∅.

(** [for prereq := range directPrereqs\[node\]]: some order of the set. *)
Definition range_set (s : gset string) : list string :=
  (map_range (set_to_map (fun x => (x, tt)) s : gmap string unit)).*1.

(** Depth-first search; [fuel] bounds the recursion depth. *)
Fixpoint dfs (table : gmap string (gset string)) (fuel : nat) (visited : gset string)
    (node : string) : gset string :=
  match fuel with
  | O => visited
  | S fuel' =>
      fold_left (fun visited prereq =>
        if decide (prereq ∈ visited) then visited
        else dfs table fuel' ({[prereq]} ∪ visited) prereq)
      (range_set (default ∅ (table !! node))) visited
  end.

Definition reachable_from (selected : list selectionEntry) (id : string) : gset string :=
  dfs (prereq_table selected) (S (length selected)) ∅ id.

Definition reachable (selected : list selectionEntry) : gmap string (gset string) :=
  let ids : gset string := list_to_set (se_MessageID <$> selected) in
  set_to_map (fun id => (id, reachable_from selected id)) ids.

Definition redundant (reach : gmap string (gset string)) (via : list Edge) (e : Edge) : bool :=
  existsb (fun otherEdge =>
    negb (String.eqb (e_FromMessageId otherEdge) (e_FromMessageId e)) &&
    bool_decide (e_FromMessageId e ∈ default ∅ (reach !! e_FromMessageId otherEdge))) via.

Definition with_via (s : selectionEntry) (via : list Edge) : selectionEntry := {|
  se_MessageID := se_MessageID s; se_EffectiveScore := se_EffectiveScore s;
  se_HopDepth := se_HopDepth s; se_ViaEdges := via; se_ThreadID := se_ThreadID s;
  se_CrossThread := se_CrossThread s; se_ProvenanceWeight := se_ProvenanceWeight s |}.

Definition transitiveReduction (selected : list selectionEntry) : list selectionEntry :=
  if length selected <=? 1 then selected
  else
    let reach := reachable selected in
    (fun s => with_via s
       (List.filter (fun e => negb (redundant reach (se_ViaEdges s) e)) (se_ViaEdges s)))
    <$> selected.
End Reduction.

(** ** Termination of the walk *)

Definition item_of (entry : selectionEntry) : pqItem :=
  {| pi_entry := entry; pi_priority := se_EffectiveScore entry |}.

(** Guarded pushes add exactly the guarded entries. *)
Lemma push_fold_perm {E} (step : list pqItem -> E -> list pqItem) (g : E -> bool)
    (f : E -> selectionEntry) l pq :
  (forall pq e, step pq e = if g e then push_entry pq (f e) else pq) ->
  fold_left step l pq ≡ₚ (item_of ∘ f <$> List.filter g l) ++ pq.
Proof.
  intros Hs. revert pq. induction l as [|e l IH]; intros pq; simpl; [done|].
  rewrite IH, Hs. destruct (g e); [|done]. simpl.
  unfold push_entry. rewrite heap_push_perm. symmetry. apply Permutation_middle.
Qed.

Section WalkTermination.
Context (d : dag) (promptID promptThreadID : string) (scope : SelectionScope)
        (cfg : EngineConfig) (refFloor : list float).

Definition extend_guard (visited : gset string) (edge : Edge) : bool :=
  negb (bool_decide (e_FromMessageId edge ∈ visited)) && extend_ok promptThreadID scope cfg refFloor edge.

Lemma extend_fold_perm visited entry l pq :
  fold_left (extend_step promptThreadID scope cfg refFloor visited entry) l pq ≡ₚ
  (item_of ∘ extend_entry promptThreadID refFloor entry <$> List.filter (extend_guard visited) l) ++ pq.
Proof.
  apply push_fold_perm. intros q e. unfold extend_step, extend_guard.
  by destruct (bool_decide _).
Qed.

Lemma seed_fold_perm l pq :
  fold_left (seed_step promptThreadID scope cfg) l pq ≡ₚ
  (item_of ∘ seed_entry promptThreadID <$> List.filter (seed_ok promptThreadID scope cfg) l) ++ pq.
Proof. by apply push_fold_perm. Qed.

(** The edges below unvisited targets: what the walk may still push. *)
Definition unvisited_edges (visited : gset string) (l : list (string * list Edge)) : nat :=
  sum_list_with (fun kes => if decide (kes.1 ∈ visited) then 0 else length kes.2) l.

Lemma unvisited_edges_skip visited k l :
  k ∉ l.*1 -> unvisited_edges ({[k]} ∪ visited) l = unvisited_edges visited l.
Proof.
  induction l as [|[k' es] l IH]; simpl; [done|]. rewrite not_elem_of_cons. intros [Hk Hl].
  rewrite IH by done. repeat case_decide; set_solver.
Qed.

Lemma unvisited_edges_visit visited k l :
  NoDup l.*1 -> k ∉ visited ->
  unvisited_edges ({[k]} ∪ visited) l + length (default [] (list_to_map (M := gmap string (list Edge)) l !! k)) =
  unvisited_edges visited l.
Proof.
  intros Hnd Hk. induction l as [|[k' es] l IH]; simpl; [by rewrite lookup_empty|].
  simpl in Hnd. apply NoDup_cons in Hnd as [Hk' Hnd]. destruct (decide (k = k')) as [<-|Hne].
  - rewrite lookup_insert_eq, unvisited_edges_skip by done. simpl.
    rewrite decide_True, decide_False by set_solver. lia.
  - rewrite lookup_insert_ne by done. specialize (IH Hnd).
    assert (k' ∈ {[k]} ∪ visited <-> k' ∈ visited) as Hiff by set_solver.
    repeat case_decide; try tauto; lia.
Qed.

Lemma unvisited_edges_le visited l : unvisited_edges visited l <= length (l.*2 ≫= id).
Proof.
  induction l as [|[k es] l IH]; [simpl; lia|].
  replace (((k, es) :: l).*2 ≫= id) with (es ++ (l.*2 ≫= id)) by reflexivity.
  rewrite length_app. unfold unvisited_edges in *. cbn [sum_list_with fst snd]. case_decide; lia.
Qed.

Definition walk_measure (st : walk_state) : nat :=
  length (ws_pq st) + unvisited_edges (ws_visited st) (map_to_list (backward d)).

Lemma filter_length_le {A} (f : A -> bool) l : length (List.filter f l) <= length l.
Proof. induction l as [|x l IH]; simpl; [lia|]. destruct (f x); simpl; lia. Qed.

Lemma visit_measure visited k :
  k ∉ visited ->
  unvisited_edges ({[k]} ∪ visited) (map_to_list (backward d)) + length (Prerequisites d k) =
  unvisited_edges visited (map_to_list (backward d)).
Proof.
  intros Hk. rewrite <- (unvisited_edges_visit visited k); [|apply NoDup_fst_map_to_list|done].
  unfold Prerequisites. by rewrite list_to_map_to_list.
Qed.

Lemma walk_step_measure st item pq :
  heap_pop pq_less (ws_pq st) = Some (item, pq) ->
  walk_measure (walk_step d promptThreadID scope cfg refFloor st (pi_entry item) pq) < walk_measure st.
Proof.
  intros Hp. apply heap_pop_length in Hp. unfold walk_measure, walk_step.
  case_decide as Hv; simpl; [lia|].
  pose proof (visit_measure _ _ Hv) as Hm.
  destruct (flt _ _); simpl; [lia|].
  rewrite extend_fold_perm, length_app, length_fmap.
  pose proof (filter_length_le (extend_guard ({[se_MessageID (pi_entry item)]} ∪ ws_visited st))
    (Prerequisites d (se_MessageID (pi_entry item)))). lia.
Qed.

Lemma walk_terminates fuel st :
  walk_measure st <= fuel ->
  is_Some (walk d promptThreadID scope cfg refFloor fuel st).
Proof.
  revert st. induction fuel as [|fuel IH]; intros st Hm; simpl;
    destruct (heap_pop pq_less (ws_pq st)) as [[item pq]|] eqn:Ep; eauto.
  - apply heap_pop_length in Ep. unfold walk_measure in Hm. lia.
  - apply IH. pose proof (walk_step_measure st item pq Ep). lia.
Qed.

Lemma walk_init_measure :
  walk_measure (walk_init d promptID promptThreadID scope cfg) <= walk_fuel d.
Proof.
  unfold walk_measure, walk_init, walk_fuel. simpl.
  rewrite seed_fold_perm, length_app, length_fmap.
  pose proof (filter_length_le (seed_ok promptThreadID scope cfg) (Prerequisites d promptID)).
  rewrite heap_init_perm. simpl.
  pose proof (visit_measure ∅ promptID) as Hv. rewrite union_empty_r_L in Hv.
  pose proof (unvisited_edges_le ∅ (map_to_list (backward d))).
  unfold index_edges. specialize (Hv ltac:(set_solver)). lia.
Qed.

Lemma walk_total :
  exists st, walk d promptThreadID scope cfg refFloor (walk_fuel d)
               (walk_init d promptID promptThreadID scope cfg) = Some st.
Proof. apply walk_terminates, walk_init_measure. Qed.
End WalkTermination.

(** The best-first traversal terminates on every graph, cyclic ones
    included, and whatever the scores (NaN included): a message is expanded
    at most once, so the number of stored edges bounds the iterations. *)
Theorem extractSubgraph_terminates (d : dag) (promptID promptThreadID : string)
    (scope : SelectionScope) (cfg : EngineConfig) (refFloor : list float) :
  is_Some (extractSubgraph d promptID promptThreadID scope cfg refFloor).
Proof.
  unfold extractSubgraph.
  destruct (walk_total d promptID promptThreadID scope cfg refFloor) as [st ->]. eauto.
Qed.

(** ** What the walk selects *)

Section WalkSpec.
Context (d : dag) (promptID promptThreadID : string) (scope : SelectionScope)
        (cfg : EngineConfig) (refFloor : list float).
Let seed_ok := seed_ok promptThreadID scope cfg.
Let extend_ok := extend_ok promptThreadID scope cfg refFloor.
Let extend_guard := extend_guard promptThreadID scope cfg refFloor.

(** [via] leads backward from message [at_] to message [dest]. *)
Fixpoint chain (at_ : string) (via : list Edge) (dest : string) : Prop :=
  match via with
  | [] => at_ = dest
  | e :: via' => e ∈ Prerequisites d at_ /\ chain (e_FromMessageId e) via' dest
  end.

(** The chain rule over a path: the seed verdict times the relational
    strengths beyond, and the product of the raw observations. *)
Definition chain_score (e : Edge) (rest : list Edge) : float :=
  fold_left (fun s x => fmul (relationalEdgeScore x refFloor) s) rest (seedEdgeScore e).
Definition chain_weight (e : Edge) (rest : list Edge) : float :=
  fold_left (fun w x => fmul w (f64_of_f32 (e_CrossEncoderScore x))) rest
    (f64_of_f32 (e_CrossEncoderScore e)).

(** An entry is determined by its via path. *)
Definition path_entry (e : Edge) (rest : list Edge) : selectionEntry := {|
  se_MessageID := e_FromMessageId (List.last rest e);
  se_EffectiveScore := chain_score e rest;
  se_HopDepth := Z.of_nat (length (e :: rest));
  se_ViaEdges := e :: rest;
  se_ThreadID := e_FromThreadId (List.last rest e);
  se_CrossThread := negb (String.eqb (e_FromThreadId (List.last rest e)) promptThreadID);
  se_ProvenanceWeight := chain_weight e rest
|}.

Definition entry_ok (s : selectionEntry) : Prop :=
  exists e rest, s = path_entry e rest /\
    chain promptID (e :: rest) (se_MessageID s) /\
    seed_ok e = true /\ Forall (fun x => extend_ok x = true) rest.

Lemma chain_snoc at_ via dest e :
  chain at_ via dest -> e ∈ Prerequisites d dest -> chain at_ (via ++ [e]) (e_FromMessageId e).
Proof.
  revert at_. induction via as [|x via IH]; intros at_; simpl; [intros ->; done|].
  intros [? ?] ?. split; [done|]. by apply IH.
Qed.

Lemma extend_path e rest x :
  extend_entry promptThreadID refFloor (path_entry e rest) x = path_entry e (rest ++ [x]).
Proof.
  unfold extend_entry, path_entry, chain_score, chain_weight. simpl.
  rewrite !fold_left_app, List.last_last, length_app. simpl. f_equal. lia.
Qed.

Lemma seed_entry_ok e :
  e ∈ Prerequisites d promptID -> seed_ok e = true -> entry_ok (seed_entry promptThreadID e).
Proof. intros. exists e, []. repeat split; simpl; done. Qed.

Lemma extend_entry_ok s x :
  entry_ok s -> x ∈ Prerequisites d (se_MessageID s) -> extend_ok x = true ->
  entry_ok (extend_entry promptThreadID refFloor s x).
Proof.
  intros (e & rest & -> & Hc & Hs & Hr) Hx Hok. rewrite extend_path.
  exists e, (rest ++ [x]). split; [done|]. split.
  - replace (se_MessageID (path_entry e (rest ++ [x]))) with (e_FromMessageId x)
      by (simpl; by rewrite List.last_last).
    rewrite app_comm_cons. by eapply chain_snoc.
  - split; [done|]. apply Forall_app. auto.
Qed.

(** An entry continues a selected one, or is a seed. *)
Definition grounded (sel : list selectionEntry) (s : selectionEntry) : Prop :=
  length (se_ViaEdges s) = 1 \/
  exists s' x, s' ∈ sel /\ se_ViaEdges s = se_ViaEdges s' ++ [x].

Lemma grounded_app sel sel' s : grounded sel s -> grounded (sel ++ sel') s.
Proof.
  intros [?|(s' & x & Hs & ?)]; [by left|right]. exists s', x. rewrite elem_of_app. auto.
Qed.

(** Message [id] has been decided, or is waiting in the queue. *)
Definition pending (st : walk_state) (id : string) : Prop :=
  id ∈ ws_visited st \/ exists it, it ∈ ws_pq st /\ se_MessageID (pi_entry it) = id.

Definition item_ok (sel : list selectionEntry) (it : pqItem) : Prop :=
  it = item_of (pi_entry it) /\ entry_ok (pi_entry it) /\ grounded sel (pi_entry it).

Record walk_inv (st : walk_state) : Prop := {
  wi_visited : forall id, id ∈ ws_visited st <->
    id = promptID \/ id ∈ se_MessageID <$> ws_selected st \/ is_Some (ws_belowFloor st !! id);
  wi_nodup : NoDup (promptID :: (se_MessageID <$> ws_selected st));
  wi_disjoint : forall id, is_Some (ws_belowFloor st !! id) ->
    id ∉ promptID :: (se_MessageID <$> ws_selected st);
  wi_selected : forall s, s ∈ ws_selected st ->
    entry_ok s /\ grounded (ws_selected st) s /\ flt (se_EffectiveScore s) (LossRatio cfg) = false;
  wi_below : forall id v, ws_belowFloor st !! id = Some v ->
    flt v (LossRatio cfg) = true /\
    exists s, entry_ok s /\ se_MessageID s = id /\ se_EffectiveScore s = v;
  wi_queue : forall it, it ∈ ws_pq st -> item_ok (ws_selected st) it;
  wi_seeds : forall e, e ∈ Prerequisites d promptID -> seed_ok e = true ->
    pending st (e_FromMessageId e);
  wi_expand : forall s e, s ∈ ws_selected st -> e ∈ Prerequisites d (se_MessageID s) ->
    extend_ok e = true -> pending st (e_FromMessageId e)
}.

Lemma elem_of_filter_fmap {A B} (f : A -> B) (g : A -> bool) l y :
  y ∈ f <$> List.filter g l <-> exists x, x ∈ l /\ g x = true /\ y = f x.
Proof.
  rewrite list_elem_of_fmap. setoid_rewrite list_elem_of_In. setoid_rewrite filter_In. naive_solver.
Qed.

Lemma walk_init_inv : walk_inv (walk_init d promptID promptThreadID scope cfg).
Proof.
  assert (forall it, it ∈ ws_pq (walk_init d promptID promptThreadID scope cfg) <->
    exists e, e ∈ Prerequisites d promptID /\ seed_ok e = true /\
      it = item_of (seed_entry promptThreadID e)) as Hq.
  { intros it. unfold walk_init. simpl. rewrite seed_fold_perm, heap_init_perm, app_nil_r.
    apply elem_of_filter_fmap. }
  split; simpl.
  - intros id. rewrite elem_of_singleton, lookup_empty. split; [auto|].
    intros [?|[?%elem_of_nil|[??]]]; done.
  - apply NoDup_singleton.
  - intros id. rewrite lookup_empty. by intros [??].
  - intros s ?%elem_of_nil. done.
  - intros id v. by rewrite lookup_empty.
  - intros it Hit. apply Hq in Hit as (e & He & Hs & ->).
    split; [done|]. split; [by apply seed_entry_ok|by left].
  - intros e He Hs. right. exists (item_of (seed_entry promptThreadID e)).
    split; [|done]. apply Hq. eauto.
  - intros s e ?%elem_of_nil. done.
Qed.

Section Step.
Context (st : walk_state) (item : pqItem) (pq : list pqItem).
Hypothesis Hpop : heap_pop pq_less (ws_pq st) = Some (item, pq).
Hypothesis Hinv : walk_inv st.
Let entry := pi_entry item.
Let st' := walk_step d promptThreadID scope cfg refFloor st entry pq.

Lemma step_queue it : it ∈ ws_pq st <-> it = item \/ it ∈ pq.
Proof. rewrite (heap_pop_perm _ _ _ _ Hpop). apply elem_of_cons. Qed.

Lemma step_entry : entry_ok entry /\ grounded (ws_selected st) entry.
Proof. destruct (wi_queue _ Hinv item) as (_ & ? & ?); [apply step_queue; auto|done]. Qed.

(** The queue after the step, when the entry is selected. *)
Lemma step_pushed visited it :
  it ∈ fold_left (extend_step promptThreadID scope cfg refFloor visited entry)
         (Prerequisites d (se_MessageID entry)) pq <->
  it ∈ pq \/ exists e, e ∈ Prerequisites d (se_MessageID entry) /\
    e_FromMessageId e ∉ visited /\ extend_ok e = true /\
    it = item_of (extend_entry promptThreadID refFloor entry e).
Proof.
  rewrite extend_fold_perm, elem_of_app, elem_of_filter_fmap.
  unfold Selection.extend_guard. setoid_rewrite andb_true_iff.
  setoid_rewrite negb_true_iff. setoid_rewrite bool_decide_eq_false. naive_solver.
Qed.

(** A step decides the popped message and loses no pending one. *)
Lemma step_pending id : pending st id -> pending st' id.
Proof.
  unfold pending, st', walk_step. intros Hp.
  assert (id ∈ ws_visited st \/ id = se_MessageID entry \/
          exists it, it ∈ pq /\ se_MessageID (pi_entry it) = id) as Hp'.
  { destruct Hp as [?|(it & Hit & <-)]; [auto|].
    apply step_queue in Hit as [-> | ?]; eauto. }
  case_decide; simpl; [|destruct (flt _ _); simpl].
  - destruct Hp' as [?|[->|?]]; auto.
  - rewrite elem_of_union, elem_of_singleton. naive_solver.
  - rewrite elem_of_union, elem_of_singleton. destruct Hp' as [?|[->|(it & ? & ?)]]; auto.
    right. exists it. split; [|done]. apply step_pushed. auto.
Qed.

Lemma step_expand e :
  se_MessageID entry ∉ ws_visited st ->
  flt (se_EffectiveScore entry) (LossRatio cfg) = false ->
  e ∈ Prerequisites d (se_MessageID entry) -> extend_ok e = true ->
  pending st' (e_FromMessageId e).
Proof.
  intros Hv Hf He Hok. unfold pending, st', walk_step.
  rewrite decide_False by done. rewrite Hf. simpl.
  destruct (decide (e_FromMessageId e ∈ {[se_MessageID entry]} ∪ ws_visited st)); [by left|right].
  eexists. split; [apply step_pushed; right; exists e; done|done].
Qed.

Lemma walk_step_inv : walk_inv st'.
Proof.
  destruct step_entry as [Hok Hgr]. pose proof step_pending as Hpend. pose proof step_expand as Hexp.
  destruct Hinv as [Hvis Hnd Hdis Hsel Hbel Hque Hsee Hexpand].
  unfold st' in *. unfold walk_step in *. case_decide as Hv.
  { split; simpl; try done; [|by auto|by eauto].
    intros it Hit. apply Hque, step_queue. auto. }
  assert (se_MessageID entry ∉ promptID :: (se_MessageID <$> ws_selected st)) as Hnew.
  { rewrite elem_of_cons. intros ?. apply Hv, Hvis. tauto. }
  assert (~ is_Some (ws_belowFloor st !! se_MessageID entry)) as Hnb.
  { intros ?. apply Hv, Hvis. auto. }
  destruct (flt (se_EffectiveScore entry) (LossRatio cfg)) eqn:Hf; split; simpl in *; try done.
  - intros id. rewrite elem_of_union, elem_of_singleton, lookup_insert_is_Some, Hvis. naive_solver.
  - intros id. rewrite lookup_insert_is_Some. intros [<-|[_ ?]]; auto.
  - intros id v. rewrite lookup_insert. case_decide; [|apply Hbel].
    intros [= <-]. split; [done|]. by exists entry.
  - intros it Hit. apply Hque, step_queue. auto.
  - by auto.
  - by eauto.
  - intros id. rewrite fmap_app, elem_of_app, elem_of_union, elem_of_singleton, Hvis.
    simpl. rewrite list_elem_of_singleton. naive_solver.
  - rewrite fmap_app, app_comm_cons. apply NoDup_app. split; [done|].
    split; [|apply NoDup_singleton]. intros id Hid. simpl.
    rewrite list_elem_of_singleton. intros ->. done.
  - intros id Hid. rewrite fmap_app, app_comm_cons, elem_of_app. simpl.
    rewrite list_elem_of_singleton. intros [?|?]; [by eapply Hdis|by subst].
  - intros s. rewrite elem_of_app, list_elem_of_singleton. intros [Hs| ->].
    + destruct (Hsel s Hs) as (? & ? & ?). repeat split; auto using grounded_app.
    + repeat split; auto using grounded_app.
  - intros it. rewrite step_pushed. intros [Hit|(e & He & Hnv & Hex & ->)].
    + destruct (Hque it) as (? & ? & ?); [apply step_queue; auto|].
      repeat split; auto using grounded_app.
    + split; [done|]. split; [by apply extend_entry_ok|]. right.
      exists entry, e. rewrite elem_of_app, list_elem_of_singleton. auto.
  - by auto.
  - intros s e. rewrite elem_of_app, list_elem_of_singleton.
    intros [Hs| ->] He Hex; [by eauto|by apply Hexp].
Qed.
End Step.

Lemma walk_ok_inv fuel st st' :
  walk_inv st -> walk d promptThreadID scope cfg refFloor fuel st = Some st' ->
  walk_inv st' /\ ws_pq st' = [].
Proof.
  revert st. induction fuel as [|fuel IH]; intros st Hi H; simpl in H;
    destruct (heap_pop pq_less (ws_pq st)) as [[item pq]|] eqn:Ep; try done.
  - injection H as <-. split; [done|]. destruct (ws_pq st) eqn:Eq; [done|].
    destruct (heap_pop_Some pq_less (ws_pq st)) as (? & ? & Hs); rewrite Eq in *; congruence.
  - eapply IH; [|exact H]. by apply walk_step_inv.
  - injection H as <-. split; [done|]. destruct (ws_pq st) eqn:Eq; [done|].
    destruct (heap_pop_Some pq_less (ws_pq st)) as (? & ? & Hs); rewrite Eq in *; congruence.
Qed.

Lemma extractSubgraph_inv selected below :
  extractSubgraph d promptID promptThreadID scope cfg refFloor = Some (selected, below) ->
  exists st, walk_inv st /\ ws_pq st = [] /\ ws_selected st = selected /\ ws_belowFloor st = below.
Proof.
  unfold extractSubgraph. destruct (walk _ _ _ _ _ _ _) as [st|] eqn:E; [|done].
  intros [= <- <-]. apply walk_ok_inv in E as [? ?]; [|apply walk_init_inv]. by exists st.
Qed.
End WalkSpec.

(** C7: what the best-first traversal selects.  Each selected message is
    reached by a backward path of stored edges from the prompt, none of them a
    provenance edge, all inside the scope, the first accepted on its stored
    verdict and the others on their re-interpreted observation; its score,
    weight, depth and thread are those of the path, and the score clears the
    stance.  No message is selected twice, the prompt never; what missed the
    stance is recorded as such; and nothing eligible is silently dropped:
    every message behind an accepted edge of the prompt or of a selected
    message has been decided. *)
Theorem extractSubgraph_spec (d : dag) (promptID promptThreadID : string) (scope : SelectionScope)
    (cfg : EngineConfig) (refFloor : list float)
    (selected : list selectionEntry) (below : gmap string float)
    (Hrun : extractSubgraph d promptID promptThreadID scope cfg refFloor = Some (selected, below)) :
  let decided id :=
    id = promptID \/ id ∈ se_MessageID <$> selected \/ is_Some (below !! id) in
  NoDup (promptID :: (se_MessageID <$> selected)) /\
  (forall s, s ∈ selected ->
     entry_ok d promptID promptThreadID scope cfg refFloor s /\
     flt (se_EffectiveScore s) (LossRatio cfg) = false) /\
  (forall id v, below !! id = Some v ->
     id ∉ promptID :: (se_MessageID <$> selected) /\ flt v (LossRatio cfg) = true /\
     exists s, entry_ok d promptID promptThreadID scope cfg refFloor s /\
               se_MessageID s = id /\ se_EffectiveScore s = v) /\
  (forall e, e ∈ Prerequisites d promptID -> seed_ok promptThreadID scope cfg e = true ->
     decided (e_FromMessageId e)) /\
  (forall s e, s ∈ selected -> e ∈ Prerequisites d (se_MessageID s) ->
     extend_ok promptThreadID scope cfg refFloor e = true -> decided (e_FromMessageId e)).
Proof.
  intros decided. apply extractSubgraph_inv in Hrun as (st & Hi & Hq & <- & <-).
  assert (forall id, pending st id -> decided id) as Hd.
  { intros id [Hv|(it & Hit & _)]; [by apply (wi_visited _ _ _ _ _ _ _ Hi)|].
    rewrite Hq in Hit. by apply elem_of_nil in Hit. }
  destruct Hi as [_ Hnd Hdis Hsel Hbel _ Hsee Hexp].
  split; [done|]. split; [intros s Hs; by destruct (Hsel s Hs) as (? & _ & ?)|].
  split; [|split; [auto|eauto]].
  intros id v Hv. destruct (Hbel id v Hv) as (? & s & ? & ? & ?).
  split; [apply Hdis; eauto|]. split; [done|]. by exists s.
Qed.

(** ** Depth-first search computes reachability *)

Section Reach.
Context `{!MapRange string} (table : gmap string (gset string)).

Definition prereq_step (a b : string) : Prop := b ∈ default ∅ (table !! a).

Lemma elem_of_range_set s x : x ∈ range_set s <-> x ∈ s.
Proof.
  unfold range_set. rewrite list_elem_of_fmap. split.
  - intros ([y []] & -> & Hy). apply elem_of_map_range, lookup_set_to_map in Hy; [|done].
    destruct Hy as (z & ? & [= ->]). done.
  - intros Hx. exists (x, tt). split; [done|]. apply elem_of_map_range, lookup_set_to_map; [done|].
    by exists x.
Qed.

Context (U : gset string).
Hypothesis table_in_U : forall a b, prereq_step a b -> b ∈ U.

(** The nodes added to [v] are explored, and reachable from [node]. *)
Record explored (node : string) (v v' : gset string) : Prop := {
  ex_sub : v ⊆ v';
  ex_closed : forall x y, x ∈ v' -> x ∉ v -> prereq_step x y -> y ∈ v';
  ex_reach : forall x, x ∈ v' -> x ∉ v -> tc prereq_step node x
}.

Lemma explored_trans node v1 v2 v3 :
  explored node v1 v2 -> explored node v2 v3 -> explored node v1 v3.
Proof.
  intros [S1 C1 R1] [S2 C2 R2]. split; [set_solver| |];
    intros x; destruct (decide (x ∈ v2)); eauto; set_solver.
Qed.

Lemma dfs_explored fuel node v :
  size (U ∖ v) < fuel ->
  explored node v (dfs table fuel v node) /\
  forall y, prereq_step node y -> y ∈ dfs table fuel v node.
Proof.
  revert node v. induction fuel as [|fuel IH]; intros node v Hf; [lia|]. cbn [dfs].
  assert (forall l v1, (forall y, y ∈ l -> prereq_step node y) -> size (U ∖ v1) <= fuel ->
    let v2 := fold_left (fun visited prereq => if decide (prereq ∈ visited) then visited
                else dfs table fuel ({[prereq]} ∪ visited) prereq) l v1 in
    explored node v1 v2 /\ forall y, y ∈ l -> y ∈ v2) as Hl.
  { induction l as [|p l IHl]; intros v1 Hp Hs; simpl; [split; [split; set_solver|set_solver]|].
    assert (prereq_step node p) as Hnp by (apply Hp; set_solver).
    case_decide as Hd.
    - destruct (IHl v1) as [E1 E2]; [set_solver|done|]. split; [done|].
      intros y [->|Hy]%elem_of_cons; [by apply (ex_sub _ _ _ E1)|auto].
    - assert (size (U ∖ ({[p]} ∪ v1)) < fuel) as Hs'.
      { eapply Nat.lt_le_trans; [|exact Hs]. apply subset_size.
        pose proof (table_in_U node p Hnp). set_solver. }
      destruct (IH p ({[p]} ∪ v1) Hs') as [[S1 C1 R1] Ep].
      set (v2 := dfs table fuel ({[p]} ∪ v1) p) in *.
      assert (explored node v1 v2) as E1.
      { split; [set_solver| |].
        - intros x y Hx Hx'. destruct (decide (x = p)) as [->|]; [by apply Ep|].
          apply C1; set_solver.
        - intros x Hx Hx'. destruct (decide (x = p)) as [->|]; [by apply tc_once|].
          eapply tc_l; [exact Hnp|]. apply R1; set_solver. }
      destruct (IHl v2) as [E2 E3]; [set_solver| |].
      { eapply Nat.le_trans; [apply subseteq_size|exact Hs]. set_solver. }
      split; [by eapply explored_trans|].
      intros y [->|Hy]%elem_of_cons; [|auto]. apply (ex_sub _ _ _ E2). set_solver. }
  destruct (Hl (range_set (default ∅ (table !! node))) v) as [E1 E2]; [|lia|].
  { intros y. by rewrite elem_of_range_set. }
  split; [done|]. intros y Hy. apply E2. by apply elem_of_range_set.
Qed.

Lemma dfs_reach fuel node x :
  size U < fuel -> x ∈ dfs table fuel ∅ node <-> tc prereq_step node x.
Proof.
  intros Hf. destruct (dfs_explored fuel node ∅) as [[_ C R] E].
  { by rewrite difference_empty_L. }
  split; [intros Hx; apply R; set_solver|].
  cut (forall a b, tc prereq_step a b -> (forall y, prereq_step a y -> y ∈ dfs table fuel ∅ node) ->
    b ∈ dfs table fuel ∅ node); [eauto|].
  clear -C. intros a b Ht. induction Ht as [a b Hs|a c b Hs _ IH]; intros Ha; [auto|].
  apply IH. intros y Hy. eapply C; [apply Ha, Hs|set_solver|exact Hy].
Qed.
End Reach.

Lemma size_list_to_set_le (l : list string) : size (list_to_set l : gset string) <= length l.
Proof.
  induction l as [|x l IH]; [by rewrite list_to_set_nil, size_empty|]. rewrite list_to_set_cons.
  rewrite size_union_alt, size_singleton.
  pose proof (subseteq_size (list_to_set l ∖ {[x]}) (list_to_set l : gset string) ltac:(set_solver)).
  cbn [length]. lia.
Qed.

Section ReductionSpec.
Context `{!MapRange string}.

Lemma prereq_table_ids selected a b :
  prereq_step (prereq_table selected) a b ->
  a ∈ se_MessageID <$> selected /\ b ∈ se_MessageID <$> selected.
Proof.
  unfold prereq_step, prereq_table. set (ids := list_to_set (se_MessageID <$> selected) : gset string).
  assert (forall l (m : gmap string (gset string)),
    (forall k s, m !! k = Some s -> k ∈ se_MessageID <$> selected /\ s ⊆ ids) ->
    l ⊆ selected -> forall k s,
    fold_left (fun m s => <[se_MessageID s := directPrereqs ids s]> m) l m !! k = Some s ->
    k ∈ se_MessageID <$> selected /\ s ⊆ ids) as Hl.
  { induction l as [|x l IH]; intros m Hm Hsub; simpl; [done|]. apply IH; [|set_solver].
    intros k s. rewrite lookup_insert. case_decide as Hk; [|apply Hm].
    intros [= <-]. subst k. split; [apply list_elem_of_fmap_2; set_solver|].
    unfold directPrereqs. intros y Hy. apply elem_of_list_to_set, list_elem_of_filter in Hy. tauto. }
  destruct (_ !! a) as [s|] eqn:E; simpl; [|set_solver]. intros Hb.
  destruct (Hl selected ∅ ltac:(intros k s'; by rewrite lookup_empty) ltac:(done) a s E) as [? Hs].
  split; [done|]. by apply Hs, elem_of_list_to_set in Hb.
Qed.

(** [b] is reachable from [a] through the recorded prerequisites. *)
Definition prereq_path (selected : list selectionEntry) : string -> string -> Prop :=
  tc (prereq_step (prereq_table selected)).

Lemma reachable_spec selected a b :
  b ∈ default ∅ (reachable selected !! a) <-> prereq_path selected a b.
Proof.
  unfold reachable. set (ids := list_to_set (se_MessageID <$> selected) : gset string).
  assert (forall x y, prereq_step (prereq_table selected) x y -> x ∈ ids /\ y ∈ ids) as Hids.
  { intros x y Hxy. unfold ids. rewrite !elem_of_list_to_set. by apply prereq_table_ids. }
  destruct (decide (a ∈ ids)) as [Ha|Ha].
  - replace (set_to_map _ _ !! a) with (Some (reachable_from selected a)).
    2: { symmetry. apply lookup_set_to_map; [done|]. by exists a. }
    simpl. unfold reachable_from. apply (dfs_reach _ ids); [intros x y Hxy; by destruct (Hids x y Hxy)|].
    unfold ids. eapply Nat.le_lt_trans; [apply size_list_to_set_le|]. rewrite length_fmap. lia.
  - destruct (_ !! a) as [r|] eqn:E; simpl.
    + apply lookup_set_to_map in E; [|done]. destruct E as (y & ? & [= -> <-]). done.
    + split; [set_solver|]. intros Ht. exfalso. apply Ha.
      destruct Ht as [? ? Hs|? ? ? Hs _]; by destruct (Hids _ _ Hs).
Qed.
End ReductionSpec.

(** Transitive reduction drops a via edge exactly when its source is
    reachable, through one or more recorded prerequisites, from the source of
    another via edge of the same message; nothing else about the selection
    changes. *)
Theorem transitiveReduction_spec `{!MapRange string} (selected : list selectionEntry)
    (Hmany : 1 < length selected) :
  Forall2 (fun s s' =>
    s' = with_via s (se_ViaEdges s') /\
    sublist (se_ViaEdges s') (se_ViaEdges s) /\
    forall e, e ∈ se_ViaEdges s' <->
      e ∈ se_ViaEdges s /\
      ~ exists o, o ∈ se_ViaEdges s /\ e_FromMessageId o <> e_FromMessageId e /\
                  prereq_path selected (e_FromMessageId o) (e_FromMessageId e))
    selected (transitiveReduction selected).
Proof.
  unfold transitiveReduction. rewrite (proj2 (Nat.leb_gt _ _)) by lia. cbv zeta.
  apply Forall2_fmap_r, Forall_Forall2_diag, Forall_true. intros s. split; [done|].
  cbn [se_ViaEdges with_via]. split.
  - induction (se_ViaEdges s) as [|x l IH] at 2 3; simpl; [done|]. destruct (negb _); by constructor.
  - intros e. rewrite !list_elem_of_In, filter_In, negb_true_iff. apply and_iff_compat_l.
    unfold redundant. rewrite <- not_true_iff_false, existsb_exists. apply not_iff_compat.
    setoid_rewrite andb_true_iff. setoid_rewrite bool_decide_eq_true.
    setoid_rewrite reachable_spec. setoid_rewrite negb_true_iff. setoid_rewrite String.eqb_neq.
    setoid_rewrite list_elem_of_In. done.
Qed.

Section LastHop.
Context `{!MapRange string}.
Context (d : dag) (promptID promptThreadID : string) (scope : SelectionScope)
        (cfg : EngineConfig) (refFloor : list float) (selected : list selectionEntry).
Hypothesis ids_nodup : NoDup (se_MessageID <$> selected).
Hypothesis sel_ok : forall s, s ∈ selected ->
  entry_ok d promptID promptThreadID scope cfg refFloor s /\ grounded selected s.

Definition via_nodes (s : selectionEntry) : list string := e_FromMessageId <$> se_ViaEdges s.

Lemma via_last s : s ∈ selected -> exists init x,
  se_ViaEdges s = init ++ [x] /\ e_FromMessageId x = se_MessageID s.
Proof.
  intros Hs. destruct (sel_ok s Hs) as [(e & rest & -> & _) _]. simpl.
  destruct rest as [|x l _] using rev_ind; [by exists [], e|].
  exists (e :: l), x. by rewrite List.last_last.
Qed.

Lemma same_id s s' : s ∈ selected -> s' ∈ selected -> se_MessageID s = se_MessageID s' -> s = s'.
Proof.
  intros Hs Hs' He. apply list_elem_of_lookup in Hs as [i Hi], Hs' as [j Hj].
  assert (i = j) as <-; [|congruence].
  eapply NoDup_lookup; [exact ids_nodup|by rewrite list_lookup_fmap, Hi|].
  by rewrite list_lookup_fmap, Hj, He.
Qed.

(** Every prefix of a via path is the via path of a selected message. *)
Lemma via_prefix s l x r :
  s ∈ selected -> se_ViaEdges s = l ++ x :: r ->
  exists s', s' ∈ selected /\ se_ViaEdges s' = l ++ [x] /\ se_MessageID s' = e_FromMessageId x.
Proof.
  revert s. induction r as [|y r IH] using rev_ind; intros s Hs Hv.
  - exists s. split; [done|]. split; [done|].
    destruct (via_last s Hs) as (i & z & Hz & <-). rewrite Hv in Hz.
    apply app_inj_tail in Hz as [_ ->]. done.
  - destruct (sel_ok s Hs) as [_ [H1|(s' & z & Hs' & Hz)]].
    + rewrite Hv, !length_app in H1. simpl in H1. rewrite length_app in H1. simpl in H1. lia.
    + rewrite Hv, app_comm_cons, app_assoc in Hz. apply app_inj_tail in Hz as [Hz ->].
      by apply (IH s').
Qed.

Lemma via_node_selected s a :
  s ∈ selected -> a ∈ via_nodes s ->
  exists s', s' ∈ selected /\ se_MessageID s' = a /\ se_ViaEdges s' `prefix_of` se_ViaEdges s.
Proof.
  intros Hs (x & -> & Hx)%list_elem_of_fmap. apply list_elem_of_split in Hx as (l & r & Hv).
  destruct (via_prefix s l x r Hs Hv) as (s' & ? & Hv' & ?). exists s'. split; [done|].
  split; [done|]. rewrite Hv, Hv'. exists r. by rewrite <- app_assoc.
Qed.

Lemma prereq_table_lookup s :
  s ∈ selected -> prereq_table selected !! se_MessageID s = Some (list_to_set (via_nodes s)).
Proof.
  intros Hs. unfold prereq_table. set (ids := list_to_set (se_MessageID <$> selected) : gset string).
  assert (directPrereqs ids s = list_to_set (via_nodes s)) as <-.
  { unfold directPrereqs. apply set_eq. intros a. rewrite !elem_of_list_to_set, list_elem_of_filter.
    split; [by intros [_ ?]|]. intros Ha. split; [|done].
    destruct (via_node_selected s a Hs Ha) as (s' & ? & <- & _).
    unfold ids. by apply elem_of_list_to_set, list_elem_of_fmap_2. }
  assert (forall l (m : gmap string (gset string)), NoDup (se_MessageID <$> l) -> s ∈ l \/
    (m !! se_MessageID s = Some (directPrereqs ids s) /\ se_MessageID s ∉ se_MessageID <$> l) ->
    fold_left (fun m s => <[se_MessageID s := directPrereqs ids s]> m) l m !! se_MessageID s =
    Some (directPrereqs ids s)) as Hl; [|by apply Hl; auto].
  induction l as [|x l IH]; intros m Hnd Hor; simpl.
  - destruct Hor as [?%elem_of_nil|[? _]]; done.
  - simpl in Hnd. apply NoDup_cons in Hnd as [Hx Hnd]. apply IH; [done|].
    destruct Hor as [[->|Hin]%elem_of_cons|[Hm Hni]]; [|by left|].
    + right. by rewrite lookup_insert_eq.
    + right. simpl in Hni. apply not_elem_of_cons in Hni as [Hne Hni].
      by rewrite lookup_insert_ne.
Qed.

Lemma prereq_path_nodes s a :
  s ∈ selected -> prereq_path selected (se_MessageID s) a <-> a ∈ via_nodes s.
Proof.
  intros Hs. split.
  - intros Ht. remember (se_MessageID s) as i eqn:Hi. revert s Hs Hi.
    assert (forall s x, s ∈ selected -> prereq_step (prereq_table selected) (se_MessageID s) x ->
      x ∈ via_nodes s) as Hstep.
    { intros s x Hs Hx. unfold prereq_step in Hx. rewrite prereq_table_lookup in Hx by done.
      by apply elem_of_list_to_set in Hx. }
    induction Ht as [i a Hx|i b a Hx _ IH]; intros s Hs ->; [by apply Hstep|].
    apply Hstep in Hx; [|done].
    destruct (via_node_selected s b Hs Hx) as (s' & Hs' & Hb & [r Hr]).
    specialize (IH s' Hs' (eq_sym Hb)). unfold via_nodes in *. rewrite Hr, fmap_app. set_solver.
  - intros Ha. apply tc_once. unfold prereq_step. rewrite prereq_table_lookup by done.
    by apply elem_of_list_to_set.
Qed.

Lemma redundant_spec s l x r :
  s ∈ selected -> se_ViaEdges s = l ++ x :: r ->
  redundant (reachable selected) (se_ViaEdges s) x = negb (bool_decide (r = [])).
Proof.
  intros Hs Hv. apply eq_true_iff_eq. unfold redundant. rewrite existsb_exists.
  setoid_rewrite andb_true_iff. setoid_rewrite bool_decide_eq_true. setoid_rewrite reachable_spec.
  setoid_rewrite negb_true_iff. setoid_rewrite String.eqb_neq.
  setoid_rewrite <- list_elem_of_In. rewrite bool_decide_eq_false.
  destruct (via_prefix s l x r Hs Hv) as (sx & Hsx & Hvx & Hix). split.
  - intros (o & Ho & Hne & Hp) ->. apply list_elem_of_split in Ho as (lo & ro & Hvo).
    destruct (via_prefix s lo o ro Hs Hvo) as (so & Hso & Hvso & Hio). rewrite <- Hio in Hp.
    apply prereq_path_nodes in Hp; [|done].
    destruct (via_node_selected so _ Hso Hp) as (s2 & Hs2 & Hi2 & [t Ht]).
    assert (s2 = sx) as -> by (apply same_id; congruence).
    assert (sx = s) as -> by (apply same_id; [done..|]; destruct (via_last s Hs) as (i & z & Hz & <-);
      rewrite Hv in Hz; apply app_inj_tail in Hz as [_ ->]; congruence).
    rewrite Hvso, Hvo in Ht. assert (ro = []) as ->.
    { apply (f_equal length) in Ht. rewrite !length_app in Ht. simpl in Ht.
      destruct ro; [done|]. simpl in Ht. lia. }
    rewrite Hv in Hvo. apply app_inj_tail in Hvo as [_ ->]. done.
  - intros Hr. destruct r as [|y r' _] using rev_ind; [done|].
    assert (e_FromMessageId y = se_MessageID s) as Hy.
    { destruct (via_last s Hs) as (i & z & Hz & <-). rewrite Hv, app_comm_cons, app_assoc in Hz.
      apply app_inj_tail in Hz as [_ ->]. done. }
    exists y. rewrite Hy. split; [rewrite Hv; set_solver|]. split.
    + intros He. assert (s = sx) as ->; [by apply same_id; congruence|].
      rewrite Hvx in Hv. apply (f_equal length) in Hv. rewrite !length_app in Hv.
      simpl in Hv. rewrite length_app in Hv. simpl in Hv. lia.
    + apply prereq_path_nodes; [done|]. unfold via_nodes. rewrite Hv, fmap_app. set_solver.
Qed.

Lemma filter_last s :
  s ∈ selected ->
  exists x, last (se_ViaEdges s) = Some x /\
    List.filter (fun e => negb (redundant (reachable selected) (se_ViaEdges s) e)) (se_ViaEdges s) = [x].
Proof.
  intros Hs. destruct (via_last s Hs) as (init & x & Hv & _). exists x.
  split; [by rewrite Hv, last_snoc|].
  assert (forall l r, init ++ [x] = l ++ r ->
    List.filter (fun e => negb (redundant (reachable selected) (se_ViaEdges s) e)) r =
    if decide (r = []) then [] else [x]) as Hall.
  { intros l r. revert l. induction r as [|y r IH]; intros l Hlr; [done|].
    simpl. rewrite (redundant_spec s l y r Hs) by (by rewrite Hv, Hlr).
    rewrite negb_involutive, (IH (l ++ [y])) by (by rewrite <- app_assoc).
    destruct r as [|z r]; simpl; [|done].
    apply app_inj_tail in Hlr as [_ ->]. done. }
  specialize (Hall [] (init ++ [x]) eq_refl). rewrite <- Hv in Hall.
  rewrite Hall, decide_False; [done|]. rewrite Hv. by destruct init.
Qed.
End LastHop.

Lemma transitiveReduction_last_hop `{!MapRange string} d promptID promptThreadID scope cfg refFloor st :
  walk_inv d promptID promptThreadID scope cfg refFloor st ->
  Forall2 (fun s s' => exists x, last (se_ViaEdges s) = Some x /\ s' = with_via s [x])
    (ws_selected st) (transitiveReduction (ws_selected st)).
Proof.
  intros Hi. pose proof (wi_nodup _ _ _ _ _ _ _ Hi) as Hnd. apply NoDup_cons in Hnd as [_ Hnd].
  assert (forall s, s ∈ ws_selected st ->
    entry_ok d promptID promptThreadID scope cfg refFloor s /\ grounded (ws_selected st) s) as Hok.
  { intros s Hs. by destruct (wi_selected _ _ _ _ _ _ _ Hi s Hs) as (? & ? & _). }
  unfold transitiveReduction. destruct (length (ws_selected st) <=? 1) eqn:El.
  - apply Nat.leb_le in El. apply Forall_Forall2_diag, Forall_forall. intros s Hs.
    destruct (Hok s Hs) as [(e & rest & -> & _) [H1|(s' & x & Hs' & Hx)]].
    + destruct rest; [|done]. by exists e.
    + destruct (ws_selected st) as [|a [|b l]]; simpl in El; [set_solver| |lia].
      apply list_elem_of_singleton in Hs as <-. apply list_elem_of_singleton in Hs' as ->.
      apply (f_equal length) in Hx. rewrite length_app in Hx. simpl in Hx. lia.
  - cbv zeta. apply Forall2_fmap_r, Forall_Forall2_diag, Forall_forall. intros s Hs.
    destruct (filter_last d promptID promptThreadID scope cfg refFloor (ws_selected st) Hnd Hok s Hs)
      as (x & Hx & Hf). exists x. split; [done|]. by rewrite Hf.
Qed.

(** What a selection records of each via path.  On the entries the
    traversal produces, every via path is a chain of selected messages, so
    transitive reduction always collapses it to its last hop: each selected
    message keeps exactly the one edge that reached it. *)
Theorem selection_keeps_last_hop `{!MapRange string} (d : dag) (promptID promptThreadID : string)
    (scope : SelectionScope) (cfg : EngineConfig) (refFloor : list float)
    (selected : list selectionEntry) (below : gmap string float)
    (Hrun : extractSubgraph d promptID promptThreadID scope cfg refFloor = Some (selected, below)) :
  Forall2 (fun s s' => exists x, last (se_ViaEdges s) = Some x /\ s' = with_via s [x])
    selected (transitiveReduction selected).
Proof.
  apply extractSubgraph_inv in Hrun as (st & Hi & _ & <- & _).
  by eapply transitiveReduction_last_hop.
Qed.

(** ** A concrete graph *)

Module SampleGraph.
(** [n / 2^k] as a float32 *)
Definition f32_lit (n k : Z) : float := SpecFloat.binary_normalize 24 128 n (- k) false.
Definition edge (from to : string) (n k : Z) (src : EdgeSource) : Edge :=
  {| e_FromMessageId := from; e_ToMessageId := to; e_Score := f32_lit n k; e_Source := src;
     e_CrossEncoderScore := f32_lit n k; e_FromThreadId := "t"; e_ToThreadId := "t";
     e_ScorerModel := "" |}.
Definition ce (from to : string) (n k : Z) : Edge := edge from to n k EDGE_SOURCE_CROSS_ENCODER.
(** p <- a <- b <- c, p <- b (weak), b <- a (a cycle), and a provenance edge. *)
Definition graph : dag := AddEdges_all newDAG
  [ce "a" "p" 7 3; ce "b" "a" 3 2; ce "c" "b" 3 2; ce "b" "p" 1 2; ce "a" "b" 1 0;
   edge "z" "p" 1 0 EDGE_SOURCE_PROVENANCE].
Definition run : option (list selectionEntry * gmap string float) :=
  extractSubgraph graph "p" "t" SELECTION_SCOPE_THREAD DefaultConfig [].
Definition selected : list selectionEntry :=
  Eval vm_compute in match run with Some (s, _) => s | None => [] end.
Definition below : gmap string float :=
  Eval vm_compute in match run with Some (_, b) => b | None => ∅ end.
End SampleGraph.

Example SampleGraph_run :
  SampleGraph.run = Some (SampleGraph.selected, SampleGraph.below) /\
  (se_MessageID <$> SampleGraph.selected) = ["a"; "b"] /\
  (map_to_list SampleGraph.below).*1 = ["c"].
Proof. vm_compute. auto. Qed.

Lemma extractSubgraph_spec_witness :
  SampleGraph.run = Some (SampleGraph.selected, SampleGraph.below) /\
  NoDup ["p"; "a"; "b"].
Proof.
  assert (SampleGraph.run = Some (SampleGraph.selected, SampleGraph.below)) as Hrun
    by (vm_compute; reflexivity).
  split; [exact Hrun|].
  exact (proj1 (extractSubgraph_spec SampleGraph.graph "p" "t" SELECTION_SCOPE_THREAD DefaultConfig []
    SampleGraph.selected SampleGraph.below Hrun)).
Defined.

Lemma transitiveReduction_spec_witness :
  1 < length SampleGraph.selected /\
  Forall2 (fun s s' => s' = with_via s (se_ViaEdges s'))
    SampleGraph.selected (@transitiveReduction canonical_range SampleGraph.selected).
Proof.
  split; [vm_compute; lia|].
  eapply Forall2_impl; [apply (@transitiveReduction_spec canonical_range SampleGraph.selected)|].
  - vm_compute. lia.
  - intros s s' H. exact (proj1 H).
Defined.

Lemma selection_keeps_last_hop_witness :
  SampleGraph.run = Some (SampleGraph.selected, SampleGraph.below) /\
  Forall2 (fun s s' => exists x, last (se_ViaEdges s) = Some x /\ s' = with_via s [x])
    SampleGraph.selected (@transitiveReduction canonical_range SampleGraph.selected).
Proof.
  assert (SampleGraph.run = Some (SampleGraph.selected, SampleGraph.below)) as Hrun
    by (vm_compute; reflexivity).
  split; [exact Hrun|].
  exact (@selection_keeps_last_hop canonical_range SampleGraph.graph "p" "t" SELECTION_SCOPE_THREAD
    DefaultConfig [] SampleGraph.selected SampleGraph.below Hrun).
Defined.
