(* ===== verification/Provenance.v ===== *)
(** * Provenance mass ([rrc/provenance.go])

    [provenanceMassWalk] walks recorded provenance edges backward from the
    delivered window: a capped best-first reachability pass over a
    [container/heap], then an exact path-sum pass that finalizes a message
    only after the messages that depend on it.  Both loops take fuel bounded
    by the number of stored edges. *)

From Stdlib Require Import ZArith Lia String.
From stdpp Require Import relations.
From S2P Require Import Prelude GoFloat GoSort GoHeap Types Dag Selection.
#[local] Open Scope nat_scope.

Definition provenanceReachCap : nat := 64.

Record provIn := { pv_from : string; pv_weight : float }.

Record boundEntry := { be_id : string; be_bound : float }.

(** [boundHeap.Less]: larger bound first, then smaller id. *)
Definition bound_less (a b : boundEntry) : bool :=
  if feq (be_bound a) (be_bound b) then str_lt (be_id a) (be_id b)
  else flt (be_bound b) (be_bound a).

Definition clamp01 (w : float) : float :=
  if flt w f0 then f0 else if flt f1 w then f1 else w.

(** Phase 1: [threadByID] is written by [contributorsOf], in both phases. *)
Record reach_state := {
  rs_inReach : gset string;
  rs_threadByID : gmap string string;
  rs_settled : gset string;
  rs_best : gmap string float;
  rs_heap : list boundEntry
}.

(** Phase 2 *)
Record mass_state := {
  ms_mass : gmap string float;
  ms_finalized : gset string;
  ms_pending : gmap string Z;
  ms_threadByID : gmap string string
}.

Section Walk.
Context `{!MapRange string}.
Context (d : dag) (anchorIDs : list string) (coneThreadID : string) (scope : SelectionScope).

Definition anchors : gset string := list_to_set anchorIDs.

(** The guards every provenance loop starts with. *)
Definition prov_ok (edge : Edge) : bool :=
  provenance_edge edge && scopeAllows edge coneThreadID scope.

Definition prov_edges (id : string) : list Edge := List.filter prov_ok (Prerequisites d id).

(** [contributorsOf]: its value, and its writes to [threadByID]. *)
Definition contributorsOf (id : string) : list provIn :=
  (fun e => {| pv_from := e_FromMessageId e; pv_weight := f64_of_f32 (e_Score e) |}) <$> prov_edges id.
Definition note_threads (id : string) (threads : gmap string string) : gmap string string :=
  fold_left (fun m e => <[e_FromMessageId e := e_FromThreadId e]> m) (prov_edges id) threads.

Definition reach_push (bound_of : provIn -> float) (st : reach_state) (i : provIn) : reach_state :=
  let id := pv_from i in
  let bound := bound_of i in
  if bool_decide (id ∈ rs_settled st) then st
  else
    let better := match rs_best st !! id with Some cur => flt cur bound | None => true end in
    if better then
      {| rs_inReach := rs_inReach st; rs_threadByID := rs_threadByID st;
         rs_settled := rs_settled st; rs_best := <[id := bound]> (rs_best st);
         rs_heap := heap_push bound_less {| be_id := id; be_bound := bound |} (rs_heap st) |}
    else st.

(** [for _, in := range contributorsOf(id) { push(in.from, ...) }] *)
Definition push_contributors (bound_of : provIn -> float) (st : reach_state) (id : string) : reach_state :=
  fold_left (reach_push bound_of) (contributorsOf id)
    {| rs_inReach := rs_inReach st; rs_threadByID := note_threads id (rs_threadByID st);
       rs_settled := rs_settled st; rs_best := rs_best st; rs_heap := rs_heap st |}.

Definition reach_init : reach_state :=
  fold_left (push_contributors (fun i => clamp01 (pv_weight i))) anchorIDs
    {| rs_inReach := ∅; rs_threadByID := ∅; rs_settled := anchors; rs_best := ∅; rs_heap := [] |}.

(** The state after popping [top]. *)
Definition reach_settle (st : reach_state) (top : boundEntry) (heap : list boundEntry) : reach_state :=
  push_contributors (fun i => fmul (be_bound top) (clamp01 (pv_weight i)))
    {| rs_inReach := {[be_id top]} ∪ rs_inReach st; rs_threadByID := rs_threadByID st;
       rs_settled := {[be_id top]} ∪ rs_settled st; rs_best := rs_best st; rs_heap := heap |}
    (be_id top).

Definition reach_skip (st : reach_state) (heap : list boundEntry) : reach_state :=
  {| rs_inReach := rs_inReach st; rs_threadByID := rs_threadByID st;
     rs_settled := rs_settled st; rs_best := rs_best st; rs_heap := heap |}.

(** The boolean is [truncated]; [None] is running out of fuel. *)
Fixpoint reach_loop (fuel : nat) (st : reach_state) : option (reach_state * bool) :=
  match heap_pop bound_less (rs_heap st) with
  | None => Some (st, false)
  | Some (top, heap) =>
      match fuel with
      | O => None
      | S fuel' =>
          if bool_decide (be_id top ∈ rs_settled st) ||
             flt (be_bound top) (default f0 (rs_best st !! be_id top))
          then reach_loop fuel' (reach_skip st heap)
          else if provenanceReachCap <=? size (rs_inReach st)
          then Some (reach_skip st heap, true)
          else reach_loop fuel' (reach_settle st top heap)
      end
  end.

Definition reach_fuel : nat :=
  sum_list_with (fun a => length (Prerequisites d a)) anchorIDs + walk_fuel d.

Section Mass.
Context (inReach : gset string).

Definition members : list string := sort_strings (range_set inReach).
Definition targets : list string := sort_strings (anchorIDs ++ members).

(** One edge into target [u]: recorded outgoing relation and pending count. *)
Definition index_edge (u : string) (acc : gmap string (list (string * float)) * gmap string Z)
    (edge : Edge) : gmap string (list (string * float)) * gmap string Z :=
  let '(outgoing, pending) := acc in
  let from := e_FromMessageId edge in
  if bool_decide (from ∈ anchors) || negb (bool_decide (from ∈ inReach)) then acc
  else
    (<[from := default [] (outgoing !! from) ++ [(u, f64_of_f32 (e_Score edge))]]> outgoing,
     if negb (bool_decide (u ∈ anchors)) && bool_decide (u ∈ inReach)
     then <[from := (default 0 (pending !! from) + 1)%Z]> pending else pending).

Definition mass_index : gmap string (list (string * float)) * gmap string Z :=
  fold_left (fun acc u => fold_left (index_edge u) (prov_edges u) acc) targets (∅, ∅).
Definition outgoing : gmap string (list (string * float)) := mass_index.1.
Definition pending0 : gmap string Z := mass_index.2.

(** [m += e.weight] or [m += e.weight * mass\[e.to\]] *)
Definition add_mass (mass : gmap string float) (m : float) (e : string * float) : float :=
  if bool_decide (e.1 ∈ anchors) then fadd m e.2
  else if bool_decide (e.1 ∈ inReach) then fadd m (fmul e.2 (default f0 (mass !! e.1)))
  else m.

Definition path_mass (mass : gmap string float) (v : string) : float :=
  fold_left (add_mass mass) (default [] (outgoing !! v)) f0.

Definition free_step (acc : gmap string Z * list string) (finalized : gset string) (i : provIn)
    : gmap string Z * list string :=
  let '(pending, freed) := acc in
  let from := pv_from i in
  if negb (bool_decide (from ∈ inReach)) || bool_decide (from ∈ finalized) then acc
  else
    let n := (default 0 (pending !! from) - 1)%Z in
    (<[from := n]> pending, if (n =? 0)%Z then freed ++ [from] else freed).

Definition finalize (v : string) (st : mass_state) : mass_state * list string :=
  let finalized := {[v]} ∪ ms_finalized st in
  let '(pending, freed) :=
    fold_left (fun acc i => free_step acc finalized i) (contributorsOf v) (ms_pending st, []) in
  ({| ms_mass := <[v := path_mass (ms_mass st) v]> (ms_mass st);
      ms_finalized := finalized; ms_pending := pending;
      ms_threadByID := note_threads v (ms_threadByID st) |},
   sort_strings freed).

Fixpoint mass_loop (fuel : nat) (queue : list string) (st : mass_state) : option mass_state :=
  match queue with
  | [] => Some st
  | v :: queue' =>
      match fuel with
      | O => None
      | S fuel' =>
          if bool_decide (v ∈ ms_finalized st) then mass_loop fuel' queue' st
          else let '(st', freed) := finalize v st in mass_loop fuel' (queue' ++ freed) st'
      end
  end.

Definition mass_init (threads : gmap string string) : mass_state :=
  {| ms_mass := ∅; ms_finalized := ∅; ms_pending := pending0; ms_threadByID := threads |}.

Definition mass_queue : list string :=
  List.filter (fun v => (default 0 (pending0 !! v) =? 0)%Z) members.

Definition mass_fuel : nat := length members + walk_fuel d.

(** Defensive cycle leftovers, in sorted order. *)
Definition mass_leftover (st : mass_state) : mass_state :=
  fold_left (fun st v => if bool_decide (v ∈ ms_finalized st) then st else (finalize v st).1) members st.
End Mass.

Definition provenanceMassWalk : option (gmap string float * gmap string string * bool) :=
  match reach_loop reach_fuel reach_init with
  | None => None
  | Some (st, truncated) =>
      match mass_loop (rs_inReach st) (mass_fuel (rs_inReach st)) (mass_queue (rs_inReach st))
              (mass_init (rs_inReach st) (rs_threadByID st)) with
      | None => None
      | Some ms =>
          let ms := mass_leftover (rs_inReach st) ms in
          Some (ms_mass ms, ms_threadByID ms, truncated)
      end
  end.
End Walk.

(** Offline replay over an arbitrary edge set. *)
Definition ProvenanceMass `{!MapRange string} (edges : list Edge) (anchorIDs : list string)
    (coneThreadID : string) (scope : SelectionScope) : option (gmap string float * bool) :=
  match provenanceMassWalk (AddEdges_all newDAG edges) anchorIDs coneThreadID scope with
  | Some (mass, _, truncated) => Some (mass, truncated)
  | None => None
  end.

(** ** Phase 1: capped reachability *)

Section Reach.
Context `{!MapRange string}.
Context (d : dag) (anchorIDs : list string) (coneThreadID : string) (scope : SelectionScope).
Let prov_edges := Provenance.prov_edges d coneThreadID scope.
Let anchors := anchors anchorIDs.

(** [v] fed [u]: a provenance edge of the scope leads from [v] to [u]. *)
Definition prov_step (u v : string) : Prop := exists e, e ∈ prov_edges u /\ e_FromMessageId e = v.

(** [v] is undelivered ancestry of the window, at any number of hops. *)
Definition ancestry (v : string) : Prop := exists a, a ∈ anchorIDs /\ tc prov_step a v.

Lemma elem_of_prov_edges u e :
  e ∈ prov_edges u <-> e ∈ Prerequisites d u /\ prov_ok coneThreadID scope e = true.
Proof. unfold prov_edges, Provenance.prov_edges. by rewrite !list_elem_of_In, filter_In. Qed.

Lemma elem_of_contributors u i :
  i ∈ contributorsOf d coneThreadID scope u -> prov_step u (pv_from i).
Proof. intros (e & -> & He)%list_elem_of_fmap. by exists e. Qed.

Lemma prov_step_contributor u v :
  prov_step u v -> exists i, i ∈ contributorsOf d coneThreadID scope u /\ pv_from i = v.
Proof. intros (e & He & <-). eexists. split; [by apply list_elem_of_fmap_2|done]. Qed.

Lemma contributors_length u :
  length (contributorsOf d coneThreadID scope u) <= length (Prerequisites d u).
Proof. unfold contributorsOf. rewrite length_fmap. apply filter_length_le. Qed.

(** What a round of pushes does to the walk. *)
Record pushed (src : list string) (st st' : reach_state) : Prop := {
  pu_reach : rs_inReach st' = rs_inReach st;
  pu_settled : rs_settled st' = rs_settled st;
  pu_best : forall id b, rs_best st !! id = Some b -> is_Some (rs_best st' !! id);
  pu_new : forall en, en ∈ rs_heap st' -> en ∈ rs_heap st \/ be_id en ∈ src;
  pu_valid : (forall id b, id ∉ rs_settled st -> rs_best st !! id = Some b ->
                Build_boundEntry id b ∈ rs_heap st) ->
             (forall id b, id ∉ rs_settled st -> rs_best st' !! id = Some b ->
                Build_boundEntry id b ∈ rs_heap st');
  pu_all : forall id, id ∈ src -> id ∈ rs_settled st \/ is_Some (rs_best st' !! id);
  pu_length : length (rs_heap st') <= length (rs_heap st) + length src
}.

Lemma reach_push_pushed f st i : pushed [pv_from i] st (reach_push f st i).
Proof.
  unfold reach_push. destruct (bool_decide_reflect (pv_from i ∈ rs_settled st)) as [Hs|Hs].
  { split; simpl; eauto; [|lia]. intros id ->%list_elem_of_singleton. auto. }
  destruct (match rs_best st !! pv_from i with Some _ => _ | None => _ end) eqn:Eb.
  - split; simpl; try done.
    + intros id b Hb. rewrite lookup_insert. case_decide; eauto.
    + intros en. rewrite heap_push_perm, elem_of_cons, list_elem_of_singleton.
      intros [->|?]; auto.
    + intros Hv id b Hid. rewrite heap_push_perm, elem_of_cons, lookup_insert.
      case_decide as Hi; [intros [= <-]; subst; auto|auto].
    + intros id ->%list_elem_of_singleton. right. rewrite lookup_insert_eq. eauto.
    + rewrite heap_push_length. lia.
  - split; simpl; eauto; [|lia]. intros id ->%list_elem_of_singleton. right.
    destruct (rs_best st !! pv_from i); [eauto|done].
Qed.

Lemma pushed_trans l1 l2 s1 s2 s3 : pushed l1 s1 s2 -> pushed l2 s2 s3 -> pushed (l1 ++ l2) s1 s3.
Proof.
  intros [A1 A2 A3 A4 A5 A6 A7] [B1 B2 B3 B4 B5 B6 B7]. split.
  - congruence.
  - congruence.
  - intros id b Hb. destruct (A3 id b Hb) as [b' ?]. eauto.
  - intros en Hen. rewrite elem_of_app. destruct (B4 en Hen) as [Hm|]; [|auto].
    destruct (A4 en Hm); auto.
  - intros Hv. rewrite <- A2. apply B5. rewrite A2. auto.
  - intros id [Hi|Hi]%elem_of_app.
    + destruct (A6 id Hi) as [?|[b Hb]]; [auto|right; eauto].
    + rewrite <- A2. auto.
  - rewrite length_app. lia.
Qed.

Lemma pushed_refl st st' :
  rs_inReach st' = rs_inReach st -> rs_settled st' = rs_settled st ->
  rs_best st' = rs_best st -> rs_heap st' = rs_heap st -> pushed [] st st'.
Proof.
  intros H1 H2 H3 H4. split; rewrite ?H3, ?H4; eauto; [|simpl; lia]. intros id ?%elem_of_nil. done.
Qed.

Lemma push_contributors_pushed f st u :
  pushed (pv_from <$> contributorsOf d coneThreadID scope u) st
    (push_contributors d coneThreadID scope f st u).
Proof.
  unfold push_contributors. set (st0 := Build_reach_state _ _ _ _ _).
  assert (pushed [] st st0) as H0 by by apply pushed_refl.
  rewrite <- (app_nil_l (pv_from <$> _)). apply (pushed_trans _ _ _ st0); [done|].
  clear H0. generalize st0. induction (contributorsOf d coneThreadID scope u) as [|i l IH];
    intros s; simpl; [by apply pushed_refl|].
  exact (pushed_trans [pv_from i] _ _ _ _ (reach_push_pushed f s i) (IH _)).
Qed.

Lemma reach_init_pushed :
  pushed (anchorIDs ≫= fun a => pv_from <$> contributorsOf d coneThreadID scope a)
    {| rs_inReach := ∅; rs_threadByID := ∅; rs_settled := anchors; rs_best := ∅; rs_heap := [] |}
    (reach_init d anchorIDs coneThreadID scope).
Proof.
  unfold reach_init, anchors. generalize (Build_reach_state ∅ ∅ (Provenance.anchors anchorIDs) ∅ []).
  clear. induction anchorIDs as [|a l IH]; intros s; simpl; [by apply pushed_refl|].
  eapply pushed_trans; [apply push_contributors_pushed|apply IH].
Qed.

(** *** Termination *)

Definition reach_measure (st : reach_state) : nat :=
  length (rs_heap st) + unvisited_edges (rs_settled st) (map_to_list (backward d)).

Lemma reach_settle_measure st top heap :
  be_id top ∉ rs_settled st ->
  reach_measure (reach_settle d coneThreadID scope st top heap) <=
  length heap + unvisited_edges (rs_settled st) (map_to_list (backward d)).
Proof.
  intros Hs. unfold reach_settle, reach_measure.
  match goal with |- context [push_contributors _ _ _ ?f ?s ?u] =>
    pose proof (push_contributors_pushed f s u) as Hp end.
  rewrite (pu_settled _ _ _ Hp). simpl.
  pose proof (pu_length _ _ _ Hp) as Hl. simpl in Hl. rewrite length_fmap in Hl.
  pose proof (contributors_length (be_id top)).
  pose proof (visit_measure d _ _ Hs). lia.
Qed.

Lemma reach_loop_terminates fuel st :
  reach_measure st <= fuel -> is_Some (reach_loop d coneThreadID scope fuel st).
Proof.
  revert st. induction fuel as [|fuel IH]; intros st Hm; cbn [reach_loop];
    destruct (heap_pop bound_less (rs_heap st)) as [[top heap]|] eqn:Ep; eauto;
    apply heap_pop_length in Ep; [unfold reach_measure in Hm; lia|].
  destruct (bool_decide_reflect (be_id top ∈ rs_settled st)) as [Hs|Hs]; cbn [orb].
  { apply IH. unfold reach_measure in *. simpl. lia. }
  destruct (flt _ _). { apply IH. unfold reach_measure in *. simpl. lia. }
  destruct (provenanceReachCap <=? size (rs_inReach st)); [eauto|]. apply IH.
  pose proof (reach_settle_measure st top heap Hs). unfold reach_measure in *. lia.
Qed.

Lemma reach_total :
  exists r, reach_loop d coneThreadID scope (reach_fuel d anchorIDs)
    (reach_init d anchorIDs coneThreadID scope) = Some r.
Proof.
  apply reach_loop_terminates. unfold reach_measure, reach_fuel.
  pose proof reach_init_pushed as Hp. pose proof (pu_length _ _ _ Hp) as Hl. simpl in Hl.
  pose proof (unvisited_edges_le (rs_settled (reach_init d anchorIDs coneThreadID scope))
    (map_to_list (backward d))) as Hu.
  assert (length (anchorIDs ≫= fun a => pv_from <$> contributorsOf d coneThreadID scope a) <=
    sum_list_with (fun a => length (Prerequisites d a)) anchorIDs) as Hs.
  { clear. induction anchorIDs as [|a l IH]; [simpl; lia|].
    rewrite bind_cons, length_app, length_fmap. cbn [sum_list_with].
    pose proof (contributors_length a). lia. }
  unfold walk_fuel, index_edges. lia.
Qed.

(** *** What is reached *)

Record reach_inv (st : reach_state) : Prop := {
  ri_settled : rs_settled st = anchors ∪ rs_inReach st;
  ri_fresh : rs_inReach st ## anchors;
  ri_cap : size (rs_inReach st) <= provenanceReachCap;
  ri_sound : forall v, v ∈ rs_inReach st -> ancestry v;
  ri_heap : forall en, en ∈ rs_heap st -> ancestry (be_id en);
  ri_valid : forall id b, id ∉ rs_settled st -> rs_best st !! id = Some b ->
    Build_boundEntry id b ∈ rs_heap st;
  ri_frontier : forall u v, u ∈ rs_settled st -> prov_step u v ->
    v ∈ rs_settled st \/ is_Some (rs_best st !! v)
}.

Lemma reach_init_inv : reach_inv (reach_init d anchorIDs coneThreadID scope).
Proof.
  pose proof reach_init_pushed as [A1 A2 A3 A4 A5 A6 A7]. simpl in *.
  assert (forall v, v ∈ anchorIDs ≫= (fun a => pv_from <$> contributorsOf d coneThreadID scope a) <->
    exists a, a ∈ anchorIDs /\ prov_step a v) as Hsrc.
  { intros v. rewrite list_elem_of_bind. split.
    - intros (a & Hv & Ha). apply list_elem_of_fmap in Hv as (i & -> & Hi).
      exists a. split; [done|]. by apply elem_of_contributors.
    - intros (a & Ha & Hs). apply prov_step_contributor in Hs as (i & Hi & <-).
      exists a. split; [by apply list_elem_of_fmap_2|done]. }
  split.
  - rewrite A1, A2. set_solver.
  - rewrite A1. set_solver.
  - rewrite A1, size_empty. lia.
  - rewrite A1. set_solver.
  - intros en Hen. destruct (A4 en Hen) as [?%elem_of_nil|Hin]; [done|].
    apply Hsrc in Hin as (a & ? & ?). exists a. split; [done|by apply tc_once].
  - rewrite A2. apply A5. intros id b _. by rewrite lookup_empty.
  - rewrite A2. intros u v Hu Hs. apply A6, Hsrc. exists u. split; [|done].
    by apply elem_of_list_to_set in Hu.
Qed.

(** Dropping a popped entry whose message is settled, or that is stale. *)
Lemma reach_skip_inv st top heap :
  heap_pop bound_less (rs_heap st) = Some (top, heap) ->
  be_id top ∈ rs_settled st \/ flt (be_bound top) (default f0 (rs_best st !! be_id top)) = true ->
  reach_inv st -> reach_inv (reach_skip st heap).
Proof.
  intros Hp Hor [I1 I2 I3 I4 I5 I6 I7]. apply heap_pop_perm in Hp. split; simpl; try done.
  - intros en Hen. apply I5. rewrite Hp. by right.
  - intros id b Hid Hb. specialize (I6 id b Hid Hb). rewrite Hp in I6.
    apply elem_of_cons in I6 as [<-|]; [|done]. simpl in Hor. exfalso.
    destruct Hor as [?|Hf]; [done|]. rewrite Hb in Hf. simpl in Hf. by rewrite flt_irrefl in Hf.
Qed.

Lemma reach_settle_inv st top heap :
  heap_pop bound_less (rs_heap st) = Some (top, heap) ->
  be_id top ∉ rs_settled st -> size (rs_inReach st) < provenanceReachCap ->
  reach_inv st -> reach_inv (reach_settle d coneThreadID scope st top heap).
Proof.
  intros Hp Hs Hc [I1 I2 I3 I4 I5 I6 I7]. apply heap_pop_perm in Hp. unfold reach_settle.
  match goal with |- context [push_contributors _ _ _ ?f ?s ?u] =>
    pose proof (push_contributors_pushed f s u) as [A1 A2 A3 A4 A5 A6 A7] end.
  simpl in *. assert (ancestry (be_id top)) as Htop by (apply I5; rewrite Hp; by left).
  assert (be_id top ∉ anchors /\ be_id top ∉ rs_inReach st) as [Hna Hnr].
  { rewrite I1 in Hs. set_solver. }
  split.
  - rewrite A1, A2, I1. set_solver.
  - rewrite A1. set_solver.
  - rewrite A1, size_union, size_singleton by set_solver. lia.
  - rewrite A1. intros v [->%elem_of_singleton|?]%elem_of_union; auto.
  - intros en Hen. destruct (A4 en Hen) as [Hin|Hin]; [apply I5; rewrite Hp; by right|].
    apply list_elem_of_fmap in Hin as (i & -> & Hi). apply elem_of_contributors in Hi.
    destruct Htop as (a & Ha & Htc). exists a. split; [done|]. eapply tc_r; eauto.
  - rewrite A2. apply A5. intros id b Hid Hb. specialize (I6 id b ltac:(set_solver) Hb).
    rewrite Hp in I6. apply elem_of_cons in I6 as [Ht|]; [|done]. set_solver.
  - rewrite A2. intros u v [->%elem_of_singleton|Hu]%elem_of_union Hst.
    + apply A6. apply prov_step_contributor in Hst as (i & Hi & <-). by apply list_elem_of_fmap_2.
    + destruct (I7 u v Hu Hst) as [?|[b Hb]]; [set_solver|eauto].
Qed.

(** What the loop leaves behind. *)
Record reach_out (st : reach_state) : Prop := {
  ro_settled : rs_settled st = anchors ∪ rs_inReach st;
  ro_fresh : rs_inReach st ## anchors;
  ro_cap : size (rs_inReach st) <= provenanceReachCap;
  ro_sound : forall v, v ∈ rs_inReach st -> ancestry v
}.

Lemma reach_inv_out st : reach_inv st -> reach_out st.
Proof. by intros []. Qed.

(** With an empty heap everything reachable is settled. *)
Lemma reach_done st v : reach_inv st -> rs_heap st = [] -> ancestry v -> v ∈ rs_settled st.
Proof.
  intros Hi Hnil (a & Ha & Htc).
  assert (forall u w, u ∈ rs_settled st -> prov_step u w -> w ∈ rs_settled st) as Hstep.
  { intros u w Hu Hw. destruct (ri_frontier _ Hi u w Hu Hw) as [?|[b Hb]]; [done|].
    destruct (decide (w ∈ rs_settled st)) as [|Hn]; [done|].
    pose proof (ri_valid _ Hi w b Hn Hb) as Hin. rewrite Hnil in Hin. by apply elem_of_nil in Hin. }
  assert (a ∈ rs_settled st) as Has.
  { rewrite (ri_settled _ Hi). apply elem_of_union_l. by apply elem_of_list_to_set. }
  clear Ha. induction Htc as [u v Hst|u w v Hst _ IHt]; [by eapply Hstep|].
  apply IHt. by eapply Hstep.
Qed.

(** The loop ends with the whole ancestry reached, or truncated at the cap
    with a further candidate left out. *)
Lemma reach_loop_inv fuel st st' truncated :
  reach_inv st -> reach_loop d coneThreadID scope fuel st = Some (st', truncated) ->
  reach_out st' /\
  (if truncated : bool
   then size (rs_inReach st') = provenanceReachCap /\ exists v, v ∉ rs_settled st' /\ ancestry v
   else forall v, ancestry v -> v ∈ rs_settled st').
Proof.
  revert st. induction fuel as [|fuel IH]; intros st Hi H; cbn [reach_loop] in H;
    destruct (heap_pop bound_less (rs_heap st)) as [[top heap]|] eqn:Ep; try done.
  2: { destruct (bool_decide_reflect (be_id top ∈ rs_settled st)) as [Hs|Hs]; cbn [orb] in H.
       { eapply IH; [|exact H]. eapply reach_skip_inv; eauto. }
       destruct (flt _ _) eqn:Ef. { eapply IH; [|exact H]. eapply reach_skip_inv; eauto. }
       destruct (provenanceReachCap <=? size (rs_inReach st)) eqn:Ec; [apply Nat.leb_le in Ec|apply Nat.leb_gt in Ec].
       - injection H as <- <-. pose proof (heap_pop_perm _ _ _ _ Ep) as Hp.
         destruct Hi as [I1 I2 I3 I4 I5 _ _]. split; [done|]. simpl. split; [lia|].
         exists (be_id top). split; [done|]. apply I5. rewrite Hp. by left.
       - eapply IH; [|exact H]. by eapply reach_settle_inv. }
  all: injection H as <- <-; split; [by apply reach_inv_out|]; intros v; apply reach_done; [done|];
    destruct (rs_heap st) eqn:Eh; [done|];
    destruct (heap_pop_Some bound_less (rs_heap st)) as (? & ? & Hs); rewrite Eh in *; congruence.
Qed.
End Reach.

(** ** Phase 2: path-sum mass *)

Section MassSpec.
Context `{!MapRange string}.
Context (d : dag) (anchorIDs : list string) (coneThreadID : string) (scope : SelectionScope)
        (inReach : gset string).
Let prov_edges := Provenance.prov_edges d coneThreadID scope.
Let anchors := anchors anchorIDs.
Let members := members inReach.
Let targets := targets anchorIDs inReach.
Let step := prov_step d coneThreadID scope.
Let path_mass := path_mass d anchorIDs coneThreadID scope inReach.
Hypothesis fresh : inReach ## anchors.

Lemma elem_of_members v : v ∈ members <-> v ∈ inReach.
Proof. unfold members, Provenance.members. by rewrite elem_of_sort_strings, elem_of_range_set. Qed.

Lemma members_NoDup : NoDup members.
Proof.
  unfold members, Provenance.members. rewrite sort_strings_perm. unfold range_set.
  apply map_range_keys_NoDup.
Qed.

(** The edges into [u] from [from], and their number. *)
Definition edges_from (from u : string) : list Edge :=
  filter (fun e => e_FromMessageId e = from) (prov_edges u).

Lemma edges_from_step from u : edges_from from u <> [] <-> step u from.
Proof.
  unfold edges_from. split.
  - intros Hne. destruct (filter _ _) as [|e l] eqn:E; [done|].
    assert (e ∈ filter (fun e => e_FromMessageId e = from) (prov_edges u)) as He
      by (rewrite E; by left).
    apply list_elem_of_filter in He as [? ?]. by exists e.
  - intros (e & He & Hf) Hnil. apply (elem_of_nil e). rewrite <- Hnil. by apply list_elem_of_filter.
Qed.

(** The recorded relations of [from]: one per edge into a target, in order. *)
Definition relations (from : string) : list (string * float) :=
  targets ≫= fun u => (fun e => (u, f64_of_f32 (e_Score e))) <$> edges_from from u.

(** How many relations of [from] wait for a message outside [fin]. *)
Definition waiting (fin : gset string) (from : string) : nat :=
  unvisited_edges fin ((fun u => (u, edges_from from u)) <$> members).

Definition counted (u : string) : bool := negb (bool_decide (u ∈ anchors)) && bool_decide (u ∈ inReach).

Lemma index_edges_spec from u l acc :
  from ∈ inReach ->
  let acc' := fold_left (index_edge anchorIDs inReach u) l acc in
  let mine := filter (fun e => e_FromMessageId e = from) l in
  default [] (acc'.1 !! from) =
    default [] (acc.1 !! from) ++ ((fun e => (u, f64_of_f32 (e_Score e))) <$> mine) /\
  default 0%Z (acc'.2 !! from) =
    (default 0%Z (acc.2 !! from) + if counted u then Z.of_nat (length mine) else 0)%Z.
Proof.
  intros Hf. revert acc. induction l as [|e l IH]; intros acc; cbn zeta.
  { simpl. rewrite app_nil_r. split; [done|]. case_match; lia. }
  cbn [fold_left].
  destruct (IH (index_edge anchorIDs inReach u acc e)) as [-> ->]. clear IH. destruct acc as [o p].
  unfold index_edge. fold anchors. rewrite filter_cons. case_decide as He.
  - subst from. rewrite (bool_decide_eq_false_2 (_ ∈ anchors)) by set_solver.
    rewrite (bool_decide_eq_true_2 (_ ∈ inReach)) by done. simpl. fold (counted u).
    rewrite lookup_insert_eq. simpl. rewrite <- app_assoc. split; [done|].
    destruct (counted u); [|lia]. rewrite lookup_insert_eq. simpl. lia.
  - destruct (bool_decide _ || _); [done|]. simpl. fold (counted u).
    rewrite lookup_insert_ne by done. split; [done|].
    destruct (counted u); [|done]. by rewrite lookup_insert_ne.
Qed.

Lemma mass_index_spec from :
  from ∈ inReach ->
  default [] (outgoing d anchorIDs coneThreadID scope inReach !! from) = relations from /\
  default 0%Z (pending0 d anchorIDs coneThreadID scope inReach !! from) =
    Z.of_nat (sum_list_with (fun u => if counted u then length (edges_from from u) else 0) targets).
Proof.
  intros Hf. unfold outgoing, pending0, mass_index, relations. fold targets.
  assert (forall l acc,
    let acc' := fold_left (fun acc u => fold_left (index_edge anchorIDs inReach u) (prov_edges u) acc) l acc in
    default [] (acc'.1 !! from) = default [] (acc.1 !! from) ++
      (l ≫= fun u => (fun e => (u, f64_of_f32 (e_Score e))) <$> edges_from from u) /\
    default 0%Z (acc'.2 !! from) = (default 0%Z (acc.2 !! from) +
      Z.of_nat (sum_list_with (fun u => if counted u then length (edges_from from u) else 0%nat) l))%Z) as Hl.
  { induction l as [|u l IH]; intros acc; cbn zeta; [simpl; rewrite app_nil_r; split; [done|lia]|].
    cbn [fold_left sum_list_with].
    destruct (IH (fold_left (index_edge anchorIDs inReach u) (prov_edges u) acc)) as [-> ->].
    destruct (index_edges_spec from u (prov_edges u) acc Hf) as [-> ->].
    rewrite bind_cons, <- app_assoc. split; [done|]. unfold edges_from at 2. destruct (counted u); lia. }
  destruct (Hl targets (∅, ∅)) as [H1 H2]. simpl in H1, H2. rewrite lookup_empty in H1.
  split; [exact H1|exact H2].
Qed.

Lemma sum_list_with_perm {A} (f : A -> nat) l l' : l ≡ₚ l' -> sum_list_with f l = sum_list_with f l'.
Proof. induction 1; simpl; lia. Qed.

Lemma pending0_spec from :
  from ∈ inReach ->
  default 0%Z (pending0 d anchorIDs coneThreadID scope inReach !! from) = Z.of_nat (waiting ∅ from).
Proof.
  intros Hf. destruct (mass_index_spec from Hf) as [_ ->]. f_equal.
  rewrite (sum_list_with_perm _ targets (anchorIDs ++ members)) by apply sort_strings_perm.
  rewrite sum_list_with_app.
  assert (forall l, (forall u, u ∈ l -> counted u = false) ->
    sum_list_with (fun u => if counted u then length (edges_from from u) else 0) l = 0) as Hno.
  { induction l as [|u l IH]; intros Hc; simpl; [done|]. rewrite Hc, IH by set_solver. done. }
  assert (forall l, (forall u, u ∈ l -> counted u = true) ->
    sum_list_with (fun u => if counted u then length (edges_from from u) else 0) l =
    unvisited_edges ∅ ((fun u => (u, edges_from from u)) <$> l)) as Hyes.
  { unfold unvisited_edges. induction l as [|u l IH]; intros Hc; simpl; [done|].
    rewrite Hc, IH by set_solver. done. }
  rewrite Hno, Hyes; [done| |]; intros u Hu; unfold counted.
  - apply elem_of_members in Hu. rewrite bool_decide_eq_false_2, bool_decide_eq_true_2 by set_solver. done.
  - by rewrite bool_decide_eq_true_2 by by apply elem_of_list_to_set.
Qed.

Lemma waiting_visit fin v from :
  v ∈ inReach -> v ∉ fin ->
  waiting ({[v]} ∪ fin) from + length (edges_from from v) = waiting fin from.
Proof.
  intros Hv Hn. unfold waiting.
  assert (((fun u => (u, edges_from from u)) <$> members).*1 = members) as Hk.
  { rewrite <- list_fmap_compose. apply list_fmap_id. }
  rewrite <- (unvisited_edges_visit fin v) by (rewrite ?Hk; auto using members_NoDup).
  do 2 f_equal.
  rewrite (proj1 (elem_of_list_to_map (M := gmap string) _ v (edges_from from v)
    ltac:(rewrite Hk; apply members_NoDup))); [done|].
  apply list_elem_of_fmap. exists v. by rewrite elem_of_members.
Qed.

(** Nothing waits iff every dependent is in. *)
Lemma waiting_zero fin from :
  waiting fin from = 0 <-> forall u, u ∈ inReach -> step u from -> u ∈ fin.
Proof.
  clear fresh path_mass targets anchors.
  unfold waiting, unvisited_edges. setoid_rewrite <- elem_of_members.
  induction members as [|u l IH]; [set_solver|].
  setoid_rewrite elem_of_cons. rewrite fmap_cons. cbn [sum_list_with fst snd]. case_decide as Hu.
  - cbn [Nat.add]. rewrite IH. naive_solver.
  - split.
    + intros Hz u' [->|Hu'] Hs; [|apply IH; [lia|done..]].
      apply edges_from_step in Hs. destruct (edges_from from u); [done|]. cbn [length] in Hz. lia.
    + intros Hall. assert (edges_from from u = []) as ->.
      { destruct (edges_from from u) eqn:E; [done|]. exfalso. apply Hu, Hall; [auto|].
        apply edges_from_step. by rewrite E. }
      cbn [length Nat.add]. apply IH. eauto.
Qed.

Lemma path_mass_ext mass mass' v :
  v ∈ inReach ->
  (forall u, u ∈ inReach -> step u v -> mass !! u = mass' !! u) ->
  path_mass mass v = path_mass mass' v.
Proof.
  intros Hv He. unfold path_mass, Provenance.path_mass.
  destruct (mass_index_spec v Hv) as [-> _].
  assert (forall r m, (forall x, x ∈ r -> step x.1 v) ->
    fold_left (add_mass anchorIDs inReach mass) r m = fold_left (add_mass anchorIDs inReach mass') r m) as Hr.
  { induction r as [|[u w] r IH]; intros m Hs; simpl; [done|].
    rewrite IH by (intros x Hx; apply Hs; by right). f_equal. unfold add_mass. simpl.
    destruct (bool_decide _); [done|]. destruct (bool_decide_reflect (u ∈ inReach)); [|done].
    rewrite (He u) by (done || apply (Hs (u, w)); by left). done. }
  apply Hr. intros [u w] (u' & Hx & Hu)%list_elem_of_bind.
  apply list_elem_of_fmap in Hx as (e & [= -> ->] & He').
  simpl. apply edges_from_step. intros Hn. rewrite Hn in He'. by apply elem_of_nil in He'.
Qed.

(** What freeing the contributors of a finalized message does to one of them. *)
Lemma free_fold fin l pending freed :
  let r := fold_left (fun acc i => free_step inReach acc fin i) l (pending, freed) in
  let count from := length (filter (fun i => pv_from i = from) l) in
  (forall from, from ∈ inReach -> from ∉ fin ->
     default 0%Z (r.1 !! from) = (default 0%Z (pending !! from) - Z.of_nat (count from))%Z /\
     ((Z.of_nat (count from) <= default 0%Z (pending !! from))%Z ->
      (from ∈ r.2 <-> from ∈ freed \/
         (0 < count from /\ default 0%Z (pending !! from) = Z.of_nat (count from))))) /\
  (forall from, from ∈ r.2 -> from ∈ freed \/ from ∈ inReach /\ from ∉ fin).
Proof.
  clear - inReach. revert pending freed. induction l as [|i l IH]; intros pending freed; cbn zeta.
  { simpl. split; [|auto]. intros from _ _. split; [lia|]. intros _. split; [auto|].
    intros [?|[? _]]; [done|lia]. }
  cbn [fold_left]. destruct (free_step inReach (pending, freed) fin i) as [p1 f1] eqn:Es.
  unfold free_step in Es.
  destruct (negb (bool_decide (pv_from i ∈ inReach)) || bool_decide (pv_from i ∈ fin)) eqn:Ec;
    injection Es as <- <-.
  - destruct (IH pending freed) as [H1 H2]. split; [|exact H2]. intros from Hf Hn.
    rewrite filter_cons, decide_False; [by apply H1|]. intros <-.
    rewrite bool_decide_eq_true_2, bool_decide_eq_false_2 in Ec by done. done.
  - apply orb_false_iff in Ec as [Ei En]. apply negb_false_iff, bool_decide_eq_true in Ei.
    apply bool_decide_eq_false in En.
    set (n := (default 0 (pending !! pv_from i) - 1)%Z).
    set (freed' := if (n =? 0)%Z then _ else _).
    destruct (IH (<[pv_from i := n]> pending) freed') as [H1 H2]. split.
    + intros from Hf Hn. destruct (H1 from Hf Hn) as [-> H1']. rewrite filter_cons.
      destruct (decide (pv_from i = from)) as [<-|Hne].
      * rewrite lookup_insert_eq in *. simpl default in *. cbn [length]. split; [lia|].
        intros Hle. rewrite H1' by lia. unfold freed'.
        destruct (n =? 0)%Z eqn:E0; [apply Z.eqb_eq in E0|apply Z.eqb_neq in E0].
        -- rewrite elem_of_app, list_elem_of_singleton. split; [intros _; right|tauto]. lia.
        -- split; (intros [?|?]; [tauto|right; lia]).
      * rewrite lookup_insert_ne in * by done. split; [done|]. intros Hle. rewrite H1' by done.
        unfold freed'. destruct (n =? 0)%Z; [|done].
        rewrite elem_of_app, list_elem_of_singleton. naive_solver.
    + intros from Hin. destruct (H2 from Hin) as [Hin'|?]; [|auto]. unfold freed' in Hin'.
      destruct (n =? 0)%Z; [|auto]. apply elem_of_app in Hin' as [?| ->%list_elem_of_singleton]; auto.
Qed.

Lemma contributors_count v from :
  length (filter (fun i => pv_from i = from) (contributorsOf d coneThreadID scope v)) =
  length (edges_from from v).
Proof.
  unfold contributorsOf, edges_from. fold prov_edges. induction (prov_edges v) as [|e l IH]; [done|].
  rewrite fmap_cons, !filter_cons. cbn [pv_from]. case_decide; cbn [length]; by rewrite IH.
Qed.
End MassSpec.

Section MassLoop.
Context `{!MapRange string}.
Context (d : dag) (anchorIDs : list string) (coneThreadID : string) (scope : SelectionScope)
        (inReach : gset string).
Let step := prov_step d coneThreadID scope.
Let waiting := waiting d coneThreadID scope inReach.
Let path_mass := path_mass d anchorIDs coneThreadID scope inReach.
Let finalize := finalize d anchorIDs coneThreadID scope inReach.
Hypothesis fresh : inReach ## anchors anchorIDs.

(** *** Termination and domain *)

Definition mass_measure (queue : list string) (st : mass_state) : nat :=
  length queue + unvisited_edges (ms_finalized st) (map_to_list (backward d)).

Lemma free_fold_length fin l acc :
  length (fold_left (fun acc i => free_step inReach acc fin i) l acc).2 <= length acc.2 + length l.
Proof.
  revert acc. induction l as [|i l IH]; intros [p f]; cbn [fold_left length]; [simpl; lia|].
  rewrite IH. unfold free_step. destruct (_ || _); simpl; [lia|].
  destruct (_ =? 0)%Z; rewrite ?length_app; simpl; lia.
Qed.

Lemma finalize_fields v st :
  let r := finalize v st in
  ms_finalized r.1 = {[v]} ∪ ms_finalized st /\
  ms_mass r.1 = <[v := path_mass (ms_mass st) v]> (ms_mass st) /\
  length r.2 <= length (Prerequisites d v).
Proof.
  unfold finalize, Provenance.finalize.
  pose proof (free_fold_length ({[v]} ∪ ms_finalized st) (contributorsOf d coneThreadID scope v)
    (ms_pending st, [])) as Hl.
  destruct (fold_left _ _ _) as [p f]. simpl. repeat split.
  unfold sort_strings. rewrite sort_stable_length. simpl in Hl.
  pose proof (contributors_length d coneThreadID scope v). lia.
Qed.

Lemma mass_loop_terminates fuel queue st :
  mass_measure queue st <= fuel ->
  is_Some (mass_loop d anchorIDs coneThreadID scope inReach fuel queue st).
Proof.
  revert queue st. induction fuel as [|fuel IH]; intros [|v queue] st Hm; cbn [mass_loop]; eauto.
  { unfold mass_measure in Hm. simpl in Hm. lia. }
  destruct (bool_decide_reflect (v ∈ ms_finalized st)) as [Hv|Hv].
  { apply IH. unfold mass_measure in *. simpl in Hm. lia. }
  destruct (finalize_fields v st) as (Hf & _ & Hl). fold finalize.
  destruct (finalize v st) as [st' freed]. simpl in Hf, Hl. apply IH.
  unfold mass_measure in *. rewrite length_app, Hf. simpl in Hm.
  pose proof (visit_measure d _ _ Hv). lia.
Qed.

Lemma mass_total threads :
  exists st, mass_loop d anchorIDs coneThreadID scope inReach (mass_fuel d inReach)
    (mass_queue d anchorIDs coneThreadID scope inReach)
    (mass_init d anchorIDs coneThreadID scope inReach threads) = Some st.
Proof.
  apply mass_loop_terminates. unfold mass_measure, mass_fuel, mass_queue. simpl.
  pose proof (filter_length_le (fun v => default 0 (pending0 d anchorIDs coneThreadID scope inReach !! v) =? 0)%Z
    (members inReach)).
  pose proof (unvisited_edges_le ∅ (map_to_list (backward d))). unfold walk_fuel, index_edges. lia.
Qed.

(** *** The loop invariant *)

Record mass_inv (queue : list string) (st : mass_state) : Prop := {
  mi_sub : ms_finalized st ⊆ inReach;
  mi_dom : forall v, v ∈ ms_finalized st <-> is_Some (ms_mass st !! v);
  mi_pending : forall from, from ∈ inReach -> from ∉ ms_finalized st ->
    default 0%Z (ms_pending st !! from) = Z.of_nat (waiting (ms_finalized st) from);
  mi_queue : forall v, v ∈ queue -> v ∈ inReach /\ waiting (ms_finalized st) v = 0;
  mi_ready : forall v, v ∈ inReach -> v ∉ ms_finalized st ->
    waiting (ms_finalized st) v = 0 -> v ∈ queue;
  mi_mass : forall v, v ∈ ms_finalized st -> ms_mass st !! v = Some (path_mass (ms_mass st) v);
  mi_after : forall v u, v ∈ ms_finalized st -> u ∈ inReach -> step u v -> u ∈ ms_finalized st
}.

Lemma mass_init_inv threads :
  mass_inv (mass_queue d anchorIDs coneThreadID scope inReach)
    (mass_init d anchorIDs coneThreadID scope inReach threads).
Proof.
  assert (forall v, v ∈ mass_queue d anchorIDs coneThreadID scope inReach <->
    v ∈ inReach /\ waiting ∅ v = 0) as Hq.
  { intros v. unfold mass_queue. rewrite list_elem_of_In, filter_In, <- list_elem_of_In, elem_of_members.
    split; intros [Hv Hz]; (split; [done|]).
    - rewrite pending0_spec in Hz by done. apply Z.eqb_eq in Hz. fold waiting in Hz. lia.
    - rewrite pending0_spec by done. fold waiting. rewrite Hz. done. }
  split; simpl.
  - apply empty_subseteq.
  - intros v. rewrite lookup_empty. split; [by intros ?%elem_of_empty|intros Hn; by apply is_Some_None in Hn].
  - intros from Hf _. by apply pending0_spec.
  - intros v. apply Hq.
  - intros v Hv _ Hz. by apply Hq.
  - by intros v ?%elem_of_empty.
  - by intros v u ?%elem_of_empty.
Qed.

Lemma waiting_mono fin fin' v : fin ⊆ fin' -> waiting fin v = 0 -> waiting fin' v = 0.
Proof.
  intros Hsub Hz. apply (waiting_zero d coneThreadID scope inReach fin' v). intros u Hu Hs. apply Hsub.
  by apply (proj1 (waiting_zero d coneThreadID scope inReach fin v) Hz).
Qed.

Lemma finalize_inv v queue st :
  v ∉ ms_finalized st -> mass_inv (v :: queue) st ->
  mass_inv (queue ++ (finalize v st).2) (finalize v st).1.
Proof.
  intros Hv [I1 I2 I3 I4 I5 I6 I7].
  destruct (I4 v ltac:(by left)) as [HvR Hz]. pose proof Hz as Hz0.
  pose proof (proj1 (waiting_zero d coneThreadID scope inReach (ms_finalized st) v) Hz) as Hready.
  unfold finalize, Provenance.finalize. fold path_mass. set (fin := {[v]} ∪ ms_finalized st).
  pose proof (free_fold inReach fin (contributorsOf d coneThreadID scope v) (ms_pending st) []) as [F1 F2].
  destruct (fold_left _ _ _) as [p f]. simpl in *.
  assert (forall from, from ∈ inReach -> from ∉ fin ->
    default 0%Z (p !! from) = Z.of_nat (waiting fin from) /\
    (from ∈ f <-> waiting fin from = 0 /\ waiting (ms_finalized st) from <> 0)) as Hfree.
  { intros from Hf Hn. destruct (F1 from Hf Hn) as [E1 E2]. rewrite contributors_count in E1, E2.
    pose proof (waiting_visit d coneThreadID scope inReach (ms_finalized st) v from HvR Hv) as Hw.
    fold waiting fin in Hw. rewrite I3 in E1, E2 by set_solver. split; [lia|].
    rewrite E2 by lia. split; [intros [?%elem_of_nil|?]; [done|lia]|right; lia]. }
  assert (forall mass' u, u ∈ ms_finalized st \/ u = v ->
    (forall w, w ∈ ms_finalized st -> mass' !! w = ms_mass st !! w) ->
    path_mass (ms_mass st) u = path_mass mass' u) as Hext.
  { intros mass' u Hu Hm. apply path_mass_ext; [done|destruct Hu as [?| ->]; [by apply I1|done]|].
    intros w Hw Hs. symmetry. apply Hm. destruct Hu as [Hu| ->]; [by eapply I7|by apply Hready]. }
  assert (forall w, w ∈ ms_finalized st ->
    <[v := path_mass (ms_mass st) v]> (ms_mass st) !! w = ms_mass st !! w) as Hkeep.
  { intros w Hw. apply lookup_insert_ne. set_solver. }
  split; simpl.
  - set_solver.
  - intros w. unfold fin. rewrite elem_of_union, elem_of_singleton, lookup_insert_is_Some, I2.
    destruct (decide (w = v)); naive_solver.
  - intros from Hf Hn. by apply Hfree.
  - intros w. rewrite elem_of_app, elem_of_sort_strings. intros [Hw|Hw].
    + destruct (I4 w ltac:(by right)) as [? Hw0]. split; [done|].
      eapply waiting_mono; [|exact Hw0]. set_solver.
    + destruct (F2 w Hw) as [?%elem_of_nil|[? ?]]; [done|]. split; [done|]. by apply Hfree.
  - intros w Hw Hn Hw0. rewrite elem_of_app, elem_of_sort_strings.
    destruct (decide (waiting (ms_finalized st) w = 0)) as [He|He].
    + left. assert (w ∈ v :: queue) as [->|]%elem_of_cons by (apply I5; [done|set_solver|done]);
        [set_solver|done].
    + right. by apply Hfree.
  - intros w [->%elem_of_singleton|Hw]%elem_of_union.
    + rewrite lookup_insert_eq. f_equal. apply Hext; auto.
    + rewrite Hkeep, I6 by done. f_equal. apply Hext; auto.
  - intros w u [->%elem_of_singleton|Hw]%elem_of_union Hu Hs; [|by set_solver].
    apply elem_of_union_r. by apply Hready.
Qed.

Lemma mass_loop_inv fuel queue st st' :
  mass_inv queue st ->
  mass_loop d anchorIDs coneThreadID scope inReach fuel queue st = Some st' ->
  mass_inv [] st'.
Proof.
  revert queue st. induction fuel as [|fuel IH]; intros [|v queue] st Hi H; cbn [mass_loop] in H;
    try done; try (injection H as <-; exact Hi).
  destruct (bool_decide_reflect (v ∈ ms_finalized st)) as [Hv|Hv].
  - eapply IH; [|exact H]. destruct Hi as [I1 I2 I3 I4 I5 I6 I7]. split; try done.
    + intros w Hw. apply I4. by right.
    + intros w Hw Hn Hz. pose proof (I5 w Hw Hn Hz) as [->|]%elem_of_cons; done.
  - pose proof (finalize_inv v queue st Hv Hi) as Hi'. fold finalize in H.
    destruct (finalize v st) as [st1 freed]. by eapply IH.
Qed.

(** *** Acyclic provenance: nothing is left over *)

Lemma waiting_pos fin from :
  waiting fin from <> 0 -> exists u, u ∈ inReach /\ step u from /\ u ∉ fin.
Proof.
  unfold waiting, Provenance.waiting, unvisited_edges. intros Hz.
  cut (exists u, u ∈ members inReach /\ step u from /\ u ∉ fin).
  { intros (u & Hu & ?). exists u. by rewrite <- elem_of_members. }
  revert Hz. induction (members inReach) as [|u l IH]; [done|].
  rewrite fmap_cons. cbn [sum_list_with fst snd]. case_decide as Hu.
  - intros Hz. destruct (IH Hz) as (w & ? & ?). exists w. split; [by right|done].
  - intros Hz. destruct (edges_from d coneThreadID scope from u) eqn:E.
    + destruct (IH Hz) as (w & ? & ?). exists w. split; [by right|done].
    + exists u. split; [by left|]. split; [|done]. apply edges_from_step. by rewrite E.
Qed.

Section Acyclic.
(** A contributor is older than the message it fed. *)
Context (age : string -> nat).
Hypothesis age_step : forall u v, step u v -> age u < age v.

Lemma mass_loop_complete st : mass_inv [] st -> ms_finalized st = inReach.
Proof.
  intros Hi. apply set_eq. intros v. split; [apply (mi_sub _ _ Hi)|].
  remember (age v) as n eqn:Hn. revert v Hn. induction n as [n IH] using lt_wf_ind. intros v -> Hv.
  destruct (decide (v ∈ ms_finalized st)) as [|Hnf]; [done|exfalso].
  destruct (decide (waiting (ms_finalized st) v = 0)) as [Hz|Hz].
  { pose proof (mi_ready _ _ Hi v Hv Hnf Hz) as Hin. by apply elem_of_nil in Hin. }
  apply waiting_pos in Hz as (u & Hu & Hs & Hun). apply Hun. eapply IH; [apply age_step, Hs|reflexivity|exact Hu].
Qed.
End Acyclic.

(** *** The leftover pass *)

Lemma mass_leftover_dom queue st :
  mass_inv queue st ->
  let st' := mass_leftover d anchorIDs coneThreadID scope inReach st in
  (forall v, is_Some (ms_mass st' !! v) <-> v ∈ inReach) /\
  (ms_finalized st = inReach -> st' = st).
Proof.
  intros Hi. unfold mass_leftover.
  assert (forall l s, (forall v, v ∈ ms_finalized s <-> is_Some (ms_mass s !! v)) ->
    let s' := fold_left (fun st v => if bool_decide (v ∈ ms_finalized st) then st else (finalize v st).1) l s in
    (forall v, is_Some (ms_mass s' !! v) <-> v ∈ ms_finalized s \/ v ∈ l) /\
    ((forall v, v ∈ l -> v ∈ ms_finalized s) -> s' = s)) as Hl.
  { induction l as [|v l IH]; intros s Hs; cbn [fold_left].
    { split; [|done]. intros v. rewrite <- Hs. split; [auto|intros [?|?%elem_of_nil]; done]. }
    destruct (bool_decide_reflect (v ∈ ms_finalized s)) as [Hv|Hv].
    - destruct (IH s Hs) as [IH1 IH2]. split; [|intros Hall; apply IH2; intros w Hw; apply Hall; by right].
      intros w. rewrite IH1, elem_of_cons. naive_solver.
    - destruct (finalize_fields v s) as (F1 & F2 & _).
      destruct (IH (finalize v s).1) as [IH1 IH2].
      { intros w. rewrite F1, F2, lookup_insert_is_Some, elem_of_union, elem_of_singleton, <- Hs.
        destruct (decide (w = v)); naive_solver. }
      split; [|intros Hall; exfalso; apply Hv, Hall; by left].
      intros w. rewrite IH1, F1, elem_of_union, elem_of_singleton, elem_of_cons. tauto. }
  destruct (Hl (members inReach) st (mi_dom _ _ Hi)) as [H1 H2]. split.
  - intros v. etransitivity; [apply H1|]. rewrite elem_of_members.
    pose proof (mi_sub _ _ Hi v). tauto.
  - intros He. apply H2. intros v. by rewrite He, elem_of_members.
Qed.
End MassLoop.

(** ** The walk as a whole *)

Section WalkTheorems.
Context `{!MapRange string}.

Lemma walk_split d anchorIDs cone scope mass threads truncated :
  provenanceMassWalk d anchorIDs cone scope = Some (mass, threads, truncated) ->
  exists st ms, reach_loop d cone scope (reach_fuel d anchorIDs) (reach_init d anchorIDs cone scope) =
      Some (st, truncated) /\
    reach_out d anchorIDs cone scope st /\
    mass_inv d anchorIDs cone scope (rs_inReach st) [] ms /\
    mass = ms_mass (mass_leftover d anchorIDs cone scope (rs_inReach st) ms).
Proof.
  unfold provenanceMassWalk. destruct (reach_loop _ _ _ _ _) as [[st tr]|] eqn:Er; [|done].
  destruct (mass_loop _ _ _ _ _ _ _ _) as [ms|] eqn:Em; [|done]. intros [= <- <- <-].
  destruct (reach_loop_inv d anchorIDs cone scope _ _ _ _ (reach_init_inv d anchorIDs cone scope) Er) as [Ho _].
  exists st, ms. split; [done|]. split; [exact Ho|]. split; [|done].
  eapply mass_loop_inv; [| |exact Em].
  - apply (ro_fresh _ _ _ _ _ Ho).
  - apply mass_init_inv, (ro_fresh _ _ _ _ _ Ho).
Qed.
End WalkTheorems.

(** ** Recorded threads *)

Section Threads.
Context `{!MapRange string}.
Context (d : dag) (anchorIDs : list string) (coneThreadID : string) (scope : SelectionScope).

(** [t] is the thread some in-scope provenance edge records for [id]. *)
Definition recorded (id t : string) : Prop :=
  exists u e, e ∈ prov_edges d coneThreadID scope u /\ e_FromMessageId e = id /\ e_FromThreadId e = t.

Definition sound_threads (T : gmap string string) : Prop := forall id t, T !! id = Some t -> recorded id t.

Lemma note_threads_spec u T :
  sound_threads T ->
  let T' := note_threads d coneThreadID scope u T in
  sound_threads T' /\ (forall id, is_Some (T !! id) -> is_Some (T' !! id)) /\
  (forall v, prov_step d coneThreadID scope u v -> is_Some (T' !! v)).
Proof.
  intros HT. unfold note_threads, prov_step.
  assert (forall l, l ⊆ prov_edges d coneThreadID scope u -> forall T, sound_threads T ->
    let T' := fold_left (fun m e => <[e_FromMessageId e := e_FromThreadId e]> m) l T in
    sound_threads T' /\ (forall id, is_Some (T !! id) -> is_Some (T' !! id)) /\
    (forall e, e ∈ l -> is_Some (T' !! e_FromMessageId e))) as Hl.
  { induction l as [|e l IH]; intros Hsub m Hm; cbn [fold_left]; [split; [done|]; set_solver|].
    destruct (IH ltac:(set_solver) (<[e_FromMessageId e := e_FromThreadId e]> m)) as (H1 & H2 & H3).
    { intros id t. rewrite lookup_insert. case_decide as Hid; [|apply Hm].
      intros [= <-]. exists u, e. split; [apply Hsub; by left|done]. }
    split; [done|]. split; [intros id Hid; apply H2; rewrite lookup_insert_is_Some; destruct (decide (e_FromMessageId e = id)); auto|].
    intros x [->|Hx]%elem_of_cons; [|auto]. apply H2. rewrite lookup_insert_eq. eauto. }
  destruct (Hl _ (reflexivity _) T HT) as (H1 & H2 & H3). split; [done|]. split; [done|].
  intros v (e & He & <-). auto.
Qed.

Lemma push_contributors_threads f st u :
  rs_threadByID (push_contributors d coneThreadID scope f st u) =
  note_threads d coneThreadID scope u (rs_threadByID st).
Proof.
  unfold push_contributors. set (st0 := Build_reach_state _ _ _ _ _).
  change (note_threads d coneThreadID scope u (rs_threadByID st)) with (rs_threadByID st0).
  generalize st0. induction (contributorsOf d coneThreadID scope u) as [|i l IH]; intros s; [done|].
  cbn [fold_left]. rewrite IH. unfold reach_push.
  destruct (bool_decide _); [done|]. by destruct (match rs_best s !! _ with Some _ => _ | None => _ end).
Qed.

Record threads_inv (st : reach_state) : Prop := {
  ti_sound : sound_threads (rs_threadByID st);
  ti_heap : forall en, en ∈ rs_heap st -> is_Some (rs_threadByID st !! be_id en);
  ti_reach : forall v, v ∈ rs_inReach st -> is_Some (rs_threadByID st !! v)
}.

Lemma push_contributors_threads_inv f st u :
  threads_inv st -> threads_inv (push_contributors d coneThreadID scope f st u).
Proof.
  intros [I1 I2 I3]. pose proof (push_contributors_pushed d coneThreadID scope f st u) as [A1 _ _ A4 _ _ _].
  destruct (note_threads_spec u _ I1) as (N1 & N2 & N3).
  split; rewrite push_contributors_threads; [done| |].
  - intros en Hen. destruct (A4 en Hen) as [Hin|Hin]; [auto|].
    apply list_elem_of_fmap in Hin as (i & -> & Hi). by apply N3, elem_of_contributors.
  - rewrite A1. auto.
Qed.

Lemma reach_init_threads : threads_inv (reach_init d anchorIDs coneThreadID scope).
Proof.
  unfold reach_init. generalize (anchors anchorIDs) as an. intros an.
  assert (threads_inv {| rs_inReach := ∅; rs_threadByID := ∅; rs_settled := an; rs_best := ∅; rs_heap := [] |})
    as Hi.
  { split; simpl; [intros ? ? Hx; by rewrite lookup_empty in Hx|by intros ? ?%elem_of_nil|set_solver]. }
  revert Hi. generalize (Build_reach_state ∅ ∅ an ∅ []). clear.
  induction anchorIDs as [|a l IH]; intros s Hs; [done|]. apply IH. by apply push_contributors_threads_inv.
Qed.

Lemma reach_loop_threads fuel st st' truncated :
  threads_inv st -> reach_loop d coneThreadID scope fuel st = Some (st', truncated) -> threads_inv st'.
Proof.
  revert st. induction fuel as [|fuel IH]; intros st Hi H; cbn [reach_loop] in H;
    destruct (heap_pop bound_less (rs_heap st)) as [[top heap]|] eqn:Ep; try done;
    try (by injection H as <- _).
  apply heap_pop_perm in Ep.
  assert (threads_inv (reach_skip st heap)) as Hskip.
  { destruct Hi as [I1 I2 I3]. split; simpl; [done| |done]. intros en Hen. apply I2. rewrite Ep. by right. }
  destruct (_ || _); [by eapply IH|]. destruct (_ <=? _); [by injection H as <- _|].
  eapply IH; [|exact H]. apply push_contributors_threads_inv. destruct Hskip as [S1 S2 S3]. split; simpl; [done|done|].
  intros v [->%elem_of_singleton|Hv]%elem_of_union; [|auto]. apply (ti_heap _ Hi). rewrite Ep. by left.
Qed.

(** Phase 2 writes the same threads again. *)
Definition mass_threads (inReach : gset string) (T : gmap string string) : Prop :=
  sound_threads T /\ (forall v, v ∈ inReach -> is_Some (T !! v)).

Lemma finalize_threads inReach v st :
  mass_threads inReach (ms_threadByID st) ->
  mass_threads inReach (ms_threadByID (finalize d anchorIDs coneThreadID scope inReach v st).1).
Proof.
  intros [H1 H2].
  unfold finalize. destruct (fold_left _ _ _) as [p f]. simpl.
  destruct (note_threads_spec v _ H1) as (N1 & N2 & _). split; [done|]. auto.
Qed.

Lemma mass_loop_threads inReach fuel queue st st' :
  mass_threads inReach (ms_threadByID st) ->
  mass_loop d anchorIDs coneThreadID scope inReach fuel queue st = Some st' ->
  mass_threads inReach (ms_threadByID st').
Proof.
  revert queue st. induction fuel as [|fuel IH]; intros [|v queue] st Hi H; cbn [mass_loop] in H;
    try done; try (by injection H as <-).
  destruct (bool_decide _); [by eapply IH|].
  pose proof (finalize_threads inReach v st Hi) as Hi'.
  destruct (finalize _ _ _ _ _ v st) as [st1 freed]. by eapply IH.
Qed.

(** Every reached message has a thread, one that an in-scope edge records. *)
Lemma walk_threads mass threads truncated :
  provenanceMassWalk d anchorIDs coneThreadID scope = Some (mass, threads, truncated) ->
  sound_threads threads /\ (forall v, is_Some (mass !! v) -> is_Some (threads !! v)).
Proof.
  intros Hrun. destruct (walk_split _ _ _ _ _ _ _ Hrun) as (st & ms & Hr & _ & Hi & Hmass).
  destruct (mass_leftover_dom _ _ _ _ _ _ _ Hi) as [Hdom _]. unfold provenanceMassWalk in Hrun.
  rewrite Hr in Hrun. pose proof (reach_loop_threads _ _ _ _ reach_init_threads Hr) as [T1 _ T3].
  destruct (mass_loop _ _ _ _ _ _ _ _) as [ms'|] eqn:Em; [|done]. injection Hrun as Hm' <-.
  assert (mass_threads (rs_inReach st) (ms_threadByID ms')) as HT.
  { eapply mass_loop_threads; [|exact Em]. by split. }
  unfold mass_leftover in *. revert Hm'. 
  assert (forall l s, mass_threads (rs_inReach st) (ms_threadByID s) ->
    mass_threads (rs_inReach st) (ms_threadByID (fold_left (fun st0 v => if bool_decide (v ∈ ms_finalized st0)
      then st0 else (finalize d anchorIDs coneThreadID scope (rs_inReach st) v st0).1) l s))) as Hl.
  { induction l as [|v l IH]; intros s Hs; [done|]. cbn [fold_left]. apply IH.
    destruct (bool_decide _); [done|]. by apply finalize_threads. }
  intros _. destruct (Hl (members (rs_inReach st)) ms' HT) as [S1 S2]. split; [done|].
  intros v Hv. apply S2. apply Hdom. by rewrite <- Hmass.
Qed.

Lemma recorded_scope id t :
  recorded id t -> scope <> SELECTION_SCOPE_ALL_THREADS -> t = coneThreadID.
Proof.
  intros (u & e & He & _ & <-) Hs. apply elem_of_prov_edges in He as [_ Hok].
  apply andb_true_iff in Hok as [_ Hok]. destruct scope; try done;
    apply andb_true_iff in Hok as [Hok _]; by apply String.eqb_eq in Hok.
Qed.
End Threads.

(** The mass walk always returns: both passes are bounded by the stored
    edges, on cyclic recordings too. *)
Theorem provenanceMassWalk_terminates `{!MapRange string} (d : dag) (anchorIDs : list string)
    (cone : string) (scope : SelectionScope) :
  is_Some (provenanceMassWalk d anchorIDs cone scope).
Proof.
  unfold provenanceMassWalk. destruct (reach_total d anchorIDs cone scope) as [[st tr] ->].
  destruct (mass_total d anchorIDs cone scope (rs_inReach st) (rs_threadByID st)) as [ms ->]. eauto.
Qed.

(** What the walk reaches.  The messages given a mass are undelivered
    ancestry of the window, through provenance edges of the scope; the window
    itself never surfaces; there are at most [provenanceReachCap] of them; and
    when the walk reports no truncation they are all of the ancestry, while a
    truncated walk filled the cap and left a reachable message out. *)
Theorem provenanceMassWalk_reach `{!MapRange string} (d : dag) (anchorIDs : list string)
    (cone : string) (scope : SelectionScope)
    (mass : gmap string float) (threads : gmap string string) (truncated : bool)
    (Hrun : provenanceMassWalk d anchorIDs cone scope = Some (mass, threads, truncated)) :
  (forall v, is_Some (mass !! v) -> v ∉ anchorIDs /\ ancestry d anchorIDs cone scope v) /\
  size mass <= provenanceReachCap /\
  (if truncated
   then size mass = provenanceReachCap /\
        exists v, v ∉ anchorIDs /\ mass !! v = None /\ ancestry d anchorIDs cone scope v
   else forall v, ancestry d anchorIDs cone scope v -> v ∉ anchorIDs -> is_Some (mass !! v)).
Proof.
  destruct (walk_split _ _ _ _ _ _ _ Hrun) as (st & ms & Hr & Ho & Hi & ->).
  destruct (reach_loop_inv d anchorIDs cone scope _ _ _ _ (reach_init_inv d anchorIDs cone scope) Hr) as [_ Ht].
  destruct (mass_leftover_dom d anchorIDs cone scope (rs_inReach st) [] ms Hi) as [Hdom _].
  set (mass := ms_mass _) in *.
  assert (dom mass = rs_inReach st) as Hd by (apply set_eq; intros v; by rewrite elem_of_dom, Hdom).
  assert (forall v, v ∈ anchors anchorIDs <-> v ∈ anchorIDs) as Ha by (intros; apply elem_of_list_to_set).
  rewrite <- size_dom, Hd. destruct Ho as [O1 O2 O3 O4].
  split; [|split; [done|]].
  - intros v Hv. apply Hdom in Hv. rewrite <- Ha. split; [set_solver|auto].
  - destruct truncated.
    + destruct Ht as [? (v & Hv & ?)]. split; [done|]. exists v. rewrite O1 in Hv.
      rewrite <- Ha. split; [set_solver|]. split; [|done].
      apply not_elem_of_dom. rewrite Hd. set_solver.
    + intros v Hv Hn. apply Hdom. specialize (Ht v Hv). rewrite O1 in Ht. rewrite <- Ha in Hn. set_solver.
Qed.

(** C14: the mass equation.  When provenance is acyclic (a contributor is older
    than the message it fed), the mass of every reached message is the sum,
    over its recorded relations into the window or into reached messages in
    target order, of the relation's weight times the target's contribution: 1
    for a window member, the target's own final mass otherwise. *)
Theorem provenance_mass_equation `{!MapRange string} (d : dag) (anchorIDs : list string)
    (cone : string) (scope : SelectionScope)
    (mass : gmap string float) (threads : gmap string string) (truncated : bool)
    (age : string -> nat)
    (Hage : forall u v, prov_step d cone scope u v -> age u < age v)
    (Hrun : provenanceMassWalk d anchorIDs cone scope = Some (mass, threads, truncated)) :
  forall v, is_Some (mass !! v) ->
    mass !! v = Some (fold_left
      (fun m r => if bool_decide (r.1 ∈ anchorIDs) then fadd m r.2
                  else if bool_decide (is_Some (mass !! r.1)) then fadd m (fmul r.2 (default f0 (mass !! r.1)))
                  else m)
      (relations d anchorIDs cone scope (dom mass) v) f0).
Proof.
  destruct (walk_split _ _ _ _ _ _ _ Hrun) as (st & ms & _ & Ho & Hi & ->).
  destruct (mass_leftover_dom d anchorIDs cone scope (rs_inReach st) [] ms Hi) as [_ Hsame].
  pose proof (mass_loop_complete d anchorIDs cone scope (rs_inReach st) age Hage ms Hi) as Hc.
  rewrite (Hsame Hc). clear Hsame. intros v Hv. apply (mi_dom _ _ _ _ _ _ _ Hi) in Hv.
  assert (dom (ms_mass ms) = rs_inReach st) as Hd.
  { rewrite <- Hc. apply set_eq. intros w. by rewrite elem_of_dom, (mi_dom _ _ _ _ _ _ _ Hi). }
  rewrite (mi_mass _ _ _ _ _ _ _ Hi v Hv) at 1. f_equal. unfold path_mass.
  destruct (mass_index_spec d anchorIDs cone scope (rs_inReach st) (ro_fresh _ _ _ _ _ Ho) v) as [-> _].
  { by rewrite <- Hc. }
  rewrite Hd.
  match goal with |- fold_left ?f _ _ = fold_left ?g _ _ =>
    cut (forall l x, fold_left f l x = fold_left g l x); [intros Hl; apply Hl|] end.
  induction l as [|[u w] l IH]; intros m; simpl; [done|]. rewrite IH. f_equal. unfold add_mass. simpl.
  rewrite (bool_decide_ext (u ∈ anchors anchorIDs) (u ∈ anchorIDs)) by apply elem_of_list_to_set.
  rewrite (bool_decide_ext (u ∈ rs_inReach st) (is_Some (ms_mass ms !! u)));
    [done|by rewrite <- Hd, elem_of_dom].
Qed.

Module SampleProvenance.
Definition prov (from to : string) (n k : Z) : Edge := SampleGraph.edge from to n k EDGE_SOURCE_PROVENANCE.
(** a diamond below the window {w}: w <- a <- r and w <- b <- r. *)
Definition graph : dag :=
  AddEdges_all newDAG [prov "a" "w" 1 1; prov "b" "w" 1 1; prov "r" "a" 1 0; prov "r" "b" 1 1;
                       SampleGraph.ce "x" "w" 1 0].
Definition age (id : string) : nat :=
  if String.eqb id "w" then 0 else if String.eqb id "r" then 2 else 1.
Definition run : option (gmap string float * gmap string string * bool) :=
  @provenanceMassWalk canonical_range graph ["w"] "t" SELECTION_SCOPE_THREAD.
Definition mass : gmap string float :=
  Eval vm_compute in match run with Some (m, _, _) => m | None => ∅ end.
Definition threads : gmap string string :=
  Eval vm_compute in match run with Some (_, t, _) => t | None => ∅ end.
End SampleProvenance.

Example SampleProvenance_run :
  SampleProvenance.run = Some (SampleProvenance.mass, SampleProvenance.threads, false) /\
  SampleProvenance.mass !! "r" = Some (f64_lit 3 (-2)) /\ SampleProvenance.mass !! "x" = None.
Proof. vm_compute. auto. Qed.

Lemma provenanceMassWalk_reach_witness :
  SampleProvenance.run = Some (SampleProvenance.mass, SampleProvenance.threads, false) /\
  size SampleProvenance.mass <= provenanceReachCap.
Proof.
  assert (SampleProvenance.run = Some (SampleProvenance.mass, SampleProvenance.threads, false)) as Hrun
    by (vm_compute; reflexivity).
  split; [exact Hrun|].
  exact (proj1 (proj2 (@provenanceMassWalk_reach canonical_range SampleProvenance.graph ["w"] "t"
    SELECTION_SCOPE_THREAD _ _ _ Hrun))).
Defined.

Lemma SampleProvenance_age u v :
  prov_step SampleProvenance.graph "t" SELECTION_SCOPE_THREAD u v ->
  SampleProvenance.age u < SampleProvenance.age v.
Proof.
  intros (e & He & <-). apply elem_of_prov_edges in He as [He Hok].
  unfold SampleProvenance.graph in He. rewrite Prerequisites_AddEdges_all in He.
  apply elem_of_app in He as [He|He]; [by apply elem_of_nil in He|].
  apply list_elem_of_filter in He as [<- He]. rewrite !elem_of_cons, elem_of_nil in He.
  destruct_or? He; subst e; try done; vm_compute; lia.
Qed.

Lemma provenance_mass_equation_witness :
  (forall u v, prov_step SampleProvenance.graph "t" SELECTION_SCOPE_THREAD u v ->
     SampleProvenance.age u < SampleProvenance.age v) /\
  SampleProvenance.run = Some (SampleProvenance.mass, SampleProvenance.threads, false) /\
  exists x, SampleProvenance.mass !! "r" = Some x.
Proof.
  assert (SampleProvenance.run = Some (SampleProvenance.mass, SampleProvenance.threads, false)) as Hrun
    by (vm_compute; reflexivity).
  split; [exact SampleProvenance_age|]. split; [exact Hrun|]. eexists.
  apply (@provenance_mass_equation canonical_range SampleProvenance.graph ["w"] "t"
    SELECTION_SCOPE_THREAD _ _ _ SampleProvenance.age SampleProvenance_age Hrun).
  vm_compute. eauto.
Defined.
