(* ===== verification/Engine.v ===== *)
(** * The engine ([rrc/engine.go], [rrc/provenance.go])

    The engine's state and its methods outside the assembly pipeline.  The
    scorer and the chunk oracle are interfaces: records of functions.  The
    edge filter returns the (possibly rewritten) edge and its verdict.  The
    price map is a Go map: [None] is the nil map, which can be read but not
    written. *)

From Stdlib Require Import ZArith Lia String.
From stdpp Require Import sorting.
From S2P Require Import Prelude GoFloat GoSort GoStrings Types Predicate Detect Dag Chunk EngineConfig Selection Provenance.
#[local] Open Scope nat_scope.

Record ChunkRef := {
  cr_MessageID : string;
  cr_ChunkIndex : nat;
  cr_ThreadID : string;
  cr_Text : string;
  cr_Vector : list float;
  cr_RetrievalScore : float
}.

(** [Scorer.Score(ctx, query, candidates)] *)
Definition Scorer : Type := string -> list string -> outcome (list float).

(** The interface has a fifth method, [EnsureVector], that the engine never
    calls ([Oracle.EnsureVector] models the service's). *)
Record ChunkOracle := {
  ChunksForMessages : list string -> outcome (gmap string (list ChunkRef));
  NearestChunks : string -> Z -> Predicate -> outcome (list ChunkRef);
  RepresentativeVectors : list string -> outcome (gmap string (list float));
  RandomChunks : Z -> Z -> Predicate -> outcome (list ChunkRef)
}.

(** What an oracle promises the engine: the chunks it retrieves or draws
    satisfy the predicate they were asked with, a draw is no larger than
    requested, and chunks are returned for requested messages only. *)
Definition attrs (r : ChunkRef) (metadata : gmap string string) : CandidateAttrs :=
  {| ca_MessageID := cr_MessageID r; ca_ThreadID := cr_ThreadID r; ca_Metadata := metadata |}.

Class OracleContract (o : ChunkOracle) : Prop := {
  nearest_filtered : forall query k p refs r,
    NearestChunks o query k p = Ok refs -> r ∈ refs -> exists md, EvalPredicate p (attrs r md) = true;
  random_filtered : forall n seed p refs r,
    RandomChunks o n seed p = Ok refs -> r ∈ refs -> exists md, EvalPredicate p (attrs r md) = true;
  random_bounded : forall n seed p refs,
    RandomChunks o n seed p = Ok refs -> (Z.of_nat (length refs) <= Z.max 0 n)%Z;
  messages_requested : forall ids m id,
    ChunksForMessages o ids = Ok m -> is_Some (m !! id) -> id ∈ ids
}.

Record Engine := {
  en_scorer : option Scorer;
  en_dag : dag;
  en_scores : scoreCache;
  en_cfg : EngineConfig;
  en_oracle : option ChunkOracle;
  en_edgeFilter : option (Edge -> Edge * bool);
  en_price : option (gmap string float)
}.

Definition with_dag (d : dag) (e : Engine) : Engine :=
  {| en_scorer := en_scorer e; en_dag := d; en_scores := en_scores e; en_cfg := en_cfg e;
     en_oracle := en_oracle e; en_edgeFilter := en_edgeFilter e; en_price := en_price e |}.
Definition with_scores (sc : scoreCache) (e : Engine) : Engine :=
  {| en_scorer := en_scorer e; en_dag := en_dag e; en_scores := sc; en_cfg := en_cfg e;
     en_oracle := en_oracle e; en_edgeFilter := en_edgeFilter e; en_price := en_price e |}.
Definition with_price (p : option (gmap string float)) (e : Engine) : Engine :=
  {| en_scorer := en_scorer e; en_dag := en_dag e; en_scores := en_scores e; en_cfg := en_cfg e;
     en_oracle := en_oracle e; en_edgeFilter := en_edgeFilter e; en_price := p |}.

(** ** Construction *)

Inductive Option :=
  | WithChunkOracle (oracle : option ChunkOracle)
  | WithScorePersister (installed : bool)
  | WithLoadedEdges (edges : list Edge)
  | WithEdgeFilter (filter : option (Edge -> Edge * bool))
  | WithLogger
  | WithLoadedScores (loaded : list PersistedScore).

Definition apply_option (engine : Engine) (o : Option) : Engine :=
  match o with
  | WithChunkOracle oracle =>
      {| en_scorer := en_scorer engine; en_dag := en_dag engine; en_scores := en_scores engine;
         en_cfg := en_cfg engine; en_oracle := oracle; en_edgeFilter := en_edgeFilter engine;
         en_price := en_price engine |}
  | WithScorePersister p => with_scores (setPersister p (en_scores engine)) engine
  | WithLoadedEdges edges => with_dag (AddEdges_all (en_dag engine) edges) engine
  | WithEdgeFilter f =>
      {| en_scorer := en_scorer engine; en_dag := en_dag engine; en_scores := en_scores engine;
         en_cfg := en_cfg engine; en_oracle := en_oracle engine; en_edgeFilter := f;
         en_price := en_price engine |}
  | WithLogger => engine
  | WithLoadedScores loaded =>
      with_scores (fold_left (fun sc p => loadSilent (ps_Key p) (ps_Score p) sc) loaded (en_scores engine)) engine
  end.

Definition NewEngine (cfg : EngineConfig) (scorer : option Scorer) (options : list Option)
    : outcome Engine :=
  match Estimator (cfg_Chunk cfg) with
  | None => Panic "rrc: EngineConfig.Chunk.Estimator is nil — wire a TokenEstimator at construction (e.g. rrc/tiktoken)"
  | Some _ =>
      Ok (fold_left apply_option options
            {| en_scorer := scorer; en_dag := newDAG; en_scores := newScoreCache; en_cfg := cfg;
               en_oracle := None; en_edgeFilter := None; en_price := Some ∅ |})
  end.

(** ** The shadow price *)

Definition lastPrice (e : Engine) (threadID : string) : float :=
  match en_price e with
  | None => f0
  | Some m => default f0 (m !! threadID)
  end.

Definition setPrice (e : Engine) (threadID : string) (mu : float) : outcome Engine :=
  match en_price e with
  | None => Panic "assignment to entry in nil map"
  | Some m => Ok (with_price (Some (<[threadID := mu]> m)) e)
  end.

(** ** Edge admission *)

Definition admitEdge (e : Engine) (edge : Edge) : Engine * (Edge * bool) :=
  match en_edgeFilter e with
  | Some f =>
      let '(edge', keep) := f edge in
      if keep then (with_dag (AddEdge (en_dag e) edge') e, (edge', true)) else (e, (edge', false))
  | None => (with_dag (AddEdge (en_dag e) edge) e, (edge, true))
  end.

(** [if !e.admitEdge(edge) { continue }; edges = append(edges, edge)] *)
Definition admit_step (acc : Engine * list Edge) (edge : Edge) : Engine * list Edge :=
  let '(e, edges) := acc in
  match admitEdge e edge with
  | (e', (edge', true)) => (e', edges ++ [edge'])
  | (e', (_, false)) => (e', edges)
  end.

Record Contributor := { co_MessageID : string; co_ThreadID : string; co_Weight : float }.

Definition provenance_of (e : Engine) (anchor : Message) (c : Contributor) : Edge := {|
  e_FromMessageId := co_MessageID c;
  e_ToMessageId := m_Id anchor;
  e_Score := f32_of_f64 (co_Weight c);
  e_Source := EDGE_SOURCE_PROVENANCE;
  e_CrossEncoderScore := f0;
  e_FromThreadId := co_ThreadID c;
  e_ToThreadId := m_ThreadId anchor;
  e_ScorerModel := ScorerModelID (en_cfg e)
|}.

Definition record_step (anchor : Message) (acc : gset string * (Engine * list Edge)) (c : Contributor)
    : gset string * (Engine * list Edge) :=
  let '(seen, (e, edges)) := acc in
  if String.eqb (co_MessageID c) "" || String.eqb (co_MessageID c) (m_Id anchor) ||
     bool_decide (co_MessageID c ∈ seen)
  then acc
  else ({[co_MessageID c]} ∪ seen, admit_step (e, edges) (provenance_of e anchor c)).

Definition RecordProvenance (e : Engine) (anchor : option Message) (contributors : list Contributor)
    : Engine * list Edge :=
  match anchor with
  | None => (e, [])
  | Some a => (fold_left (record_step a) contributors (∅, (e, []))).2
  end.

(** A nil entry of the slice is [None]. *)
Definition AddEdges (e : Engine) (edges : list (option Edge)) : Engine * list Edge :=
  fold_left (fun acc o => match o with None => acc | Some edge => admit_step acc edge end) edges (e, []).

(** ** Selection *)

Section Select.
Context `{!MapRange string}.

Definition to_selected (item : selectionEntry) : SelectedMessage := {|
  sm_MessageId := se_MessageID item;
  sm_EffectiveScore := f32_of_f64 (se_EffectiveScore item);
  sm_HopDepth := wrapi32 (se_HopDepth item);
  sm_ViaEdges := se_ViaEdges item;
  sm_ThreadId := se_ThreadID item;
  sm_CrossThread := se_CrossThread item;
  sm_ProvenanceWeight := f32_of_f64 (se_ProvenanceWeight item)
|}.

Definition below_excluded (selectedIDs : gset string) (belowFloor : gmap string float) : list ExcludedMessage :=
  (fun kv => {| xm_MessageId := kv.1; xm_Reason := EXCLUSION_REASON_BELOW_THRESHOLD;
                xm_Score := f32_of_f64 kv.2 |})
  <$> filter (fun kv => kv.1 ∉ selectedIDs) (map_range belowFloor).

Definition scope_excluded (e : Engine) (anchorID threadID : string) (scope : SelectionScope)
    (selectedIDs : gset string) (belowFloor : gmap string float) : list ExcludedMessage :=
  (fun edge => {| xm_MessageId := e_FromMessageId edge; xm_Reason := EXCLUSION_REASON_UNSPECIFIED;
                  xm_Score := e_Score edge |})
  <$> List.filter (fun edge =>
        negb (bool_decide (e_FromMessageId edge ∈ selectedIDs) ||
              flt f0 (default f0 (belowFloor !! e_FromMessageId edge))) &&
        negb (scopeAllows edge threadID scope))
      (Prerequisites (en_dag e) anchorID).

Definition selectLocked (e : Engine) (anchorID : string) (scope : SelectionScope) (threadID : string)
    (refFloor : list float) : outcome SelectionResult :=
  if bool_decide (scope = SELECTION_SCOPE_THREAD) && String.eqb threadID "" then Err EThreadNotFound
  else
    match extractSubgraph (en_dag e) anchorID threadID scope (en_cfg e) refFloor with
    | None => Panic "unreachable"
    | Some (selected, belowFloor) =>
        let selected := transitiveReduction selected in
        let selectedIDs : gset string := list_to_set (se_MessageID <$> selected) in
        Ok {| sr_EventId := "sel-" ^^ anchorID;
              sr_Scope := scope;
              sr_ThreadId := threadID;
              sr_Selected := to_selected <$> selected;
              sr_Excluded := below_excluded selectedIDs belowFloor ++
                             scope_excluded e anchorID threadID scope selectedIDs belowFloor;
              sr_LocalContextFingerprint := "";
              sr_LocalContextMessageIds := [];
              sr_AnchorMessageId := anchorID |}
    end.

Definition Select (e : Engine) (anchorID : string) (scope : SelectionScope) (threadID : string)
    : outcome SelectionResult :=
  selectLocked e anchorID scope threadID [].
End Select.

(** ** Diversity reranking *)

Definition cosineSim (a b : list float) : float :=
  if negb (length a =? length b) || (length a =? 0) then f0
  else
    let '(dot, normA, normB) :=
      fold_left (fun '(dot, na, nb) '(x, y) =>
        let x := f64_of_f32 x in let y := f64_of_f32 y in
        (fadd dot (fmul x y), fadd na (fmul x x), fadd nb (fmul y y)))
      (zip a b) (f0, f0, f0) in
    let denom := fmul (fsqrt normA) (fsqrt normB) in
    if feq denom f0 then f0 else fdiv dot denom.

Definition max_sim (vec : list float) (others : list (list float)) (acc : float) : float :=
  fold_left (fun m v => let s := cosineSim vec v in if flt m s then s else m) others acc.

Section MMR.
Context (repVecs : gmap string (list float)) (queryVecs : list (list float))
        (original : gmap string float).

(** [simToKept] *)
Definition simToKept (candVec : option (list float)) (kept : list SelectedMessage) : float :=
  match candVec with
  | None => f0
  | Some v =>
      let m := max_sim v queryVecs f0 in
      let m := max_sim v (omap (fun k => repVecs !! sm_MessageId k) kept) m in
      let m := if flt m f0 then f0 else m in
      if flt f1 m then f1 else m
  end.

Definition orig_of (s : SelectedMessage) : float := default f0 (original !! sm_MessageId s).

Definition effective (kept : list SelectedMessage) (cand : SelectedMessage) : float :=
  fmul (orig_of cand) (fsub f1 (simToKept (repVecs !! sm_MessageId cand) kept)).

(** The index and value of the first strict maximum above -Inf. *)
Fixpoint best_from (kept remaining : list SelectedMessage) (i : nat) (best : option nat) (score : float)
    : option nat * float :=
  match remaining with
  | [] => (best, score)
  | cand :: rest =>
      let eff := effective kept cand in
      if flt score eff then best_from kept rest (S i) (Some i) eff
      else best_from kept rest (S i) best score
  end.

Definition with_score (s : SelectedMessage) (x : float) : SelectedMessage := {|
  sm_MessageId := sm_MessageId s; sm_EffectiveScore := x; sm_HopDepth := sm_HopDepth s;
  sm_ViaEdges := sm_ViaEdges s; sm_ThreadId := sm_ThreadId s; sm_CrossThread := sm_CrossThread s;
  sm_ProvenanceWeight := sm_ProvenanceWeight s |}.

(** [remaining\[:i\] ++ remaining\[i+1:\]] *)
Definition remove_at (i : nat) (l : list SelectedMessage) : list SelectedMessage :=
  take i l ++ drop (S i) l.

Fixpoint mmr_loop (fuel : nat) (remaining out : list SelectedMessage) : option (outcome (list SelectedMessage)) :=
  match remaining with
  | [] => Some (Ok out)
  | _ =>
      match fuel with
      | O => None
      | S fuel' =>
          match best_from out remaining 0 None fninf with
          | (None, _) => Some (Panic "index out of range [-1]")
          | (Some i, score) =>
              match remaining !! i with
              | None => Some (Panic "index out of range")
              | Some pick => mmr_loop fuel' (remove_at i remaining) (out ++ [with_score pick (f32_of_f64 score)])
              end
          end
      end
  end.

(** The first pick falls back to index 0. *)
Definition mmr_first (remaining : list SelectedMessage) : option (SelectedMessage * list SelectedMessage) :=
  let '(best, score) := best_from [] remaining 0 None fninf in
  let i := default 0 best in
  match remaining !! i with
  | None => None
  | Some pick =>
      Some (if 0 <? length queryVecs then with_score pick (f32_of_f64 score) else pick, remove_at i remaining)
  end.

Definition by_original (a b : SelectedMessage) : bool := flt (orig_of b) (orig_of a).
End MMR.

(** The second component is the slice returned along with an error. *)
Definition ApplyMMR (e : Engine) (selected : list SelectedMessage) (queryIDs : list string)
    : outcome (list SelectedMessage) * list SelectedMessage :=
  if length selected <=? 1 then (Ok selected, selected)
  else
    match en_oracle e with
    | None => (Err (ENew "ApplyMMR: no chunk oracle configured"), selected)
    | Some oracle =>
        let original := fold_left (fun m item =>
          <[sm_MessageId item := f64_of_f32 (sm_EffectiveScore item)]> m) selected ∅ in
        match RepresentativeVectors oracle ((sm_MessageId <$> selected) ++ queryIDs) with
        | Err err => (Err (EWrap "ApplyMMR: representative vectors: " err ""), selected)
        | Panic s => (Panic s, selected)
        | Ok repVecs =>
            if size repVecs =? 0 then (Ok selected, selected)
            else
              let queryVecs := omap (fun qid => repVecs !! qid) queryIDs in
              let remaining := sort_stable (by_original original) selected in
              match mmr_first repVecs queryVecs original remaining with
              | None => (Panic "index out of range", selected)
              | Some (pick, rest) =>
                  (default (Panic "unreachable")
                     (mmr_loop repVecs queryVecs original (length rest) rest [pick]), selected)
              end
        end
    end.

(** ** Fork and merge *)

Section ForkMerge.
Context `{!MapRange string, !MapRange scoreKey}.

(** [price] is not initialised. *)
Definition Fork (e : Engine) : Engine := {|
  en_scorer := en_scorer e;
  en_dag := AddEdges_all newDAG (AllEdges (en_dag e));
  en_scores :=
    fold_left (fun sc kv => loadSilent kv.1 kv.2 sc) (map_range (all_scores (en_scores e)))
      (setPersister (persist (en_scores e)) newScoreCache);
  en_cfg := en_cfg e;
  en_oracle := en_oracle e;
  en_edgeFilter := en_edgeFilter e;
  en_price := None
|}.

Definition merge_score (sc : scoreCache) (kv : scoreKey * float) : scoreCache :=
  if String.eqb (LocalContextFingerprint kv.1) "" then sc
  else match getLocalContext sc kv.1 with
       | Some _ => sc
       | None => setLocalContext kv.1 kv.2 sc
       end.

Definition Merge (e fork : Engine) : Engine :=
  with_scores
    (fold_left merge_score (map_range (all_scores (en_scores fork))) (en_scores e))
    (with_dag (AddEdges_all (en_dag e) (AllEdges (en_dag fork))) e).
End ForkMerge.

(** ** The shadow price of a fork *)

(** A forked engine has no price map.  Reading it gives zero for every
    thread, and publishing any price panics. *)
Theorem fork_cannot_publish_price `{!MapRange string, !MapRange scoreKey} (e : Engine)
    (threadID : string) (mu : float) :
  lastPrice (Fork e) threadID = f0 /\
  setPrice (Fork e) threadID mu = Panic "assignment to entry in nil map".
Proof. split; reflexivity. Qed.

Lemma setPrice_lastPrice e t mu e' :
  setPrice e t mu = Ok e' ->
  forall t', lastPrice e' t' = if decide (t = t') then mu else lastPrice e t'.
Proof.
  unfold setPrice, lastPrice. destruct (en_price e); [|done]. intros [= <-] t'. simpl.
  rewrite lookup_insert. by case_decide.
Qed.

(** ** Fork and merge *)

Lemma load_all_get l sc k :
  NoDup l.*1 ->
  getLocalContext (fold_left (fun sc kv => loadSilent kv.1 kv.2 sc) l sc) k =
  match list_to_map (M := gmap scoreKey float) l !! k with
  | Some s => Some s | None => getLocalContext sc k end.
Proof.
  revert sc. induction l as [|[k' s] l IH]; intros sc Hnd; [simpl; by rewrite lookup_empty|].
  cbn [fold_left]. simpl in Hnd. apply NoDup_cons in Hnd as [Hk Hnd]. rewrite IH by done. simpl.
  rewrite getLocalContext_load, lookup_insert. case_decide as He; [|done]. subst.
  by rewrite (not_elem_of_list_to_map_1 _ _ Hk).
Qed.

Lemma merge_all_get l sc k :
  NoDup l.*1 ->
  getLocalContext (fold_left merge_score l sc) k =
  match getLocalContext sc k with
  | Some s => Some s
  | None => if String.eqb (LocalContextFingerprint k) "" then None
            else list_to_map (M := gmap scoreKey float) l !! k
  end.
Proof.
  revert sc. induction l as [|[k' s] l IH]; intros sc Hnd.
  { simpl. rewrite lookup_empty. destruct (getLocalContext sc k); [done|].
    by destruct (String.eqb (LocalContextFingerprint k) ""). }
  cbn [fold_left]. simpl in Hnd. apply NoDup_cons in Hnd as [Hk Hnd]. rewrite IH by done.
  simpl. rewrite lookup_insert. unfold merge_score. simpl. case_decide as He.
  - subst k'. rewrite (not_elem_of_list_to_map_1 _ _ Hk).
    destruct (String.eqb_spec (LocalContextFingerprint k) "") as [Hf|Hf].
    + by destruct (getLocalContext sc k).
    + destruct (getLocalContext sc k) eqn:E; [by rewrite E|].
      by rewrite getLocalContext_set, decide_True.
  - destruct (String.eqb (LocalContextFingerprint k') ""); [done|].
    destruct (getLocalContext sc k'); [done|]. by rewrite getLocalContext_set, decide_False.
Qed.

Lemma list_to_map_range `{Countable K, !MapRange K} {A} (m : gmap K A) k :
  list_to_map (M := gmap K A) (map_range m) !! k = m !! k.
Proof.
  apply option_eq. intros x. rewrite <- elem_of_list_to_map by apply map_range_keys_NoDup.
  apply elem_of_map_range.
Qed.

Section ForkMergeSpec.
Context `{!MapRange string, !MapRange scoreKey}.

Lemma Fork_edges e : AllEdges (en_dag (Fork e)) ≡ₚ AllEdges (en_dag e).
Proof. simpl. by rewrite AddEdges_all_AllEdges, newDAG_AllEdges, app_nil_r. Qed.

Lemma Fork_scores e k : getLocalContext (en_scores (Fork e)) k = getLocalContext (en_scores e) k.
Proof.
  simpl. rewrite load_all_get by apply map_range_keys_NoDup. rewrite list_to_map_range.
  unfold getLocalContext, all_scores. simpl. rewrite lookup_empty. by destruct (_ !! k).
Qed.
End ForkMergeSpec.

(** What merging a fork does.  Every edge of the fork is appended to the
    parent's, those the fork inherited included; a cached score of the parent
    is never overwritten, and the fork's other scores are added unless their
    fingerprint is empty.  In particular merging an unchanged fork back keeps
    the cache but stores every parent edge twice. *)
Theorem merge_spec `{!MapRange string, !MapRange scoreKey} (e fork : Engine) :
  AllEdges (en_dag (Merge e fork)) ≡ₚ AllEdges (en_dag fork) ++ AllEdges (en_dag e) /\
  (forall k, getLocalContext (en_scores (Merge e fork)) k =
     match getLocalContext (en_scores e) k with
     | Some s => Some s
     | None => if String.eqb (LocalContextFingerprint k) "" then None
               else getLocalContext (en_scores fork) k
     end) /\
  AllEdges (en_dag (Merge e (Fork e))) ≡ₚ AllEdges (en_dag e) ++ AllEdges (en_dag e) /\
  (forall k, getLocalContext (en_scores (Merge e (Fork e))) k = getLocalContext (en_scores e) k).
Proof.
  assert (forall fork, AllEdges (en_dag (Merge e fork)) ≡ₚ AllEdges (en_dag fork) ++ AllEdges (en_dag e)) as He.
  { intros f. simpl. apply AddEdges_all_AllEdges. }
  assert (forall fork k, getLocalContext (en_scores (Merge e fork)) k =
     match getLocalContext (en_scores e) k with
     | Some s => Some s
     | None => if String.eqb (LocalContextFingerprint k) "" then None
               else getLocalContext (en_scores fork) k
     end) as Hs.
  { intros f k. simpl. rewrite merge_all_get by apply map_range_keys_NoDup. by rewrite list_to_map_range. }
  split; [apply He|]. split; [apply Hs|]. split; [by rewrite He, Fork_edges|].
  intros k. rewrite Hs, Fork_scores. destruct (getLocalContext (en_scores e) k); [done|].
  by destruct (String.eqb (LocalContextFingerprint k) "").
Qed.

(** ** Provenance recording *)

(** The contributors that yield an edge: the first of each id, neither empty
    nor the anchor itself. *)
Fixpoint effective_contributors (anchorId : string) (seen : gset string) (cs : list Contributor)
    : list Contributor :=
  match cs with
  | [] => []
  | c :: cs' =>
      if decide (co_MessageID c = "" \/ co_MessageID c = anchorId \/ co_MessageID c ∈ seen)
      then effective_contributors anchorId seen cs'
      else c :: effective_contributors anchorId ({[co_MessageID c]} ∪ seen) cs'
  end.

Definition filter_verdict (e : Engine) (edge : Edge) : option Edge :=
  match en_edgeFilter e with
  | None => Some edge
  | Some f => let '(edge', keep) := f edge in if keep : bool then Some edge' else None
  end.

Lemma admit_step_spec e edges edge :
  admit_step (e, edges) edge =
  match filter_verdict e edge with
  | Some edge' => (with_dag (AddEdge (en_dag e) edge') e, edges ++ [edge'])
  | None => (e, edges)
  end.
Proof.
  unfold admit_step, admitEdge, filter_verdict. destruct (en_edgeFilter e) as [f|]; [|done].
  by destruct (f edge) as [? []].
Qed.

Lemma record_fold a cs e seen edges :
  (fold_left (record_step a) cs (seen, (e, edges))).2 =
  let new := omap (filter_verdict e) (provenance_of e a <$> effective_contributors (m_Id a) seen cs) in
  (with_dag (AddEdges_all (en_dag e) new) e, edges ++ new).
Proof.
  revert e seen edges. induction cs as [|c cs IH]; intros e seen edges.
  { simpl. rewrite app_nil_r. by destruct e. }
  cbn [fold_left]. unfold record_step at 2.
  destruct (String.eqb_spec (co_MessageID c) "") as [He|He],
    (String.eqb_spec (co_MessageID c) (m_Id a)) as [Ha|Ha],
    (bool_decide_reflect (co_MessageID c ∈ seen)) as [Hs|Hs]; cbn [orb];
    try (rewrite IH; cbn [effective_contributors]; rewrite decide_True by tauto; done).
  rewrite admit_step_spec. cbn [effective_contributors]. rewrite decide_False by tauto.
  rewrite fmap_cons. simpl omap. destruct (filter_verdict e (provenance_of e a c)) as [x|]; rewrite IH.
  - cbv zeta. simpl. rewrite <- app_assoc. done.
  - done.
Qed.

(** Recording provenance at generation time.  One edge per distinct
    contributor other than the anchor and the empty id, in order, from the
    contributor to the anchor with the contributor's weight, marked as
    provenance and stamped with the scorer; the edge filter sees each of them
    once; exactly the edges it admits are returned and stored, and nothing
    else about the engine changes. *)
Theorem RecordProvenance_spec (e : Engine) (anchor : Message) (contributors : list Contributor) :
  let edges := omap (filter_verdict e)
                 (provenance_of e anchor <$> effective_contributors (m_Id anchor) ∅ contributors) in
  RecordProvenance e (Some anchor) contributors =
    (with_dag (AddEdges_all (en_dag e) edges) e, edges) /\
  NoDup (co_MessageID <$> effective_contributors (m_Id anchor) ∅ contributors) /\
  (forall c, c ∈ contributors -> co_MessageID c <> "" -> co_MessageID c <> m_Id anchor ->
     co_MessageID c ∈ co_MessageID <$> effective_contributors (m_Id anchor) ∅ contributors).
Proof.
  intros edges. split; [|].
  { simpl. rewrite record_fold. done. }
  assert (forall cs seen,
    NoDup (co_MessageID <$> effective_contributors (m_Id anchor) seen cs) /\
    (forall id, id ∈ co_MessageID <$> effective_contributors (m_Id anchor) seen cs -> id ∉ seen) /\
    (forall c, c ∈ cs -> co_MessageID c <> "" -> co_MessageID c <> m_Id anchor ->
       co_MessageID c ∈ seen \/
       co_MessageID c ∈ co_MessageID <$> effective_contributors (m_Id anchor) seen cs)) as Hall.
  { induction cs as [|c cs IH]; intros seen; simpl.
    { split; [constructor|]. split; [set_solver|]. intros c ?%elem_of_nil. done. }
    case_decide as Hd.
    - destruct (IH seen) as (H1 & H2 & H3). split; [done|]. split; [done|].
      intros c' [->|Hc]%elem_of_cons Hne Hna; [tauto|auto].
    - destruct (IH ({[co_MessageID c]} ∪ seen)) as (H1 & H2 & H3). simpl. split; [|split].
      + apply NoDup_cons. split; [|done]. intros Hin. apply H2 in Hin. set_solver.
      + intros id [->|Hid]%elem_of_cons; [tauto|]. apply H2 in Hid. set_solver.
      + intros c' [->|Hc]%elem_of_cons Hne Hna; [right; by left|].
        destruct (H3 c' Hc Hne Hna) as [[->%elem_of_singleton|?]%elem_of_union|?];
          [right; by left|by left|right; by right]. }
  destruct (Hall contributors ∅) as (H1 & _ & H3). split; [done|].
  intros c Hc Hne Hna. destruct (H3 c Hc Hne Hna) as [?%elem_of_empty|?]; done.
Qed.

(** ** Selection results *)

Section SelectSpec.
Context `{!MapRange string}.

(** What [Select] promises of a selected message: it was reached by exactly
    one recorded edge, an in-scope prerequisite edge from that message. *)
Definition selected_ok (e : Engine) (threadID : string) (scope : SelectionScope) (m : SelectedMessage) : Prop :=
  exists target x, sm_ViaEdges m = [x] /\ x ∈ Prerequisites (en_dag e) target /\
    e_FromMessageId x = sm_MessageId m /\ e_FromThreadId x = sm_ThreadId m /\
    sm_CrossThread m = negb (String.eqb (sm_ThreadId m) threadID) /\
    e_Source x <> EDGE_SOURCE_PROVENANCE /\ scopeAllows x threadID scope = true.

Lemma chain_last d at_ via dest x :
  chain d at_ via dest -> last via = Some x ->
  exists target, x ∈ Prerequisites d target /\ e_FromMessageId x = dest.
Proof.
  revert at_. induction via as [|y via IH]; intros at_; [done|]. intros [Hy Hc].
  destruct via as [|z via]; [intros [= <-]; simpl in Hc; by exists at_|].
  rewrite last_cons_cons. by apply (IH (e_FromMessageId y)).
Qed.

Lemma entry_last d prompt thread scope cfg refFloor s x :
  entry_ok d prompt thread scope cfg refFloor s -> last (se_ViaEdges s) = Some x ->
  (exists target, x ∈ Prerequisites d target) /\ e_FromMessageId x = se_MessageID s /\
  e_FromThreadId x = se_ThreadID s /\ se_CrossThread s = negb (String.eqb (se_ThreadID s) thread) /\
  e_Source x <> EDGE_SOURCE_PROVENANCE /\ scopeAllows x thread scope = true.
Proof.
  intros (e & rest & -> & Hc & Hs & Hr) Hx.
  destruct (chain_last _ _ _ _ _ Hc Hx) as (target & Hin & Hfrom).
  assert (List.last rest e = x) as Hl.
  { cbn [se_ViaEdges path_entry] in Hx. clear -Hx. destruct rest as [|y rest _] using rev_ind;
      [simpl in *; congruence|]. rewrite List.last_last.
    rewrite app_comm_cons, last_snoc in Hx. congruence. }
  split; [by exists target|]. split; [done|]. cbn [se_ThreadID se_CrossThread path_entry].
  rewrite Hl. split; [done|]. split; [done|].
  assert (negb (provenance_edge x) && scopeAllows x thread scope = true) as Hok.
  { assert (x = e \/ x ∈ rest) as [-> |Hxr].
    { rewrite <- Hl. destruct rest as [|y rest _] using rev_ind; [by left|right].
      rewrite List.last_last. set_solver. }
    - apply andb_true_iff in Hs. tauto.
    - rewrite Forall_forall in Hr. specialize (Hr x Hxr). apply andb_true_iff in Hr. tauto. }
  apply andb_true_iff in Hok as [Hp Hok]. split; [|done].
  unfold provenance_edge in Hp. by apply negb_true_iff, bool_decide_eq_false in Hp.
Qed.
(** The result built from a finished walk. *)
Lemma select_result e anchorID scope threadID refFloor st :
  walk_inv (en_dag e) anchorID threadID scope (en_cfg e) refFloor st ->
  let red := transitiveReduction (ws_selected st) in
  let ids : gset string := list_to_set (se_MessageID <$> red) in
  let selected := to_selected <$> red in
  NoDup (anchorID :: (sm_MessageId <$> selected)) /\
  (forall m, m ∈ selected -> selected_ok e threadID scope m) /\
  (forall x, x ∈ below_excluded ids (ws_belowFloor st) ++
               scope_excluded e anchorID threadID scope ids (ws_belowFloor st) ->
     xm_MessageId x ∉ sm_MessageId <$> selected).
Proof.
  intros Hi red ids selected.
  pose proof (transitiveReduction_last_hop _ _ _ _ _ _ _ Hi) as Hred. fold red in Hred.
  assert (se_MessageID <$> red = se_MessageID <$> ws_selected st) as Hids.
  { clear -Hred. induction Hred as [|s s' l l' (x & _ & ->) _ IH]; [done|]. by rewrite !fmap_cons, IH. }
  assert (sm_MessageId <$> selected = se_MessageID <$> red) as Hids'
    by (unfold selected; by rewrite <- list_fmap_compose).
  split; [rewrite Hids', Hids; by apply (wi_nodup _ _ _ _ _ _ _ Hi)|]. split.
  - intros m (s' & -> & Hs')%list_elem_of_fmap. apply list_elem_of_lookup in Hs' as [i Hs'].
    destruct (Forall2_lookup_r _ _ _ _ _ Hred Hs') as (s & Hs & x & Hx & ->).
    apply list_elem_of_lookup_2 in Hs. destruct (wi_selected _ _ _ _ _ _ _ Hi s Hs) as (Hok & _ & _).
    destruct (entry_last _ _ _ _ _ _ _ _ Hok Hx) as ((target & ?) & ? & ? & ? & ? & ?).
    by exists target, x.
  - intros x Hx. rewrite Hids'. rewrite <- (elem_of_list_to_set (C := gset string)). fold ids.
    apply elem_of_app in Hx as [Hx|Hx]; apply list_elem_of_fmap in Hx as (y & -> & Hy).
    + by apply list_elem_of_filter in Hy as [? _].
    + rewrite list_elem_of_In, filter_In in Hy. destruct Hy as [_ Hy].
      apply andb_true_iff in Hy as [Hy _]. apply negb_true_iff, orb_false_iff in Hy as [Hy _].
      by apply bool_decide_eq_false in Hy.
Qed.
End SelectSpec.

(** What a selection returns.  A thread-scoped selection without a thread
    is refused.  Otherwise the call succeeds: no message is selected twice,
    the anchor never; each selected message records the single in-scope
    prerequisite edge that reached it; and no excluded message is selected. *)
Theorem selectLocked_spec `{!MapRange string} (e : Engine) (anchorID : string)
    (scope : SelectionScope) (threadID : string) (refFloor : list float) :
  match selectLocked e anchorID scope threadID refFloor with
  | Ok r =>
      ~ (scope = SELECTION_SCOPE_THREAD /\ threadID = "") /\
      sr_AnchorMessageId r = anchorID /\ sr_EventId r = "sel-" ^^ anchorID /\
      sr_Scope r = scope /\ sr_ThreadId r = threadID /\
      NoDup (anchorID :: (sm_MessageId <$> sr_Selected r)) /\
      (forall m, m ∈ sr_Selected r -> selected_ok e threadID scope m) /\
      (forall x, x ∈ sr_Excluded r -> xm_MessageId x ∉ sm_MessageId <$> sr_Selected r)
  | Err err => err = EThreadNotFound /\ scope = SELECTION_SCOPE_THREAD /\ threadID = ""
  | Panic _ => False
  end.
Proof.
  unfold selectLocked.
  destruct (bool_decide (scope = SELECTION_SCOPE_THREAD) && String.eqb threadID "") eqn:Eg.
  { apply andb_true_iff in Eg as [H1 H2]. apply bool_decide_eq_true in H1.
    by apply String.eqb_eq in H2. }
  assert (~ (scope = SELECTION_SCOPE_THREAD /\ threadID = "")) as Hg.
  { intros [-> ->]. done. }
  destruct (extractSubgraph _ _ _ _ _ _) as [[selected below]|] eqn:E.
  - apply extractSubgraph_inv in E as (st & Hi & _ & <- & <-).
    cbn [sr_Selected sr_Excluded sr_AnchorMessageId sr_EventId sr_Scope sr_ThreadId].
    split; [done|]. do 4 (split; [done|]). by apply (select_result e anchorID scope threadID refFloor).
  - destruct (walk_total (en_dag e) anchorID threadID scope (en_cfg e) refFloor) as [st Hst].
    unfold extractSubgraph in E. by rewrite Hst in E.
Qed.

(** ** Diversity reranking *)

Lemma fle_fninf x : flt x fninf = false.
Proof. destruct x as [s|s| |s m e]; try done; destruct s; done. Qed.

Section MMRSpec.
Context (repVecs : gmap string (list float)) (queryVecs : list (list float))
        (original : gmap string float).
Let effective := effective repVecs queryVecs original.
Let best_from := best_from repVecs queryVecs original.
Let mmr_loop := mmr_loop repVecs queryVecs original.

(** [best_from] returns a maximum: no candidate beats the returned score. *)
Lemma best_from_spec kept l i best score :
  let r := best_from kept l i best score in
  (r.2 = score \/ flt score r.2 = true) /\
  (forall c, c ∈ l -> flt r.2 (effective kept c) = false) /\
  ((r.1 = best /\ r.2 = score) \/
   exists j c, l !! j = Some c /\ r.1 = Some (i + j) /\ r.2 = effective kept c).
Proof.
  unfold best_from. revert i best score. induction l as [|c l IH]; intros i best score; cbn zeta.
  { simpl. split; [auto|]. split; [set_solver|auto]. }
  cbn [Engine.best_from]. fold effective. destruct (flt score (effective kept c)) eqn:E.
  - destruct (IH (S i) (Some i) (effective kept c)) as (H1 & H2 & H3). split; [|split].
    + right. destruct H1 as [->|H1]; [done|]. by eapply flt_trans.
    + intros x [->|Hx]%elem_of_cons; [|by apply H2].
      destruct H1 as [->|H1]; [apply flt_irrefl|by apply flt_asym].
    + right. destruct H3 as [[-> ->]|(j & x & Hj & -> & ->)].
      * exists 0, c. rewrite Nat.add_0_r. done.
      * exists (S j), x. split; [done|]. split; [f_equal; lia|done].
  - destruct (IH (S i) best score) as (H1 & H2 & H3). split; [done|]. split.
    + intros x [->|Hx]%elem_of_cons; [|by apply H2].
      destruct H1 as [H1|H1]; [by rewrite H1|].
      destruct (flt _ (effective kept c)) eqn:E' in |- *; [|done]. pose proof (flt_trans _ _ _ H1 E'). congruence.
    + destruct H3 as [?|(j & x & Hj & -> & ->)]; [auto|right].
      exists (S j), x. split; [done|]. split; [f_equal; lia|done].
Qed.

(** Everything about a message except its score. *)
Definition unscored (s : SelectedMessage) : SelectedMessage := with_score s f0.

(** The greedy law: given what is kept, the next pick is not beaten by any
    later one, and its recorded score is its novel fraction. *)
Fixpoint greedy (kept l : list SelectedMessage) : Prop :=
  match l with
  | [] => True
  | p :: l' =>
      (forall q, q ∈ l' -> flt (effective kept p) (effective kept q) = false) /\
      sm_EffectiveScore p = f32_of_f64 (effective kept p) /\
      greedy (kept ++ [p]) l'
  end.

Lemma remove_at_perm i l x : l !! i = Some x -> l ≡ₚ x :: remove_at i l.
Proof.
  intros Hi. unfold remove_at. rewrite <- (take_drop_middle l i x Hi) at 1. symmetry. apply Permutation_middle.
Qed.

Lemma remove_at_length i l x : l !! i = Some x -> length l = S (length (remove_at i l)).
Proof. intros Hi. by apply remove_at_perm, Permutation_length in Hi. Qed.

Lemma effective_unscored kept s s' : unscored s = unscored s' -> effective kept s = effective kept s'.
Proof. intros H. unfold effective, Engine.effective, orig_of. by injection H as -> _ _ _ _ _. Qed.

Lemma unscored_perm_in l l' q :
  unscored <$> l ≡ₚ unscored <$> l' -> q ∈ l -> exists q', q' ∈ l' /\ unscored q = unscored q'.
Proof.
  intros Hp Hq. apply (list_elem_of_fmap_2 unscored) in Hq. rewrite Hp in Hq.
  apply list_elem_of_fmap in Hq as (q' & ? & ?). eauto.
Qed.

Lemma mmr_loop_spec fuel remaining out res :
  mmr_loop fuel remaining out = Some (Ok res) ->
  exists tail, res = out ++ tail /\ unscored <$> tail ≡ₚ unscored <$> remaining /\ greedy out tail.
Proof.
  unfold mmr_loop. revert remaining out. induction fuel as [|fuel IH]; intros remaining out H;
    destruct remaining as [|r remaining]; cbn [Engine.mmr_loop] in H; try done;
    try (injection H as <-; exists []; by rewrite app_nil_r).
  set (l := r :: remaining) in *.
  pose proof (best_from_spec out l 0 None fninf) as (_ & Hmax & Hbest). fold best_from in H.
  destruct (best_from out l 0 None fninf) as [[i|] score]; [|done]. simpl in Hmax, Hbest.
  destruct Hbest as [[? _]|(j & c & Hj & [= ->] & ->)]; [done|].
  rewrite Hj in H. apply IH in H as (tail & -> & Hp & Hg).
  set (pick := with_score c (f32_of_f64 (effective out c))) in *.
  exists (pick :: tail). rewrite <- app_assoc. split; [done|].
  pose proof (remove_at_perm j l c Hj) as Hrem. split.
  { rewrite Hrem, !fmap_cons, Hp. done. }
  split; [|done]. intros q Hq. destruct (unscored_perm_in _ _ q Hp Hq) as (q' & Hq' & Hu).
  rewrite (effective_unscored out q q' Hu). apply Hmax. rewrite Hrem. by right.
Qed.

Lemma mmr_loop_total fuel remaining out :
  length remaining <= fuel -> is_Some (mmr_loop fuel remaining out).
Proof.
  unfold mmr_loop. revert remaining out. induction fuel as [|fuel IH]; intros remaining out Hf;
    destruct remaining as [|r remaining]; cbn [Engine.mmr_loop]; eauto; [simpl in Hf; lia|].
  destruct (Engine.best_from _ _ _ _ _ _ _ _) as [[i|] score]; [|eauto].
  destruct ((r :: remaining) !! i) as [p|] eqn:Ei; [|eauto].
  apply IH. apply remove_at_length in Ei. simpl in *. lia.
Qed.

Lemma mmr_first_spec l pick rest :
  mmr_first repVecs queryVecs original l = Some (pick, rest) ->
  unscored <$> l ≡ₚ unscored <$> (pick :: rest) /\
  length l = S (length rest) /\
  (forall q, q ∈ rest -> flt (effective [] pick) (effective [] q) = false) /\
  (queryVecs <> [] -> flt fninf (effective [] pick) = true ->
     sm_EffectiveScore pick = f32_of_f64 (effective [] pick)).
Proof.
  unfold mmr_first. pose proof (best_from_spec [] l 0 None fninf) as (_ & Hmax & Hbest).
  fold best_from. destruct (best_from [] l 0 None fninf) as [best score]. simpl in Hmax, Hbest.
  destruct (l !! default 0 best) as [p|] eqn:El; [|done]. intros H.
  assert (exists x, pick = with_score p x) as [x Hpick].
  { injection H as <- _. destruct (_ <? _); [by eexists|]. exists (sm_EffectiveScore p). by destruct p. }
  assert (rest = remove_at (default 0 best) l) as -> by congruence.
  pose proof (remove_at_perm _ _ _ El) as Hp. assert (effective [] pick = effective [] p) as He by by rewrite Hpick.
  split; [apply (fmap_Permutation unscored) in Hp; rewrite Hpick; exact Hp|].
  split; [by apply remove_at_length in El|].
  rewrite He. split.
  - intros q Hq. assert (q ∈ l) as Hql by (rewrite Hp; by right).
    destruct Hbest as [[-> ->]|(j & c & Hj & -> & ->)].
    + specialize (Hmax q Hql). destruct (flt (effective [] p) _) eqn:E; [|done].
      pose proof (fle_fninf (effective [] p)) as Hn.
      destruct (flt_nan _ _ E). rewrite flt_fle in Hn by done. apply negb_false_iff in Hn.
      by rewrite (fle_flt_trans _ _ _ Hn E) in Hmax.
    + simpl in El. assert (c = p) as -> by congruence. by apply Hmax.
  - intros Hqv Hfin. destruct Hbest as [[-> ->]|(j & c & Hj & -> & ->)].
    + rewrite (Hmax p) in Hfin; [done|]. rewrite Hp. by left.
    + simpl in El. assert (c = p) as -> by congruence.
      destruct queryVecs; [done|]. simpl in H. by injection H as <-.
Qed.
End MMRSpec.

(** Diversity reranking.  When it succeeds on two or more messages with
    representative vectors, it returns the same messages, each once, only
    their scores rewritten, in greedy order: no later message beats the first
    pick against the query alone, and every further pick is a best candidate
    given those kept before it, recorded at its novel fraction, the original
    score times one minus the highest similarity to the query and the kept
    set. *)
Theorem ApplyMMR_greedy (e : Engine) (selected : list SelectedMessage) (queryIDs : list string)
    (oracle : ChunkOracle) (repVecs : gmap string (list float)) (out : list SelectedMessage)
    (Hmany : 1 < length selected) (Horacle : en_oracle e = Some oracle)
    (Hvecs : RepresentativeVectors oracle ((sm_MessageId <$> selected) ++ queryIDs) = Ok repVecs)
    (Hsome : repVecs <> ∅)
    (Hout : (ApplyMMR e selected queryIDs).1 = Ok out) :
  let original := fold_left (fun m item =>
    <[sm_MessageId item := f64_of_f32 (sm_EffectiveScore item)]> m) selected ∅ in
  let queryVecs := omap (fun qid => repVecs !! qid) queryIDs in
  let eff := effective repVecs queryVecs original in
  unscored <$> out ≡ₚ unscored <$> selected /\
  exists first rest, out = first :: rest /\
    (forall q, q ∈ rest -> flt (eff [] first) (eff [] q) = false) /\
    greedy repVecs queryVecs original [first] rest.
Proof.
  intros original queryVecs eff. unfold ApplyMMR in Hout.
  rewrite (proj2 (Nat.leb_gt _ _)) in Hout by lia. rewrite Horacle, Hvecs in Hout.
  destruct (Nat.eqb_spec (size repVecs) 0) as [Hz|_].
  { by apply map_size_empty_inv in Hz. }
  fold original queryVecs in Hout.
  destruct (mmr_first _ _ _ _) as [[pick rest]|] eqn:Ef; [|done]. cbn [fst] in Hout.
  apply mmr_first_spec in Ef as (Hp & Hl & Hmax & _).
  destruct (mmr_loop_total repVecs queryVecs original (length rest) rest [pick]) as [o Ho]; [done|].
  rewrite Ho in Hout. simpl in Hout. subst o.
  apply mmr_loop_spec in Ho as (tail & -> & Hp' & Hg). rewrite (sort_stable_perm _ selected) in Hp.
  split.
  { rewrite Hp. simpl. by rewrite <- Hp'. }
  exists pick, tail. split; [done|]. split; [|done].
  intros q Hq. destruct (unscored_perm_in _ _ q Hp' Hq) as (q' & Hq' & Hu).
  unfold eff. rewrite (effective_unscored repVecs queryVecs original [] q q' Hu). by apply Hmax.
Qed.

Module SampleMMR.
Definition sel (id : string) (n k : Z) : SelectedMessage :=
  {| sm_MessageId := id; sm_EffectiveScore := SampleGraph.f32_lit n k; sm_HopDepth := 1;
     sm_ViaEdges := []; sm_ThreadId := "t"; sm_CrossThread := false; sm_ProvenanceWeight := f1 |}.
Definition vectors : gmap string (list float) :=
  <["a" := [f1; f0]]> (<["b" := [f1; f0]]> (<["c" := [f0; f1]]> ∅)).
Definition oracle : ChunkOracle :=
  {| ChunksForMessages := fun _ => Ok ∅; NearestChunks := fun _ _ _ => Ok [];
     RepresentativeVectors := fun _ => Ok vectors; RandomChunks := fun _ _ _ => Ok [] |}.
Definition engine : Engine :=
  {| en_scorer := None; en_dag := newDAG; en_scores := newScoreCache; en_cfg := DefaultConfig;
     en_oracle := Some oracle; en_edgeFilter := None; en_price := Some ∅ |}.
(** b duplicates a, so c overtakes it. *)
Definition selected : list SelectedMessage := [sel "a" 7 3; sel "b" 3 2; sel "c" 1 1].
Definition out : list SelectedMessage :=
  Eval vm_compute in match (ApplyMMR engine selected []).1 with Ok l => l | _ => [] end.
End SampleMMR.

Lemma ApplyMMR_greedy_witness :
  (ApplyMMR SampleMMR.engine SampleMMR.selected []).1 = Ok SampleMMR.out /\
  (sm_MessageId <$> SampleMMR.out) = ["a"; "c"; "b"] /\
  unscored <$> SampleMMR.out ≡ₚ unscored <$> SampleMMR.selected.
Proof.
  assert ((ApplyMMR SampleMMR.engine SampleMMR.selected []).1 = Ok SampleMMR.out) as Hout
    by (vm_compute; reflexivity).
  split; [exact Hout|]. split; [reflexivity|].
  refine (proj1 (ApplyMMR_greedy SampleMMR.engine SampleMMR.selected [] SampleMMR.oracle SampleMMR.vectors
    SampleMMR.out _ eq_refl eq_refl _ Hout)); [vm_compute; lia|discriminate].
Defined.
