(* ===== verification/Subagent.v ===== *)
(** * Subagents ([service/agent/subagent.go], [service/runtime/toolagent.go])

    Forking a runner for a subtask, routing messages to it and merging its
    engine back.  A fork writes to a thread of its own; the last part shows
    what the store makes of that. *)

From Stdlib Require Import ZArith Lia String.
From S2P Require Import Prelude GoFloat GoSort GoStrings Types Genai Sql Storage Threads Chunk Dag LocalContext Inserter Runner Registry EngineConfig Engine.
#[local] Open Scope Z_scope.

(** A live runner: its engine, and the rest of its state with the store as of
    its last call. *)
Record LiveRunner := { lr_threadID : string; lr_engine : Engine; lr_run : RunState }.

Inductive SubagentEvent := SubagentProgress (ThreadID ForkThreadID Task Status : string).

(** The store, the registry, the runners by their handles, and what was
    published. *)
Record Kernel := {
  kn_ins : InsertState;
  kn_registry : Registry;
  kn_runners : gmap nat LiveRunner;
  kn_next : nat;
  kn_events : list SubagentEvent
}.

Definition with_ins (i : InsertState) (k : Kernel) : Kernel :=
  {| kn_ins := i; kn_registry := kn_registry k; kn_runners := kn_runners k; kn_next := kn_next k; kn_events := kn_events k |}.
Definition with_runner (h : nat) (r : LiveRunner) (k : Kernel) : Kernel :=
  {| kn_ins := kn_ins k; kn_registry := kn_registry k; kn_runners := <[h := r]> (kn_runners k); kn_next := kn_next k;
     kn_events := kn_events k |}.
Definition with_entry (f : Registry -> Registry) (k : Kernel) : Kernel :=
  {| kn_ins := kn_ins k; kn_registry := f (kn_registry k); kn_runners := kn_runners k; kn_next := kn_next k; kn_events := kn_events k |}.

Section Subagent.
Context {env : Env} {srt : SliceSort} {codec : ProtoCodec} {J : Type} {json : Json J}.
Context `{!MapRange string, !MapRange scoreKey}.
Context (modelName : string) (inserter : option Inserter).
(** The error of [llmagent.New] or [runner.New], if any. *)
Context (newRunner : option goerr).

(** A runner as [NewRunner] leaves it. *)
Definition new_state (ins : InsertState) : RunState :=
  {| rs_ins := ins; rs_msgSeq := 0; rs_currentTurnID := "";
     rs_tick := {| tickAssemble := no_telemetry; tickAssembleSet := false; tickAssembleCount := 0; tickRunStart := None;
                   tickFirstEvent := None; tickPersistMs := 0; tickCorpusSize := 0; tickUsagePredicted := 0;
                   tickUsagePrompt := 0; tickUsageCompletion := 0; tickRound := 0 |};
     rs_notices := [] |}.

(** [run] is what the framework yields to the fork. *)
Definition SpawnSubagent (run : option string -> RunState -> list (Yield J)) (task forkThreadID : string) (engine : Engine)
    : GoM InsertState LiveRunner := fun ins =>
  let forkedEngine := Fork engine in
  match newRunner with
  | Some err => (ins, Err (EWrap "create fork runner: " err ""))
  | None =>
      match SendMessage forkThreadID modelName inserter run task [] (new_state ins) with
      | (s, Ok _) => (rs_ins s, Ok {| lr_threadID := forkThreadID; lr_engine := forkedEngine; lr_run := s |})
      | (s, Err e) => (rs_ins s, Err (EWrap "subagent first message: " e ""))
      | (s, Panic p) => (rs_ins s, Panic p)
      end
  end.

Definition MergeSubagent (parent fork : LiveRunner) : LiveRunner :=
  {| lr_threadID := lr_threadID parent; lr_engine := Merge (lr_engine parent) (lr_engine fork); lr_run := lr_run parent |}.

(** [entry.Runner]: a call through a nil pointer panics. *)
Definition runner_of (threadID : string) (k : Kernel) : option (option (nat * LiveRunner)) :=
  match Get threadID (kn_registry k) ≫= entry_at (kn_registry k) with
  | None => None
  | Some e => Some (h ← en_Runner e; r ← kn_runners k !! h; Some (h, r))
  end.

Definition SpawnAgent (threadID : string) (run : option string -> RunState -> list (Yield J)) (task forkID : string)
    : GoM Kernel string := fun k =>
  match runner_of threadID k with
  | None => (k, Err (ENew ("no runner for thread " ^^ threadID)))
  | Some None => (k, Panic "nil pointer dereference")
  | Some (Some (_, parent)) =>
      match SpawnSubagent run task forkID (lr_engine parent) (kn_ins k) with
      | (ins, Err e) => (with_ins ins k, Err e)
      | (ins, Panic p) => (with_ins ins k, Panic p)
      | (ins, Ok fork) =>
          let re := new_entry {| en_Runner := Some (kn_next k); en_Cancel := None; en_ParentThreadID := threadID |} (kn_registry k) in
          ({| kn_ins := ins; kn_registry := Set_ forkID re.2 re.1; kn_runners := <[kn_next k := fork]> (kn_runners k);
              kn_next := S (kn_next k);
              kn_events := kn_events k ++ [SubagentProgress threadID forkID task "running"] |},
           Ok ("Subagent started: " ^^ forkID))
      end
  end.

(** The error of the merge is dropped. *)
Definition SendToAgent (run : option string -> RunState -> list (Yield J)) (agentID message : string)
    : GoM Kernel string := fun k =>
  match runner_of agentID k with
  | None => (k, Err (ENew ("no runner for agent " ^^ agentID)))
  | Some None => (k, Panic "nil pointer dereference")
  | Some (Some (h, r)) =>
      let out := SendMessage (lr_threadID r) modelName inserter run message [] (set_ins (kn_ins k) (lr_run r)) in
      let r := {| lr_threadID := lr_threadID r; lr_engine := lr_engine r; lr_run := out.1 |} in
      let k := with_runner h r (with_ins (rs_ins out.1) k) in
      match out.2 with
      | Err e => (k, Err e)
      | Panic p => (k, Panic p)
      | Ok resp =>
          let parent := default "" (en_ParentThreadID <$> (Get agentID (kn_registry k) ≫= entry_at (kn_registry k))) in
          let done := Ok ("Response from " ^^ agentID ^^ ": " ^^ itoa (Z.of_nat (length (m_Content resp))) ^^ " blocks") in
          if String.eqb parent "" then (k, done)
          else match runner_of parent k with
               | None => (k, done)
               | Some None => (k, Panic "nil pointer dereference")
               | Some (Some (hp, p)) => (with_runner hp (MergeSubagent p r) k, done)
               end
      end
  end.
End Subagent.

(** ** A fork's first message *)

Section Refused.
Context {env : Env} {srt : SliceSort} {codec : ProtoCodec} {J : Type} {json : Json J}.

Definition no_thread (id : string) (t : Tables) : Prop := ~ id ∈ t_id <$> tb_threads t.

(** A message is only written into a thread that exists. *)
Lemma insertMessageTx_thread msg content chunks :
  steps (insertMessageTx msg content chunks) (fun t _ _ => m_ThreadId msg ∈ t_id <$> tb_threads t).
Proof.
  intros w w' u. unfold insertMessageTx, mbind, gom_bind. pose proof (exec_atomic (insert_message (message_row msg content)) w) as Ha.
  destruct (exec _ w) as [w1 [[]| |]]; [|done..]. intros _. cbn in Ha. unfold insert_message in Ha.
  case_bool_decide; [done|]. by case_bool_decide.
Qed.

Lemma InsertMessage_refused msg chunks w :
  no_thread (m_ThreadId msg) (w_tables w) ->
  exists w' msg' e, InsertMessage msg chunks w = (w', Ok (msg', Some e)) /\ w_tables w' = w_tables w.
Proof.
  intros Hno. destruct (InsertMessage_spec msg chunks w) as (w' & msg' & err & E & _ & Hw).
  destruct err as [e|]; [by eexists _, _, _|]. exfalso. unfold InsertMessage in E.
  destruct (fillCreatedAt_stamped msg w) as (n & m & Ef & (ts & _ & -> & _)). rewrite (bind_ok _ _ _ _ _ Ef) in E.
  set (w1 := {| w_tables := w_tables w; w_tick := n |}) in *.
  edestruct (catch_atomic (gom_lift (marshalContentBlocks (m_Content (with_created ts msg))) ≫= fun content =>
               transaction (insertMessageTx (with_created ts msg) content chunks))) as (w2 & err & E2 & Herr).
  - apply atomic_lift_bind. intros content. apply transaction_atomic, insertMessageTx_thread.
  - apply gsettles_bind; [apply gsettles_lift, proto_settles|]. intros content. apply gsettles_transaction, insertMessageTx_settles.
  - rewrite (bind_ok _ _ _ _ _ E2) in E. injection E as _ _ ->. destruct Herr as (content & _ & Hin). by apply Hno.
Qed.

Context (inserter : option Inserter).
Hypothesis Hcfg : match inserter with Some i => configured i | None => True end.

Lemma index_refused msg s :
  no_thread (m_ThreadId msg) (rs_tables s) ->
  exists s' msg' e, indexMessage inserter msg s = (s', Ok (msg', Some e)) /\ rs_tables s' = rs_tables s.
Proof.
  intros Hno. unfold indexMessage, timed. set (m := stamp_turn _ msg).
  assert (m_ThreadId m = m_ThreadId msg) as Hth by apply stamp_turn_fields.
  destruct (quiet_now s) as (s1 & n1 & E1 & _ & Ht1 & _). rewrite (bind_ok _ _ _ _ _ E1).
  assert (exists s2 msg' e, (match inserter with None => rdb (InsertMessage m []) | Some i => on_ins (Insert i m) end) s1 =
            (s2, Ok (msg', Some e)) /\ rs_tables s2 = rs_tables s1) as (s2 & msg' & e & E2 & Ht2).
  { assert (forall chunks, exists w' msg' e, InsertMessage m chunks (in_world (rs_ins s1)) = (w', Ok (msg', Some e)) /\
              w_tables w' = rs_tables s1) as Hr.
    { intros chunks. apply InsertMessage_refused. unfold no_thread. rewrite Hth. by rewrite <- Ht1 in Hno. }
    destruct inserter as [i|].
    - destruct (chunksFor_total i Hcfg m (in_world (rs_ins s1))) as [cs Hcs]. destruct (Hr cs) as (w' & msg' & e & E & Hw).
      unfold on_ins, Insert, mbind, gom_bind, live_config, gom_lift, on_db, finish. rewrite Hcs, E. by eexists _, _, _.
    - destruct (Hr []) as (w' & msg' & e & E & Hw). unfold rdb, on_ins, on_db. rewrite E. by eexists _, _, _. }
  rewrite (bind_ok _ _ _ _ _ E2).
  destruct (quiet_now s2) as (s3 & n3 & E3 & _ & Ht3 & _). rewrite (bind_ok _ _ _ _ _ E3).
  eexists _, msg', e. split; [reflexivity|]. unfold rs_tables in *. cbn. congruence.
Qed.

(** A turn in a thread that does not exist fails at its first write. *)
Lemma SendMessage_refused threadID modelName run content attachments s :
  no_thread threadID (rs_tables s) -> content <> "" ->
  exists s' e, SendMessage (J := J) threadID modelName inserter run content attachments s = (s', Err e) /\
    tb_messages (rs_tables s') = tb_messages (rs_tables s) /\ tb_threads (rs_tables s') = tb_threads (rs_tables s).
Proof.
  intros Hno Hc. unfold SendMessage. destruct (quiet_now s) as (s1 & t0 & E1 & _ & Ht1 & _). rewrite (bind_ok _ _ _ _ _ E1).
  assert (forall s, no_thread threadID (rs_tables s) ->
    exists s' e, send_body threadID inserter run content attachments s = (s', Err e) /\ rs_tables s' = rs_tables s) as Hbody.
  { clear s s1 Hno Ht1 E1 t0. intros s Hno. unfold send_body.
    destruct (quiet_scan_or 0 (fun t => Z.of_nat (length (where_ (in_thread threadID) (tb_messages t)))) s) as (s1 & n1 & E1 & _ & Ht1 & _).
    rewrite (bind_ok _ _ _ _ _ E1). rewrite (bind_ok (modify _) _ s1 _ tt eq_refl). set (s2 := set_tick _ s1).
    destruct (quiet_syncMsgSeq threadID s2) as (s3 & u3 & E3 & _ & Ht3 & _). rewrite (bind_ok _ _ _ _ _ E3).
    destruct (quiet_now s3) as (s4 & n4 & E4 & _ & Ht4 & _). rewrite (bind_ok _ _ _ _ _ E4).
    rewrite (bind_ok (modify _) _ s4 _ tt eq_refl). set (s5 := set_turn _ s4).
    assert (nonempty content = true) as -> by (unfold nonempty; by destruct (String.eqb_spec content "")).
    cbn [orb]. destruct (new_message_quiet threadID ROLE_USER (user_blocks content attachments) s5) as (s6 & msg & E6 & _ & Ht6 & (_ & Hth & _)).
    assert (rs_tables s6 = rs_tables s) as Ht by (unfold rs_tables in *; cbn in *; congruence).
    destruct (index_refused msg s6) as (s7 & msg' & e & E7 & Ht7); [by rewrite Hth, Ht|].
    assert ((new_message threadID ROLE_USER (user_blocks content attachments) ≫= fun msg =>
             indexMessage inserter msg ≫= fun r => mret r.2) s5 = (s7, Ok (Some e))) as E8.
    { rewrite (bind_ok _ _ _ _ _ E6). by rewrite (bind_ok _ _ _ _ _ E7). }
    rewrite (bind_ok _ _ _ _ _ E8). exists s7, e. split; [done|]. congruence. }
  rewrite (bind_ok (modify _) _ s1 _ tt eq_refl). set (s2 := set_tick _ s1).
  destruct (Hbody s2) as (s3 & e & E3 & Ht3); [by rewrite <- Ht1 in Hno|]. rewrite E3. cbn [fst snd].
  unfold persistTickTrace. destruct (quiet_now s3) as (s4 & n4 & E4 & _ & Ht4 & _). rewrite (bind_ok _ _ _ _ _ E4).
  assert (rs_tables s4 = rs_tables s) as Ht by (unfold rs_tables in *; cbn in *; congruence).
  unfold rdb, on_ins, on_db, InsertTickTrace, exec, statement. destruct (e_fault _); cbn; eexists _, e;
    (split; [reflexivity|]); unfold rs_tables in *; cbn in *; by rewrite Ht.
Qed.
End Refused.

(** A subagent can be started only in a thread that exists.  Neither the
    tool nor the runtime creates a thread for the fork, and the store refuses
    the fork's first message without one: for every task, every stream and
    every store, [SpawnAgent] with the id of no thread returns an error,
    registers no runner, publishes nothing and leaves the corpus as it was. *)
Theorem SpawnAgent_needs_thread `{Env, SliceSort, ProtoCodec} {J : Type} `{Json J} `{!MapRange string, !MapRange scoreKey}
    (modelName : string) (inserter : option Inserter) (newRunner : option goerr) (threadID : string)
    (run : option string -> RunState -> list (Yield J)) (task forkID : string) (k : Kernel)
    (Hcfg : match inserter with Some i => configured i | None => True end)
    (Hparent : exists h r, runner_of threadID k = Some (Some (h, r)))
    (Hfork : no_thread forkID (w_tables (in_world (kn_ins k)))) (Htask : task <> "") :
  let out := SpawnAgent modelName inserter newRunner threadID run task forkID k in
  (exists e, out.2 = Err e) /\ kn_registry out.1 = kn_registry k /\ kn_runners out.1 = kn_runners k /\
  kn_events out.1 = kn_events k /\
  corpus (w_tables (in_world (kn_ins out.1))) = corpus (w_tables (in_world (kn_ins k))).
Proof.
  destruct Hparent as (h & r & E). intros out. unfold out, SpawnAgent. rewrite E. unfold SpawnSubagent.
  destruct newRunner as [err|]; [cbn; split; [by eexists|done]|].
  destruct (SendMessage_refused inserter Hcfg forkID modelName run task [] (new_state (kn_ins k)) Hfork Htask) as (s' & e & -> & Hm & _).
  cbn. split; [by eexists|]. do 3 (split; [done|]). unfold corpus. unfold rs_tables in Hm. by rewrite Hm.
Qed.

(** ** A parent with a fork that has no thread *)
Module SampleFork.
#[local] Existing Instance SampleCodec.codec.
#[local] Existing Instance calm_env.
#[local] Existing Instance canonical_range.

Definition engine : Engine := {|
  en_scorer := None; en_dag := newDAG; en_scores := newScoreCache; en_cfg := EngineConfig.DefaultConfig; en_oracle := None;
  en_edgeFilter := None; en_price := Some ∅ |}.
Definition parent : LiveRunner :=
  {| lr_threadID := "t"; lr_engine := engine; lr_run := SampleTurn.start |}.
Definition kernel : Kernel :=
  {| kn_ins := rs_ins SampleTurn.start;
     kn_registry := (let re := new_entry {| en_Runner := Some 0%nat; en_Cancel := None; en_ParentThreadID := "" |} NewRegistry in
                     Set_ "t" re.2 re.1);
     kn_runners := {[0%nat := parent]}; kn_next := 1; kn_events := [] |}.
Definition out : Kernel * outcome string :=
  SpawnAgent "m" None None "t" SampleTurn.run "look" "fork-t-0" kernel.
End SampleFork.

Lemma SpawnAgent_needs_thread_witness :
  SampleFork.out.2 = Err (EWrap "subagent first message: " (ENew "constraint failed") "") /\
  kn_registry SampleFork.out.1 = kn_registry SampleFork.kernel.
Proof.
  split; [vm_compute; reflexivity|].
  refine (proj1 (proj2 (@SpawnAgent_needs_thread calm_env _ SampleCodec.codec string _ canonical_range canonical_range "m" None None "t"
            SampleTurn.run "look" "fork-t-0" SampleFork.kernel I _ _ _))).
  - exists 0%nat, SampleFork.parent. vm_compute. reflexivity.
  - intros H. apply list_elem_of_singleton in H. discriminate H.
  - discriminate.
Defined.
