(* ===== verification/Oracle.v ===== *)
(** * The storage-backed chunk oracle ([service/oracle])

    Retrieval over the index: the widening search, the noise draw, the pooled
    vectors and the observer that keeps the index current.  The chunk tables
    and the embedder are interfaces: records of functions.  [InsertChunkEmbedding]
    returns the thread it resolved, with which storage calls the observer. *)

From Stdlib Require Import ZArith Lia String.
From stdpp Require Import sorting.
From S2P Require Import Prelude GoFloat GoSort GoStrings Predicate ChunkKey AnnIndex Engine.
#[local] Open Scope nat_scope.

(** ** The interfaces *)

(** A row of the chunks table. *)
Record StoredChunk := {
  st_MessageID : string;
  st_ChunkIndex : nat;
  st_Text : string;
  st_ByteStart : nat;
  st_ByteEnd : nat;
  st_TokenEst : Z
}.

Record RandomChunkRef := { rr_MessageID : string; rr_ChunkIndex : nat; rr_Text : string; rr_ThreadID : string }.

Record ChunkEmbedding := { ce_MessageID : string; ce_ChunkIndex : nat; ce_Vector : list float }.

Record ChunkDB := {
  MessageThreads : outcome (gmap string string);
  EmbeddingsForModel : string -> outcome (list ChunkEmbedding);
  GetChunksForMessages : list string -> outcome (gmap string (list StoredChunk));
  RandomChunkRefs : Z -> Z -> outcome (list RandomChunkRef);
  GetChunkEmbedding : string -> nat -> string -> outcome (option (list float));
  InsertChunkEmbedding : string -> nat -> string -> list float -> outcome string
}.

(** What the tables promise: a query for some messages returns rows of those. *)
Class ChunkDBLaws (db : ChunkDB) : Prop := {
  chunks_requested : forall ids m id, GetChunksForMessages db ids = Ok m -> is_Some (m !! id) -> id ∈ ids
}.

Inductive EmbedRole := RoleQuery | RoleDocument.
Definition Embedder : Type := EmbedRole -> list string -> outcome (list (list float)).

(** ** State *)

Record Oracle := {
  or_db : option ChunkDB;
  or_embedder : option Embedder;
  or_model : string;
  or_index : Index;
  or_threadByMsg : gmap string string;
  or_examined : Z
}.

Definition with_index (ix : Index) (threads : gmap string string) (o : Oracle) : Oracle :=
  {| or_db := or_db o; or_embedder := or_embedder o; or_model := or_model o; or_index := ix;
     or_threadByMsg := threads; or_examined := or_examined o |}.
Definition with_examined (n : Z) (o : Oracle) : Oracle :=
  {| or_db := or_db o; or_embedder := or_embedder o; or_model := or_model o; or_index := or_index o;
     or_threadByMsg := or_threadByMsg o; or_examined := n |}.

Definition chunkKeyStr (messageID : string) (chunkIndex : nat) : string := Make messageID (Z.of_nat chunkIndex).
Definition messageIDFromKey (key : string) : string := (Split key).1.
Definition chunkIdxFromKey (key : string) : nat := Z.to_nat (Split key).2.

(** [o.threadByMsg\[mid\]] *)
Definition thread_of (o : Oracle) (mid : string) : string := default "" (or_threadByMsg o !! mid).

Definition candidate_attrs (o : Oracle) (mid thread : string) : CandidateAttrs :=
  {| ca_MessageID := mid; ca_ThreadID := thread; ca_Metadata := {[ "model_id" := or_model o ]} |}.

(** ** Scores *)

(** A NaN passes through. *)
Definition normalizedScore (raw qNorm : float) : float :=
  if feq qNorm f0 then f0
  else
    let s := fdiv raw qNorm in
    if flt s f0 then f0 else if flt f1 s then f1 else s.

Definition l2norm (v : list float) : float :=
  fsqrt (fold_left (fun n x => fadd n (fmul (f64_of_f32 x) (f64_of_f32 x))) v f0).

Section Oracle.
Context `{!SliceSort}.

(** ** The index *)

(** Each stored vector enters the index under its message's thread. *)
Definition NewChunkOracle (db : option ChunkDB) (embedder : option Embedder) (model : string) : outcome Oracle :=
  let ix := New {| cf_M := 0; cf_EfConstr := 0; cf_EfSearch := 0; cf_Seed := 0 |} in
  let start := {| or_db := db; or_embedder := embedder; or_model := model; or_index := ix;
                  or_threadByMsg := ∅; or_examined := 0 |} in
  match db with
  | None => Ok start
  | Some d =>
      match MessageThreads d with
      | Err e => Err (EWrap "NewChunkOracle: load thread map: " e "")
      | Panic s => Panic s
      | Ok threads =>
          match EmbeddingsForModel d model with
          | Err e => Err (EWrap "NewChunkOracle: build ANN index: " e "")
          | Panic s => Panic s
          | Ok rows =>
              ix ← foldM (fun ix e =>
                     Add ix (chunkKeyStr (ce_MessageID e) (ce_ChunkIndex e)) (default "" (threads !! ce_MessageID e))
                       (ce_Vector e)) ix rows;
              mret (with_index ix threads start)
          end
      end
  end.

Definition IndexAdd (messageID : string) (chunkIndex : nat) (modelID threadID : string) (vec : list float)
    : GoM Oracle unit := fun o =>
  if negb (String.eqb modelID (or_model o)) then (o, Ok tt)
  else
    let threads := <[messageID := threadID]> (or_threadByMsg o) in
    match Add (or_index o) (chunkKeyStr messageID chunkIndex) threadID vec with
    | Ok ix => (with_index ix threads o, Ok tt)
    | Err e => (with_index (or_index o) threads o, Err e)
    | Panic s => (with_index (or_index o) threads o, Panic s)
    end.

(** ** Retrieval *)

Definition annOverfetch : Z := 8.

(** One candidate per message: the first the predicate accepts. *)
Fixpoint pick (o : Oracle) (accept : CandidateAttrs -> bool) (seen : gset string) (cands : list Candidate)
    : list Candidate :=
  match cands with
  | [] => []
  | c :: rest =>
      let mid := messageIDFromKey (cd_Key c) in
      if bool_decide (mid ∈ seen) then pick o accept seen rest
      else if negb (accept (candidate_attrs o mid (thread_of o mid))) then pick o accept seen rest
      else c :: pick o accept ({[mid]} ∪ seen) rest
  end.

(** The widening loop, over the work counter; [Ok None] is the early return on
    an empty search. *)
Fixpoint widen (o : Oracle) (accept : CandidateAttrs -> bool) (qVec : list float) (thread : string) (k : Z)
    (fuel : nat) (examined m : Z) : option (Z * outcome (option (list Candidate))) :=
  match fuel with
  | O => None
  | S fuel' =>
      match Search (or_index o) qVec m thread with
      | Err e => Some (examined, Err e)
      | Panic s => Some (examined, Panic s)
      | Ok (cands, _) =>
          if Nat.eqb (length cands) 0 then Some (examined, Ok None)
          else
            let examined := wrap64 (examined + Z.of_nat (length cands)) in
            let picked := pick o accept ∅ cands in
            if (k <=? Z.of_nat (length picked))%Z || (Z.of_nat (length cands) <? m)%Z
            then Some (examined, Ok (Some picked))
            else widen o accept qVec thread k fuel' examined (wrap64 (m * 2))
      end
  end.

Fixpoint unique_ids (seen : gset string) (cands : list Candidate) : list string :=
  match cands with
  | [] => []
  | c :: rest =>
      let mid := messageIDFromKey (cd_Key c) in
      if bool_decide (mid ∈ seen) then unique_ids seen rest else mid :: unique_ids ({[mid]} ∪ seen) rest
  end.
Definition uniqueMessageIDs (cands : list Candidate) : list string := unique_ids ∅ cands.

(** The texts of the winning chunks, by chunk. *)
Definition chunkTextsForMessages (db : ChunkDB) (messageIDs : list string) : outcome (gmap (string * nat) string) :=
  chunks ← GetChunksForMessages db messageIDs;
  mret (fold_left (fun m c => <[(st_MessageID c, st_ChunkIndex c) := st_Text c]> m)
          (concat (snd <$> map_to_list chunks)) ∅).

Definition to_ref (o : Oracle) (texts : gmap (string * nat) string) (qNorm : float) (c : Candidate) : ChunkRef :=
  let mid := messageIDFromKey (cd_Key c) in
  let cidx := chunkIdxFromKey (cd_Key c) in
  {| cr_MessageID := mid; cr_ChunkIndex := cidx; cr_ThreadID := thread_of o mid;
     cr_Text := default "" (texts !! (mid, cidx)); cr_Vector := [];
     cr_RetrievalScore := normalizedScore (cd_Score c) qNorm |}.

Definition search_thread (predicate : Predicate) : string := default "" (ThreadScopeOf predicate).

(** The search over the index, once the query is embedded. *)
Definition shortlist (o : Oracle) (qVec : list float) (k : Z) (predicate : Predicate)
    : Z * outcome (option (list Candidate)) :=
  default (or_examined o, Panic "unreachable")
    (widen o (CompilePredicate predicate) qVec (search_thread predicate) k (S (length (keys (or_index o))))
       (or_examined o) (wrap64 (k * annOverfetch))).

Definition fetch_refs (o : Oracle) (db : ChunkDB) (qVec : list float) (picked : list Candidate) : outcome (list ChunkRef) :=
  match chunkTextsForMessages db (uniqueMessageIDs picked) with
  | Ok texts => Ok (to_ref o texts (l2norm qVec) <$> picked)
  | Err e => Err (EWrap "NearestChunks: fetch chunk texts: " e "")
  | Panic s => Panic s
  end.

Definition NearestChunks (queryText : string) (k : Z) (predicate : Predicate) : GoM Oracle (list ChunkRef) := fun o =>
  match or_db o, or_embedder o with
  | Some db, Some embed =>
      if (k <=? 0)%Z || String.eqb queryText "" then (o, Ok [])
      else
        match embed RoleQuery [queryText] with
        | Err e => (o, Err (EWrap "NearestChunks: embed query: " e ""))
        | Panic s => (o, Panic s)
        | Ok qVecs =>
            match qVecs with
            | [] | [] :: _ => (o, Ok [])
            | qVec :: _ =>
                let '(examined, found) := shortlist o qVec k predicate in
                let o := with_examined examined o in
                match found with
                | Ok None => (o, Ok [])
                | Ok (Some picked) =>
                    let picked := take (Z.to_nat k) picked in
                    if Nat.eqb (length picked) 0 then (o, Ok []) else (o, fetch_refs o db qVec picked)
                | Err e => (o, Err e)
                | Panic s => (o, Panic s)
                end
            end
        end
  | _, _ => (o, Ok [])
  end.

Definition stored_ref (c : StoredChunk) : ChunkRef :=
  {| cr_MessageID := st_MessageID c; cr_ChunkIndex := st_ChunkIndex c; cr_ThreadID := ""; cr_Text := st_Text c;
     cr_Vector := []; cr_RetrievalScore := f0 |}.

Definition ChunksForMessages (o : Oracle) (messageIDs : list string) : outcome (gmap string (list ChunkRef)) :=
  match or_db o with
  | None => Ok ∅
  | Some db =>
      if Nat.eqb (length messageIDs) 0 then Ok ∅
      else
        chunks ← GetChunksForMessages db messageIDs;
        mret (fmap (M := gmap string) (List.map stored_ref) chunks)
  end.

(** ** The noise draw *)

Definition random_ref (r : RandomChunkRef) : ChunkRef :=
  {| cr_MessageID := rr_MessageID r; cr_ChunkIndex := rr_ChunkIndex r; cr_ThreadID := rr_ThreadID r;
     cr_Text := rr_Text r; cr_Vector := []; cr_RetrievalScore := f0 |}.

(** The first [n] rows the predicate accepts. *)
Fixpoint draw (o : Oracle) (accept : CandidateAttrs -> bool) (n : nat) (rows : list RandomChunkRef) : list ChunkRef :=
  match n, rows with
  | O, _ | _, [] => []
  | S n', r :: rest =>
      if accept (candidate_attrs o (rr_MessageID r) (rr_ThreadID r)) then random_ref r :: draw o accept n' rest
      else draw o accept n rest
  end.

Fixpoint draw_loop (o : Oracle) (db : ChunkDB) (accept : CandidateAttrs -> bool) (n seed : Z) (fuel : nat) (fetch : Z)
    : option (outcome (list ChunkRef)) :=
  match fuel with
  | O => None
  | S fuel' =>
      match RandomChunkRefs db fetch seed with
      | Err e => Some (Err (EWrap "RandomChunks: " e ""))
      | Panic s => Some (Panic s)
      | Ok rows =>
          let out := draw o accept (Z.to_nat n) rows in
          if (n <=? Z.of_nat (length out))%Z then Some (Ok out)
          else if (Z.of_nat (length rows) <? fetch)%Z || (wrap64 (n * 16) <=? fetch)%Z then Some (Ok out)
          else draw_loop o db accept n seed fuel' (wrap64 (fetch * 2))
      end
  end.

(** Two doublings reach the bound. *)
Definition RandomChunks (o : Oracle) (n seed : Z) (predicate : Predicate) : outcome (list ChunkRef) :=
  match or_db o with
  | None => Ok []
  | Some db =>
      if (n <=? 0)%Z then Ok []
      else default (Panic "unreachable") (draw_loop o db (CompilePredicate predicate) n seed 3 (wrap64 (n * 4)))
  end.

(** ** Pooled vectors *)

(** A vector of another width is skipped; the first one fixes the width. *)
Definition pool (ix : Index) (acc : option (list float) * Z) (c : StoredChunk) : outcome (option (list float) * Z) :=
  v ← Vector ix (chunkKeyStr (st_MessageID c) (st_ChunkIndex c));
  mret (match v with
        | None => acc
        | Some v =>
            let sum := default (replicate (length v) f0) acc.1 in
            if negb (Nat.eqb (length v) (length sum)) then (Some sum, acc.2)
            else (Some (zip_with f32_add sum v), (acc.2 + 1)%Z)
        end).

Definition f32_of_Z (z : Z) : float := SpecFloat.binary_normalize 24 128 z 0 false.

Definition pooled (ix : Index) (chunks : list StoredChunk) : outcome (option (list float)) :=
  acc ← foldM (pool ix) (None, 0%Z) chunks;
  mret (match acc with
        | (Some sum, n) => if (0 <? n)%Z then Some ((fun x => f32_div x (f32_of_Z n)) <$> sum) else None
        | (None, _) => None
        end).

Definition RepresentativeVectors (o : Oracle) (messageIDs : list string) : outcome (gmap string (list float)) :=
  match or_db o with
  | None => Ok ∅
  | Some db =>
      if Nat.eqb (length messageIDs) 0 then Ok ∅
      else
        match GetChunksForMessages db messageIDs with
        | Err e => Err (EWrap "RepresentativeVectors: load chunks: " e "")
        | Panic s => Panic s
        | Ok chunkMap =>
            foldM (fun out ic =>
              v ← pooled (or_index o) ic.2;
              mret (match v with Some v => <[ic.1 := v]> out | None => out end)) ∅ (map_to_list chunkMap)
        end
  end.

(** ** Embedding on demand *)

(** A failed insertion is logged and the vector returned all the same. *)
Definition EnsureVector (ref : ChunkRef) : GoM Oracle (list float) := fun o =>
  match cr_Vector ref with
  | _ :: _ => (o, Ok (cr_Vector ref))
  | [] =>
      match or_db o with
      | None => (o, Ok [])
      | Some db =>
          match GetChunkEmbedding db (cr_MessageID ref) (cr_ChunkIndex ref) (or_model o) with
          | Panic s => (o, Panic s)
          | Ok (Some v) => (o, Ok v)
          | Ok None | Err _ =>
              match or_embedder o with
              | None => (o, Ok [])
              | Some embed =>
                  if String.eqb (cr_Text ref) "" then (o, Ok [])
                  else
                    match embed RoleDocument [cr_Text ref] with
                    | Err e => (o, Err e)
                    | Panic s => (o, Panic s)
                    | Ok vecs =>
                        match vecs with
                        | [] | [] :: _ => (o, Ok [])
                        | vec :: _ =>
                            match InsertChunkEmbedding db (cr_MessageID ref) (cr_ChunkIndex ref) (or_model o) vec with
                            | Panic s => (o, Panic s)
                            | Err _ => (o, Ok vec)
                            | Ok threadID =>
                                (_ ← IndexAdd (cr_MessageID ref) (cr_ChunkIndex ref) (or_model o) threadID vec;
                                 mret vec) o
                            end
                        end
                    end
              end
          end
      end
  end.

(** The oracle as the engine sees it. *)
Definition engine_oracle (o : Oracle) : ChunkOracle :=
  {| Engine.ChunksForMessages := ChunksForMessages o;
     Engine.NearestChunks := fun q k p => (NearestChunks q k p o).2;
     Engine.RepresentativeVectors := RepresentativeVectors o;
     Engine.RandomChunks := RandomChunks o |}.

(** ** Proofs *)

Definition mid_of (c : Candidate) : string := messageIDFromKey (cd_Key c).

Definition accepted (o : Oracle) (p : Predicate) (c : Candidate) : Prop :=
  EvalPredicate p (candidate_attrs o (mid_of c) (thread_of o (mid_of c))) = true.

Lemma pick_in o p seen cands c :
  c ∈ pick o (CompilePredicate p) seen cands -> c ∈ cands /\ accepted o p c /\ mid_of c ∉ seen.
Proof.
  revert seen. induction cands as [|x l IH]; intros seen; simpl; [by intros ?%not_elem_of_nil|].
  case_bool_decide as Hs.
  { intros (? & ? & ?)%IH. split; [by right|done]. }
  rewrite compiled_agrees. destruct (EvalPredicate _ _) eqn:E; simpl.
  - intros [->|(? & ? & ?)%IH]%elem_of_cons; [split; [by left|done]|]. split; [by right|]. split; [done|set_solver].
  - intros (? & ? & ?)%IH. split; [by right|done].
Qed.

Lemma pick_NoDup o p seen cands : NoDup (mid_of <$> pick o (CompilePredicate p) seen cands).
Proof.
  revert seen. induction cands as [|x l IH]; intros seen; simpl; [constructor|].
  case_bool_decide; [apply IH|]. destruct (negb _); [apply IH|]. cbn. apply NoDup_cons. split; [|apply IH].
  intros (c & E & Hc)%list_elem_of_fmap. apply pick_in in Hc as (_ & _ & Hn). unfold mid_of in E, Hn. set_solver.
Qed.

(** Every accepted candidate's message is picked, by that candidate or by an
    earlier one. *)
Lemma pick_complete o p seen cands c (R : Candidate -> Candidate -> Prop) :
  StronglySorted R cands -> c ∈ cands -> accepted o p c -> mid_of c ∉ seen ->
  exists c0, c0 ∈ pick o (CompilePredicate p) seen cands /\ mid_of c0 = mid_of c /\ (c0 = c \/ R c0 c).
Proof.
  intros HR. revert seen. induction HR as [|x l HR IH Hx]; intros seen Hc Ha Hs; [by apply not_elem_of_nil in Hc|].
  simpl. case_bool_decide as Hd; [|rewrite compiled_agrees; destruct (EvalPredicate _ _) eqn:E; simpl].
  - apply elem_of_cons in Hc as [->|Hc]; [done|by apply IH].
  - apply elem_of_cons in Hc as [->|Hc]; [exists x; split; [left|auto]|].
    destruct (decide (mid_of c = mid_of x)) as [Em|Hne].
    + exists x. split; [left|]. split; [done|]. right. by eapply Forall_forall in Hx.
    + destruct (IH ({[mid_of x]} ∪ seen) Hc Ha ltac:(set_solver)) as (c0 & Hc0 & ?). exists c0. split; [by right|done].
  - apply elem_of_cons in Hc as [->|Hc]; [unfold accepted, mid_of in Ha; congruence|by apply IH].
Qed.

Lemma pick_sublist o accept seen cands : pick o accept seen cands `sublist_of` cands.
Proof.
  revert seen. induction cands as [|x l IH]; intros seen; simpl; [constructor|].
  case_bool_decide; [by constructor|]. destruct (negb _); by constructor.
Qed.

(** *** The widening loop *)

(** The loop ended on the search of [m] candidates. *)
Definition found_by (o : Oracle) (p : Predicate) (qVec : list float) (t : string) (k : Z)
    (r : option (list Candidate)) (m : Z) (cands : list Candidate) : Prop :=
  (0 < m)%Z /\ (exists vis, Search (or_index o) qVec m t = Ok (cands, vis)) /\
  (r = None /\ cands = [] \/ r = Some (pick o (CompilePredicate p) ∅ cands)) /\
  ((k <= Z.of_nat (length (pick o (CompilePredicate p) ∅ cands)))%Z \/ (Z.of_nat (length cands) < m)%Z).

Lemma search_size ix qVec n t r :
  index_ok ix -> length qVec = dim ix \/ dim ix = 0 -> (0 <= n)%Z -> Search ix qVec n t = Ok r ->
  (Z.of_nat (length r.1) <= n)%Z /\ length r.1 <= length (keys ix).
Proof.
  intros Hok Hd Hn E. destruct (Search_returns ix qVec n t Hok Hd Hn) as (r' & E' & Hl & Hnd & Hin & _).
  rewrite E in E'. injection E' as <-. split; [done|]. rewrite <- (length_fmap cd_Key r.1).
  apply submseteq_length, NoDup_submseteq; [done|]. intros key (c & -> & Hc)%list_elem_of_fmap.
  destruct (Hin c Hc) as (vid & _ & _ & _ & Hk & _). by eapply list_elem_of_lookup_2.
Qed.

Lemma widen_returns o p qVec t k fuel ex m :
  index_ok (or_index o) -> length qVec = dim (or_index o) \/ dim (or_index o) = 0 ->
  (0 < k)%Z -> (0 < m < 2 ^ 62)%Z -> (Z.of_nat (length (keys (or_index o))) < 2 ^ 61)%Z ->
  0 < fuel -> (Z.of_nat (length (keys (or_index o))) < m + (Z.of_nat fuel - 1))%Z ->
  exists ex' r m' cands, widen o (CompilePredicate p) qVec t k fuel ex m = Some (ex', Ok r) /\
    found_by o p qVec t k r m' cands.
Proof.
  intros Hok Hd Hk. revert ex m. induction fuel as [|fuel IH]; intros ex m Hm HN Hf Hb; [lia|]. cbn [widen].
  destruct (Search_returns (or_index o) qVec m t Hok Hd ltac:(lia)) as ([cands vis] & E & _).
  destruct (search_size _ _ m _ _ Hok Hd ltac:(lia) E) as [Hl1 Hl2]. simpl in Hl1, Hl2. rewrite E.
  destruct (Nat.eqb_spec (length cands) 0) as [Hz|Hz].
  { exists ex, None, m, cands. split; [done|]. split; [lia|]. split; [by exists vis|].
    split; [left; split; [done|by apply nil_length_inv]|right; lia]. }
  set (picked := pick _ _ _ cands). destruct ((k <=? Z.of_nat (length picked))%Z || (Z.of_nat (length cands) <? m)%Z) eqn:Eo.
  { do 2 eexists. exists m, cands. split; [reflexivity|]. split; [lia|]. split; [by exists vis|].
    split; [by right|].
    apply orb_prop in Eo as [?%Z.leb_le|?%Z.ltb_lt]; [by left|by right]. }
  apply orb_false_elim in Eo as [_ Eo%Z.ltb_ge]. rewrite (wrap64_id (m * 2)) by (unfold in_int64; lia).
  apply IH; lia.
Qed.

Lemma shortlist_returns o p qVec k :
  index_ok (or_index o) -> length qVec = dim (or_index o) \/ dim (or_index o) = 0 ->
  (0 < k < 2 ^ 59)%Z -> (Z.of_nat (length (keys (or_index o))) < 2 ^ 61)%Z ->
  exists ex r m cands, shortlist o qVec k p = (ex, Ok r) /\ found_by o p qVec (search_thread p) k r m cands.
Proof.
  intros Hok Hd Hk HN. unfold shortlist, annOverfetch. rewrite wrap64_id by (unfold in_int64; lia).
  destruct (widen_returns o p qVec (search_thread p) k (S (length (keys (or_index o)))) (or_examined o) (k * 8) Hok Hd)
    as (ex & r & m & cands & -> & Hr); try lia. by exists ex, r, m, cands.
Qed.

(** *** Retrieval *)

Lemma NearestChunks_run o q k p db embed qVec rest :
  or_db o = Some db -> or_embedder o = Some embed -> q <> "" -> embed RoleQuery [q] = Ok (qVec :: rest) -> qVec <> [] ->
  index_ok (or_index o) -> length qVec = dim (or_index o) \/ dim (or_index o) = 0 ->
  (0 < k < 2 ^ 59)%Z -> (Z.of_nat (length (keys (or_index o))) < 2 ^ 61)%Z ->
  exists ex m cands, (0 < m)%Z /\ (exists vis, Search (or_index o) qVec m (search_thread p) = Ok (cands, vis)) /\
    let all := pick o (CompilePredicate p) ∅ cands in
    let picked := take (Z.to_nat k) all in
    ((k <= Z.of_nat (length all))%Z \/ (Z.of_nat (length cands) < m)%Z) /\
    NearestChunks q k p o =
      (with_examined ex o, if Nat.eqb (length picked) 0 then Ok [] else fetch_refs o db qVec picked).
Proof.
  intros Hdb Hemb Hq He Hv Hok Hd Hk HN.
  destruct (shortlist_returns o p qVec k Hok Hd Hk HN) as (ex & r & m & cands & E & Hm & Hs & Hr & Hstop).
  exists ex, m, cands. split; [done|]. split; [done|]. split; [done|]. unfold NearestChunks. rewrite Hdb, Hemb.
  assert ((k <=? 0)%Z || String.eqb q "" = false) as ->.
  { apply orb_false_intro; [apply Z.leb_gt; lia|by apply String.eqb_neq]. }
  rewrite He. destruct qVec as [|x qVec]; [done|]. rewrite E. destruct Hr as [[-> ->]| ->]; [simpl; by rewrite take_nil|cbv zeta; by destruct (Nat.eqb _ _)].
Qed.

Lemma fetch_refs_ok o db qVec picked refs :
  fetch_refs o db qVec picked = Ok refs -> exists texts, refs = to_ref o texts (l2norm qVec) <$> picked.
Proof.
  unfold fetch_refs. destruct (chunkTextsForMessages _ _) as [texts| |]; [|done..]. intros [= <-]. by exists texts.
Qed.

(** A reference stands for a candidate: its message, its chunk and its score. *)
Definition ref_of (o : Oracle) (qVec : list float) (c : Candidate) (r : ChunkRef) : Prop :=
  cr_MessageID r = mid_of c /\ cr_ChunkIndex r = chunkIdxFromKey (cd_Key c) /\
  cr_ThreadID r = thread_of o (mid_of c) /\ cr_RetrievalScore r = normalizedScore (cd_Score c) (l2norm qVec).

Lemma refs_of_picked o db qVec (picked : list Candidate) refs :
  (if Nat.eqb (length picked) 0 then Ok [] else fetch_refs o db qVec picked) = Ok refs ->
  Forall2 (ref_of o qVec) picked refs.
Proof.
  destruct (Nat.eqb_spec (length picked) 0) as [Hz|_].
  - intros [= <-]. apply nil_length_inv in Hz as ->. constructor.
  - intros (texts & ->)%fetch_refs_ok. apply Forall2_fmap_r, Forall_Forall2_diag, Forall_true. done.
Qed.

(** What retrieval promises about the references of a query. *)
Definition retrieved (o : Oracle) (p : Predicate) (k : Z) (qVec : list float) (refs : list ChunkRef) : Prop :=
  (Z.of_nat (length refs) <= k)%Z /\ NoDup (cr_MessageID <$> refs) /\
  exists m cands vis, Search (or_index o) qVec m (search_thread p) = Ok (cands, vis) /\
    (forall r, r ∈ refs -> exists c, c ∈ cands /\ ref_of o qVec c r /\ accepted o p c /\
       ((forall c', c' ∈ cands -> fis_nan (cd_Score c') = false) ->
        forall c', c' ∈ cands -> mid_of c' = mid_of c -> flt (cd_Score c) (cd_Score c') = false)) /\
    ((Z.of_nat (length refs) < k)%Z ->
       (Z.of_nat (length cands) < m)%Z /\
       forall c, c ∈ cands -> accepted o p c -> exists r, r ∈ refs /\ cr_MessageID r = mid_of c).

Lemma take_in {A} n (l : list A) x : x ∈ take n l -> x ∈ l.
Proof. apply (subseteq_take n l). Qed.

(** A picked candidate is a best one of its message. *)
Lemma pick_best o p cands c :
  StronglySorted (not_after better) cands -> (forall c', c' ∈ cands -> fis_nan (cd_Score c') = false) ->
  c ∈ pick o (CompilePredicate p) ∅ cands ->
  forall c', c' ∈ cands -> mid_of c' = mid_of c -> flt (cd_Score c) (cd_Score c') = false.
Proof.
  intros HS Hnan Hc c' Hc' Em. pose proof (pick_in _ _ _ _ _ Hc) as (Hin & Ha & _).
  assert (accepted o p c') as Ha' by (unfold accepted in *; by rewrite Em).
  destruct (pick_complete o p ∅ cands c' _ HS Hc' Ha' ltac:(set_solver)) as (c0 & Hc0 & Em0 & Hbest).
  assert (c0 = c) as ->.
  { apply list_elem_of_lookup in Hc as (i & Hi). apply list_elem_of_lookup in Hc0 as (j & Hj).
    pose proof (pick_NoDup o p ∅ cands) as Hnd.
    assert (i = j) as <-; [|congruence].
    eapply NoDup_lookup; [exact Hnd| |]; rewrite list_lookup_fmap; [rewrite Hi|rewrite Hj; cbn; rewrite Em0, Em]; done. }
  destruct Hbest as [->|Hb]; [apply flt_irrefl|exact Hb].
Qed.

Lemma picked_retrieved o p k qVec db m cands refs :
  index_ok (or_index o) -> length qVec = dim (or_index o) \/ dim (or_index o) = 0 -> (0 < k)%Z -> (0 <= m)%Z ->
  (exists vis, Search (or_index o) qVec m (search_thread p) = Ok (cands, vis)) ->
  let all := pick o (CompilePredicate p) ∅ cands in
  ((k <= Z.of_nat (length all))%Z \/ (Z.of_nat (length cands) < m)%Z) ->
  (if Nat.eqb (length (take (Z.to_nat k) all)) 0 then Ok [] else fetch_refs o db qVec (take (Z.to_nat k) all)) = Ok refs ->
  retrieved o p k qVec refs.
Proof.
  intros Hok Hd Hk Hm [vis E] all Hstop HF%refs_of_picked. pose proof (Forall2_length _ _ _ HF) as Hl.
  rewrite length_take in Hl. destruct (Search_returns _ _ m (search_thread p) Hok Hd Hm) as (r & E' & _ & _ & _ & HS & _).
  rewrite E in E'. injection E' as <-. simpl in HS.
  split; [lia|]. split; [|exists m, cands, vis; split; [done|split]].
  - assert (cr_MessageID <$> refs = mid_of <$> take (Z.to_nat k) all) as ->.
    { clear -HF. induction HF as [|c r cs rs (Hc & _) _ IH]; [done|]. cbn. by rewrite Hc, IH. }
    rewrite fmap_take. eapply sublist_NoDup; [apply pick_NoDup|apply sublist_take].
  - intros r (i & Hi)%list_elem_of_lookup. destruct (Forall2_lookup_r _ _ _ _ _ HF Hi) as (c & Hc & Hrc).
    apply list_elem_of_lookup_2, take_in in Hc. pose proof (pick_in _ _ _ _ _ Hc) as (Hin & Ha & _).
    exists c. split; [done|]. split; [done|]. split; [done|]. intros Hnan. by eapply pick_best; auto.
  - intros Hlt. split; [lia|]. intros c Hc Ha.
    destruct (pick_complete o p ∅ cands c (fun _ _ => True)) as (c0 & Hc0 & Em & _); [|done..|set_solver|].
    { clear. induction cands; constructor; [done|by apply Forall_true]. }
    fold all in Hc0. rewrite take_ge in HF by lia. apply list_elem_of_lookup in Hc0 as (i & Hi).
    destruct (Forall2_lookup_l _ _ _ _ _ HF Hi) as (r & Hr & Hrc & _). exists r.
    split; [by eapply list_elem_of_lookup_2|congruence].
Qed.

(** C24: [NearestChunks].  With a well-formed index, an embedded query of its
    dimension and [0 < k < 2^59], the widening loop terminates and no search
    panics: only the work counter of the oracle changes, and the call fails or
    panics only where fetching the texts does.  When it succeeds it returns at
    most [k] references of distinct messages; each stands for an accepted
    candidate of one search, the best-scored one of its message (when no score
    is a NaN), with its normalized score; and a result shorter than [k] means
    that search came back short of what it was asked for and every accepted
    candidate's message is among the references. *)
Theorem NearestChunks_spec o q k p db embed qVec rest :
  or_db o = Some db -> or_embedder o = Some embed -> q <> "" -> embed RoleQuery [q] = Ok (qVec :: rest) -> qVec <> [] ->
  index_ok (or_index o) -> length qVec = dim (or_index o) \/ dim (or_index o) = 0 ->
  (0 < k < 2 ^ 59)%Z -> (Z.of_nat (length (keys (or_index o))) < 2 ^ 61)%Z ->
  let '(o', r) := NearestChunks q k p o in
  o' = with_examined (or_examined o') o /\
  match r with
  | Ok refs => retrieved o p k qVec refs
  | Err e => exists ids e', GetChunksForMessages db ids = Err e' /\ e = EWrap "NearestChunks: fetch chunk texts: " e' ""
  | Panic s => exists ids, GetChunksForMessages db ids = Panic s
  end.
Proof.
  intros Hdb Hemb Hq He Hv Hok Hd Hk HN.
  destruct (NearestChunks_run o q k p db embed qVec rest Hdb Hemb Hq He Hv Hok Hd Hk HN)
    as (ex & m & cands & Hm & Hs & Hstop & ->).
  split; [done|]. set (picked := take _ _) in *.
  destruct (if Nat.eqb (length picked) 0 then Ok [] else fetch_refs o db qVec picked) as [refs|e|t] eqn:Er.
  - eapply picked_retrieved; [done|done|lia|apply Z.lt_le_incl, Hm|done|exact Hstop|exact Er].
  - destruct (Nat.eqb _ _); [done|]. unfold fetch_refs, chunkTextsForMessages in Er.
    destruct (GetChunksForMessages db _) as [|e'|] eqn:E; [done| |done]. injection Er as <-. by exists (uniqueMessageIDs picked), e'.
  - destruct (Nat.eqb _ _); [done|]. unfold fetch_refs, chunkTextsForMessages in Er.
    destruct (GetChunksForMessages db _) as [| |t'] eqn:E; [done|done|]. injection Er as <-. by exists (uniqueMessageIDs picked).
Qed.

(** *** The interface *)

Lemma draw_spec o p n rows r :
  r ∈ draw o (CompilePredicate p) n rows -> EvalPredicate p (attrs r {[ "model_id" := or_model o ]}) = true.
Proof.
  revert n. induction rows as [|x l IH]; intros [|n]; simpl; try by intros ?%not_elem_of_nil.
  rewrite compiled_agrees.
  destruct (EvalPredicate p (candidate_attrs o (rr_MessageID x) (rr_ThreadID x))) eqn:E; [|apply IH].
  intros [->|Hr]%elem_of_cons; [exact E|by eapply IH].
Qed.

Lemma draw_length o accept n rows : length (draw o accept n rows) <= n.
Proof.
  revert n. induction rows as [|x l IH]; intros [|n]; simpl; try lia. destruct (accept _); simpl; [|apply IH].
  specialize (IH n). lia.
Qed.

Lemma draw_loop_out o db p n seed fuel fetch refs :
  draw_loop o db (CompilePredicate p) n seed fuel fetch = Some (Ok refs) ->
  exists rows, refs = draw o (CompilePredicate p) (Z.to_nat n) rows.
Proof.
  revert fetch. induction fuel as [|fuel IH]; intros fetch; [done|]. cbn [draw_loop].
  destruct (RandomChunkRefs _ _ _) as [rows| |]; [|done..]. destruct (n <=? _)%Z; [intros [= <-]; by exists rows|].
  destruct (_ || _); [intros [= <-]; by exists rows|apply IH].
Qed.

Lemma RandomChunks_out o n seed p refs :
  RandomChunks o n seed p = Ok refs -> refs = [] \/ exists rows, refs = draw o (CompilePredicate p) (Z.to_nat n) rows.
Proof.
  unfold RandomChunks. destruct (or_db o) as [db|]; [|intros [= <-]; by left].
  destruct (n <=? 0)%Z; [intros [= <-]; by left|]. destruct (draw_loop _ _ _ _ _ _ _) as [x|] eqn:E; [|done].
  intros E1. simpl in E1. subst x. right. by eapply draw_loop_out.
Qed.

Lemma wrap64_mul a b : wrap64 (wrap64 a * b) = wrap64 (a * b).
Proof.
  assert (exists q, wrap64 a = (a + q * 2 ^ 64)%Z) as [q ->].
  { exists (- ((a + 2 ^ 63) / 2 ^ 64))%Z. unfold wrap64. pose proof (Z.div_mod (a + 2 ^ 63) (2 ^ 64)). lia. }
  unfold wrap64. f_equal. replace ((a + q * 2 ^ 64) * b + 2 ^ 63)%Z with (a * b + 2 ^ 63 + (q * b) * 2 ^ 64)%Z by lia.
  by rewrite Z_mod_plus_full.
Qed.

(** The draw ends after at most three fetches, whatever [n] is. *)
Lemma draw_loop_total o db accept n seed :
  (0 < n)%Z -> is_Some (draw_loop o db accept n seed 3 (wrap64 (n * 4))).
Proof.
  intros Hn. cbn [draw_loop].
  assert (wrap64 (wrap64 (wrap64 (n * 4) * 2) * 2) = wrap64 (n * 16)) as ->.
  { rewrite (wrap64_mul (n * 4)), wrap64_mul. f_equal. lia. }
  assert ((wrap64 (n * 16) <=? wrap64 (n * 16))%Z = true) as -> by (apply Z.leb_refl).
  do 2 (destruct (RandomChunkRefs db _ seed) as [?| |]; [|by eexists..]; destruct (n <=? _)%Z; [by eexists|];
        destruct (_ || _); [by eexists|]).
  destruct (RandomChunkRefs db _ seed) as [?| |]; [|by eexists..]. rewrite orb_true_r. by destruct (n <=? _)%Z; eexists.
Qed.

Lemma widen_out o p qVec t k fuel ex m ex' picked :
  widen o (CompilePredicate p) qVec t k fuel ex m = Some (ex', Ok (Some picked)) ->
  exists cands, picked = pick o (CompilePredicate p) ∅ cands.
Proof.
  revert ex m. induction fuel as [|fuel IH]; intros ex m; [done|]. cbn [widen].
  destruct (Search _ _ _ _) as [[cands vis]| |]; [|done..]. destruct (Nat.eqb _ _); [done|].
  destruct (_ || _); [|apply IH]. intros [= <- <-]. by exists cands.
Qed.

Lemma NearestChunks_accepted o q k p refs r :
  (NearestChunks q k p o).2 = Ok refs -> r ∈ refs ->
  EvalPredicate p (attrs r {[ "model_id" := or_model o ]}) = true.
Proof.
  unfold NearestChunks. assert ((Ok [] : outcome (list ChunkRef)) = Ok refs -> r ∈ refs -> False) as Hnil
    by (intros [= <-] ?%not_elem_of_nil; done).
  destruct (or_db o) as [db|]; [|by intros ? ?%Hnil]. destruct (or_embedder o) as [embed|]; [|by intros ? ?%Hnil].
  destruct (_ || _); [by intros ? ?%Hnil|]. destruct (embed _ _) as [vecs| |]; [|done..].
  destruct vecs as [|[|x v] vecs]; [by intros ? ?%Hnil..|].
  destruct (shortlist _ _ _ _) as [ex found] eqn:Es. destruct found as [[picked|]| |]; [|by intros ? ?%Hnil|done..].
  cbv zeta. destruct (Nat.eqb _ _); [by intros ? ?%Hnil|]. simpl. intros (texts & ->)%fetch_refs_ok Hr.
  apply list_elem_of_fmap in Hr as (c & -> & Hc). apply take_in in Hc.
  unfold shortlist in Es. destruct (widen _ _ _ _ _ _ _ _) as [[ex1 r1]|] eqn:Ew; simpl in Es; [|congruence].
  injection Es as -> ->. apply widen_out in Ew as (cands & ->). by apply pick_in in Hc as (_ & Hacc & _).
Qed.

(** The storage-backed oracle keeps the promises the engine's theorems
    assume of an oracle ([Engine.OracleContract]): whatever its state, what it
    retrieves and draws satisfies the predicate asked with, a draw is never
    larger than requested, and chunks come back for requested messages only. *)
Theorem engine_oracle_contract o :
  (forall db, or_db o = Some db -> ChunkDBLaws db) -> OracleContract (engine_oracle o).
Proof.
  intros Hdb. split; simpl.
  - intros q k p refs r E Hr. exists {[ "model_id" := or_model o ]}. by eapply NearestChunks_accepted.
  - intros n seed p refs r E Hr. exists {[ "model_id" := or_model o ]}.
    apply RandomChunks_out in E as [->|(rows & ->)]; [by apply not_elem_of_nil in Hr|by eapply draw_spec].
  - intros n seed p refs E. apply RandomChunks_out in E as [->|(rows & ->)]; [simpl; lia|].
    pose proof (draw_length o (CompilePredicate p) (Z.to_nat n) rows). lia.
  - intros ids m id. unfold ChunksForMessages. destruct (or_db o) as [db|] eqn:E.
    + destruct (Nat.eqb _ _); [intros [= <-]; rewrite lookup_empty; by intros []|].
      destruct (GetChunksForMessages db ids) as [ch| |] eqn:Eg; [|done..]. intros [= <-] Hs. rewrite lookup_fmap in Hs.
      apply fmap_is_Some in Hs. destruct (Hdb db eq_refl). by eapply chunks_requested0.
    + intros [= <-]. rewrite lookup_empty. by intros [].
Qed.

(** The prior handed to the engine is in [0, 1] unless it is a NaN. *)
Lemma normalizedScore_range raw qNorm :
  fis_nan (normalizedScore raw qNorm) = false ->
  fle f0 (normalizedScore raw qNorm) = true /\ fle (normalizedScore raw qNorm) f1 = true.
Proof.
  unfold normalizedScore. destruct (feq qNorm f0); [done|]. set (s := fdiv raw qNorm).
  destruct (flt s f0) eqn:E0; [done|]. destruct (flt f1 s) eqn:E1; [done|]. intros Hn.
  rewrite flt_fle in E0, E1 by done. apply negb_false_iff in E0, E1. done.
Qed.
End Oracle.

(** ** A small oracle *)

Module SampleOracle.
#[local] Existing Instance stable_slice_sort.

Definition row : StoredChunk :=
  {| st_MessageID := "m1#0"; st_ChunkIndex := 0; st_Text := "hello"; st_ByteStart := 0; st_ByteEnd := 5; st_TokenEst := 2 |}.

Definition db : ChunkDB :=
  {| MessageThreads := Ok ∅; EmbeddingsForModel := fun _ => Ok [];
     GetChunksForMessages := fun ids => Ok (if bool_decide ("m1#0" ∈ ids) then {[ "m1#0" := [row] ]} else ∅);
     RandomChunkRefs := fun n _ => Ok (take (Z.to_nat n)
       [{| rr_MessageID := "m1#0"; rr_ChunkIndex := 0; rr_Text := "hello"; rr_ThreadID := "t1" |}]);
     GetChunkEmbedding := fun _ _ _ => Ok None;
     InsertChunkEmbedding := fun _ _ _ _ => Ok "t1" |}.

#[export] Instance db_laws : ChunkDBLaws db.
Proof.
  split. intros ids m id. simpl. intros [= <-]. case_bool_decide; [|rewrite lookup_empty; by intros []].
  intros [x Hx]. apply lookup_singleton_Some in Hx as [<- _]. done.
Qed.

Definition embed : Embedder := fun _ texts => Ok ((fun _ => SampleIndex.vec 1 1) <$> texts).

Definition oracle : Oracle :=
  {| or_db := Some db; or_embedder := Some embed; or_model := "test"; or_index := SampleIndex.single;
     or_threadByMsg := {[ "m1#0" := "t1" ]}; or_examined := 0 |}.

Definition refs : list ChunkRef :=
  Eval vm_compute in match (NearestChunks "query" 2 (PredThread "") oracle).2, (NearestChunks "query" 2 PredAll oracle).2 with
                     | Ok a, Ok b => a ++ b | _, _ => [] end.

Lemma run_eq : NearestChunks "query" 2 PredAll oracle = (with_examined 1 oracle, Ok refs).
Proof. vm_compute. reflexivity. Qed.

Example excluded : (NearestChunks "query" 2 (PredExcludeMessageIDs ["m1#0"]) oracle).2 = Ok [].
Proof. vm_compute. reflexivity. Qed.

Example reach : cr_MessageID <$> refs = ["m1#0"].
Proof. vm_compute. reflexivity. Qed.

Lemma NearestChunks_spec_witness :
  NearestChunks "query" 2 PredAll oracle = (with_examined 1 oracle, Ok refs) /\
  retrieved oracle PredAll 2 (SampleIndex.vec 1 1) refs.
Proof.
  split; [exact run_eq|].
  pose proof (@NearestChunks_spec stable_slice_sort oracle "query" 2 PredAll db embed (SampleIndex.vec 1 1) []
    eq_refl eq_refl ltac:(discriminate) eq_refl ltac:(discriminate) SampleIndex.single_ok ltac:(by left)
    ltac:(split; reflexivity) eq_refl) as Hspec.
  rewrite run_eq in Hspec. exact (proj2 Hspec).
Defined.

Lemma engine_oracle_contract_witness : OracleContract (@engine_oracle stable_slice_sort oracle).
Proof. apply (@engine_oracle_contract stable_slice_sort oracle). intros d [= <-]. exact db_laws. Defined.
End SampleOracle.
