(* ===== verification/Prerequisites.v ===== *)
(** * Prerequisite selection ([rrc/prerequisite_selection.go])

    One selection event: candidates from nearest-chunk retrieval and from the
    provenance walk, scored with a write-through cache and max-merged per
    message, tested against a reference sample the event draws for itself,
    and admitted as edges into the DAG.  [score_state] is what the scoring
    loops share; the scoring loops are calls in the [GoM] monad, so scores
    cached before an error stay cached. *)

From Stdlib Require Import ZArith Lia String.
From stdpp Require Import sorting.
From S2P Require Import Prelude GoFloat GoSort GoStrings Errors Types Predicate Detect Dag Chunk EngineConfig LocalContext Selection Provenance Engine.
#[local] Open Scope nat_scope.

Record PrerequisiteSelectionTelemetry := {
  PriorsConsidered : nat;
  CandidatesScored : nat;
  Reranked : nat;
  EdgesFormed : nat;
  ProvenanceReached : nat;
  ProvenanceTruncated : bool
}.

Definition no_telemetry : PrerequisiteSelectionTelemetry :=
  {| PriorsConsidered := 0; CandidatesScored := 0; Reranked := 0; EdgesFormed := 0;
     ProvenanceReached := 0; ProvenanceTruncated := false |}.

(** [bestScore], [bestTokens], [threadByID], the score cache, [totalReranked]. *)
Record score_state := {
  sc_cache : scoreCache;
  sc_best : gmap string float;
  sc_tokens : gmap string Z;
  sc_threads : gmap string string;
  sc_reranked : nat
}.

Definition set_cache (c : scoreCache) (st : score_state) : score_state :=
  {| sc_cache := c; sc_best := sc_best st; sc_tokens := sc_tokens st;
     sc_threads := sc_threads st; sc_reranked := sc_reranked st |}.
Definition set_threads (t : gmap string string) (st : score_state) : score_state :=
  {| sc_cache := sc_cache st; sc_best := sc_best st; sc_tokens := sc_tokens st;
     sc_threads := t; sc_reranked := sc_reranked st |}.
Definition add_reranked (n : nat) (st : score_state) : score_state :=
  {| sc_cache := sc_cache st; sc_best := sc_best st; sc_tokens := sc_tokens st;
     sc_threads := sc_threads st; sc_reranked := sc_reranked st + n |}.
Definition set_best (id : string) (score : float) (tokens : Z) (st : score_state) : score_state :=
  {| sc_cache := sc_cache st; sc_best := <[id := score]> (sc_best st);
     sc_tokens := <[id := tokens]> (sc_tokens st);
     sc_threads := sc_threads st; sc_reranked := sc_reranked st |}.

Section Event.
Context `{!MapRange string, !SliceSort}.
Context (scorer : option Scorer) (cfg : EngineConfig) (oracle : ChunkOracle)
        (loc : SerializedLocalContext).

Definition pair_key (lc : SerializedLocalContextChunk) (id : string) (chunk : nat) : scoreKey :=
  {| LocalContextFingerprint := slc_Fingerprint loc; LocalContextChunkIndex := lc_Index lc;
     CandidateMsgID := id; CandidateChunkIdx := chunk |}.
Definition ref_key (lc : SerializedLocalContextChunk) (ref : ChunkRef) : scoreKey :=
  pair_key lc (cr_MessageID ref) (cr_ChunkIndex ref).

(** Keep the best score of a message, and the token estimate of that chunk. *)
Definition max_merge (id text : string) (score : float) : GoM score_state unit := fun st =>
  let better := match sc_best st !! id with None => true | Some cur => flt cur score end in
  if better then
    match Estimate (cfg_Chunk cfg) text with
    | Ok n => (set_best id score n st, Ok tt)
    | Err e => (st, Err e)
    | Panic s => (st, Panic s)
    end
  else (st, Ok tt).

(** Cached scores of the references, before any is computed. *)
Definition lookup_cached (c : scoreCache) (lc : SerializedLocalContextChunk) (refs : list ChunkRef)
    : list (ChunkRef * option float) :=
  (fun r => (r, getLocalContext c (ref_key lc r))) <$> refs.
Definition uncached (cands : list (ChunkRef * option float)) : list ChunkRef :=
  fst <$> filter (fun c => c.2 = None) cands.

(** Hand the computed scores to the uncached references in order (zero when
    the scorer returned too few), caching each. *)
Fixpoint assign_scores (lc : SerializedLocalContextChunk) (cands : list (ChunkRef * option float))
    (scores : list float) (c : scoreCache) : list (ChunkRef * float) * scoreCache :=
  match cands with
  | [] => ([], c)
  | (r, Some s) :: rest =>
      let '(l, c') := assign_scores lc rest scores c in ((r, s) :: l, c')
  | (r, None) :: rest =>
      let s := default f0 (head scores) in
      let '(l, c') := assign_scores lc rest (tail scores) (setLocalContext (ref_key lc r) s c) in
      ((r, s) :: l, c')
  end.

(** The scores for the uncached candidates of one query chunk: the scorer's,
    or the retrieval scores when there is no scorer. *)
Definition compute_scores (lc : SerializedLocalContextChunk) (unc : list ChunkRef) : outcome (list float) :=
  match unc, scorer with
  | [], _ => Ok []
  | _, None => Ok (cr_RetrievalScore <$> unc)
  | _, Some score =>
      match score (lc_Text lc) (cr_Text <$> unc) with
      | Ok s => Ok s
      | Err err => Err (wrap_sentinel EScorerFailed (err_text err))
      | Panic s => Panic s
      end
  end.

Definition rerank_k : Z := if (RerankTopK cfg <=? 0)%Z then 64 else RerankTopK cfg.

Definition note_retrieved (retrieved : list ChunkRef) (threads : gmap string string) : gmap string string :=
  fold_left (fun m r => <[cr_MessageID r := cr_ThreadID r]> m) retrieved threads.

(** One query chunk of the retrieval path. *)
Definition score_chunk (predicate : Predicate) (lc : SerializedLocalContextChunk)
    : GoM score_state unit := fun st =>
  match NearestChunks oracle (lc_Text lc) rerank_k predicate with
  | Err err => (st, Err (EWrap "nearest chunks: " err ""))
  | Panic s => (st, Panic s)
  | Ok retrieved =>
      let st := set_threads (note_retrieved retrieved (sc_threads st)) st in
      let cands := lookup_cached (sc_cache st) lc retrieved in
      match compute_scores lc (uncached cands) with
      | Err e => (st, Err e)
      | Panic s => (st, Panic s)
      | Ok scores =>
          let '(scored, cache) := assign_scores lc cands scores (sc_cache st) in
          let st := set_cache cache st in
          let st := if scorer is Some _ then add_reranked (length (uncached cands)) st else st in
          foldM (M := GoM score_state)
            (fun _ rs => max_merge (cr_MessageID rs.1) (cr_Text rs.1) rs.2) tt scored st
      end
  end.

(** One chunk of a provenance-reached message; the accumulator is [scored]. *)
Definition score_reached_chunk (lc : SerializedLocalContextChunk) (msgID : string) (scored : nat)
    (cand : ChunkRef) : GoM score_state nat := fun st =>
  let key := pair_key lc msgID (cr_ChunkIndex cand) in
  let merge (s : float) (n : nat) : GoM score_state nat := fun st =>
    match max_merge msgID (cr_Text cand) s st with
    | (st', Ok _) => (st', Ok n)
    | (st', Err e) => (st', Err e)
    | (st', Panic p) => (st', Panic p)
    end in
  match getLocalContext (sc_cache st) key with
  | Some s => merge s scored st
  | None =>
      match scorer with
      | None =>
          let score := cr_RetrievalScore cand in
          merge score scored (set_cache (setLocalContext key score (sc_cache st)) st)
      | Some f =>
          match f (lc_Text lc) [cr_Text cand] with
          | Err err => (st, Err (wrap_sentinel EScorerFailed (err_text err)))
          | Panic s => (st, Panic s)
          | Ok scores =>
              let score := default f0 (head scores) in
              merge score (scored + 1) (set_cache (setLocalContext key score (sc_cache st)) st)
          end
      end
  end.

Definition scoreReachedMessages (messageIDs : list string) : GoM score_state nat := fun st =>
  match ChunksForMessages oracle messageIDs with
  | Err err => (st, Err (EWrap "provenance reach: chunks for messages: " err ""))
  | Panic s => (st, Panic s)
  | Ok chunksByMsg =>
      foldM (M := GoM score_state)
        (fun scored lc =>
           foldM (M := GoM score_state)
             (fun scored kv => foldM (M := GoM score_state) (score_reached_chunk lc kv.1) scored kv.2)
             scored (map_range chunksByMsg))
        0 (slc_Chunks loc) st
  end.

(** *** The reference floor *)

Definition raise (b s : float) : float := if flt b s then s else b.

Definition floor_chunk (refs : list ChunkRef) (best : list float) (lc : SerializedLocalContextChunk)
    : GoM score_state (list float) := fun st =>
  let cands := lookup_cached (sc_cache st) lc refs in
  let best := zip_with (fun b c => match c.2 with Some s => raise b s | None => b end) best cands in
  match uncached cands with
  | [] => (st, Ok best)
  | unc =>
      match scorer with
      | None => (st, Ok best)
      | Some score =>
          match score (lc_Text lc) (cr_Text <$> unc) with
          | Err err => (st, Err (wrap_sentinel EScorerFailed ("reference scoring: " ^^ err_text err)))
          | Panic s => (st, Panic s)
          | Ok scores =>
              let '(scored, cache) := assign_scores lc cands scores (sc_cache st) in
              (set_cache cache st,
               Ok (zip_with (fun b (cs : (ChunkRef * option float) * (ChunkRef * float)) =>
                              match cs.1.2 with Some _ => b | None => raise b cs.2.2 end)
                            best (zip cands scored)))
          end
      end
  end.

Definition referenceFloor (predicate : Predicate) : GoM score_state (list float) := fun st =>
  match scorer with
  | None => (st, Ok [])
  | Some _ =>
      match RandomChunks oracle (Z.of_nat ReferenceSampleSize) (referenceSeed (slc_Fingerprint loc)) predicate with
      | Err err => (st, Err (EWrap "reference draw: " err ""))
      | Panic s => (st, Panic s)
      | Ok [] => (st, Ok [])
      | Ok refs =>
          foldM (M := GoM score_state) (floor_chunk refs) (replicate (length refs) fninf) (slc_Chunks loc) st
      end
  end.

(** *** Acceptance *)

Definition sum_floats (l : list float) : float := fold_left fadd l f0.

(** Population mean and standard deviation. *)
Definition spread (scores : list float) : float :=
  let n := f64_of_nat (length scores) in
  let mean := fdiv (sum_floats scores) n in
  fsqrt (fdiv (fold_left (fun acc s => let delta := fsub s mean in fadd acc (fmul delta delta)) scores f0) n).

(** The mass channel: surprisal of the mass rank within the reached set. *)
Definition mass_rank_less (mass : gmap string float) (a b : string) : bool :=
  let ma := default f0 (mass !! a) in
  let mb := default f0 (mass !! b) in
  if feq ma mb then str_lt a b else flt mb ma.

Definition mass_bits (mass : gmap string float) : gmap string float :=
  let ranked := sort_slice (mass_rank_less mass) ((map_range mass).*1) in
  let n := length ranked in
  list_to_map (imap (fun i id =>
    (id, surprisalBits (fdiv (f64_of_nat (i + 1)) (f64_of_nat (n + 1))))) ranked).

Definition sem_bits (refScores : list float) (sim : float) : float :=
  let p := nullP sim refScores in
  if fle p (beatAll (length refScores)) then surprisalBits p else f0.

(** [bits > 0 && bits >= priceBits] *)
Definition detected (bits priceBits : float) : bool := flt f0 bits && fle priceBits bits.

(** The confidence an accepted candidate is recorded with. *)
Definition verdict (gated : bool) (refScores : list float) (sim mBits priceBits : float) : option float :=
  if gated then
    let semBits := sem_bits refScores sim in
    let semDetected := detected semBits priceBits in
    let massDetected := detected mBits priceBits in
    if negb semDetected && negb massDetected then None
    else
      let total := f0 in
      let total := if semDetected then fadd total semBits else total in
      let total := if massDetected then fadd total mBits else total in
      Some (confidenceFromBits total)
  else Some (clamp01 sim).

Definition candidate_edge (anchor : Message) (threads : gmap string string) (id : string)
    (sim conf : float) : Edge := {|
  e_FromMessageId := id;
  e_ToMessageId := m_Id anchor;
  e_Score := f32_of_f64 conf;
  e_Source := EDGE_SOURCE_CROSS_ENCODER;
  e_CrossEncoderScore := f32_of_f64 sim;
  e_FromThreadId := default "" (threads !! id);
  e_ToThreadId := m_ThreadId anchor;
  e_ScorerModel := ScorerModelID cfg
|}.

(** The edges the event proposes, one per accepted candidate. *)
Definition proposals (anchor : Message) (st : score_state) (gated : bool) (refScores : list float)
    (mBits : gmap string float) (price : float) (candidates : list (string * float)) : list Edge :=
  omap (fun c =>
    let priceBits := fadd (stanceBits (LossRatio cfg))
                       (fmul price (f64_of_Z (default 0%Z (sc_tokens st !! c.1)))) in
    (fun conf => candidate_edge anchor (sc_threads st) c.1 c.2 conf)
    <$> verdict gated refScores c.2 (default f0 (mBits !! c.1)) priceBits) candidates.
End Event.

Section Select.
Context `{!MapRange string, !SliceSort}.

Definition event_predicate (loc : SerializedLocalContext) (scope : SelectionScope) (threadID : string)
    : Predicate :=
  PredAnd [PredScope threadID (match scope with SELECTION_SCOPE_THREAD => ScopeThread | _ => ScopeAll end);
           PredExcludeMessageIDs (slc_MessageIDs loc)].

(** Retrieval, the provenance walk, and the scoring of what it reached. *)
Definition collect (e : Engine) (oracle : ChunkOracle) (loc : SerializedLocalContext)
    (scope : SelectionScope) (threadID : string)
    : GoM score_state (gmap string float * bool * nat) := fun st =>
  match foldM (M := GoM score_state)
          (fun _ lc => score_chunk (en_scorer e) (en_cfg e) oracle loc (event_predicate loc scope threadID) lc)
          tt (slc_Chunks loc) st with
  | (st, Err err) => (st, Err err)
  | (st, Panic s) => (st, Panic s)
  | (st, Ok _) =>
      match provenanceMassWalk (en_dag e) (slc_MessageIDs loc) threadID scope with
      | None => (st, Panic "unreachable")
      | Some (reachMass, reachThreads, truncated) =>
          if size reachMass =? 0 then (st, Ok (reachMass, truncated, 0))
          else
            let missing := filter (fun id => sc_best st !! id = None) ((map_range reachMass).*1) in
            let join (st : score_state) (n : nat) :=
              (set_threads (sc_threads st ∪ reachThreads) (add_reranked n st), Ok (reachMass, truncated, n)) in
            match missing with
            | [] => join st 0
            | _ =>
                match scoreReachedMessages (en_scorer e) (en_cfg e) oracle loc missing st with
                | (st, Err err) => (st, Err err)
                | (st, Panic s) => (st, Panic s)
                | (st, Ok n) => join st n
                end
            end
      end
  end.

Definition init_scores (e : Engine) : score_state :=
  {| sc_cache := en_scores e; sc_best := ∅; sc_tokens := ∅; sc_threads := ∅; sc_reranked := 0 |}.

(** The floor is only drawn when there are candidates to test. *)
Definition event_floor (e : Engine) (oracle : ChunkOracle) (loc : SerializedLocalContext)
    (predicate : Predicate) (candidates : list (string * float)) : GoM score_state (list float) := fun st =>
  match candidates with
  | [] => (st, Ok [])
  | _ => referenceFloor (en_scorer e) oracle loc
           (PredAnd [predicate; PredExcludeMessageIDs (candidates.*1)]) st
  end.

Definition err_flat : goerr :=
  EWrap "" EScorerFailed ": reference sample is flat — the scoring instrument is not discriminating".

Definition event_result : Type := list Edge * PrerequisiteSelectionTelemetry * list float.

(** From the scored candidates to the admitted edges. *)
Definition conclude (e : Engine) (oracle : ChunkOracle) (loc : SerializedLocalContext)
    (anchor : Message) (scope : SelectionScope) (threadID : string)
    (reachMass : gmap string float) (truncated : bool) (provenanceReached : nat) (st : score_state)
    : Engine * outcome event_result :=
  let candidates := map_range (sc_best st) in
  let n := length candidates in
  if bool_decide (is_Some (en_scorer e)) && flt f0 (MinBatchStdDev (en_cfg e)) && (0 <? n) &&
     flt (spread (candidates.*2)) (MinBatchStdDev (en_cfg e))
  then (with_scores (sc_cache st) e,
        Ok ([], {| PriorsConsidered := n; CandidatesScored := n; Reranked := sc_reranked st;
                   EdgesFormed := 0; ProvenanceReached := 0; ProvenanceTruncated := false |}, []))
  else
    match event_floor e oracle loc (event_predicate loc scope threadID) candidates st with
    | (st', Err err) => (with_scores (sc_cache st') e, Err err)
    | (st', Panic s) => (with_scores (sc_cache st') e, Panic s)
    | (st', Ok refScores) =>
        let e := with_scores (sc_cache st') e in
        let gated := minReferenceSample <=? length refScores in
        if gated && flatReference refScores then (e, Err err_flat)
        else
          let proposed := proposals (en_cfg e) anchor st gated refScores (mass_bits reachMass)
                            (lastPrice e threadID) candidates in
          let '(e, edges) := fold_left admit_step proposed (e, []) in
          (e, Ok (edges, {| PriorsConsidered := n; CandidatesScored := n; Reranked := sc_reranked st;
                            EdgesFormed := length edges; ProvenanceReached := provenanceReached;
                            ProvenanceTruncated := truncated |},
                  if gated then refScores else []))
    end.

Definition selectPrerequisitesLocked (e : Engine) (loc : option SerializedLocalContext)
    (anchor : option Message) (scope : SelectionScope) (threadID : string)
    : Engine * outcome event_result :=
  match loc with
  | None => (e, Ok ([], no_telemetry, []))
  | Some loc =>
      match slc_Chunks loc with
      | [] => (e, Ok ([], no_telemetry, []))
      | _ =>
          match anchor with
          | None => (e, Err (ENew "SelectPrerequisites: nil anchor"))
          | Some anchor =>
              match en_oracle e with
              | None => (e, Err (EWrap "" EScorerUnavailable ": no chunk oracle configured"))
              | Some oracle =>
                  match collect e oracle loc scope threadID (init_scores e) with
                  | (st, Err err) => (with_scores (sc_cache st) e, Err err)
                  | (st, Panic s) => (with_scores (sc_cache st) e, Panic s)
                  | (st, Ok (reachMass, truncated, reached)) =>
                      conclude e oracle loc anchor scope threadID reachMass truncated reached st
                  end
              end
          end
      end
  end.

Definition SelectPrerequisites (e : Engine) (loc : option SerializedLocalContext)
    (anchor : option Message) (scope : SelectionScope) (threadID : string)
    : Engine * outcome (list Edge * PrerequisiteSelectionTelemetry) :=
  match selectPrerequisitesLocked e loc anchor scope threadID with
  | (e, Ok (edges, tel, _)) => (e, Ok (edges, tel))
  | (e, Err err) => (e, Err err)
  | (e, Panic s) => (e, Panic s)
  end.
End Select.

(** ** What scoring does to the shared state *)

(** From [st] to [st'] scores were only added to the cache, new candidates all
    satisfy [P], and new threads are vouched for by [Q]. *)
Record grows (P : string -> Prop) (Q : string -> string -> Prop) (st st' : score_state) : Prop := {
  gr_cache : cache_grows (sc_cache st) (sc_cache st');
  gr_best : forall id, is_Some (sc_best st' !! id) -> is_Some (sc_best st !! id) \/ P id;
  gr_threads : forall id t, sc_threads st' !! id = Some t -> sc_threads st !! id = Some t \/ Q id t;
  gr_keep : forall id, is_Some (sc_threads st !! id) -> is_Some (sc_threads st' !! id)
}.

#[export] Instance grows_preorder P Q : PreOrder (grows P Q).
Proof.
  split; [intros st; split; auto; reflexivity|].
  intros a b c [A1 A2 A3 A4] [B1 B2 B3 B4]. split; [by etransitivity| | |auto].
  - intros id Hid. destruct (B2 id Hid); auto.
  - intros id t Ht. destruct (B3 id t Ht); auto.
Qed.

Lemma grows_mono (P P' : string -> Prop) (Q Q' : string -> string -> Prop) st st' :
  (forall id, P id -> P' id) -> (forall id t, Q id t -> Q' id t) -> grows P Q st st' -> grows P' Q' st st'.
Proof.
  intros HP HQ [A1 A2 A3 A4]. split; [done| | |done].
  - intros id Hid. destruct (A2 id Hid); auto.
  - intros id t Ht. destruct (A3 id t Ht); auto.
Qed.

Lemma grows_set_cache P Q st c :
  cache_grows (sc_cache st) c -> grows P Q st (set_cache c st).
Proof. intros Hc. split; simpl; auto. Qed.

Lemma grows_add_reranked P Q st n : grows P Q st (add_reranked n st).
Proof. split; simpl; auto. reflexivity. Qed.

Section EventSpec.
Context `{!MapRange string, !SliceSort}.
Context (scorer : option Scorer) (cfg : EngineConfig) (oracle : ChunkOracle)
        (loc : SerializedLocalContext).
Context (P : string -> Prop) (Q : string -> string -> Prop).

Lemma max_merge_grows id text score st : P id -> grows P Q st (max_merge cfg id text score st).1.
Proof.
  intros HP. unfold max_merge. destruct (match sc_best st !! id with Some _ => _ | None => _ end); [|reflexivity].
  destruct (Estimate _ _); [|reflexivity..]. simpl. split; simpl; auto; [reflexivity|].
  intros i. rewrite lookup_insert_is_Some. intros [<-|[_ ?]]; auto.
Qed.

Lemma elem_of_lookup_cached c lc refs r o :
  (r, o) ∈ lookup_cached loc c lc refs <-> r ∈ refs /\ o = getLocalContext c (ref_key loc lc r).
Proof.
  unfold lookup_cached. rewrite list_elem_of_fmap. split.
  - intros (x & [= -> ->] & ?). auto.
  - intros [? ->]. eauto.
Qed.

Lemma assign_scores_refs lc cands scores c :
  (assign_scores loc lc cands scores c).1.*1 = cands.*1.
Proof.
  revert scores c. induction cands as [|[r [s|]] l IH]; intros scores c; [done|..]; cbn [assign_scores].
  - specialize (IH scores c). destruct (assign_scores _ _ l scores c). cbn [fst] in *. by rewrite !fmap_cons, IH.
  - specialize (IH (tail scores) (setLocalContext (ref_key loc lc r) (default f0 (head scores)) c)).
    destruct (assign_scores _ _ l _ _). cbn [fst] in *. by rewrite !fmap_cons, IH.
Qed.

Lemma assign_scores_grows lc cands scores c0 c :
  (forall r, (r, None) ∈ cands -> getLocalContext c0 (ref_key loc lc r) = None) ->
  cache_grows c0 c -> cache_grows c0 (assign_scores loc lc cands scores c).2.
Proof.
  revert scores c. induction cands as [|[r [s|]] l IH]; intros scores c Hn Hc; [done|..]; cbn [assign_scores].
  - specialize (IH scores c). destruct (assign_scores _ _ l scores c). apply IH; [set_solver|done].
  - specialize (IH (tail scores) (setLocalContext (ref_key loc lc r) (default f0 (head scores)) c)).
    destruct (assign_scores _ _ l _ _). apply IH; [set_solver|]. apply cache_grows_set; [apply Hn; by left|done].
Qed.

(** The scores of a batch only add to the cache it was looked up in. *)
Lemma assign_cached_grows lc refs scores c :
  cache_grows c (assign_scores loc lc (lookup_cached loc c lc refs) scores c).2.
Proof.
  apply assign_scores_grows; [|reflexivity]. intros r Hr. by apply elem_of_lookup_cached in Hr as [_ <-].
Qed.

Lemma note_retrieved_grows st refs :
  (forall r, r ∈ refs -> Q (cr_MessageID r) (cr_ThreadID r)) ->
  let st' := set_threads (note_retrieved refs (sc_threads st)) st in
  grows P Q st st' /\ (forall r, r ∈ refs -> is_Some (sc_threads st' !! cr_MessageID r)).
Proof.
  unfold note_retrieved. simpl. 
  assert (forall l (m : gmap string string), (forall r, r ∈ l -> Q (cr_MessageID r) (cr_ThreadID r)) ->
    let m' := fold_left (fun m r => <[cr_MessageID r := cr_ThreadID r]> m) l m in
    (forall id t, m' !! id = Some t -> m !! id = Some t \/ Q id t) /\
    (forall id, is_Some (m !! id) -> is_Some (m' !! id)) /\
    (forall r, r ∈ l -> is_Some (m' !! cr_MessageID r))) as Hl.
  { induction l as [|r l IH]; intros m HQ; cbn [fold_left]; [split; [auto|split; [auto|by intros ? ?%elem_of_nil]]|].
    destruct (IH (<[cr_MessageID r := cr_ThreadID r]> m)) as (H1 & H2 & H3).
    { intros x Hx. apply HQ. by right. }
    split; [|split].
    - intros id t Ht. destruct (H1 id t Ht) as [Hx|Hx]; [|auto]. rewrite lookup_insert in Hx.
      case_decide; [|auto]. right. injection Hx as <-. subst. apply HQ. by left.
    - intros id Hid. apply H2. rewrite lookup_insert_is_Some. destruct (decide (cr_MessageID r = id)); auto.
    - intros x [->|Hx]%elem_of_cons; [|auto]. apply H2. rewrite lookup_insert_eq. eauto. }
  intros HQ. destruct (Hl refs (sc_threads st) HQ) as (H1 & H2 & H3).
  split; [split; simpl; auto; reflexivity|done].
Qed.

Definition noted (st : score_state) : Prop :=
  forall id, is_Some (sc_best st !! id) -> is_Some (sc_threads st !! id).

Lemma score_chunk_grows p lc st :
  (forall refs r, NearestChunks oracle (lc_Text lc) (rerank_k cfg) p = Ok refs -> r ∈ refs ->
     P (cr_MessageID r) /\ Q (cr_MessageID r) (cr_ThreadID r)) ->
  grows P Q st (score_chunk scorer cfg oracle loc p lc st).1 /\
  (noted st -> noted (score_chunk scorer cfg oracle loc p lc st).1).
Proof.
  intros Ho. unfold score_chunk. destruct (NearestChunks _ _ _ _) as [refs| |] eqn:En; [|by split..].
  destruct (note_retrieved_grows st refs) as [Hg Hn]; [intros r Hr; by apply (Ho refs)|].
  set (st1 := set_threads _ st) in *.
  assert (noted st -> noted st1) as Hnoted by (intros Hx id Hid; apply (gr_keep _ _ _ _ Hg); auto).
  destruct (compute_scores _ _ _) as [scores| |]; [|by split..].
  pose proof (assign_cached_grows lc refs scores (sc_cache st1)) as Hc.
  pose proof (assign_scores_refs lc (lookup_cached loc (sc_cache st1) lc refs) scores (sc_cache st1)) as Hrefs.
  destruct (assign_scores _ _ _ _ _) as [scored cache]. cbn [fst snd] in *.
  set (st2 := match scorer with Some _ => _ | None => _ end).
  assert (grows P Q st1 st2 /\ sc_best st2 = sc_best st1 /\ sc_threads st2 = sc_threads st1) as (Hg2 & Hb2 & Ht2).
  { unfold st2. destruct scorer; (split; [|done]); [etransitivity; [|apply grows_add_reranked]|];
      by apply grows_set_cache. }
  assert (forall rs, rs ∈ scored -> rs.1 ∈ refs) as Hin.
  { intros rs Hrs. apply (list_elem_of_fmap_2 fst) in Hrs. rewrite Hrefs in Hrs. unfold lookup_cached in Hrs.
    rewrite <- list_fmap_compose in Hrs. by apply list_elem_of_fmap in Hrs as (r & -> & ?). }
  split.
  - do 2 (etransitivity; [eassumption|]). apply (foldM_gom_rel (grows P Q)).
    intros rs b s Hrs. apply max_merge_grows. by apply (Ho refs); [|apply Hin].
  - intros H0. apply Hnoted in H0. set (R := fun s s' : score_state =>
      sc_threads s = sc_threads st1 -> sc_threads s' = sc_threads st1 /\ (noted s -> noted s')).
    assert (PreOrder R) by (split; [intros ?; by split|intros a b c H1 H2 Ha; destruct (H1 Ha) as [Hb ?];
      destruct (H2 Hb); auto]).
    apply (foldM_gom_rel R (fun _ rs => max_merge cfg (cr_MessageID rs.1) (cr_Text rs.1) rs.2) scored tt st2);
      [|done|intros id; rewrite Hb2, Ht2; apply H0].
    intros rs b s Hrs Hs. unfold max_merge.
    destruct (match sc_best s !! _ with Some _ => _ | None => _ end); [|by split].
    destruct (Estimate _ _); [|by split..]. simpl. split; [done|]. intros Hns id. simpl.
    rewrite lookup_insert_is_Some. intros [<-|[_ ?]]; [|auto]. rewrite Hs. auto.
Qed.

Lemma score_reached_chunk_grows lc id n cand st :
  P id -> grows P Q st (score_reached_chunk scorer cfg loc lc id n cand st).1.
Proof.
  intros HP. unfold score_reached_chunk.
  assert (forall s k st, grows P Q st (match max_merge cfg id (cr_Text cand) s st with
    | (st', Ok _) => (st', Ok (k : nat)) | (st', Err e) => (st', Err e) | (st', Panic p) => (st', Panic p) end).1) as Hm.
  { intros s k st'. pose proof (max_merge_grows id (cr_Text cand) s st' HP) as Hg.
    by destruct (max_merge _ _ _ _ _) as [? []]. }
  destruct (getLocalContext _ _) eqn:Eg; [apply Hm|].
  destruct scorer as [f|].
  - destruct (f _ _); [|reflexivity..]. etransitivity; [|apply Hm]. by apply grows_set_cache, cache_grows_set.
  - etransitivity; [|apply Hm]. by apply grows_set_cache, cache_grows_set.
Qed.

Lemma scoreReachedMessages_grows ids st :
  (forall m id, ChunksForMessages oracle ids = Ok m -> is_Some (m !! id) -> P id) ->
  grows P Q st (scoreReachedMessages scorer cfg oracle loc ids st).1.
Proof.
  intros Ho. unfold scoreReachedMessages. destruct (ChunksForMessages _ _) as [m| |]; [|reflexivity..].
  apply (foldM_gom_rel (grows P Q)). intros lc n s _. apply (foldM_gom_rel (grows P Q)).
  intros [id cs] k s' Hin. apply (foldM_gom_rel (grows P Q)). intros cand j s'' _.
  apply score_reached_chunk_grows. apply elem_of_map_range in Hin. eauto.
Qed.

Lemma floor_chunk_grows sc refs best lc st :
  grows P Q st (floor_chunk sc loc refs best lc st).1.
Proof.
  unfold floor_chunk. destruct (uncached _) as [|u us]; [reflexivity|].
  destruct sc as [f|]; [|reflexivity]. destruct (f _ _) as [scores| |]; [|reflexivity..].
  pose proof (assign_cached_grows lc refs scores (sc_cache st)) as Hc.
  destruct (assign_scores _ _ _ _ _) as [scored cache]. by apply grows_set_cache.
Qed.

Lemma referenceFloor_grows p st : grows P Q st (referenceFloor scorer oracle loc p st).1.
Proof.
  unfold referenceFloor. destruct scorer as [f|]; [|reflexivity].
  destruct (RandomChunks _ _ _ _) as [[|r refs]| |]; [reflexivity| |reflexivity..].
  apply (foldM_gom_rel (grows P Q)). intros lc b s _. apply floor_chunk_grows.
Qed.

End EventSpec.

(** ** The event as a whole *)

Section EventState.
Context `{!MapRange string, !SliceSort}.

Lemma collect_grows (P : string -> Prop) (Q : string -> string -> Prop) e oracle loc scope threadID st :
  (forall lc refs r, NearestChunks oracle (lc_Text lc) (rerank_k (en_cfg e)) (event_predicate loc scope threadID) = Ok refs ->
     r ∈ refs -> P (cr_MessageID r) /\ Q (cr_MessageID r) (cr_ThreadID r)) ->
  (forall ids m id, (forall i, i ∈ ids -> P i) -> ChunksForMessages oracle ids = Ok m -> is_Some (m !! id) -> P id) ->
  (forall mass threads truncated,
     provenanceMassWalk (en_dag e) (slc_MessageIDs loc) threadID scope = Some (mass, threads, truncated) ->
     (forall v, is_Some (mass !! v) -> P v) /\ (forall id t, threads !! id = Some t -> Q id t)) ->
  grows P Q st (collect e oracle loc scope threadID st).1.
Proof.
  intros Hnear Hmsgs Hwalk. unfold collect.
  set (loop := fun (_ : unit) lc => score_chunk (en_scorer e) (en_cfg e) oracle loc (event_predicate loc scope threadID) lc).
  assert (grows P Q st (foldM (M := GoM score_state) loop tt (slc_Chunks loc) st).1) as Hg.
  { apply (foldM_gom_rel (grows P Q)). intros lc b s _. apply score_chunk_grows. intros refs r. apply Hnear. }
  destruct (foldM loop tt (slc_Chunks loc) st) as [st1 [u| |]]; [|exact Hg..]. simpl in Hg.
  destruct (provenanceMassWalk _ _ _ _) as [[[mass threads] tr]|] eqn:Ew; [|exact Hg].
  destruct (Hwalk _ _ _ eq_refl) as [HP HQ]. destruct (size mass =? 0); [exact Hg|].
  assert (forall st2 n, grows P Q st st2 ->
    grows P Q st (set_threads (sc_threads st2 ∪ threads) (add_reranked n st2))) as Hjoin.
  { intros st2 n Hg2. etransitivity; [exact Hg2|]. split; simpl; auto; [reflexivity|..].
    - intros id t Ht. apply lookup_union_Some_raw in Ht as [?|[_ ?]]; auto.
    - intros id [t Ht]. exists t. by apply lookup_union_Some_l. }
  set (missing := filter _ _). assert (forall i, i ∈ missing -> P i) as Hmiss.
  { intros i Hi. apply list_elem_of_filter in Hi as [_ Hi]. apply list_elem_of_fmap in Hi as ([k x] & -> & Hk).
    apply elem_of_map_range in Hk. apply HP. eauto. }
  destruct missing as [|i l]; [by apply Hjoin|]. set (ids := i :: l) in *.
  pose proof (scoreReachedMessages_grows (en_scorer e) (en_cfg e) oracle loc P Q ids st1) as Hr.
  specialize (Hr (fun m id => Hmsgs ids m id Hmiss)).
  destruct (scoreReachedMessages _ _ _ _ _ _) as [st2 [n| |]]; cbn [fst] in Hr |- *;
    [apply Hjoin|..]; by etransitivity.
Qed.

(** Every candidate has a recorded thread once they are collected. *)
Lemma collect_noted e oracle loc scope threadID st st' r :
  OracleContract oracle -> noted st ->
  collect e oracle loc scope threadID st = (st', Ok r) -> noted st'.
Proof.
  intros Ho Hst. unfold collect.
  set (loop := fun (_ : unit) lc => score_chunk (en_scorer e) (en_cfg e) oracle loc (event_predicate loc scope threadID) lc).
  assert (noted (foldM (M := GoM score_state) loop tt (slc_Chunks loc) st).1) as Hn.
  { revert Hst. set (R := fun s s' : score_state => noted s -> noted s'). assert (PreOrder R) by (split; unfold R; red; auto).
    apply (foldM_gom_rel R). intros lc b s _. exact (proj2 (score_chunk_grows (en_scorer e) (en_cfg e) oracle loc (fun _ => True) (fun _ _ => True)
      (event_predicate loc scope threadID) lc s (fun _ _ _ _ => conj I I))). }
  destruct (foldM loop tt (slc_Chunks loc) st) as [st1 [u| |]]; [|done..]. cbn [fst] in Hn.
  destruct (provenanceMassWalk _ _ _ _) as [[[mass threads] tr]|] eqn:Ew; [|done].
  destruct (size mass =? 0); [by intros [= <- _]|].
  pose proof (walk_threads _ _ _ _ _ _ _ Ew) as [_ Hthreads].
  set (missing := filter _ _). assert (forall i, i ∈ missing -> is_Some (threads !! i)) as Hmiss.
  { intros i Hi. apply list_elem_of_filter in Hi as [_ Hi]. apply list_elem_of_fmap in Hi as ([k x] & -> & Hk).
    apply elem_of_map_range in Hk. apply Hthreads. eauto. }
  assert (forall st2 n, (forall id, is_Some (sc_best st2 !! id) -> is_Some (sc_threads st2 !! id) \/ id ∈ missing) ->
    noted (set_threads (sc_threads st2 ∪ threads) (add_reranked n st2))) as Hjoin.
  { intros st2 n Hs id Hid. simpl in *. rewrite lookup_union_is_Some. destruct (Hs id Hid); auto. }
  destruct missing as [|i l] eqn:Em; [intros [= <- _]; apply Hjoin; auto|]. set (ids := i :: l) in *.
  pose proof (scoreReachedMessages_grows (en_scorer e) (en_cfg e) oracle loc (fun id => id ∈ ids)
    (fun _ _ => True) ids st1 (fun m id => messages_requested ids m id)) as Hr.
  destruct (scoreReachedMessages _ _ _ _ _ _) as [st2 [n| |]]; [|done..]. cbn [fst] in Hr.
  intros [= <- _]. apply Hjoin. intros id Hid. destruct (gr_best _ _ _ _ Hr id Hid) as [Hb|]; [|auto].
  left. by apply (gr_keep _ _ _ _ Hr), Hn.
Qed.

Lemma admit_all e es acc :
  fold_left admit_step es (e, acc) =
  (with_dag (AddEdges_all (en_dag e) (omap (filter_verdict e) es)) e, acc ++ omap (filter_verdict e) es).
Proof.
  revert e acc. induction es as [|x es IH]; intros e acc; [simpl; rewrite app_nil_r; by destruct e|].
  cbn [fold_left]. rewrite admit_step_spec. simpl omap.
  destruct (filter_verdict e x) as [y|]; rewrite IH; [|done]. simpl. by rewrite <- app_assoc.
Qed.

(** The edges a call stored. *)
Definition stored {A B : Type} (r : outcome (list Edge * A * B)) : list Edge :=
  match r with Ok (edges, _, _) => edges | _ => [] end.

(** The engine after an event: scores were added to the cache, the returned
    edges were added to the DAG, nothing else changed. *)
Definition event_effect (e e' : Engine) (edges : list Edge) : Prop :=
  exists sc, cache_grows (en_scores e) sc /\
    e' = with_scores sc (with_dag (AddEdges_all (en_dag e) edges) e).

Lemma effect_none e sc : cache_grows (en_scores e) sc -> event_effect e (with_scores sc e) [].
Proof. intros Hc. exists sc. split; [done|]. by destruct e. Qed.

Lemma event_floor_grows e oracle loc p candidates st :
  cache_grows (sc_cache st) (sc_cache (event_floor e oracle loc p candidates st).1).
Proof.
  unfold event_floor. destruct candidates; [reflexivity|].
  apply (gr_cache (fun _ => True) (fun _ _ => True)), referenceFloor_grows.
Qed.

(** What [conclude] computes when it returns edges. *)
Definition concluded e oracle loc anchor scope threadID reachMass st edges (floor : list float) : Prop :=
  exists st' refScores,
    event_floor e oracle loc (event_predicate loc scope threadID) (map_range (sc_best st)) st = (st', Ok refScores) /\
    floor = (if minReferenceSample <=? length refScores then refScores else []) /\
    (minReferenceSample <=? length refScores) && flatReference refScores = false /\
    edges = omap (filter_verdict e)
      (proposals (en_cfg e) anchor st (minReferenceSample <=? length refScores) refScores
         (mass_bits reachMass) (lastPrice e threadID) (map_range (sc_best st))).

Lemma conclude_spec e oracle loc anchor scope threadID reachMass truncated reached st e' r :
  cache_grows (en_scores e) (sc_cache st) ->
  conclude e oracle loc anchor scope threadID reachMass truncated reached st = (e', r) ->
  event_effect e e' (stored r) /\
  forall edges tel floor, r = Ok (edges, tel, floor) ->
    EdgesFormed tel = length edges /\ PriorsConsidered tel = size (sc_best st) /\
    ((edges = [] /\ floor = []) \/ concluded e oracle loc anchor scope threadID reachMass st edges floor).
Proof.
  intros Hc. unfold conclude. set (candidates := map_range (sc_best st)).
  assert (length candidates = size (sc_best st)) as Hsize.
  { unfold candidates. rewrite map_range_perm. apply length_map_to_list. }
  destruct (_ && _ && _ && _).
  { intros [= <- <-]. split; [by apply effect_none|]. intros edges tel floor [= <- <- <-]. simpl. auto. }
  pose proof (event_floor_grows e oracle loc (event_predicate loc scope threadID) candidates st) as Hg.
  destruct (event_floor _ _ _ _ _ _) as [st' [refs| |]] eqn:Ef; cbn [fst] in Hg;
    [|intros [= <- <-]; split; [apply effect_none; by etransitivity|done]..].
  assert (cache_grows (en_scores e) (sc_cache st')) as Hc' by by etransitivity.
  destruct (_ && flatReference refs) eqn:Efl; [intros [= <- <-]; split; [by apply effect_none|done]|].
  rewrite admit_all. cbn [app]. intros [= <- <-]. split.
  - exists (sc_cache st'). split; [done|]. by destruct e.
  - intros edges tel floor [= <- <- <-]. simpl. split; [done|]. split; [done|]. right.
    exists st', refs. by repeat (split; [done|]).
Qed.
End EventState.

Lemma effect_id e : event_effect e e [].
Proof. exists (en_scores e). split; [reflexivity|by destruct e]. Qed.

Lemma locked_effect `{!MapRange string, !SliceSort} e loc anchor scope threadID e' r :
  selectPrerequisitesLocked e loc anchor scope threadID = (e', r) ->
  event_effect e e' (stored r) /\
  forall edges tel floor, r = Ok (edges, tel, floor) -> EdgesFormed tel = length edges.
Proof.
  unfold selectPrerequisitesLocked. pose proof (effect_id e) as Hid.
  assert (forall A (a : A) x, (e, x) = (e', r) -> (forall y, x <> Ok y) \/ x = Ok ([], no_telemetry, []) ->
    event_effect e e' (stored r) /\ forall edges tel floor, r = Ok (edges, tel, floor) -> EdgesFormed tel = length edges)
    as Hsame.
  { intros A a x [= <- <-] [Hx| ->]; [|split; [done|by intros ? ? ? [= <- <- <-]]].
    destruct x as [y| |]; [by destruct (Hx y)|by split..]. }
  destruct loc as [loc|]; [|intros Hx; apply (Hsame _ tt _ Hx); naive_solver].
  destruct (slc_Chunks loc); [intros Hx; apply (Hsame _ tt _ Hx); naive_solver|].
  destruct anchor as [anchor|]; [|intros Hx; apply (Hsame _ tt _ Hx); naive_solver].
  destruct (en_oracle e) as [oracle|]; [|intros Hx; apply (Hsame _ tt _ Hx); naive_solver]. clear Hsame.
  pose proof (collect_grows (fun _ => True) (fun _ _ => True) e oracle loc scope threadID (init_scores e)) as Hg.
  destruct (collect _ _ _ _ _ _) as [st [[[mass tr] n]| |]]; cbn [fst] in Hg;
    (assert (cache_grows (en_scores e) (sc_cache st)) as Hc by (apply (gr_cache _ _ _ _ (Hg ltac:(auto) ltac:(auto) ltac:(auto)))));
    [|intros [= <- <-]; split; [by apply effect_none|done]..].
  intros Hcon. destruct (conclude_spec _ _ _ _ _ _ _ _ _ _ _ _ Hc Hcon) as [He Hr]. split; [done|].
  intros edges tel floor Hok. by destruct (Hr _ _ _ Hok).
Qed.

(** C16: what an event may change.  Whatever its outcome, an error or a panic
    of a collaborator included, a prerequisite selection only adds scores to
    the cache (no cached score is lost or overwritten, and every addition is
    handed to the persister when one is installed) and appends the edges it
    returns to the DAG; on failure the DAG is untouched.  The prices, the
    configuration and the collaborators never change. *)
Theorem SelectPrerequisites_effect `{!MapRange string, !SliceSort} (e : Engine)
    (loc : option SerializedLocalContext) (anchor : option Message) (scope : SelectionScope)
    (threadID : string) :
  let '(e', r) := SelectPrerequisites e loc anchor scope threadID in
  match r with
  | Ok (edges, tel) => event_effect e e' edges /\ EdgesFormed tel = length edges
  | Err _ | Panic _ => event_effect e e' []
  end.
Proof.
  unfold SelectPrerequisites.
  destruct (selectPrerequisitesLocked e loc anchor scope threadID) as [e' r] eqn:El.
  destruct (locked_effect _ _ _ _ _ _ _ El) as [He Ht].
  destruct r as [[[edges tel] floor]| |]; [|done..]. split; [done|]. by eapply Ht.
Qed.

(** ** Acceptance *)

Section Acceptance.
Context `{!MapRange string, !SliceSort}.

(** A candidate scoring [sim] stands out at [priceBits]: it beats the whole
    sample and that detection's bits pay the price, or its mass bits do. *)
Definition accepted (refScores : list float) (sim mBits priceBits : float) : Prop :=
  (Forall (fun r => fle sim r = false) refScores /\
   fle priceBits (surprisalBits (beatAll (length refScores))) = true) \/
  (flt f0 mBits = true /\ fle priceBits mBits = true).

Lemma null_beatAll n : null_value 0 n = beatAll n.
Proof. reflexivity. Qed.

Lemma beat_bits_pos n :
  minReferenceSample <= n -> n <= ReferenceSampleSize -> flt f0 (surprisalBits (beatAll n)) = true.
Proof.
  intros Hlo Hhi. pose proof (for_samples_spec _ _ evidence_table_true Hlo Hhi) as Ht.
  unfold evidence_table in Ht. repeat (apply andb_prop in Ht as [Ht _]).
  eapply flt_fle_trans; [|exact Ht]. vm_compute. reflexivity.
Qed.

Lemma sem_bits_spec refs sim :
  minReferenceSample <= length refs -> length refs <= ReferenceSampleSize ->
  sem_bits refs sim =
    if decide (Forall (fun r => fle sim r = false) refs) then surprisalBits (beatAll (length refs)) else f0.
Proof.
  intros Hlo Hhi. unfold sem_bits.
  pose proof (for_ranks_spec _ (rank_count sim refs) _ beat_table_true (rank_count_le sim refs) Hhi) as Ht.
  unfold beat_table in Ht. apply eqb_prop in Ht.
  change (null_value (rank_count sim refs) (length refs)) with (nullP sim refs) in Ht. rewrite Ht.
  pose proof (rank_count_zero sim refs) as Hz. case_decide as Hd.
  - apply Hz in Hd. unfold nullP. rewrite Hd. cbn [Nat.eqb]. by rewrite <- null_beatAll.
  - destruct (Nat.eqb_spec (rank_count sim refs) 0) as [He|]; [|done]. by apply Hz in He.
Qed.

Lemma detected_zero priceBits : detected f0 priceBits = false.
Proof. unfold detected. by rewrite flt_irrefl. Qed.

(** The acceptance test decides [accepted], for every sample the engine can draw. *)
Lemma verdict_gated refs sim mBits priceBits :
  minReferenceSample <= length refs -> length refs <= ReferenceSampleSize ->
  (is_Some (verdict true refs sim mBits priceBits) <-> accepted refs sim mBits priceBits).
Proof.
  intros Hlo Hhi. unfold verdict, accepted. rewrite (sem_bits_spec refs sim Hlo Hhi).
  transitivity (detected (if decide (Forall (fun r => fle sim r = false) refs)
    then surprisalBits (beatAll (length refs)) else f0) priceBits = true \/ detected mBits priceBits = true).
  { destruct (detected _ priceBits), (detected mBits priceBits); cbn [negb andb]; rewrite ?is_Some_alt; naive_solver. }
  unfold detected at 2. rewrite andb_true_iff. apply or_iff_compat_r. case_decide as Hd.
  - unfold detected. rewrite beat_bits_pos by done. cbn [andb]. tauto.
  - rewrite detected_zero. naive_solver.
Qed.

(** *** Proposed edges *)

Lemma elem_of_proposals cfg anchor st gated refs mb price candidates p :
  p ∈ proposals cfg anchor st gated refs mb price candidates <->
  exists id sim conf, (id, sim) ∈ candidates /\
    verdict gated refs sim (default f0 (mb !! id))
      (fadd (stanceBits (LossRatio cfg)) (fmul price (f64_of_Z (default 0%Z (sc_tokens st !! id))))) = Some conf /\
    p = candidate_edge cfg anchor (sc_threads st) id sim conf.
Proof.
  unfold proposals. rewrite list_elem_of_omap. split.
  - intros ([id sim] & Hin & Hf). apply fmap_Some in Hf as (conf & Hv & ->). eauto 10.
  - intros (id & sim & conf & Hin & Hv & ->). exists (id, sim). split; [done|]. simpl. by rewrite Hv.
Qed.

Lemma proposals_NoDup cfg anchor st gated refs mb price candidates :
  NoDup candidates.*1 ->
  NoDup (e_FromMessageId <$> proposals cfg anchor st gated refs mb price candidates).
Proof.
  unfold proposals. induction candidates as [|[id sim] l IH]; [constructor|]. rewrite fmap_cons.
  intros [Hid Hnd]%NoDup_cons. cbn [omap list_omap]. destruct (verdict _ _ _ _ _) as [conf|]; [|auto].
  cbn [fmap option_fmap option_map fst snd]. rewrite fmap_cons. apply NoDup_cons. split; [|auto].
  intros Hin. apply Hid. simpl in Hin. apply list_elem_of_fmap in Hin as (p & -> & Hp).
  apply elem_of_proposals in Hp as (id' & sim' & conf' & Hin & _ & ->). simpl.
  by apply (list_elem_of_fmap_2 fst) in Hin.
Qed.

Lemma referenceFloor_length oracle scorer loc p st st' refs :
  OracleContract oracle ->
  referenceFloor scorer oracle loc p st = (st', Ok refs) -> length refs <= ReferenceSampleSize.
Proof.
  intros Ho. unfold referenceFloor. destruct scorer as [f|]; [|intros [= _ <-]; simpl; lia].
  destruct (RandomChunks _ _ _ _) as [rs| |] eqn:Er; [|done..].
  pose proof (random_bounded _ _ _ _ Er) as Hb.
  destruct rs as [|r rs]; [intros [= _ <-]; simpl; lia|].
  assert (forall l best s s' out, foldM (M := GoM score_state) (floor_chunk (Some f) loc (r :: rs)) best l s = (s', Ok out) ->
    length best <= length (r :: rs) -> length out <= length (r :: rs)) as Hl.
  { induction l as [|lc l IH]; intros best s s' out; cbn [foldM].
    { intros [= _ <-]. done. }
    unfold mbind, gom_bind. destruct (floor_chunk _ _ _ _ _ _) as [s1 [best'| |]] eqn:Ef; [|done..].
    intros Hrun Hb'. apply (IH _ _ _ _ Hrun). revert Ef. unfold floor_chunk.
    destruct (uncached _); [intros [= _ <-]; rewrite length_zip_with; lia|].
    destruct (f _ _); [|done..]. destruct (assign_scores _ _ _ _ _).
    intros [= _ <-]. rewrite !length_zip_with. lia. }
  intros Hrun. apply Hl in Hrun; [unfold ReferenceSampleSize in *; lia|]. by rewrite length_replicate.
Qed.

Lemma event_floor_length e oracle loc p candidates st st' refs :
  OracleContract oracle ->
  event_floor e oracle loc p candidates st = (st', Ok refs) -> length refs <= ReferenceSampleSize.
Proof.
  intros Ho. unfold event_floor. destruct candidates; [intros [= _ <-]; simpl; lia|].
  by apply referenceFloor_length.
Qed.
End Acceptance.

Lemma locked_run `{!MapRange string, !SliceSort} e loc anchor scope threadID oracle e' edges tel floor :
  en_oracle e = Some oracle ->
  selectPrerequisitesLocked e (Some loc) (Some anchor) scope threadID = (e', Ok (edges, tel, floor)) ->
  (edges = [] /\ floor = []) \/
  exists st mass truncated n,
    collect e oracle loc scope threadID (init_scores e) = (st, Ok (mass, truncated, n)) /\
    PriorsConsidered tel = size (sc_best st) /\
    ((edges = [] /\ floor = []) \/ concluded e oracle loc anchor scope threadID mass st edges floor).
Proof.
  intros Ho. unfold selectPrerequisitesLocked. rewrite Ho.
  destruct (slc_Chunks loc); [intros [= _ <- _ <-]; auto|].
  pose proof (collect_grows (fun _ => True) (fun _ _ => True) e oracle loc scope threadID (init_scores e)) as Hg.
  destruct (collect _ _ _ _ _ _) as [st [[[mass tr] n]| |]]; [|done..]. cbn [fst] in Hg. intros Hc. right.
  exists st, mass, tr, n. split; [done|].
  destruct (conclude_spec _ _ _ _ _ _ _ _ _ _ _ _ (gr_cache _ _ _ _ (Hg ltac:(auto) ltac:(auto) ltac:(auto))) Hc)
    as [_ Hr].
  by destruct (Hr _ _ _ eq_refl) as (_ & ? & ?).
Qed.

(** C5: exact acceptance.  When an event measured a noise floor, its edges are
    the ones the edge filter admits out of one proposal per accepted candidate:
    a scored candidate is proposed if and only if it scores above every
    reference of the sample and the bits of that detection pay the stance plus
    the shadow price of its tokens, or the bits of its provenance-mass rank pay
    that price.  The sample has between 4 and 64 references and is not flat. *)
Theorem acceptance_exact `{!MapRange string, !SliceSort} (e : Engine)
    (loc : SerializedLocalContext) (anchor : Message) (scope : SelectionScope) (threadID : string)
    (oracle : ChunkOracle) (e' : Engine) (edges : list Edge) (tel : PrerequisiteSelectionTelemetry)
    (floor : list float)
    (Horacle : en_oracle e = Some oracle) (Hcontract : OracleContract oracle)
    (Hrun : selectPrerequisitesLocked e (Some loc) (Some anchor) scope threadID = (e', Ok (edges, tel, floor)))
    (Hgated : floor <> []) :
  minReferenceSample <= length floor <= ReferenceSampleSize /\ flatReference floor = false /\
  exists st mass truncated n proposed,
    collect e oracle loc scope threadID (init_scores e) = (st, Ok (mass, truncated, n)) /\
    PriorsConsidered tel = size (sc_best st) /\
    edges = omap (filter_verdict e) proposed /\
    NoDup (e_FromMessageId <$> proposed) /\
    (forall p, p ∈ proposed -> e_Source p = EDGE_SOURCE_CROSS_ENCODER /\ e_ToMessageId p = m_Id anchor /\
       exists sim, sc_best st !! e_FromMessageId p = Some sim /\ e_CrossEncoderScore p = f32_of_f64 sim) /\
    forall id sim, sc_best st !! id = Some sim ->
      (id ∈ e_FromMessageId <$> proposed <->
       accepted floor sim (default f0 (mass_bits mass !! id))
         (fadd (stanceBits (LossRatio (en_cfg e)))
            (fmul (lastPrice e threadID) (f64_of_Z (default 0%Z (sc_tokens st !! id)))))).
Proof.
  destruct (locked_run _ _ _ _ _ _ _ _ _ _ Horacle Hrun) as [[_ ?]|(st & mass & tr & n & Hcol & Hsize & Hcon)]; [done|].
  destruct Hcon as [[_ ?]|(st' & refs & Hfloor & -> & Hflat & ->)]; [done|].
  destruct (minReferenceSample <=? length refs) eqn:Eg; [|done]. apply Nat.leb_le in Eg.
  pose proof (event_floor_length _ _ _ _ _ _ _ _ Hcontract Hfloor) as Hle.
  split; [done|]. split; [done|]. exists st, mass, tr, n. eexists. do 3 (split; [done|]).
  split; [apply proposals_NoDup, map_range_keys_NoDup|]. split.
  - intros p Hp. apply elem_of_proposals in Hp as (id & sim & conf & Hin & _ & ->). simpl.
    do 2 (split; [done|]). exists sim. split; [by apply elem_of_map_range|done].
  - intros id sim Hsim. rewrite <- (verdict_gated refs) by done. rewrite list_elem_of_fmap. split.
    + intros (p & -> & Hp). apply elem_of_proposals in Hp as (id & sim' & conf & Hin & Hv & ->).
      simpl in Hsim |- *. apply elem_of_map_range in Hin. rewrite Hsim in Hin. injection Hin as <-. by exists conf.
    + intros [conf Hv]. eexists. split; [|apply elem_of_proposals; do 3 eexists; split;
        [by apply elem_of_map_range|split; [exact Hv|reflexivity]]]. done.
Qed.

(** The candidates of an event and the threads recorded for them. *)
Lemma collect_isolated `{!MapRange string, !SliceSort} e oracle loc scope threadID st r :
  OracleContract oracle ->
  collect e oracle loc scope threadID (init_scores e) = (st, Ok r) ->
  forall id, is_Some (sc_best st !! id) ->
    id ∉ slc_MessageIDs loc /\
    exists t, sc_threads st !! id = Some t /\ (scope = SELECTION_SCOPE_THREAD -> t = threadID).
Proof.
  intros Ho Hcol id Hid.
  assert (noted (init_scores e)) as Hn0 by (intros i [? Hi]; simpl in Hi; by rewrite lookup_empty in Hi).
  pose proof (collect_noted _ _ _ _ _ _ _ _ Ho Hn0 Hcol id Hid) as [t Ht].
  pose proof (collect_grows (fun i => i ∉ slc_MessageIDs loc)
    (fun _ t => scope = SELECTION_SCOPE_THREAD -> t = threadID) e oracle loc scope threadID (init_scores e)) as Hg.
  rewrite Hcol in Hg. cbn [fst] in Hg. destruct Hg as [_ Hb Hth _].
  - intros lc refs x Hnear Hx. destruct (nearest_filtered _ _ _ _ _ Hnear Hx) as [md Hev].
    cbn [EvalPredicate event_predicate forallb] in Hev. rewrite existsb_eqb_elem_of in Hev.
    apply andb_true_iff in Hev as [Hs Hev]. rewrite andb_true_r in Hev.
    apply negb_true_iff, bool_decide_eq_false in Hev. split; [done|].
    intros ->. simpl in Hs. by apply String.eqb_eq in Hs.
  - intros ids m i Hids Hm Hi. eapply Hids, messages_requested; eauto.
  - intros mass threads tr Hw. destruct (walk_split _ _ _ _ _ _ _ Hw) as (ws & ms & _ & Hout & Hi & ->).
    destruct (mass_leftover_dom _ _ _ _ _ _ _ Hi) as [Hdom _]. split.
    + intros v Hv. apply Hdom in Hv. pose proof (ro_fresh _ _ _ _ _ Hout). unfold anchors in *.
      intros Hin. apply (elem_of_list_to_set (C := gset string)) in Hin. set_solver.
    + intros i u Hiu Hs. destruct (walk_threads _ _ _ _ _ _ _ Hw) as [Hsound _].
      eapply recorded_scope; [by apply Hsound|by rewrite Hs].
  - split.
    + destruct (Hb id Hid) as [[x Hx]|]; [simpl in Hx; by rewrite lookup_empty in Hx|done].
    + exists t. split; [done|]. destruct (Hth id t Ht) as [Hx|]; [simpl in Hx; by rewrite lookup_empty in Hx|done].
Qed.

(** Isolation.  An event never proposes a message the Local Context
    already delivers, never proposes a message twice, and a thread-scoped event
    only proposes messages of its own thread.  The returned edges are the
    proposals the edge filter admits. *)
Theorem SelectPrerequisites_isolated `{!MapRange string, !SliceSort} (e : Engine)
    (loc : SerializedLocalContext) (anchor : Message) (scope : SelectionScope) (threadID : string)
    (oracle : ChunkOracle) (e' : Engine) (edges : list Edge) (tel : PrerequisiteSelectionTelemetry)
    (Horacle : en_oracle e = Some oracle) (Hcontract : OracleContract oracle)
    (Hrun : SelectPrerequisites e (Some loc) (Some anchor) scope threadID = (e', Ok (edges, tel))) :
  exists proposed, edges = omap (filter_verdict e) proposed /\
    NoDup (e_FromMessageId <$> proposed) /\
    forall p, p ∈ proposed ->
      e_FromMessageId p ∉ slc_MessageIDs loc /\ e_ToMessageId p = m_Id anchor /\
      e_ToThreadId p = m_ThreadId anchor /\
      (scope = SELECTION_SCOPE_THREAD -> e_FromThreadId p = threadID).
Proof.
  unfold SelectPrerequisites in Hrun.
  destruct (selectPrerequisitesLocked _ _ _ _ _) as [e1 [[[edges1 tel1] floor]| |]] eqn:El; [|done..].
  injection Hrun as <- <- <-.
  destruct (locked_run _ _ _ _ _ _ _ _ _ _ Horacle El) as [[-> _]|(st & mass & tr & n & Hcol & _ & Hcon)].
  { exists []. split; [done|]. split; [constructor|]. by intros p ?%elem_of_nil. }
  destruct Hcon as [[-> _]|(st' & refs & _ & _ & _ & ->)].
  { exists []. split; [done|]. split; [constructor|]. by intros p ?%elem_of_nil. }
  eexists. split; [done|]. split; [apply proposals_NoDup, map_range_keys_NoDup|].
  intros p Hp. apply elem_of_proposals in Hp as (id & sim & conf & Hin & _ & ->). simpl.
  apply elem_of_map_range in Hin.
  destruct (collect_isolated _ _ _ _ _ _ _ Hcontract Hcol id) as (H1 & t & Ht & H2); [eauto|].
  split; [done|]. do 2 (split; [done|]). by rewrite Ht.
Qed.

(** ** A concrete event *)

Module SampleEvent.
Definition chunk (id text : string) : ChunkRef :=
  {| cr_MessageID := id; cr_ChunkIndex := 0; cr_ThreadID := "t"; cr_Text := text; cr_Vector := [];
     cr_RetrievalScore := fhalf |}.
(** One related message, one that is not, and a background of four. *)
Definition corpus : list ChunkRef :=
  [chunk "hit" "hit"; chunk "miss" "r1"; chunk "b1" "r1"; chunk "b2" "r2"; chunk "b3" "r3"; chunk "b4" "r1"].
Definition matching (p : Predicate) : list ChunkRef :=
  filter (fun r => EvalPredicate p (attrs r ∅) = true) corpus.
Definition oracle : ChunkOracle := {|
  ChunksForMessages := fun ids => Ok (list_to_map ((fun i => (i, filter (fun r => cr_MessageID r = i) corpus)) <$> ids));
  NearestChunks := fun _ _ p => Ok (take 2 (matching p));
  RepresentativeVectors := fun _ => Ok ∅;
  RandomChunks := fun n _ p => Ok (take (Z.to_nat n) (matching p))
|}.
Definition scorer : Scorer := fun _ texts =>
  Ok ((fun t => if String.eqb t "hit" then f1 else if String.eqb t "r1" then f64_lit 1 (-3) else f64_lit 1 (-2)) <$> texts).
Definition cfg : EngineConfig := {|
  ScorerModelID := "ce"; LossRatio := fhalf; MinBatchStdDev := f0; RerankTopK := 64; LocalContextSize := 10;
  cfg_Chunk := {| MaxChars := 2000; OverlapChars := 200; Estimator := Some (fun s => Z.of_nat (String.length s)) |};
  ContextBudgetTokens := 150000; BudgetHeadroomPct := fhalf; PerMsgDelimiterTokens := 5 |}.
Definition engine : Engine :=
  {| en_scorer := Some scorer; en_dag := newDAG; en_scores := newScoreCache; en_cfg := cfg;
     en_oracle := Some oracle; en_edgeFilter := None; en_price := Some ∅ |}.
Definition loc : SerializedLocalContext :=
  {| slc_EventID := "e"; slc_Fingerprint := "f"; slc_MessageIDs := ["w"];
     slc_Chunks := [{| lc_Index := 0; lc_Text := "query" |}] |}.
Definition anchor : Message :=
  {| m_Id := "w"; m_Role := ROLE_USER; m_Content := []; m_Position := 0; m_ThreadId := "t";
     m_CreatedAt := None; m_TurnId := "turn" |}.
Definition run : Engine * outcome event_result :=
  @selectPrerequisitesLocked canonical_range stable_slice_sort engine (Some loc) (Some anchor)
    SELECTION_SCOPE_THREAD "t".
(** The background scores 1/8, 1/4, 1/4 and 1/8. *)
Definition background : list float := [f64_lit 1 (-3); f64_lit 1 (-2); f64_lit 1 (-2); f64_lit 1 (-3)].
Definition tel : PrerequisiteSelectionTelemetry :=
  {| PriorsConsidered := 2; CandidatesScored := 2; Reranked := 2; EdgesFormed := 1; ProvenanceReached := 0;
     ProvenanceTruncated := false |}.
Definition edge : Edge :=
  Eval vm_compute in match run.2 with Ok (edge :: _, _, _) => edge | _ => Selection.SampleGraph.ce "" "" 0 0 end.
End SampleEvent.

#[export] Instance SampleEvent_contract : OracleContract SampleEvent.oracle.
Proof.
  assert (forall p refs n r, Ok (take n (SampleEvent.matching p)) = Ok refs -> r ∈ refs ->
    exists md, EvalPredicate p (attrs r md) = true) as Hm.
  { intros p refs n r [= <-] Hr. exists ∅. apply subseteq_take in Hr.
    by apply list_elem_of_filter in Hr as [? _]. }
  split.
  - intros q k p refs r. apply Hm.
  - intros n seed p refs r. apply Hm.
  - intros n seed p refs [= <-]. rewrite length_take. lia.
  - intros ids m id [= <-] [x Hx]. apply elem_of_list_to_map_2 in Hx.
    by apply list_elem_of_fmap in Hx as (i & [= -> _] & ?).
Qed.

Lemma SampleEvent_run :
  SampleEvent.run =
  (SampleEvent.run.1, Ok ([SampleEvent.edge], SampleEvent.tel, SampleEvent.background)).
Proof.
  assert (SampleEvent.run.2 = Ok ([SampleEvent.edge], SampleEvent.tel, SampleEvent.background)) as H
    by (vm_compute; reflexivity).
  rewrite <- H. apply surjective_pairing.
Qed.

Lemma acceptance_exact_witness :
  SampleEvent.run = (SampleEvent.run.1, Ok ([SampleEvent.edge], SampleEvent.tel, SampleEvent.background)) /\
  minReferenceSample <= length SampleEvent.background /\
  e_FromMessageId SampleEvent.edge = "hit".
Proof.
  split; [exact SampleEvent_run|]. split; [|reflexivity].
  refine (proj1 (proj1 (@acceptance_exact canonical_range stable_slice_sort SampleEvent.engine SampleEvent.loc
    SampleEvent.anchor SELECTION_SCOPE_THREAD "t" SampleEvent.oracle _ _ _ _ eq_refl SampleEvent_contract
    SampleEvent_run _))).
  discriminate.
Defined.

Lemma SelectPrerequisites_isolated_witness :
  exists proposed, [SampleEvent.edge] = omap (filter_verdict SampleEvent.engine) proposed.
Proof.
  assert (@SelectPrerequisites canonical_range stable_slice_sort SampleEvent.engine (Some SampleEvent.loc)
    (Some SampleEvent.anchor) SELECTION_SCOPE_THREAD "t" = (SampleEvent.run.1, Ok ([SampleEvent.edge], SampleEvent.tel)))
    as Hrun.
  { unfold SelectPrerequisites. pose proof SampleEvent_run as H. unfold SampleEvent.run in H at 1. by rewrite H. }
  destruct (@SelectPrerequisites_isolated canonical_range stable_slice_sort SampleEvent.engine SampleEvent.loc
    SampleEvent.anchor SELECTION_SCOPE_THREAD "t" SampleEvent.oracle _ _ _ eq_refl SampleEvent_contract Hrun)
    as (proposed & H & _).
  exists proposed. exact H.
Defined.
