(* ===== verification/Assembly.v ===== *)
(** * Assembly ([rrc/assembly.go])

    One outbound call: the Local Context is closed under protocol pairs and
    shed to the budget, prerequisites are selected, closed and shed by evidence
    density, and the surviving groups become the wire.  Loops that Go leaves
    unbounded run on fuel; the theorems below show the fuel is enough.

    Pointers to messages are never nil inside slices and maps here; the nil
    cases of the request itself are options. *)

From Stdlib Require Import ZArith Lia String.
From stdpp Require Import sorting.
From S2P Require Import Prelude GoFloat GoSort GoStrings Errors Types Chunk Detect Dag Protocol PbText LocalContext EngineConfig Selection Provenance Engine Prerequisites.
#[local] Open Scope nat_scope.

Record CorpusStore := {
  Messages : list string -> outcome (gmap string Message);
  TurnPeers : list Message -> outcome (list Message)
}.

(** What assembly relies on: a store returns requested messages, each under
    its own id. *)
Class StoreContract (s : CorpusStore) : Prop := {
  messages_by_id : forall ids m id x, Messages s ids = Ok m -> m !! id = Some x -> m_Id x = id /\ id ∈ ids
}.

Record AssembleRequest := {
  rq_SerializedLocalContext : option SerializedLocalContext;
  rq_Anchor : option Message;
  rq_Store : option CorpusStore;
  rq_LocalContext : list Message;
  rq_Scope : SelectionScope;
  rq_ThreadID : string;
  rq_System : option LLMMessage;
  rq_Budget : Z;
  rq_HeadroomPct : float;
  rq_PerMsgDelim : Z;
  rq_FixedTokens : Z;
  rq_ExcludeIDs : list string;
  rq_CurrentTurnID : string;
  rq_CountText : option (LLMMessage -> string);
  rq_PriorSelection : option SelectionResult
}.

Record AssembleTelemetry := {
  SelectedCount : nat;
  LocalContextCount : nat;
  ClosureCount : nat;
  SheddedCount : nat;
  TotalTokens : Z;
  EffectiveBudget : Z;
  RealizedPrice : float;
  PrerequisiteSelection : PrerequisiteSelectionTelemetry
}.

Record AssembleResult := {
  ar_Wire : list LLMMessage;
  ar_Selection : SelectionResult;
  ar_SerializedLocalContext : option SerializedLocalContext;
  ar_Edges : list Edge;
  ar_Shed : list string;
  ar_Delivered : list DeliveryGroup;
  ar_LocalGroups : list DeliveryGroup;
  ar_Telemetry : AssembleTelemetry
}.

(** ** Groups *)

Definition closureKey (messages : list Message) : string :=
  fold_left (fun key m => key ^^ m_ThreadId m ^^ nul ^^ m_Id m ^^ nul) messages "".

Definition absorb (g group : DeliveryGroup) : DeliveryGroup :=
  let better := flt (dg_Score g) (dg_Score group) in
  {| dg_RootID := if better then dg_RootID group else dg_RootID g;
     dg_RootIDs := dg_RootIDs g ++ dg_RootIDs group;
     dg_Score := if better then dg_Score group else dg_Score g;
     dg_Messages := dg_Messages g |}.

(** [byClosure] and [out] *)
Definition merge_step (acc : gmap string nat * list DeliveryGroup) (group : DeliveryGroup)
    : gmap string nat * list DeliveryGroup :=
  let '(byClosure, out) := acc in
  let key := closureKey (dg_Messages group) in
  match byClosure !! key with
  | Some index => (byClosure, alter (fun g => absorb g group) index out)
  | None => (<[key := length out]> byClosure, out ++ [group])
  end.

Definition sort_roots (g : DeliveryGroup) : DeliveryGroup :=
  {| dg_RootID := dg_RootID g; dg_RootIDs := sort_strings (dg_RootIDs g);
     dg_Score := dg_Score g; dg_Messages := dg_Messages g |}.

Definition mergeDeliveryGroups (groups : list DeliveryGroup) : list DeliveryGroup :=
  sort_roots <$> (fold_left merge_step groups (∅, [])).2.

Definition root_score (scores : option (gmap string float)) (root : Message) : float :=
  match scores with None => finf | Some m => default f0 (m !! m_Id root) end.

Definition closeRoots (index : ProtocolIndex) (roots : list Message) (scores : option (gmap string float))
    : outcome (list DeliveryGroup) :=
  match mapO (fun root => run_close index root (root_score scores root)) roots with
  | Ok groups => Ok (mergeDeliveryGroups groups)
  | Err e => Err e
  | Panic s => Panic s
  end.

Definition groupOverlaps (group : DeliveryGroup) (ids : gset string) : bool :=
  existsb (fun m => bool_decide (m_Id m ∈ ids)) (dg_Messages group).

Definition closureCount (groups : list DeliveryGroup) : nat :=
  fold_left (fun n g => if 1 <? length (dg_Messages g) then n + (length (dg_Messages g) - 1) else n) groups 0.

Definition messageIDs (messages : list Message) : list string := m_Id <$> messages.
Definition sameIDs (a b : list string) : bool := bool_decide (a = b).

(** ** The wire *)

Definition messageToLLM (m : Message) : LLMMessage := {| lm_Role := m_Role m; lm_Content := m_Content m |}.

Definition wire_less (a b : Message) : bool :=
  if negb (String.eqb (m_ThreadId a) (m_ThreadId b)) then str_lt (m_ThreadId a) (m_ThreadId b)
  else if negb (m_Position a =? m_Position b)%Z then (m_Position a <? m_Position b)%Z
  else str_lt (m_Id a) (m_Id b).

Definition take_new (acc : gset string * list Message) (m : Message) : gset string * list Message :=
  if bool_decide (m_Id m ∈ acc.1) then acc else ({[m_Id m]} ∪ acc.1, acc.2 ++ [m]).

(** The messages of the groups, each id once, none of [already]. *)
Definition wire_messages (groups : list DeliveryGroup) (already : gset string) : list Message :=
  sort_stable wire_less
    (fold_left (fun acc g => fold_left take_new (dg_Messages g) acc) groups (already, [])).2.

Definition groupsToWire (groups : list DeliveryGroup) (already : gset string) : list LLMMessage :=
  messageToLLM <$> wire_messages groups already.

Definition wireTokens (e : Engine) (countText : option (LLMMessage -> string)) (system : option LLMMessage)
    (head tail : list LLMMessage) (fixed delim : Z) : outcome Z :=
  let count := default (fun m => TextFromBlocks (lm_Content m)) countText in
  let head := match system with Some s => s :: head | None => head end in
  foldM (fun total m =>
    match Estimate (cfg_Chunk (en_cfg e)) (count m) with
    | Ok n => Ok (wrap64 (total + (n + delim)))
    | Err err => Err err
    | Panic s => Panic s
    end) fixed (head ++ tail).

(** ** Local Context *)

Definition lastSemantic (localCtx : list Message) (currentTurnID : string) : option Message :=
  last (List.filter (fun m => negb (out_of_turn currentTurnID m) && hasSemanticBlock (m_Content m)) localCtx).

Definition last_of_role (localCtx : list Message) (role : Role) : option Message :=
  last (List.filter (fun m => hasSemanticBlock (m_Content m) && bool_decide (m_Role m = role)) localCtx).

Definition pin (m : option Message) (pinned : gset string) : gset string :=
  match m with Some m => {[m_Id m]} ∪ pinned | None => pinned end.

Definition pinnedLocalIDs (localCtx : list Message) (anchorID : string) : gset string :=
  match localCtx with
  | [] => ∅
  | _ => pin (last_of_role localCtx ROLE_USER) (pin (last_of_role localCtx ROLE_ASSISTANT) {[anchorID]})
  end.

Fixpoint oldestUnpinned (localCtx : list Message) (pinned : gset string) : string :=
  match localCtx with
  | [] => ""
  | m :: rest => if bool_decide (m_Id m ∈ pinned) then oldestUnpinned rest pinned else m_Id m
  end.

Definition removeMessage (messages : list Message) (id : string) : list Message :=
  List.filter (fun m => negb (String.eqb (m_Id m) id)) messages.

Definition protocolScope (msgs : list Message) (store : option CorpusStore)
    : outcome ProtocolIndex :=
  match store with
  | None => Ok (NewProtocolIndex msgs)
  | Some s =>
      match TurnPeers s msgs with
      | Ok peers => Ok (NewProtocolIndex (msgs ++ peers))
      | Err e => Err e
      | Panic t => Panic t
      end
  end.

Definition effective_budget (req : AssembleRequest) : Z :=
  if flt f0 (rq_HeadroomPct req) && fle (rq_HeadroomPct req) f1
  then int_of_f64 (fmul (f64_of_Z (rq_Budget req)) (rq_HeadroomPct req))
  else rq_Budget req.

(** [req.Budget <= 0 || total <= effectiveBudget] *)
Definition fits (req : AssembleRequest) (total : Z) : bool :=
  (rq_Budget req <=? 0)%Z || (total <=? effective_budget req)%Z.

Definition err_pinned (total budget : Z) : goerr :=
  ENew ("assemble: pinned Local Context requires " ^^ itoa total ^^ " tokens, budget is " ^^ itoa budget).
Definition err_fixed (total budget : Z) : goerr :=
  ENew ("assemble: fixed system and Local Context require " ^^ itoa total ^^ " tokens, budget is " ^^ itoa budget).

(** The first loop: its result is the surviving Local Context, its groups and
    its wire. *)
Fixpoint local_loop (e : Engine) (req : AssembleRequest) (index : ProtocolIndex) (pinned : gset string)
    (fuel : nat) (localCtx : list Message)
    : option (outcome (list Message * list DeliveryGroup * list LLMMessage)) :=
  match fuel with
  | O => None
  | S fuel' =>
      match closeRoots index localCtx None with
      | Err err => Some (Err err)
      | Panic s => Some (Panic s)
      | Ok groups =>
          let wire := groupsToWire groups ∅ in
          match wireTokens e (rq_CountText req) (rq_System req) [] wire (rq_FixedTokens req) (rq_PerMsgDelim req) with
          | Err err => Some (Err err)
          | Panic s => Some (Panic s)
          | Ok total =>
              if fits req total then Some (Ok (localCtx, groups, wire))
              else
                let drop := oldestUnpinned localCtx pinned in
                if String.eqb drop "" then Some (Err (err_pinned total (effective_budget req)))
                else local_loop e req index pinned fuel' (removeMessage localCtx drop)
          end
      end
  end.

(** ** Selected history *)

(** The memo [groupCost] holds wire costs by root id. *)

Section Shed.
Context (e : Engine) (req : AssembleRequest) (localIDs : gset string)
        (corpusByID : gmap string Message) (protocolSel : ProtocolIndex)
        (selected : list SelectedMessage) (localWire : list LLMMessage).

Definition costOf (g : DeliveryGroup) : GoM (gmap string Z) Z := fun memo =>
  match memo !! dg_RootID g with
  | Some c => (memo, Ok c)
  | None =>
      match wireTokens e (rq_CountText req) None (groupsToWire [g] localIDs) [] 0 (rq_PerMsgDelim req) with
      | Ok c => let c := if (c <? 1)%Z then 1%Z else c in (<[dg_RootID g := c]> memo, Ok c)
      | Err err => (memo, Err err)
      | Panic s => (memo, Panic s)
      end
  end.

(** Evidence bits above the stance, per wire token. *)
Definition densityOf (g : DeliveryGroup) : GoM (gmap string Z) float :=
  c ← costOf g;
  mret (fdiv (fsub (bitsFromConfidence (dg_Score g)) (stanceBits (LossRatio (en_cfg e)))) (f64_of_Z c)).

Definition lowestDensityGroup (groups : list DeliveryGroup) : GoM (gmap string Z) (option DeliveryGroup) :=
  r ← foldM (M := GoM (gmap string Z))
        (fun (acc : float * option DeliveryGroup) g =>
           d ← densityOf g;
           mret (if flt d acc.1 then (d, Some g) else acc))
        (finf, None) groups;
  mret r.2.

Definition err_missing_selected (id : string) : goerr :=
  ENew ("assemble: selected message " ^^ id ^^ " missing from corpus").

(** One selected message of the pass that rebuilds the groups. *)
Definition close_selected (dropped : gset string) (groups : list DeliveryGroup) (s : SelectedMessage)
    : outcome (list DeliveryGroup) :=
  if bool_decide (sm_MessageId s ∈ dropped) || bool_decide (sm_MessageId s ∈ localIDs) then Ok groups
  else
    match corpusByID !! sm_MessageId s with
    | None => Err (err_missing_selected (sm_MessageId s))
    | Some root =>
        match run_close protocolSel root (f64_of_f32 (sm_EffectiveScore s)) with
        | Err err => Err err
        | Panic t => Panic t
        | Ok group => Ok (if groupOverlaps group localIDs then groups else groups ++ [group])
        end
    end.

Definition root_position (g : DeliveryGroup) : option Z := m_Position <$> corpusByID !! dg_RootID g.

Definition by_position (a b : DeliveryGroup) : bool :=
  (default 0 (root_position a) <? default 0 (root_position b))%Z.

(** Sorting two or more groups reads the position of every root. *)
Definition sort_groups (groups : list DeliveryGroup) : outcome (list DeliveryGroup) :=
  if (1 <? length groups) && existsb (fun g => bool_decide (root_position g = None)) groups
  then Panic "invalid memory address or nil pointer dereference"
  else Ok (sort_stable by_position groups).

Definition selected_groups (dropped : gset string) : outcome (list DeliveryGroup) :=
  match foldM (close_selected dropped) [] selected with
  | Ok groups => sort_groups (mergeDeliveryGroups groups)
  | Err err => Err err
  | Panic s => Panic s
  end.

Definition final_wire (groups : list DeliveryGroup) : list LLMMessage :=
  option_list (rq_System req) ++ groupsToWire groups localIDs ++ localWire.

(** What the loop carries: [dropped], [realizedPrice] and the memo. *)
Record shed_state := { sh_dropped : gset string; sh_price : float; sh_memo : gmap string Z }.

(** What it ends with. *)
Record shed_result := {
  sd_groups : list DeliveryGroup;
  sd_wire : list LLMMessage;
  sd_total : Z;
  sd_dropped : gset string;
  sd_price : float
}.

Definition drop_group (drop : DeliveryGroup) (d : float) (memo : gmap string Z) (st : shed_state) : shed_state :=
  {| sh_dropped := sh_dropped st ∪ list_to_set (dg_RootIDs drop);
     sh_price := if flt (sh_price st) d then d else sh_price st;
     sh_memo := memo |}.

Fixpoint shed_loop (fuel : nat) (st : shed_state) : option (outcome shed_result) :=
  match fuel with
  | O => None
  | S fuel' =>
      match selected_groups (sh_dropped st) with
      | Err err => Some (Err err)
      | Panic s => Some (Panic s)
      | Ok groups =>
          match wireTokens e (rq_CountText req) None (final_wire groups) [] (rq_FixedTokens req) (rq_PerMsgDelim req) with
          | Err err => Some (Err err)
          | Panic s => Some (Panic s)
          | Ok total =>
              if fits req total
              then Some (Ok {| sd_groups := groups; sd_wire := final_wire groups; sd_total := total;
                               sd_dropped := sh_dropped st; sd_price := sh_price st |})
              else
                match lowestDensityGroup groups (sh_memo st) with
                | (_, Err err) => Some (Err err)
                | (_, Panic s) => Some (Panic s)
                | (_, Ok None) => Some (Err (err_fixed total (effective_budget req)))
                | (memo, Ok (Some drop)) =>
                    match densityOf drop memo with
                    | (_, Err err) => Some (Err err)
                    | (_, Panic s) => Some (Panic s)
                    | (memo, Ok d) => shed_loop fuel' (drop_group drop d memo st)
                    end
                end
          end
      end
  end.
End Shed.

(** ** The call *)

Section Assemble.
Context `{!MapRange string, !SliceSort}.

Definition with_event (loc : SerializedLocalContext) (anchor : Message) (sel : list SelectedMessage)
    (r : SelectionResult) : SelectionResult := {|
  sr_EventId := slc_EventID loc;
  sr_Scope := sr_Scope r;
  sr_ThreadId := sr_ThreadId r;
  sr_Selected := sel;
  sr_Excluded := sr_Excluded r;
  sr_LocalContextFingerprint := slc_Fingerprint loc;
  sr_LocalContextMessageIds := slc_MessageIDs loc;
  sr_AnchorMessageId := m_Id anchor
|}.

Definition empty_selection (anchor : Message) (req : AssembleRequest) : SelectionResult := {|
  sr_EventId := "sel-" ^^ m_Id anchor;
  sr_Scope := rq_Scope req;
  sr_ThreadId := rq_ThreadID req;
  sr_Selected := [];
  sr_Excluded := [];
  sr_LocalContextFingerprint := "";
  sr_LocalContextMessageIds := [];
  sr_AnchorMessageId := m_Id anchor
|}.

(** The diversity rerank; a failure keeps the selection as it was. *)
Definition rerank (e : Engine) (loc : SerializedLocalContext) (sel : list SelectedMessage)
    : outcome (list SelectedMessage) :=
  if 1 <? length sel then
    match ApplyMMR e sel (slc_MessageIDs loc) with
    | (Ok ranked, _) => Ok ranked
    | (Err _, _) => Ok sel
    | (Panic s, _) => Panic s
    end
  else Ok sel.

Definition choice : Type := list Edge * PrerequisiteSelectionTelemetry * SelectionResult.

(** The switch: reuse, select, or an empty selection. *)
Definition choose (e : Engine) (req : AssembleRequest) (anchor : Message)
    (serializedLocal : option SerializedLocalContext) : Engine * outcome choice :=
  match rq_PriorSelection req, serializedLocal with
  | Some prior, _ => (e, Ok ([], no_telemetry, prior))
  | None, Some loc =>
      match selectPrerequisitesLocked e (Some loc) (Some anchor) (rq_Scope req) (rq_ThreadID req) with
      | (e, Err err) => (e, Err (EWrap "assemble SelectPrerequisites: " err ""))
      | (e, Panic s) => (e, Panic s)
      | (e, Ok (edges, tel, eventFloor)) =>
          match selectLocked e (m_Id anchor) (rq_Scope req) (rq_ThreadID req) eventFloor with
          | Err err => (e, Err (EWrap "assemble Select: " err ""))
          | Panic s => (e, Panic s)
          | Ok selected =>
              match rerank e loc (sr_Selected selected) with
              | Ok sel => (e, Ok (edges, tel, with_event loc anchor sel selected))
              | Err err => (e, Err err)
              | Panic s => (e, Panic s)
              end
          end
      end
  | None, None => (e, Ok ([], no_telemetry, empty_selection anchor req))
  end.

(** [serializedLocal] *)
Definition serialize (e : Engine) (req : AssembleRequest) (localCtx : list Message)
    : outcome (option SerializedLocalContext) :=
  match rq_SerializedLocalContext req with
  | Some s =>
      if sameIDs (slc_MessageIDs s) (messageIDs localCtx) then Ok (Some s)
      else SerializeLocalContext localCtx (rq_CurrentTurnID req) (cfg_Chunk (en_cfg e))
  | None => SerializeLocalContext localCtx (rq_CurrentTurnID req) (cfg_Chunk (en_cfg e))
  end.

(** The ids the Local Context delivers. *)
Definition delivered_ids (groups : list DeliveryGroup) : gset string :=
  list_to_set (groups ≫= fun g => m_Id <$> dg_Messages g).

(** From the fetch of the selected content to the shed. *)
Definition shed_selected (e : Engine) (req : AssembleRequest) (localGroups : list DeliveryGroup)
    (localWire : list LLMMessage) (selected : SelectionResult) : outcome shed_result :=
  match rq_Store req with
  | None => Panic "invalid memory address or nil pointer dereference"
  | Some store =>
      match Messages store (sm_MessageId <$> sr_Selected selected) with
      | Err err => Err (EWrap "assemble: fetch selected content: " err "")
      | Panic s => Panic s
      | Ok corpusByID =>
          match protocolScope ((map_range corpusByID).*2) (rq_Store req) with
          | Err err => Err (EWrap "assemble: selected protocol scope: " err "")
          | Panic s => Panic s
          | Ok protocolSel =>
              default (Panic "unreachable")
                (shed_loop e req (delivered_ids localGroups) corpusByID protocolSel (sr_Selected selected) localWire
                   (S (length (sr_Selected selected)))
                   {| sh_dropped := list_to_set (rq_ExcludeIDs req); sh_price := f0; sh_memo := ∅ |})
          end
      end
  end.

(** After the Local Context is settled. *)
Definition finish (e : Engine) (req : AssembleRequest) (anchor : Message) (localCtx : list Message)
    (localGroups : list DeliveryGroup) (localWire : list LLMMessage) : Engine * outcome AssembleResult :=
  match serialize e req localCtx with
  | Err err => (e, Err err)
  | Panic s => (e, Panic s)
  | Ok serializedLocal =>
      match choose e req anchor serializedLocal with
      | (e, Err err) => (e, Err err)
      | (e, Panic s) => (e, Panic s)
      | (e, Ok (edges, tel, selected)) =>
          match shed_selected e req localGroups localWire selected with
          | Err err => (e, Err err)
          | Panic s => (e, Panic s)
          | Ok r =>
              match setPrice e (rq_ThreadID req) (sd_price r) with
              | Err err => (e, Err err)
              | Panic s => (e, Panic s)
              | Ok e' =>
                  let shedIDs := sort_strings (range_set (sd_dropped r)) in
                  (e', Ok {|
                    ar_Wire := sd_wire r;
                    ar_Selection := selected;
                    ar_SerializedLocalContext := serializedLocal;
                    ar_Edges := edges;
                    ar_Shed := shedIDs;
                    ar_Delivered := sd_groups r;
                    ar_LocalGroups := localGroups;
                    ar_Telemetry := {|
                      SelectedCount := length (sd_groups r);
                      LocalContextCount := length localCtx;
                      ClosureCount := closureCount (sd_groups r) + closureCount localGroups;
                      SheddedCount := length shedIDs;
                      TotalTokens := sd_total r;
                      EffectiveBudget := effective_budget req;
                      RealizedPrice := sd_price r;
                      PrerequisiteSelection := tel |} |})
              end
          end
      end
  end.

Definition Assemble (e : Engine) (req : AssembleRequest) : Engine * outcome AssembleResult :=
  match rq_Anchor req with
  | None => (e, Err (ENew "assemble: nil Anchor"))
  | Some anchor =>
      match rq_LocalContext req with
      | [] => (e, Err (ENew "assemble: empty LocalContext"))
      | _ =>
          if match lastSemantic (rq_LocalContext req) (rq_CurrentTurnID req) with
             | None => true
             | Some m => negb (String.eqb (m_Id m) (m_Id anchor))
             end
          then (e, Err (ENew "assemble: Anchor must be the last semantic message of the current turn"))
          else
            match protocolScope (rq_LocalContext req) (rq_Store req) with
            | Err err => (e, Err (EWrap "assemble: local protocol scope: " err ""))
            | Panic s => (e, Panic s)
            | Ok protocolLocal =>
                match local_loop e req protocolLocal (pinnedLocalIDs (rq_LocalContext req) (m_Id anchor))
                        (S (length (rq_LocalContext req))) (rq_LocalContext req) with
                | None => (e, Panic "unreachable")
                | Some (Err err) => (e, Err err)
                | Some (Panic s) => (e, Panic s)
                | Some (Ok (localCtx, groups, wire)) => finish e req anchor localCtx groups wire
                end
            end
      end
  end.
End Assemble.

(** ** Wire messages *)

Definition group_ids (groups : list DeliveryGroup) : list string :=
  groups ≫= fun g => m_Id <$> dg_Messages g.

Lemma elem_of_group_ids groups id :
  id ∈ group_ids groups <-> exists g m, g ∈ groups /\ m ∈ dg_Messages g /\ m_Id m = id.
Proof.
  unfold group_ids. rewrite list_elem_of_bind. split.
  - intros (g & Hid & Hg). apply list_elem_of_fmap in Hid as (m & -> & Hm). eauto.
  - intros (g & m & Hg & Hm & <-). exists g. split; [by apply list_elem_of_fmap_2|done].
Qed.

Record taken (already : gset string) (src : list Message) (acc : gset string * list Message) : Prop := {
  tk_seen : forall id, id ∈ acc.1 <-> id ∈ already \/ id ∈ m_Id <$> acc.2;
  tk_nodup : NoDup (m_Id <$> acc.2);
  tk_fresh : forall m, m ∈ acc.2 -> m_Id m ∉ already /\ m ∈ src;
  tk_all : forall m, m ∈ src -> m_Id m ∈ acc.1
}.

Lemma take_new_taken already src acc m :
  taken already src acc -> taken already (src ++ [m]) (take_new acc m).
Proof.
  intros [H1 H2 H3 H4]. unfold take_new. destruct (bool_decide_reflect (m_Id m ∈ acc.1)) as [Hin|Hin].
  - split; [done|done| |].
    + intros x Hx. destruct (H3 x Hx). rewrite elem_of_app. auto.
    + intros x [Hx| ->%list_elem_of_singleton]%elem_of_app; auto.
  - split; cbn [fst snd].
    + intros id. rewrite fmap_app, elem_of_app, elem_of_union, elem_of_singleton, H1. simpl.
      rewrite list_elem_of_singleton. tauto.
    + rewrite fmap_app. apply NoDup_app. split; [done|]. split; [|apply NoDup_singleton].
      intros id Hid ->%list_elem_of_singleton. apply Hin, H1. auto.
    + intros x [Hx| ->%list_elem_of_singleton]%elem_of_app.
      * destruct (H3 x Hx). rewrite elem_of_app. auto.
      * split; [|rewrite elem_of_app, list_elem_of_singleton; auto]. intros Ha. apply Hin, H1. auto.
    + intros x [Hx| ->%list_elem_of_singleton]%elem_of_app; set_solver.
Qed.

Lemma take_all_taken already l src acc :
  taken already src acc -> taken already (src ++ l) (fold_left take_new l acc).
Proof.
  revert src acc. induction l as [|m l IH]; intros src acc H; cbn [fold_left]; [by rewrite app_nil_r|].
  rewrite cons_middle, app_assoc. by apply IH, take_new_taken.
Qed.

Lemma wire_taken groups already :
  let acc := fold_left (fun acc g => fold_left take_new (dg_Messages g) acc) groups (already, []) in
  taken already (groups ≫= dg_Messages) acc.
Proof.
  assert (taken already [] (already, [])) as H0.
  { split; simpl; [set_solver|constructor|by intros ? ?%elem_of_nil|by intros ? ?%elem_of_nil]. }
  cbv zeta. rewrite <- (app_nil_l (groups ≫= _)). revert H0. generalize (@nil Message) at 1 3. generalize (already, @nil Message).
  induction groups as [|g groups IH]; intros acc src H; cbn [fold_left]; [by rewrite app_nil_r|].
  rewrite bind_cons, app_assoc. by apply IH, take_all_taken.
Qed.

(** The messages put on the wire: each id of the groups once, except those
    already delivered. *)
Lemma wire_messages_spec groups already :
  NoDup (m_Id <$> wire_messages groups already) /\
  (forall m, m ∈ wire_messages groups already ->
     m_Id m ∉ already /\ exists g, g ∈ groups /\ m ∈ dg_Messages g) /\
  (forall id, id ∈ m_Id <$> wire_messages groups already <-> id ∈ group_ids groups /\ id ∉ already).
Proof.
  pose proof (wire_taken groups already) as [H1 H2 H3 H4]. unfold wire_messages.
  set (acc := fold_left _ _ _) in *.
  assert (forall m, m ∈ acc.2 -> m_Id m ∉ already /\ exists g, g ∈ groups /\ m ∈ dg_Messages g) as Hm.
  { intros m Hm. destruct (H3 m Hm) as [? Hs]. split; [done|].
    apply list_elem_of_bind in Hs as (g & ? & ?). eauto. }
  split; [by rewrite (sort_stable_perm wire_less)|]. split.
  - intros m. rewrite elem_of_sort_stable. apply Hm.
  - intros id. rewrite (sort_stable_perm wire_less), elem_of_group_ids. split.
    + intros (m & -> & Hin)%list_elem_of_fmap. destruct (Hm m Hin) as (? & g & ? & ?). eauto 10.
    + intros [(g & m & Hg & Hin & <-) Ha]. assert (m_Id m ∈ acc.1) as Hs.
      { apply H4, list_elem_of_bind. eauto. }
      apply H1 in Hs as [?|?]; done.
Qed.

(** ** Merging *)

Definition merge_all (groups : list DeliveryGroup) : gmap string nat * list DeliveryGroup :=
  fold_left merge_step groups (∅, []).

(** What merging [src] has produced so far. *)
Record merged (src : list DeliveryGroup) (acc : gmap string nat * list DeliveryGroup) : Prop := {
  mg_index : forall key i, acc.1 !! key = Some i -> exists g, acc.2 !! i = Some g /\ closureKey (dg_Messages g) = key;
  mg_from : forall g', g' ∈ acc.2 ->
    (exists g, g ∈ src /\ dg_Messages g' = dg_Messages g) /\
    (exists g, g ∈ src /\ dg_RootID g' = dg_RootID g /\ dg_Score g' = dg_Score g) /\
    (forall id, id ∈ dg_RootIDs g' -> exists g, g ∈ src /\ id ∈ dg_RootIDs g);
  mg_root : (forall g, g ∈ src -> dg_RootID g ∈ dg_RootIDs g) -> forall g', g' ∈ acc.2 -> dg_RootID g' ∈ dg_RootIDs g';
  mg_into : forall g, g ∈ src -> exists g', g' ∈ acc.2 /\
    closureKey (dg_Messages g') = closureKey (dg_Messages g) /\ forall id, id ∈ dg_RootIDs g -> id ∈ dg_RootIDs g'
}.

Lemma merge_step_merged src acc g : merged src acc -> merged (src ++ [g]) (merge_step acc g).
Proof.
  destruct acc as [byClosure out]. intros [H1 H2 H4 H3]. unfold merge_step. cbn [fst snd] in *.
  assert (forall g', g' ∈ out -> (exists x, x ∈ src ++ [g] /\ dg_Messages g' = dg_Messages x) /\
    (exists x, x ∈ src ++ [g] /\ dg_RootID g' = dg_RootID x /\ dg_Score g' = dg_Score x) /\
    (forall id, id ∈ dg_RootIDs g' -> exists x, x ∈ src ++ [g] /\ id ∈ dg_RootIDs x)) as H2'.
  { intros g' Hg'. destruct (H2 g' Hg') as ((x & ? & ?) & (y & ? & ? & ?) & Hr).
    split; [exists x; rewrite elem_of_app; auto|]. split; [exists y; rewrite elem_of_app; auto|].
    intros id Hid. destruct (Hr id Hid) as (z & ? & ?). exists z. rewrite elem_of_app. auto. }
  assert (g ∈ src ++ [g]) as Hg by (rewrite elem_of_app, list_elem_of_singleton; auto).
  destruct (byClosure !! closureKey (dg_Messages g)) as [i|] eqn:Ei.
  - destruct (H1 _ _ Ei) as (q & Hq & Hkey).
    assert (absorb q g ∈ alter (fun x => absorb x g) i out) as Hin.
    { apply list_elem_of_lookup. exists i. by rewrite list_lookup_alter_eq, Hq. }
    assert (forall g', g' ∈ alter (fun x => absorb x g) i out -> g' ∈ out \/ g' = absorb q g) as Hcases.
    { intros g' (j & Hj)%list_elem_of_lookup. destruct (decide (i = j)) as [<-|Hij].
      - rewrite list_lookup_alter_eq, Hq in Hj. injection Hj as <-. auto.
      - rewrite list_lookup_alter_ne in Hj by done. left. by eapply list_elem_of_lookup_2. }
    assert (forall g', g' ∈ out -> exists g'', g'' ∈ alter (fun x => absorb x g) i out /\
      dg_Messages g'' = dg_Messages g' /\ forall id, id ∈ dg_RootIDs g' -> id ∈ dg_RootIDs g'') as Hkeep.
    { intros g' (j & Hj)%list_elem_of_lookup. destruct (decide (i = j)) as [<-|Hij].
      - rewrite Hq in Hj. injection Hj as <-. exists (absorb q g). split; [done|]. split; [done|].
        intros id Hid. simpl. set_solver.
      - exists g'. split; [|done]. apply list_elem_of_lookup. exists j. by rewrite list_lookup_alter_ne. }
    split; cbn [fst snd].
    + intros key j Hj. destruct (H1 key j Hj) as (x & Hx & <-). destruct (decide (i = j)) as [<-|Hij].
      * exists (absorb x g). by rewrite list_lookup_alter_eq, Hx.
      * exists x. by rewrite list_lookup_alter_ne.
    + intros g' [?| ->]%Hcases; [auto|].
      assert (q ∈ out) as (Hm & Hr & Hi)%H2' by by eapply list_elem_of_lookup_2.
      split; [done|]. split; [simpl; destruct (flt _ _); [by exists g|done]|].
      intros id. simpl. rewrite elem_of_app. intros [?|?]; [auto|by exists g].
    + intros Hroots. assert (forall x, x ∈ src -> dg_RootID x ∈ dg_RootIDs x) as Hs by (intros; apply Hroots; set_solver).
      intros g' [?| ->]%Hcases; [auto|]. assert (dg_RootID q ∈ dg_RootIDs q) as Hq' by (apply H4; [done|by eapply list_elem_of_lookup_2]).
      specialize (Hroots g Hg). simpl. rewrite elem_of_app. destruct (flt _ _); auto.
    + intros x [Hx| ->%list_elem_of_singleton]%elem_of_app.
      * destruct (H3 x Hx) as (g' & Hg' & Hk & Hr). destruct (Hkeep g' Hg') as (g'' & ? & Hm & ?).
        exists g''. rewrite Hm. auto.
      * exists (absorb q g). split; [done|]. split; [done|]. intros id Hid. simpl. set_solver.
  - split; cbn [fst snd].
    + intros key j. rewrite lookup_insert. case_decide as Hk.
      * intros [= <-]. subst. exists g. by rewrite list_lookup_middle.
      * intros Hj. destruct (H1 key j Hj) as (x & Hx & ?). exists x. split; [by apply lookup_app_l_Some|done].
    + intros g' [?| ->%list_elem_of_singleton]%elem_of_app; [auto|]. split; [by exists g|]. split; [by exists g|].
      intros id ?. by exists g.
    + intros Hroots g' [?| ->%list_elem_of_singleton]%elem_of_app; [|by apply Hroots].
      apply H4; [|done]. intros x Hx. apply Hroots. set_solver.
    + intros x [Hx| ->%list_elem_of_singleton]%elem_of_app.
      * destruct (H3 x Hx) as (g' & ? & ? & ?). exists g'. rewrite elem_of_app. auto.
      * exists g. rewrite elem_of_app, list_elem_of_singleton. auto.
Qed.

Lemma merge_all_merged groups : merged groups (merge_all groups).
Proof.
  assert (forall l src acc, merged src acc -> merged (src ++ l) (fold_left merge_step l acc)) as Hl.
  { induction l as [|g l IH]; intros src acc H; cbn [fold_left]; [by rewrite app_nil_r|].
    rewrite cons_middle, app_assoc. by apply IH, merge_step_merged. }
  apply (Hl groups []). split; simpl; [intros k i Hk; by rewrite lookup_empty in Hk|by intros ? ?%elem_of_nil|by intros _ ? ?%elem_of_nil|by intros ? ?%elem_of_nil].
Qed.

Lemma merge_from groups g' :
  g' ∈ mergeDeliveryGroups groups ->
  (exists g, g ∈ groups /\ dg_Messages g' = dg_Messages g) /\
  (exists g, g ∈ groups /\ dg_RootID g' = dg_RootID g /\ dg_Score g' = dg_Score g) /\
  (forall id, id ∈ dg_RootIDs g' -> exists g, g ∈ groups /\ id ∈ dg_RootIDs g).
Proof.
  unfold mergeDeliveryGroups. intros (x & -> & Hx)%list_elem_of_fmap.
  destruct (mg_from _ _ (merge_all_merged groups) x Hx) as (? & ? & Hr).
  split; [done|]. split; [done|]. intros id. simpl. rewrite elem_of_sort_strings. apply Hr.
Qed.

Lemma merge_root groups g' :
  (forall g, g ∈ groups -> dg_RootID g ∈ dg_RootIDs g) ->
  g' ∈ mergeDeliveryGroups groups -> dg_RootID g' ∈ dg_RootIDs g'.
Proof.
  intros Hr (x & -> & Hx)%list_elem_of_fmap. simpl. rewrite elem_of_sort_strings.
  by apply (mg_root _ _ (merge_all_merged groups) Hr).
Qed.

Lemma merge_into groups g :
  g ∈ groups -> exists g', g' ∈ mergeDeliveryGroups groups /\
    closureKey (dg_Messages g') = closureKey (dg_Messages g) /\ forall id, id ∈ dg_RootIDs g -> id ∈ dg_RootIDs g'.
Proof.
  intros Hg. destruct (mg_into _ _ (merge_all_merged groups) g Hg) as (x & Hx & Hk & Hr).
  exists (sort_roots x). split; [by apply list_elem_of_fmap_2|]. split; [done|].
  intros id Hid. simpl. rewrite elem_of_sort_strings. auto.
Qed.

(** ** The two loops *)

Definition group_closed (p : ProtocolIndex) (g : DeliveryGroup) : Prop :=
  closed_under p (m_Id <$> dg_Messages g) (dg_Messages g).

Lemma closeRoots_groups index roots scores groups :
  closeRoots index roots scores = Ok groups ->
  (forall g, g ∈ groups -> group_closed index g /\ dg_Messages g ⊆ roots ++ index_pool index) /\
  (forall r, r ∈ roots -> exists g ms, g ∈ groups /\ r ∈ ms /\ ms ⊆ roots ++ index_pool index /\
     closureKey (dg_Messages g) = closureKey ms).
Proof.
  unfold closeRoots. destruct (mapO _ roots) as [gs| |] eqn:E; [|done..]. intros [= <-].
  apply mapO_ok_Forall2 in E. split.
  - intros g ((x & Hx & Hm) & _ & _)%merge_from. unfold group_closed. rewrite Hm.
    apply list_elem_of_lookup in Hx as [i Hx]. destruct (Forall2_lookup_r _ _ _ _ _ E Hx) as (r & Hr & Hc).
    apply list_elem_of_lookup_2 in Hr. apply run_close_ok in Hc as (_ & _ & _ & _ & _ & ? & Hp).
    split; [done|]. intros y Hy. specialize (Hp y Hy). set_solver.
  - intros r Hr. pose proof Hr as Hin. apply list_elem_of_lookup in Hr as [i Hr].
    destruct (Forall2_lookup_l _ _ _ _ _ E Hr) as (x & Hx & Hc). apply list_elem_of_lookup_2 in Hx.
    apply merge_into in Hx as (g & Hg & Hk & _). exists g, (dg_Messages x).
    apply run_close_ok in Hc as (_ & _ & _ & ? & _ & _ & Hp). do 2 (split; [done|]). split; [|done].
    intros y Hy. specialize (Hp y Hy). set_solver.
Qed.

Lemma oldestUnpinned_spec l pinned :
  oldestUnpinned l pinned <> "" ->
  exists m, m ∈ l /\ m_Id m = oldestUnpinned l pinned /\ oldestUnpinned l pinned ∉ pinned.
Proof.
  induction l as [|m l IH]; [done|]. cbn [oldestUnpinned].
  destruct (bool_decide_reflect (m_Id m ∈ pinned)) as [Hp|Hp].
  - intros Hne. destruct (IH Hne) as (x & ? & ?). exists x. by split; [right|].
  - intros _. exists m. by split; [left|].
Qed.

Lemma removeMessage_spec l id m : m ∈ removeMessage l id <-> m ∈ l /\ m_Id m <> id.
Proof.
  unfold removeMessage. rewrite !list_elem_of_In, filter_In. destruct (String.eqb_spec (m_Id m) id); naive_solver.
Qed.

Lemma removeMessage_length l id : (exists m, m ∈ l /\ m_Id m = id) -> length (removeMessage l id) < length l.
Proof.
  intros (m & Hm & <-). unfold removeMessage. induction l as [|x l IH]; [by apply elem_of_nil in Hm|].
  simpl. destruct (String.eqb_spec (m_Id x) (m_Id m)) as [He|He]; simpl.
  - pose proof (filter_length_le (fun m0 => negb (String.eqb (m_Id m0) (m_Id m))) l). lia.
  - apply elem_of_cons in Hm as [->|Hm]; [done|]. specialize (IH Hm). lia.
Qed.

Section LocalLoop.
Context (e : Engine) (req : AssembleRequest) (index : ProtocolIndex) (pinned : gset string).

(** Every round but the last removes a message. *)
Lemma local_loop_total fuel localCtx :
  length localCtx < fuel -> is_Some (local_loop e req index pinned fuel localCtx).
Proof.
  revert localCtx. induction fuel as [|fuel IH]; intros l Hf; [lia|]. cbn [local_loop].
  destruct (closeRoots _ _ _) as [groups| |]; [|eauto..].
  destruct (wireTokens _ _ _ _ _ _ _) as [total| |]; [|eauto..].
  destruct (fits req total); [eauto|]. destruct (String.eqb_spec (oldestUnpinned l pinned) "") as [|Hne]; [eauto|].
  apply IH. apply oldestUnpinned_spec in Hne as (m & Hm & Hid & _).
  pose proof (removeMessage_length l (oldestUnpinned l pinned)) as Hl. assert (length (removeMessage l (oldestUnpinned l pinned)) < length l); [eauto|lia].
Qed.

Lemma local_loop_ok fuel l localCtx groups wire :
  local_loop e req index pinned fuel l = Some (Ok (localCtx, groups, wire)) ->
  closeRoots index localCtx None = Ok groups /\ wire = groupsToWire groups ∅ /\
  (forall m, m ∈ localCtx -> m ∈ l) /\ (forall m, m ∈ l -> m_Id m ∈ pinned -> m ∈ localCtx) /\
  exists total, wireTokens e (rq_CountText req) (rq_System req) [] wire (rq_FixedTokens req) (rq_PerMsgDelim req) = Ok total /\
    fits req total = true.
Proof.
  revert l. induction fuel as [|fuel IH]; intros l; [done|]. cbn [local_loop].
  destruct (closeRoots index l None) as [gs| |] eqn:Ec; [|done..].
  destruct (wireTokens _ _ _ _ (groupsToWire gs ∅) _ _) as [total| |] eqn:Ew; [|done..].
  destruct (fits req total) eqn:Ef.
  { intros [= <- <- <-]. split; [done|]. split; [done|]. split; [done|]. split; [done|]. by exists total. }
  destruct (String.eqb_spec (oldestUnpinned l pinned) "") as [|Hne]; [done|].
  apply oldestUnpinned_spec in Hne as (x & _ & _ & Hpin). intros H.
  destruct (IH _ H) as (H1 & H2 & H3 & H4 & H5). split; [done|]. split; [done|]. split; [|split; [|done]].
  - intros m Hm. by apply H3, removeMessage_spec in Hm as [? _].
  - intros m Hm Hp. apply H4; [|done]. apply removeMessage_spec. split; [done|]. intros Heq. by rewrite Heq in Hp.
Qed.
End LocalLoop.

Section ShedLoop.
Context (e : Engine) (req : AssembleRequest) (localIDs : gset string)
        (corpusByID : gmap string Message) (protocolSel : ProtocolIndex)
        (selected : list SelectedMessage) (localWire : list LLMMessage).
Let selected_groups := selected_groups localIDs corpusByID protocolSel selected.
Let shed_loop := shed_loop e req localIDs corpusByID protocolSel selected localWire.
Let final_wire := final_wire req localIDs localWire.

(** The roots a pass closes: selected, not dropped, not delivered already. *)
Definition live (dropped : gset string) (id : string) : Prop :=
  exists s, s ∈ selected /\ sm_MessageId s = id /\ id ∉ dropped /\ id ∉ localIDs.

Record closed_groups (dropped : gset string) (groups : list DeliveryGroup) : Prop := {
  cl_closed : forall g, g ∈ groups -> group_closed protocolSel g;
  cl_fresh : forall g m, g ∈ groups -> m ∈ dg_Messages g -> m_Id m ∉ localIDs;
  cl_root : forall g, g ∈ groups -> exists s root, s ∈ selected /\ live dropped (sm_MessageId s) /\
    corpusByID !! sm_MessageId s = Some root /\ dg_RootID g = m_Id root /\
    dg_Score g = f64_of_f32 (sm_EffectiveScore s);
  cl_roots : forall g id, g ∈ groups -> id ∈ dg_RootIDs g -> exists sid root,
    live dropped sid /\ corpusByID !! sid = Some root /\ id = m_Id root;
  cl_own : forall g, g ∈ groups -> dg_RootID g ∈ dg_RootIDs g
}.

Lemma close_selected_closed dropped l groups groups' :
  (forall s, s ∈ l -> s ∈ selected) ->
  closed_groups dropped groups ->
  foldM (close_selected localIDs corpusByID protocolSel dropped) groups l = Ok groups' ->
  closed_groups dropped groups'.
Proof.
  intros Hsub Hg. apply (foldM_ok_inv (closed_groups dropped)); [done|].
  intros s c c' Hs [C1 C2 C3 C4 C5] H. unfold close_selected in H.
  destruct (bool_decide_reflect (sm_MessageId s ∈ dropped)) as [Hd|Hd]; cbn [orb] in H; [by injection H as <-|].
  destruct (bool_decide_reflect (sm_MessageId s ∈ localIDs)) as [Hl|Hl]; [by injection H as <-|].
  destruct (corpusByID !! sm_MessageId s) as [root|] eqn:Er; [|done].
  destruct (run_close _ _ _) as [g| |] eqn:Ec; [|done..]. injection H as <-.
  destruct (groupOverlaps g localIDs) eqn:Eo; [done|].
  apply run_close_ok in Ec as (R1 & R2 & R3 & _ & _ & R6 & _).
  assert (live dropped (sm_MessageId s)) as Hlive by (exists s; auto).
  split; setoid_rewrite elem_of_app; setoid_rewrite list_elem_of_singleton.
  - intros x [?| ->]; auto.
  - intros x m [?| ->]; [by eapply C2|]. intros Hm Hin.
    assert (groupOverlaps g localIDs = true) as Ht; [|congruence].
    apply existsb_exists. exists m. by rewrite <- list_elem_of_In, bool_decide_eq_true.
  - intros x [?| ->]; [auto|]. exists s, root. auto 10.
  - intros x id [?| ->]; [by apply C4|]. rewrite R2. intros ->%list_elem_of_singleton. eauto.
  - intros x [?| ->]; [auto|]. rewrite R1, R2. by left.
Qed.

Lemma selected_groups_closed dropped groups :
  selected_groups dropped = Ok groups -> closed_groups dropped groups.
Proof.
  unfold selected_groups, Assembly.selected_groups. destruct (foldM _ _ _) as [gs| |] eqn:E; [|done..].
  apply close_selected_closed in E as [C1 C2 C3 C4 C5]; [|done|split; by intros ? ?%elem_of_nil || (intros ? ? ?%elem_of_nil; done)].
  unfold sort_groups. destruct (_ && _); [done|]. intros [= <-].
  split; intros g; rewrite ?elem_of_sort_stable.
  - intros ((x & Hx & Hm) & _ & _)%merge_from. unfold group_closed. rewrite Hm. by apply C1.
  - intros m. rewrite elem_of_sort_stable. intros ((x & Hx & ->) & _ & _)%merge_from. by apply C2.
  - intros (_ & (x & Hx & -> & ->) & _)%merge_from. by apply C3.
  - intros id. rewrite elem_of_sort_stable. intros (_ & _ & Hr)%merge_from Hid.
    destruct (Hr id Hid) as (x & Hx & Hin). by eapply C4.
  - by apply merge_root.
Qed.

(** What the loop returns: groups within the budget, and what was dropped. *)
Lemma shed_loop_ok fuel st r :
  shed_loop fuel st = Some (Ok r) ->
  selected_groups (sd_dropped r) = Ok (sd_groups r) /\ sd_wire r = final_wire (sd_groups r) /\
  wireTokens e (rq_CountText req) None (sd_wire r) [] (rq_FixedTokens req) (rq_PerMsgDelim req) = Ok (sd_total r) /\
  fits req (sd_total r) = true /\ sh_dropped st ⊆ sd_dropped r /\
  (flt (sh_price st) f0 = false -> flt (sd_price r) f0 = false).
Proof.
  unfold shed_loop. revert st. induction fuel as [|fuel IH]; intros st; [done|]. cbn [Assembly.shed_loop].
  fold selected_groups. destruct (selected_groups (sh_dropped st)) as [groups| |] eqn:Eg; [|done..].
  destruct (wireTokens _ _ _ (Assembly.final_wire _ _ _ groups) _ _ _) as [total| |] eqn:Ew; [|done..].
  destruct (fits req total) eqn:Ef.
  { intros [= <-]. simpl. auto 10. }
  destruct (lowestDensityGroup _ _ _ _ _) as [memo [[drop|]| |]]; [|done..].
  destruct (densityOf _ _ _ _ _) as [memo' [d| |]]; [|done..].
  intros H. destruct (IH _ H) as (H1 & H2 & H3 & H4 & H5 & H6). simpl in H5, H6.
  do 4 (split; [done|]). split; [set_solver|]. intros Hp. apply H6.
  destruct (flt (sh_price st) d) eqn:Ed; [|done].
  destruct (flt d f0) eqn:E0; [|done]. by rewrite (flt_trans _ _ _ Ed E0) in Hp.
Qed.
(** *** Densities *)

(** The cost of a group, and its density at the cost the memo holds. *)
Definition group_cost (g : DeliveryGroup) : outcome Z :=
  c ← wireTokens e (rq_CountText req) None (groupsToWire [g] localIDs) [] 0 (rq_PerMsgDelim req);
  Ok (if (c <? 1)%Z then 1%Z else c).
Definition evidence_density (g : DeliveryGroup) (c : Z) : float :=
  fdiv (fsub (bitsFromConfidence (dg_Score g)) (stanceBits (LossRatio (en_cfg e)))) (f64_of_Z c).

Definition memo_from (gs : list DeliveryGroup) (memo memo' : gmap string Z) : Prop :=
  memo ⊆ memo' /\
  forall id c, memo' !! id = Some c -> memo !! id = Some c \/
    exists g, g ∈ gs /\ dg_RootID g = id /\ group_cost g = Ok c.

Lemma densityOf_spec g memo memo' d :
  densityOf e req localIDs g memo = (memo', Ok d) ->
  memo_from [g] memo memo' /\ exists c, memo' !! dg_RootID g = Some c /\ d = evidence_density g c.
Proof.
  unfold densityOf, costOf, mbind, gom_bind, mret, gom_ret, memo_from.
  destruct (memo !! dg_RootID g) as [c|] eqn:Em.
  - intros [= <- <-]. split; [split; [done|auto]|by exists c].
  - destruct (wireTokens _ _ _ _ _ _ _) as [c| |] eqn:Ew; [|done..]. intros [= <- <-]. split.
    + split; [by apply insert_subseteq|]. intros id x. rewrite lookup_insert. case_decide as Hd; [|auto].
      intros [= <-]. right. exists g. split; [by left|]. split; [done|]. unfold group_cost. by rewrite Ew.
    + eexists. split; [apply lookup_insert_eq|done].
Qed.

(** Left to right, the group kept is never beaten by one seen so far. *)
Lemma lowest_loop_spec gs memo low best memo' r :
  foldM (M := GoM (gmap string Z))
    (fun (acc : float * option DeliveryGroup) g =>
       d ← densityOf e req localIDs g; mret (if flt d acc.1 then (d, Some g) else acc))
    (low, best) gs memo = (memo', Ok r) ->
  memo_from gs memo memo' /\
  (r.1 = low \/ flt r.1 low = true) /\
  (forall g, g ∈ gs -> exists c, memo' !! dg_RootID g = Some c /\ flt (evidence_density g c) r.1 = false) /\
  ((r.2 = best /\ r.1 = low) \/
   exists g c, g ∈ gs /\ r.2 = Some g /\ memo' !! dg_RootID g = Some c /\ r.1 = evidence_density g c).
Proof.
  revert memo low best. induction gs as [|g gs IH]; intros memo low best; cbn [foldM].
  { intros [= <- <-]. split; [split; [done|auto]|]. split; [auto|]. split; [by intros ? ?%elem_of_nil|auto]. }
  unfold mbind, gom_bind, mret, gom_ret.
  destruct (densityOf e req localIDs g memo) as [m1 [d| |]] eqn:Ed; [|done..].
  apply densityOf_spec in Ed as ([Hs1 Hm1] & c & Hc & ->). set (d := evidence_density g c) in *. intros H.
  assert (exists low1 best1, (if flt d low then (d, Some g) else (low, best)) = (low1, best1) /\
    (low1 = low \/ flt low1 low = true) /\ flt d low1 = false /\
    ((best1 = best /\ low1 = low) \/ (best1 = Some g /\ low1 = d))) as (low1 & best1 & He & Hl1 & Hd1 & Hb1).
  { destruct (flt d low) eqn:E; do 2 eexists; (split; [reflexivity|]); rewrite ?flt_irrefl; auto 10. }
  cbn [fst] in H. rewrite He in H. destruct (IH _ _ _ H) as ([Hs Hm] & H1 & H2 & H3). clear IH H He.
  assert (memo' !! dg_RootID g = Some c) as Hc' by (eapply lookup_weaken; eauto).
  split; [|split; [|split]].
  - split; [by etransitivity|]. intros id x Hx. destruct (Hm id x Hx) as [Hy|(y & ? & ? & ?)].
    + destruct (Hm1 id x Hy) as [|(y & ->%list_elem_of_singleton & ? & ?)]; [auto|]. right. exists g.
      split; [by left|done].
    + right. exists y. split; [by right|done].
  - destruct H1 as [->|H1], Hl1 as [->|Hl1]; auto. right. by eapply flt_trans.
  - intros x [->|Hx]%elem_of_cons; [|auto]. exists c. split; [done|]. fold d.
    destruct H1 as [->|H1]; [done|]. destruct (flt d r.1) eqn:E; [|done]. by rewrite (flt_trans _ _ _ E H1) in Hd1.
  - destruct H3 as [[-> ->]|(x & y & ? & ? & ? & ?)]; [|right; exists x, y; split; [by right|done]].
    destruct Hb1 as [[-> ->]|[-> ->]]; [auto|]. right. exists g, c. split; [by left|done].
Qed.

Lemma lowestDensityGroup_in gs memo memo' drop :
  lowestDensityGroup e req localIDs gs memo = (memo', Ok (Some drop)) -> drop ∈ gs.
Proof.
  unfold lowestDensityGroup, mbind at 1, gom_bind at 1, mret, gom_ret.
  match goal with |- context [foldM ?f ?b gs memo] => destruct (foldM f b gs memo) as [m [r| |]] eqn:E end; [|done..].
  apply lowest_loop_spec in E as (_ & _ & _ & H). intros [= _ Hr]. rewrite Hr in H.
  destruct H as [[? _]|(g & c & ? & ? & _)]; congruence.
Qed.

(** *** Termination *)

Hypothesis corpus_ids : forall id m, corpusByID !! id = Some m -> m_Id m = id.

Definition live_count (dropped : gset string) : nat :=
  length (filter (fun s => sm_MessageId s ∉ dropped /\ sm_MessageId s ∉ localIDs) selected).

Lemma live_count_drop dropped dropped' id :
  live dropped id -> id ∈ dropped' -> dropped ⊆ dropped' -> live_count dropped' < live_count dropped.
Proof.
  intros (s & Hs & <- & Hd & Hl) Hin Hsub. unfold live_count. clear corpus_ids.
  induction selected as [|x l IH]; [by apply elem_of_nil in Hs|].
  assert (length (filter (fun s => sm_MessageId s ∉ dropped' /\ sm_MessageId s ∉ localIDs) l) <=
    length (filter (fun s => sm_MessageId s ∉ dropped /\ sm_MessageId s ∉ localIDs) l)) as Hle.
  { clear -Hsub. induction l as [|y l IHl]; [done|]. rewrite !filter_cons.
    repeat case_decide; simpl; try lia. exfalso. set_solver. }
  rewrite !filter_cons. apply elem_of_cons in Hs as [->|Hs].
  - rewrite (decide_False (P := _ ∉ dropped' /\ _)) by tauto. rewrite decide_True by done. simpl. lia.
  - specialize (IH Hs). repeat case_decide; simpl; try lia. exfalso. set_solver.
Qed.

Lemma shed_loop_total fuel st :
  live_count (sh_dropped st) < fuel -> is_Some (shed_loop fuel st).
Proof.
  unfold shed_loop. revert st. induction fuel as [|fuel IH]; intros st Hf; [lia|]. cbn [Assembly.shed_loop].
  fold selected_groups. destruct (selected_groups (sh_dropped st)) as [groups| |] eqn:Eg; [|eauto..].
  destruct (wireTokens _ _ _ _ _ _ _) as [total| |]; [|eauto..].
  destruct (fits req total); [eauto|].
  destruct (lowestDensityGroup _ _ _ _ _) as [memo [[drop|]| |]] eqn:El; [|eauto..].
  destruct (densityOf _ _ _ _ _) as [memo' [d| |]]; [|eauto..].
  apply IH. apply lowestDensityGroup_in in El. apply selected_groups_closed in Eg as [_ _ _ C4 C5].
  destruct (C4 drop _ El (C5 drop El)) as (sid & root & Hlive & Hroot & Hid).
  rewrite (corpus_ids _ _ Hroot) in Hid.
  eapply Nat.lt_le_trans; [|apply Nat.lt_succ_r; exact Hf]. eapply live_count_drop; [exact Hlive| |].
  - simpl. rewrite <- Hid. apply elem_of_union_r, elem_of_list_to_set, C5, El.
  - simpl. set_solver.
Qed.
(** The price only moves when something is dropped. *)
Lemma shed_loop_price fuel st r :
  shed_loop fuel st = Some (Ok r) ->
  sd_price r = sh_price st \/ exists id, id ∈ sd_dropped r /\ id ∉ sh_dropped st.
Proof.
  unfold shed_loop. destruct fuel as [|fuel]; [done|]. cbn [Assembly.shed_loop].
  fold selected_groups. destruct (selected_groups (sh_dropped st)) as [groups| |] eqn:Eg; [|done..].
  destruct (wireTokens _ _ _ (Assembly.final_wire _ _ _ groups) _ _ _) as [total| |]; [|done..].
  destruct (fits req total); [intros [= <-]; auto|].
  destruct (lowestDensityGroup _ _ _ _ _) as [memo [[drop|]| |]] eqn:El; [|done..].
  destruct (densityOf _ _ _ _ _) as [memo' [d| |]]; [|done..].
  intros H. fold shed_loop in H. apply shed_loop_ok in H as (_ & _ & _ & _ & Hsub & _). right.
  apply lowestDensityGroup_in in El. apply selected_groups_closed in Eg as [_ _ _ C4 C5].
  destruct (C4 drop _ El (C5 drop El)) as (sid & root & (s & _ & <- & Hd & _) & Hroot & Hid).
  rewrite (corpus_ids _ _ Hroot) in Hid. exists (dg_RootID drop). split; [|by rewrite Hid].
  apply Hsub. simpl. apply elem_of_union_r, elem_of_list_to_set, C5, El.
Qed.
End ShedLoop.

(** ** A successful call *)

(** Everything that happened in a call that returned a result. *)
Record assembled `{!MapRange string, !SliceSort} (e : Engine) (req : AssembleRequest) (e' : Engine)
    (res : AssembleResult) (anchor : Message) (store : CorpusStore) (peers : list Message)
    (localCtx : list Message) (localWire : list LLMMessage) (e1 : Engine)
    (corpusByID : gmap string Message) (peers' : list Message) (sd : shed_result) : Prop := {
  as_anchor : rq_Anchor req = Some anchor;
  as_focus : exists m, lastSemantic (rq_LocalContext req) (rq_CurrentTurnID req) = Some m /\ m_Id m = m_Id anchor;
  as_store : rq_Store req = Some store;
  as_peers : TurnPeers store (rq_LocalContext req) = Ok peers;
  as_local : local_loop e req (NewProtocolIndex (rq_LocalContext req ++ peers))
    (pinnedLocalIDs (rq_LocalContext req) (m_Id anchor)) (S (length (rq_LocalContext req))) (rq_LocalContext req) =
    Some (Ok (localCtx, ar_LocalGroups res, localWire));
  as_choose : choose e req anchor (ar_SerializedLocalContext res) =
    (e1, Ok (ar_Edges res, PrerequisiteSelection (ar_Telemetry res), ar_Selection res));
  as_corpus : Messages store (sm_MessageId <$> sr_Selected (ar_Selection res)) = Ok corpusByID;
  as_peers' : TurnPeers store (map_range corpusByID).*2 = Ok peers';
  as_shed : shed_loop e1 req (delivered_ids (ar_LocalGroups res)) corpusByID
    (NewProtocolIndex ((map_range corpusByID).*2 ++ peers')) (sr_Selected (ar_Selection res)) localWire
    (S (length (sr_Selected (ar_Selection res))))
    {| sh_dropped := list_to_set (rq_ExcludeIDs req); sh_price := f0; sh_memo := ∅ |} = Some (Ok sd);
  as_publish : setPrice e1 (rq_ThreadID req) (sd_price sd) = Ok e';
  as_wire : ar_Wire res = sd_wire sd;
  as_delivered : ar_Delivered res = sd_groups sd;
  as_total : TotalTokens (ar_Telemetry res) = sd_total sd;
  as_budget : EffectiveBudget (ar_Telemetry res) = effective_budget req;
  as_price : RealizedPrice (ar_Telemetry res) = sd_price sd;
  as_shed_ids : ar_Shed res = sort_strings (range_set (sd_dropped sd))
}.

Lemma protocolScope_ok msgs store p :
  protocolScope msgs (Some store) = Ok p ->
  exists peers, TurnPeers store msgs = Ok peers /\ p = NewProtocolIndex (msgs ++ peers).
Proof. unfold protocolScope. destruct (TurnPeers _ _); [|done..]. intros [= <-]. eauto. Qed.

Lemma Assemble_ok `{!MapRange string, !SliceSort} e req e' res :
  Assemble e req = (e', Ok res) ->
  exists anchor store peers localCtx localWire e1 corpusByID peers' sd,
    assembled e req e' res anchor store peers localCtx localWire e1 corpusByID peers' sd.
Proof.
  unfold Assemble. destruct (rq_Anchor req) as [anchor|] eqn:Ea; [|done].
  destruct (rq_LocalContext req) as [|m0 l0] eqn:El; [done|]. rewrite <- El. clear El.
  destruct (lastSemantic _ _) as [m|] eqn:Em; [|done].
  destruct (String.eqb_spec (m_Id m) (m_Id anchor)) as [Hid|]; [|done]. cbn [negb].
  destruct (protocolScope (rq_LocalContext req) _) as [pl| |] eqn:Ep; [|done..].
  destruct (local_loop _ _ _ _ _ _) as [[[[localCtx groups] wire]| |]|] eqn:Eloc; [|done..].
  unfold finish. destruct (serialize _ _ _) as [sl| |]; [|done..].
  destruct (choose _ _ _ _) as [e1 [[[edges tel] selected]| |]] eqn:Ech; [|done..].
  destruct (shed_selected _ _ _ _ _) as [sd| |] eqn:Esh; [|done..].
  destruct (setPrice _ _ _) as [e2| |] eqn:Epr; [|done..].
  intros [= <- <-]. unfold shed_selected in Esh.
  destruct (rq_Store req) as [store|] eqn:Est; [|done].
  apply protocolScope_ok in Ep as (peers & Hp & ->).
  destruct (Messages _ _) as [corpusByID| |] eqn:Eco; [|done..].
  destruct (protocolScope _ (Some store)) as [ps| |] eqn:Eps; [|done..].
  apply protocolScope_ok in Eps as (peers' & Hp' & ->).
  destruct (shed_loop _ _ _ _ _ _ _ _ _) as [o|] eqn:Eloop; [|done]. simpl in Esh. subst o.
  exists anchor, store, peers, localCtx, wire, e1, corpusByID, peers', sd.
  split; try done. by exists m.
Qed.

Lemma wireTokens_cfg e e1 count sys head tail fixed delim :
  en_cfg e1 = en_cfg e -> wireTokens e1 count sys head tail fixed delim = wireTokens e count sys head tail fixed delim.
Proof. unfold wireTokens. by intros ->. Qed.

Lemma choose_ok `{!MapRange string, !SliceSort} e req anchor sl e1 edges tel sel :
  choose e req anchor sl = (e1, Ok (edges, tel, sel)) ->
  event_effect e e1 edges /\
  (forall prior, rq_PriorSelection req = Some prior -> e1 = e /\ edges = [] /\ sel = prior).
Proof.
  unfold choose. destruct (rq_PriorSelection req) as [prior|].
  { intros [= <- <- _ <-]. split; [apply effect_id|]. by intros ? [= <-]. }
  destruct sl as [loc|]; [|intros [= <- <- _ <-]; split; [apply effect_id|done]].
  destruct (selectPrerequisitesLocked _ _ _ _ _) as [e2 [[[ed te] fl]| |]] eqn:El; [|done..].
  apply locked_effect in El as [He _].
  destruct (selectLocked _ _ _ _ _) as [s| |]; [|done..]. destruct (rerank _ _ _); [|done..].
  by intros [= <- <- _ <-].
Qed.

Lemma effect_fields e e1 edges :
  event_effect e e1 edges -> en_cfg e1 = en_cfg e /\ en_price e1 = en_price e.
Proof. by intros (sc & _ & ->). Qed.

(** C2: a returned assembly respects its budget and prices it honestly.  The
    reported total is the recount of the wire returned, and with a positive
    budget it does not exceed the effective budget.  The realized price is
    never negative, and it is zero unless a selected message was shed. *)
Theorem Assemble_within_budget `{!MapRange string, !SliceSort} (e : Engine) (req : AssembleRequest)
    (e' : Engine) (res : AssembleResult)
    (Hstore : forall s, rq_Store req = Some s -> StoreContract s)
    (Hrun : Assemble e req = (e', Ok res)) :
  wireTokens e (rq_CountText req) None (ar_Wire res) [] (rq_FixedTokens req) (rq_PerMsgDelim req) =
    Ok (TotalTokens (ar_Telemetry res)) /\
  EffectiveBudget (ar_Telemetry res) = effective_budget req /\
  ((0 < rq_Budget req)%Z -> (TotalTokens (ar_Telemetry res) <= effective_budget req)%Z) /\
  flt (RealizedPrice (ar_Telemetry res)) f0 = false /\
  (RealizedPrice (ar_Telemetry res) = f0 \/ exists id, id ∈ ar_Shed res /\ id ∉ rq_ExcludeIDs req).
Proof.
  destruct (Assemble_ok _ _ _ _ Hrun) as (anchor & store & peers & localCtx & localWire & e1 & corpusByID & peers' & sd & []).
  apply choose_ok in as_choose0 as [[Hcfg _]%effect_fields _].
  pose proof (shed_loop_ok _ _ _ _ _ _ _ _ _ _ as_shed0) as (_ & _ & Hw & Hf & _ & Hp).
  rewrite as_wire0, as_total0, as_price0, <- (wireTokens_cfg e e1) by done.
  split; [done|]. split; [done|]. split; [|split; [by apply Hp|]].
  { unfold fits in Hf. intros Hpos. apply orb_true_iff in Hf as [Hf|Hf]; lia. }
  destruct (Hstore store as_store0) as [Hids].
  apply shed_loop_price in as_shed0 as [->|(id & Hin & Hn)]; [by left|right|].
  - exists id. rewrite as_shed_ids0, elem_of_sort_strings, elem_of_range_set. split; [done|].
    intros He. apply Hn. simpl. by apply elem_of_list_to_set.
  - intros id m Hm. by destruct (Hids _ _ _ _ as_corpus0 Hm).
Qed.

Lemma Assemble_prior `{!MapRange string, !SliceSort} (e : Engine) (req : AssembleRequest)
    (prior : SelectionResult) (Hprior : rq_PriorSelection req = Some prior) :
  let '(e', r) := Assemble e req in
  en_dag e' = en_dag e /\ en_scores e' = en_scores e /\
  match r with Ok res => ar_Selection res = prior /\ ar_Edges res = [] | _ => True end.
Proof.
  unfold Assemble. destruct (rq_Anchor req) as [anchor|]; [|done].
  destruct (rq_LocalContext req) as [|m0 l0] eqn:El; [done|]. rewrite <- El. clear El.
  destruct (match lastSemantic _ _ with Some _ => _ | None => _ end); [done|].
  destruct (protocolScope _ _); [|done..].
  destruct (local_loop _ _ _ _ _ _) as [[[[localCtx groups] wire]| |]|]; [|done..].
  unfold finish. destruct (serialize _ _ _) as [sl| |]; [|done..].
  unfold choose. rewrite Hprior. destruct (shed_selected _ _ _ _ _) as [sd| |]; [|done..].
  unfold setPrice. by destruct (en_price e).
Qed.

(** An overflow retry reuses the earlier selection.  With a prior
    selection the call selects nothing: whatever it returns, the DAG and the
    score cache are untouched, and a success returns that selection verbatim
    with no edges. *)
Theorem Assemble_reuses_prior `{!MapRange string, !SliceSort} (e : Engine) (req : AssembleRequest)
    (prior : SelectionResult) (Hprior : rq_PriorSelection req = Some prior) :
  let '(e', r) := Assemble e req in
  en_dag e' = en_dag e /\ en_scores e' = en_scores e /\
  match r with Ok res => ar_Selection res = prior /\ ar_Edges res = [] | _ => True end.
Proof. by apply Assemble_prior. Qed.

(** Assembly needs a price map and a store.  A forked engine never
    completes an assembly (publishing the price panics), and neither does a
    request without a store. *)
Theorem Assemble_needs `{!MapRange string, !MapRange scoreKey, !SliceSort} (e e' : Engine)
    (req : AssembleRequest) (res : AssembleResult) :
  Assemble (Fork e) req <> (e', Ok res) /\
  ~ (rq_Store req = None /\ Assemble e req = (e', Ok res)).
Proof.
  split.
  - intros Hrun.
    destruct (Assemble_ok _ _ _ _ Hrun) as (anchor & store & peers & localCtx & localWire & e1 & corpusByID & peers' & sd & []).
    apply choose_ok in as_choose0 as [[_ Hprice]%effect_fields _]. unfold setPrice in as_publish0.
    by rewrite Hprice in as_publish0.
  - intros [Hnone Hrun].
    destruct (Assemble_ok _ _ _ _ Hrun) as (anchor & store & peers & localCtx & localWire & e1 & corpusByID & peers' & sd & []).
    congruence.
Qed.

(** ** What goes on the wire *)

(** Every protocol block of [ms] has, in [pool], a unique exact counterpart,
    and a message of that id is among [ms]. *)
Definition paired (pool ms : list Message) : Prop :=
  forall m b, m ∈ ms -> b ∈ m_Content m -> protocol_block b = true ->
    exists m', resolves pool m b m' /\ m_Id m' ∈ m_Id <$> ms.

Lemma wire_paired pool groups already :
  (forall g, g ∈ groups -> group_closed (NewProtocolIndex pool) g) ->
  (forall g m, g ∈ groups -> m ∈ dg_Messages g -> m_Id m ∉ already) ->
  paired pool (wire_messages groups already).
Proof.
  intros Hcl Hfresh m b Hm Hb Hp. destruct (wire_messages_spec groups already) as (_ & W2 & W3).
  destruct (W2 m Hm) as (_ & g & Hg & Hin). destruct (Hcl g Hg m b Hin Hb) as (o & Ho & Hid).
  pose proof (counterpart_spec pool m b) as Hs. rewrite Ho in Hs. destruct o as [m'|]; [|congruence].
  exists m'. split; [done|]. specialize (Hid m' eq_refl). apply list_elem_of_fmap in Hid as (x & Hx & Hxg).
  rewrite Hx. apply W3. split; [apply elem_of_group_ids; eauto|]. by eapply Hfresh.
Qed.

(** *** Pinned messages *)

(** Ids do not contain the separator the closure key is built with. *)
Definition nul_free (s : string) : Prop := forall i, String.get i s <> Some (Ascii.ascii_of_nat 0).

Lemma nul_split a b x y :
  nul_free a -> nul_free b -> a ^^ nul ^^ x = b ^^ nul ^^ y -> a = b /\ x = y.
Proof.
  revert b. induction a as [|c a IH]; intros [|c' b] Ha Hb H; rewrite ?append_cons in H.
  - injection H as H. done.
  - exfalso. injection H as <- _. by apply (Hb 0).
  - exfalso. injection H as -> _. by apply (Ha 0).
  - injection H as -> H. assert (a = b /\ x = y) as [-> ->]; [|done].
    apply IH; [intros i; apply (Ha (S i))|intros i; apply (Hb (S i))|done].
Qed.

Lemma closureKey_cons m l : closureKey (m :: l) = m_ThreadId m ^^ nul ^^ m_Id m ^^ nul ^^ closureKey l.
Proof.
  unfold closureKey. cbn [fold_left].
  assert (forall l acc, fold_left (fun key m => key ^^ m_ThreadId m ^^ nul ^^ m_Id m ^^ nul) l acc =
    acc ^^ fold_left (fun key m => key ^^ m_ThreadId m ^^ nul ^^ m_Id m ^^ nul) l "") as Hl.
  { induction l0 as [|x l0 IH]; intros acc; cbn [fold_left]; [by rewrite append_nil_r|].
    rewrite IH, (IH (_ ^^ _)). by rewrite !append_assoc. }
  rewrite Hl. by rewrite !append_assoc.
Qed.

Definition clean (m : Message) : Prop := nul_free (m_Id m) /\ nul_free (m_ThreadId m).

Lemma closureKey_inj l1 l2 :
  Forall clean l1 -> Forall clean l2 -> closureKey l1 = closureKey l2 -> m_Id <$> l1 = m_Id <$> l2.
Proof.
  revert l2. induction l1 as [|a l1 IH]; intros [|b l2] H1 H2 H; [done|..].
  - exfalso. rewrite closureKey_cons in H. destruct (m_ThreadId b); discriminate.
  - exfalso. rewrite closureKey_cons in H. destruct (m_ThreadId a); discriminate.
  - apply Forall_cons in H1 as [[A1 A2] H1], H2 as [[B1 B2] H2]. rewrite !closureKey_cons in H.
    apply nul_split in H as [_ H]; [|done|done]. apply nul_split in H as [Hid H]; [|done|done].
    rewrite !fmap_cons, Hid. f_equal. by apply IH.
Qed.

Lemma last_In {A} (l : list A) x : last l = Some x -> x ∈ l.
Proof. rewrite last_lookup. apply list_elem_of_lookup_2. Qed.

(** The current exchange is never shed.  However small the budget, a
    returned assembly delivers the anchor and the latest user and assistant
    messages with semantic content of the Local Context. *)
Theorem pinned_delivered `{!MapRange string, !SliceSort} (e : Engine) (req : AssembleRequest)
    (e' : Engine) (res : AssembleResult) (anchor m : Message) (role : Role)
    (Hclean : forall s peers, rq_Store req = Some s -> TurnPeers s (rq_LocalContext req) = Ok peers ->
       Forall clean (rq_LocalContext req ++ peers))
    (Hrun : Assemble e req = (e', Ok res))
    (Hanchor : rq_Anchor req = Some anchor)
    (Hrole : role = ROLE_USER \/ role = ROLE_ASSISTANT)
    (Hlast : last_of_role (rq_LocalContext req) role = Some m) :
  m_Id anchor ∈ group_ids (ar_LocalGroups res) /\ m_Id m ∈ group_ids (ar_LocalGroups res).
Proof.
  destruct (Assemble_ok _ _ _ _ Hrun) as (anchor' & store & peers & localCtx & localWire & e1 & corpusByID & peers' & sd & []).
  rewrite Hanchor in as_anchor0. injection as_anchor0 as <-. destruct as_focus0 as (f & Hf & Hfid).
  apply local_loop_ok in as_local0 as (Hclose & _ & Hsub & Hkeep & _).
  apply closeRoots_groups in Hclose as [Hmsgs Hroots]. specialize (Hclean _ _ as_store0 as_peers0).
  set (pool := rq_LocalContext req ++ peers) in *.
  assert (forall ms, ms ⊆ localCtx ++ index_pool (NewProtocolIndex pool) -> Forall clean ms) as Hcl.
  { intros ms Hms. apply Forall_forall. intros y [Hy|Hy%index_pool_corpus]%Hms%elem_of_app;
      rewrite Forall_forall in Hclean; apply Hclean; [|done]. unfold pool. apply Hsub in Hy. set_solver. }
  assert (forall x, x ∈ rq_LocalContext req -> m_Id x ∈ pinnedLocalIDs (rq_LocalContext req) (m_Id anchor) ->
    m_Id x ∈ group_ids (ar_LocalGroups res)) as Hdel.
  { intros x Hx Hpin. destruct (Hroots x (Hkeep x Hx Hpin)) as (g & ms & Hg & Hxm & Hsubm & Hk).
    apply closureKey_inj in Hk; [|apply Hcl; by destruct (Hmsgs g Hg)|by apply Hcl].
    apply (list_elem_of_fmap_2 m_Id) in Hxm. rewrite <- Hk in Hxm. apply list_elem_of_fmap in Hxm as (y & -> & Hy).
    apply elem_of_group_ids. eauto. }
  unfold last_of_role, lastSemantic in *. apply last_In in Hf. apply list_elem_of_In, filter_In in Hf as [Hf _].
  pose proof (last_In _ _ Hlast) as Hm. apply list_elem_of_In, filter_In in Hm as [Hm _].
  rewrite <- list_elem_of_In in Hf, Hm.
  assert (m_Id anchor ∈ pinnedLocalIDs (rq_LocalContext req) (m_Id anchor) /\
    m_Id m ∈ pinnedLocalIDs (rq_LocalContext req) (m_Id anchor)) as [P1 P2].
  { unfold pinnedLocalIDs, last_of_role, pin. destruct (rq_LocalContext req) as [|x l]; [by apply elem_of_nil in Hm|].
    destruct Hrole as [->| ->]; rewrite Hlast; repeat case_match; set_solver. }
  split; [|by apply Hdel]. rewrite <- Hfid. apply Hdel; [done|]. by rewrite Hfid.
Qed.


(** C25: assembly terminates.  The Local Context loop removes a message per
    round, and, when the store keeps its contract, each round of the shed drops
    a selected message for good, so the fuel both loops are given is enough. *)
Theorem assembly_terminates (e : Engine) (req : AssembleRequest) (index : ProtocolIndex)
    (pinned : gset string) (localIDs : gset string) (ids : list string) (corpusByID : gmap string Message)
    (store : CorpusStore) (Hstore : StoreContract store) (Hcorpus : Messages store ids = Ok corpusByID)
    (protocolSel : ProtocolIndex) (selected : list SelectedMessage) (localWire : list LLMMessage) (st : shed_state) :
  is_Some (local_loop e req index pinned (S (length (rq_LocalContext req))) (rq_LocalContext req)) /\
  is_Some (shed_loop e req localIDs corpusByID protocolSel selected localWire (S (length selected)) st).
Proof.
  split; [apply local_loop_total; lia|]. apply shed_loop_total.
  - intros id m Hm. by destruct (messages_by_id _ _ _ _ Hcorpus Hm).
  - unfold live_count. pose proof (length_filter (fun s => sm_MessageId s ∉ sh_dropped st /\ sm_MessageId s ∉ localIDs) selected). lia.
Qed.

(** The shed is greedy by density.  The group it drops has the least
    evidence per token of all (each cost being that group's own wire cost, at
    least 1, or the one memoised earlier); when it finds none, no group has a
    density below infinity. *)
Theorem lowestDensityGroup_least (e : Engine) (req : AssembleRequest) (localIDs : gset string)
    (groups : list DeliveryGroup) (memo memo' : gmap string Z) (r : option DeliveryGroup)
    (Hrun : lowestDensityGroup e req localIDs groups memo = (memo', Ok r)) :
  memo_from e req localIDs groups memo memo' /\
  forall g, g ∈ groups -> exists c, memo' !! dg_RootID g = Some c /\
    match r with
    | Some drop => drop ∈ groups /\ exists c', memo' !! dg_RootID drop = Some c' /\
        flt (evidence_density e g c) (evidence_density e drop c') = false
    | None => flt (evidence_density e g c) finf = false
    end.
Proof.
  unfold lowestDensityGroup, mbind at 1, gom_bind at 1, mret, gom_ret in Hrun.
  match type of Hrun with context [foldM ?f ?b groups memo] => destruct (foldM f b groups memo) as [m [q| |]] eqn:E end; [|done..].
  injection Hrun as -> <-. apply lowest_loop_spec in E as (H1 & _ & H3 & H4). split; [done|].
  intros g Hg. destruct (H3 g Hg) as (c & Hc & Hlt). exists c. split; [done|].
  destruct H4 as [[-> H4]|(x & c' & Hx & -> & Hcx & H4)]; rewrite H4 in Hlt; [done|].
  split; [done|]. by exists c'.
Qed.

(** ** A concrete assembly *)

Module SampleAssembly.
Definition text (s : string) : ContentBlock := BText {| tx_Text := s |}.
Definition msg (id : string) (role : Role) (pos : Z) (content : list ContentBlock) : Message :=
  {| m_Id := id; m_Role := role; m_Content := content; m_Position := pos; m_ThreadId := "t";
     m_CreatedAt := None; m_TurnId := "turn" |}.
Definition window : list Message := [msg "w" ROLE_USER 9 [text "query"]].
Definition anchor : Message := msg "w" ROLE_USER 9 [text "query"].
(** The selected message makes a call; its result is a turn peer. *)
Definition corpus : list Message :=
  [msg "hit" ROLE_ASSISTANT 1 [text "hit"; Protocol.Sample.call "1"];
   msg "res" ROLE_USER 2 [Protocol.Sample.result "1"]].
Definition store : CorpusStore := {|
  Messages := fun ids => Ok (list_to_map ((fun m => (m_Id m, m)) <$> filter (fun m => m_Id m ∈ ids) corpus));
  TurnPeers := fun ms => Ok (filter (fun m => m_Id m ∉ (m_Id <$> ms)) corpus) |}.
Definition request (budget : Z) (prior : option SelectionResult) : AssembleRequest := {|
  rq_SerializedLocalContext := Some SampleEvent.loc; rq_Anchor := Some anchor; rq_Store := Some store;
  rq_LocalContext := window; rq_Scope := SELECTION_SCOPE_THREAD; rq_ThreadID := "t"; rq_System := None;
  rq_Budget := budget; rq_HeadroomPct := f0; rq_PerMsgDelim := 1; rq_FixedTokens := 0; rq_ExcludeIDs := [];
  rq_CurrentTurnID := "turn"; rq_CountText := None; rq_PriorSelection := prior |}.
Definition run (req : AssembleRequest) : Engine * outcome AssembleResult :=
  @Assemble canonical_range stable_slice_sort SampleEvent.engine req.
(** A budget that fits everything, and one that does not. *)
Definition result (budget : Z) : option AssembleResult :=
  match (run (request budget None)).2 with Ok r => Some r | _ => None end.
Definition wide : option AssembleResult := Eval vm_compute in result 100.
Definition tight : option AssembleResult := Eval vm_compute in result 15.
Definition none : AssembleResult :=
  {| ar_Wire := []; ar_Selection := empty_selection anchor (request 0 None); ar_SerializedLocalContext := None;
     ar_Edges := []; ar_Shed := []; ar_Delivered := []; ar_LocalGroups := [];
     ar_Telemetry := {| SelectedCount := 0; LocalContextCount := 0; ClosureCount := 0; SheddedCount := 0;
       TotalTokens := 0; EffectiveBudget := 0; RealizedPrice := f0; PrerequisiteSelection := no_telemetry |} |}.
Definition wide_result : AssembleResult := default none wide.
Definition tight_result : AssembleResult := default none tight.
End SampleAssembly.

#[export] Instance SampleAssembly_contract : StoreContract SampleAssembly.store.
Proof.
  split. intros ids m id x [= <-] Hx. apply elem_of_list_to_map_2 in Hx.
  apply list_elem_of_fmap in Hx as (y & [= -> ->] & [Hy _]%list_elem_of_filter). done.
Qed.

Lemma SampleAssembly_run budget res :
  (SampleAssembly.run (SampleAssembly.request budget None)).2 = Ok res ->
  SampleAssembly.run (SampleAssembly.request budget None) =
  ((SampleAssembly.run (SampleAssembly.request budget None)).1, Ok res).
Proof. intros <-. apply surjective_pairing. Qed.

Lemma SampleAssembly_wide : (SampleAssembly.run (SampleAssembly.request 100 None)).2 = Ok SampleAssembly.wide_result.
Proof. vm_compute. reflexivity. Qed.
Lemma SampleAssembly_tight : (SampleAssembly.run (SampleAssembly.request 15 None)).2 = Ok SampleAssembly.tight_result.
Proof. vm_compute. reflexivity. Qed.

Lemma SampleAssembly_store budget s :
  rq_Store (SampleAssembly.request budget None) = Some s -> StoreContract s.
Proof. intros [= <-]. apply SampleAssembly_contract. Qed.

(** Under the tight budget the selected pair is shed, at a positive price. *)
Lemma Assemble_within_budget_witness :
  (SampleAssembly.run (SampleAssembly.request 15 None)).2 = Ok SampleAssembly.tight_result /\
  ar_Shed SampleAssembly.tight_result = ["hit"] /\
  flt f0 (RealizedPrice (ar_Telemetry SampleAssembly.tight_result)) = true /\
  (TotalTokens (ar_Telemetry SampleAssembly.tight_result) <= 15)%Z.
Proof.
  split; [exact SampleAssembly_tight|]. split; [reflexivity|]. split; [reflexivity|].
  apply (@Assemble_within_budget canonical_range stable_slice_sort SampleEvent.engine (SampleAssembly.request 15 None)
    _ SampleAssembly.tight_result (SampleAssembly_store 15) (SampleAssembly_run 15 _ SampleAssembly_tight)).
  reflexivity.
Defined.


Lemma Assemble_reuses_prior_witness :
  let prior := ar_Selection SampleAssembly.wide_result in
  en_dag (SampleAssembly.run (SampleAssembly.request 15 (Some prior))).1 = en_dag SampleEvent.engine.
Proof.
  intros prior.
  pose proof (@Assemble_reuses_prior canonical_range stable_slice_sort SampleEvent.engine
    (SampleAssembly.request 15 (Some prior)) prior eq_refl) as H.
  unfold SampleAssembly.run. destruct (Assemble _ _) as [e' r]. exact (proj1 H).
Defined.

Lemma assembly_terminates_witness :
  StoreContract SampleAssembly.store /\
  is_Some (local_loop SampleEvent.engine (SampleAssembly.request 15 None) (NewProtocolIndex []) ∅ 2 SampleAssembly.window).
Proof.
  split; [exact SampleAssembly_contract|].
  exact (proj1 (assembly_terminates SampleEvent.engine (SampleAssembly.request 15 None) (NewProtocolIndex []) ∅ ∅
    [] _ SampleAssembly.store SampleAssembly_contract eq_refl (NewProtocolIndex []) [] []
    {| sh_dropped := ∅; sh_price := f0; sh_memo := ∅ |})).
Defined.

Lemma lowestDensityGroup_least_witness :
  let gs := ar_Delivered SampleAssembly.wide_result in
  exists memo drop,
    lowestDensityGroup SampleEvent.engine (SampleAssembly.request 15 None) {["w"]} gs ∅ = (memo, Ok (Some drop)) /\
    forall g, g ∈ gs -> drop ∈ gs.
Proof.
  intros gs. destruct (lowestDensityGroup SampleEvent.engine (SampleAssembly.request 15 None) {["w"]} gs ∅)
    as [memo o] eqn:E.
  pose proof E as E'. vm_compute in E'. injection E' as Hm Ho. subst o.
  eexists memo, _. split; [reflexivity|]. intros g Hg.
  destruct (proj2 (lowestDensityGroup_least _ _ _ _ _ _ _ E) g Hg) as (c & _ & Hd & _). exact Hd.
Defined.

Lemma pinned_delivered_witness :
  last_of_role SampleAssembly.window ROLE_USER = Some SampleAssembly.anchor /\
  "w" ∈ group_ids (ar_LocalGroups SampleAssembly.tight_result).
Proof.
  split; [reflexivity|].
  refine (proj1 (@pinned_delivered canonical_range stable_slice_sort SampleEvent.engine (SampleAssembly.request 15 None)
    _ SampleAssembly.tight_result SampleAssembly.anchor SampleAssembly.anchor ROLE_USER _
    (SampleAssembly_run 15 _ SampleAssembly_tight) eq_refl (or_introl eq_refl) eq_refl)).
  intros s peers [= <-] Hp. vm_compute in Hp. injection Hp as <-.
  repeat (constructor; [split; intros i; do 4 (destruct i as [|i]; [discriminate|]); destruct i; discriminate|]).
  constructor.
Defined.
