(* ===== verification/Bridge.v ===== *)
(** * The model bridge ([adkbridge/rrcllm.go])

    One outbound call: window, anchor, budget conversion, the overflow-retry
    loop around [Engine.Assemble], delivery to the ADK iterator, and what is
    recorded after it.  The provider, the corpus and the consumer of the
    iterator are inputs; the callbacks and the learner's observations are the
    events of a trace. *)

From Stdlib Require Import ZArith Lia String Ascii.
From S2P Require Import Prelude GoFloat GoSort GoStrings Errors Types Chunk Dag Protocol PbText LocalContext EngineConfig Selection Provenance Engine Prerequisites Assembly Genai Llm.
#[local] Open Scope nat_scope.

(** ** The request and the bridge *)

Section Types.
Context {J : Type}.

(** A schema is what [json.Marshal] makes of it. *)
Record FunctionDeclaration := {
  fd_Name : string;
  fd_Description : string;
  fd_ParametersJsonSchema : option (outcome string);
  fd_Parameters : option (outcome string)
}.

Record GenConfig := {
  gc_SystemInstruction : option (Content (J := J));
  gc_Tools : list (list FunctionDeclaration);
  gc_Temperature : option float;
  gc_TopP : option float;
  gc_MaxOutputTokens : Z
}.

Record LLMRequest := {
  lr_Model : string;
  lr_Contents : list (Content (J := J));
  lr_Config : option GenConfig
}.

Record LLMResponse := {
  rs_Content : option (Content (J := J));
  rs_Partial : bool;
  rs_TurnComplete : bool;
  rs_ErrorMessage : string
}.

(** What the outside sees of a call. *)
Inductive Ev :=
  | EvYield (r : option LLMResponse) (e : option goerr)
  | EvStream (delta thinking : string) (done : bool)
  | EvSelection (r : SelectionResult)
  | EvEdge (e : Edge)
  | EvAssemble (t : AssembleTelemetry)
  | EvUsage (predicted : Z) (u : Usage)
  | EvObserve (predicted observed budget : Z).

End Types.
Arguments LLMRequest : clear implicits.
Arguments LLMResponse : clear implicits.
Arguments GenConfig : clear implicits.
Arguments Ev : clear implicits.

(** The bounded reads the bridge makes of the corpus. *)
Record BridgeStore := {
  RecentMessages : string -> Z -> outcome (list Message);
  TurnMessages : string -> string -> outcome (list Message);
  PrecedingTurnID : string -> string -> outcome string;
  bs_Corpus : CorpusStore
}.

(** The bridge without its engine; a callback is present or nil, [br_Scales]
    is what [Scales.Scale()] returns. *)
Record RRCLLM := {
  br_db : BridgeStore;
  br_threadID : string;
  br_Scope : SelectionScope;
  br_CurrentTurnID : string;
  br_OnStream : bool;
  br_OnSelection : bool;
  br_OnEdge : bool;
  br_OnAssemble : bool;
  br_OnUsage : bool;
  br_Scales : option float;
  br_CountText : option (LLMMessage -> string)
}.

(** ** Pure helpers *)

Definition merge_take (acc : gset string * list Message) (m : Message) : gset string * list Message :=
  if bool_decide (m_Id m ∈ acc.1) then acc else ({[m_Id m]} ∪ acc.1, acc.2 ++ [m]).

Definition mergeByPosition (a b : list Message) : list Message :=
  sort_stable (fun x y => (m_Position x <? m_Position y)%Z) (fold_left merge_take (a ++ b) (∅, [])).2.

Definition lowestSurvivingScore (result : option SelectionResult) (excludedIDs : list string) : string :=
  match result with
  | None => ""
  | Some r =>
      (fold_left (fun (acc : string * float) s =>
         let score := f64_of_f32 (sm_EffectiveScore s) in
         if negb (bool_decide (sm_MessageId s ∈ excludedIDs)) && flt score acc.2 then (sm_MessageId s, score) else acc)
       (sr_Selected r) ("", finf)).1
  end.

(** The delivered turn record, then the selected prerequisites that carry
    evidence. *)
Definition contributors (turnRecord : list Message) (selection : option SelectionResult) : list Contributor :=
  ((fun m => {| co_MessageID := m_Id m; co_ThreadID := m_ThreadId m; co_Weight := f1 |}) <$> turnRecord) ++
  match selection with
  | None => []
  | Some sel =>
      (fun s => {| co_MessageID := sm_MessageId s; co_ThreadID := sm_ThreadId s;
                   co_Weight := f64_of_f32 (sm_ProvenanceWeight s) |})
      <$> List.filter (fun s => negb (fle (f64_of_f32 (sm_ProvenanceWeight s)) f0)) (sr_Selected sel)
  end.

Section Bridge.

Context {J : Type} `{Json J} `{!MapRange string, !SliceSort}.

(** [json.Marshal] of the wrapper struct of one tool declaration, by name,
    description and raw parameters. *)
Context (tool_json : string -> string -> string -> outcome string).

(** The provider, and whether the consumer wants more after what it has
    seen. *)
Context (completer : Completer) (accept : list (Ev J) -> bool).

Definition systemMessage (req : LLMRequest J) : option LLMMessage :=
  match lr_Config req with
  | None => None
  | Some cfg =>
      match gc_SystemInstruction cfg with
      | None => None
      | Some c => Some {| lm_Role := ROLE_SYSTEM; lm_Content := lm_Content (ContentToProto c) |}
      end
  end.

Definition declaration_parameters (d : FunctionDeclaration) : string :=
  let empty := "{" ^^ quoted "type" ^^ ":" ^^ quoted "object" ^^ "," ^^ quoted "properties" ^^ ":{}}" in
  match fd_ParametersJsonSchema d with
  | Some data => match data with Ok s => s | _ => empty end
  | None => match fd_Parameters d with
            | Some data => match data with Ok s => s | _ => empty end
            | None => empty
            end
  end.

Definition toolDeclarations (req : LLMRequest J) : list ToolDeclaration :=
  match lr_Config req with
  | None => []
  | Some cfg =>
      (fun d => {| td_Name := fd_Name d; td_Description := fd_Description d;
                   td_ParametersJson := declaration_parameters d |}) <$> concat (gc_Tools cfg)
  end.

Definition completionRequest (req : LLMRequest J) (stream : bool) (messages : list LLMMessage)
    (tools : list ToolDeclaration) (contextWindow : Z) : CompletionRequest := {|
  cq_Messages := messages;
  cq_Model := lr_Model req;
  cq_MaxTokens := match lr_Config req with
                  | Some c => if (0 <? gc_MaxOutputTokens c)%Z then Some (gc_MaxOutputTokens c) else None
                  | None => None
                  end;
  cq_Temperature := match lr_Config req with Some c => gc_Temperature c | None => None end;
  cq_TopP := match lr_Config req with Some c => gc_TopP c | None => None end;
  cq_Stop := [];
  cq_Stream := stream;
  cq_Tools := tools;
  cq_ToolChoice := None;
  cq_ContextWindowTokens := if (0 <? contextWindow)%Z then Some (wrapi32 contextWindow) else None
|}.

Definition estimateToolSchemaTokens (tools : list ToolDeclaration) (chunkCfg : Config) : outcome Z :=
  foldM (fun total tool =>
    let parameters := if String.eqb (td_ParametersJson tool) "" then "{}" else td_ParametersJson tool in
    match tool_json (td_Name tool) (td_Description tool) parameters with
    | Ok data =>
        match Estimate chunkCfg data with
        | Ok n => Ok (wrap64 (total + n))
        | Err e => Err e
        | Panic s => Panic s
        end
    | _ => Ok total
    end) 0%Z tools.

Definition parseToolArgs (raw : string) : option J :=
  match unmarshal raw with
  | Ok args => args
  | _ => Some (single "raw" raw)
  end.

(** ** The world of a call *)

Record World := { w_engine : Engine; w_calls : nat; w_trace : list (Ev J) }.

Definition note (ev : Ev J) : GoM World unit := fun w =>
  ({| w_engine := w_engine w; w_calls := w_calls w; w_trace := w_trace w ++ [ev] |}, Ok tt).

Definition note_if (installed : bool) (ev : Ev J) : GoM World unit :=
  if installed then note ev else mret tt.

Definition yield (r : option (LLMResponse J)) (e : option goerr) : GoM World bool := fun w =>
  let trace := w_trace w ++ [EvYield r e] in
  ({| w_engine := w_engine w; w_calls := w_calls w; w_trace := trace |}, Ok (accept trace)).

Definition yield_error (e : goerr) : GoM World unit := _ ← yield None (Some e); mret tt.

(** A call of the provider: the [n]-th of this request. *)
Definition call {A} (f : nat -> A) : GoM World A := fun w =>
  ({| w_engine := w_engine w; w_calls := S (w_calls w); w_trace := w_trace w |}, Ok (f (w_calls w))).

Definition text_content (text : string) : Content (J := J) := {| ct_Role := "model"; ct_Parts := [text_part text] |}.

(** What a send returns: usage and the transport error. *)
Definition Sent : Type := option Usage * option goerr.

Definition tryComplete (req : CompletionRequest) : GoM World Sent :=
  r ← call (fun n => Complete completer n req);
  match r with
  | inr err => mret (None, Some err)
  | inl response =>
      _ ← yield (Some {| rs_Content := Some (ProtoToContent (cs_Message response)); rs_Partial := false;
                         rs_TurnComplete := true; rs_ErrorMessage := "" |}) None;
      mret (cs_Usage response, None)
  end.

Definition finishEmpty (r : RRCLLM) : GoM World unit :=
  _ ← yield (Some {| rs_Content := Some (text_content ""); rs_Partial := false; rs_TurnComplete := true;
                     rs_ErrorMessage := "" |}) None;
  note_if (br_OnStream r) (EvStream "" "" true).

(** The content a chunk's delta shows, and the callback it makes. *)
Definition call_part (c : ToolCallContent) : Part (J := J) :=
  {| pt_Text := ""; pt_Thought := false; pt_ThoughtSignature := tc_Signature c;
     pt_FunctionCall := Some {| fc_ID := tc_Id c; fc_Name := tc_Name c; fc_Args := parseToolArgs (tc_Arguments c) |};
     pt_FunctionResponse := None |}.

Definition delta_content (d : Delta) : option (Content (J := J)) :=
  match d with
  | DText t => Some (text_content (tx_Text t))
  | DThinking t => Some {| ct_Role := "model"; ct_Parts := [thinking_part (th_Text t) (th_Signature t)] |}
  | DToolCall c => Some {| ct_Role := "model"; ct_Parts := [call_part c] |}
  | _ => None
  end.

Definition delta_callback (r : RRCLLM) (d : Delta) : GoM World unit :=
  match d with
  | DText t => note_if (br_OnStream r) (EvStream (tx_Text t) "" false)
  | DThinking t => note_if (br_OnStream r && negb (String.eqb (th_Text t) "")) (EvStream "" (th_Text t) false)
  | _ => mret tt
  end.

Definition delta_pending (d : Delta) (pending : list (Part (J := J))) : list (Part (J := J)) :=
  match d with DToolCall c => pending ++ [call_part c] | _ => pending end.

(** The terminal response of a [Done] chunk. *)
Definition done_response (chunk : StreamChunk) (pending : list (Part (J := J))) : LLMResponse J := {|
  rs_Content :=
    match pending with
    | _ :: _ => Some {| ct_Role := "model"; ct_Parts := pending |}
    | [] => match delta_content (sc_Delta chunk) with Some c => Some c | None => Some (text_content "") end
    end;
  rs_Partial := false;
  rs_TurnComplete := true;
  rs_ErrorMessage := default "" (sc_Error chunk)
|}.

Definition partial_response (chunk : StreamChunk) : LLMResponse J :=
  {| rs_Content := delta_content (sc_Delta chunk); rs_Partial := true; rs_TurnComplete := false; rs_ErrorMessage := "" |}.

Definition finish_stream (r : RRCLLM) (chunk : StreamChunk) (pending : list (Part (J := J))) : GoM World Sent :=
  _ ← note_if (br_OnStream r) (EvStream "" "" true);
  _ ← yield (Some (done_response chunk pending)) None;
  mret (match sc_Error chunk with Some _ => None | None => sc_Usage chunk end, None).

Definition broken_stream (err : goerr) : GoM World Sent :=
  _ ← yield (Some {| rs_Content := None; rs_Partial := false; rs_TurnComplete := true;
                     rs_ErrorMessage := err_text err |}) None;
  mret (None, None).

(** The loop over the chunks: [chunk] is at hand, [rest] is still to pull. *)
Fixpoint stream_loop (r : RRCLLM) (chunk : StreamChunk) (rest : list (StreamChunk + goerr))
    (pendingCalls : list (Part (J := J))) : GoM World Sent :=
  _ ← delta_callback r (sc_Delta chunk);
  let pendingCalls := delta_pending (sc_Delta chunk) pendingCalls in
  if sc_Done chunk then finish_stream r chunk pendingCalls
  else
    more ← yield (Some (partial_response chunk)) None;
    if negb more then mret (None, None)
    else match rest with
         | [] => _ ← finishEmpty r; mret (None, None)
         | inr err :: _ => broken_stream err
         | inl chunk' :: rest' => stream_loop r chunk' rest' pendingCalls
         end.

Definition tryStream (r : RRCLLM) (req : CompletionRequest) : GoM World Sent :=
  items ← call (fun n => Stream completer n req);
  match items with
  | [] => _ ← finishEmpty r; mret (None, None)
  | inr err :: _ => mret (None, Some err)
  | inl chunk :: rest => stream_loop r chunk rest []
  end.

(** ** After a send *)

Definition observeUsage (r : RRCLLM) (predicted budget : Z) (usage : option Usage) : GoM World unit :=
  match usage with
  | None => mret tt
  | Some u =>
      _ ← note_if (br_OnUsage r) (EvUsage predicted u);
      note_if (match br_Scales r with Some _ => true | None => false end && (0 <? PromptTokens u)%Z)
        (EvObserve predicted (PromptTokens u) budget)
  end.

Definition publish_edges (r : RRCLLM) (edges : list Edge) : GoM World unit :=
  foldM (M := GoM World) (fun _ edge => note_if (br_OnEdge r) (EvEdge edge)) tt edges.

Definition recordProvenance (r : RRCLLM) (anchor : option Message) (turnRecord : list Message)
    (selection : option SelectionResult) : GoM World unit :=
  match anchor with
  | None => mret tt
  | Some _ => fun w =>
      let '(e, edges) := RecordProvenance (w_engine w) anchor (contributors turnRecord selection) in
      publish_edges r edges {| w_engine := e; w_calls := w_calls w; w_trace := w_trace w |}
  end.

(** ** The call *)

Definition call_assemble (req : AssembleRequest) : GoM World (AssembleResult + goerr) := fun w =>
  let '(e, o) := Assemble (w_engine w) req in
  let w := {| w_engine := e; w_calls := w_calls w; w_trace := w_trace w |} in
  match o with
  | Ok res => (w, Ok (inl res))
  | Err err => (w, Ok (inr err))
  | Panic s => (w, Panic s)
  end.

Definition send (r : RRCLLM) (stream : bool) (req : CompletionRequest) : GoM World Sent :=
  if stream then tryStream r req else tryComplete req.

(** What the overflow loop keeps fixed. *)
Record CallEnv := {
  ce_request : LLMRequest J;
  ce_stream : bool;
  ce_tools : list ToolDeclaration;
  ce_anchor : Message;
  ce_turnRecord : list Message;
  ce_budget : Z;
  ce_window : Z;
  ce_assemble : list string -> option SelectionResult -> AssembleRequest
}.

(** The callbacks of one assembly: edges and the selection the first time,
    telemetry every time. *)
Definition publish (r : RRCLLM) (published : bool) (result : AssembleResult) : GoM World unit :=
  _ ← (if published then mret tt
       else
         _ ← publish_edges r (ar_Edges result);
         note_if (br_OnSelection r && match ar_SerializedLocalContext result with Some _ => true | None => false end)
           (EvSelection (ar_Selection result)));
  note_if (br_OnAssemble r) (EvAssemble (ar_Telemetry result)).

(** Sending one assembled wire: [Some drop] asks for a retry without that
    group. *)
Definition attempt (r : RRCLLM) (env : CallEnv) (excludeIDs : list string) (result : AssembleResult)
    : GoM World (option string) :=
  sent ← send r (ce_stream env)
           (completionRequest (ce_request env) (ce_stream env) (ar_Wire result) (ce_tools env) (ce_window env));
  match sent with
  | (usage, None) =>
      _ ← observeUsage r (TotalTokens (ar_Telemetry result)) (ce_budget env) usage;
      _ ← recordProvenance r (Some (ce_anchor env)) (ce_turnRecord env) (Some (ar_Selection result));
      mret None
  | (_, Some sendErr) =>
      if negb (IsContextOverflow (Some sendErr)) then _ ← yield_error sendErr; mret None
      else
        let drop := lowestSurvivingScore (Some (ar_Selection result)) excludeIDs in
        if String.eqb drop "" then
          _ ← yield_error (EWrap "context window exceeded after shedding all selected groups: " sendErr "");
          mret None
        else mret (Some drop)
  end.

Fixpoint overflow_loop (r : RRCLLM) (env : CallEnv) (fuel : nat) (excludeIDs : list string)
    (published : bool) (prior : option SelectionResult) (w : World) : option (World * outcome unit) :=
  match fuel with
  | O => None
  | S fuel' =>
      match call_assemble (ce_assemble env excludeIDs prior) w with
      | (w, Panic s) => Some (w, Panic s)
      | (w, Err e) => Some (w, Err e)
      | (w, Ok (inr err)) => Some (yield_error err w)
      | (w, Ok (inl result)) =>
          match (_ ← publish r published result; attempt r env excludeIDs result) w with
          | (w, Panic s) => Some (w, Panic s)
          | (w, Err e) => Some (w, Err e)
          | (w, Ok None) => Some (w, Ok tt)
          | (w, Ok (Some drop)) =>
              overflow_loop r env fuel' (excludeIDs ++ [drop]) true (Some (ar_Selection result)) w
          end
      end
  end.

Definition forwardCurrentTurn (r : RRCLLM) (req : LLMRequest J) (stream : bool) (system : option LLMMessage)
    (tools : list ToolDeclaration) (window : Z) : GoM World unit :=
  let messages := option_list system ++ (ContentToProto <$> lr_Contents req) in
  sent ← send r stream (completionRequest req stream messages tools window);
  match sent with
  | (_, Some err) => yield_error err
  | (usage, None) => observeUsage r 0 0 usage
  end.

(** [window] and [effTurnID] *)
Definition discourse_window (r : RRCLLM) (recent turnMsgs : list Message)
    : outcome (list Message * string) :=
  let db := br_db r in
  if negb (String.eqb (br_CurrentTurnID r) "") && negb (length turnMsgs =? 0) then
    match PrecedingTurnID db (br_threadID r) (br_CurrentTurnID r) with
    | Ok precedingID =>
        if String.eqb precedingID "" then Ok (mergeByPosition [] turnMsgs, br_CurrentTurnID r)
        else match TurnMessages db (br_threadID r) precedingID with
             | Ok preceding => Ok (mergeByPosition preceding turnMsgs, br_CurrentTurnID r)
             | Err e => Err (EWrap "load preceding turn: " e "")
             | Panic s => Panic s
             end
    | Err e => Err (EWrap "load preceding turn id: " e "")
    | Panic s => Panic s
    end
  else Ok (recent, "").

(** The learned scale converts the budget when it is positive. *)
Definition converted_budget (r : RRCLLM) (contextBudget : Z) : Z :=
  match br_Scales r with
  | Some s => if flt f0 s then int_of_f64 (fdiv (f64_of_Z contextBudget) s) else contextBudget
  | None => contextBudget
  end.

Definition assemble_request (r : RRCLLM) (cfg : EngineConfig) (serialized : option SerializedLocalContext)
    (anchor : Message) (window : list Message) (effTurnID : string) (system : option LLMMessage)
    (budget fixed : Z) (excludeIDs : list string) (prior : option SelectionResult) : AssembleRequest := {|
  rq_SerializedLocalContext := serialized;
  rq_Anchor := Some anchor;
  rq_Store := Some (bs_Corpus (br_db r));
  rq_LocalContext := window;
  rq_Scope := br_Scope r;
  rq_ThreadID := br_threadID r;
  rq_System := system;
  rq_Budget := budget;
  rq_HeadroomPct := BudgetHeadroomPct cfg;
  rq_PerMsgDelim := PerMsgDelimiterTokens cfg;
  rq_FixedTokens := fixed;
  rq_ExcludeIDs := excludeIDs;
  rq_CurrentTurnID := effTurnID;
  rq_CountText := br_CountText r;
  rq_PriorSelection := prior
|}.

(** The body of the iterator [GenerateContent] returns. *)
Definition GenerateContent (r : RRCLLM) (fuel : nat) (req : LLMRequest J) (stream : bool) (w : World)
    : option (World * outcome unit) :=
  let systemMsg := systemMessage req in
  let protoTools := toolDeclarations req in
  let cfg := en_cfg (w_engine w) in
  match RecentMessages (br_db r) (br_threadID r) (LocalContextSize cfg) with
  | Panic s => Some (w, Panic s)
  | Err err => Some (yield_error (EWrap "load recent messages: " err "") w)
  | Ok [] => Some (forwardCurrentTurn r req stream systemMsg protoTools (ContextBudgetTokens cfg) w)
  | Ok recent =>
      match TurnMessages (br_db r) (br_threadID r) (br_CurrentTurnID r) with
      | Panic s => Some (w, Panic s)
      | Err err => Some (yield_error (EWrap "load turn messages: " err "") w)
      | Ok turnMsgs =>
          match discourse_window r recent turnMsgs with
          | Panic s => Some (w, Panic s)
          | Err err => Some (yield_error err w)
          | Ok (window, effTurnID) =>
              let turnRecord := BuildActiveDiscourse window effTurnID (LocalContextSize cfg) in
              match last (SemanticMessages turnRecord) with
              | None =>
                  Some (yield_error (ENew ("RRC: no semantic Local Context in the active turn (" ^^
                                           itoa (Z.of_nat (length turnRecord)) ^^ " record messages)")) w)
              | Some anchor =>
                  match (match lr_Contents req with
                         | [] => Ok None
                         | _ => SerializeLocalContext window effTurnID (cfg_Chunk cfg)
                         end),
                        estimateToolSchemaTokens protoTools (cfg_Chunk cfg) with
                  | Ok serialized, Ok fixed =>
                      let budget := converted_budget r (ContextBudgetTokens cfg) in
                      overflow_loop r
                        {| ce_request := req; ce_stream := stream; ce_tools := protoTools; ce_anchor := anchor;
                           ce_turnRecord := turnRecord; ce_budget := budget; ce_window := ContextBudgetTokens cfg;
                           ce_assemble := assemble_request r cfg serialized anchor window effTurnID systemMsg budget fixed |}
                        fuel [] false None w
                  | Panic s, _ | Ok _, Panic s => Some (w, Panic s)
                  | Err err, _ | Ok _, Err err => Some (w, Err err)
                  end
              end
          end
      end
  end.


(** ** Proofs *)

(** [m] started where [P] holds returns normally where [Q] holds. *)
Definition triple {A} (P : World -> Prop) (m : GoM World A) (Q : A -> World -> Prop) : Prop :=
  forall w, P w -> exists w' a, m w = (w', Ok a) /\ Q a w'.

Lemma trace_ret {A} (a : A) P (Q : A -> World -> Prop) : (forall w, P w -> Q a w) -> triple P (mret a) Q.
Proof. intros HQ w HP. exists w, a. auto. Qed.

Lemma trace_bind {A B} (m : GoM World A) (f : A -> GoM World B) P R Q :
  triple P m R -> (forall a, triple (R a) (f a) Q) -> triple P (m ≫= f) Q.
Proof.
  intros Hm Hf w HP. destruct (Hm w HP) as (w1 & a & E & HR). destruct (Hf a w1 HR) as (w2 & b & E2 & HQ).
  exists w2, b. split; [|done]. unfold mbind, gom_bind. by rewrite E.
Qed.

Lemma trace_weaken {A} (m : GoM World A) (P P' : World -> Prop) (Q Q' : A -> World -> Prop) :
  triple P m Q -> (forall w, P' w -> P w) -> (forall a w, Q a w -> Q' a w) -> triple P' m Q'.
Proof. intros Hm HP HQ w Hw. destruct (Hm w (HP w Hw)) as (w' & a & E & H'). eauto. Qed.

Lemma trace_pre {A} (m : GoM World A) (P P' : World -> Prop) (Q : A -> World -> Prop) :
  triple P m Q -> (forall w, P' w -> P w) -> triple P' m Q.
Proof. intros Hm HP w Hw. apply Hm. auto. Qed.

Definition is_yield (ev : Ev J) : bool := match ev with EvYield _ _ => true | _ => false end.

(** Every yield so far was accepted; or every yield but possibly the last. *)
Definition open (tr : list (Ev J)) : Prop :=
  forall tr1 ev tr2, tr = tr1 ++ ev :: tr2 -> is_yield ev = true -> accept (tr1 ++ [ev]) = true.
Definition polite (tr : list (Ev J)) : Prop :=
  forall tr1 ev tr2, tr = tr1 ++ ev :: tr2 -> is_yield ev = true -> existsb is_yield tr2 = true ->
    accept (tr1 ++ [ev]) = true.

Lemma open_polite tr : open tr -> polite tr.
Proof. intros Ho tr1 ev tr2 E Hy _. by eapply Ho. Qed.

Lemma snoc_split {A} (tr : list A) x tr1 ev tr2 :
  tr ++ [x] = tr1 ++ ev :: tr2 ->
  (tr2 = [] /\ ev = x /\ tr1 = tr) \/ exists tr3, tr2 = tr3 ++ [x] /\ tr = tr1 ++ ev :: tr3.
Proof.
  destruct tr2 as [|y tr2 _] using rev_ind; intros E.
  - apply app_inj_tail in E as [-> ->]. by left.
  - right. exists tr2. rewrite app_comm_cons, app_assoc in E. apply app_inj_tail in E as [-> ->]. done.
Qed.

Lemma open_note tr ev : is_yield ev = false -> open tr -> open (tr ++ [ev]).
Proof.
  intros Hev Ho tr1 ev' tr2 [(-> & -> & ->)|(tr3 & -> & ->)]%snoc_split Hy; [congruence|]. by eapply Ho.
Qed.

Lemma polite_note tr ev : is_yield ev = false -> polite tr -> polite (tr ++ [ev]).
Proof.
  intros Hev Ho tr1 ev' tr2 [(-> & -> & ->)|(tr3 & -> & ->)]%snoc_split Hy; [congruence|].
  rewrite existsb_app. simpl. rewrite Hev, !orb_false_r. by eapply Ho.
Qed.

Lemma polite_yield tr ev : open tr -> polite (tr ++ [ev]).
Proof.
  intros Ho tr1 ev' tr2 [(-> & -> & ->)|(tr3 & -> & ->)]%snoc_split Hy; [done|]. intros _. by eapply Ho.
Qed.

Lemma open_yield tr ev : open tr -> accept (tr ++ [ev]) = true -> open (tr ++ [ev]).
Proof.
  intros Ho Ha tr1 ev' tr2 [(-> & -> & ->)|(tr3 & -> & ->)]%snoc_split Hy; [done|]. by eapply Ho.
Qed.

(** The states of a call: [n] provider calls made, and the consumer still
    takes values, or may have stopped. *)
Definition listening (n : nat) (e : Engine) (w : World) : Prop := w_calls w = n /\ w_engine w = e /\ open (w_trace w).
Definition ended (n : nat) (e : Engine) (w : World) : Prop := w_calls w = n /\ w_engine w = e /\ polite (w_trace w).

Lemma listening_ended n e w : listening n e w -> ended n e w.
Proof. intros (? & ? & ?). split; [done|]. split; [done|]. by apply open_polite. Qed.

(** A call begins with nothing seen. *)
Definition start (e : Engine) : World := {| w_engine := e; w_calls := 0; w_trace := [] |}.

Lemma start_listening e : listening 0 e (start e).
Proof. split; [done|]. split; [done|]. intros [|] ? ? ?; done. Qed.

Lemma note_listening n e b ev : is_yield ev = false -> triple (listening n e) (note_if b ev) (fun _ => listening n e).
Proof.
  intros Hev w (Hn & He & Ho). destruct b; [|by exists w, tt]. eexists _, tt. split; [done|].
  split; [done|]. split; [done|]. by apply open_note.
Qed.

Lemma note_ended n e b ev : is_yield ev = false -> triple (ended n e) (note_if b ev) (fun _ => ended n e).
Proof.
  intros Hev w (Hn & He & Ho). destruct b; [|by exists w, tt]. eexists _, tt. split; [done|].
  split; [done|]. split; [done|]. by apply polite_note.
Qed.

Lemma yield_spec n e r err :
  triple (listening n e) (yield r err)
    (fun more w => ended n e w /\ (more = true -> listening n e w) /\ exists tr, more = accept tr).
Proof.
  intros w (Hn & He & Ho). eexists _, _. split; [done|]. split; [|split; [|by eexists]].
  - split; [done|]. split; [done|]. by apply polite_yield.
  - intros Ha. split; [done|]. split; [done|]. by apply open_yield.
Qed.

Lemma yield_error_spec n e err : triple (listening n e) (yield_error err) (fun _ => ended n e).
Proof.
  eapply trace_bind; [apply yield_spec|]. intros more. apply trace_ret. by intros w [? _].
Qed.

Lemma call_spec {A} n e (f : nat -> A) :
  triple (listening n e) (call f) (fun a w => a = f n /\ listening (S n) e w).
Proof.
  intros w (Hn & He & Ho). eexists _, _. split; [done|]. rewrite Hn. by repeat split.
Qed.

Lemma tryComplete_spec n e req :
  triple (listening n e) (tryComplete req) (fun s w => ended (S n) e w /\
    (s.2 <> None -> listening (S n) e w)).
Proof.
  eapply trace_bind; [apply call_spec|]. intros [resp|err] w [_ Hw].
  - edestruct (yield_spec (S n) e) as (w' & more & E & Hend & _); [exact Hw|].
    eexists w', _. unfold mbind, gom_bind. rewrite E. by split.
  - eexists w, _. split; [done|]. split; [by apply listening_ended|done].
Qed.

Lemma finishEmpty_spec n e r : triple (listening n e) (finishEmpty r) (fun _ => ended n e).
Proof.
  eapply trace_bind; [apply yield_spec|]. intros more.
  eapply trace_pre; [by apply note_ended|]. by intros w [? _].
Qed.

Lemma delta_callback_spec n e r d : triple (listening n e) (delta_callback r d) (fun _ => listening n e).
Proof. destruct d; try (by apply note_listening); by apply trace_ret. Qed.

(** A chunk that ends a stream cleanly, the first [Done] of it. *)
Definition terminal (chunks : list (StreamChunk + goerr)) (c : StreamChunk) : Prop :=
  exists pre rest, chunks = (inl <$> pre) ++ inl c :: rest /\
    Forall (fun c => sc_Done c = false) pre /\ sc_Done c = true.

Lemma terminal_here c rest : sc_Done c = true -> terminal (inl c :: rest) c.
Proof. intros Hd. exists [], rest. by repeat constructor. Qed.

Lemma terminal_later c0 c rest : sc_Done c0 = false -> terminal rest c -> terminal (inl c0 :: rest) c.
Proof.
  intros Hd0 (pre & rest' & -> & Hp & Hd). exists (c0 :: pre), rest'. split; [done|]. split; [by constructor|done].
Qed.

Lemma terminal_first c0 c rest : terminal (inl c0 :: rest) c -> sc_Done c0 = true -> c = c0.
Proof.
  intros ([|c1 pre] & rest' & E & Hp & Hd) Hd0; simpl in E; [by injection E as -> _|].
  injection E as -> E. inversion Hp. congruence.
Qed.

Lemma terminal_next c0 c rest : terminal (inl c0 :: rest) c -> sc_Done c0 = false -> terminal rest c.
Proof.
  intros ([|c1 pre] & rest' & E & Hp & Hd) Hd0; simpl in E; [injection E as -> _; congruence|].
  injection E as -> ->. inversion Hp; subst. by exists pre, rest'.
Qed.

(** The usage a started stream reports is that of an error-free terminal
    chunk; a consumer that never stops gets it whenever there is one. *)
Definition stream_usage (items : list (StreamChunk + goerr)) (s : Sent) : Prop :=
  s.2 = None /\
  (forall u, s.1 = Some u -> exists c, terminal items c /\ sc_Error c = None /\ sc_Usage c = Some u) /\
  ((forall tr, accept tr = true) -> forall c, terminal items c -> sc_Error c = None -> s.1 = sc_Usage c).

Lemma stream_usage_none items : (forall c, ~ terminal items c) -> stream_usage items (None, None).
Proof. intros Hn. split; [done|]. split; [done|]. intros _ c Hc. by apply Hn in Hc. Qed.

Lemma stream_usage_next chunk rest s :
  sc_Done chunk = false -> stream_usage rest s -> stream_usage (inl chunk :: rest) s.
Proof.
  intros Hd (H1 & H2 & H3). split; [done|]. split.
  - intros u Hu. destruct (H2 u Hu) as (c & Hc & ?). exists c. split; [by apply terminal_later|done].
  - intros Ha c Hc. apply H3; [done|]. by eapply terminal_next.
Qed.

Lemma not_terminal_nil c : ~ terminal [] c.
Proof. intros ([|] & ? & ? & _); done. Qed.

Lemma not_terminal_err err rest c : ~ terminal (inr err :: rest) c.
Proof. intros ([|] & ? & ? & _); done. Qed.

Lemma finish_stream_spec r n e chunk rest pending :
  sc_Done chunk = true ->
  triple (listening n e) (finish_stream r chunk pending)
    (fun s w => ended n e w /\ stream_usage (inl chunk :: rest) s).
Proof.
  intros Hd. eapply trace_bind; [by apply note_listening|]. intros [].
  eapply trace_bind; [apply yield_spec|]. intros more. apply trace_ret. intros w [Hw _].
  split; [done|]. split; [done|]. split.
  - intros u Hu. exists chunk. split; [by apply terminal_here|]. simpl in Hu. by destruct (sc_Error chunk).
  - intros _ c Hc He. apply terminal_first in Hc as ->; [|done]. simpl. by rewrite He.
Qed.

Lemma broken_stream_spec n e err items :
  (forall c, ~ terminal items c) ->
  triple (listening n e) (broken_stream err) (fun s w => ended n e w /\ stream_usage items s).
Proof.
  intros Hi. eapply trace_bind; [apply yield_spec|]. intros more. apply trace_ret. intros w [Hw _].
  split; [done|]. by apply stream_usage_none.
Qed.

(** A partial response, then the rest of the stream unless the consumer
    stops. *)
Lemma continue_spec n e resp items (k : GoM World Sent) :
  triple (listening n e) k (fun s w => ended n e w /\ stream_usage items s) ->
  triple (listening n e) (more ← yield resp None; if negb more then mret (None, None) else k)
    (fun s w => ended n e w /\ stream_usage items s).
Proof.
  intros Hk. eapply trace_bind; [apply yield_spec|]. intros [|]; cbn [negb].
  - eapply trace_pre; [exact Hk|]. intros w (_ & Hw & _). by apply Hw.
  - apply trace_ret. intros w (Hw & _ & tr & Htr). split; [done|]. split; [done|]. split; [done|].
    intros Ha. by rewrite Ha in Htr.
Qed.

Lemma stream_loop_spec r rest n e chunk pending :
  triple (listening n e) (stream_loop r chunk rest pending)
    (fun s w => ended n e w /\ stream_usage (inl chunk :: rest) s).
Proof.
  revert chunk pending. induction rest as [|item rest IH]; intros chunk pending; cbn [stream_loop];
    (eapply trace_bind; [apply delta_callback_spec|]; intros []);
    (destruct (sc_Done chunk) eqn:Ed; [by apply finish_stream_spec|apply continue_spec]).
  - eapply trace_bind; [apply finishEmpty_spec|]. intros []. apply trace_ret. intros w Hw. split; [done|].
    apply stream_usage_next, stream_usage_none; [done|apply not_terminal_nil].
  - destruct item as [chunk'|err].
    + eapply trace_weaken; [apply IH|done|]. intros s w [Hw Hs]. split; [done|]. by apply stream_usage_next.
    + apply broken_stream_spec. intros c Hc. apply terminal_next in Hc; [|done]. by apply not_terminal_err in Hc.
Qed.

Lemma tryStream_spec r n e req :
  let items := Stream completer n req in
  triple (listening n e) (tryStream r req) (fun s w => ended (S n) e w /\
    match items with
    | inr err :: _ => s = (None, Some err) /\ listening (S n) e w
    | _ => stream_usage items s
    end).
Proof.
  eapply trace_bind; [apply call_spec|]. intros items w [-> Hw].
  destruct (Stream completer n req) as [|[chunk|err] rest].
  - revert w Hw. eapply trace_bind; [apply finishEmpty_spec|]. intros []. apply trace_ret. intros w Hw.
    split; [done|]. apply stream_usage_none, not_terminal_nil.
  - destruct (stream_loop_spec r rest (S n) e chunk [] w Hw) as (w' & s & E & Hs). by exists w', s.
  - exists w, (None, Some err). split; [done|]. split; [by apply listening_ended|done].
Qed.

Lemma send_spec r n e stream req :
  triple (listening n e) (send r stream req) (fun s w => ended (S n) e w /\ (s.2 <> None -> listening (S n) e w)).
Proof.
  unfold send. destruct stream; [|apply tryComplete_spec].
  eapply trace_weaken; [apply tryStream_spec|done|]. intros s w [Hw Hs]. split; [done|].
  destruct (Stream completer n req) as [|[chunk|err] rest]; [by destruct Hs as (-> & _)..|].
  by destruct Hs as [_ ?].
Qed.

(** The usage contract of a stream.  An error is returned exactly when the
    first thing the provider's iterator gives is an error; usage is returned
    only when the stream has a terminal chunk that carries no error, and then
    it is that chunk's - an abort, a missing terminal chunk, a mid-stream error
    and a provider error chunk all return none - and a consumer that never
    stops gets the terminal chunk's usage.  The engine is untouched. *)
Theorem tryStream_contract (r : RRCLLM) (req : CompletionRequest) (e : Engine) :
  let items := Stream completer 0 req in
  exists w usage err, tryStream r req (start e) = (w, Ok (usage, err)) /\
    w_engine w = e /\
    (forall x, err = Some x <-> exists rest, items = inr x :: rest) /\
    (forall u, usage = Some u -> exists c, terminal items c /\ sc_Error c = None /\ sc_Usage c = Some u) /\
    ((forall tr, accept tr = true) -> forall c, terminal items c -> sc_Error c = None -> usage = sc_Usage c).
Proof.
  intros items.
  destruct (tryStream_spec r 0 e req (start e) (start_listening e)) as (w & [usage err] & E & (_ & He & _) & Hs).
  exists w, usage, err. split; [exact E|]. split; [done|]. fold items in Hs.
  destruct items as [|[chunk|x] rest].
  1, 2: destruct Hs as (H1 & H2 & H3); simpl in *; subst err;
    (split; [intros x; split; [done|by intros (? & ?)]|by split]).
  destruct Hs as [[= -> ->] _]. split.
  - intros y. split; [intros [= ->]; by exists rest|by intros (? & [= ->])].
  - split; [done|]. intros _ c Hc. by apply not_terminal_err in Hc.
Qed.

(** *** After a send *)

Lemma observeUsage_spec n e r predicted budget usage :
  triple (ended n e) (observeUsage r predicted budget usage) (fun _ => ended n e).
Proof.
  destruct usage; [|by apply trace_ret]. eapply trace_bind; [by apply note_ended|]. intros []. by apply note_ended.
Qed.

Lemma publish_edges_spec (P : World -> Prop) r edges :
  (forall edge, triple P (note_if (br_OnEdge r) (EvEdge edge)) (fun _ => P)) ->
  triple P (publish_edges r edges) (fun _ => P).
Proof.
  intros Hn. unfold publish_edges. induction edges as [|edge edges IH]; [by apply trace_ret|].
  eapply trace_bind; [apply Hn|]. intros []. exact IH.
Qed.

(** The engine after provenance is recorded. *)
Definition recorded (r : RRCLLM) (anchor : Message) (turnRecord : list Message) (sel : SelectionResult) (e : Engine)
    : Engine := (RecordProvenance e (Some anchor) (contributors turnRecord (Some sel))).1.

Lemma recordProvenance_spec n e r anchor turnRecord sel :
  triple (ended n e) (recordProvenance r (Some anchor) turnRecord (Some sel))
    (fun _ => ended n (recorded r anchor turnRecord sel e)).
Proof.
  intros w (Hn & He & Hp). unfold recordProvenance, recorded. rewrite He.
  destruct (RecordProvenance e (Some anchor) _) as [e' edges]. cbn [fst].
  apply publish_edges_spec; [intros edge; by apply note_ended|]. by split.
Qed.

Lemma publish_spec n e r published result :
  triple (listening n e) (publish r published result) (fun _ => listening n e).
Proof.
  assert (triple (listening n e) (publish_edges r (ar_Edges result)) (fun _ => listening n e)) as He
    by (apply publish_edges_spec; intros edge; by apply note_listening).
  unfold publish. eapply trace_bind with (R := fun _ => listening n e); [|intros []; by apply note_listening].
  destruct published; [by apply trace_ret|]. eapply trace_bind; [exact He|]. intros []. by apply note_listening.
Qed.

(** *** The overflow loop *)

Definition live (sel : SelectionResult) (excl : list string) : nat :=
  length (List.filter (fun s => negb (bool_decide (sm_MessageId s ∈ excl))) (sr_Selected sel)).

Lemma lowest_in sel excl :
  lowestSurvivingScore (Some sel) excl <> "" ->
  exists s, s ∈ sr_Selected sel /\ sm_MessageId s = lowestSurvivingScore (Some sel) excl /\ sm_MessageId s ∉ excl.
Proof.
  unfold lowestSurvivingScore. set (f := fun (acc : string * float) s => _).
  assert (forall l acc,
    (fold_left f l acc).1 = acc.1 \/
    exists s, s ∈ l /\ sm_MessageId s = (fold_left f l acc).1 /\ sm_MessageId s ∉ excl) as Hl.
  { induction l as [|s l IH]; intros acc; cbn [fold_left]; [by left|].
    destruct (IH (f acc s)) as [E|(s' & Hin & E & Hx)]; [|right; exists s'; split; [by right|done]].
    rewrite E. subst f. cbn beta zeta. case_bool_decide as Hd; cbn [negb andb]; [by left|].
    destruct (flt _ _); [|by left]. right. exists s. split; [by left|done]. }
  intros Hne. by destruct (Hl (sr_Selected sel) ("", finf)) as [E|].
Qed.

Lemma filter_length_mono {A} (p q : A -> bool) l :
  (forall x, q x = true -> p x = true) -> length (List.filter q l) <= length (List.filter p l).
Proof.
  intros Hpq. induction l as [|x l IH]; simpl; [done|].
  destruct (q x) eqn:Eq; [rewrite (Hpq x Eq); simpl; lia|]. destruct (p x); simpl; lia.
Qed.

Lemma filter_length_lt {A} (p q : A -> bool) l x :
  (forall x, q x = true -> p x = true) -> x ∈ l -> p x = true -> q x = false ->
  length (List.filter q l) < length (List.filter p l).
Proof.
  intros Hpq Hx Hp Hq. apply list_elem_of_split in Hx as (l1 & l2 & ->).
  rewrite !List.filter_app, !length_app. simpl. rewrite Hp, Hq. simpl.
  pose proof (filter_length_mono p q l1 Hpq). pose proof (filter_length_mono p q l2 Hpq). lia.
Qed.

Lemma live_drop sel excl :
  lowestSurvivingScore (Some sel) excl <> "" ->
  live sel (excl ++ [lowestSurvivingScore (Some sel) excl]) < live sel excl.
Proof.
  intros (s & Hs & E & Hx)%lowest_in. rewrite <- E. apply (filter_length_lt _ _ _ s); [|done| |].
  - intros x Hn. apply negb_true_iff, bool_decide_eq_false in Hn. apply negb_true_iff, bool_decide_eq_false.
    intros Hin. apply Hn, elem_of_app. by left.
  - by apply negb_true_iff, bool_decide_eq_false.
  - apply negb_false_iff, bool_decide_eq_true, elem_of_app. right. by apply list_elem_of_singleton.
Qed.

(** An attempt makes one provider call; it asks for a retry only to drop a
    selected group that has survived, and then the consumer is still there. *)
Lemma attempt_spec n e r env excl result :
  triple (listening n e) (attempt r env excl result) (fun o w =>
    match o with
    | None => exists e', ended (S n) e' w
    | Some drop => listening (S n) e w /\ drop = lowestSurvivingScore (Some (ar_Selection result)) excl /\ drop <> ""
    end).
Proof.
  unfold attempt. eapply trace_bind; [apply send_spec|]. intros [usage [err|]]; cbn [fst snd].
  - eapply trace_pre with (P := listening (S n) e); [|by intros w [_ Hw]; apply Hw].
    destruct (negb _).
    { eapply trace_bind; [apply yield_error_spec|]. intros []. apply trace_ret. intros w Hw. by exists e. }
    destruct (String.eqb_spec (lowestSurvivingScore (Some (ar_Selection result)) excl) "").
    { eapply trace_bind; [apply yield_error_spec|]. intros []. apply trace_ret. intros w Hw. by exists e. }
    by apply trace_ret.
  - eapply trace_pre with (P := ended (S n) e); [|by intros w [Hw _]].
    eapply trace_bind; [apply observeUsage_spec|]. intros [].
    eapply trace_bind; [apply recordProvenance_spec|]. intros []. apply trace_ret. intros w Hw. eauto.
Qed.

(** How a call that makes at most [k] provider calls ends. *)
Definition ends_within (k : nat) (o : option (World * outcome unit)) : Prop :=
  exists w res, o = Some (w, res) /\ polite (w_trace w) /\ w_calls w <= k.

Lemma ended_within k m n e w res : m = (w, res) -> ended n e w -> n <= k -> ends_within k (Some m).
Proof. intros -> (Hn & _ & Hp) Hk. exists w, res. split; [done|]. split; [done|]. lia. Qed.

Section Loop.
Context (r : RRCLLM) (env : CallEnv).
Context (Hprior : forall excl prior, rq_PriorSelection (ce_assemble env excl prior) = prior).

(** One iteration, given what follows a retry. *)
Lemma overflow_step n e excl published prior w fuel k :
  listening n e w -> S n <= k ->
  (forall res e' w', Assemble e (ce_assemble env excl prior) = (e', Ok res) ->
     listening (S n) e' w' -> lowestSurvivingScore (Some (ar_Selection res)) excl <> "" ->
     ends_within k (overflow_loop r env fuel (excl ++ [lowestSurvivingScore (Some (ar_Selection res)) excl])
                      true (Some (ar_Selection res)) w')) ->
  ends_within k (overflow_loop r env (S fuel) excl published prior w).
Proof.
  intros (Hn & He & Ho) Hk Hnext. cbn [overflow_loop]. unfold call_assemble. rewrite He.
  destruct (Assemble e (ce_assemble env excl prior)) as [e' [result|err|t]] eqn:Ea.
  - assert (listening n e' {| w_engine := e'; w_calls := w_calls w; w_trace := w_trace w |}) as Hw by done.
    assert (triple (listening n e') (_ ← publish r published result; attempt r env excl result) (fun o w =>
      match o with
      | None => exists e'', ended (S n) e'' w
      | Some drop => listening (S n) e' w /\ drop = lowestSurvivingScore (Some (ar_Selection result)) excl /\ drop <> ""
      end)) as Ht.
    { eapply trace_bind; [apply publish_spec|]. intros []. apply attempt_spec. }
    destruct (Ht _ Hw) as (w' & o & E & Hr). cbn [w_engine w_calls w_trace] in E. rewrite E.
    destruct o as [drop|].
    + destruct Hr as (Hl & -> & Hne). by apply (Hnext result e').
    + destruct Hr as [e'' Hend]. by eapply ended_within.
  - edestruct (yield_error_spec n e' err) as (w' & [] & E & Hend);
      [|rewrite E; eapply ended_within; [done|exact Hend|lia]]. done.
  - eapply (ended_within k _ n e'); [done| |lia]. split; [done|]. split; [done|]. by apply open_polite.
Qed.

Lemma overflow_retry fuel n e excl sel w :
  listening n e w -> live sel excl < fuel ->
  ends_within (n + live sel excl + 1) (overflow_loop r env fuel excl true (Some sel) w).
Proof.
  revert n e excl w. induction fuel as [|fuel IH]; intros n e excl w Hw Hf; [lia|].
  apply (overflow_step n e); [done|lia|]. intros res e' w' Ha Hw' Hne.
  pose proof (Assemble_prior e _ sel (Hprior excl (Some sel))) as Hp. rewrite Ha in Hp.
  destruct Hp as (_ & _ & Hsel & _). rewrite Hsel in *. pose proof (live_drop sel excl Hne) as Hlt.
  destruct (IH (S n) e' (excl ++ [lowestSurvivingScore (Some sel) excl]) w' Hw') as (w'' & o & E & Hp & Hc); [lia|].
  exists w'', o. split; [exact E|]. split; [done|lia].
Qed.

(** From the first assembly on, one attempt per surviving group is enough. *)
Lemma overflow_total n e excl prior published w :
  listening n e w ->
  exists k, forall fuel, k <= fuel -> ends_within (n + k) (overflow_loop r env fuel excl published prior w).
Proof.
  intros Hw.
  set (k := match Assemble e (ce_assemble env excl prior) with
            | (_, Ok res) => live (ar_Selection res) excl
            | _ => 0
            end).
  exists (2 + k). intros [|fuel] Hf; [lia|]. apply (overflow_step n e); [done|lia|].
  intros res e' w' Ha Hw' Hne. subst k. rewrite Ha in *. pose proof (live_drop (ar_Selection res) excl Hne) as Hlt.
  destruct (overflow_retry fuel (S n) e' (excl ++ [lowestSurvivingScore (Some (ar_Selection res)) excl])
              (ar_Selection res) w' Hw') as (w'' & o & E & Hp & Hc); [lia|].
  exists w'', o. split; [exact E|]. split; [done|lia].
Qed.

End Loop.

(** C17: an outbound call ends, politely.  For every engine, corpus, provider
    and consumer there is a number of attempts that is enough for the
    context-overflow loop - every retry drops one more group of the selection
    made by the first assembly - so the call returns, after no more provider
    calls than that; and it never yields to an iteration that has stopped,
    which the runtime would turn into a panic. *)
Theorem GenerateContent_terminates (r : RRCLLM) (req : LLMRequest J) (stream : bool) (e : Engine) :
  exists k, forall fuel, k <= fuel -> ends_within k (GenerateContent r fuel req stream (start e)).
Proof.
  pose proof (start_listening e) as Hw.
  assert (forall res, ends_within 1 (Some (start e, res))) as Hnow
    by (intros res; eapply ended_within; [done|by apply listening_ended|lia]).
  assert (forall err, ends_within 1 (Some (yield_error err (start e)))) as Herr.
  { intros err. destruct (yield_error_spec 0 e err _ Hw) as (w & [] & E & Hend).
    rewrite E. eapply ended_within; [done|exact Hend|lia]. }
  unfold GenerateContent. destruct (RecentMessages _ _ _) as [[|m recent]| |].
  { exists 1. intros fuel _. unfold forwardCurrentTurn.
    set (creq := completionRequest _ _ _ _ _).
    assert (triple (listening 0 e) (sent ← send r stream creq; match sent with
      | (_, Some err) => yield_error err | (usage, None) => observeUsage r 0 0 usage end) (fun _ => ended 1 e)) as Ht.
    { eapply trace_bind; [apply send_spec|]. intros [usage [err|]]; cbn [snd].
      - eapply trace_pre; [apply yield_error_spec|]. intros w [_ Hl]. by apply Hl.
      - eapply trace_pre; [apply observeUsage_spec|]. by intros w [? _]. }
    destruct (Ht _ Hw) as (w & [] & E & Hend). eapply ended_within; [exact E|exact Hend|lia]. }
  2, 3: exists 1; intros fuel _; auto.
  destruct (TurnMessages _ _ _) as [turnMsgs| |]; [|exists 1; intros fuel _; auto..].
  destruct (discourse_window _ _ _) as [[window effTurnID]| |]; [|exists 1; intros fuel _; auto..].
  destruct (last _) as [anchor|]; [|exists 1; intros fuel _; auto].
  destruct (match lr_Contents req with [] => Ok None | _ => _ end) as [serialized| |];
    [|exists 1; intros fuel _; auto..].
  destruct (estimateToolSchemaTokens _ _) as [fixed| |]; [|exists 1; intros fuel _; auto..].
  match goal with |- context [overflow_loop r ?env] =>
    apply (overflow_total r env (fun _ _ => eq_refl) 0 e [] None false _ Hw)
  end.
Qed.

(** What counts as a completed turn.  A streamed attempt whose transport
    fails before anything arrives leaves the engine as it was; every other
    stream - also one that breaks off after its first chunk, ends without a
    terminal chunk, reports a provider error, or is abandoned by the consumer -
    ends the call as a success and records provenance for the anchor from the
    turn record and the selection. *)
Theorem stream_attempt_records (r : RRCLLM) (env : CallEnv) (excl : list string) (result : AssembleResult) (e : Engine)
    (Hstream : ce_stream env = true) :
  let items := Stream completer 0
    (completionRequest (ce_request env) true (ar_Wire result) (ce_tools env) (ce_window env)) in
  exists w o, attempt r env excl result (start e) = (w, Ok o) /\
    ((exists err rest, items = inr err :: rest) -> w_engine w = e) /\
    (~ (exists err rest, items = inr err :: rest) ->
       o = None /\ w_engine w = recorded r (ce_anchor env) (ce_turnRecord env) (ar_Selection result) e).
Proof.
  intros items. unfold attempt, send. rewrite Hstream. fold items.
  match goal with |- context [tryStream r ?req] => pose proof (tryStream_spec r 0 e req) as Hs end.
  cbn zeta in Hs. fold items in Hs.
  match goal with |- exists w o, ?m (start e) = _ /\ _ =>
    assert (triple (listening 0 e) m (fun o w =>
      ((exists err rest, items = inr err :: rest) -> w_engine w = e) /\
      (~ (exists err rest, items = inr err :: rest) ->
         o = None /\ w_engine w = recorded r (ce_anchor env) (ce_turnRecord env) (ar_Selection result) e))) as Ht
  end.
  - eapply trace_bind; [exact Hs|]. intros [usage [err|]].
    + eapply trace_pre with (P := fun w => listening 1 e w /\ exists rest, items = inr err :: rest).
      2: { intros w [_ Hw]. destruct items as [|[c|x] rest]; [by destruct Hw as [[=] _]..|].
           destruct Hw as [[= _ <-] Hw]. split; [done|by exists rest]. }
      intros w [Hw Hi].
      assert (forall m : GoM World (option string), triple (listening 1 e) m (fun _ => ended 1 e) ->
        exists w' o, m w = (w', Ok o) /\ ((exists err rest, items = inr err :: rest) -> w_engine w' = e) /\
          (~ (exists err rest, items = inr err :: rest) ->
           o = None /\ w_engine w' = recorded r (ce_anchor env) (ce_turnRecord env) (ar_Selection result) e)) as Hm.
      { intros m Hm. destruct (Hm w Hw) as (w' & o & E & (_ & He & _)). exists w', o. split; [done|].
        split; [done|]. intros Hn. exfalso. apply Hn. destruct Hi as [rest Hi]. eauto. }
      apply Hm. destruct (negb _); [|destruct (String.eqb _ "")].
      3: by apply trace_ret; intros; apply listening_ended.
      all: eapply trace_bind; [apply yield_error_spec|]; intros []; by apply trace_ret.
    + eapply trace_pre with (P := fun w => ended 1 e w /\ ~ exists err rest, items = inr err :: rest).
      2: { intros w [Hw Hu]. split; [done|]. intros (x & rest & Hi). rewrite Hi in Hu. by destruct Hu as [[=] _]. }
      intros w [Hw Hn].
      assert (triple (ended 1 e) (_ ← observeUsage r (TotalTokens (ar_Telemetry result)) (ce_budget env) usage;
        _ ← recordProvenance r (Some (ce_anchor env)) (ce_turnRecord env) (Some (ar_Selection result)); mret None)
        (fun o w => o = @None string /\ ended 1 (recorded r (ce_anchor env) (ce_turnRecord env) (ar_Selection result) e) w)) as Hm.
      { eapply trace_bind; [apply observeUsage_spec|]. intros [].
        eapply trace_bind; [apply recordProvenance_spec|]. intros []. by apply trace_ret. }
      destruct (Hm w Hw) as (w' & o & E & -> & (_ & He & _)). exists w', None. by split.
  - destruct (Ht (start e) (start_listening e)) as (w & o & E & H1 & H2). exists w, o. by split.
Qed.

End Bridge.

(** ** A concrete attempt: the stream breaks after one chunk. *)
Module SampleBridge.

Definition bridge : RRCLLM := {|
  br_db := {| RecentMessages := fun _ _ => Ok SampleAssembly.window; TurnMessages := fun _ _ => Ok SampleAssembly.window;
              PrecedingTurnID := fun _ _ => Ok ""; bs_Corpus := SampleAssembly.store |};
  br_threadID := "t"; br_Scope := SELECTION_SCOPE_THREAD; br_CurrentTurnID := "turn";
  br_OnStream := true; br_OnSelection := true; br_OnEdge := true; br_OnAssemble := true; br_OnUsage := true;
  br_Scales := Some f2; br_CountText := None
|}.

Definition provider (items : list (StreamChunk + goerr)) : Completer := {|
  Complete := fun _ _ => inr EUnsupported;
  Stream := fun _ _ => items
|}.

Definition piece (s : string) : StreamChunk :=
  {| sc_Delta := DText {| tx_Text := s |}; sc_Done := false; sc_Usage := None; sc_Error := None; sc_FinishReason := "" |}.
Definition last_piece : StreamChunk :=
  {| sc_Delta := DNone; sc_Done := true; sc_Usage := Some {| PromptTokens := 12; CompletionTokens := 3 |}; sc_Error := None; sc_FinishReason := "" |}.

Definition request : LLMRequest string := {| lr_Model := "m"; lr_Contents := []; lr_Config := None |}.

Definition turn : list Message :=
  SampleAssembly.msg "u" ROLE_USER 8 [SampleAssembly.text "please"] :: SampleAssembly.window.

Definition env : CallEnv (J := string) := {|
  ce_request := request; ce_stream := true; ce_tools := []; ce_anchor := SampleAssembly.anchor; ce_turnRecord := turn;
  ce_budget := 100; ce_window := 100; ce_assemble := fun _ prior => SampleAssembly.request 100 prior
|}.

Definition attempt_with (items : list (StreamChunk + goerr)) : World * outcome (option string) :=
  attempt (J := string) (provider items) (fun _ => true) bridge env [] SampleAssembly.none (start SampleEvent.engine).

Definition broken : list (StreamChunk + goerr) := [inl (piece "Sure"); inr EProviderUnavailable].

(** The broken stream leaves a provenance edge and no usage. *)
Example broken_stream_records :
  e_FromMessageId <$> Prerequisites (en_dag (w_engine (attempt_with broken).1)) "w" = ["u"] /\
  w_trace (attempt_with broken).1 =
  [EvStream "Sure" "" false;
   EvYield (Some {| rs_Content := Some (text_content (J := string) "Sure"); rs_Partial := true;
                    rs_TurnComplete := false; rs_ErrorMessage := "" |}) None;
   EvYield (Some {| rs_Content := None; rs_Partial := false; rs_TurnComplete := true;
                    rs_ErrorMessage := "provider endpoint unreachable" |}) None;
   EvEdge (provenance_of SampleEvent.engine SampleAssembly.anchor
             {| co_MessageID := "u"; co_ThreadID := "t"; co_Weight := f1 |})].
Proof. split; vm_compute; reflexivity. Qed.

(** A complete stream also grounds the learner. *)
Example complete_stream_observes :
  List.filter (fun ev => match ev with EvObserve _ _ _ | EvUsage _ _ => true | _ => false end)
    (w_trace (attempt_with [inl (piece "Sure"); inl last_piece]).1) =
  [EvUsage 0 {| PromptTokens := 12; CompletionTokens := 3 |}; EvObserve 0 12 100].
Proof. vm_compute. reflexivity. Qed.

End SampleBridge.

Lemma stream_attempt_records_witness :
  exists w o, SampleBridge.attempt_with SampleBridge.broken = (w, Ok o) /\ o = None /\
    w_engine w = recorded SampleBridge.bridge SampleAssembly.anchor SampleBridge.turn
                   (ar_Selection SampleAssembly.none) SampleEvent.engine.
Proof.
  destruct (stream_attempt_records (J := string) (SampleBridge.provider SampleBridge.broken) (fun _ => true)
              SampleBridge.bridge SampleBridge.env [] SampleAssembly.none SampleEvent.engine eq_refl)
    as (w & o & E & _ & H).
  exists w, o. split; [exact E|]. apply H. intros (err & rest & Hi). discriminate Hi.
Defined.
