(* ===== verification/Delivery.v ===== *)
(** * From the provider to the consumer

    The layers of a streamed completion put together: an adapter, the retry
    decorator around it ([core/httpc/retry/completer.go]) and the bridge's
    [tryStream].  The bridge's theorem is about any completer that keeps the
    stream contract of the interface; the adapters are instances, and the
    decorator preserves it. *)

From Stdlib Require Import ZArith Lia String.
From S2P Require Import Prelude GoFloat GoStrings Errors Types Genai Engine Prerequisites Llm Httpc Retry Anthropic Bridge.
#[local] Open Scope nat_scope.

(** ** The retry decorator over a completer *)

Section Retrying.
(** The [k]-th attempt of the [n]-th call is call [number n k] of the inner
    completer; contexts, waits and jitter belong to a call. *)
Context (ctx_err wait_err : nat -> Z -> option goerr) (draw : nat -> Z -> float) (policy : Policy)
  (inner : Completer) (number : nat -> nat -> nat).

(** An item of the iterator as the pair the source yields, and back. *)
Definition to_pair (x : StreamChunk + goerr) : SItem (Chunk := StreamChunk) :=
  match x with inl c => (Some c, None) | inr e => (None, Some e) end.
Definition from_pair (it : SItem (Chunk := StreamChunk)) : option (StreamChunk + goerr) :=
  match it with (_, Some e) => Some (inr e) | (Some c, None) => Some (inl c) | (None, None) => None end.

Definition attempt_pairs (n : nat) (req : CompletionRequest) (k : nat) : list SItem :=
  to_pair <$> Llm.Stream inner (number n k) req.

(** What the iterator produces for a consumer that pulls it to its end. *)
Definition retried_stream (n : nat) (req : CompletionRequest) : list (StreamChunk + goerr) :=
  omap from_pair (delivered (Retry.Stream (ctx_err n) (wait_err n) (draw n) None policy (consume (fun _ => true))
                               (connect (attempt_pairs n req)) {| opened := 0; delivered := [] |}).1).

Definition attempt_reply (req : CompletionRequest) (n k : nat) : option CompletionResponse * option goerr :=
  match Llm.Complete inner (number n k) req with inl r => (Some r, None) | inr e => (None, Some e) end.

(** [Ok None] is a nil response without an error. *)
Definition retried_complete (n : nat) (req : CompletionRequest) : outcome (option CompletionResponse) :=
  match Retry.Complete (ctx_err n) (wait_err n) (draw n) None policy (fun k => (S k, attempt_reply req n k)) 0 with
  | (_, resp, Ok _) => Ok resp
  | (_, _, Err e) => Err e
  | (_, _, Panic s) => Panic s
  end.

(** The decorator as a completer; neither a nil response nor a panic arises. *)
Definition retrying : Completer :=
  {| Llm.Complete := fun n req => match retried_complete n req with
                                  | Ok (Some r) => inl r | Ok None => inr (ENew "nil response")
                                  | Err e => inr e | Panic s => inr (ENew s) end;
     Llm.Stream := retried_stream |}.

(** A completion is an attempt's response, or fails. *)
Lemma retried_complete_returns n req :
  match retried_complete n req with
  | Ok resp => exists k r, resp = Some r /\ Llm.Complete inner (number n k) req = inl r
  | Err _ => True
  | Panic _ => False
  end.
Proof.
  unfold retried_complete, Retry.Complete.
  set (op := fun sr : nat * option CompletionResponse => _).
  assert (Hop : forall sr, match op sr with
            | (sr', Ok _) => exists k r, sr'.2 = Some r /\ Llm.Complete inner (number n k) req = inl r
            | (_, Err _) => True | (_, Panic _) => False end).
  { intros [k o]. unfold op, attempt_reply. simpl. destruct (Llm.Complete _ _ _) as [r|e] eqn:E; [|done]. by exists k, r. }
  pose proof (normalize_attempts policy) as Hm.
  edestruct (attempts_refine (ctx_err n) (wait_err n) (draw n) None op (normalize policy)
               (Z.to_nat (MaxAttempts (normalize policy))) 0 (BaseDelay (normalize policy)) None (0, None) (0, None))
    as (k & d & sr & _ & _ & He); [constructor|lia|lia|].
  unfold Do. change (0 + 1)%Z with 1%Z in He. simpl option_map. specialize (Hop sr).
  revert He. generalize (attempts (ctx_err n) (wait_err n) (draw n) None op (normalize policy)
    (Z.to_nat (MaxAttempts (normalize policy))) 1 (BaseDelay (normalize policy)) None (0, None)).
  intros res He.
  destruct He as [e Hc|[? ?] t Hc Ho|[? ?] Hc Ho|[? ?] err Hc Ho Hx|[? ?] err e Hc Ho Hx1 Hx2 Hx3];
    [by destruct sr|by rewrite Ho in Hop|by rewrite Ho in Hop|done|done].
Qed.

Lemma from_to_pairs (l : list (StreamChunk + goerr)) : omap from_pair (to_pair <$> l) = l.
Proof. induction l as [|[c|e] l IH]; [done| |]; cbn; by f_equal. Qed.

(** A consumer that never stops takes the whole stream. *)
Lemma takes_all (log items l : list (SItem (Chunk := StreamChunk))) : Takes (fun _ => true) log items l -> l = items.
Proof. induction 1 as [log|log it items Hno|log it items l _ _ IH]; [done|done|by rewrite IH]. Qed.

Lemma retried_stream_whole n req :
  (exists e, retried_stream n req = [inr e]) \/ exists k, retried_stream n req = Llm.Stream inner (number n k) req.
Proof.
  unfold retried_stream.
  pose proof (Stream_run (ctx_err n) (wait_err n) (draw n) (fun _ => true) (attempt_pairs n req) policy
                {| opened := 0; delivered := [] |} eq_refl) as Hrun.
  destruct (Retry.Stream _ _ _ _ _ _ _ _) as [w r]. simpl in *. destruct Hrun as (_ & [[e ->]|(k & _ & Ht)] & _).
  - left. by exists e.
  - right. exists k. apply takes_all in Ht. rewrite Ht. apply from_to_pairs.
Qed.
End Retrying.

#[export] Instance retrying_contract ctx_err wait_err draw policy inner number `{!StreamContract inner} :
  StreamContract (retrying ctx_err wait_err draw policy inner number).
Proof.
  intros n req. simpl.
  destruct (retried_stream_whole ctx_err wait_err draw policy inner number n req) as [[e ->]|[k ->]].
  - left. left. by exists e.
  - apply stream_contract.
Qed.

(** ** A streamed turn

    The consumer never stops; the provider is any completer that keeps the
    contract. *)

Section Turn.
Context {J : Type} `{Json J} (c : Completer) `{!StreamContract c}.

(** What the consumer is given, in order. *)
Definition as_yield (ev : Ev J) : option (option (LLMResponse J) * option goerr) :=
  match ev with EvYield r e => Some (r, e) | _ => None end.
Definition yields (tr : list (Ev J)) : list (option (LLMResponse J) * option goerr) := omap as_yield tr.

Definition shown (r : LLMResponse J) : option (LLMResponse J) * option goerr := (Some r, None).

(** The calls among the deltas. *)
Definition call_parts (ds : list Delta) : list (Part (J := J)) :=
  omap (fun d => match d with DToolCall tc => Some (call_part tc) | _ => None end) ds.

(** The response that completes the turn: a stream without a terminal chunk
    ends in an empty one, and one that breaks off in its error. *)
Definition completion (en : stream_end) (calls : list (Part (J := J))) : LLMResponse J :=
  match en with
  | EndsWith (Some ch) => {| rs_Content := Some match calls with
                                            | [] => text_content ""
                                            | _ => {| ct_Role := "model"; ct_Parts := calls |} end;
                         rs_Partial := false; rs_TurnComplete := true; rs_ErrorMessage := default "" (sc_Error ch) |}
  | EndsWith None => {| rs_Content := Some (text_content ""); rs_Partial := false; rs_TurnComplete := true; rs_ErrorMessage := "" |}
  | BreaksOff e => {| rs_Content := None; rs_Partial := false; rs_TurnComplete := true; rs_ErrorMessage := err_text e |}
  end.

Definition partial (d : Delta) : LLMResponse J :=
  {| rs_Content := delta_content d; rs_Partial := true; rs_TurnComplete := false; rs_ErrorMessage := "" |}.

Definition reported (en : stream_end) : option Usage :=
  match en with
  | EndsWith (Some ch) => match sc_Error ch with Some _ => None | None => sc_Usage ch end
  | _ => None
  end.

Lemma yields_app tr tr' : yields (tr ++ tr') = yields tr ++ yields tr'.
Proof. apply omap_app. Qed.

Section Accepting.
Context (accept : list (Ev J) -> bool) (Hall : forall tr, accept tr = true) (r : RRCLLM).

(** [m] returns [a] after giving the consumer [out]. *)
Definition gives {A} (m : GoM World A) (out : list (option (LLMResponse J) * option goerr)) (a : A) : Prop :=
  forall w, exists w', m w = (w', Ok a) /\ yields (w_trace w') = yields (w_trace w) ++ out.

Lemma gives_bind {A B} (m : GoM World A) (f : A -> GoM World B) out1 out2 a b :
  gives m out1 a -> gives (f a) out2 b -> gives (m ≫= f) (out1 ++ out2) b.
Proof.
  intros Hm Hf w. destruct (Hm w) as (w1 & E1 & H1). destruct (Hf w1) as (w2 & E2 & H2).
  exists w2. unfold mbind, gom_bind. rewrite E1, E2, H2, H1. split; [done|]. by rewrite (assoc_L (++)).
Qed.

Lemma gives_quiet {A B} (m : GoM World A) (f : A -> GoM World B) out a b :
  gives m [] a -> gives (f a) out b -> gives (m ≫= f) out b.
Proof. apply (gives_bind m f []). Qed.

Lemma gives_one {A B} (m : GoM World A) (f : A -> GoM World B) x out a b :
  gives m [x] a -> gives (f a) out b -> gives (m ≫= f) (x :: out) b.
Proof. apply (gives_bind m f [x]). Qed.

Lemma gives_ret {A} (a : A) : gives (mret a) [] a.
Proof. intros w. exists w. split; [done|]. by rewrite app_nil_r. Qed.

Lemma gives_yield resp e : gives (yield accept resp e) [(resp, e)] true.
Proof. intros w. eexists. split; [unfold yield; by rewrite Hall|]. simpl. by rewrite yields_app. Qed.

Lemma gives_note b ev : as_yield ev = None -> gives (note_if b ev) [] tt.
Proof.
  intros Hev. destruct b; [|apply gives_ret]. intros w. eexists. split; [reflexivity|]. simpl.
  rewrite yields_app. simpl. by rewrite Hev.
Qed.

Lemma gives_callback d : gives (delta_callback r d) [] tt.
Proof. destruct d; simpl; try apply gives_ret; by apply gives_note. Qed.

Lemma gives_empty : gives (finishEmpty accept r) [shown (completion (EndsWith None) [])] tt.
Proof. eapply gives_one; [apply gives_yield|by apply gives_note]. Qed.

Lemma gives_end ch calls :
  is_terminal ch ->
  gives (stream_loop accept r ch [] calls) [shown (completion (EndsWith (Some ch)) calls)] (reported (EndsWith (Some ch)), None).
Proof.
  intros (Hd & Hdone & Herr). cbn [stream_loop]. rewrite Hd, Hdone.
  eapply gives_quiet; [apply gives_callback|]. eapply gives_quiet; [by apply gives_note|].
  replace (completion (EndsWith (Some ch)) calls) with (done_response ch (delta_pending DNone calls));
    [eapply gives_one; [apply gives_yield|apply gives_ret]|].
  unfold completion, done_response. rewrite Hd. by destruct calls.
Qed.

Lemma pending_calls d calls : delta_pending d calls = calls ++ call_parts [d].
Proof. by destruct d; simpl; rewrite ?app_nil_r. Qed.

Lemma call_parts_cons d ds : call_parts (d :: ds) = call_parts [d] ++ call_parts ds.
Proof. apply (omap_app _ [d]). Qed.

Lemma gives_step d rest calls out s :
  gives match rest with
        | [] => _ ← finishEmpty accept r; mret (None, None)
        | inr err :: _ => broken_stream accept err
        | inl ch :: rest' => stream_loop accept r ch rest' (calls ++ call_parts [d])
        end out s ->
  gives (stream_loop accept r (delta_chunk d) rest calls) (shown (partial d) :: out) s.
Proof.
  rewrite <- pending_calls. intros Hk. destruct rest as [|[ch|err] rest]; cbn [stream_loop];
    (eapply gives_quiet; [apply gives_callback|]); (eapply gives_one; [apply gives_yield|]); exact Hk.
Qed.

Lemma gives_deltas ds d en calls :
  end_ok (d :: ds) en ->
  gives (stream_loop accept r (delta_chunk d) ((inl ∘ delta_chunk <$> ds) ++ end_items en) calls)
    ((shown ∘ partial <$> d :: ds) ++ [shown (completion en (calls ++ call_parts (d :: ds)))]) (reported en, None).
Proof.
  intros Hen. revert d calls Hen. induction ds as [|d' ds IH]; intros d calls Hen; apply gives_step.
  - destruct en as [[ch|]|e]; cbn -[call_parts]; [by apply gives_end, Hen| |];
      (eapply gives_one; [apply gives_empty || apply gives_yield|apply gives_ret]).
  - rewrite (call_parts_cons d (d' :: ds)), (assoc_L (++)). apply IH. by destruct en.
Qed.

(** The body of [tryStream] on the items of a stream that starts. *)
Lemma gives_turn ds en :
  end_ok ds en ->
  gives match (inl ∘ delta_chunk <$> ds) ++ end_items en with
        | [] => _ ← finishEmpty accept r; mret (None, None)
        | inr err :: _ => mret (None, Some err)
        | inl chunk :: rest => stream_loop accept r chunk rest []
        end
    ((shown ∘ partial <$> ds) ++ [shown (completion en (call_parts ds))]) (reported en, None).
Proof.
  intros Hen. destruct ds as [|d ds]; [|by apply (gives_deltas ds d en [])].
  destruct en as [[ch|]|e]; cbn; [by apply gives_end, Hen| |done].
  eapply gives_one; [apply gives_empty|apply gives_ret].
Qed.

End Accepting.

(** C18: a streamed turn reaches the consumer whole.  Against the stream contract
    alone, for a consumer that never stops: either the stream fails before its
    first chunk, the error is returned and the consumer is given nothing; or
    the consumer is given every delta as a partial response, in order, and
    then exactly one response that completes the turn - with all the tool
    calls of the stream, or an empty text when there are none or when the
    stream has no terminal chunk, or the message of the error the stream broke
    off with - never an error in between, and the usage returned is the
    terminal chunk's unless that chunk is an error. *)
Theorem streamed_turn (accept : list (Ev J) -> bool) (Hall : forall tr, accept tr = true) (r : RRCLLM)
    (req : CompletionRequest) (e : Engine) :
  exists w usage err, tryStream c accept r req (start e) = (w, Ok (usage, err)) /\
    ((exists x, Llm.Stream c 0 req = [inr x] /\ err = Some x /\ usage = None /\ yields (w_trace w) = []) \/
     (exists ds en, Llm.Stream c 0 req = (inl ∘ delta_chunk <$> ds) ++ end_items en /\
        Forall (fun d => d <> DNone) ds /\ end_ok ds en /\ err = None /\ usage = reported en /\
        yields (w_trace w) = (shown ∘ partial <$> ds) ++ [shown (completion en (call_parts ds))])).
Proof.
  destruct (stream_shape _ (stream_contract (c := c) 0 req)) as [(x & E)|(ds & en & E & Hds & Hen)].
  - eexists _, None, (Some x). split; [unfold tryStream, call, mbind, gom_bind; cbn; by rewrite E|]. left. by exists x.
  - destruct (gives_turn accept Hall r ds en Hen {| w_engine := e; w_calls := 1; w_trace := [] |}) as (w & Ew & Hy).
    exists w, (reported en), None. split; [|right; by exists ds, en].
    unfold tryStream, call, mbind, gom_bind. cbn. rewrite E. exact Ew.
Qed.
End Turn.

(** ** A concrete stack: Anthropic behind the retry decorator

    The first attempt meets a 503; the second streams a tool call. *)
Module SampleTurn.
Definition answer (status : Z) (events : list string) : Exchange :=
  inr {| StatusCode := status; Body := join nl ((fun s => "data: " ^^ s) <$> events); ReadErr := None |}.

(** The network of one attempt. *)
Definition provider (x : Exchange) : Completer :=
  Anthropic.completer (fun _ => inl "{}") SampleEvents.decode (fun _ => inr EUnsupported) (fun _ => inl x) "claude-opus-4-8".

Definition flaky (events : list string) : Completer :=
  {| Llm.Complete := fun _ _ => inr EUnsupported;
     Llm.Stream := fun k req => Llm.Stream (provider (if k =? 0 then answer 503 [] else answer 200 events)) k req |}.

#[local] Instance flaky_contract events : StreamContract (flaky events).
Proof. intros k req. apply (completer_contract (fun _ => inl "{}")). Qed.

Definition stack (events : list string) : Completer :=
  retrying (fun _ _ => None) (fun _ _ => None) (fun _ _ => fhalf) LocalServicePolicy (flaky events) (fun _ k => k).

Definition request : CompletionRequest :=
  {| cq_Messages := []; cq_Model := "m"; cq_MaxTokens := None; cq_Temperature := None; cq_TopP := None; cq_Stop := [];
     cq_Stream := true; cq_Tools := []; cq_ToolChoice := None; cq_ContextWindowTokens := None |}.

Definition call : ToolCallContent := {| tc_Id := "a"; tc_Name := "read"; tc_Arguments := "[1,2]"; tc_Signature := "" |}.
Definition turn : list string := ["hello"; "start"; "m0"; "m1"; "m2"; "m3"; "stop"].

Definition run (events : list string) : World * outcome Sent :=
  tryStream (J := string) (stack events) (fun _ => true) SampleBridge.bridge request (start SampleEvent.engine).

Example whole_turn :
  (run (turn ++ ["finish"])).2 = Ok (Some {| PromptTokens := 12; CompletionTokens := 3 |}, None) /\
  yields (w_trace (run (turn ++ ["finish"])).1) =
    [shown (partial (DToolCall call));
     shown (completion (EndsWith (Some (done_chunk None ""))) [call_part call])].
Proof. split; vm_compute; reflexivity. Qed.

(** The body breaks off before the terminal event: the completing response
    is empty, without the call. *)
Example truncated_turn :
  (run turn).2 = Ok (None, None) /\
  yields (w_trace (run turn).1) = [shown (partial (DToolCall call)); shown (completion (EndsWith None) [call_part call])] /\
  rs_Content (completion (EndsWith None) [call_part (J := string) call]) = Some (text_content "").
Proof. repeat split; vm_compute; reflexivity. Qed.

Lemma streamed_turn_witness :
  StreamContract (stack turn) /\ (forall tr : list (Ev string), (fun _ => true) tr = true) /\
  exists w usage err, run turn = (w, Ok (usage, err)) /\
    ((exists x, Llm.Stream (stack turn) 0 request = [inr x] /\ err = Some x /\ usage = None /\ yields (w_trace w) = []) \/
     (exists ds en, Llm.Stream (stack turn) 0 request = (inl ∘ delta_chunk <$> ds) ++ end_items en /\
        Forall (fun d => d <> DNone) ds /\ end_ok ds en /\ err = None /\ usage = reported en /\
        yields (w_trace w) = (shown ∘ partial <$> ds) ++ [shown (completion en (call_parts ds))])).
Proof.
  split; [apply retrying_contract, flaky_contract|]. split; [done|].
  exact (streamed_turn (J := string) (stack turn)
           (StreamContract0 := retrying_contract _ _ _ _ _ _ (StreamContract0 := flaky_contract turn))
           (fun _ => true) (fun _ => eq_refl) SampleBridge.bridge request SampleEvent.engine).
Defined.
End SampleTurn.
