(* ===== verification/StoreLink.v ===== *)
(** * The store behind the engine's interfaces

    [*storage.DB] is the corpus store of assembly, the store of the bridge and
    the chunk tables of the oracle.  Here the three interfaces are instantiated
    at a state of the database, the contracts their clients assume are
    discharged, and the closure of the database is carried to what assembly
    reads: the protocol scope of a window, and the corpus of a branch. *)

From Stdlib Require Import ZArith Lia String Ascii.
From stdpp Require Import sorting.
From S2P Require Import Prelude GoFloat GoSort GoStrings Types Predicate Protocol Pairing Sql Storage Embeddings Inserter Runner Assembly Bridge ChunkKey AnnIndex Oracle.
#[local] Open Scope Z_scope.

Section Instances.
Context {env : Env} {srt : SliceSort} {codec : ProtoCodec}.

(** Every call reads the database as it is at [w]. *)
Definition store_at (w : Sql.World Tables) : CorpusStore :=
  {| Assembly.Messages := fun ids => (Storage.Messages ids w).2;
     Assembly.TurnPeers := fun msgs => (Storage.TurnPeers msgs w).2 |}.

Definition bridge_store_at (w : Sql.World Tables) : BridgeStore :=
  {| Bridge.RecentMessages := fun threadID n => (Storage.RecentMessages threadID n w).2;
     Bridge.TurnMessages := fun threadID turnID => (Storage.TurnMessages threadID turnID w).2;
     Bridge.PrecedingTurnID := fun threadID turnID => (Storage.PrecedingTurnID threadID turnID w).2;
     bs_Corpus := store_at w |}.

Definition stored_chunk (c : Chunk) : StoredChunk :=
  {| st_MessageID := c_MessageID c; st_ChunkIndex := Z.to_nat (c_ChunkIndex c); st_Text := c_Text c;
     st_ByteStart := Z.to_nat (c_ByteStart c); st_ByteEnd := Z.to_nat (c_ByteEnd c); st_TokenEst := c_TokenEst c |}.
Definition random_ref (r : Storage.RandomChunkRef) : Oracle.RandomChunkRef :=
  {| rr_MessageID := rc_MessageID r; rr_ChunkIndex := Z.to_nat (rc_ChunkIndex r); rr_Text := rc_Text r;
     rr_ThreadID := rc_ThreadID r |}.
Definition stored_embedding (e : Embeddings.ChunkEmbedding) : Oracle.ChunkEmbedding :=
  {| Oracle.ce_MessageID := Embeddings.ce_MessageID e; Oracle.ce_ChunkIndex := Z.to_nat (Embeddings.ce_ChunkIndex e);
     Oracle.ce_Vector := Embeddings.ce_Vector e |}.

Definition chunk_db_at (w : Sql.World Tables) : ChunkDB :=
  {| Oracle.MessageThreads := (Storage.MessageThreads w).2;
     EmbeddingsForModel := fun model =>
       (EachChunkEmbeddingForModel model (fun acc e => Ok (acc ++ [stored_embedding e])) [] w).2;
     Oracle.GetChunksForMessages := fun ids => fmap (M := outcome) (fmap (M := gmap string) (map stored_chunk)) (Storage.GetChunksForMessages ids w).2;
     Oracle.RandomChunkRefs := fun limit seed => fmap (M := outcome) (map random_ref) (Storage.RandomChunkRefs limit seed w).2;
     Oracle.GetChunkEmbedding := fun m i model => (Embeddings.GetChunkEmbedding m (Z.of_nat i) model w).2;
     Oracle.InsertChunkEmbedding := fun m i model vec => (Embeddings.InsertChunkEmbedding m (Z.of_nat i) model vec w).2 |}.

(** ** What the queries return *)

Lemma query_bind_ok {A B} (f : Tables -> A) (k : A -> GoM (Sql.World Tables) B) w b :
  (mbind (M := GoM (Sql.World Tables)) k (query f) w).2 = Ok b -> exists w', w_tables w' = w_tables w /\ (k (f (w_tables w)) w').2 = Ok b.
Proof.
  unfold mbind, gom_bind, query, statement. destruct (e_fault _); [done|]. simpl. intros Hk. by eexists; split; [|exact Hk].
Qed.

Lemma scan_ok rows msgs : scanMessages rows = Ok msgs -> Forall2 (fun r m => row_message r = Ok m) rows msgs.
Proof. apply mapO_ok_Forall2. Qed.

Lemma messages_fold msgs (acc : gmap string Message) id x :
  fold_left (fun out m => <[m_Id m := m]> out) msgs acc !! id = Some x ->
  acc !! id = Some x \/ (x ∈ msgs /\ m_Id x = id).
Proof.
  revert acc. induction msgs as [|m msgs IH]; intros acc; cbn [fold_left]; [by left|].
  intros [Ha|[Hx Hid]]%IH; [|right; split; [by right|done]].
  rewrite lookup_insert in Ha. case_decide as Hd; [|by left]. injection Ha as <-. right. split; [by left|done].
Qed.

#[export] Instance store_contract w : StoreContract (store_at w).
Proof.
  split. intros ids out id x. cbn [store_at Assembly.Messages]. unfold Storage.Messages. destruct ids as [|i ids].
  { intros [= <-]. by rewrite lookup_empty. }
  intros (w1 & _ & Hk)%query_bind_ok Hl. unfold mbind, gom_bind, gom_lift in Hk.
  destruct (scanMessages _) as [msgs| |] eqn:E; [|done..]. injection Hk as <-.
  apply messages_fold in Hl as [Hl|[Hx Hid]]; [by rewrite lookup_empty in Hl|]. split; [done|].
  apply scan_ok in E. apply list_elem_of_lookup in Hx as [k Hx].
  destruct (Forall2_lookup_r _ _ _ _ _ E Hx) as (r & Hr & Hm). apply list_elem_of_lookup_2 in Hr.
  apply elem_of_any_order, elem_of_where in Hr as [_ Hin]. apply bool_decide_eq_true in Hin.
  by rewrite <- Hid, (row_message_id _ _ Hm).
Qed.

Lemma append_chunk_domain rows acc id :
  is_Some (fold_left append_chunk rows acc !! id) -> is_Some (acc !! id) \/ exists c, c ∈ rows /\ c_MessageID c = id.
Proof.
  revert acc. induction rows as [|c rows IH]; intros acc; cbn [fold_left]; [by left|].
  intros [Ha|(c' & Hc & Hid)]%IH; [|right; exists c'; split; [by right|done]].
  unfold append_chunk in Ha. rewrite lookup_insert in Ha. case_decide as Hd; [|by left].
  right. exists c. split; [by left|done].
Qed.

Lemma chunks_of_requested ids w m id :
  (Storage.GetChunksForMessages ids w).2 = Ok m -> is_Some (m !! id) -> id ∈ ids.
Proof.
  unfold Storage.GetChunksForMessages. destruct ids as [|i ids].
  { intros [= <-]. rewrite lookup_empty. by intros [? ?]. }
  intros (w1 & _ & Hk)%query_bind_ok. injection Hk as <-. intros [Hs|(c & Hc & <-)]%append_chunk_domain.
  - rewrite lookup_empty in Hs. by destruct Hs.
  - rewrite sort_slice_perm in Hc. apply elem_of_where in Hc as [_ Hin]. by apply bool_decide_eq_true in Hin.
Qed.

#[export] Instance chunk_db_laws w : ChunkDBLaws (chunk_db_at w).
Proof.
  split. intros ids out id. cbn [chunk_db_at Oracle.GetChunksForMessages].
  destruct (Storage.GetChunksForMessages ids w).2 as [m| |] eqn:E; [|done..]. intros [= <-].
  rewrite lookup_fmap, fmap_is_Some. by apply (chunks_of_requested ids w).
Qed.

(** ** The protocol scope of a window *)

Fixpoint nul_free (s : string) : bool :=
  match s with EmptyString => true | String c s' => negb (Ascii.eqb c "000") && nul_free s' end.

Lemma nul_free_split a a' b b' :
  nul_free a = true -> nul_free a' = true -> a ^^ nul ^^ b = a' ^^ nul ^^ b' -> a = a' /\ b = b'.
Proof.
  revert a'. induction a as [|c a IH]; intros [|c' a']; cbn [nul_free]; intros Ha Ha'.
  - intros E. change (nul ^^ b = nul ^^ b') in E. apply append_cancel_l in E. by subst.
  - intros E. change (String "000" b = String c' (a' ^^ nul ^^ b')) in E. by injection E as <- _.
  - intros E. change (String c (a ^^ nul ^^ b) = String "000" b') in E. by injection E as -> _.
  - apply andb_true_iff in Ha as [_ Ha], Ha' as [_ Ha']. cbn [String.append]. intros [= -> E].
    by destruct (IH a' Ha Ha' E) as [-> ->].
Qed.

Definition turn_of (m : Message) : string * string := (m_ThreadId m, m_TurnId m).

(** Every turn of the window has its clause. *)
Lemma peer_clauses_complete msgs m :
  (forall x, x ∈ msgs -> nul_free (m_ThreadId x) = true) -> m ∈ msgs -> m_TurnId m <> "" -> turn_of m ∈ peer_clauses msgs.
Proof.
  intros Hn. unfold peer_clauses.
  enough (forall l st, (forall x, x ∈ l -> nul_free (m_ThreadId x) = true) ->
    (forall k, k ∈ st.1 -> exists c, c ∈ st.2 /\ k = c.1 ^^ nul ^^ c.2) ->
    (forall c, c ∈ st.2 -> nul_free c.1 = true) ->
    (m ∈ l /\ m_TurnId m <> "") \/ turn_of m ∈ st.2 -> turn_of m ∈ (fold_left peer_clause l st).2) as Hall.
  { intros Hm Ht. apply Hall; [done|by intros k ?%not_elem_of_empty|by intros c ?%elem_of_nil|by left]. }
  clear msgs Hn. induction l as [|x l IH]; intros st Hn Hk Hc Hor; cbn [fold_left].
  { destruct Hor as [[Hx _]|]; [by apply elem_of_nil in Hx|done]. }
  assert (nul_free (m_ThreadId x) = true) as Hx by (apply Hn; by left).
  apply IH; [intros y Hy; apply Hn; by right|..].
  - unfold peer_clause. destruct (String.eqb (m_TurnId x) ""); [done|]. case_decide; [done|]. cbn [fst snd].
    intros k [->%elem_of_singleton|Hin]%elem_of_union.
    + exists (turn_of x). split; [apply elem_of_app; right; by left|done].
    + destruct (Hk k Hin) as (c & ? & ?). exists c. split; [apply elem_of_app; by left|done].
  - unfold peer_clause. destruct (String.eqb (m_TurnId x) ""); [done|]. case_decide; [done|]. cbn [fst snd].
    intros c [Hin| ->%list_elem_of_singleton]%elem_of_app; [by apply Hc|done].
  - destruct Hor as [[[->|Hm]%elem_of_cons Ht]|Hin]; [right|by left|right].
    + unfold peer_clause. destruct (String.eqb_spec (m_TurnId x) ""); [done|]. case_decide as Hd; cbn [fst snd].
      * destruct (Hk _ Hd) as ([c1 c2] & Hin & E). cbn [fst snd] in E.
        destruct (nul_free_split _ _ _ _ Hx (Hc _ Hin) E) as [E1 E2]. unfold turn_of. by rewrite E1, E2.
      * apply elem_of_app. right. by left.
    + unfold peer_clause. destruct (String.eqb (m_TurnId x) ""); [done|]. case_decide; [done|]. cbn [fst snd].
      apply elem_of_app. by left.
Qed.

Lemma in_turn_row_spec th tu r m :
  row_message r = Ok m -> in_turn_row th tu r = true <-> turn_of m = (th, tu).
Proof.
  unfold in_turn_row, row_message, mbind, outcome_bind, turn_of. destruct (unmarshalContentBlocks _); [|done..].
  intros [= <-]. cbn. rewrite andb_true_iff, !String.eqb_eq. naive_solver.
Qed.

(** The peers are exactly the messages of the turns asked for. *)
Lemma TurnPeers_elem msgs w peers :
  (Storage.TurnPeers msgs w).2 = Ok peers ->
  forall m, m ∈ peers <-> m ∈ corpus (w_tables w) /\ turn_of m ∈ peer_clauses msgs.
Proof.
  unfold Storage.TurnPeers. destruct (peer_clauses msgs) as [|c0 cs] eqn:Ec.
  { intros [= <-] m. rewrite !elem_of_nil. naive_solver. }
  intros (w1 & _ & Hk)%query_bind_ok m. apply scan_ok in Hk. rewrite elem_of_corpus. split.
  - intros [k Hx]%list_elem_of_lookup. destruct (Forall2_lookup_r _ _ _ _ _ Hk Hx) as (r & Hr & Hm).
    apply list_elem_of_lookup_2, elem_of_any_order, elem_of_where in Hr as [Hr Hc]. split; [by exists r|].
    apply existsb_exists in Hc as ([th tu] & Hc & Ht). rewrite (in_turn_row_spec th tu r m Hm) in Ht. rewrite Ht.
    by apply list_elem_of_In.
  - intros [(r & Hr & Hm) Ht].
    assert (r ∈ any_order (where_ (fun r => existsb (fun c => in_turn_row c.1 c.2 r) (c0 :: cs)) (tb_messages (w_tables w)))) as Hin.
    { apply elem_of_any_order, elem_of_where. split; [done|]. apply existsb_exists. exists (turn_of m).
      split; [by apply list_elem_of_In|]. by apply (in_turn_row_spec _ _ r m Hm). }
    apply list_elem_of_lookup in Hin as [k Hl]. destruct (Forall2_lookup_l _ _ _ _ _ Hk Hl) as (m' & Hm' & E).
    rewrite Hm in E. injection E as <-. by apply list_elem_of_lookup_2 in Hm'.
Qed.

(** A window with the peers of its turns is closed when the database is. *)
Lemma window_pair_closed window w peers :
  db_closed (w_tables w) -> window ⊆ corpus (w_tables w) ->
  (forall x, x ∈ window -> nul_free (m_ThreadId x) = true) ->
  (Storage.TurnPeers window w).2 = Ok peers -> pair_closed (window ++ peers) /\ window ++ peers ⊆ corpus (w_tables w).
Proof.
  intros [Hc Hn] Hw Hnf Hp. pose proof (TurnPeers_elem _ _ _ Hp) as He.
  assert (window ++ peers ⊆ corpus (w_tables w)) as Hsub.
  { intros m [Hm|Hm]%elem_of_app; [by apply Hw|]. by apply He. }
  split; [|done]. apply (pair_closed_part (corpus (w_tables w))); [done..|].
  intros m m' Hm Hm' Ht Hth Htu _. apply elem_of_app. right. apply He. split; [done|].
  assert (turn_of m' = turn_of m) as -> by (unfold turn_of; by rewrite Hth, Htu).
  apply elem_of_app in Hm as [Hm|Hm]; [by apply peer_clauses_complete|by apply He].
Qed.

End Instances.

(** C28: What the engine assembles from a closed database always closes.  When
    every stored call and result are paired in one turn (which
    [SendMessage_closed] maintains), take any window of stored messages and
    any state of the store: if the store answers [TurnPeers] at all, then
    [CloseGroup] succeeds from every message of the window on the protocol
    scope [Assemble] builds of it (the window and its turns), without reading
    the rest of the corpus. *)
Theorem window_scope_closes `{Env, SliceSort, ProtoCodec} (w : Sql.World Tables) (window : list Message) (p : ProtocolIndex)
    (score : float) (m : Message)
    (Hdb : db_closed (w_tables w)) (Hwindow : window ⊆ corpus (w_tables w))
    (Hthreads : forall x, x ∈ window -> nul_free (m_ThreadId x) = true)
    (Hscope : protocolScope window (Some (store_at w)) = Ok p) (Hm : m ∈ window) :
  exists g, run_close p m score = Ok g /\ m ∈ dg_Messages g.
Proof.
  unfold protocolScope in Hscope. cbn [store_at Assembly.TurnPeers] in Hscope.
  destruct (Storage.TurnPeers window w).2 as [peers| |] eqn:E; [|done..]. injection Hscope as <-.
  destruct (window_pair_closed window w peers Hdb Hwindow Hthreads E) as [Hc Hsub].
  destruct (closed_run_close (window ++ peers) m score Hc) as [g Hg].
  - intros a b Ha Hb. apply (corpus_ids (w_tables w)); [by destruct Hdb|by apply Hsub..].
  - apply elem_of_app. by left.
  - exists g. split; [done|]. by apply run_close_ok in Hg as (_ & _ & _ & ? & _).
Qed.

(** ** Branches *)

Section Branch.
Context {env : Env} {srt : SliceSort} {codec : ProtoCodec}.

(** No turn of the thread has messages on both sides of the position. *)
Definition turn_boundary (t : Tables) (threadID : string) (bp : Z) : Prop := forall a b,
  a ∈ tb_messages t -> b ∈ tb_messages t -> r_thread_id a = threadID -> r_thread_id b = threadID ->
  r_turn_id a = r_turn_id b -> r_turn_id a <> "" -> r_position a < bp -> r_position b < bp.

(** The turns of a thread follow one another. *)
Definition turns_ordered (t : Tables) (threadID : string) : Prop := forall a b c,
  a ∈ tb_messages t -> b ∈ tb_messages t -> c ∈ tb_messages t ->
  r_thread_id a = threadID -> r_thread_id b = threadID -> r_thread_id c = threadID ->
  r_turn_id a = r_turn_id c -> r_turn_id a <> "" -> r_turn_id b <> "" -> r_turn_id b <> r_turn_id a ->
  ~ (r_position a <= r_position b <= r_position c).

Lemma fold_min_spec l p : fold_left Z.min l p ∈ p :: l /\ forall x, x ∈ p :: l -> fold_left Z.min l p <= x.
Proof.
  revert p. induction l as [|y l IH]; intros p; cbn [fold_left].
  - split; [by left|]. by intros x ->%list_elem_of_singleton.
  - destruct (IH (Z.min p y)) as [Hin Hle]. split.
    + apply elem_of_cons in Hin as [->|Hin]; [|by do 2 right].
      destruct (Z.min_spec p y) as [[_ ->]|[_ ->]]; [by left|right; by left].
    + assert (fold_left Z.min l (Z.min p y) <= Z.min p y) by (apply Hle; by left).
      intros x [->|[->|Hx]%elem_of_cons]%elem_of_cons; [lia|lia|]. apply Hle. by right.
Qed.

Lemma min_position_spec rows p :
  min_position rows = Ok p ->
  (exists r, r ∈ rows /\ r_position r = p) /\ forall r, r ∈ rows -> p <= r_position r.
Proof.
  unfold min_position. destruct (r_position <$> rows) as [|q l] eqn:E; [done|]. intros [= <-].
  destruct (fold_min_spec l q) as [Hin Hle]. rewrite <- E in Hin, Hle. split.
  - apply list_elem_of_fmap in Hin as (r & -> & Hr). by exists r.
  - intros r Hr. apply Hle, list_elem_of_fmap. by exists r.
Qed.

(** Snapping to the start of a turn gives a boundary. *)
Lemma TurnStartPosition_boundary threadID position w bp :
  turns_ordered (w_tables w) threadID ->
  (exists r, r ∈ tb_messages (w_tables w) /\ r_thread_id r = threadID /\ r_position r = position) ->
  (forall r, r ∈ tb_messages (w_tables w) -> r_thread_id r = threadID -> r_position r = position -> r_turn_id r <> "") ->
  (TurnStartPosition threadID position w).2 = Ok bp ->
  turn_boundary (w_tables w) threadID bp /\ bp <= position.
Proof.
  intros Hord (r0 & Hr0 & Hth0 & Hp0) Hturn. unfold TurnStartPosition. intros (w1 & Ew & Hk)%query_bind_ok.
  destruct (head _) as [r|] eqn:Eh.
  2: { exfalso. apply head_None in Eh. assert (r0 ∈ @nil MessageRow) as Hx; [|by apply elem_of_nil in Hx].
       rewrite <- Eh. apply elem_of_any_order, elem_of_where. split; [done|]. unfold in_thread.
       by rewrite Hth0, Hp0, String.eqb_refl, Z.eqb_refl. }
  assert (r ∈ any_order (where_ (fun r => in_thread threadID r && (r_position r =? position)) (tb_messages (w_tables w)))) as Hin.
  { destruct (any_order _); [done|]. injection Eh as ->. by left. }
  apply elem_of_any_order, elem_of_where in Hin as [Hr Hc]. apply andb_true_iff in Hc as [Hth%String.eqb_eq Hp%Z.eqb_eq].
  destruct (String.eqb_spec (r_turn_id r) "") as [He|Hne]; [by destruct (Hturn r Hr Hth Hp)|].
  apply query_bind_ok in Hk as (w2 & _ & Hk). unfold gom_lift in Hk. cbn [snd] in Hk. rewrite Ew in Hk.
  destruct (min_position_spec _ _ Hk) as [(a & Ha & Hpa) Hmin]. clear Hk.
  apply elem_of_where in Ha as [Ha Hta]. apply andb_true_iff in Hta as [Hath%String.eqb_eq Hat%String.eqb_eq].
  split.
  - intros x y Hx Hy Hxt Hyt Hs Hxne Hlt. destruct (String.eqb_spec (r_turn_id x) (r_turn_id r)) as [E|E].
    + exfalso. assert (bp <= r_position x); [|lia]. apply Hmin, elem_of_where. split; [done|].
      unfold in_turn_row. by rewrite Hxt, E, !String.eqb_refl.
    + destruct (Z.lt_ge_cases (r_position y) bp); [done|]. exfalso.
      apply (Hord x a y); try done; [congruence|congruence|lia].
  - rewrite <- Hp. apply Hmin, elem_of_where. split; [done|]. unfold in_turn_row. by rewrite Hth, !String.eqb_refl.
Qed.

Lemma ListMessages_elem threadID w msgs :
  (ListMessages threadID 0 0 w).2 = Ok msgs ->
  forall m, m ∈ msgs <-> m ∈ corpus (w_tables w) /\ m_ThreadId m = threadID.
Proof.
  unfold ListMessages. intros (w1 & _ & Hk)%query_bind_ok m. cbn in Hk. apply scan_ok in Hk. rewrite elem_of_corpus.
  assert (forall r m, row_message r = Ok m -> m_ThreadId m = r_thread_id r) as Hthr.
  { intros r x. unfold row_message, mbind, outcome_bind. destruct (unmarshalContentBlocks _); [|done..]. by intros [= <-]. }
  split.
  - intros [k Hx]%list_elem_of_lookup. destruct (Forall2_lookup_r _ _ _ _ _ Hk Hx) as (r & Hr & Hm).
    apply list_elem_of_lookup_2 in Hr. rewrite sort_slice_perm in Hr.
    apply elem_of_where in Hr as [Hr Hc%String.eqb_eq]. split; [by exists r|]. by rewrite (Hthr r m Hm).
  - intros [(r & Hr & Hm) Ht].
    assert (r ∈ sort_slice Storage.by_position (where_ (in_thread threadID) (tb_messages (w_tables w)))) as Hin.
    { rewrite sort_slice_perm. apply elem_of_where. split; [done|]. unfold in_thread.
      by rewrite <- (Hthr r m Hm), Ht, String.eqb_refl. }
    apply list_elem_of_lookup in Hin as [k Hl]. destruct (Forall2_lookup_l _ _ _ _ _ Hk Hl) as (m' & Hm' & E).
    rewrite Hm in E. injection E as <-. by apply list_elem_of_lookup_2 in Hm'.
Qed.

Lemma ListMessages_reads threadID w : w_tables (ListMessages threadID 0 0 w).1 = w_tables w.
Proof.
  unfold ListMessages, mbind, gom_bind, query, statement. destruct (e_fault _); [done|]. simpl.
  unfold gom_lift. done.
Qed.

Lemma branch_of_found threadID w w' parent bp :
  branch_of threadID w = (w', Ok (Some parent, Some bp)) ->
  exists r, r ∈ tb_threads (w_tables w) /\ t_id r = threadID /\ t_parent r = Some parent /\ t_branch r = Some bp.
Proof.
  unfold branch_of, query, statement. destruct (e_fault _); simpl; [by intros [= _ _ ?]|].
  destruct (head _) as [r|] eqn:E; [|done]. intros [= _ Hp Hb]. exists r.
  assert (r ∈ where_ (fun r => String.eqb (t_id r) threadID) (tb_threads (w_tables w))) as Hin.
  { destruct (where_ _ _); [done|]. injection E as ->. by left. }
  apply elem_of_where in Hin as [? ?%String.eqb_eq]. done.
Qed.

Lemma branch_of_reads threadID w : exists w' b, branch_of threadID w = (w', Ok b) /\ w_tables w' = w_tables w.
Proof.
  unfold branch_of, query, statement. destruct (e_fault _); simpl; [by eexists _, _|].
  destruct (head _); by eexists _, _.
Qed.

Lemma gom_bind_ok' {S A B} (m : GoM S A) (f : A -> GoM S B) s s' b :
  (m ≫= f) s = (s', Ok b) -> exists s1 a, m s = (s1, Ok a) /\ f a s1 = (s', Ok b).
Proof. unfold mbind, gom_bind. destruct (m s) as [s1 [a| |]]; [eauto|done..]. Qed.

Lemma gom_bind_ok {S A B} (m : GoM S A) (f : A -> GoM S B) s b :
  ((m ≫= f) s).2 = Ok b -> exists s1 a, m s = (s1, Ok a) /\ (f a s1).2 = Ok b.
Proof. unfold mbind, gom_bind. destruct (m s) as [s1 [a| |]]; [eauto|done..]. Qed.

(** What [ThreadCorpus] puts before the thread's own messages. *)
Definition is_prefix (t : Tables) (prefix : list Message) : Prop := prefix = [] \/
  exists parent bp, turn_boundary t parent bp /\
    forall m, m ∈ prefix <-> (m ∈ corpus t /\ m_ThreadId m = parent) /\ m_Position m < bp.

Lemma branch_corpus_part prefix own t branch :
  db_closed t -> is_prefix t prefix -> (forall m, m ∈ own <-> m ∈ corpus t /\ m_ThreadId m = branch) ->
  pair_closed (prefix ++ own).
Proof.
  intros [Hc _] Hpre Ho. apply (pair_closed_part (corpus t)); [done|..].
  - intros m [Hm|Hm]%elem_of_app; [|by apply Ho].
    destruct Hpre as [->|(parent & bp & _ & Hp)]; [by apply elem_of_nil in Hm|]. by apply Hp.
  - intros m m' Hm Hm' Ht Hth Htu _. apply elem_of_app. apply elem_of_app in Hm as [Hm|Hm].
    + left. destruct Hpre as [->|(parent & bp & Hb & Hp)]; [by apply elem_of_nil in Hm|]. apply Hp in Hm as [[Hm Hmt] Hlt]. apply Hp. split; [split; [done|congruence]|].
      apply elem_of_corpus in Hm as (r & Hr & E), Hm' as (r' & Hr' & E').
      assert (forall r m, row_message r = Ok m -> m = row_with (m_Content m) r) as Hrow.
      { clear. intros r m. unfold row_message, mbind, outcome_bind. destruct (unmarshalContentBlocks _); [|done..]. by intros [= <-]. }
      rewrite (Hrow r' m' E'), (Hrow r m E) in *. cbn in *.
      apply (Hb r r'); [done..|congruence|done|congruence|done].
    + right. apply Ho in Hm as [_ Hmt]. apply Ho. split; [done|congruence].
Qed.

(** What [ThreadCorpus] returns, from what the branch lookup gave. *)
Lemma ThreadCorpus_parts branch w c : (ThreadCorpus branch w).2 = Ok c -> exists b prefix own,
  (branch_of branch w).2 = Ok b /\ c = prefix ++ own /\
  (forall m, m ∈ own <-> m ∈ corpus (w_tables w) /\ m_ThreadId m = branch) /\
  match b with
  | (Some parent, Some bp) =>
      if String.eqb parent "" then prefix = []
      else forall m, m ∈ prefix <-> (m ∈ corpus (w_tables w) /\ m_ThreadId m = parent) /\ m_Position m < bp
  | _ => prefix = []
  end.
Proof.
  unfold ThreadCorpus. destruct (branch_of_reads branch w) as (w1 & b & Eb & Ew). unfold mbind at 1, gom_bind. rewrite Eb. cbn [fst snd].
  intros Hret. apply gom_bind_ok in Hret as (w2 & prefix & E2 & Hret). apply gom_bind_ok in Hret as (w3 & own & E3 & Hret).
  injection Hret as <-. exists b, prefix, own. split; [done|]. split; [done|].
  assert (w_tables w2 = w_tables w1 /\ match b with
    | (Some parent, Some bp) =>
        if String.eqb parent "" then prefix = []
        else forall m, m ∈ prefix <-> (m ∈ corpus (w_tables w1) /\ m_ThreadId m = parent) /\ m_Position m < bp
    | _ => prefix = []
    end) as [Ew2 Hpre].
  { destruct b as [[parent|] [bp|]]; try (injection E2 as <- <-; by split).
    destruct (String.eqb parent ""); [by injection E2 as <- <-|].
    apply gom_bind_ok' in E2 as (w4 & msgs & E4 & E2). injection E2 as <- <-.
    pose proof (ListMessages_reads parent w1) as Hr. rewrite E4 in Hr. simpl in Hr. split; [done|].
    intros m. rewrite elem_of_where, Z.ltb_lt, (ListMessages_elem parent w1 msgs); [done|]. by rewrite E4. }
  rewrite Ew in Hpre. split; [|done]. rewrite <- Ew, <- Ew2. apply ListMessages_elem. by rewrite E3.
Qed.

(** A corpus cut at turn boundaries is closed. *)
Lemma ThreadCorpus_closed branch w c :
  db_closed (w_tables w) ->
  (forall r parent bp, r ∈ tb_threads (w_tables w) -> t_id r = branch -> t_parent r = Some parent ->
     t_branch r = Some bp -> turn_boundary (w_tables w) parent bp) ->
  (ThreadCorpus branch w).2 = Ok c -> pair_closed c.
Proof.
  intros Hdb Hb (b & prefix & own & Eb & -> & Hown & Hpre)%ThreadCorpus_parts.
  apply (branch_corpus_part prefix own (w_tables w) branch Hdb); [|done].
  destruct b as [[parent|] [bp|]]; try by left. destruct (String.eqb parent ""); [by left|]. right. exists parent, bp.
  split; [|done]. destruct (branch_of branch w) as [w' o] eqn:E. cbn in Eb. subst o.
  apply branch_of_found in E as (r & H1 & H2 & H3 & H4). by eapply Hb.
Qed.

End Branch.

(** A branch never splits a tool call from its result.  In a closed
    database whose turns follow one another, [TurnStartPosition] at a stored
    message of a turn gives a position no turn straddles; and for a branch
    whose branch point is such a position, whatever [ThreadCorpus] returns
    (the parent's prefix and the thread's own messages, or, when the lookup of
    the parent fails, the own messages alone) pairs every call with its
    result. *)
Theorem branch_corpus_closed `{Env, SliceSort, ProtoCodec} (w : Sql.World Tables) (branch : string)
    (Hdb : db_closed (w_tables w)) :
  (forall threadID position bp, turns_ordered (w_tables w) threadID ->
     (exists r, r ∈ tb_messages (w_tables w) /\ r_thread_id r = threadID /\ r_position r = position) ->
     (forall r, r ∈ tb_messages (w_tables w) -> r_thread_id r = threadID -> r_position r = position -> r_turn_id r <> "") ->
     (TurnStartPosition threadID position w).2 = Ok bp -> turn_boundary (w_tables w) threadID bp /\ bp <= position) /\
  ((forall r parent bp, r ∈ tb_threads (w_tables w) -> t_id r = branch -> t_parent r = Some parent ->
      t_branch r = Some bp -> turn_boundary (w_tables w) parent bp) ->
   forall c, (ThreadCorpus branch w).2 = Ok c -> pair_closed c).
Proof.
  split; [intros; by eapply TurnStartPosition_boundary|]. intros Hb c. by apply ThreadCorpus_closed.
Qed.

(** ** A thread with one answered call, and its branch *)
Module SampleStore.
#[local] Existing Instances SampleCodec.codec calm_env.

Definition message (id turn : string) (pos : Z) (b : ContentBlock) : Message :=
  {| m_Id := id; m_Role := ROLE_ASSISTANT; m_Content := [b]; m_Position := pos; m_ThreadId := "t";
     m_CreatedAt := Some (1, 0); m_TurnId := turn |}.
Definition hello : Message := message "m0" "v" 0 (BText {| tx_Text := "hi" |}).
Definition call : Message :=
  message "m1" "u" 1 (BToolCall {| tc_Id := "c1"; tc_Name := "ls"; tc_Arguments := "{}"; tc_Signature := "" |}).
Definition result : Message :=
  message "m2" "u" 2 (BToolResult {| tr_ToolCallId := "c1"; tr_Content := "ok"; tr_IsError := false |}).
Definition row (m : Message) : MessageRow := message_row m (SampleCodec.encode (m_Content m)).
Definition thread (id : string) (parent : option string) (bp : option Z) : ThreadRow :=
  {| t_id := id; t_name := ""; t_sandboxed := true; t_created_at := (0, 0); t_parent := parent; t_branch := bp;
     t_archived := None |}.
Definition tables : Tables :=
  set_threads (fun _ => [thread "t" None None; thread "b" (Some "t") (Some 1)])
    (set_messages (fun _ => [row hello; row call; row result]) empty_tables).
Definition world : Sql.World Tables := {| w_tables := tables; w_tick := 0 |}.

Lemma corpus_eq : corpus tables = [hello; call; result].
Proof. vm_compute. reflexivity. Qed.

Lemma closed : db_closed tables.
Proof.
  split.
  - rewrite corpus_eq. apply (pair_closed_pair [hello] "c1" call result); try done.
    + by eexists.
    + by eexists.
    + intros m b ->%list_elem_of_singleton. by intros ->%list_elem_of_singleton.
    + apply (pair_closed_keyless [] hello); [by intros b ->%list_elem_of_singleton|].
      intros m b Hm. by apply elem_of_nil in Hm.
  - apply (bool_decide_eq_true_1 _). vm_compute. reflexivity.
Qed.
End SampleStore.

#[local] Existing Instances SampleCodec.codec calm_env.

Lemma window_scope_closes_witness :
  exists g, run_close (NewProtocolIndex ([SampleStore.result] ++ [SampleStore.call; SampleStore.result])) SampleStore.result f1 = Ok g /\
    SampleStore.result ∈ dg_Messages g.
Proof.
  apply (window_scope_closes SampleStore.world [SampleStore.result] _ f1 SampleStore.result).
  - exact SampleStore.closed.
  - cbn [SampleStore.world w_tables]. rewrite SampleStore.corpus_eq. set_solver.
  - by intros x ->%list_elem_of_singleton.
  - vm_compute. reflexivity.
  - by left.
Defined.

Lemma branch_corpus_closed_witness :
  (TurnStartPosition "t" 2 SampleStore.world).2 = Ok 1 /\ (ThreadCorpus "b" SampleStore.world).2 = Ok [SampleStore.hello] /\
  turn_boundary SampleStore.tables "t" 1 /\ pair_closed [SampleStore.hello].
Proof.
  split; [vm_compute; reflexivity|]. split; [vm_compute; reflexivity|].
  destruct (branch_corpus_closed SampleStore.world "b" SampleStore.closed) as [H1 H2].
  assert (turn_boundary SampleStore.tables "t" 1) as Hb.
  { apply (H1 "t" 2 1); [..|vm_compute; reflexivity].
    - intros a b c [->|[->|[->|[]%elem_of_nil]%elem_of_cons]%elem_of_cons]%elem_of_cons
        [->|[->|[->|[]%elem_of_nil]%elem_of_cons]%elem_of_cons]%elem_of_cons
        [->|[->|[->|[]%elem_of_nil]%elem_of_cons]%elem_of_cons]%elem_of_cons; try done; simpl; lia.
    - exists (SampleStore.row SampleStore.result). split; [do 2 right; by left|done].
    - by intros r [->|[->|[->|[]%elem_of_nil]%elem_of_cons]%elem_of_cons]%elem_of_cons. }
  split; [exact Hb|]. apply H2; [|vm_compute; reflexivity].
  intros r parent bp [->|[->|[]%elem_of_nil]%elem_of_cons]%elem_of_cons Hid Hp Hbp; simpl in *; try done.
  injection Hp as <-. injection Hbp as <-. exact Hb.
Defined.
