(* ===== verification/ThreadApi.v ===== *)
(** * Threads and messages ([service/graph/schema.threads.resolvers.go],
    [schema.messages.resolvers.go], [helpers.go])

    The mutations and queries a client calls on threads: creating, changing
    and deleting them, sending a message, and editing one, which branches the
    thread.  The state is that of [Control] with what was published. *)

From Stdlib Require Import ZArith Lia String Sorting.Sorted.
From stdpp Require Import sorting.
From S2P Require Import Prelude GoFloat GoSort GoStrings GoTime Errors Types Genai Protocol Pairing Sql Storage Embeddings Threads Integrity PbText LocalContext Inserter Runner Registry Control StoreLink.
#[local] Open Scope Z_scope.

(** ** What a client sees of content blocks ([helpers.go]) *)

Definition protoRoleToDisplay (r : Role) : string :=
  match r with
  | ROLE_USER => "user"
  | ROLE_ASSISTANT => "assistant"
  | ROLE_SYSTEM => "system"
  | _ => "unknown"
  end.

Definition protoContentToDisplay (blocks : list ContentBlock) : string :=
  join (nl ^^ nl) (omap (fun b => match b with BText t => Some (tx_Text t) | _ => None end) blocks).

Definition protoToolCalls (blocks : list ContentBlock) : list ToolCallContent :=
  omap (fun b => match b with BToolCall c => Some c | _ => None end) blocks.

Definition protoToolResults (blocks : list ContentBlock) : list ToolResultContent :=
  omap (fun b => match b with BToolResult r => Some r | _ => None end) blocks.

Definition protoThinkingContent (blocks : list ContentBlock) : string :=
  join (nl ^^ nl) (omap (fun b => match b with BThinking t => Some (th_Text t) | _ => None end) blocks).

Definition protoAttachments (blocks : list ContentBlock) : list AttachmentContent :=
  omap (fun b => match b with BAttachment a => Some a | _ => None end) blocks.

Record AttachmentInput := {
  ai_ID : string; ai_Filename : string; ai_MimeType : string; ai_SizeBytes : Z; ai_Path : string;
  ai_InlinedText : option string
}.

(** A nil input is skipped. *)
Definition attachmentInputsToBlocks (inputs : list (option AttachmentInput)) : list AttachmentContent :=
  omap (fun i => (fun a => {| at_Id := ai_ID a; at_Filename := ai_Filename a; at_MimeType := ai_MimeType a;
                              at_SizeBytes := ai_SizeBytes a; at_Path := ai_Path a;
                              at_InlinedText := default "" (ai_InlinedText a) |}) <$> i) inputs.

(** ** The state *)

(** An event about a thread; a deletion or archival carries the id alone. *)
Record ThreadStateEvent := { te_ThreadID : string; te_Name : string; te_State : option (AgentStatus * AgentMode) }.

Record Api := { ap_ct : Control; ap_events : list ThreadStateEvent; ap_notices : list Notice }.

Definition set_ct (c : Control) (a : Api) : Api :=
  {| ap_ct := c; ap_events := ap_events a; ap_notices := ap_notices a |}.
Definition add_event (e : ThreadStateEvent) (a : Api) : Api :=
  {| ap_ct := ap_ct a; ap_events := ap_events a ++ [e]; ap_notices := ap_notices a |}.
Definition add_notices (l : list Notice) (a : Api) : Api :=
  {| ap_ct := ap_ct a; ap_events := ap_events a; ap_notices := ap_notices a ++ l |}.
Definition ap_tables (a : Api) : Tables := ct_tables (ap_ct a).

Section Api.
Context {env : Env} {srt : SliceSort} {codec : ProtoCodec} {J : Type} {json : Json J}.
Context (Build : string -> outcome Entry) (modelName : string) (inserter : Inserter).
Context (created_before : Z * Z -> Z * Z -> bool).
(** [os.Getwd()] *)
Context (cwd : option string).
#[local] Abbreviation M := (GoM Api).

Definition ctl {A} (m : GoM Control A) : M A := fun a => let r := m (ap_ct a) in (set_ct r.1 a, r.2).
Definition adb {A} (m : GoM (World Tables) A) : M A := ctl (cdb m).

Definition publishThreadState (e : ThreadStateEvent) : M unit := fun a => (add_event e a, Ok tt).
Definition gone_event (id : string) : ThreadStateEvent := {| te_ThreadID := id; te_Name := ""; te_State := None |}.

(** ** Threads *)

Definition CreateThread (name : option string) (workingDirs : list string) (sandboxed : option bool) : M Thread :=
  nano ← adb now;
  created ← adb now;
  let t := {| th_Id := "thread-" ^^ itoa nano; th_Name := default "" name;
              th_WorkingDirs := match workingDirs, cwd with [], Some d => [d] | l, _ => l end;
              th_Sandboxed := default true sandboxed; th_CreatedAt := Some (timestamp_of created);
              th_ParentThreadId := None; th_BranchPointPosition := None; th_ArchivedAt := None |} in
  _ ← adb (Threads.CreateThread t);
  _ ← publishThreadState {| te_ThreadID := th_Id t; te_Name := th_Name t;
                            te_State := Some (AgentStatusIdle, AgentModeNormal) |};
  mret t.

(** The live runner froze the old values. *)
Definition runner_stale (workingDirs : option (list string)) (sandboxed : option bool) (t : Thread) : bool :=
  match sandboxed with Some b => negb (eqb b (th_Sandboxed t)) | None => false end ||
  match workingDirs with Some l => negb (bool_decide (l = th_WorkingDirs t)) | None => false end.

Definition UpdateThread (id : string) (name : option string) (workingDirs : option (list string))
    (sandboxed : option bool) : M Thread :=
  t ← adb (GetThread id);
  let t' := {| th_Id := th_Id t; th_Name := default (th_Name t) name;
               th_WorkingDirs := default (th_WorkingDirs t) workingDirs;
               th_Sandboxed := default (th_Sandboxed t) sandboxed; th_CreatedAt := th_CreatedAt t;
               th_ParentThreadId := th_ParentThreadId t; th_BranchPointPosition := th_BranchPointPosition t;
               th_ArchivedAt := th_ArchivedAt t |} in
  _ ← adb (Threads.UpdateThread t');
  _ ← (if runner_stale workingDirs sandboxed t then ctl (stopRunner id) else mret tt);
  mret t'.

(** The result of the second statement is dropped. *)
Definition DeleteThread (id : string) : M bool :=
  _ ← adb (Threads.DeleteThread id);
  _ ← adb (gom_catch (DeleteEdgesForThread id));
  _ ← publishThreadState (gone_event id);
  mret true.

Definition ArchiveThread (id : string) : M bool :=
  _ ← adb (Threads.ArchiveThread id);
  _ ← publishThreadState (gone_event id);
  mret true.

Definition UnarchiveThread (id : string) : M bool :=
  _ ← adb (Threads.UnarchiveThread id);
  _ ← publishThreadState (gone_event id);
  mret true.

Definition Threads_query (includeArchived : option bool) : M (list Thread) :=
  adb (ListThreads created_before (default false includeArchived)).

(** [None] for a thread that does not exist. *)
Definition Thread_query (id : string) : M (option Thread) := fun a =>
  match adb (GetThread id) a with
  | (a', Ok t) => (a', Ok (Some t))
  | (a', Err e) => (a', if bool_decide (e = sql_ErrNoRows) then Ok None else Err e)
  | (a', Panic p) => (a', Panic p)
  end.

(** The state of a thread's agent, if it can be read. *)
Definition agent_row (threadID : string) : M (option AgentState) := fun a =>
  match adb (GetAgentState threadID) a with
  | (a', Ok st) => (a', Ok (Some st))
  | (a', Err _) => (a', Ok None)
  | (a', Panic p) => (a', Panic p)
  end.

Definition Status (t : Thread) : M AgentStatus :=
  st ← agent_row (th_Id t);
  mret (match st with Some s => as_Status s | None => AgentStatusIdle end).

Definition Mode (t : Thread) : M AgentMode :=
  st ← agent_row (th_Id t);
  mret (match st with Some s => as_Mode s | None => AgentModeNormal end).

(** ** Recent activity *)

Record ActivityItem := { ac_ThreadID : string; ac_ThreadName : string; ac_Summary : string; ac_Timestamp : Z * Z }.

Definition after (a b : Z * Z) : bool := (b.1 <? a.1) || ((b.1 =? a.1) && (b.2 <? a.2)).

(** The inner loop: the new item moves past the older ones before it; the
    sorted part is held in reverse. *)
Fixpoint sift (x : ActivityItem) (rev_sorted : list ActivityItem) : list ActivityItem :=
  match rev_sorted with
  | y :: l => if after (ac_Timestamp x) (ac_Timestamp y) then y :: sift x l else x :: y :: l
  | [] => [x]
  end.

Definition newest_first (items : list ActivityItem) : list ActivityItem :=
  rev (fold_left (fun sorted x => sift x sorted) items []).

Definition summary (blocks : list ContentBlock) : string :=
  let s := TextFromBlocks blocks in
  if (80 <? slen s)%nat then stake 77 s ^^ "..." else s.

Definition activity (items : list ActivityItem) (t : Thread) : M (list ActivityItem) :=
  last ← adb (LatestMessage (th_Id t));
  mret (match last with
        | None => items
        | Some m => items ++ [{| ac_ThreadID := th_Id t; ac_ThreadName := th_Name t; ac_Summary := summary (m_Content m);
                                 ac_Timestamp := AsTime (m_CreatedAt m) |}]
        end).

(** [items[:lim]] with a negative bound panics. *)
Definition RecentActivity (limit : option Z) : M (list ActivityItem) :=
  let lim := default 10 limit in
  threads ← adb (wrapping "list threads: " (ListThreads created_before false));
  items ← foldM activity [] threads;
  let items := newest_first items in
  if lim <? Z.of_nat (length items)
  then if lim <? 0 then gom_lift (Panic "slice bounds out of range") else mret (take (Z.to_nat lim) items)
  else mret items.

(** ** Messages *)

Definition branch_name (name : string) : string := name ^^ " (branch)".

(** Editing a message starts a branch of the thread at the start of its turn. *)
Definition EditMessage (threadID : string) (messagePosition : Z) (newContent : string) : M Thread :=
  parent ← adb (GetThread threadID);
  branchPos ← adb (TurnStartPosition threadID messagePosition);
  n1 ← adb now;
  n2 ← adb now;
  let newThread := {| th_Id := "thread-" ^^ itoa n1; th_Name := branch_name (th_Name parent);
                      th_WorkingDirs := th_WorkingDirs parent; th_Sandboxed := th_Sandboxed parent;
                      th_CreatedAt := Some (timestamp_of n2); th_ParentThreadId := Some threadID;
                      th_BranchPointPosition := Some branchPos; th_ArchivedAt := None |} in
  _ ← adb (Threads.CreateThread newThread);
  n3 ← adb now;
  let msg := {| m_Id := "msg-" ^^ th_Id newThread ^^ "-0"; m_Role := ROLE_USER; m_Content := BlocksFromText newContent;
                m_Position := branchPos; m_ThreadId := th_Id newThread; m_CreatedAt := None;
                m_TurnId := "turn-" ^^ th_Id newThread ^^ "-" ^^ itoa n3 |} in
  _ ← ctl (storeMessage inserter msg);
  mret newThread.

Definition Messages_query (threadID : string) (limit offset : option Z) : M (list Message) :=
  adb (ListMessages threadID (default 0 limit) (default 0 offset)).

(** The turn on the runner with handle [h]. *)
Definition run_turn (threadID : string) (h : nat) (run : option string -> RunState -> list (Yield J))
    (content : string) (attachments : list AttachmentContent) : M Message := fun a =>
  let c := ap_ct a in
  let r := SendMessage threadID modelName (Some inserter) run content attachments
             {| rs_ins := ct_ins c; rs_msgSeq := default 0 (ct_seq c !! h); rs_currentTurnID := "";
                rs_tick := {| tickAssemble := no_telemetry; tickAssembleSet := false; tickAssembleCount := 0;
                  tickRunStart := None; tickFirstEvent := None; tickPersistMs := 0; tickCorpusSize := 0;
                  tickUsagePredicted := 0; tickUsagePrompt := 0; tickUsageCompletion := 0; tickRound := 0 |};
                rs_notices := [] |} in
  (add_notices (rs_notices r.1) (set_ct (set_seq <[h := rs_msgSeq r.1]> (set_ct_ins (rs_ins r.1) c)) a), r.2).

Definition publish_plan (threadID : string) (st : AgentState) : M unit := fun a =>
  let plan := plans_Get threadID (ap_ct a) in
  (set_ct (add_update {| up_ThreadID := threadID; up_Status := AgentStatusIdle; up_Mode := as_Mode st; up_RoundCount := 0;
                         up_DurationLimit := None;
                         up_PlanContent := if String.eqb plan "" then None else Some plan |} (ap_ct a)) a, Ok tt).

(** The deferred publish: the thread reads as idle again, unless an autonomous
    run owns its state. *)
Definition publish_idle (threadID : string) : M unit :=
  st ← agent_row threadID;
  match st with
  | None => mret tt
  | Some st =>
      if bool_decide (as_Mode st = AgentModeAutonomous) && bool_decide (as_Status st = AgentStatusRunning) then mret tt
      else
        err ← adb (gom_catch (SetAgentStatus threadID AgentStatusIdle));
        match err with
        | Some _ => mret tt
        | None => publish_plan threadID st
        end
  end.

(** [f] runs when [m] has returned, whatever it returned. *)
Definition deferring {A} (m : M A) (f : M unit) : M A := fun a =>
  let r := m a in
  let d := f r.1 in
  (d.1, match d.2 with Panic p => Panic p | _ => r.2 end).

Definition scope_of (scope : option SelectionScope) : SelectionScope :=
  match scope with
  | Some SELECTION_SCOPE_THREAD => SELECTION_SCOPE_THREAD
  | _ => SELECTION_SCOPE_ALL_THREADS
  end.

(** A stopped turn is no error. *)
Definition reply (m : M Message) : M (option Message) := fun a =>
  match m a with
  | (a', Ok msg) => (a', Ok (Some msg))
  | (a', Err e) => (a', if err_is e EStopped then Ok None else Err (EWrap "send message: " e ""))
  | (a', Panic p) => (a', Panic p)
  end.

(** The reply, or [None] for a turn the user stopped.  What the framework
    yields depends on the scope. *)
Definition SendMessage_mutation (run : SelectionScope -> option string -> RunState -> list (Yield J))
    (threadID content : string) (scope : option SelectionScope) (attachments : list (option AttachmentInput))
    : M (option Message) :=
  corpus ← adb (wrapping "load corpus: " (ThreadCorpus threadID));
  _ ← (if bool_decide (corpus = []) && negb (String.eqb content "")
       then adb (wrapping "update thread name: " (UpdateThreadName threadID (TruncateThreadName content)))
       else mret tt);
  runner ← ctl (get_runner Build ("get runner: build runner " ^^ threadID ^^ ": ") threadID);
  deferring
    (h ← ctl (the_runner runner);
     reply (run_turn threadID h (run (scope_of scope)) content (attachmentInputsToBlocks attachments)))
    (publish_idle threadID).

End Api.

(** ** Recent activity is sorted *)

Definition newer (a b : ActivityItem) : Prop := after (ac_Timestamp b) (ac_Timestamp a) = false.

Lemma after_asym a b : after a b = true -> after b a = false.
Proof.
  unfold after. intros [H%Z.ltb_lt|[H1%Z.eqb_eq H2%Z.ltb_lt]%andb_true_iff]%orb_true_iff; apply orb_false_iff; split.
  - apply Z.ltb_ge. lia.
  - apply andb_false_iff. left. apply Z.eqb_neq. lia.
  - apply Z.ltb_ge. lia.
  - apply andb_false_iff. right. apply Z.ltb_ge. lia.
Qed.

Lemma after_cotrans a b c : after a c = true -> after a b = true \/ after b c = true.
Proof. unfold after. rewrite !orb_true_iff, !andb_true_iff, !Z.ltb_lt, !Z.eqb_eq. lia. Qed.

Lemma sift_perm x l : sift x l ≡ₚ x :: l.
Proof. induction l as [|y l IH]; cbn; [done|]. destruct (after _ _); [|done]. rewrite IH. constructor. Qed.

#[local] Instance newer_trans : Transitive (flip newer).
Proof.
  intros a b c. unfold flip, newer. intros Hab Hbc. destruct (after (ac_Timestamp a) (ac_Timestamp c)) eqn:E; [|done].
  destruct (after_cotrans _ (ac_Timestamp b) _ E); congruence.
Qed.

Lemma sift_sorted x l : StronglySorted (flip newer) l -> StronglySorted (flip newer) (sift x l).
Proof.
  induction 1 as [|y l Hl IH Hy]; cbn; [repeat constructor|].
  destruct (after (ac_Timestamp x) (ac_Timestamp y)) eqn:E.
  - constructor; [done|]. rewrite sift_perm. constructor; [|done]. by apply after_asym.
  - constructor; [by constructor|]. constructor; [done|]. eapply Forall_impl; [exact Hy|]. intros z Hz.
    by transitivity y.
Qed.

(** The insertion sort of [RecentActivity] is a sort, newest first. *)
Lemma newest_first_spec items :
  newest_first items ≡ₚ items /\ StronglySorted newer (newest_first items).
Proof.
  assert (forall acc, StronglySorted (flip newer) acc ->
    StronglySorted (flip newer) (fold_left (fun sorted x => sift x sorted) items acc) /\
    fold_left (fun sorted x => sift x sorted) items acc ≡ₚ items ++ acc) as H.
  { induction items as [|x items IH]; intros acc Hacc; cbn [fold_left app]; [done|].
    destruct (IH (sift x acc) (sift_sorted x acc Hacc)) as [Hs Hp]. split; [done|].
    by rewrite Hp, sift_perm, Permutation_middle. }
  destruct (H [] ltac:(constructor)) as [Hs Hp]. rewrite app_nil_r in Hp. unfold newest_first. split.
  - by rewrite Permutation_rev, rev_involutive.
  - clear Hp H. induction Hs as [|x l Hl IH Hx]; cbn; [constructor|].
    apply StronglySorted_app_2; [|done|repeat constructor].
    intros y z Hy%list_elem_of_In%in_rev%list_elem_of_In ->%list_elem_of_singleton.
    rewrite Forall_forall in Hx. by apply Hx.
Qed.

(** ** Editing a message *)

Section Edit.
Context {env : Env} {srt : SliceSort} {codec : ProtoCodec}.
Context (inserter : Inserter).
Hypothesis Hcfg : configured inserter.

(** A call that keeps a property of the tables whatever it returns. *)
Definition akeeps {A} (P : Tables -> Prop) (m : GoM Api A) : Prop :=
  forall a, P (ap_tables a) -> P (ap_tables (m a).1).

Lemma akeeps_bind {A B} P (m : GoM Api A) (f : A -> GoM Api B) :
  akeeps P m -> (forall x, akeeps P (f x)) -> akeeps P (m ≫= f).
Proof.
  intros Hm Hf a Ha. specialize (Hm a Ha). unfold mbind, gom_bind. destruct (m a) as [a' [x| |]]; [by apply Hf|done..].
Qed.

Lemma akeeps_adb {A} P (m : GoM (World Tables) A) : keeps P m -> akeeps P (adb m).
Proof. intros Hm a Ha. by apply (Hm (ct_world (ap_ct a))). Qed.

Lemma closed_messages t t' : tb_messages t' = tb_messages t -> db_closed t -> db_closed t'.
Proof. unfold db_closed, corpus. by intros ->. Qed.

Lemma insert_thread_steps r : steps (exec (insert_thread r)) (fun t _ t' =>
  ~ t_id r ∈ t_id <$> tb_threads t /\ tb_messages t' = tb_messages t /\ tb_threads t' = tb_threads t ++ [r]).
Proof.
  eapply steps_mono; [apply atomic_steps, exec_atomic|]. intros t u t' E. unfold insert_thread in E.
  destruct (thread_exists (t_id r) t) eqn:Ee; [done|]. unfold thread_exists in Ee. apply bool_decide_eq_false in Ee.
  split; [done|]. destruct (t_parent r); [destruct (_ || _); [|done]|]; by injection E as <-.
Qed.

Lemma insert_dir_steps d : steps (exec (insert_dir d)) (fun t _ t' =>
  tb_messages t' = tb_messages t /\ tb_threads t' = tb_threads t).
Proof.
  eapply steps_mono; [apply atomic_steps, exec_atomic|]. intros t u t' E. unfold insert_dir in E.
  destruct (bool_decide _); [done|]. destruct (thread_exists _ _); [|done]. by injection E as <-.
Qed.

#[local] Instance same_rows : PreOrder (fun t t' => tb_messages t' = tb_messages t /\ tb_threads t' = tb_threads t).
Proof. split; [done|]. by intros x y z [-> ->] [-> ->]. Qed.

Lemma CreateThread_steps th : steps (Threads.CreateThread th) (fun t _ t' =>
  ~ th_Id th ∈ t_id <$> tb_threads t /\ tb_messages t' = tb_messages t /\ tb_threads t' = tb_threads t ++ [thread_row th]).
Proof.
  eapply steps_mono.
  - eapply steps_bind; [apply insert_thread_steps|]. intros u.
    apply (foldM_steps _ (fun t t' => tb_messages t' = tb_messages t /\ tb_threads t' = tb_threads t)).
      intros x b _. apply insert_dir_steps.
  - intros t u t' (x & t1 & (Hf & Hm & Ht) & Hm' & Ht'). split; [done|]. by rewrite Hm', Ht'.
Qed.

Lemma CreateThread_closed th : keeps db_closed (Threads.CreateThread th).
Proof.
  unfold Threads.CreateThread. apply keeps_bind; [|intros _; apply keeps_foldM; intros _ d]; apply keeps_exec; intros t t' Ht E.
  - unfold insert_thread in E. destruct (thread_exists _ _); [done|].
    destruct (t_parent _); [destruct (_ || _); [|done]|]; injection E as <-; by apply (closed_messages t).
  - unfold insert_dir in E. destruct (bool_decide _); [done|]. destruct (thread_exists _ _); [|done].
    injection E as <-. by apply (closed_messages t).
Qed.

(** Storing a message through the inserter. *)
Lemma storeMessage_run msg c : exists msg' cs err,
  stamped msg msg' /\ wrote_or_not [(msg', cs)] err (ct_tables c) (ct_tables (storeMessage inserter msg c).1) /\
  (storeMessage inserter msg c).2 = match err with None => Ok tt | Some e => Err e end.
Proof.
  destruct (Insert_run inserter Hcfg msg (ct_ins c)) as (s' & msg' & cs & err & E & _ & Hs & Hw & _).
  exists msg', cs, err. unfold storeMessage. rewrite E. split; [done|]. split; [done|]. by destruct err.
Qed.

Lemma storeMessage_closed msg : keyless msg -> akeeps db_closed (ctl (storeMessage inserter msg)).
Proof.
  intros Hk a [Hp Hn]. destruct (storeMessage_run msg (ap_ct a)) as (msg' & cs & err & Hs & Hw & _).
  change (ap_tables (ctl (storeMessage inserter msg) a).1) with (ct_tables (storeMessage inserter msg (ap_ct a)).1).
  split; [|by eapply nodup_wrote]. rewrite (corpus_wrote _ _ _ _ Hw). destruct err; [by rewrite app_nil_r|].
  apply pair_closed_keyless; [|done]. destruct (stamped_fields _ _ Hs) as [Hc _]. cbn. unfold keyless. by rewrite Hc.
Qed.

Lemma text_keyless (m : Message) text : m_Content m = BlocksFromText text -> keyless m.
Proof. unfold keyless. intros ->. by intros b ->%list_elem_of_singleton. Qed.

Lemma keeps_GetThread P id : keeps P (GetThread id).
Proof.
  apply keeps_bind; [apply keeps_query|]. intros [r|]; [|apply keeps_err].
  apply keeps_bind; [apply keeps_query|]. intros dirs. apply keeps_ret.
Qed.

Lemma keeps_TurnStartPosition P threadID position : keeps P (TurnStartPosition threadID position).
Proof.
  apply keeps_bind; [apply keeps_query|]. intros [r|]; [|apply keeps_ret].
  destruct (String.eqb _ _); [apply keeps_ret|]. apply keeps_bind; [apply keeps_query|]. intros rows. apply keeps_lift.
Qed.

Lemma keeps_now P : keeps P now.
Proof. by intros w. Qed.

Lemma EditMessage_keeps threadID position content : akeeps db_closed (EditMessage inserter threadID position content).
Proof.
  unfold EditMessage.
  apply akeeps_bind; [apply akeeps_adb, keeps_GetThread|]. intros parent.
  apply akeeps_bind; [apply akeeps_adb, keeps_TurnStartPosition|]. intros bp.
  do 2 (apply akeeps_bind; [apply akeeps_adb, keeps_now|]; intros ?).
  apply akeeps_bind; [apply akeeps_adb, CreateThread_closed|]. intros _.
  apply akeeps_bind; [apply akeeps_adb, keeps_now|]. intros n.
  apply akeeps_bind; [by eapply storeMessage_closed, text_keyless|]. by intros _ a.
Qed.

(** ** What a successful edit does *)

Lemma ctl_ok {A} (m : GoM Control A) a a' x : ctl m a = (a', Ok x) ->
  (m (ap_ct a)).2 = Ok x /\ ap_tables a' = ct_tables (m (ap_ct a)).1.
Proof. intros E. injection E as <- E. by split. Qed.

Lemma adb_ok {A} (m : GoM (World Tables) A) a a' x : adb m a = (a', Ok x) ->
  (m (ct_world (ap_ct a))).2 = Ok x /\ ap_tables a' = w_tables (m (ct_world (ap_ct a))).1.
Proof. intros E. injection E as <- E. by split. Qed.

Lemma adb_reads {A} (m : GoM (World Tables) A) a a' x :
  (forall t, keeps (fun t' => t' = t) m) -> adb m a = (a', Ok x) ->
  (m (ct_world (ap_ct a))).2 = Ok x /\ ap_tables a' = ap_tables a.
Proof. intros Hk [Hx ->]%adb_ok. split; [done|]. by apply (Hk (ap_tables a)). Qed.

Lemma GetThread_exists id w t : (GetThread id w).2 = Ok t -> id ∈ t_id <$> tb_threads (w_tables w).
Proof.
  unfold GetThread. intros (w1 & _ & Hk)%query_bind_ok. destruct (find _ _) as [r|] eqn:E; [|done].
  apply find_some in E as [Hr%list_elem_of_In <-%String.eqb_eq]. by apply list_elem_of_fmap_2.
Qed.

(** The branch, its seed message, and nothing else. *)
Definition branched (threadID content : string) (bp : Z) (th : Thread) (msg : Message) (t t' : Tables) : Prop :=
  th_ParentThreadId th = Some threadID /\ th_BranchPointPosition th = Some bp /\
  ~ th_Id th ∈ t_id <$> tb_threads t /\ tb_threads t' = tb_threads t ++ [thread_row th] /\
  m_Content msg = BlocksFromText content /\ m_ThreadId msg = th_Id th /\ m_Position msg = bp /\
  corpus t' = corpus t ++ [msg] /\
  exists r, tb_messages t' = tb_messages t ++ [r] /\ r_thread_id r = th_Id th.

Lemma EditMessage_ok threadID position content a a' th :
  EditMessage inserter threadID position content a = (a', Ok th) ->
  threadID ∈ t_id <$> tb_threads (ap_tables a) /\
  exists w bp msg, w_tables w = ap_tables a /\ (TurnStartPosition threadID position w).2 = Ok bp /\
    branched threadID content bp th msg (ap_tables a) (ap_tables a').
Proof.
  unfold EditMessage.
  intros (a1 & parent & [E1 H1]%(adb_reads _ _ _ _ (fun t => keeps_GetThread _ _)) & H)%gom_bind_ok'.
  apply GetThread_exists in E1. split; [done|].
  apply gom_bind_ok' in H as (a2 & bp & [E2 H2]%(adb_reads _ _ _ _ (fun t => keeps_TurnStartPosition _ _ _)) & H).
  apply gom_bind_ok' in H as (a3 & n1 & [_ H3]%(adb_reads _ _ _ _ (fun t => keeps_now _)) & H).
  apply gom_bind_ok' in H as (a4 & n2 & [_ H4]%(adb_reads _ _ _ _ (fun t => keeps_now _)) & H).
  apply gom_bind_ok' in H as (a5 & [] & [E5 H5]%adb_ok & H).
  apply gom_bind_ok' in H as (a6 & n3 & [_ H6]%(adb_reads _ _ _ _ (fun t => keeps_now _)) & H).
  apply gom_bind_ok' in H as (a7 & [] & E7 & H). injection H as <- Hth.
  exists (ct_world (ap_ct a1)), bp.
  destruct (Threads.CreateThread _ (ct_world (ap_ct a4))) as [w5 o] eqn:Ec in E5, H5. cbn in E5, H5. subst o.
  apply CreateThread_steps in Ec as (Hfresh & Hmsgs & Hthreads). cbn [th_Id] in Hfresh.
  change (w_tables (ct_world (ap_ct a4))) with (ap_tables a4) in *. rewrite <- H5 in *.
  set (m := {| m_Id := _ |}) in E7. destruct (storeMessage_run m (ap_ct a6)) as (msg & cs & err & Hs & Hw & Ho).
  apply ctl_ok in E7 as [E7 H7]. rewrite Ho in E7. rewrite <- H7 in Hw. destruct err; [done|].
  exists msg. split; [done|]. split; [done|].
  change (ct_tables (ap_ct a6)) with (ap_tables a6) in Hw.
  destruct Hw as (rows & Hrows & (Hm7 & _ & Hother & _) & Hc7).
  apply Forall2_cons_inv_l in Hrows as (r & rows' & (text & _ & Hr) & ->%Forall2_nil_inv_l & ->).
  destruct (stamped_fields _ _ Hs) as (F1 & F2 & _ & _ & F5 & _).
  assert (ap_tables a4 = ap_tables a) as E4 by congruence. rewrite E4 in *.
  assert (tb_threads (ap_tables a7) = tb_threads (ap_tables a6)) as Ht.
  { apply (f_equal tb_threads) in Hother. exact Hother. }
  assert (corpus (ap_tables a6) = corpus (ap_tables a)) as Hcorp by (unfold corpus; congruence).
  rewrite <- Hth. split; [done|]. split; [done|]. split; [exact Hfresh|]. split; [by rewrite Ht, H6|].
  split; [exact F1|]. split; [exact F2|]. split; [exact F5|]. split; [by rewrite Hc7, Hcorp|].
  exists r. split; [by rewrite Hm7, H6, Hmsgs|]. rewrite Hr. exact F2.
Qed.

Lemma branched_boundary threadID content bp th msg t t' :
  branched threadID content bp th msg t t' -> threadID ∈ t_id <$> tb_threads t ->
  turn_boundary t threadID bp -> turn_boundary t' threadID bp.
Proof.
  intros (_ & _ & Hf & _ & _ & _ & _ & _ & r & Hm & Hr) Hin Hb x y.
  rewrite Hm. intros Hx Hy Hxt Hyt. apply elem_of_app in Hx as [Hx| ->%list_elem_of_singleton]; [|exfalso; apply Hf; congruence].
  apply elem_of_app in Hy as [Hy| ->%list_elem_of_singleton]; [|exfalso; apply Hf; congruence]. by apply Hb.
Qed.

Lemma corpus_threads t m : integrity t -> m ∈ corpus t -> m_ThreadId m ∈ t_id <$> tb_threads t.
Proof.
  intros [Hr _] (r & Hin & Hm)%elem_of_corpus. pose proof (ok_message_threads t Hr r Hin) as Ht.
  revert Hm. unfold row_message, mbind, outcome_bind. destruct (unmarshalContentBlocks _); [|done..]. by intros [= <-].
Qed.

(** A fresh id finds the branch's own row. *)
Lemma branch_of_new threadID content bp th msg t w :
  branched threadID content bp th msg t (w_tables w) -> e_fault (w_tick w) = None ->
  (branch_of (th_Id th) w).2 = Ok (Some threadID, Some bp).
Proof.
  intros (Hp & Hb & Hf & Ht & _) Hcalm. unfold branch_of, query, statement. rewrite Hcalm. cbn [fst snd w_tables set_tables].
  rewrite Ht. unfold where_. rewrite List.filter_app, (where_none (fun r => String.eqb (t_id r) (th_Id th))).
  - cbn [List.filter app thread_row t_id]. rewrite String.eqb_refl. cbn. by rewrite Hp, Hb.
  - intros r Hr. apply String.eqb_neq. intros E. apply Hf. rewrite <- E. by apply list_elem_of_fmap_2.
Qed.

Lemma branch_messages threadID content bp th msg t w c :
  integrity t -> branched threadID content bp th msg t (w_tables w) -> threadID ∈ t_id <$> tb_threads t ->
  e_fault (w_tick w) = None -> threadID <> "" -> (ThreadCorpus (th_Id th) w).2 = Ok c ->
  forall m, m ∈ c <-> (m ∈ corpus t /\ m_ThreadId m = threadID /\ m_Position m < bp) \/ m = msg.
Proof.
  intros Hok Hbr Hin Hcalm Hne (b & prefix & own & Eb & -> & Hown & Hpre)%ThreadCorpus_parts m.
  rewrite (branch_of_new _ _ _ _ _ _ _ Hbr Hcalm) in Eb. injection Eb as <-.
  apply String.eqb_neq in Hne. rewrite Hne in Hpre.
  destruct Hbr as (_ & _ & Hf & _ & _ & Hth & _ & Hc & _).
  rewrite elem_of_app, Hpre, Hown, Hc, elem_of_app, list_elem_of_singleton. split.
  - intros [[[[Hm| ->] Ht] Hlt]|[[Hm| ->] Ht]]; [by left|..].
    + exfalso. apply Hf. congruence.
    + exfalso. apply Hf. rewrite <- Ht. by apply corpus_threads.
    + by right.
  - intros [(Hm & Ht & Hlt)| ->]; [left|right]; [split; [split; [by left|done]|done]|]. split; [by right|done].
Qed.

End Edit.


(** ** The middle of an answered call, edited *)
Module SampleEdit.
#[local] Existing Instances SampleCodec.codec calm_env.

Definition inserter : Inserter := 
  {| chunkConfig := fun _ => {| Chunk.MaxChars := 2000; Chunk.OverlapChars := 200;
       Chunk.Estimator := Some (fun s => Z.of_nat (slen s)) |}; embedEnq := true |}.
Definition start : Api :=
  {| ap_ct := {| ct_ins := {| in_world := SampleStore.world; in_embeds := [] |}; ct_registry := NewRegistry; ct_plans := ∅;
       ct_gates := ∅; ct_seq := ∅; ct_cancels := 0; ct_actions := []; ct_published := []; ct_loops := [] |};
     ap_events := []; ap_notices := [] |}.

Lemma configured_inserter : configured inserter.
Proof. intros w. by eexists. Qed.

Lemma intact : integrity SampleStore.tables.
Proof.
  split; split; try (apply NoDup_nil_2); try (by intros ? []%elem_of_nil); try (by intros ? ? []%elem_of_nil);
    try (apply (bool_decide_eq_true_1 _); vm_compute; reflexivity).
  - intros r p [->|[->|[]%elem_of_nil]%elem_of_cons]%elem_of_cons; [done|]. intros [= <-]. by left.
  - intros r [->|[->|[->|[]%elem_of_nil]%elem_of_cons]%elem_of_cons]%elem_of_cons; by left.
Qed.

Lemma ordered : turns_ordered SampleStore.tables "t".
Proof.
  intros a b c [->|[->|[->|[]%elem_of_nil]%elem_of_cons]%elem_of_cons]%elem_of_cons
    [->|[->|[->|[]%elem_of_nil]%elem_of_cons]%elem_of_cons]%elem_of_cons
    [->|[->|[->|[]%elem_of_nil]%elem_of_cons]%elem_of_cons]%elem_of_cons; cbn; try congruence; lia.
Qed.
End SampleEdit.

#[local] Existing Instances SampleCodec.codec calm_env.

