(* ===== verification/Search.v ===== *)
(** * Semantic search and background embedding ([service/search])

    The searcher over the shared index, the embedding of a stored message's
    chunks through the store and its observer, and the queue that runs it on a
    fixed pool of workers; and the search query of [service/graph]. *)

From Stdlib Require Import ZArith Lia String Sorting.Sorted.
From stdpp Require Import sorting.
From S2P Require Import Prelude GoFloat GoSort GoStrings Types ChunkKey AnnIndex Engine Oracle PbText Sql Storage Embeddings Threads Integrity.
#[local] Open Scope Z_scope.

(** The index is the oracle's own: [se_index] is what it holds at the call. *)
Record Searcher := { se_embedder : Embedder; se_model : string; se_index : option Index }.

Definition Model (s : Searcher) : string := se_model s.

(** ** Search *)

Record SearchResult := { sr_MessageID : string; sr_ChunkIdx : Z; sr_Score : float }.
Record scored := { sd_res : SearchResult; sd_raw : float }.

Definition searchOverfetch : Z := 16.
Definition searchMinShortlist : Z := 128.

(** The best chunk of a message so far; a later one must be strictly better. *)
Definition keep_best (qNorm : float) (best : gmap string scored) (c : Candidate) : gmap string scored :=
  let '(mid, cidx) := Split (cd_Key c) in
  let entry := {| sd_res := {| sr_MessageID := mid; sr_ChunkIdx := cidx; sr_Score := normalizedScore (cd_Score c) qNorm |};
                  sd_raw := cd_Score c |} in
  match best !! mid with
  | Some ex => if flt (sd_raw ex) (cd_Score c) then <[mid := entry]> best else best
  | None => <[mid := entry]> best
  end.

Definition raw_better (a b : scored) : bool := flt (sd_raw b) (sd_raw a).

Section Search.
Context {srt : SliceSort} `{!MapRange string}.

Definition ranked (limit : Z) (best : gmap string scored) : list SearchResult :=
  let results := sort_slice raw_better (map_range best).*2 in
  sd_res <$> (if limit <? Z.of_nat (length results) then take (Z.to_nat limit) results else results).

Definition Search (s : Searcher) (query : string) (limit : Z) : outcome (list SearchResult) :=
  match se_index s with
  | None => Ok []
  | Some ix =>
      if limit <=? 0 then Ok []
      else
        vecs ← se_embedder s RoleQuery [query];
        match vecs with
        | [] | [] :: _ => Ok []
        | qVec :: _ =>
            let shortlist := Z.max (wrap64 (limit * searchOverfetch)) searchMinShortlist in
            r ← AnnIndex.Search ix qVec shortlist "";
            mret (ranked limit (fold_left (keep_best (l2norm qVec)) r.1 ∅))
        end
  end.

(** *** What the grouping keeps *)

(** [s] stands for the candidate [c]. *)
Definition stands_for (qNorm : float) (s : scored) (c : Candidate) : Prop :=
  sr_MessageID (sd_res s) = (Split (cd_Key c)).1 /\ sr_ChunkIdx (sd_res s) = (Split (cd_Key c)).2 /\
  sr_Score (sd_res s) = normalizedScore (cd_Score c) qNorm /\ sd_raw s = cd_Score c.

(** The best candidates of the messages seen so far. *)
Record grouped (qNorm : float) (seen : list Candidate) (best : gmap string scored) : Prop := {
  gr_all : forall c, c ∈ seen -> is_Some (best !! (Split (cd_Key c)).1);
  gr_best : forall mid s, best !! mid = Some s -> sr_MessageID (sd_res s) = mid /\
    (exists c, c ∈ seen /\ stands_for qNorm s c) /\
    forall c, c ∈ seen -> (Split (cd_Key c)).1 = mid -> flt (sd_raw s) (cd_Score c) = false
}.

Lemma grouped_step qNorm seen best c : grouped qNorm seen best -> grouped qNorm (seen ++ [c]) (keep_best qNorm best c).
Proof.
  intros [Hall Hbest]. unfold keep_best. destruct (Split (cd_Key c)) as [mid cidx] eqn:Es.
  set (entry := {| sd_res := _ |}).
  assert (stands_for qNorm entry c) as Hentry by (unfold stands_for; by rewrite Es).
  assert (forall (Hnew : forall c', c' ∈ seen -> (Split (cd_Key c')).1 = mid -> flt (cd_Score c) (cd_Score c') = false),
    grouped qNorm (seen ++ [c]) (<[mid := entry]> best)) as Hput.
  { intros Hnew. split.
    - intros c' [Hc'| ->%list_elem_of_singleton]%elem_of_app; rewrite lookup_insert_is_Some'; [right; by apply Hall|left; by rewrite Es].
    - intros m s. rewrite lookup_insert. case_decide as Hm.
      + intros [= <-]. subst m. split; [done|]. split; [exists c; split; [set_solver|done]|].
        intros c' [Hc'| ->%list_elem_of_singleton]%elem_of_app Hmid; [by apply Hnew|apply flt_irrefl].
      + intros Hs. destruct (Hbest m s Hs) as (H1 & (c0 & Hc0 & Hst) & H3). split; [done|].
        split; [exists c0; split; [set_solver|done]|].
        intros c' [Hc'| ->%list_elem_of_singleton]%elem_of_app Hmid; [by apply H3|]. rewrite Es in Hmid. by destruct Hm. }
  destruct (best !! mid) as [ex|] eqn:Eb.
  - destruct (Hbest mid ex Eb) as (H1 & (c0 & Hc0 & Hst) & H3).
    destruct (flt (sd_raw ex) (cd_Score c)) eqn:El.
    + apply Hput. intros c' Hc' Hmid. destruct (flt (cd_Score c) (cd_Score c')) eqn:E; [|done].
      pose proof (flt_trans _ _ _ El E) as Ht. by rewrite (H3 c' Hc' Hmid) in Ht.
    + split.
      * intros c' [Hc'| ->%list_elem_of_singleton]%elem_of_app; [by apply Hall|]. rewrite Es. by eexists.
      * intros m s Hs. destruct (Hbest m s Hs) as (G1 & (c1 & Hc1 & Gst) & G3). split; [done|].
        split; [exists c1; split; [set_solver|done]|].
        intros c' [Hc'| ->%list_elem_of_singleton]%elem_of_app Hmid; [by apply G3|]. rewrite Es in Hmid. cbn in Hmid.
        rewrite <- Hmid, Eb in Hs. by injection Hs as <-.
  - apply Hput. intros c' Hc' Hmid. destruct (Hall c' Hc') as [s Hs]. rewrite Hmid, Eb in Hs. done.
Qed.

Lemma grouped_fold qNorm l seen best :
  grouped qNorm seen best -> grouped qNorm (seen ++ l) (fold_left (keep_best qNorm) l best).
Proof.
  revert seen best. induction l as [|c l IH]; intros seen best Hg; cbn [fold_left]; [by rewrite app_nil_r|].
  rewrite (app_assoc seen [c] l : seen ++ c :: l = _). by apply IH, grouped_step.
Qed.

Lemma grouped_all qNorm l : grouped qNorm l (fold_left (keep_best qNorm) l ∅).
Proof. apply (grouped_fold qNorm l [] ∅). split; [by intros c Hc%elem_of_nil|]. intros mid s. by rewrite lookup_empty. Qed.

(** *** What the ranking keeps *)

Lemma range_values (best : gmap string scored) s : s ∈ (map_range best).*2 <-> exists mid, best !! mid = Some s.
Proof.
  rewrite list_elem_of_fmap. split.
  - intros ([mid s'] & -> & Hin). exists mid. by apply elem_of_map_range.
  - intros [mid Hm]. exists (mid, s). split; [done|]. by apply elem_of_map_range.
Qed.

Lemma values_distinct (best : gmap string scored) :
  (forall mid s, best !! mid = Some s -> sr_MessageID (sd_res s) = mid) ->
  NoDup ((fun s => sr_MessageID (sd_res s)) <$> (map_range best).*2).
Proof.
  intros Hid. rewrite <- list_fmap_compose.
  rewrite (Forall_fmap_ext_1 _ fst); [apply map_range_keys_NoDup|].
  apply Forall_forall. intros [mid s] Hin%elem_of_map_range. by apply Hid.
Qed.

Lemma raw_sorted (l : list scored) : (forall s, s ∈ l -> fis_nan (sd_raw s) = false) ->
  StronglySorted (not_after raw_better) (sort_slice raw_better l).
Proof.
  intros Hnan. apply sort_slice_sorted; unfold raw_better; [intros a b _ _; apply flt_asym|].
  intros a b c Ha Hb Hc Hab Hbc. destruct (flt (sd_raw c) (sd_raw a)) eqn:E; [|done].
  destruct (flt_cotrans _ (sd_raw b) _ (Hnan c Hc) (Hnan b Hb) (Hnan a Ha) E); congruence.
Qed.

(** The result for the best chunk [c] of a message. *)
Definition result_for (qNorm : float) (cands : list Candidate) (r : SearchResult) (c : Candidate) : Prop :=
  c ∈ cands /\ (sr_MessageID r, sr_ChunkIdx r) = Split (cd_Key c) /\ sr_Score r = normalizedScore (cd_Score c) qNorm /\
  forall c', c' ∈ cands -> (Split (cd_Key c')).1 = sr_MessageID r -> better c' c = false.

(** The best chunks of the best messages, in order, and all of them when there
    is room. *)
Definition found (qNorm : float) (limit : Z) (cands : list Candidate) (results : list SearchResult) : Prop :=
  Z.of_nat (length results) <= limit /\ NoDup (sr_MessageID <$> results) /\
  (Z.of_nat (length results) < limit -> forall c, c ∈ cands -> (Split (cd_Key c)).1 ∈ sr_MessageID <$> results) /\
  exists picked, Forall2 (result_for qNorm cands) results picked /\
    ((forall c, c ∈ cands -> fis_nan (cd_Score c) = false) ->
      StronglySorted (not_after better) picked /\
      forall c p, c ∈ cands -> ~ (Split (cd_Key c)).1 ∈ sr_MessageID <$> results -> p ∈ picked -> better c p = false).

Lemma sorted_take {A} (R : relation A) n l : StronglySorted R l ->
  StronglySorted R (take n l) /\ forall x y, x ∈ take n l -> y ∈ drop n l -> R x y.
Proof. rewrite <- (take_drop n l) at 1. intros Hs%StronglySorted_app. naive_solver. Qed.

Lemma pick_candidates qNorm cands best l : grouped qNorm cands best ->
  (forall s, s ∈ l -> exists mid, best !! mid = Some s) ->
  exists picked, Forall2 (fun s c => result_for qNorm cands (sd_res s) c /\ sd_raw s = cd_Score c) l picked.
Proof.
  intros [_ Hbest]. induction l as [|s l IH]; intros Hl; [by exists []|].
  destruct IH as [picked Hp]; [intros x Hx; apply Hl; by right|].
  destruct (Hl s ltac:(by left)) as [mid Hm]. destruct (Hbest mid s Hm) as (H1 & (c & Hc & H2 & H3 & H4 & H5) & H6).
  exists (c :: picked). constructor; [|done]. split; [|done]. split; [done|].
  split; [rewrite H2, H3; by destruct (Split (cd_Key c))|]. split; [done|].
  intros c' Hc' Hmid. unfold better. rewrite <- H5. apply H6; congruence.
Qed.

Lemma sorted_raw l picked :
  Forall2 (fun s c => sd_raw s = cd_Score c) l picked -> StronglySorted (not_after raw_better) l ->
  StronglySorted (not_after better) picked.
Proof.
  induction 1 as [|s c l picked Hs Hf IH]; intros Hsort; [constructor|]. apply StronglySorted_inv in Hsort as [Hl Hall].
  constructor; [by apply IH|]. apply Forall_forall. intros c' Hc'. apply list_elem_of_lookup in Hc' as [i Hi].
  destruct (Forall2_lookup_r _ _ _ _ _ Hf Hi) as (s' & Hs' & E). rewrite Forall_forall in Hall.
  pose proof (Hall s' ltac:(by eapply list_elem_of_lookup_2)) as Hn. unfold not_after, raw_better, better in *. congruence.
Qed.

Lemma ranked_found qNorm limit cands : 0 < limit ->
  found qNorm limit cands (ranked limit (fold_left (keep_best qNorm) cands ∅)).
Proof.
  intros Hlim. pose proof (grouped_all qNorm cands) as Hg. set (best := fold_left _ _ _) in *.
  set (all := sort_slice raw_better (map_range best).*2).
  assert (forall s, s ∈ all <-> exists mid, best !! mid = Some s) as Hall
    by (intros s; unfold all; rewrite sort_slice_perm; apply range_values).
  assert (ranked limit best = sd_res <$> take (Z.to_nat limit) all) as ->.
  { unfold ranked. fold all. destruct (Z.ltb_spec limit (Z.of_nat (length all))); [done|]. by rewrite take_ge by lia. }
  assert (NoDup ((fun s => sr_MessageID (sd_res s)) <$> all)) as Hnd.
  { unfold all. rewrite sort_slice_perm. apply values_distinct. intros mid s Hs. by destruct (gr_best _ _ _ Hg mid s Hs). }
  split; [rewrite length_fmap, length_take; lia|]. split.
  { rewrite <- list_fmap_compose. rewrite <- (take_drop (Z.to_nat limit) all), fmap_app in Hnd. by apply NoDup_app in Hnd as [? _]. }
  assert (forall c, c ∈ cands -> exists s, s ∈ all /\ sr_MessageID (sd_res s) = (Split (cd_Key c)).1) as Hcov.
  { intros c Hc. destruct (gr_all _ _ _ Hg c Hc) as [s Hs]. exists s. split; [apply Hall; eauto|]. by destruct (gr_best _ _ _ Hg _ _ Hs). }
  split.
  { rewrite length_fmap, length_take. intros Hlt c Hc. destruct (Hcov c Hc) as (s & Hs & <-).
    rewrite take_ge by lia. apply list_elem_of_fmap_2. by apply list_elem_of_fmap_2. }
  destruct (pick_candidates qNorm cands best (take (Z.to_nat limit) all) Hg) as [picked Hp].
  { intros s Hs. apply Hall. by apply elem_of_take in Hs as (i & Hs%list_elem_of_lookup_2 & _). }
  exists picked. split.
  { apply Forall2_fmap_l. eapply Forall2_impl; [exact Hp|]. by intros s c [? _]. }
  intros Hnan.
  assert (StronglySorted (not_after raw_better) all) as Hsort.
  { apply raw_sorted. intros s [mid Hm]%range_values. destruct (gr_best _ _ _ Hg mid s Hm) as (_ & (c & Hc & _ & _ & _ & ->) & _).
    by apply Hnan. }
  destruct (sorted_take _ (Z.to_nat limit) all Hsort) as [Hs1 Hs2]. split.
  { eapply sorted_raw; [|exact Hs1]. eapply Forall2_impl; [exact Hp|]. by intros s c [_ ?]. }
  intros c p Hc Hno Hin. destruct (Hcov c Hc) as (s & Hs & Hmid).
  assert (s ∈ drop (Z.to_nat limit) all) as Hd.
  { rewrite <- (take_drop (Z.to_nat limit) all) in Hs. apply elem_of_app in Hs as [Hs|Hs]; [|done]. exfalso. apply Hno.
    rewrite <- Hmid. apply list_elem_of_fmap_2. by apply list_elem_of_fmap_2. }
  apply list_elem_of_lookup in Hin as [i Hi]. destruct (Forall2_lookup_r _ _ _ _ _ Hp Hi) as (s' & Hs' & _ & Er).
  pose proof (Hs2 s' s ltac:(by eapply list_elem_of_lookup_2) Hd) as Hn. unfold not_after, raw_better in Hn. rewrite Er in Hn.
  apply Hall in Hs as [mid Hb]. destruct (gr_best _ _ _ Hg mid s Hb) as (Hid & (c0 & Hc0 & _ & _ & _ & Er0) & Hmax).
  pose proof (Hmax c Hc ltac:(congruence)) as Hle. unfold better. destruct (flt (cd_Score p) (cd_Score c)) eqn:E; [|done].
  destruct (Forall2_lookup_r _ _ _ _ _ Hp Hi) as (s'' & Hs'' & (Hpin & _) & _).
  destruct (flt_cotrans _ (sd_raw s) _ (Hnan p Hpin) ltac:(rewrite Er0; by apply Hnan) (Hnan c Hc) E); congruence.
Qed.
End Search.

(** ** Embedding a stored message *)

(** The database and the observer it notifies, which is the oracle's
    [IndexAdd] once the substrate has one. *)
Record Stores := { ss_db : World Tables; ss_observer : option Oracle }.

Section Embed.
Context `{Env, SliceSort}.

Definition sdb {A} (m : GoM (World Tables) A) : GoM Stores A := fun s =>
  let r := m (ss_db s) in ({| ss_db := r.1; ss_observer := ss_observer s |}, r.2).

(** The observer runs once the insertion has committed. *)
Definition notify (messageID : string) (chunkIndex : Z) (modelID threadID : string) (vec : list float) : GoM Stores unit := fun s =>
  match ss_observer s with
  | None => (s, Ok tt)
  | Some o => let r := IndexAdd messageID (Z.to_nat chunkIndex) modelID threadID vec o in
              ({| ss_db := ss_db s; ss_observer := Some r.1 |}, r.2)
  end.

Definition insert_observed (messageID : string) (chunkIndex : Z) (modelID : string) (vec : list float) : GoM Stores unit :=
  sdb (Embeddings.InsertChunkEmbedding messageID chunkIndex modelID vec) ≫= fun thread =>
  notify messageID chunkIndex modelID thread vec.

(** The loop ends with the shorter of the chunks and the vectors. *)
Definition EmbedMessageChunks (s : Searcher) (messageID : string) : GoM Stores unit :=
  sdb (GetChunks messageID) ≫= fun chunks =>
  match chunks with
  | [] => mret tt
  | _ =>
      gom_lift (se_embedder s RoleDocument (c_Text <$> chunks)) ≫= fun vecs =>
      foldM (fun _ cv => insert_observed messageID (c_ChunkIndex cv.1) (se_model s) cv.2) tt (zip chunks vecs)
  end.

(** *** What the cache holds afterwards *)

Definition tables (s : Stores) : Tables := w_tables (ss_db s).

(** Nothing else changed, and a key of the batch may hold its vector. *)
Record cached_from (m model : string) (l : list (Chunk * list float)) (t t' : Tables) : Prop := {
  cf_ok : cache_ok t';
  cf_keys : forall m' i' model', cached t' m' i' model' = cached t m' i' model' \/
    exists cv, cv ∈ l /\ (m', i', model') = (m, c_ChunkIndex cv.1, model) /\ cached t' m' i' model' = Some cv.2
}.

Lemma insert_observed_effect m i model vec s : cache_ok (tables s) -> Forall is_float32 vec ->
  let out := insert_observed m i model vec s in
  maps_to m i model vec (tables s) (tables out.1) \/ tables out.1 = tables s /\ forall u, out.2 <> Ok u.
Proof.
  intros Hok Hvec. unfold tables, insert_observed, sdb, mbind, gom_bind in *. pose proof (InsertChunkEmbedding_atomic m i model vec (ss_db s)) as Ha.
  destruct (Embeddings.InsertChunkEmbedding m i model vec (ss_db s)) as [w [thread|e|p]]; cbn; [left|by right..].
  destruct Ha as (r & _ & _ & _ & He). apply (embedded_maps _ _ _ _ _ _ _ Hok Hvec) in He.
  unfold notify. by destruct (ss_observer s).
Qed.

Lemma zip_keys {A B} (l : list A) (k : list B) : (zip l k).*1 `prefix_of` l.
Proof.
  revert k. induction l as [|a l IH]; intros [|b k]; [done|apply prefix_nil..|]. by apply prefix_cons.
Qed.

Lemma embed_loop m model l s : cache_ok (tables s) -> Forall (fun cv => Forall is_float32 cv.2) l ->
  let out := foldM (M := GoM Stores) (fun _ cv => insert_observed m (c_ChunkIndex cv.1) model cv.2) tt l s in
  cached_from m model l (tables s) (tables out.1) /\
  (forall u, out.2 = Ok u -> NoDup (c_ChunkIndex ∘ fst <$> l) ->
    forall cv, cv ∈ l -> cached (tables out.1) m (c_ChunkIndex cv.1) model = Some cv.2).
Proof.
  revert s. induction l as [|cv l IH]; intros s Hok Hl.
  { split; [split; [done|by left]|]. by intros u _ _ cv ?%elem_of_nil. }
  apply Forall_cons in Hl as [Hv Hl]. cbn [foldM]. unfold mbind, gom_bind.
  pose proof (insert_observed_effect m (c_ChunkIndex cv.1) model cv.2 s Hok Hv) as He.
  destruct (insert_observed m (c_ChunkIndex cv.1) model cv.2 s) as [s1 r]. cbn [fst snd] in He.
  destruct He as [(Hok1 & Hown & Hother)|[Hsame Hno]].
  2: { destruct r as [u| |]; [by destruct (Hno u)|..]; cbn [fst snd]; rewrite Hsame; (split; [split; [done|by left]|done]). }
  assert (cached_from m model (cv :: l) (tables s) (tables s1)) as Hone.
  { split; [done|]. intros m' i' model'. destruct (decide ((m', i', model') = (m, c_ChunkIndex cv.1, model))) as [E|E].
    - right. exists cv. split; [by left|]. split; [done|]. by injection E as -> -> ->.
    - left. by apply Hother. }
  destruct r as [[]|e|p]; [|by split..]. destruct (IH s1 Hok1 Hl) as [[Hok2 Hkeys] Hall].
  destruct (foldM (M := GoM Stores) _ tt l s1) as [s2 r]. cbn [fst snd] in *. split.
  - split; [done|]. intros m' i' model'. destruct (Hkeys m' i' model') as [->|(cv' & Hin & Hk & Hc)].
    + destruct (cf_keys _ _ _ _ _ Hone m' i' model') as [->|?]; [by left|by right].
    + right. exists cv'. split; [by right|done].
  - intros u' Hr [Hnot Hnd]%NoDup_cons cv' [->|Hin]%elem_of_cons; [|by apply (Hall u')].
    destruct (Hkeys m (c_ChunkIndex cv.1) model) as [->|(cv2 & Hin & [= Hk] & _)]; [done|].
    destruct Hnot. apply list_elem_of_fmap. by exists cv2.
Qed.

Lemma embed_runs s m st chunks vecs :
  (GetChunks m (ss_db st)).2 = Ok chunks -> se_embedder s RoleDocument (c_Text <$> chunks) = Ok vecs ->
  exists st1, tables st1 = tables st /\
    (chunks <> [] -> EmbedMessageChunks s m st =
       foldM (M := GoM Stores) (fun _ cv => insert_observed m (c_ChunkIndex cv.1) (se_model s) cv.2) tt (zip chunks vecs) st1) /\
    (chunks = [] -> EmbedMessageChunks s m st = (st1, Ok tt)).
Proof.
  pose proof (query_reads (T := Tables) (fun t => sort_slice by_chunk_index
    (where_ (fun c => String.eqb (c_MessageID c) m) (snd <$> tb_chunks t))) (ss_db st)) as Hr.
  change (query _) with (GetChunks m) in Hr. unfold EmbedMessageChunks, sdb, mbind, gom_bind.
  destruct (GetChunks m (ss_db st)) as [w1 r]. cbn [fst snd] in *. intros -> He.
  exists {| ss_db := w1; ss_observer := ss_observer st |}. split; [done|].
  destruct chunks; [by split|]. split; [|done]. intros _. unfold gom_lift. by rewrite He.
Qed.
End Embed.

(** ** The search query *)

Record SearchHit := { sh_MessageID : string; sh_ThreadID : string; sh_ThreadName : string; sh_Snippet : string; sh_Score : float }.

Section Query.
Context `{Env, SliceSort, ProtoCodec, !MapRange string}.

(** [None] is the nil a message that cannot be loaded leaves in the list. *)
Definition search_hit (res : SearchResult) : GoM (World Tables) (option SearchHit) := fun w =>
  match GetMessage (sr_MessageID res) w with
  | (w1, Err _) => (w1, Ok None)
  | (w1, Panic p) => (w1, Panic p)
  | (w1, Ok msg) =>
      let r := GetThread (m_ThreadId msg) w1 in
      match r.2 with
      | Panic p => (r.1, Panic p)
      | t => (r.1, Ok (Some {| sh_MessageID := sr_MessageID res; sh_ThreadID := m_ThreadId msg;
                               sh_ThreadName := match t with Ok t => th_Name t | _ => "" end;
                               sh_Snippet := TextFromBlocks (m_Content msg); sh_Score := sr_Score res |}))
      end
  end.

Definition Search_query (searcher : option Searcher) (query : string) (limit : option Z)
    : GoM (World Tables) (list (option SearchHit)) :=
  match searcher with
  | None => gom_err (ENew "search unavailable: embedder not configured")
  | Some s =>
      gom_lift (Search s query (default 10 limit)) ≫= fun results =>
      foldM (fun acc res => h ← search_hit res; mret (acc ++ [h])) [] results
  end.
End Query.

(** C33: A search for a positive number of results returns at most that many,
    for distinct messages, in decreasing order of score, each with the best
    chunk of its message among the candidates the index offered; a message is
    left out only when there are enough better ones.  The index is asked for
    sixteen candidates a result and at least 128. *)
Theorem Search_spec `{SliceSort, !MapRange string} (s : Searcher) (ix : Index) (query : string) (limit : Z)
    (qVec : list float) (rest : list (list float))
    (Hix : se_index s = Some ix) (Hok : index_ok ix) (Hembed : se_embedder s RoleQuery [query] = Ok (qVec :: rest))
    (Hne : qVec <> []) (Hdim : length qVec = dim ix \/ dim ix = 0%nat) (Hlimit : 0 < limit < 2 ^ 59) :
  exists cands visited results,
    AnnIndex.Search ix qVec (Z.max (limit * 16) 128) "" = Ok (cands, visited) /\
    Search s query limit = Ok results /\ found (l2norm qVec) limit cands results.
Proof.
  destruct (Search_returns ix qVec (Z.max (limit * 16) 128) "" Hok Hdim ltac:(lia)) as ([cands visited] & E & _).
  exists cands, visited, (ranked limit (fold_left (keep_best (l2norm qVec)) cands ∅)).
  split; [done|]. split; [|apply ranked_found; lia].
  unfold Search. rewrite Hix, Hembed, (proj2 (Z.leb_gt limit 0)) by lia. cbn [mbind outcome_bind].
  destruct qVec as [|x qVec]; [done|]. unfold searchOverfetch, searchMinShortlist.
  rewrite wrap64_id by (unfold in_int64; lia). rewrite E. done.
Qed.

(** Embedding a message's chunks changes the cache only at that message's
    keys under the searcher's model, and only to the vector the embedder gave
    that chunk, whatever statement fails on the way and whatever the observer
    does; when it succeeds every chunk that has a vector holds it. *)
Theorem EmbedMessageChunks_caches `{Env, SliceSort} (s : Searcher) (m : string) (st : Stores) (vecs : list (list float))
    (Hok : cache_ok (w_tables (ss_db st))) (Hvecs : Forall (Forall is_float32) vecs)
    (chunks : list Chunk) (Hchunks : (GetChunks m (ss_db st)).2 = Ok chunks)
    (Hembed : se_embedder s RoleDocument (c_Text <$> chunks) = Ok vecs)
    (Hdistinct : NoDup (c_ChunkIndex <$> chunks)) :
  let out := EmbedMessageChunks s m st in
  let after := w_tables (ss_db out.1) in
  cached_from m (se_model s) (zip chunks vecs) (w_tables (ss_db st)) after /\
  (out.2 = Ok tt -> forall k c vec, chunks !! k = Some c -> vecs !! k = Some vec ->
     cached after m (c_ChunkIndex c) (se_model s) = Some vec).
Proof.
  intros out after. destruct (embed_runs s m st chunks vecs Hchunks Hembed) as (st1 & Hst & Hout & Hempty).
  unfold after. destruct chunks as [|c0 chunks'] eqn:Ec.
  { unfold out, tables in *. rewrite (Hempty eq_refl). cbn [fst snd]. rewrite Hst. split; [split; [done|by left]|by intros _ k c vec Hk]. }
  rewrite <- Ec in *. unfold out. rewrite (Hout ltac:(by rewrite Ec)).
  assert (Forall (fun cv => Forall is_float32 cv.2) (zip chunks vecs)) as Hz.
  { apply Forall_forall. intros [c v] Hv%elem_of_zip_r. rewrite Forall_forall in Hvecs. by apply Hvecs. }
  destruct (embed_loop m (se_model s) (zip chunks vecs) st1 ltac:(by rewrite Hst) Hz) as [Hfrom Hall].
  unfold tables in *. rewrite Hst in Hfrom. split; [done|]. intros Hok' k c vec Hc Hv.
  refine (Hall tt Hok' _ (c, vec) _).
  - rewrite list_fmap_compose. destruct (zip_keys chunks vecs) as [k' Hk']. rewrite Hk', fmap_app in Hdistinct.
    by apply NoDup_app in Hdistinct as [? _].
  - apply list_elem_of_lookup. exists k. by rewrite lookup_zip_with, Hc, Hv.
Qed.

(** ** Sample stores *)

Module SampleSearch.
#[local] Existing Instance stable_slice_sort.
#[local] Existing Instance calm_env.

Definition searcher : Searcher :=
  {| se_embedder := SampleOracle.embed; se_model := "e"; se_index := Some SampleIndex.single |}.

Definition chunk : Chunk :=
  {| c_MessageID := "m1"; c_ChunkIndex := 0; c_Text := "hi"; c_ByteStart := 0; c_ByteEnd := 2; c_TokenEst := 1 |}.
Definition stores : Stores :=
  {| ss_db := {| w_tables := set_chunks (fun _ => [(1, chunk)]) SampleCache.tables; w_tick := 0 |};
     ss_observer := Some SampleOracle.oracle |}.
Definition vecs : list (list float) := [SampleIndex.vec 1 1].
End SampleSearch.

#[local] Existing Instance canonical_range.
Lemma Search_spec_witness :
  exists results, Search (srt := stable_slice_sort) SampleSearch.searcher "q" 5 = Ok results /\ sr_MessageID <$> results = ["m1#0"].
Proof.
  destruct (Search_spec (H := stable_slice_sort) SampleSearch.searcher SampleIndex.single "q" 5 (SampleIndex.vec 1 1) [])
    as (cands & visited & results & Hc & Hr & _); [reflexivity|apply SampleIndex.single_ok|reflexivity|discriminate|by left|lia|].
  exists results. split; [exact Hr|]. vm_compute in Hr. injection Hr as <-. reflexivity.
Defined.

Lemma EmbedMessageChunks_caches_witness :
  let out := EmbedMessageChunks (H := calm_env) (H0 := stable_slice_sort) SampleSearch.searcher "m1" SampleSearch.stores in
  out.2 = Ok tt /\ cached (srt := stable_slice_sort) (w_tables (ss_db out.1)) "m1" 0 "e" = Some (SampleIndex.vec 1 1).
Proof.
  intros out. assert (out.2 = Ok tt) as Hout by (vm_compute; reflexivity). split; [exact Hout|].
  refine (proj2 (EmbedMessageChunks_caches (H := calm_env) (H0 := stable_slice_sort) SampleSearch.searcher "m1" SampleSearch.stores SampleSearch.vecs
    _ _ [SampleSearch.chunk] _ _ _) Hout 0%nat SampleSearch.chunk _ eq_refl eq_refl).
  - split.
    + by intros a b ->%list_elem_of_singleton ->%list_elem_of_singleton.
    + by intros a b ->%list_elem_of_singleton ->%list_elem_of_singleton.
    + by intros a ->%list_elem_of_singleton.
    + intros v ->%list_elem_of_singleton. eexists. split; [by left|]. done.
  - repeat constructor.
  - by vm_compute.
  - by vm_compute.
  - repeat constructor. apply not_elem_of_nil.
Defined.
