(* ===== verification/EmbedQueue.v ===== *)
(** * The background embedding queue ([service/search/embedqueue.go])

    A pool of workers over one buffered channel, as labelled steps of the
    queue: a caller's [Enqueue] and [Close], and a worker's receive, return
    from a job and exit.  A job's own work on the stores is
    [Search.EmbedMessageChunks]; here it is the error it comes back with, any
    at all, which a worker only logs. *)

From Stdlib Require Import ZArith Lia String.
From S2P Require Import Prelude GoStrings GoChan Errors Search.
#[local] Open Scope Z_scope.

(** A worker waits in the range over the channel, runs a job, or has returned. *)
Inductive worker := Idle | Busy (id : string) | Exited.
#[export] Instance worker_eq_dec : EqDecision worker.
Proof. solve_decision. Defined.

Record EmbedQueue := {
  eq_searcher : Searcher;
  eq_jobs : chan string;
  eq_workers : list worker;
  eq_jobTimeout : Z;
  eq_closeOnce : bool
}.

Definition minute : Z := 60 * 1000000000.

(** The channel is made and every worker is waiting on it. *)
Definition NewEmbedQueue (s : Searcher) (workers buffer jobTimeout : Z) : EmbedQueue :=
  let workers := if workers <? 1 then 1 else workers in
  let buffer := if buffer <? 1 then 1 else buffer in
  let jobTimeout := if jobTimeout <=? 0 then 2 * minute else jobTimeout in
  {| eq_searcher := s; eq_jobs := {| ch_buf := []; ch_cap := Z.to_nat buffer; ch_closed := false |};
     eq_workers := replicate (Z.to_nat workers) Idle; eq_jobTimeout := jobTimeout; eq_closeOnce := false |}.

Definition with_jobs (c : chan string) (q : EmbedQueue) : EmbedQueue :=
  {| eq_searcher := eq_searcher q; eq_jobs := c; eq_workers := eq_workers q; eq_jobTimeout := eq_jobTimeout q;
     eq_closeOnce := eq_closeOnce q |}.
Definition with_worker (w : nat) (s : worker) (q : EmbedQueue) : EmbedQueue :=
  {| eq_searcher := eq_searcher q; eq_jobs := eq_jobs q; eq_workers := <[w := s]> (eq_workers q);
     eq_jobTimeout := eq_jobTimeout q; eq_closeOnce := eq_closeOnce q |}.

(** [None] is a caller that blocks. *)
Definition Enqueue (messageID : string) (q : EmbedQueue) : outcome (option EmbedQueue) :=
  let c := eq_jobs q in
  if ch_closed c then Panic "send on closed channel"
  else if has_room c then Ok (Some (with_jobs (push c messageID) q))
  else Ok None.

(** The first half of [Close]; its wait is over when [all_exited]. *)
Definition Close (q : EmbedQueue) : EmbedQueue :=
  if eq_closeOnce q then q
  else {| eq_searcher := eq_searcher q;
          eq_jobs := {| ch_buf := ch_buf (eq_jobs q); ch_cap := ch_cap (eq_jobs q); ch_closed := true |};
          eq_workers := eq_workers q; eq_jobTimeout := eq_jobTimeout q; eq_closeOnce := true |}.

Definition all_exited (q : EmbedQueue) : bool :=
  forallb (fun s => match s with Exited => true | _ => false end) (eq_workers q).

(** What worker [w] does next; a job comes back with [err]. *)
Inductive event :=
  | Sent (id : string)
  | Closing
  | Taken (w : nat) (id : string)
  | Finished (w : nat) (id : string) (err : option goerr)
  | Left (w : nat).

Definition worker_step (w : nat) (err : option goerr) (q : EmbedQueue) : option (event * EmbedQueue) :=
  match eq_workers q !! w with
  | Some Idle =>
      match ch_buf (eq_jobs q) with
      | id :: rest =>
          Some (Taken w id, with_worker w (Busy id)
            (with_jobs {| ch_buf := rest; ch_cap := ch_cap (eq_jobs q); ch_closed := ch_closed (eq_jobs q) |} q))
      | [] => if ch_closed (eq_jobs q) then Some (Left w, with_worker w Exited q) else None
      end
  | Some (Busy id) => Some (Finished w id err, with_worker w Idle q)
  | _ => None
  end.

Definition log_of (e : event) : option string :=
  match e with
  | Finished _ id (Some err) => Some ("EmbedQueue: embed " ^^ id ^^ " failed: " ^^ err_text err)
  | _ => None
  end.

Inductive step : EmbedQueue -> event -> EmbedQueue -> Prop :=
  | step_enqueue q id q' : Enqueue id q = Ok (Some q') -> step q (Sent id) q'
  | step_close q : step q Closing (Close q)
  | step_worker q w err e q' : worker_step w err q = Some (e, q') -> step q e q'.

(** The steps the pool takes on its own. *)
Definition pool_step (q : EmbedQueue) (e : event) (q' : EmbedQueue) : Prop := exists w err, worker_step w err q = Some (e, q').

Inductive run (R : EmbedQueue -> event -> EmbedQueue -> Prop) : EmbedQueue -> list event -> EmbedQueue -> Prop :=
  | run_nil q : run R q [] q
  | run_snoc q tr q1 e q2 : run R q tr q1 -> R q1 e q2 -> run R q (tr ++ [e]) q2.

(** ** What a trace did *)

Definition sent (tr : list event) : list string := omap (fun e => match e with Sent id => Some id | _ => None end) tr.
Definition taken (tr : list event) : list string := omap (fun e => match e with Taken _ id => Some id | _ => None end) tr.
Definition finished (tr : list event) : list string :=
  omap (fun e => match e with Finished _ id _ => Some id | _ => None end) tr.
Definition busy (ws : list worker) : list string := omap (fun s => match s with Busy id => Some id | _ => None end) ws.

(** The steps a worker has left once the channel is empty. *)
Definition to_go (s : worker) : nat := match s with Idle => 1 | Busy _ => 2 | Exited => 0 end.
Definition work (q : EmbedQueue) : nat := 2 * length (ch_buf (eq_jobs q)) + sum_list_with to_go (eq_workers q).

Lemma worker_set (ws : list worker) w s s' : ws !! w = Some s ->
  exists l r, ws = l ++ s :: r /\ <[w := s']> ws = l ++ s' :: r.
Proof.
  intros Hw. exists (take w ws), (drop (S w) ws). split; [by rewrite take_drop_middle|].
  apply insert_take_drop. by apply lookup_lt_Some in Hw.
Qed.

Lemma busy_app l s r : busy (l ++ s :: r) = busy l ++ busy [s] ++ busy r.
Proof. unfold busy. by rewrite <- !omap_app. Qed.

Lemma length_busy ws : (length (busy ws) <= length ws)%nat.
Proof. induction ws as [|[|id|] ws IH]; [done|..]; simpl; unfold busy in *; simpl; lia. Qed.

(** ** The invariant *)

Record queue_ok (n cap : nat) (tr : list event) (q : EmbedQueue) : Prop := {
  qo_workers : length (eq_workers q) = n;
  qo_fifo : sent tr = taken tr ++ ch_buf (eq_jobs q);
  qo_once : taken tr ≡ₚ finished tr ++ busy (eq_workers q);
  qo_bound : (length (ch_buf (eq_jobs q)) <= cap)%nat;
  qo_cap : ch_cap (eq_jobs q) = cap;
  qo_closing : ch_closed (eq_jobs q) = true <-> Closing ∈ tr;
  qo_closed : eq_closeOnce q = ch_closed (eq_jobs q);
  qo_exited : Exited ∈ eq_workers q -> ch_closed (eq_jobs q) = true /\ ch_buf (eq_jobs q) = []
}.

Lemma NewEmbedQueue_ok s workers buffer jobTimeout :
  queue_ok (Z.to_nat (Z.max 1 workers)) (Z.to_nat (Z.max 1 buffer)) [] (NewEmbedQueue s workers buffer jobTimeout).
Proof.
  unfold NewEmbedQueue. split; cbn [eq_workers eq_jobs eq_closeOnce ch_buf ch_cap ch_closed]; try done.
  - rewrite length_replicate. destruct (Z.ltb_spec workers 1); lia.
  - induction (Z.to_nat _) as [|k IH]; [done|]. exact IH.
  - simpl. lia.
  - destruct (Z.ltb_spec buffer 1); lia.
  - split; [done|by intros ?%elem_of_nil].
  - by intros [? _]%elem_of_replicate.
Qed.

Lemma sent_snoc tr e : sent (tr ++ [e]) = sent tr ++ sent [e].
Proof. apply omap_app. Qed.
Lemma taken_snoc tr e : taken (tr ++ [e]) = taken tr ++ taken [e].
Proof. apply omap_app. Qed.
Lemma finished_snoc tr e : finished (tr ++ [e]) = finished tr ++ finished [e].
Proof. apply omap_app. Qed.

Ltac closing := rewrite elem_of_app, list_elem_of_singleton; naive_solver.

Lemma worker_step_ok n cap tr q w err e q' :
  queue_ok n cap tr q -> worker_step w err q = Some (e, q') -> queue_ok n cap (tr ++ [e]) q'.
Proof.
  intros [Hn Hf Ho Hb Hc Hg Hcl He]. unfold worker_step. destruct (eq_workers q !! w) as [[|id|]|] eqn:Ew; [|..|done|done].
  - destruct (ch_buf (eq_jobs q)) as [|id rest] eqn:Eb.
    + destruct (ch_closed (eq_jobs q)) eqn:Ec; [|done]. intros [= <- <-].
      destruct (worker_set _ _ _ Exited Ew) as (l & r & E1 & E2).
      split; cbn [with_worker eq_workers eq_jobs eq_closeOnce]; rewrite ?Eb, ?Ec, ?length_insert, ?sent_snoc, ?taken_snoc, ?finished_snoc, ?app_nil_r;
        try done; [by rewrite app_nil_r in Hf|by rewrite E2, busy_app, Ho, E1, busy_app|closing].
    + intros [= <- <-]. destruct (worker_set _ _ _ (Busy id) Ew) as (l & r & E1 & E2).
      split; cbn [with_worker with_jobs eq_workers eq_jobs eq_closeOnce ch_buf ch_cap ch_closed];
        rewrite ?length_insert, ?sent_snoc, ?taken_snoc, ?finished_snoc, ?app_nil_r; try done.
      * rewrite Hf. by rewrite <- app_assoc.
      * rewrite E2, Ho, E1, !busy_app, <- !app_assoc. do 2 apply Permutation_app_head. exact (Permutation_app_comm (busy r) [id]).
      * simpl in Hb. lia.
      * closing.
      * rewrite E2. intros Hin. assert (Exited ∈ eq_workers q) as [_ ?]%He; [|done].
        rewrite E1. apply elem_of_app in Hin as [?|[?|?]%elem_of_cons]; [set_solver|done|set_solver].
  - intros [= <- <-]. destruct (worker_set _ _ _ Idle Ew) as (l & r & E1 & E2).
    split; cbn [with_worker eq_workers eq_jobs eq_closeOnce];
      rewrite ?length_insert, ?sent_snoc, ?taken_snoc, ?finished_snoc, ?app_nil_r; try done.
    + rewrite E2, Ho, E1, !busy_app, <- !app_assoc. apply Permutation_app_head. exact (Permutation_app_swap_app (busy l) [id] (busy r)).
    + closing.
    + rewrite E2. intros Hin. apply He. rewrite E1. apply elem_of_app in Hin as [?|[?|?]%elem_of_cons]; [set_solver|done|set_solver].
Qed.

Lemma queue_step_ok n cap tr q e q' : queue_ok n cap tr q -> step q e q' -> queue_ok n cap (tr ++ [e]) q'.
Proof.
  intros Hok Hs. destruct Hs as [q id q' Hq|q|q w err e q' Hq]; [| |by eapply worker_step_ok].
  - unfold Enqueue in Hq. destruct (ch_closed _) eqn:Ec; [done|]. destruct (has_room _) eqn:Er; [|done]. injection Hq as <-.
    unfold has_room in Er. apply Nat.ltb_lt in Er. destruct Hok as [Hn Hf Ho Hb Hc Hg Hcl He].
    split; cbn [with_jobs push eq_workers eq_jobs eq_closeOnce ch_buf ch_cap ch_closed];
      rewrite ?sent_snoc, ?taken_snoc, ?finished_snoc, ?app_nil_r; try done.
    + by rewrite Hf, <- app_assoc.
    + rewrite length_app, <- Hc. simpl. lia.
    + closing.
    + intros Hin. destruct (He Hin). congruence.
  - destruct Hok as [Hn Hf Ho Hb Hc Hg Hcl He]. unfold Close. destruct (eq_closeOnce q) eqn:Eo;
      (split; cbn [eq_workers eq_jobs eq_closeOnce ch_buf ch_cap ch_closed]; rewrite ?sent_snoc, ?taken_snoc, ?finished_snoc, ?app_nil_r; try done).
    + closing.
    + congruence.
    + closing.
    + intros Hin. by destruct (He Hin).
Qed.

Lemma run_ok n cap q0 tr q : queue_ok n cap [] q0 -> run step q0 tr q -> queue_ok n cap tr q.
Proof. intros H0. induction 1 as [|q0 tr q1 e q2 _ IH Hs]; [done|]. by eapply queue_step_ok; [apply IH|]. Qed.

(** ** Progress *)

Lemma pool_run q tr q' : run pool_step q tr q' -> run step q tr q'.
Proof. induction 1 as [|q tr q1 e q2 _ IH (w & err & Hs)]; econstructor; [done|]. by eapply step_worker. Qed.

Lemma queue_run_app R q tr q1 tr' q2 : run R q tr q1 -> run R q1 tr' q2 -> run R q (tr ++ tr') q2.
Proof.
  intros H1. induction 1 as [|q1 tr' q2 e q3 _ IH Hs]; [by rewrite app_nil_r|]. rewrite app_assoc. econstructor; [by apply IH|done].
Qed.

Lemma steps_ok n cap tr q tr' q' : queue_ok n cap tr q -> run step q tr' q' -> queue_ok n cap (tr ++ tr') q'.
Proof.
  intros Hok. induction 1 as [|q tr' q1 e q2 _ IH Hs]; [by rewrite app_nil_r|]. rewrite app_assoc. by eapply queue_step_ok; [apply IH|].
Qed.

Lemma all_exited_spec q : all_exited q = true <-> forall s, s ∈ eq_workers q -> s = Exited.
Proof.
  unfold all_exited. rewrite forallb_forall. setoid_rewrite <- list_elem_of_In. split; intros Hall s Hs; specialize (Hall s Hs); by destruct s.
Qed.

(** A worker that has not returned can move, unless it waits on an open and
    empty channel. *)
Lemma worker_moves q w s : eq_workers q !! w = Some s -> s <> Exited ->
  ch_closed (eq_jobs q) = true \/ ch_buf (eq_jobs q) <> [] -> exists e q', pool_step q e q'.
Proof.
  intros Hw Hs Hc. unfold pool_step, worker_step.
  destruct s as [|id|]; [|exists (Finished w id None); eexists; exists w, None; by rewrite Hw|done].
  destruct (ch_buf (eq_jobs q)) as [|id rest] eqn:Eb.
  - destruct Hc as [Hc|]; [|done]. exists (Left w). eexists. exists w, None. by rewrite Hw, Hc.
  - exists (Taken w id). eexists. exists w, None. by rewrite Hw.
Qed.

Lemma sum_app l s r : sum_list_with to_go (l ++ s :: r) = (sum_list_with to_go l + to_go s + sum_list_with to_go r)%nat.
Proof. rewrite sum_list_with_app. simpl. lia. Qed.

Lemma worker_step_work w err q e q' : worker_step w err q = Some (e, q') -> work q = S (work q').
Proof.
  unfold worker_step, work. destruct (eq_workers q !! w) as [[|id|]|] eqn:Ew; [|..|done|done].
  - destruct (ch_buf (eq_jobs q)) as [|id rest] eqn:Eb.
    + destruct (ch_closed _); [|done]. intros [= _ <-]. destruct (worker_set _ _ _ Exited Ew) as (l & r & E1 & E2).
      cbn [with_worker eq_workers eq_jobs]. rewrite E2, E1, Eb, !sum_app. simpl. lia.
    + intros [= _ <-]. destruct (worker_set _ _ _ (Busy id) Ew) as (l & r & E1 & E2).
      cbn [with_worker with_jobs eq_workers eq_jobs ch_buf]. rewrite E2, E1, !sum_app. simpl. lia.
  - intros [= _ <-]. destruct (worker_set _ _ _ Idle Ew) as (l & r & E1 & E2).
    cbn [with_worker eq_workers eq_jobs]. rewrite E2, E1, !sum_app. simpl. lia.
Qed.

Lemma pool_run_work q tr q' : run pool_step q tr q' -> work q = (length tr + work q')%nat.
Proof.
  induction 1 as [|q tr q1 e q2 _ IH (w & err & Hs)]; [done|]. apply worker_step_work in Hs. rewrite length_app. simpl. lia.
Qed.

Lemma exited_work n cap tr q : (0 < n)%nat -> queue_ok n cap tr q -> all_exited q = true ->
  work q = 0%nat /\ finished tr ≡ₚ sent tr.
Proof.
  intros Hn Hok Ha. pose proof (proj1 (all_exited_spec q) Ha) as Hall. assert (sum_list_with to_go (eq_workers q) = 0%nat /\ busy (eq_workers q) = []) as [Hs Hb].
  { induction (eq_workers q) as [|s ws IH]; [done|]. rewrite (Hall s ltac:(by left)). apply IH. intros x Hx. apply Hall. by right. }
  destruct (eq_workers q) as [|s ws] eqn:E; [pose proof (qo_workers _ _ _ _ Hok) as Hl; rewrite E in Hl; simpl in Hl; lia|].
  destruct (qo_exited _ _ _ _ Hok) as [_ Hbuf]; [rewrite E, <- (Hall s ltac:(by left)); by left|].
  split; [unfold work; rewrite Hbuf, E, Hs; done|].
  rewrite (qo_fifo _ _ _ _ Hok), Hbuf, app_nil_r, (qo_once _ _ _ _ Hok), E, Hb. by rewrite app_nil_r.
Qed.

(** Once closed, the pool can always go on to the end. *)
Lemma pool_drains n cap tr q : queue_ok n cap tr q -> Closing ∈ tr ->
  exists more q', run pool_step q more q' /\ all_exited q' = true.
Proof.
  remember (work q) as k eqn:Hk. revert tr q Hk. induction k as [k IH] using lt_wf_ind. intros tr q Hk Hok Hc.
  destruct (all_exited q) eqn:Ha; [exists [], q; split; [constructor|done]|].
  assert (exists w s, eq_workers q !! w = Some s /\ s <> Exited) as (w & s & Hw & Hs).
  { unfold all_exited in Ha. apply not_true_iff_false in Ha. rewrite forallb_forall in Ha.
    destruct (decide (Exists (fun s => s <> Exited) (eq_workers q))) as [He|He].
    - apply Exists_exists in He as (s & [w Hw]%list_elem_of_lookup & Hs). by exists w, s.
    - destruct Ha. intros s Hin. destruct s; [..|done]; exfalso; apply He, Exists_exists; eexists; (split; [by apply list_elem_of_In|done]). }
  destruct (worker_moves q w s Hw Hs) as (e & q1 & w' & err & H1); [left; by apply (qo_closing _ _ _ _ Hok)|].
  pose proof (worker_step_work _ _ _ _ _ H1) as Hwork.
  destruct (IH (work q1) ltac:(lia) (tr ++ [e]) q1 eq_refl) as (more & q2 & Hrun & Hall);
    [by eapply worker_step_ok|apply elem_of_app; by left|].
  exists ([e] ++ more), q2. split; [|done]. eapply queue_run_app; [|exact Hrun].
  apply (run_snoc _ q [] q e q1); [constructor|by exists w', err].
Qed.

(** C11: Whatever the interleaving of callers and workers and however jobs come
    back, the accepted jobs are started in the order they were accepted, each
    is run once or still waits, the backlog and the jobs in flight stay within
    the sizes the queue was built with, and a caller that blocks finds the
    buffer full and a worker able to move; an [Enqueue] panics exactly after
    [Close]. *)
Theorem EmbedQueue_exactly_once (s : Searcher) (workers buffer jobTimeout : Z) (tr : list event) (q : EmbedQueue)
    (Hrun : run step (NewEmbedQueue s workers buffer jobTimeout) tr q) :
  sent tr = taken tr ++ ch_buf (eq_jobs q) /\ taken tr ≡ₚ finished tr ++ busy (eq_workers q) /\
  Z.of_nat (length (ch_buf (eq_jobs q))) <= Z.max 1 buffer /\ Z.of_nat (length (busy (eq_workers q))) <= Z.max 1 workers /\
  forall id, match Enqueue id q with
    | Ok (Some q') => Closing ∉ tr /\ ch_buf (eq_jobs q') = ch_buf (eq_jobs q) ++ [id]
    | Ok None => Z.of_nat (length (ch_buf (eq_jobs q))) = Z.max 1 buffer /\ exists e q', pool_step q e q'
    | _ => Closing ∈ tr
    end.
Proof.
  pose proof (run_ok _ _ _ _ _ (NewEmbedQueue_ok s workers buffer jobTimeout) Hrun) as Hok.
  split; [apply Hok|]. split; [apply Hok|]. pose proof (qo_bound _ _ _ _ Hok). pose proof (qo_workers _ _ _ _ Hok) as Hw.
  split; [lia|]. split.
  { pose proof (length_busy (eq_workers q)). lia. }
  intros id. unfold Enqueue. destruct (ch_closed (eq_jobs q)) eqn:Ec; [by apply (qo_closing _ _ _ _ Hok)|].
  unfold has_room. rewrite (qo_cap _ _ _ _ Hok). destruct (Nat.ltb_spec (length (ch_buf (eq_jobs q))) (Z.to_nat (Z.max 1 buffer))).
  - split; [|done]. intros Hin%(qo_closing _ _ _ _ Hok). congruence.
  - split; [lia|]. destruct (lookup_lt_is_Some_2 (eq_workers q) 0 ltac:(lia)) as [w Hw0].
    apply (worker_moves q 0 w Hw0); [|right; intros E; rewrite E in *; simpl in *; lia].
    intros ->. destruct (qo_exited _ _ _ _ Hok) as [? _]; [by eapply list_elem_of_lookup_2|congruence].
Qed.

(** After [Close] the pool drains: however far its workers have got, they
    can go on until all have returned, every way they do takes the same number
    of steps, and then every job ever accepted has been run exactly once. *)
Theorem EmbedQueue_drains (s : Searcher) (workers buffer jobTimeout : Z) (tr : list event) (q : EmbedQueue)
    (Hrun : run step (NewEmbedQueue s workers buffer jobTimeout) tr q) (Hclosed : Closing ∈ tr)
    (tr' : list event) (q' : EmbedQueue) (Hpool : run pool_step q tr' q') :
  (length tr' <= work q)%nat /\
  (all_exited q' = true -> length tr' = work q /\ finished (tr ++ tr') ≡ₚ sent tr) /\
  exists more q'', run pool_step q' more q'' /\ all_exited q'' = true.
Proof.
  pose proof (run_ok _ _ _ _ _ (NewEmbedQueue_ok s workers buffer jobTimeout) Hrun) as Hok.
  pose proof (steps_ok _ _ _ _ _ _ Hok (pool_run _ _ _ Hpool)) as Hok'. pose proof (pool_run_work _ _ _ Hpool) as Hw.
  split; [lia|]. split.
  - intros Ha. destruct (exited_work (Z.to_nat (Z.max 1 workers)) _ _ _ ltac:(lia) Hok' Ha) as [Hz Hp]. split; [lia|]. rewrite Hp. unfold sent. rewrite omap_app.
    assert (sent tr' = []) as E; [|unfold sent in E; by rewrite E, app_nil_r].
    clear -Hpool. induction Hpool as [|q tr q1 e q2 _ IH (w & err & Hs)]; [done|]. rewrite sent_snoc, IH.
    unfold worker_step in Hs. repeat case_match; simplify_eq; done.
  - eapply pool_drains; [exact Hok'|]. apply elem_of_app. by left.
Qed.

(** ** A pool of two *)
Module SampleQueue.
Definition start : EmbedQueue := NewEmbedQueue SampleSearch.searcher 2 1 0.
Definition q1 : EmbedQueue := match Enqueue "m1" start with Ok (Some q) => q | _ => start end.
Definition q2 : EmbedQueue := match worker_step 0 None q1 with Some (_, q) => q | None => q1 end.
Definition q3 : EmbedQueue := Close q2.
Definition tr : list event := (([] ++ [Sent "m1"]) ++ [Taken 0 "m1"]) ++ [Closing].
Lemma closed_run : run step start tr q3.
Proof.
  eapply run_snoc; [eapply run_snoc; [eapply run_snoc; [constructor|]|]|].
  - by apply (step_enqueue start "m1" q1).
  - by apply (step_worker q1 0 None).
  - apply step_close.
Qed.

Example refused : Enqueue "m2" q3 = Panic "send on closed channel".
Proof. reflexivity. Qed.
Example failure_logged : log_of (Finished 0 "m1" (Some (ENew "timeout"))) = Some "EmbedQueue: embed m1 failed: timeout".
Proof. reflexivity. Qed.
End SampleQueue.

Lemma EmbedQueue_exactly_once_witness :
  sent SampleQueue.tr = ["m1"] /\ taken SampleQueue.tr ≡ₚ finished SampleQueue.tr ++ ["m1"].
Proof.
  split; [reflexivity|].
  exact (proj1 (proj2 (EmbedQueue_exactly_once SampleSearch.searcher 2 1 0 SampleQueue.tr SampleQueue.q3 SampleQueue.closed_run))).
Defined.

Lemma EmbedQueue_drains_witness :
  all_exited SampleQueue.q3 = false /\ exists more q'', run pool_step SampleQueue.q3 more q'' /\ all_exited q'' = true.
Proof.
  split; [reflexivity|].
  refine (proj2 (proj2 (EmbedQueue_drains SampleSearch.searcher 2 1 0 SampleQueue.tr SampleQueue.q3 SampleQueue.closed_run _ [] SampleQueue.q3 _))).
  - apply elem_of_app. right. by left.
  - constructor.
Defined.
