(* ===== verification/Substrate.v ===== *)
(** * The substrate and its holder ([service/substrate], [core/registry.go],
    [service/graph/schema.settings.resolvers.go])

    How settings become a live engine: the providers are made through the
    registry, the vector tables are fitted to the embedder, the oracle, the
    searcher and the engine are built over the database; the holder swaps the
    result in, turns the embed queue over and stops the runners.  The settings
    resolvers sit on top.  A build reads the tables as they are while it runs;
    the holder's mutex makes each of its operations one step, and the closing
    of an old queue, which runs in its own goroutine, is a step of its own. *)

From Stdlib Require Import ZArith Lia String.
From S2P Require Import Prelude GoFloat GoSort GoStrings GoChan Errors Types Dag EngineConfig Chunk Engine AnnIndex Oracle Sql Storage Embeddings Threads Hooks Settings StoreLink Search EmbedQueue.
#[local] Open Scope Z_scope.

(** ** Providers ([core/provider.go], [core/registry.go]) *)

(** What an adapter's provider can be asserted to. *)
Record Provider {Completer : Type} := {
  pv_Completer : option (string -> Completer + goerr);
  pv_Embedder : option (string -> Embedder + goerr);
  pv_Scorer : option (string -> Scorer + goerr)
}.
Arguments Provider : clear implicits.

Section Substrate.
Context {Completer : Type}.

Definition ProviderFactory : Type := ProviderConfig -> Provider Completer + goerr.

Definition RegisterProvider (name : string) (factory : option ProviderFactory) (registry : gmap string ProviderFactory) : gmap string ProviderFactory :=
  match factory with
  | Some f => if String.eqb name "" then registry else <[name := f]> registry
  | None => registry
  end.

Definition adapter_error (adapter what : string) : goerr := EWrap "" EUnsupported (": adapter " ^^ quoted adapter ^^ " " ^^ what).

Definition NewProvider (registry : gmap string ProviderFactory) (cfg : ProviderConfig) : Provider Completer + goerr :=
  if String.eqb (pc_Adapter cfg) "" then inr (ENew "core.NewProvider: empty adapter name")
  else
    match registry !! pc_Adapter cfg with
    | None => inr (adapter_error (pc_Adapter cfg) "not registered (import the adapter package to enable it)")
    | Some factory => factory cfg
    end.

(** ** The substrate *)

Record Substrate := {
  su_Engine : Engine;
  su_MainCompleter : option Completer;
  su_Scorer : option Scorer;
  su_Embedder : option Embedder;
  su_Searcher : option Searcher;
  su_ChunkOracle : option ChunkOracle;
  su_RerankerModelID : string;
  su_EmbedModelID : string
}.

Record options := { op_scorer : option Scorer; op_chunkOracle : option ChunkOracle; op_estimator : option (string -> Z) }.

Inductive Option := OptTokenEstimator (e : option (string -> Z)) | OptScorer (s : option Scorer) | OptChunkOracle (o : option ChunkOracle).

Definition apply_opt (o : options) (opt : Option) : options :=
  match opt with
  | OptTokenEstimator e => {| op_scorer := op_scorer o; op_chunkOracle := op_chunkOracle o; op_estimator := e |}
  | OptScorer s => {| op_scorer := s; op_chunkOracle := op_chunkOracle o; op_estimator := op_estimator o |}
  | OptChunkOracle c => {| op_scorer := op_scorer o; op_chunkOracle := c; op_estimator := op_estimator o |}
  end.
Definition options_of (opts : list Option) : options := fold_left apply_opt opts {| op_scorer := None; op_chunkOracle := None; op_estimator := None |}.

Context {env : Env} {srt : SliceSort} {os : Os} {rng : MapRange LocalContextScoreKey}.
Context (registry : gmap string ProviderFactory).

(** ** Building ([Build]) *)

(** One role of the settings: absent, or made through the registry and asserted
    to the role's interface. *)
Definition provider_role {A} (cfg : Settings) (role label kind : string) (assert : Provider Completer -> option (string -> A + goerr))
    : outcome (option (A * ProviderConfig)) :=
  match st_Providers cfg !! role with
  | None => Ok None
  | Some pc =>
      if String.eqb (pc_Adapter pc) "" then Ok None
      else
        match NewProvider registry (ToCore pc) with
        | inr e => Err (EWrap (role ^^ " provider: ") e "")
        | inl p =>
            match assert p with
            | None => Err (adapter_error (pc_Adapter pc) ("is not " ^^ kind))
            | Some make =>
                match make (pc_Model pc) with
                | inr e => Err (EWrap (label ^^ " (" ^^ pc_Adapter pc ^^ "/" ^^ pc_Model pc ^^ "): ") e "")
                | inl a => Ok (Some (a, pc))
                end
            end
        end
  end.

(** An error is taken as nothing found. *)
Definition attempt {A} (m : GoM (Sql.World Tables) A) : GoM Stores (option A) := fun s =>
  match sdb m s with
  | (s', Ok a) => (s', Ok (Some a))
  | (s', Err _) => (s', Ok None)
  | (s', Panic p) => (s', Panic p)
  end.

(** The embedder's width is asked for and the vector tables fitted to it; an
    embedder that does not answer is passed over. *)
Definition probe_dim (embedder : option Embedder) (model : string) : GoM Stores unit := fun s =>
  match embedder with
  | Some e =>
      if String.eqb model "" then (s, Ok tt)
      else
        match e RoleDocument ["probe"] with
        | Ok ((x :: vec) :: _) =>
            match sdb (EnsureEmbeddingDim (Z.of_nat (length (x :: vec))) model) s with
            | (s', Err e) => (s', Err (EWrap "ensure embedding dim: " e ""))
            | r => r
            end
        | Panic p => (s, Panic p)
        | _ => (s, Ok tt)
        end
  | None => (s, Ok tt)
  end.

Definition with_estimator (est : string -> Z) (c : EngineConfig.EngineConfig) : EngineConfig.EngineConfig :=
  {| ScorerModelID := ScorerModelID c; LossRatio := LossRatio c; MinBatchStdDev := MinBatchStdDev c; RerankTopK := RerankTopK c;
     LocalContextSize := LocalContextSize c;
     cfg_Chunk := {| MaxChars := MaxChars (cfg_Chunk c); OverlapChars := OverlapChars (cfg_Chunk c); Estimator := Some est |};
     ContextBudgetTokens := ContextBudgetTokens c; BudgetHeadroomPct := BudgetHeadroomPct c; PerMsgDelimiterTokens := PerMsgDelimiterTokens c |}.
Definition with_scorer_model (id : string) (c : EngineConfig.EngineConfig) : EngineConfig.EngineConfig :=
  {| ScorerModelID := id; LossRatio := LossRatio c; MinBatchStdDev := MinBatchStdDev c; RerankTopK := RerankTopK c;
     LocalContextSize := LocalContextSize c; cfg_Chunk := cfg_Chunk c;
     ContextBudgetTokens := ContextBudgetTokens c; BudgetHeadroomPct := BudgetHeadroomPct c; PerMsgDelimiterTokens := PerMsgDelimiterTokens c |}.

(** The engine's configuration: the defaults where the settings have no engine
    block, its knobs otherwise; stamped with the scorer's identity. *)
Definition engine_config (cfg : Settings) (est : string -> Z) (reranker : string) : EngineConfig.EngineConfig :=
  let base := with_estimator est EngineConfig.DefaultConfig in
  with_scorer_model reranker (if engine_eqb (st_Engine cfg) zero_engine then base else ApplyTo (st_Engine cfg) base).

(** The oracle reads its index from the tables, and observes insertions from
    then on. *)
Definition build_oracle (o : options) (embedder : option Embedder) (model : string) : GoM Stores (option ChunkOracle * option Searcher) := fun s =>
  match op_chunkOracle o with
  | Some c => (s, Ok (Some c, None))
  | None =>
      match embedder with
      | Some e =>
          if String.eqb model "" then (s, Ok (None, None))
          else
            match NewChunkOracle (Some (chunk_db_at (ss_db s))) (Some e) model with
            | Err e => (s, Err (EWrap "build chunk oracle: " e ""))
            | Panic p => (s, Panic p)
            | Ok oc =>
                ({| ss_db := ss_db s; ss_observer := Some oc |},
                 Ok (Some (engine_oracle oc), Some {| se_embedder := e; se_model := model; se_index := Some (or_index oc) |}))
            end
      | None => (s, Ok (None, None))
      end
  end.

Definition persisted_score (kv : LocalContextScoreKey * float) : PersistedScore :=
  {| ps_Key := {| LocalContextFingerprint := lk_LocalContextFingerprint kv.1; LocalContextChunkIndex := Z.to_nat (lk_LocalContextChunkIndex kv.1);
                  CandidateMsgID := lk_CandidateID kv.1; CandidateChunkIdx := Z.to_nat (lk_CandidateChunkIdx kv.1) |};
     ps_Score := kv.2 |}.

(** Edges and scores that cannot be read are left out. *)
Definition engine_options (reranker : string) (oracle : option ChunkOracle) : GoM Stores (list Engine.Option) :=
  edges ← attempt AllEdges;
  scores ← (if String.eqb reranker "" then mret None else attempt (LocalContextScoresForModel reranker));
  mret ((match edges with Some (e :: l) => [WithLoadedEdges (e :: l)] | _ => [] end) ++
        (match scores with
         | Some m => if bool_decide (m = ∅) then [] else [WithLoadedScores (persisted_score <$> map_range m)]
         | None => []
         end) ++
        (if String.eqb reranker "" then [] else [WithScorePersister true]) ++
        (match oracle with Some c => [WithChunkOracle (Some c)] | None => [] end)).

Definition Build (cfg : Settings) (opts : list Option) : GoM Stores Substrate :=
  let o := options_of opts in
  main ← gom_lift (provider_role cfg "main" "main completer" "a CompleterProvider" pv_Completer);
  scorer ← gom_lift (match op_scorer o with
                     | Some s => Ok (Some s, "")
                     | None =>
                         r ← provider_role cfg "scorer" "scorer" "a ScorerProvider" pv_Scorer;
                         mret (match r with
                               | Some (s, pc) => (Some s, pc_Adapter pc ^^ "/" ^^ pc_Model pc ^^ "@" ^^ pc_BaseURL pc)
                               | None => (None, "")
                               end)
                     end);
  emb ← gom_lift (provider_role cfg "embedder" "embedder" "an EmbedderProvider" pv_Embedder);
  let embedder := fst <$> emb in
  let embedModel := match emb with Some (_, pc) => pc_Model pc | None => "" end in
  _ ← probe_dim embedder embedModel;
  match op_estimator o with
  | None => gom_err (ENew "substrate.Build: no token estimator (pass WithTokenEstimator)")
  | Some est =>
      oc ← build_oracle o embedder embedModel;
      eopts ← engine_options scorer.2 oc.1;
      engine ← gom_lift (NewEngine (engine_config cfg est scorer.2) scorer.1 eopts);
      mret {| su_Engine := engine; su_MainCompleter := fst <$> main; su_Scorer := scorer.1; su_Embedder := embedder;
              su_Searcher := oc.2; su_ChunkOracle := oc.1; su_RerankerModelID := scorer.2; su_EmbedModelID := embedModel |}
  end.

(** ** What a build gives *)

Lemma apply_options_cfg opts e : en_cfg (fold_left apply_option opts e) = en_cfg e.
Proof. revert e. induction opts as [|o opts IH]; intros e; [done|]. cbn [fold_left]. rewrite IH. by destruct o. Qed.

Lemma engine_config_estimator cfg est r : Estimator (cfg_Chunk (engine_config cfg est r)) = Some est.
Proof. unfold engine_config. by destruct (engine_eqb _ _). Qed.

Lemma NewEngine_built cfg est r sc opts :
  exists e, NewEngine (engine_config cfg est r) sc opts = Ok e /\ en_cfg e = engine_config cfg est r.
Proof. unfold NewEngine. rewrite engine_config_estimator. eexists. split; [reflexivity|]. by rewrite apply_options_cfg. Qed.

Lemma attempt_reads {A} (m : GoM (Sql.World Tables) A) s : (forall w p, (m w).2 <> Panic p) ->
  exists s' r, attempt m s = (s', Ok r) /\ ss_observer s' = ss_observer s.
Proof.
  intros Hp. unfold attempt, sdb. specialize (Hp (ss_db s)). destruct (m (ss_db s)) as [w [a|e|p]]; cbn in *;
    [by eexists _, _..|by destruct (Hp p)].
Qed.

Lemma query_no_panic {A} (f : Tables -> A) w p : (query f w).2 <> Panic p.
Proof. unfold query, statement. by destruct (e_fault _). Qed.

Lemma engine_options_ok reranker oracle s : exists s' l, engine_options reranker oracle s = (s', Ok l) /\ ss_observer s' = ss_observer s.
Proof.
  unfold engine_options. destruct (attempt_reads AllEdges s (query_no_panic _)) as (s1 & edges & E1 & O1). rewrite (bind_ok _ _ _ _ _ E1).
  destruct (String.eqb reranker ""); [by eexists _, _|].
  destruct (attempt_reads (LocalContextScoresForModel reranker) s1) as (s2 & scores & E2 & O2).
  { intros w p. unfold LocalContextScoresForModel, mbind, gom_bind. pose proof (query_no_panic (fun t => any_order (where_ (fun s => String.eqb (s_model_id s) reranker) (tb_scores t))) w) as Hq.
    destruct (query _ w) as [w' [rows|e|p']]; [done..|]. by destruct (Hq p'). }
  rewrite (bind_ok _ _ _ _ _ E2). eexists _, _. split; [reflexivity|]. congruence.
Qed.

Lemma probe_dim_observer embedder model s : ss_observer (probe_dim embedder model s).1 = ss_observer s.
Proof.
  unfold probe_dim, sdb. destruct embedder as [e|]; [|done]. destruct (String.eqb model ""); [done|].
  destruct (e RoleDocument _) as [[|[|x vec] l]| |]; [done..| |done|done]. by destruct (EnsureEmbeddingDim _ _ _) as [w [[]| |]].
Qed.

Lemma build_oracle_observer o embedder model s :
  match build_oracle o embedder model s with
  | (s', Ok (_, searcher)) => forall se, searcher = Some se -> embedder = Some (se_embedder se) /\ se_model se = model
  | (s', _) => ss_observer s' = ss_observer s
  end.
Proof.
  unfold build_oracle. destruct (op_chunkOracle o); [done|]. destruct embedder as [e|]; [|done]. destruct (String.eqb model ""); [done|].
  destruct (NewChunkOracle _ _ _); [|done..]. by intros se [= <-].
Qed.

(** The engine runs on the settings' knobs and the estimator, stamped with the
    scorer; the searcher is the embedder's. *)
Record built (cfg : Settings) (opts : list Option) (su : Substrate) : Prop := {
  bu_engine : exists est, op_estimator (options_of opts) = Some est /\ en_cfg (su_Engine su) = engine_config cfg est (su_RerankerModelID su);
  bu_searcher : forall se, su_Searcher su = Some se -> su_Embedder su = Some (se_embedder se) /\ se_model se = su_EmbedModelID su
}.

Lemma Build_cases cfg opts s :
  match Build cfg opts s with
  | (_, Ok su) => built cfg opts su
  | (s', _) => ss_observer s' = ss_observer s
  end.
Proof.
  unfold Build. cbn zeta. unfold gom_lift, mbind at 1, gom_bind at 1. destruct (provider_role cfg "main" _ _ _) as [main| |]; [|done..].
  unfold mbind at 1, gom_bind at 1. destruct (match op_scorer _ with Some _ => _ | None => _ end) as [scorer| |]; [|done..].
  unfold mbind at 1, gom_bind at 1. destruct (provider_role cfg "embedder" _ _ _) as [emb| |]; [|done..].
  set (embedder := fst <$> emb). set (model := match emb with Some _ => _ | None => _ end).
  unfold mbind at 1, gom_bind at 1. pose proof (probe_dim_observer embedder model s) as Hp.
  destruct (probe_dim embedder model s) as [s1 [[]| |]]; [|done..]. cbn [fst] in Hp.
  destruct (op_estimator (options_of opts)) as [est|] eqn:Ee; [|done].
  unfold mbind at 1, gom_bind at 1. pose proof (build_oracle_observer (options_of opts) embedder model s1) as Ho.
  destruct (build_oracle _ _ _ s1) as [s2 [oc| |]]; [|congruence..].
  destruct (engine_options_ok scorer.2 oc.1 s2) as (s3 & eopts & E3 & O3). rewrite (bind_ok _ _ _ _ _ E3).
  destruct (NewEngine_built cfg est scorer.2 scorer.1 eopts) as (en & En & Hcfg). rewrite En. cbn.
  split; [by exists est|]. cbn. by destruct oc.
Qed.

(** ** The holder *)

(** The live queue is an index into the queues ever made; [hd_closing] are
    those whose [go old.Close()] has not run yet. *)
Record Holder {R : Type} := {
  hd_Config : Config;
  hd_host : Host;
  hd_stores : Stores;
  hd_current : option Substrate;
  hd_embeds : option nat;
  hd_queues : list EmbedQueue;
  hd_closing : list nat;
  hd_runners : R
}.
Arguments Holder : clear implicits.

Section Holder.
Context {R : Type} (estimator : option (string -> Z)) (onReload : option (R -> R)) {json : SettingsJson}.
#[local] Abbreviation M := (GoM (Holder R)).

Definition with_settings (st : Settings) (h : Holder R) : Holder R :=
  {| hd_Config := {| cf_Paths := cf_Paths (hd_Config h); cf_Settings := st |}; hd_host := hd_host h; hd_stores := hd_stores h;
     hd_current := hd_current h; hd_embeds := hd_embeds h; hd_queues := hd_queues h; hd_closing := hd_closing h; hd_runners := hd_runners h |}.
Definition with_stores (s : Stores) (h : Holder R) : Holder R :=
  {| hd_Config := hd_Config h; hd_host := hd_host h; hd_stores := s; hd_current := hd_current h; hd_embeds := hd_embeds h;
     hd_queues := hd_queues h; hd_closing := hd_closing h; hd_runners := hd_runners h |}.
Definition with_host (o : Host) (h : Holder R) : Holder R :=
  {| hd_Config := hd_Config h; hd_host := o; hd_stores := hd_stores h; hd_current := hd_current h; hd_embeds := hd_embeds h;
     hd_queues := hd_queues h; hd_closing := hd_closing h; hd_runners := hd_runners h |}.
Definition with_queues (qs : list EmbedQueue) (closing : list nat) (h : Holder R) : Holder R :=
  {| hd_Config := hd_Config h; hd_host := hd_host h; hd_stores := hd_stores h; hd_current := hd_current h; hd_embeds := hd_embeds h;
     hd_queues := qs; hd_closing := closing; hd_runners := hd_runners h |}.
Definition settings (h : Holder R) : Settings := cf_Settings (hd_Config h).

Definition NewHolder (cfg : Config) (host : Host) (db : Stores) (runners : R) : Holder R :=
  {| hd_Config := cfg; hd_host := host; hd_stores := db; hd_current := None; hd_embeds := None; hd_queues := []; hd_closing := [];
     hd_runners := runners |}.

(** The swap, once the build has succeeded. *)
Definition swap (subs : Substrate) (h : Holder R) : Holder R :=
  let '(queues, live) :=
    match su_Searcher subs with
    | Some se => (hd_queues h ++ [NewEmbedQueue se 4 64 (2 * minute)], Some (length (hd_queues h)))
    | None => (hd_queues h, None)
    end in
  {| hd_Config := hd_Config h; hd_host := hd_host h; hd_stores := hd_stores h; hd_current := Some subs; hd_embeds := live;
     hd_queues := queues; hd_closing := hd_closing h ++ match hd_embeds h with Some i => [i] | None => [] end;
     hd_runners := match onReload with Some f => f (hd_runners h) | None => hd_runners h end |}.

Definition buildAndSwap (opts : list Option) : M unit := fun h =>
  match Build (settings h) (OptTokenEstimator estimator :: opts) (hd_stores h) with
  | (s, Err e) => (with_stores s h, Err (EWrap "rebuild substrate: " e ""))
  | (s, Panic p) => (with_stores s h, Panic p)
  | (s, Ok subs) => (swap subs (with_stores s h), Ok tt)
  end.

Definition Bootstrap (opts : list Option) : M unit := buildAndSwap opts.
Definition ReloadProviders (opts : list Option) : M unit := buildAndSwap opts.

Definition UpdateEngineConfig (ec : EngineConfig.EngineConfig) (opts : list Option) : M unit := fun h =>
  let old := st_Engine (settings h) in
  match buildAndSwap opts (with_settings (with_Engine (EngineConfigFromRRC ec) (settings h)) h) with
  | (h', Err e) => (with_settings (with_Engine old (settings h')) h', Err e)
  | r => r
  end.

Definition on_settings {A} (m : GoM Settings A) : M A := fun h => let r := m (settings h) in (with_settings r.1 h, r.2).
Definition on_host {A} (m : GoM Host A) : M A := fun h => let r := m (hd_host h) in (with_host r.1 h, r.2).

Definition MutateSettings (mutate : GoM Settings unit) : M unit :=
  _ ← on_settings mutate;
  h ← gom_get;
  _ ← on_host (Save (hd_Config h));
  buildAndSwap [].

(** The accessors. *)
Definition Current (h : Holder R) : option Substrate := hd_current h.
Definition Engine_ (h : Holder R) : option Engine := su_Engine <$> hd_current h.
Definition Main (h : Holder R) : option Completer := hd_current h ≫= su_MainCompleter.
Definition Scorer_ (h : Holder R) : option Scorer := hd_current h ≫= su_Scorer.
Definition Searcher_ (h : Holder R) : option Searcher := hd_current h ≫= su_Searcher.
Definition EmbedQueue_ (h : Holder R) : option nat := hd_embeds h.

(** [Enqueue] loads the queue and then sends to it: between the two another
    goroutine may act.  [None] is a sender that blocks. *)
Definition send_to (i : nat) (messageID : string) (h : Holder R) : outcome (option (Holder R)) :=
  match hd_queues h !! i with
  | None => Ok (Some h)
  | Some q =>
      match EmbedQueue.Enqueue messageID q with
      | Ok (Some q') => Ok (Some (with_queues (<[i := q']> (hd_queues h)) (hd_closing h) h))
      | Ok None => Ok None
      | Err e => Err e
      | Panic p => Panic p
      end
  end.
Definition Enqueue (messageID : string) (h : Holder R) : outcome (option (Holder R)) :=
  match EmbedQueue_ h with None => Ok (Some h) | Some i => send_to i messageID h end.

(** One of the goroutines that close an old queue. *)
Definition run_close (i : nat) (h : Holder R) : Holder R :=
  if bool_decide (i ∈ hd_closing h)
  then with_queues (alter Close i (hd_queues h)) (List.filter (fun j => negb (Nat.eqb j i)) (hd_closing h)) h
  else h.

(** ** The settings resolvers *)

(** The fields of the input are JSON texts; [json_value] is the first value of
    a text, and the decoders are [encoding/json]'s. *)
Record SettingsInput := {
  si_Providers : option string;
  si_Permissions : option string;
  si_McpServers : option string;
  si_Hooks : option string;
  si_Preferences : option string;
  si_Engine : option string
}.

Class InputJson := {
  json_Providers : string -> gmap string ProviderConfig + goerr;
  json_Strings : string -> gmap string string + goerr;
  json_Servers : string -> list ServerConfig + goerr;
  json_Hooks : string -> list HookConfig + goerr;
  json_value : string -> string + goerr;
  marshal_Providers : gmap string ProviderConfig -> string + goerr;
  marshal_Strings : gmap string string -> string + goerr;
  marshal_Servers : list ServerConfig -> string + goerr;
  marshal_Hooks : list HookConfig -> string + goerr;
  marshal_Engine : EngineConfig -> string + goerr
}.
Context {input_json : InputJson}.

(** A field of the input, when it is there. *)
Definition decode_field {A} (what : string) (decode : string -> A + goerr) (field : option string) : outcome (option A) :=
  match field with
  | None => Ok None
  | Some text => match decode text with inl a => Ok (Some a) | inr e => Err (EWrap ("invalid " ^^ what ^^ " JSON: ") e "") end
  end.

Definition decode_engine (text : string) : EngineConfig + goerr :=
  match json_value text with inl raw => UnmarshalJSON raw | inr e => inr e end.

Record Update := {
  ud_Providers : option (gmap string ProviderConfig);
  ud_Permissions : option (gmap string string);
  ud_McpServers : option (list ServerConfig);
  ud_Hooks : option (list HookConfig);
  ud_Preferences : option (gmap string string);
  ud_Engine : option EngineConfig
}.

(** Everything is decoded and validated before anything is applied. *)
Definition decode_input (input : SettingsInput) : outcome Update :=
  providers ← decode_field "providers" json_Providers (si_Providers input);
  permissions ← decode_field "permissions" json_Strings (si_Permissions input);
  servers ← decode_field "MCP servers" json_Servers (si_McpServers input);
  hooks ← decode_field "hooks" json_Hooks (si_Hooks input);
  preferences ← decode_field "preferences" json_Strings (si_Preferences input);
  engine ← decode_field "engine" decode_engine (si_Engine input);
  match engine ≫= Validate with
  | Some e => Err e
  | None => mret {| ud_Providers := providers; ud_Permissions := permissions; ud_McpServers := servers; ud_Hooks := hooks;
                    ud_Preferences := preferences; ud_Engine := engine |}
  end.

Definition kept_ratio (e : EngineConfig) (s : Settings) : EngineConfig :=
  {| ec_LossRatio := if feq (ec_LossRatio e) f0 then ec_LossRatio (st_Engine s) else ec_LossRatio e; ec_MinBatchStdDev := ec_MinBatchStdDev e;
     ec_LocalContextSize := ec_LocalContextSize e; ec_RerankTopK := ec_RerankTopK e; ec_ContextBudgetTokens := ec_ContextBudgetTokens e;
     ec_BudgetHeadroomPct := ec_BudgetHeadroomPct e; ec_PerMsgDelimiterTokens := ec_PerMsgDelimiterTokens e |}.

Definition apply_update (u : Update) (s : Settings) : Settings :=
  {| st_Providers := default (st_Providers s) (ud_Providers u);
     st_Permissions := default (st_Permissions s) (ud_Permissions u);
     st_MCPServers := default (st_MCPServers s) (ud_McpServers u);
     st_Hooks := default (st_Hooks s) (ud_Hooks u);
     st_Preferences := default (st_Preferences s) (ud_Preferences u);
     st_Engine := match ud_Engine u with Some e => kept_ratio e s | None => st_Engine s end |}.

Record SettingsView := { sv_Providers : string; sv_Permissions : string; sv_McpServers : string; sv_Hooks : string; sv_Preferences : string; sv_Engine : string }.

Definition marshalled (what : string) (r : string + goerr) : outcome string :=
  match r with inl t => Ok t | inr e => Err (EWrap ("marshal " ^^ what ^^ ": ") e "") end.

(** The engine shown is the live one's. *)
Definition Settings_query : M SettingsView := fun h =>
  (h,
   let s := settings h in
   providers ← marshalled "providers" (marshal_Providers (st_Providers s));
   permissions ← marshalled "permissions" (marshal_Strings (st_Permissions s));
   servers ← marshalled "mcp servers" (marshal_Servers (st_MCPServers s));
   hooks ← marshalled "hooks" (marshal_Hooks (st_Hooks s));
   preferences ← marshalled "preferences" (marshal_Strings (st_Preferences s));
   match Engine_ h with
   | None => Panic "nil pointer dereference"
   | Some e =>
       engine ← marshalled "engine config" (marshal_Engine (EngineConfigFromRRC (en_cfg e)));
       mret {| sv_Providers := providers; sv_Permissions := permissions; sv_McpServers := servers; sv_Hooks := hooks;
               sv_Preferences := preferences; sv_Engine := engine |}
   end).

Definition apply_settings (u : Update) : M unit := fun h =>
  match MutateSettings (fun s => (apply_update u s, Ok tt)) h with
  | (h', Err e) => (h', Err (EWrap "apply settings: " e ""))
  | r => r
  end.

Definition UpdateSettings (input : SettingsInput) : M SettingsView :=
  u ← gom_lift (decode_input input);
  _ ← apply_settings u;
  Settings_query.

(** ** What the holder promises *)

(** Everything a request reads is as it was. *)
Record intact (h h' : Holder R) : Prop := {
  in_current : hd_current h' = hd_current h;
  in_embeds : hd_embeds h' = hd_embeds h;
  in_queues : hd_queues h' = hd_queues h;
  in_closing : hd_closing h' = hd_closing h;
  in_runners : hd_runners h' = hd_runners h;
  in_observer : ss_observer (hd_stores h') = ss_observer (hd_stores h)
}.

(** The live substrate is the one of the settings as they are. *)
Definition live (opts : list Option) (h : Holder R) : Prop := exists su, hd_current h = Some su /\ built (settings h) (OptTokenEstimator estimator :: opts) su.

Lemma intact_refl h : intact h h.
Proof. by split. Qed.

Lemma buildAndSwap_cases opts h :
  match buildAndSwap opts h with
  | (h', Ok _) => exists su s, built (settings h) (OptTokenEstimator estimator :: opts) su /\ h' = swap su (with_stores s h)
  | (h', _) => exists s, h' = with_stores s h /\ ss_observer s = ss_observer (hd_stores h)
  end.
Proof.
  unfold buildAndSwap. pose proof (Build_cases (settings h) (OptTokenEstimator estimator :: opts) (hd_stores h)) as Hb.
  destruct (Build _ _ _) as [s [su|e|p]]; [by eexists _, _|by eexists..].
Qed.

Lemma swap_settings su s h : settings (swap su (with_stores s h)) = settings h.
Proof. unfold swap. by destruct (su_Searcher su). Qed.

Lemma swap_host su s h : hd_host (swap su (with_stores s h)) = hd_host h.
Proof. unfold swap. by destruct (su_Searcher su). Qed.

Lemma swap_config su s h : hd_Config (swap su (with_stores s h)) = hd_Config h.
Proof. unfold swap. by destruct (su_Searcher su). Qed.

Lemma swap_live opts su s h : built (settings h) (OptTokenEstimator estimator :: opts) su -> live opts (swap su (with_stores s h)).
Proof. intros Hb. exists su. rewrite swap_settings. split; [|done]. unfold swap. by destruct (su_Searcher su). Qed.

(** *** The queues *)

Record queues_ok (h : Holder R) : Prop := {
  qo_live : forall i, hd_embeds h = Some i -> i ∉ hd_closing h /\ exists q, hd_queues h !! i = Some q /\ ch_closed (eq_jobs q) = false;
  qo_old : forall i q, hd_queues h !! i = Some q -> hd_embeds h = Some i \/ i ∈ hd_closing h \/ ch_closed (eq_jobs q) = true;
  qo_closing : forall i, i ∈ hd_closing h -> (i < length (hd_queues h))%nat;
  qo_once : forall i q, hd_queues h !! i = Some q -> eq_closeOnce q = ch_closed (eq_jobs q)
}.

Lemma queues_ok_ext h h' : hd_embeds h' = hd_embeds h -> hd_queues h' = hd_queues h -> hd_closing h' = hd_closing h -> queues_ok h -> queues_ok h'.
Proof. intros He Hq Hc [? ? ? ?]. split; rewrite ?He, ?Hq, ?Hc; done. Qed.

Lemma swap_queues su h : queues_ok h -> queues_ok (swap su h).
Proof.
  intros [Hl Ho Hc Hn]. unfold swap. set (old := match hd_embeds h with Some i => [i] | None => [] end).
  assert (forall i, i ∈ old -> hd_embeds h = Some i) as Hold.
  { intros i. unfold old. destruct (hd_embeds h); [|by intros ?%elem_of_nil]. by intros ->%list_elem_of_singleton. }
  assert (forall i, hd_embeds h = Some i -> i ∈ old) as Hold' by (intros i E; unfold old; rewrite E; by left).
  assert (forall i, i ∈ hd_closing h ++ old -> (i < length (hd_queues h))%nat) as Hlt.
  { intros i [?|Hi%Hold]%elem_of_app; [by apply Hc|]. destruct (Hl i Hi) as (_ & q & Hq & _). by apply lookup_lt_Some in Hq. }
  assert (forall i q, hd_queues h !! i = Some q -> i ∈ hd_closing h ++ old \/ ch_closed (eq_jobs q) = true) as Hall.
  { intros i q Hq. rewrite elem_of_app. destruct (Ho i q Hq) as [?|[?|?]]; eauto. }
  destruct (su_Searcher su) as [se|]; split; cbn [hd_embeds hd_queues hd_closing].
  - intros i [= <-]. split; [intros Hi%Hlt; lia|]. eexists. split; [by apply list_lookup_middle|done].
  - intros i q [Hq|[Hi [H0 <-]%list_lookup_singleton_Some]]%lookup_app_Some.
    + right. by apply Hall.
    + left. f_equal. lia.
  - intros i Hi%Hlt. rewrite length_app. lia.
  - intros i q [Hq|[_ [_ <-]%list_lookup_singleton_Some]]%lookup_app_Some; [by eapply Hn|done].
  - done.
  - intros i q Hq. right. by apply Hall.
  - exact Hlt.
  - exact Hn.
Qed.

Lemma run_close_queues i h : queues_ok h -> queues_ok (run_close i h).
Proof.
  intros [Hl Ho Hc Hn]. unfold run_close. case_bool_decide as Hi; [|by split].
  assert (forall q, eq_closeOnce q = ch_closed (eq_jobs q) -> ch_closed (eq_jobs (Close q)) = true /\ eq_closeOnce (Close q) = true) as Hclose.
  { intros q Hq. unfold Close. destruct (eq_closeOnce q) eqn:E; [by rewrite <- Hq|done]. }
  assert (forall j, j ∈ List.filter (fun j => negb (Nat.eqb j i)) (hd_closing h) <-> j ∈ hd_closing h /\ j <> i) as Hf.
  { intros j. rewrite !list_elem_of_In, filter_In, negb_true_iff, Nat.eqb_neq. done. }
  split; cbn [with_queues hd_embeds hd_queues hd_closing].
  - intros j Hj. destruct (Hl j Hj) as (Hnot & q & Hq & Hopen). rewrite Hf. split; [tauto|]. exists q. split; [|done].
    rewrite list_lookup_alter_ne; [done|]. by intros ->.
  - intros j q. destruct (decide (i = j)) as [->|Hne].
    + rewrite list_lookup_alter_eq. intros (q0 & Hq & ->)%fmap_Some. right. right. apply Hclose. by eapply Hn.
    + rewrite list_lookup_alter_ne by done. intros Hq. rewrite Hf. destruct (Ho j q Hq) as [?|[?|?]]; auto.
  - intros j [Hj _]%Hf. rewrite length_alter. by apply Hc.
  - intros j q. destruct (decide (i = j)) as [->|Hne].
    + rewrite list_lookup_alter_eq. intros (q0 & Hq & ->)%fmap_Some. destruct (Hclose q0 (Hn _ _ Hq)) as [-> ->]. done.
    + rewrite list_lookup_alter_ne by done. by apply Hn.
Qed.

Lemma send_to_queues i id h h' : send_to i id h = Ok (Some h') -> queues_ok h -> queues_ok h'.
Proof.
  unfold send_to. destruct (hd_queues h !! i) as [q|] eqn:Hq; [|by intros [= <-]]. unfold EmbedQueue.Enqueue.
  destruct (ch_closed (eq_jobs q)) eqn:Hopen; [done|]. destruct (has_room _); [|done]. intros [= <-] [Hl Ho Hc Hn].
  split; cbn [with_queues hd_embeds hd_queues hd_closing].
  - intros j Hj. destruct (Hl j Hj) as (Hnot & q' & Hq' & Hopen'). split; [done|]. destruct (decide (i = j)) as [->|Hne].
    + eexists. split; [by apply list_lookup_insert_eq, (lookup_lt_Some _ _ q)|done].
    + exists q'. by rewrite list_lookup_insert_ne.
  - intros j q'. rewrite list_lookup_insert. case_decide as Hd; [|apply Ho]. destruct Hd as [-> _]. intros [= <-].
    destruct (Ho j q Hq) as [?|[?|?]]; [by left|by right; left|congruence].
  - intros j Hj. rewrite length_insert. by apply Hc.
  - intros j q'. rewrite list_lookup_insert. case_decide as Hd; [|apply Hn]. intros [= <-]. cbn. by rewrite (Hn _ _ Hq), Hopen.
Qed.

(** *** The operations *)

Lemma buildAndSwap_queues opts h : queues_ok h -> queues_ok (buildAndSwap opts h).1.
Proof.
  intros Hq. pose proof (buildAndSwap_cases opts h) as Hb. destruct (buildAndSwap opts h) as [h' [u|e|p]]; cbn [fst];
    [destruct Hb as (su & s & _ & ->); apply swap_queues|destruct Hb as (s & -> & _)..]; by apply (queues_ok_ext h).
Qed.

Lemma UpdateEngineConfig_cases ec opts h :
  match UpdateEngineConfig ec opts h with
  | (h', Ok _) => exists su s, built (with_Engine (EngineConfigFromRRC ec) (settings h)) (OptTokenEstimator estimator :: opts) su /\
      h' = swap su (with_stores s (with_settings (with_Engine (EngineConfigFromRRC ec) (settings h)) h))
  | (h', Err _) => exists s, h' = with_stores s h /\ ss_observer s = ss_observer (hd_stores h)
  | (h', Panic _) => intact h h'
  end.
Proof.
  unfold UpdateEngineConfig. set (h0 := with_settings _ h). pose proof (buildAndSwap_cases opts h0) as Hb.
  destruct (buildAndSwap opts h0) as [h' [u|e|p]]; [exact Hb|..]; destruct Hb as (s & -> & Hs).
  - exists s. split; [|done]. destruct h as [[paths [? ? ? ? ? ?]] ? ? ? ? ? ? ?]. done.
  - by split.
Qed.

Lemma MutateSettings_cases f h : let out := MutateSettings (fun s => (f s, Ok tt)) h in
  let c := {| cf_Paths := cf_Paths (hd_Config h); cf_Settings := f (settings h) |} in
  hd_Config out.1 = c /\ hd_host out.1 = (Save c (hd_host h)).1 /\ (queues_ok h -> queues_ok out.1) /\
  match out.2 with
  | Ok _ => (Save c (hd_host h)).2 = Ok tt /\ live [] out.1
  | _ => intact h out.1
  end.
Proof.
  cbn zeta. unfold MutateSettings, on_settings, on_host, gom_get, mbind, gom_bind. cbn [fst snd with_settings hd_Config hd_host].
  set (c := {| cf_Paths := cf_Paths (hd_Config h); cf_Settings := f (settings h) |}).
  pose proof (Save_cases c (hd_host h)) as Hs. destruct (Save c (hd_host h)) as [o [[]|e|p]]; cbn [fst snd] in *; [|split; [done|]; split; [done|]; split; [by apply queues_ok_ext|by split]|done].
  set (h0 := with_host o _). pose proof (buildAndSwap_cases [] h0) as Hb. pose proof (buildAndSwap_queues [] h0) as Hq.
  destruct (buildAndSwap [] h0) as [h' [u|e|p]]; [destruct Hb as (su & s & Hb & ->)|destruct Hb as (s & -> & Hs')..];
    cbn [fst snd] in *; rewrite ?swap_config, ?swap_host; (split; [done|]; split; [done|]; split; [intros ?; apply Hq; by apply (queues_ok_ext h)|]);
    [split; [done|by apply swap_live]|by split..].
Qed.

(** *** Updates *)

Lemma Validate_split e : Validate e = None <->
  flt (ec_MinBatchStdDev e) f0 = false /\ (ec_LocalContextSize e <=? 0) = false /\ (ec_RerankTopK e <=? 0) = false /\
  (ec_ContextBudgetTokens e <? 0) = false /\ flt (ec_BudgetHeadroomPct e) f0 = false /\ flt f1 (ec_BudgetHeadroomPct e) = false /\
  flt (ec_LossRatio e) f0 = false /\ flt f1 (ec_LossRatio e) = false /\ (ec_PerMsgDelimiterTokens e <? 0) = false.
Proof.
  unfold Validate. rewrite <- !orb_false_iff, !orb_assoc. by destruct (_ || _).
Qed.

Lemma kept_ratio_valid e s : Validate e = None -> Validate (st_Engine s) = None -> Validate (kept_ratio e s) = None.
Proof.
  rewrite !Validate_split. intros He Hs. unfold kept_ratio. cbn. destruct (feq (ec_LossRatio e) f0); tauto.
Qed.

Lemma decode_input_valid input u e : decode_input input = Ok u -> ud_Engine u = Some e -> Validate e = None.
Proof.
  unfold decode_input, mbind, outcome_bind. repeat match goal with |- context [match decode_field ?w ?d ?f with _ => _ end] => destruct (decode_field w d f); [|done..] end.
  match goal with |- context [option_bind _ _ _ ?o] => destruct o as [e'|] end; cbn; [|by intros [= <-]].
  destruct (Validate e') eqn:E; [done|]. intros [= <-] [= <-]. exact E.
Qed.

Lemma apply_update_valid input u s : decode_input input = Ok u -> Validate (st_Engine s) = None -> Validate (st_Engine (apply_update u s)) = None.
Proof.
  intros Hu Hs. cbn. destruct (ud_Engine u) as [e|] eqn:E; [|done]. apply kept_ratio_valid; [|done]. by eapply decode_input_valid.
Qed.

(** What is in the file loads as the settings in memory. *)
Definition stored `{!SettingsJsonLaws} (h : Holder R) : Prop := exists data s',
  ho_files (hd_host h) !! settingsPath (cf_Paths (hd_Config h)) = Some data /\ parse_settings data = inl s' /\
  st_Engine s' = st_Engine (settings h) /\ (json_exact (settings h) -> s' = settings h).

Lemma apply_settings_cases `{!SettingsJsonLaws} u h : Validate (st_Engine (apply_update u (settings h))) = None ->
  let out := apply_settings u h in
  settings out.1 = apply_update u (settings h) /\ (queues_ok h -> queues_ok out.1) /\
  match out.2 with Ok _ => live [] out.1 /\ stored out.1 | _ => intact h out.1 end /\
  (stored out.1 \/ ho_files (hd_host out.1) = ho_files (hd_host h) \/
   exists n e l, os_WriteFile n (settingsPath (cf_Paths (hd_Config h))) = WriteTorn e l /\ out.2 <> Ok tt).
Proof.
  intros Hv. cbn zeta. pose proof (MutateSettings_cases (apply_update u) h) as Hm. cbn zeta in Hm.
  set (c := {| cf_Paths := cf_Paths (hd_Config h); cf_Settings := apply_update u (settings h) |}) in *.
  pose proof (Save_cases c (hd_host h)) as Hs. cbn zeta in Hs. unfold apply_settings.
  destruct (MutateSettings (fun s => (apply_update u s, Ok tt)) h) as [h' r]. cbn [fst snd] in Hm. destruct Hm as (Hc & Hh & Hq & Hr).
  assert (settings h' = apply_update u (settings h)) as Hset by (unfold settings; by rewrite Hc).
  assert ((Save c (hd_host h)).2 = Ok tt -> stored h') as Hstored.
  { intros Hok. rewrite Hok in Hs. destruct Hs as (data & Hd & Hf). destruct (parse_encoded _ _ Hd Hv) as (s' & Hp & He & Hx).
    exists data, s'. rewrite Hset, Hh, Hf, Hc. split; [apply lookup_insert_eq|done]. }
  assert (stored h' \/ ho_files (hd_host h') = ho_files (hd_host h) \/
    exists n e l, os_WriteFile n (settingsPath (cf_Paths (hd_Config h))) = WriteTorn e l /\ r <> Ok tt) as Hfile.
  { destruct (Save c (hd_host h)).2 as [[]|e|p] eqn:E; [left; by apply Hstored| |done]. right. rewrite Hh. destruct Hs as [->|(n & l & Hw & _)]; [by left|].
    right. exists n, e, l. split; [exact Hw|]. intros ->. destruct Hr as [? _]. congruence. }
  destruct r as [[]|e|p]; cbn [fst snd]; (split; [done|]; split; [done|]; split; [|]); try done.
  - destruct Hr as [Hok Hl]. split; [done|by apply Hstored].
  - destruct Hfile as [?|[?|(n & e' & l & ? & _)]]; [by left|by right; left|]. right. right. by exists n, e', l.
Qed.

(** *** Interleavings *)

(** What the service's goroutines do to the holder; [SendTo] is the second
    half of an [Enqueue] that loaded the queue [i] at any earlier time. *)
Inductive op :=
  | Reload (opts : list Option)
  | Reconfigure (ec : EngineConfig.EngineConfig) (opts : list Option)
  | Update_ (input : SettingsInput)
  | SendTo (i : nat) (messageID : string)
  | RunClose (i : nat).

Definition step (h : Holder R) (o : op) : Holder R :=
  match o with
  | Reload opts => (ReloadProviders opts h).1
  | Reconfigure ec opts => (UpdateEngineConfig ec opts h).1
  | Update_ input => (UpdateSettings input h).1
  | SendTo i id => match send_to i id h with Ok (Some h') => h' | _ => h end
  | RunClose i => run_close i h
  end.

Lemma UpdateSettings_run input u h : decode_input input = Ok u ->
  UpdateSettings input h = match apply_settings u h with
                           | (h', Ok _) => (h', (Settings_query h').2)
                           | (h', Err e) => (h', Err e)
                           | (h', Panic p) => (h', Panic p)
                           end.
Proof. unfold UpdateSettings, gom_lift, mbind, gom_bind. intros ->. by destruct (apply_settings u h) as [h' [| |]]. Qed.

Lemma UpdateSettings_refused input h : (forall u, decode_input input <> Ok u) ->
  (UpdateSettings input h).1 = h /\ forall v, (UpdateSettings input h).2 <> Ok v.
Proof. unfold UpdateSettings, gom_lift, mbind, gom_bind. intros Hno. destruct (decode_input input); [by edestruct Hno|done..]. Qed.

Lemma UpdateSettings_queues input h : queues_ok h -> queues_ok (UpdateSettings input h).1.
Proof.
  intros Hq. unfold UpdateSettings, gom_lift, mbind, gom_bind. destruct (decode_input input) as [u| |]; [|done..].
  unfold apply_settings. pose proof (MutateSettings_cases (apply_update u) h) as (_ & _ & Hm & _). specialize (Hm Hq).
  by destruct (MutateSettings (fun s => (apply_update u s, Ok tt)) h) as [h' [[]|e|p]].
Qed.

Lemma step_queues o h : queues_ok h -> queues_ok (step h o).
Proof.
  intros Hq. destruct o as [opts|ec opts|input|i id|i]; cbn [step].
  - by apply buildAndSwap_queues.
  - pose proof (UpdateEngineConfig_cases ec opts h) as Hu. destruct (UpdateEngineConfig ec opts h) as [h' [u|e|p]].
    + destruct Hu as (su & s & _ & ->). apply swap_queues. by apply (queues_ok_ext h).
    + destruct Hu as (s & -> & _). by apply (queues_ok_ext h).
    + destruct Hu as [? ? ? ? ? ?]. by apply (queues_ok_ext h).
  - by apply UpdateSettings_queues.
  - destruct (send_to i id h) as [[h'|]| |] eqn:E; [|done..]. by eapply send_to_queues.
  - by apply run_close_queues.
Qed.

Lemma steps_queues ops h : queues_ok h -> queues_ok (fold_left step ops h).
Proof. revert h. induction ops as [|o ops IH]; intros h Hq; [done|]. by apply IH, step_queues. Qed.

Lemma NewHolder_queues cfg host db r : queues_ok (NewHolder cfg host db r).
Proof. split; cbn; [done|by intros i q [=]|by intros i ?%elem_of_nil|by intros i q [=]]. Qed.

End Holder.
End Substrate.

Arguments Holder : clear implicits.

Lemma positive_not_zero x : flt f0 x = true -> feq x f0 = false.
Proof. destruct x as [[]|[]| |[] m e]; done. Qed.

Lemma ApplyTo_from ec base : flt f0 (LossRatio ec) = true -> EngineConfigFromRRC (ApplyTo (EngineConfigFromRRC ec) base) = EngineConfigFromRRC ec.
Proof. destruct ec as [id ratio sd k size ch budget head delim]. unfold ApplyTo, EngineConfigFromRRC. cbn [LossRatio ec_LossRatio]. by intros ->. Qed.

Section Claims.
Context {Completer R : Type} `{!Env, !SliceSort, !Os, !MapRange LocalContextScoreKey, !SettingsJson, !InputJson}.
Context (registry : gmap string (ProviderFactory (Completer := Completer))) (estimator : option (string -> Z)) (onReload : option (R -> R)).
#[local] Abbreviation run ops cfg host db r := (fold_left (step registry estimator onReload) ops (NewHolder cfg host db r)).

(** C37: However reloads, settings updates, sends and the closing of old queues
    interleave, and whatever fails, there is at most one live embed queue; it
    is open and not about to be closed, so a send to it never panics; and
    every other queue ever made is closed or has its closer pending, so no
    worker pool is leaked. *)
Theorem one_live_queue (ops : list op) (cfg : Config) (host : Host) (db : Stores) (r : R) :
  let h := run ops cfg host db r in
  (forall i, hd_embeds h = Some i -> i ∉ hd_closing h /\
     exists q, hd_queues h !! i = Some q /\ ch_closed (eq_jobs q) = false /\ forall id p, send_to i id h <> Panic p) /\
  (forall i q, hd_queues h !! i = Some q -> hd_embeds h = Some i \/ i ∈ hd_closing h \/ ch_closed (eq_jobs q) = true).
Proof.
  intros h. destruct (steps_queues registry estimator onReload ops _ (NewHolder_queues cfg host db r)) as [Hl Ho _ _]. fold h in Hl, Ho.
  split; [|exact Ho]. intros i Hi. destruct (Hl i Hi) as (Hc & q & Hq & Hopen). split; [done|]. exists q. split; [done|]. split; [done|].
  intros id p. unfold send_to, EmbedQueue.Enqueue. rewrite Hq, Hopen. by destruct (has_room _).
Qed.

(** An engine update is all or nothing in what requests read: on an error
    the settings, the live substrate, the queues, the runners and the observer
    are as before; on success the settings are those of the new configuration,
    the live engine runs on its knobs whenever its loss ratio is positive, and
    the runners were stopped. *)
Theorem UpdateEngineConfig_atomic (ec : EngineConfig.EngineConfig) (opts : list Option) (h : Holder Completer R) :
  match UpdateEngineConfig registry estimator onReload ec opts h with
  | (h', Ok _) =>
      settings h' = with_Engine (EngineConfigFromRRC ec) (settings h) /\
      hd_runners h' = (match onReload with Some f => f (hd_runners h) | None => hd_runners h end) /\
      exists su, hd_current h' = Some su /\
        (flt f0 (LossRatio ec) = true -> EngineConfigFromRRC (en_cfg (su_Engine su)) = EngineConfigFromRRC ec)
  | (h', Err _) => intact h h' /\ hd_Config h' = hd_Config h /\ hd_host h' = hd_host h
  | (h', Panic _) => intact h h'
  end.
Proof.
  pose proof (UpdateEngineConfig_cases registry estimator onReload ec opts h) as Hu.
  destruct (UpdateEngineConfig _ _ _ ec opts h) as [h' [u|e|p]]; [|destruct Hu as (s & -> & Hs); split; [by split|done]|exact Hu].
  destruct Hu as (su & s & [(est & _ & Hcfg) _] & ->). rewrite swap_settings. split; [done|]. split; [unfold swap; by destruct (su_Searcher su)|].
  exists su. split; [unfold swap; by destruct (su_Searcher su)|]. intros Hpos. rewrite Hcfg. unfold engine_config, engine_eqb.
  cbn [st_Engine with_Engine EngineConfigFromRRC ec_LossRatio zero_engine]. rewrite positive_not_zero by done.
  by apply (ApplyTo_from ec (with_estimator est EngineConfig.DefaultConfig)).
Qed.


End Claims.


(** ** A small service *)
Module SampleHolder.
#[local] Open Scope string_scope.

(** Three documents: the fresh settings, the same with a main provider whose
    adapter is not registered, and the same with an embedder. *)
Definition provider (adapter : string) : ProviderConfig :=
  {| pc_Adapter := adapter; pc_Model := "e"; pc_BaseURL := ""; pc_APIKey := "k"; pc_Options := ∅ |}.
Definition broken : gmap string ProviderConfig := {["main" := provider "gone"]}.
Definition with_embedder : gmap string ProviderConfig := {["embedder" := provider "fake"]}.
Definition doc (data : string) : option Settings :=
  if String.eqb data "S" then Some fresh_settings
  else if String.eqb data "B" then Some (with_Providers broken fresh_settings)
  else if String.eqb data "V" then Some (with_Providers with_embedder fresh_settings) else None.

#[export] Instance json : SettingsJson := {|
  Unmarshal_fields := fun data =>
    match doc data with
    | Some _ => inl {["engine" := "E"]}
    | None => if String.eqb data "E" then inl SampleConfig.all_keys else inr (ENew "invalid character")
    end;
  Marshal_fields := fun fields => if bool_decide (fields = SampleConfig.all_keys) then inl "E" else inl "?";
  Decode_engine := fun cleaned => if String.eqb cleaned "E" then inl default_engine else inr (ENew "json: unknown field");
  Decode_settings := fun um data =>
    match doc data with
    | Some s => match um "E" with inl e => inl (with_Engine e s) | inr e => inr e end
    | None => inr (ENew "invalid character")
    end;
  MarshalIndent_settings := fun s =>
    if bool_decide (st_Engine s = default_engine)
    then inl (match st_Providers s !! "main", st_Providers s !! "embedder" with Some _, _ => "B" | None, Some _ => "V" | None, None => "S" end)
    else inr (ENew "unsupported value")
|}.

Definition known (s : Settings) : Prop := exists data, doc data = Some s /\ MarshalIndent_settings s = inl data.

#[export] Instance json_laws : SettingsJsonLaws.
Proof.
  refine {| json_exact := known |}.
  - intros um data s fields. cbn. destruct (doc data) as [d|]; [|done]. destruct (um "E") as [e|] eqn:E; [|done].
    intros [= <-] _ _. by exists "E".
  - intros s data. cbn. case_bool_decide as He; [|done]. intros [= Hd]. exists {["engine" := "E"]}, "E".
    assert (exists d, doc data = Some d /\ (known s -> d = s) /\ st_Engine d = default_engine) as (d & -> & Hk & Hed).
    { assert (exists d, doc data = Some d /\ st_Engine d = default_engine) as (d & Hd' & Hed).
      { subst data. destruct (st_Providers s !! "main"), (st_Providers s !! "embedder"); by eexists. }
      exists d. split; [done|]. split; [|done]. intros (data' & Hdoc & Hm). cbn in Hm. rewrite bool_decide_eq_true_2 in Hm by done.
      injection Hm as Hm. rewrite Hd in Hm. subst data'. congruence. }
    split; [done|]. split; [done|]. split.
    + exists SampleConfig.all_keys, "E". rewrite He. split; [done|].
      split; [unfold SampleConfig.all_keys; by rewrite dom_list_to_map_L|]. split; [by vm_compute|done].
    + intros um Hum. cbn. rewrite Hum. eexists. split; [reflexivity|]. split; [done|]. intros Hs. specialize (Hk Hs). subst d.
      by destruct s.
Defined.

#[export] Instance input_json : InputJson := {|
  json_Providers := fun t => if String.eqb t "b" then inl broken else if String.eqb t "v" then inl with_embedder else inl ∅;
  json_Strings := fun _ => inl ∅; json_Servers := fun _ => inl []; json_Hooks := fun _ => inl []; json_value := inl;
  marshal_Providers := fun _ => inl "{}"; marshal_Strings := fun _ => inl "{}"; marshal_Servers := fun _ => inl "[]";
  marshal_Hooks := fun _ => inl "[]"; marshal_Engine := fun _ => inl "{}"
|}.

#[local] Existing Instances SampleConfig.os calm_env stable_slice_sort canonical_range.

(** Vectors of width two. *)
Definition fake : Provider unit :=
  {| pv_Completer := None; pv_Embedder := Some (fun _ => inl (fun _ texts => Ok ((fun _ => [f1; f0]) <$> texts))); pv_Scorer := None |}.
Definition registry : gmap string (ProviderFactory (Completer := unit)) := RegisterProvider "fake" (Some (fun _ => inl fake)) ∅.
Definition estimator : option (string -> Z) := Some (fun s => Z.of_nat (slen s)).

Definition db : Stores := {| ss_db := {| w_tables := empty_tables; w_tick := 0 |}; ss_observer := None |}.
Definition start : Holder unit nat := NewHolder SampleConfig.config SampleConfig.empty db 0%nat.
#[local] Abbreviation stopped := (Some S).
Definition boot (h : Holder unit nat) : Holder unit nat * outcome unit := Bootstrap registry estimator stopped [] h.
Definition update (providers : string) : SettingsInput :=
  {| si_Providers := Some providers; si_Permissions := None; si_McpServers := None; si_Hooks := None; si_Preferences := None; si_Engine := None |}.
Definition save (providers : string) (h : Holder unit nat) := UpdateSettings registry estimator stopped (update providers) h.

Definition booted : Holder unit nat := Eval vm_compute in (boot start).1.

(** A provider whose adapter is unknown is refused with an error, but it is
    already in the file: the next start loads it and does not come up. *)
Definition after_broken := save "b" booted.
Example broken_refused : after_broken.2 =
  Err (EWrap "apply settings: " (EWrap "rebuild substrate: " (EWrap "main provider: "
    (adapter_error "gone" "not registered (import the adapter package to enable it)") "") "") "").
Proof. vm_compute. reflexivity. Qed.
Example broken_stays_live : hd_runners after_broken.1 = hd_runners booted /\ is_Some (Engine_ after_broken.1).
Proof. split; [vm_compute; reflexivity|vm_compute; by eexists]. Qed.
Example broken_boot :
  match Load (hd_host after_broken.1) with
  | (host, Ok c) => (boot (NewHolder c host (hd_stores after_broken.1) 0%nat)).2 =
      Err (EWrap "rebuild substrate: " (EWrap "main provider: "
        (adapter_error "gone" "not registered (import the adapter package to enable it)") "") "")
  | _ => False
  end.
Proof. vm_compute. reflexivity. Qed.

(** A sender that loaded the queue before a reload and sends after the old
    queue was closed panics. *)
Definition embedding := (save "v" booted).1.
Example stale_send : EmbedQueue_ embedding = Some 0%nat /\
  let h := (ReloadProviders registry estimator stopped [] embedding).1 in
  EmbedQueue_ h = Some 1%nat /\ send_to 0 "m1" (run_close 0 h) = Panic "send on closed channel".
Proof. vm_compute. repeat split. Qed.
End SampleHolder.

#[local] Existing Instances SampleHolder.json SampleHolder.json_laws SampleHolder.input_json.
